(* ===== verification/_CoqProject ===== *)
-Q . S2P
Prelude.v
Btree.v
TxStore.v
Mempool.v
TxStoreProps.v
BatchProps.v
MempoolProps.v
ShardProps.v
MempoolTheorems.v
Storage.v
Account.v
StateLedger.v
StateLedgerProps.v
LedgerTheorems.v
BlockProps.v
BlockCommit.v
BlockTheorems.v
Contract.v
Dispatch.v
LedgerRefinement.v
TransactionManager.v
TransactionManagerProps.v
Interchain.v
InterchainProps.v
Executor.v
ExecutorProps.v
CrossChainTheorems.v
CrossChainSample.v
Transactions.v
TransactionTheorems.v
Blocks.v
TxExecutor.v
ExecutorSample.v
ChainLedger.v
ChainLedgerProps.v
ChainSample.v
Role.v
ProofPool.v
ProofTheorems.v
Pipeline.v
PipelineProps.v
Governance.v
GovernanceProps.v
GovernanceSteps.v
GovernanceTheorems.v
GovernanceClaims.v
Strategy.v
Registry.v
Nodes.v
RoleManager.v
Names.v
Dapp.v
Appchain.v
Service.v
Rule.v
AppchainManager.v
RuleManager.v
NodeManager.v
RoleSteps.v
NamesTheorems.v
RegistrySteps.v
RoleTheorems.v
RegistryTheorems.v
DappTheorems.v
NodeTheorems.v
Broker.v
BrokerTheorems.v
Genesis.v
GenesisTheorems.v
GovernanceInstances.v
RegistryInstances.v
NamesSample.v
GovernanceSample.v
RegistrySample.v
PipelineSample.v
Syncer.v
Router.v
Consensus.v
ConsensusTheorems.v
Filters.v
