(* ===== verification/Prelude.v ===== *)
(** * Verification of the BitXHub relay chain

BitXHub is a relay chain for calls between blockchains ("appchains"). Its core, in Go, is:

- the mempool ([src/pkg/order/mempool]): it pools transactions, keeps them in nonce order per
  account, and cuts blocks for the consensus engines;
- the state ledger ([src/internal/ledger]): accounts with balances, nonces, code and key-value
  state on a database, with caches, snapshots inside a block and journals per block;
- the built-in contracts ([src/internal/executor/contracts]), which run on the ledger through
  the stub of [src/pkg/vm/boltvm]: the interchain contract receives messages between chains
  (IBTPs), the transaction manager keeps the state of every cross-chain transaction, the
  governance, role and strategy contracts let administrators vote on changes of the chain, and the
  registries keep the chains, services, rules, nodes and applications that are voted on, and the
  names of services;
- the chain ledger ([src/internal/ledger/chain_ledger_impl.go]): blocks, transactions and receipts in
  a file, with indices in a database;
- the block executor ([src/internal/executor]), which checks the proofs of messages
  ([src/pkg/proof]), applies the transactions of a block, rolls back cross-chain transactions whose
  time is up, completes the header and writes both ledgers, or goes back when a block is replaced;
- the first block ([src/internal/ledger/genesis]), which a node without blocks writes;
- consensus ([src/pkg/order]): the loops of a solo node and of a raft node, which feed the mempool, take
  batches from it and hand blocks to the executor, and the syncer, which fetches blocks from other nodes;
- the router ([src/internal/router]), which sends the messages of blocks to the gateways of the chains;
- the filters for logs of Ethereum contracts ([src/api/jsonrpc/namespaces/eth/filters]).

This library translates these parts into Rocq functions and proves what makes them correct.

** How the code is translated

- Integers are [Z]. Where the source computes with [uint64] the wrap-around is written out
  ([u64], and [x +u y] of the scope [go_scope]); [*big.Int] is [Z] itself.
- A [string] or [[]byte] is a [string]; a slice that may be nil is an [option string] ([bytes]).
- Go maps are [gmap]s. A range over a map has an unspecified order: it goes through the class
  [GoRange], of which only is known that each entry is visited once, so that every theorem holds
  for every order.
- A panic is [None]; an error is a value of an option, sum or response type. Theorems that an
  operation succeeds therefore also say that it does not panic.
- Mutable objects are values that are passed and returned. Where the source shares an object
  through pointers and this can be observed (the change logs of the ledger) there is a heap. The
  contracts are shared objects too, whose stub every call replaces: their models keep the context
  of the call, and [Dispatch.v] says for which calls this is exact ([stub_stable]).
- Packages outside [src] are classes: their functions are fields, and the documented behaviour
  that the code relies on are the laws. Each class has an instance, with which the witnesses
  evaluate the definitions: [BTreeLib] ([btree_by_list]), [StorageLib] ([storage_by_map]),
  [LruLib] ([lru_by_list]), [AddressLib], [HashLib], [InnerAccountLib], [AccessListLib]
  ([access_by_sets]), [FsmLib] ([fsm_by_filter]), [TxPbLib], [PbLib], [ConstantLib],
  [ServiceLib], [PeerContracts], [GovernanceLib], [EvalLib], [GovAddrLib], [RoleLib], [ManageLib],
  [QueryLib], [RegistryPkg] ([stored_registry]) with [NodePkg], [AppchainPkg], [RulePkg] and [ServicePkg],
  [DappLib], [GoSort] ([sort_by_merge]), [BindLib], [AppchainJsonLib], [RuleJsonLib],
  [NameLib], [GenesisLib], [BrokerLib], [BvmLib], [EventLib], [BloomLib] ([bloom_by_list]), [BlockFileLib] ([file_by_list]), [ChainLib], [ProofLib], [MerkleLib],
  and [Encoding], [Codec] and [JsonCodec] for protobuf and JSON.
- Logging, metrics, locks and event feeds are left out: the operations are those of one
  goroutine, which is how the callers of the mempool and the serial executor use them. Where the
  source runs routines at the same time and waits for them, the order in which they come to
  their lock is an argument ([verifyProofs]). The loops around channels and timers are functions from a state
  and an event to the next state; where two routines of a node exchange values over a channel without a buffer, a
  step relation has all their interleavings ([solo_step]).
- Loops whose length is not the length of a list take fuel: [includeSkipped] (one more than
  the number of skipped transactions, each of which it sends at most once) and the loops of
  [shardTxList] (the number of slices, and the length of one), the search for a threshold
  ([threshold_loop]: the numbers up to the electorate), the ranges of heights ([calcRanges]: their number) and the blocks
  that are searched for logs ([unindexedLogs]: one more than there are); theorems about them state that a result is returned, so the fuel is enough. Contracts that call each other in turn are
  tied by a bound on the depth of calls ([Manage_to]); the theorems hold for every bound.

** The files

Mempool: [Btree.v] models [btree_index.go] over the B-tree package, [TxStore.v] the store of
[tx_store.go], [Mempool.v] the operations of [mempool_impl.go]. [TxStoreProps.v] specifies the
parts of the store, [BatchProps.v] block generation, [MempoolProps.v] the invariant
([store_inv]), [ShardProps.v] the rebroadcast. [MempoolTheorems.v]: the runs of a mempool as a
step relation: the nonces of the ledger do not change, transactions have nonces below the largest uint64, times do not
overflow, and transactions that were pooled for too long are removed when no account that loses one keeps one with a nonce
that another account loses ([nonces_apart]; [removeAlive_breaks_index] shows the other case); in every reachable state the
indexes agree and no operation panics ([mempool_invariant]); a block holds pooled transactions in nonce order without gaps, repetitions or more than a positive
batch size ([generateBlock_spec]), and nothing that is ready is left when it has fewer transactions than both the batch size
and the counter of ready transactions, which may count too many ([generateBlock_drains]); what admission, commit and
rebroadcast do ([ProcessTransactions_spec], [CommitTransactions_spec]).

State ledger: [Storage.v] holds the interfaces of the packages below the ledger; [Account.v]
models [account.go], [account_cache.go], [key.go] and the change log of [state_changer.go];
[StateLedger.v] the ledger of [simple_ledger.go], [state_accessor.go], [block_journal.go] and
[evmstate_accessor.go], in the state monad [LM]. [StateLedgerProps.v] defines what a client of
the ledger can observe ([same_view]) and how each operation changes it. [LedgerTheorems.v]:
[RevertToSnapshot_spec], in the first transaction of a block going back to a snapshot restores all that can be observed
after any sequence of the operations [txop] (balances, nonces, states, refunds, preimages, logs and access lists); [SetCode] and [Suiside] are not among them, because undoing them leaves changes behind ([unlogged_changes_stay]),
nor is [AddState], which is not logged. [BlockProps.v] has the invariant of a block that is being executed
([block_inv]: the accounts remember the values of the database), [BlockCommit.v] the writes of a
commit and of a rollback; [BlockTheorems.v]: a commit keeps the contents ([commit_block]), a
rollback gives those from before the block ([rollback_block]), and so does opening the database
again ([reopen_ledger]), for ledgers that were built from an empty database by such blocks ([built]), addresses that cannot
be taken for another kind of key ([plain_addr]), and states with ASCII keys and non-empty values.

Programs on the ledger: [Contract.v] has the syntax of programs ([prog]) that use the ledger, the
abstract state they work on ([world]: plain maps), their semantics on both ([run_ledger],
[run_world]; [exec] also returns the state of a program that panicked), and the stub
[bolt_stub.go]. [LedgerRefinement.v]: [run_ledger_refines], the ledger with its four layers of
caches implements [world]. The contracts and the executor are such programs, so that their
theorems, proved on [world], hold on the ledger. [Dispatch.v] models the stubs in the contract objects
when contracts call each other and come back.

Cross-chain transactions: [TransactionManager.v] models [transaction_manager.go],
[Interchain.v] models [interchain.go], [Executor.v] balances and timeouts of [handle.go]. The
interchain contract calls the transaction manager as the source does; the other contracts it
calls are the class [PeerContracts], which promises that they leave the state of these two
contracts alone. Lemmas are in [TransactionManagerProps.v], [InterchainProps.v] and
[ExecutorProps.v]. [CrossChainTheorems.v]: one-to-many transactions are atomic
([global_tx_atomic], by induction over the steps that reach the contract, timeouts included);
a transaction accepts one receipt and is final after it ([single_tx_lifecycle]); requests and
receipts are counted one by one and in order, and are not replayed ([HandleIBTP_request_spec],
[HandleIBTP_no_replay], [HandleIBTP_receipt_spec], [HandleIBTP_refused]); transfers and gas fees
([transfer_conserves], [payGasFee_spec]); lists of timeouts ([timeout_list_spec]).
[CrossChainSample.v] has the instances and the concrete runs. [Broker.v] models the broker for calls of the
relay chain itself ([inter_broker.go]), plain storage ([store.go]) and trust roots ([trust_chain.go]), and shows that the
broker and the registries of chains and services implement [PeerContracts] ([real_peers]); [BrokerTheorems.v] is
about their methods.

Transactions and blocks: [Transactions.v] models how a transaction is applied ([applyTransaction] of
[handle.go], the dispatch to built-in contracts of [boltvm.go]); the Ethereum and the WebAssembly
machines are parameters. [TransactionTheorems.v]: [applyTransaction_refines], a transaction with its
snapshots, fee and nonce does on the ledger what its specification ([tx_world]) does on plain maps;
arguments come back from their text ([parseArgs_roundtrip]). [Blocks.v] has blocks and the checks before their execution, [TxExecutor.v] the serial
executor and the events of transactions, with [ApplyTransactions_receipts].
[ExecutorSample.v] has instances and runs. [ProofPool.v] models the proofs of messages
([proof_pool.go], and the signed bytes of [utils.go]); [ProofTheorems.v]: the check in parallel is the
serial one ([verifyProofs_parallel]), and of n validators more than (n - 1)/3, rounded down, have to have signed
([verifyMultiSign_quorum]). [ChainLedger.v] models [chain_ledger_impl.go]; [ChainLedgerProps.v]: it
implements a list of blocks ([represents]) with append, truncate and look-up
([PersistExecutionResult_append], [RollbackBlockChain_truncate], [chain_queries]). [Pipeline.v] puts
these parts together ([processExecuteEvent], [ledger.go]); [PipelineProps.v]: the two ledgers and the
executor agree after every block ([processExecuteEvent_ok]). [ChainSample.v] and [PipelineSample.v] have
instances and runs.

Governance: [Role.v] has the administrators of [role.go], their queries and state machine, the
permissions of [common.go] and the decisions on strategies of [internal/repo]; [Governance.v] models
proposals and votes ([governance.go]), [Strategy.v] the strategies ([proposal_strategy.go]) and
[RoleManager.v] the proposals about administrators and their results ([role.go]). When a vote is
over, the governance contract calls the [Manage] method of the contract responsible for the object,
which may call the governance contract again: the class [ManageLib] is what it asks of them.
[GovernanceProps.v] has the invariant of the stored proposals, [GovernanceSteps.v] the steps that
change them, [GovernanceTheorems.v] that every method is made of these steps, for every [ManageLib];
[RoleSteps.v] that the role and the strategy contract are such contracts ([manage_to]).
[GovernanceClaims.v]: the invariant of reachable states ([governance_invariant], [votes_bounded]); what
a strategy decides ([decision_sound], [threshold_least]); what a vote does ([Vote_effect],
[Vote_refused]). [RoleTheorems.v]: [role_proposal_cycle],
[super_admin_protected], [role_Manage_protected], [strategies_passable]. [GovernanceInstances.v] has the
instances and [GovernanceSample.v] the concrete runs.

Registries: [Registry.v] has what they share; the packages of bitxhub-core that keep nodes, chains, rules and
services, each with a state machine of its own, are the classes [RegistryPkg], [NodePkg], [AppchainPkg], [RulePkg] and
[ServicePkg], whose queries only read and whose changes stay in the state of their contract. [Nodes.v] and
[NodeManager.v] model [node_manager.go], [Appchain.v] and [AppchainManager.v] model [appchain_manager.go], [Service.v]
[service_manager.go], [Rule.v] and [RuleManager.v] [rule_manager.go], [Dapp.v] [dapp_manager.go]; the files are split
where two contracts call each other, as the calls go. [RoleSteps.v] and [RegistrySteps.v]: all of them carry out results
as the governance contract expects, to any depth of calls ([Manage_all], [registries_keep_proposals]).
[RegistryTheorems.v]: the methods that check that a contract calls them refuse others ([registry_calls_restricted]);
[ZeroPermission] of the governance contract does not check it ([ZeroPermission_unguarded]).
[DappTheorems.v]: the results of proposals about applications as operations on plain functions ([dapp_registry], [does]):
[dapp_registration_result], [dapp_update_result], [dapp_proposal_cycle]; names and contracts are not taken over
([dapp_names_not_taken_over]). [NodeTheorems.v]: numbers of validating nodes ([vp_ids_fresh]), their logout
([vp_logout_guarded]), and the comparison of sets ([strset_changed_differ]). [RegistryInstances.v] and
[RegistrySample.v] have the instances and the concrete runs.

Names: [Names.v] models the registry and the resolver of names ([service_registry.go], [service_resolver.go]), which call
each other. [NamesTheorems.v]: what a registration needs and does ([name_registration]); the owner of a name of the first level is kept by the calls
of others while its time and grace last, but for the method [Manage], which anybody can call ([name_owner_kept],
[anyone_takes_names]), the data of a name is changed only by those who control it ([resolver_guarded]). All
nodes list the same domains ([all_domains_same]). [NamesSample.v] has instances and runs; in [RegistrySample.v] a name is
given out by a vote ([name_by_proposal]).

First block: [Genesis.v] models [genesis.go] on the node of [Pipeline.v]; [GenesisTheorems.v]: the first state satisfies
what the contracts rely on ([first_state]). [PipelineSample.v] has a run.

Blocks of other nodes: [Syncer.v] models [state_syncer.go] and the handlers that serve blocks ([handle.go] of the peer
manager); the answers of the others are parameters. The ranges cover what is asked for when the numbers do not
overflow ([calcRangeHeight_cover]); the
headers that are taken are those of the honest nodes when fewer than a quorum is not honest ([quorum_headers_agree]);
all blocks arrive ([SyncBFTBlocks_complete], [SyncCFTBlocks_complete]) and are executed ([executeSynced_all]).

Messages for gateways: [Router.v] models [interchain.go] of the router and the loop of [feedhub.go] that starts one routine
per block; [send_step] has all interleavings of these routines, over channels of limited capacity. A gateway that was away
catches up with what those that listened got, in the order of blocks, while they may have got it in another order
([router_catch_up]).

Logs: [Filters.v] models the queries for logs and the filters that clients poll, on the chain ledger. A query that begins
with block 1 or later finds exactly the logs that match ([Logs_exact]); a client that polls gets each of them once ([polls_exactly_once]).

Consensus: [Consensus.v] models the cache of transactions ([tx_cache.go]), the timer of batches ([timer_mgr.go]), the solo
node and the raft node ([node.go] and [util.go]). The core of raft is a parameter: what it hands over is the argument of
[handleReady]. [ConsensusTheorems.v]: no transaction is lost in the cache ([cache_keeps]); the invariant [sent_inv], with
which a mempool sends no transaction twice; a solo node commits consecutive blocks and no transaction twice, and answers queries with pooled
transactions, whatever the interleaving of its two routines, where each call of the mempool is one step ([solo_chain]); the blocks of a raft node are those of its log ([raft_refines_log]), also when it is
started again on a ledger that has the blocks of the entries it skips, or, when the log has no batch that is ahead of its
time, on one that has more ([resumes]); two nodes with one log agree ([raft_replicas_agree]).

Some theorems show where the code does not do what it means to: in [MempoolTheorems.v]
[parked_commit_stalls_account], [replaced_hash_is_stale], [removeAlive_breaks_index]; in
[LedgerTheorems.v] [second_transaction_not_reverted], [cleared_snapshot_panics],
[unlogged_changes_stay]; in [BlockTheorems.v] [AddState_rollback_loses]; in [CrossChainTheorems.v] [self_transfer_mints],
[negative_transfer_takes], [emptied_list_loses_timeout], [failed_child_notifies_nobody]; in
[CrossChainSample.v] [batch_request_replayed], [single_child_failure_stuck],
[inter_relay_record_overwritten], [notify_map_uses_first_id]; in [GovernanceClaims.v]
[wrapped_electorate_open], [ZeroPermission_unguarded]; in [RoleTheorems.v] [rejected_logout_of_binding_fails],
[replaced_admins_unreadable]; in [GovernanceSample.v] [withdrawn_proposal_reopened],
[rejected_logout_grows_electorate]; in [DappTheorems.v] [renamed_dapp_unindexed]; in [RegistrySample.v]
[approved_chain_update], [first_success_counts_half]; in [ExecutorSample.v] [failed_ibtp_not_reverted],
[failed_call_updates_cache], [int32_argument_cut]; in [ProofTheorems.v] [rejected_without_error_panics],
[unknown_proof_type_panics], [multisign_ambiguous]; in [ChainSample.v] [GetBlockHash_wrong],
[rollback_keeps_hashes]; in [NamesTheorems.v] [long_names_free], [renewal_ends_name], [anyone_takes_names]; in
[NamesSample.v] [second_level_taken], [rich_caller_refused]; in [BrokerTheorems.v] [emit_never_succeeds], [result_not_returned], [in_message_unknown],
[forged_message]; in [Dispatch.v] [reentry_turns_audit_off]; in [PipelineSample.v] [names_lost]; in [Syncer.v]
[calcRanges_never_ends], [retry_never_ends], [forged_blocks_taken]; in [Router.v] [left_channel_blocks]; in
[ConsensusTheorems.v] [snapshot_reached_waits], [solo_keeps_transactions], [snapshot_before_execution], [replay_differs],
[new_leader_sends_again], [lost_proposal_stalls]; in [Filters.v] [earliest_finds_nothing], [pending_logs_never_come].

** What is not modelled

The core of raft with its files, and SmartBFT, which are libraries; networking; timers (an event of a timer may come at any
time); the virtual machines and cryptography, which are libraries; the bloom filters of receipts and headers outside [Filters.v];
the historical state ledger, which is a library; what [Query] finds (it reads the layers of the ledger, and is an
interface of the contracts here); the asset contract, which decodes events of the EVM with a library; the API servers but for filters of logs,
the command line and the configuration. What is left is input and output, or calls of libraries that [src] does not hold.

** This file

Integers with their width, lists, iteration over maps, strings and decimal numbers, and the
classes of encodings; the scope [go_scope], the hint databases [ints], [writes], [reads] and [safe]. *)
From Stdlib Require Import Ascii.
From stdpp Require Export prelude gmap strings pretty sorting.

(** ** Fixed-width integers

Go's [uint64] and [int64] values are integers in [Z]; the arithmetic of the
source that can wrap is written with [u64] / [i64] around it. *)

Definition u64 (z : Z) : Z := z `mod` 2 ^ 64.
Definition i64 (z : Z) : Z := (z + 2 ^ 63) `mod` 2 ^ 64 - 2 ^ 63.
Definition MaxUint64 : Z := 2 ^ 64 - 1.
Definition MaxInt64 : Z := 2 ^ 63 - 1.
Definition is_u64 (z : Z) : Prop := (0 ≤ z < 2 ^ 64)%Z.
Definition is_i64 (z : Z) : Prop := (- 2 ^ 63 ≤ z < 2 ^ 63)%Z.

Global Instance is_u64_dec z : Decision (is_u64 z).
Proof. unfold is_u64. apply _. Defined.

Lemma u64_range z : is_u64 (u64 z).
Proof. unfold is_u64, u64. apply Z.mod_pos_bound. lia. Qed.

Lemma u64_small z : is_u64 z → u64 z = z.
Proof. unfold is_u64, u64. intros. by apply Z.mod_small. Qed.

Lemma u64_succ_pred z : is_u64 z → u64 (u64 (z - 1) + 1) = z.
Proof.
  unfold is_u64, u64. intros.
  rewrite Zplus_mod_idemp_l. rewrite Z.sub_add. by apply Z.mod_small.
Qed.

(** [x +u y] is addition of [uint64] values. *)
Declare Scope go_scope.
Delimit Scope go_scope with go.
Open Scope go_scope.
Notation "x +u y" := (u64 (x + y)%Z) (at level 50, left associativity) : go_scope.

(** Arithmetic that stays in range does not wrap: [simp_u64] removes such wrap-arounds. *)
Create HintDb ints.
Ltac solve_range := unfold is_u64, is_i64, MaxUint64, MaxInt64 in *; lia.
#[export] Hint Rewrite u64_small using solve_range : ints.
#[export] Hint Resolve u64_range : ints.
Tactic Notation "simp_u64" := autorewrite with ints.
Tactic Notation "simp_u64" "in" hyp(H) := autorewrite with ints in H.

(** The lemmas of [writes] bound the keys that a program of [Contract] writes. *)
Create HintDb writes.
(** Which programs only read. *)
Create HintDb reads.
(** Lemmas that a computation is made of steps of the governance contract. *)
Create HintDb safe.

Lemma i64_small z : is_i64 z → i64 z = z.
Proof.
  unfold is_i64, i64. intros. rewrite Z.mod_small; lia.
Qed.

(** ** Decidable propositions as booleans *)

Lemma bool_decide_iff (P Q : Prop) `{Decision P, Decision Q} :
  (P ↔ Q) → bool_decide P = bool_decide Q.
Proof. apply bool_decide_ext. Qed.

(** ** Lists *)

Lemma StronglySorted_filter {A} (R : relation A) (P : A → Prop) `{∀ x, Decision (P x)} l :
  StronglySorted R l → StronglySorted R (filter P l).
Proof.
  induction 1 as [|x l Hl IH Hx]; [constructor|].
  rewrite filter_cons. case_decide; [|done]. constructor; [done|].
  apply Forall_forall. intros y [_ Hy]%list_elem_of_filter. by eapply Forall_forall in Hx.
Qed.

Lemma filter_keep {A} (P : A → Prop) `{∀ x, Decision (P x)} (l : list A) :
  (∀ x, x ∈ l → P x) → filter P l = l.
Proof.
  induction l as [|x l IH]; intros Hall; [done|].
  rewrite filter_cons_True by (apply Hall; set_solver). f_equal. apply IH. set_solver.
Qed.

Lemma filter_none {A} (P : A → Prop) `{∀ x, Decision (P x)} (l : list A) :
  (∀ x, x ∈ l → ¬ P x) → filter P l = [].
Proof.
  induction l as [|x l IH]; intros Hall; [done|].
  rewrite filter_cons_False by (apply Hall; set_solver). apply IH. set_solver.
Qed.

(** ** Iteration over Go maps

Go leaves the iteration order of a map unspecified. [GoRange] is that order: a
parameter of every definition that ranges over a map, of which only this is
known, that the range visits each entry exactly once. *)

Class GoRange := {
  go_range {K V} `{Countable K} : gmap K V → list (K * V);
  go_range_perm {K V} `{Countable K} (m : gmap K V) : go_range m ≡ₚ map_to_list m
}.

(** The iteration order that the witnesses use. *)
Definition range_by_encoding : GoRange :=
  {| go_range K V _ _ m := map_to_list m;
     go_range_perm K V _ _ m := reflexivity (map_to_list m) |}.

Definition go_keys `{GoRange} {K V} `{Countable K} (m : gmap K V) : list K :=
  (go_range m).*1.

Section go_range.
Context `{GoRange} {K V : Type} `{Countable K}.
Implicit Type (m : gmap K V).

Lemma elem_of_go_range m k v : (k, v) ∈ go_range m ↔ m !! k = Some v.
Proof. rewrite go_range_perm. apply elem_of_map_to_list. Qed.

Lemma NoDup_go_keys m : NoDup (go_keys m).
Proof. unfold go_keys. rewrite go_range_perm. apply NoDup_fst_map_to_list. Qed.

Lemma elem_of_go_keys m k : k ∈ go_keys m ↔ is_Some (m !! k).
Proof.
  unfold go_keys. rewrite list_elem_of_fmap. split.
  - intros ([k' v] & -> & Hin%elem_of_go_range). eauto.
  - intros [v Hv]. exists (k, v). by rewrite elem_of_go_range.
Qed.

(** Ranging over [upd] and storing each entry in [m] overwrites [m] with [upd]. *)
Lemma go_range_store upd m :
  fold_left (λ m '(k, v), <[k := v]> m) (go_range upd) m = upd ∪ m.
Proof.
  assert (∀ l m, NoDup l.*1 →
    fold_left (λ m '(k, v), <[k := v]> m) l m = (list_to_map l : gmap K V) ∪ m) as Hl.
  { clear. intros l. induction l as [|[a n] l IH]; intros m Hnd; simpl.
    - by rewrite (left_id_L ∅ (∪)).
    - apply NoDup_cons in Hnd as [Hn Hnd]. rewrite (IH _ Hnd).
      rewrite <-insert_union_r by (by apply not_elem_of_list_to_map). by rewrite insert_union_l. }
  rewrite Hl by apply NoDup_go_keys. f_equal.
  rewrite <-(list_to_map_to_list upd) at 2. apply list_to_map_proper.
  - apply NoDup_go_keys.
  - apply go_range_perm.
Qed.

Lemma length_go_range m : length (go_range m) = size m.
Proof. rewrite go_range_perm. apply length_map_to_list. Qed.
End go_range.

(** ** Go strings

A Go [string] and a Go [[]byte] are both a Rocq [string] (a list of bytes);
a slice that can be [nil] is an [option string]. *)

Notation bytes := (option string) (only parsing).

(** [bytes.Equal]: a nil slice and an empty slice are equal. *)
Definition bytes_Equal (a b : option string) : bool :=
  bool_decide (default EmptyString a = default EmptyString b).

(** [strings.Split] for a one-byte separator. *)
Fixpoint str_split (sep : ascii) (s : string) : list string :=
  match s with
  | EmptyString => [EmptyString]
  | String c s' =>
      if decide (c = sep) then EmptyString :: str_split sep s'
      else match str_split sep s' with
           | [] => [String c EmptyString]
           | w :: ws => String c w :: ws
           end
  end.

(** [strings.Join] for a one-byte separator. *)
Fixpoint str_join (sep : ascii) (l : list string) : string :=
  match l with
  | [] => EmptyString
  | [x] => x
  | x :: l' => x +:+ String sep (str_join sep l')
  end.

(** [strings.Contains] for a one-byte pattern. *)
Fixpoint str_contains (c : ascii) (s : string) : bool :=
  match s with
  | EmptyString => false
  | String c' s' => bool_decide (c' = c) || str_contains c s'
  end.

(** [strconv.ParseBool] *)
Definition ParseBool (s : string) : option bool :=
  if decide (s ∈ ["1"; "t"; "T"; "TRUE"; "true"; "True"]) then Some true
  else if decide (s ∈ ["0"; "f"; "F"; "FALSE"; "false"; "False"]) then Some false
  else None.

Lemma str_split_not_nil sep s : str_split sep s ≠ [].
Proof. destruct s; simpl; [done|]. case_decide; [done|]. by case_match. Qed.

Lemma str_split_plain sep s : str_contains sep s = false → str_split sep s = [s].
Proof.
  induction s as [|c s IH]; simpl; [done|].
  intros [Hc Hs]%orb_false_iff. apply bool_decide_eq_false in Hc.
  rewrite decide_False by done. by rewrite IH.
Qed.

Lemma str_split_app sep x s :
  str_contains sep x = false → str_split sep (x +:+ String sep s) = x :: str_split sep s.
Proof.
  induction x as [|c x IH]; simpl.
  - intros _. change (EmptyString +:+ String sep s) with (String sep s). simpl. by rewrite decide_True.
  - intros [Hc Hx]%orb_false_iff. apply bool_decide_eq_false in Hc.
    change (String c x +:+ String sep s) with (String c (x +:+ String sep s)). simpl.
    rewrite decide_False by done. by rewrite IH.
Qed.

Lemma str_split_snoc sep s x :
  str_contains sep x = false → str_split sep (s +:+ String sep x) = str_split sep s ++ [x].
Proof.
  intros Hx. induction s as [|c s IH].
  - change (EmptyString +:+ String sep x) with (String sep x). simpl. rewrite decide_True by done.
    by rewrite str_split_plain.
  - change (String c s +:+ String sep x) with (String c (s +:+ String sep x)). simpl.
    case_decide; rewrite IH; [done|]. pose proof (str_split_not_nil sep s). by destruct (str_split sep s).
Qed.

(** Splitting a joined list gives the list back, when it is not empty and no
element contains the separator. *)
Lemma str_split_join sep l :
  l ≠ [] → Forall (λ x, str_contains sep x = false) l →
  str_split sep (str_join sep l) = l.
Proof.
  induction l as [|x l IH]; [done|]. intros _ [Hx Hl]%Forall_cons.
  destruct l as [|y l]; [by apply str_split_plain|].
  change (str_join sep (x :: y :: l)) with (x +:+ String sep (str_join sep (y :: l))).
  rewrite str_split_app by done. by rewrite IH.
Qed.

(** Joining what was split gives the string back. *)
Lemma str_join_split sep s : str_join sep (str_split sep s) = s.
Proof.
  induction s as [|c s IH]; simpl; [done|].
  pose proof (str_split_not_nil sep s).
  case_decide as Hc.
  - subst. destruct (str_split sep s); [done|].
    change (EmptyString +:+ String sep (str_join sep (s0 :: l)) = String sep s).
    by rewrite IH.
  - destruct (str_split sep s) as [|w [|w' ws]]; [done|by rewrite <-IH|].
    by rewrite <-IH.
Qed.

Lemma str_contains_app c s1 s2 :
  str_contains c (s1 +:+ s2) = str_contains c s1 || str_contains c s2.
Proof.
  induction s1 as [|c' s1 IH]; simpl; [done|].
  change (String c' s1 +:+ s2) with (String c' (s1 +:+ s2)). simpl.
  by rewrite IH, orb_assoc.
Qed.

Lemma string_app_assoc (s1 s2 s3 : string) : (s1 +:+ s2) +:+ s3 = s1 +:+ s2 +:+ s3.
Proof.
  induction s1 as [|c s1 IH]; [done|].
  change (String c ((s1 +:+ s2) +:+ s3) = String c (s1 +:+ s2 +:+ s3)). by rewrite IH.
Qed.

(** A separator cuts a string at one place when the part after it is free of it. *)
Lemma string_app_sep_inj sep a1 a2 b1 b2 :
  str_contains sep b1 = false → str_contains sep b2 = false →
  a1 +:+ String sep b1 = a2 +:+ String sep b2 → a1 = a2 ∧ b1 = b2.
Proof.
  intros Hb1 Hb2. revert a2.
  induction a1 as [|c a1 IH]; intros [|c' a2]; simpl; intros Heq.
  - by injection Heq.
  - injection Heq as -> Heq. exfalso. subst b1.
    rewrite str_contains_app in Hb1. simpl in Hb1.
    rewrite bool_decide_true, orb_true_r in Hb1; done.
  - injection Heq as -> Heq. exfalso. subst b2.
    rewrite str_contains_app in Hb2. simpl in Hb2.
    rewrite bool_decide_true, orb_true_r in Hb2; done.
  - injection Heq as -> Heq. destruct (IH a2 Heq) as [-> ->]. done.
Qed.

(** ** Decimal formatting: [fmt.Sprintf] with the verb %d, [strconv.FormatUint] *)

Definition fmt_d (z : Z) : string := pretty z.

Lemma fmt_d_inj z1 z2 : fmt_d z1 = fmt_d z2 → z1 = z2.
Proof. apply (inj pretty). Qed.

Definition dash : ascii := "-"%char.
Definition comma : ascii := ","%char.
Definition colon : ascii := ":"%char.

(** The digits are the only characters of a decimal number. *)
Definition is_digit (c : ascii) : bool := bool_decide (48 ≤ nat_of_ascii c ≤ 57).

Lemma pretty_N_char_digit n : is_digit (pretty_N_char n).
Proof. unfold pretty_N_char. by repeat case_match. Qed.

Lemma pretty_N_go_no_char c x s :
  is_digit c = false → str_contains c s = false → str_contains c (pretty_N_go x s) = false.
Proof.
  intros Hc. revert s. induction (N.lt_wf_0 x) as [x _ IH]; intros s Hs.
  destruct (decide (x = 0)%N) as [->|]; [by rewrite pretty_N_go_0|].
  rewrite pretty_N_go_step by lia. apply IH; [by apply N.div_lt; lia|].
  simpl. rewrite Hs, orb_false_r. apply bool_decide_eq_false. intros <-.
  by rewrite (Is_true_eq_true _ (pretty_N_char_digit _)) in Hc.
Qed.

Lemma fmt_d_no_char c z : is_digit c = false → (0 ≤ z)%Z → str_contains c (fmt_d z) = false.
Proof.
  intros Hc Hz. unfold fmt_d, pretty, pretty_Z. destruct z as [|p|p]; [| |lia].
  - simpl. rewrite orb_false_r. apply bool_decide_eq_false. by intros <-.
  - unfold pretty, pretty_positive, pretty, pretty_N.
    rewrite decide_False by done. by apply pretty_N_go_no_char.
Qed.

(** A decimal number of a non-negative integer contains no separator. *)
Lemma fmt_d_no_sep c z :
  c = dash ∨ c = comma ∨ c = colon → (0 ≤ z)%Z → str_contains c (fmt_d z) = false.
Proof. intros Hc. apply fmt_d_no_char. by destruct Hc as [->|[->| ->]]. Qed.

Lemma string_app_cons c s t : String c s +:+ t = String c (s +:+ t).
Proof. done. Qed.

Lemma string_app_inj (p s t : string) : p +:+ s = p +:+ t → s = t.
Proof. induction p as [|c p IH]; [done|]. rewrite !string_app_cons. intros [= ?]. by apply IH. Qed.

(** [strconv.ParseUint] with base 10 and 64 bits; [None] is a syntax or a range error. *)
Fixpoint digits_value (s : string) (acc : Z) : option Z :=
  match s with
  | EmptyString => Some acc
  | String c s => if is_digit c then digits_value s (10 * acc + Z.of_nat (nat_of_ascii c - 48)) else None
  end.

Definition ParseUint (s : string) : option Z :=
  match s with
  | EmptyString => None
  | String _ _ => v ← digits_value s 0; if decide (v < 2 ^ 64)%Z then Some v else None
  end.

Lemma digits_value_go x s acc :
  (0 ≤ acc)%Z → ∃ p, (0 < p)%Z ∧ digits_value (pretty_N_go x s) acc = digits_value s (p * acc + Z.of_N x).
Proof.
  intros Ha. revert s. induction (N.lt_wf_0 x) as [x _ IH]; intros s.
  destruct (decide (x = 0)%N) as [->|].
  { exists 1%Z. split; [lia|]. rewrite pretty_N_go_0. f_equal. lia. }
  rewrite pretty_N_go_step by lia. destruct (IH (x `div` 10)%N) with (s := String (pretty_N_char (x `mod` 10)) s) as (p & Hp & ->).
  { by apply N.div_lt; lia. }
  exists (10 * p)%Z. split; [lia|]. cbn [digits_value]. rewrite (Is_true_eq_true _ (pretty_N_char_digit _)). f_equal.
  assert (Z.of_nat (nat_of_ascii (pretty_N_char (x `mod` 10)) - 48) = Z.of_N (x `mod` 10)) as ->.
  { pose proof (N.mod_lt x 10 ltac:(done)) as Hm. set (d := (x `mod` 10)%N) in *. clearbody d.
    assert (d = 0 ∨ d = 1 ∨ d = 2 ∨ d = 3 ∨ d = 4 ∨ d = 5 ∨ d = 6 ∨ d = 7 ∨ d = 8 ∨ d = 9)%N as Hd by lia.
    by repeat (destruct Hd as [->|Hd]); subst. }
  rewrite N2Z.inj_div, N2Z.inj_mod. pose proof (Z.div_mod (Z.of_N x) 10). lia.
Qed.

Lemma ParseUint_fmt_d z : (0 ≤ z < 2 ^ 64)%Z → ParseUint (fmt_d z) = Some z.
Proof.
  intros Hz. assert (digits_value (fmt_d z) 0 = Some z) as Hv.
  { unfold fmt_d, pretty, pretty_Z. destruct z as [|p|p]; [done| |lia].
    unfold pretty, pretty_positive, pretty, pretty_N. rewrite decide_False by done.
    destruct (digits_value_go (N.pos p) EmptyString 0) as (q & _ & ->); [lia|]. simpl. f_equal. lia. }
  unfold ParseUint. destruct (fmt_d z) as [|c s] eqn:E; [by destruct z|]. rewrite Hv. cbn. by rewrite decide_True by lia.
Qed.

(** [SetString] of [big.Int] with base 10. *)
Definition big_SetString (s : string) : option Z :=
  match s with
  | EmptyString => None
  | String c s' =>
      if decide (c = "-"%char) then match s' with EmptyString => None | _ => Z.opp <$> digits_value s' 0 end
      else if decide (c = "+"%char) then match s' with EmptyString => None | _ => digits_value s' 0 end
      else digits_value s 0
  end.

(** ** Encodings

Protobuf messages and JSON values reach the program through generated or library
code: [Encoding] is the pair of functions ([None] is the error they return). [Codec] is
what the program relies on for most types: encoding a value succeeds, and decoding the
bytes gives the value back. *)

Class Encoding (A : Type) := {
  marshal : A → option string;
  unmarshal : string → option A
}.

Class Codec (A : Type) := {
  codec_encoding :: Encoding A;
  codec_ok a : ∃ s, marshal a = Some s ∧ unmarshal s = Some a
}.

Lemma marshal_unmarshal `{Codec A} (a : A) s : marshal a = Some s → unmarshal s = Some a.
Proof. intros Hs. destruct (codec_ok a) as (s' & Hs' & ?). congruence. Qed.

(** The encoding that the witnesses use: the bits of [encode]. *)
Fixpoint pos_to_string (p : positive) : string :=
  match p with
  | xH => EmptyString
  | xO p => String "0" (pos_to_string p)
  | xI p => String "1" (pos_to_string p)
  end.

Fixpoint string_to_pos (s : string) : positive :=
  match s with
  | EmptyString => xH
  | String c s => if decide (c = "0"%char) then xO (string_to_pos s) else xI (string_to_pos s)
  end.

Lemma string_to_pos_to_string p : string_to_pos (pos_to_string p) = p.
Proof. induction p as [p IH|p IH|]; simpl; [| |done]; by rewrite IH. Qed.

Definition encoding_by_encode (A : Type) `{Countable A} : Encoding A :=
  {| marshal a := Some (pos_to_string (encode a)); unmarshal s := decode (string_to_pos s) |}.

Definition codec_by_encode (A : Type) `{Countable A} : Codec A.
Proof.
  refine {| codec_encoding := encoding_by_encode A |}.
  intros a. eexists. split; [done|]. simpl. by rewrite string_to_pos_to_string, decode_encode.
Defined.

(** ** Objects in JSON

[encoding/json] replaces invalid UTF-8 in strings, so a value comes back when the strings
in it ([text]) are plain ASCII. *)

Fixpoint is_ascii (s : string) : bool :=
  match s with
  | EmptyString => true
  | String c s => bool_decide (nat_of_ascii c < 128) && is_ascii s
  end.

Class JsonCodec (A : Type) (text : A → list string) := {
  json_encoding :: Encoding A;
  json_marshals a : is_Some (marshal a);
  json_ok a s : Forall is_ascii (text a) → marshal a = Some s → unmarshal s = Some a
}.

Lemma is_ascii_app s1 s2 : is_ascii (s1 +:+ s2) = is_ascii s1 && is_ascii s2.
Proof.
  induction s1 as [|c s1 IH]; [done|].
  change (String c s1 +:+ s2) with (String c (s1 +:+ s2)). simpl. by rewrite IH, andb_assoc.
Qed.

Definition json_by_encode (A : Type) `{Countable A} (text : A → list string) : JsonCodec A text.
Proof.
  refine {| json_encoding := encoding_by_encode A |}.
  - intros a. by eexists.
  - intros a s _ [= <-]. simpl. by rewrite string_to_pos_to_string, decode_encode.
Defined.
