(* ===== verification/Btree.v ===== *)
(** * Ordered indexes: [github.com/google/btree] as the mempool uses it

[src/pkg/order/mempool/btree_index.go] stores keys of three types in B-trees of a
third-party package. [Item] is the package's interface of that name, [BTreeLib]
the package itself: its operations are parameters, with the documented behaviour
the mempool relies on as laws. [btree_by_list] is an implementation of the
interface, used by the witnesses. The file then models [btree_index.go]: the
three key types with their [Less] methods, the constructors of keys, and the
operations of [btreeIndex]. *)
From Stdlib Require Import Ascii.
From S2P Require Import Prelude.

(** ** The interface *)

(** [btree.Item] *)
Class Item (K : Type) := Less : K → K → bool.

(** The contract [btree.Item] documents for [Less]: a strict order in which two
items that are not related are equal. *)
Class ItemOk (K : Type) `{Item K} : Prop := {
  Less_irrefl (a : K) : Less a a = false;
  Less_trans (a b c : K) : Less a b = true → Less b c = true → Less a c = true;
  Less_total (a b : K) : Less a b = false → Less b a = false → a = b
}.

Class BTreeLib := {
  btree : Type → Type;
  bt_New {K} : btree K;
  bt_ReplaceOrInsert {K} `{Item K} : btree K → K → btree K;
  bt_Delete {K} `{Item K} : btree K → K → btree K;
  bt_Get {K} `{Item K} : btree K → K → option K;
  bt_Has {K} `{Item K} : btree K → K → bool;
  bt_Min {K} `{Item K} : btree K → option K;
  bt_Len {K} `{Item K} : btree K → nat;
  (** the items that [Ascend], [AscendGreaterOrEqual] and [AscendLessThan] hand to
  an iterator that never stops them, in the order in which they hand them over *)
  bt_Ascend {K} `{Item K} : btree K → list K;
  bt_AscendGreaterOrEqual {K} `{Item K} : btree K → K → list K;
  bt_AscendLessThan {K} `{Item K} : btree K → K → list K;

  bt_Ascend_New {K} `{ItemOk K} : bt_Ascend (bt_New (K := K)) = [];
  bt_Ascend_sorted {K} `{ItemOk K} (t : btree K) :
    StronglySorted (λ a b, Less a b = true) (bt_Ascend t);
  bt_elem_ReplaceOrInsert {K} `{ItemOk K} (t : btree K) k x :
    x ∈ bt_Ascend (bt_ReplaceOrInsert t k) ↔ x = k ∨ x ∈ bt_Ascend t;
  bt_elem_Delete {K} `{ItemOk K} (t : btree K) k x :
    x ∈ bt_Ascend (bt_Delete t k) ↔ x ≠ k ∧ x ∈ bt_Ascend t;
  bt_Get_spec {K} `{ItemOk K} (t : btree K) k x :
    bt_Get t k = Some x ↔ x = k ∧ k ∈ bt_Ascend t;
  bt_Has_spec {K} `{ItemOk K} (t : btree K) k : bt_Has t k = true ↔ k ∈ bt_Ascend t;
  bt_Min_spec {K} `{ItemOk K} (t : btree K) : bt_Min t = head (bt_Ascend t);
  bt_Len_spec {K} `{ItemOk K} (t : btree K) : bt_Len t = length (bt_Ascend t);
  bt_AscendGreaterOrEqual_spec {K} `{ItemOk K} (t : btree K) k :
    bt_AscendGreaterOrEqual t k = filter (λ x, Less x k = false) (bt_Ascend t);
  bt_AscendLessThan_spec {K} `{ItemOk K} (t : btree K) k :
    bt_AscendLessThan t k = filter (λ x, Less x k = true) (bt_Ascend t)
}.

(** Go's iterator protocol: the callback is run on each item, with the state it
captures, until it answers [false]. *)
Fixpoint ascend {K St : Type} (f : K → St → St * bool) (l : list K) (s : St) : St :=
  match l with
  | [] => s
  | k :: l' => let '(s', continue) := f k s in if continue then ascend f l' s' else s'
  end.

(** ** An implementation of the interface: insertion-ordered lists, sorted on reading *)

Section insertion.
Context {K : Type} `{Item K}.

Fixpoint sorted_insert (k : K) (l : list K) : list K :=
  match l with
  | [] => [k]
  | x :: l' =>
      if Less k x then k :: x :: l'
      else if Less x k then x :: sorted_insert k l'
      else k :: l'
  end.

Definition sorted_items (t : list K) : list K := foldr sorted_insert [] t.

Definition same_item (a b : K) : bool := negb (Less a b) && negb (Less b a).

Context `{!ItemOk K}.

Lemma same_item_spec a b : same_item a b = true ↔ a = b.
Proof.
  unfold same_item. rewrite andb_true_iff, !negb_true_iff. split.
  - intros [??]. by apply Less_total.
  - intros ->. by rewrite Less_irrefl.
Qed.

Lemma elem_of_sorted_insert k x l :
  x ∈ sorted_insert k l ↔ x = k ∨ x ∈ l.
Proof.
  induction l as [|y l IH]; simpl; [set_solver|].
  destruct (Less k y) eqn:E1; [set_solver|].
  destruct (Less y k) eqn:E2; [set_solver|].
  assert (k = y) as -> by (by apply Less_total). set_solver.
Qed.

Lemma sorted_insert_sorted k l :
  StronglySorted (λ a b, Less a b = true) l →
  StronglySorted (λ a b, Less a b = true) (sorted_insert k l).
Proof.
  induction 1 as [|y l Hl IH Hy]; simpl; [repeat constructor|].
  destruct (Less k y) eqn:E1.
  - constructor; [by constructor|]. constructor; [done|].
    eapply Forall_impl; [exact Hy|]. simpl. eauto using Less_trans.
  - destruct (Less y k) eqn:E2.
    + constructor; [done|]. apply Forall_forall. intros x [->|Hx]%elem_of_sorted_insert; [done|].
      by eapply Forall_forall in Hy.
    + assert (k = y) as -> by (by apply Less_total). by constructor.
Qed.

Lemma elem_of_sorted_items x t : x ∈ sorted_items t ↔ x ∈ t.
Proof.
  induction t as [|y t IH]; simpl; [done|].
  rewrite elem_of_sorted_insert, IH. set_solver.
Qed.

Lemma sorted_items_sorted t : StronglySorted (λ a b, Less a b = true) (sorted_items t).
Proof. induction t; simpl; [constructor|]. by apply sorted_insert_sorted. Qed.
End insertion.

Definition btree_by_list : BTreeLib.
Proof.
  refine {|
    btree := list;
    bt_New K := [];
    bt_ReplaceOrInsert K _ t k := k :: t;
    bt_Delete K _ t k := filter (λ x, same_item x k = false) t;
    bt_Get K _ t k := if existsb (same_item k) t then Some k else None;
    bt_Has K _ t k := existsb (same_item k) t;
    bt_Min K _ t := head (sorted_items t);
    bt_Len K _ t := length (sorted_items t);
    bt_Ascend K _ t := sorted_items t;
    bt_AscendGreaterOrEqual K _ t k := filter (λ x, Less x k = false) (sorted_items t);
    bt_AscendLessThan K _ t k := filter (λ x, Less x k = true) (sorted_items t)
  |}; try done.
  all: intros K I OK t.
  - apply sorted_items_sorted.
  - intros k x. rewrite !elem_of_sorted_items. set_solver.
  - intros k x. rewrite !elem_of_sorted_items, list_elem_of_filter.
    pose proof (same_item_spec x k). destruct (same_item x k); naive_solver.
  - intros k x. rewrite !elem_of_sorted_items.
    assert (existsb (same_item k) t = true ↔ k ∈ t) as E.
    { rewrite existsb_exists. setoid_rewrite same_item_spec. setoid_rewrite <-list_elem_of_In. naive_solver. }
    destruct (existsb (same_item k) t); naive_solver.
  - intros k. rewrite !elem_of_sorted_items, existsb_exists.
    setoid_rewrite same_item_spec. setoid_rewrite <-list_elem_of_In. naive_solver.
Defined.

(** ** Derived facts about every implementation *)

Section btree_facts.
Context `{BTreeLib} {K : Type} `{ItemOk K}.
Implicit Type t : btree K.

Lemma bt_Ascend_NoDup t : NoDup (bt_Ascend t).
Proof.
  pose proof (bt_Ascend_sorted t) as Hs. induction Hs as [|x l Hl IH Hx]; constructor; [|done].
  intros Hin. eapply Forall_forall in Hx; [|done]. by rewrite Less_irrefl in Hx.
Qed.

Lemma bt_Has_false t k : bt_Has t k = false ↔ k ∉ bt_Ascend t.
Proof. rewrite <-bt_Has_spec. destruct (bt_Has t k); naive_solver. Qed.

Lemma bt_Get_None t k : bt_Get t k = None ↔ k ∉ bt_Ascend t.
Proof.
  destruct (bt_Get t k) as [x|] eqn:E.
  - apply bt_Get_spec in E as [-> ?]. naive_solver.
  - split; [|done]. intros _ Hin.
    assert (bt_Get t k = Some k) by (by apply bt_Get_spec). naive_solver.
Qed.

Lemma bt_New_elem (x : K) : x ∉ bt_Ascend bt_New.
Proof. rewrite bt_Ascend_New. set_solver. Qed.

(** Deleting a list of keys, one after the other. *)
Lemma bt_elem_Delete_fold (l : list K) t x :
  x ∈ bt_Ascend (fold_left bt_Delete l t) ↔ x ∉ l ∧ x ∈ bt_Ascend t.
Proof.
  revert t. induction l as [|k l IH]; intros t; simpl; [set_solver|].
  rewrite IH, bt_elem_Delete. set_solver.
Qed.

Lemma bt_elem_Insert_fold (l : list K) t x :
  x ∈ bt_Ascend (fold_left bt_ReplaceOrInsert l t) ↔ x ∈ l ∨ x ∈ bt_Ascend t.
Proof.
  revert t. induction l as [|k l IH]; intros t; simpl; [set_solver|].
  rewrite IH, bt_elem_ReplaceOrInsert. set_solver.
Qed.
End btree_facts.

(** ** Go's order on strings *)

Lemma string_ltb_leb s1 s2 : String.ltb s1 s2 = negb (String.leb s2 s1).
Proof.
  unfold String.ltb, String.leb. rewrite (String.compare_antisym s1 s2).
  by destruct (String.compare s2 s1).
Qed.

Lemma string_ltb_irrefl s : String.ltb s s = false.
Proof. rewrite string_ltb_leb. destruct (String.leb_total s s) as [-> | ->]; done. Qed.

Lemma string_ltb_total s1 s2 : String.ltb s1 s2 = false → String.ltb s2 s1 = false → s1 = s2.
Proof.
  rewrite !string_ltb_leb, !negb_false_iff. intros. by apply String.leb_antisym.
Qed.

Lemma string_ltb_trans s1 s2 s3 :
  String.ltb s1 s2 = true → String.ltb s2 s3 = true → String.ltb s1 s3 = true.
Proof.
  rewrite !string_ltb_leb, !negb_true_iff. intros H12 H23.
  apply not_true_iff_false. intros H31. apply not_true_iff_false in H12. apply H12.
  assert (String.leb s2 s3 = true) as H23'.
  { destruct (String.leb_total s2 s3) as [|E]; [done|]. congruence. }
  apply Is_true_true. apply (transitivity (R := String.le) (y := s3)); by apply Is_true_true.
Qed.

(** ** The keys of [btree_index.go] *)

Record orderedIndexKey := OrderedIndexKey { oik_account : string; oik_nonce : Z }.

Record sortedNonceKey := SortedNonceKey { snk_nonce : Z }.

Record orderedTimeoutKey := OrderedTimeoutKey {
  otk_account : string; otk_nonce : Z; otk_timestamp : Z }.

Global Instance orderedIndexKey_eq_dec : EqDecision orderedIndexKey.
Proof. solve_decision. Defined.
Global Program Instance orderedIndexKey_countable : Countable orderedIndexKey :=
  inj_countable' (λ k, (oik_account k, oik_nonce k)) (λ p, OrderedIndexKey p.1 p.2) _.
Next Obligation. by intros []. Qed.
Global Instance sortedNonceKey_eq_dec : EqDecision sortedNonceKey.
Proof. solve_decision. Defined.
Global Instance orderedTimeoutKey_eq_dec : EqDecision orderedTimeoutKey.
Proof. solve_decision. Defined.

(** [func (oik *orderedIndexKey) Less] *)
Global Instance orderedIndexKey_Less : Item orderedIndexKey := λ oik other,
  if decide (oik_account oik ≠ oik_account other)
  then String.ltb (oik_account oik) (oik_account other)
  else (oik_nonce oik <? oik_nonce other)%Z.

(** [func (snk *sortedNonceKey) Less] *)
Global Instance sortedNonceKey_Less : Item sortedNonceKey := λ snk dst,
  (snk_nonce snk <? snk_nonce dst)%Z.

(** [func (otk *orderedTimeoutKey) Less] *)
Global Instance orderedTimeoutKey_Less : Item orderedTimeoutKey := λ otk other,
  if decide (otk_timestamp otk ≠ otk_timestamp other)
  then (otk_timestamp otk <? otk_timestamp other)%Z
  else if decide (otk_account otk ≠ otk_account other)
  then String.ltb (otk_account otk) (otk_account other)
  else (otk_nonce otk <? otk_nonce other)%Z.

Ltac less_cases :=
  repeat case_decide; simplify_eq/=;
  rewrite ?Z.ltb_lt, ?Z.ltb_ge in *.

(** The three [Less] methods satisfy the contract of [btree.Item]. *)
Global Instance sortedNonceKey_ok : ItemOk sortedNonceKey.
Proof.
  split.
  - intros [a]. unfold Less, sortedNonceKey_Less. simpl. apply Z.ltb_irrefl.
  - intros [a] [b] [c]. unfold Less, sortedNonceKey_Less. simpl. less_cases. lia.
  - intros [a] [b]. unfold Less, sortedNonceKey_Less. simpl. less_cases. intros. f_equal. lia.
Qed.

Global Instance orderedIndexKey_ok : ItemOk orderedIndexKey.
Proof.
  split; unfold Less, orderedIndexKey_Less.
  - intros [a n]. simpl. rewrite decide_False by naive_solver. apply Z.ltb_irrefl.
  - intros [a n] [b m] [c k]. simpl.
    destruct (decide (a ≠ b)) as [Hab|Hab%dec_stable],
      (decide (b ≠ c)) as [Hbc|Hbc%dec_stable]; subst; intros H1 H2.
    + rewrite decide_True; [by eapply string_ltb_trans|]. intros ->.
      pose proof (string_ltb_trans _ _ _ H1 H2) as Hr. by rewrite string_ltb_irrefl in Hr.
    + by rewrite decide_True.
    + by rewrite decide_True.
    + rewrite decide_False by naive_solver. rewrite Z.ltb_lt in *. lia.
  - intros [a n] [b m]. simpl.
    destruct (decide (a ≠ b)) as [Hab|Hab%dec_stable]; subst; intros H1 H2.
    + rewrite decide_True in H2 by done. destruct Hab. by apply string_ltb_total.
    + rewrite decide_False in H2 by naive_solver. rewrite Z.ltb_ge in *. f_equal. lia.
Qed.

(** [orderedTimeoutKey] is ordered as the pair of its timestamp and its
[orderedIndexKey]. *)
Definition otk_key (k : orderedTimeoutKey) : orderedIndexKey :=
  OrderedIndexKey (otk_account k) (otk_nonce k).

Lemma orderedTimeoutKey_Less_alt k1 k2 :
  Less k1 k2 = if decide (otk_timestamp k1 = otk_timestamp k2)
               then Less (otk_key k1) (otk_key k2)
               else (otk_timestamp k1 <? otk_timestamp k2)%Z.
Proof.
  unfold Less, orderedTimeoutKey_Less, orderedIndexKey_Less. simpl.
  destruct (decide (otk_timestamp k1 = otk_timestamp k2)).
  - by rewrite decide_False by naive_solver.
  - by rewrite decide_True.
Qed.

Lemma otk_ext k1 k2 :
  otk_timestamp k1 = otk_timestamp k2 → otk_key k1 = otk_key k2 → k1 = k2.
Proof. destruct k1, k2. unfold otk_key. naive_solver. Qed.

Global Instance orderedTimeoutKey_ok : ItemOk orderedTimeoutKey.
Proof.
  split.
  - intros a. rewrite orderedTimeoutKey_Less_alt, decide_True by done. apply Less_irrefl.
  - intros a b c. rewrite !orderedTimeoutKey_Less_alt.
    destruct (decide (otk_timestamp a = otk_timestamp b)) as [E1|E1],
      (decide (otk_timestamp b = otk_timestamp c)) as [E2|E2]; rewrite ?Z.ltb_lt.
    + rewrite decide_True by congruence. apply Less_trans.
    + rewrite decide_False, Z.ltb_lt by congruence. intros. by rewrite E1.
    + rewrite decide_False, Z.ltb_lt by congruence. intros. by rewrite <-E2.
    + intros. rewrite decide_False, Z.ltb_lt by lia. lia.
  - intros a b. rewrite !orderedTimeoutKey_Less_alt.
    destruct (decide (otk_timestamp a = otk_timestamp b)) as [E1|E1].
    + rewrite decide_True by done. intros. apply otk_ext; [done|]. by apply Less_total.
    + rewrite decide_False, !Z.ltb_ge by congruence. lia.
Qed.

(** ** Transactions and the operations of [btreeIndex] *)

(** The accessors of [pb.Transaction] that the mempool calls: [GetFrom().String()],
[GetNonce()], [GetHash().String()] and [GetTimeStamp()]. *)
Record Tx := MkTx { tx_from : string; tx_nonce : Z; tx_hash : string; tx_timestamp : Z }.

Global Instance Tx_eq_dec : EqDecision Tx.
Proof. solve_decision. Defined.

Definition makeOrderedIndexKey (account : string) (tx : Tx) : orderedIndexKey :=
  OrderedIndexKey account (tx_nonce tx).

Definition makeTimeoutKey (account : string) (tx : Tx) : orderedTimeoutKey :=
  OrderedTimeoutKey account (tx_nonce tx) (tx_timestamp tx).

Definition makeSortedNonceKey (nonce : Z) : sortedNonceKey := SortedNonceKey nonce.

Definition makeAccountNonceKey (account : string) (nonce : Z) : string :=
  account +:+ String dash (fmt_d nonce).

(** The textual key of an account and a nonce determines both. *)
Lemma makeAccountNonceKey_inj a1 n1 a2 n2 :
  (0 ≤ n1)%Z → (0 ≤ n2)%Z →
  makeAccountNonceKey a1 n1 = makeAccountNonceKey a2 n2 → a1 = a2 ∧ n1 = n2.
Proof.
  intros H1 H2 Heq. unfold makeAccountNonceKey in Heq.
  apply string_app_sep_inj in Heq as [-> Heq]; [|apply fmt_d_no_sep; auto..].
  split; [done|]. by apply fmt_d_inj.
Qed.

Section btreeIndex.
Context `{BTreeLib, GoRange}.

(** The pairs of an account and a transaction that a nested range over a
[map[string][]pb.Transaction] visits, in the order in which it visits them. *)
Definition range_txs (txs : gmap string (list Tx)) : list (string * Tx) :=
  go_range txs ≫= λ '(account, l), (λ tx, (account, tx)) <$> l.

Definition insertBySortedNonceKey (idx : btree sortedNonceKey) (tx : Tx) : btree sortedNonceKey :=
  bt_ReplaceOrInsert idx (makeSortedNonceKey (tx_nonce tx)).

Definition removeBySortedNonceKey (idx : btree sortedNonceKey) (txs : gmap string (list Tx)) :
    btree sortedNonceKey :=
  fold_left (λ idx '(_, tx), bt_Delete idx (makeSortedNonceKey (tx_nonce tx))) (range_txs txs) idx.

Definition insertByOrderedQueueKey (idx : btree orderedIndexKey) (account : string) (tx : Tx) :
    btree orderedIndexKey :=
  bt_ReplaceOrInsert idx (makeOrderedIndexKey account tx).

Definition removeByOrderedQueueKey (idx : btree orderedIndexKey) (txs : gmap string (list Tx)) :
    btree orderedIndexKey :=
  fold_left (λ idx '(account, tx), bt_Delete idx (makeOrderedIndexKey account tx)) (range_txs txs) idx.

Definition insertByTimeoutKey (idx : btree orderedTimeoutKey) (account : string) (tx : Tx) :
    btree orderedTimeoutKey :=
  bt_ReplaceOrInsert idx (makeTimeoutKey account tx).

Definition removeByTimeoutKey (idx : btree orderedTimeoutKey) (txs : gmap string (list Tx)) :
    btree orderedTimeoutKey :=
  fold_left (λ idx '(account, tx), bt_Delete idx (makeTimeoutKey account tx)) (range_txs txs) idx.

Lemma elem_of_range_txs txs account tx :
  (account, tx) ∈ range_txs txs ↔ ∃ l, txs !! account = Some l ∧ tx ∈ l.
Proof.
  unfold range_txs. rewrite list_elem_of_bind. split.
  - intros ([a l] & Htx & Hl%elem_of_go_range).
    apply list_elem_of_fmap in Htx as (tx' & ? & ?). naive_solver.
  - intros (l & Hl & Htx). exists (account, l). rewrite elem_of_go_range. split; [|done].
    apply list_elem_of_fmap. eauto.
Qed.

Lemma elem_of_removeBySortedNonceKey idx txs k :
  k ∈ bt_Ascend (removeBySortedNonceKey idx txs) ↔
    k ∈ bt_Ascend idx ∧ ∀ a tx, (a, tx) ∈ range_txs txs → k ≠ makeSortedNonceKey (tx_nonce tx).
Proof.
  unfold removeBySortedNonceKey. generalize (range_txs txs) as l. intros l. revert idx.
  induction l as [|[a tx] l IH]; intros idx; simpl; [set_solver|].
  rewrite IH, bt_elem_Delete. set_solver.
Qed.

Lemma elem_of_removeByOrderedQueueKey idx txs k :
  k ∈ bt_Ascend (removeByOrderedQueueKey idx txs) ↔
    k ∈ bt_Ascend idx ∧ ∀ a tx, (a, tx) ∈ range_txs txs → k ≠ makeOrderedIndexKey a tx.
Proof.
  unfold removeByOrderedQueueKey. generalize (range_txs txs) as l. intros l. revert idx.
  induction l as [|[a tx] l IH]; intros idx; simpl; [set_solver|].
  rewrite IH, bt_elem_Delete. set_solver.
Qed.

Lemma elem_of_removeByTimeoutKey idx txs k :
  k ∈ bt_Ascend (removeByTimeoutKey idx txs) ↔
    k ∈ bt_Ascend idx ∧ ∀ a tx, (a, tx) ∈ range_txs txs → k ≠ makeTimeoutKey a tx.
Proof.
  unfold removeByTimeoutKey. generalize (range_txs txs) as l. intros l. revert idx.
  induction l as [|[a tx] l IH]; intros idx; simpl; [set_solver|].
  rewrite IH, bt_elem_Delete. set_solver.
Qed.
End btreeIndex.
