(* ===== verification/TxStore.v ===== *)
(** * The transaction store of the mempool: [src/pkg/order/mempool/tx_store.go]

The nonce cache, the two time indexes, the per-account sorted map and the store
that holds them, each with its operations. A dereference of a nil pointer, which
panics in Go, is [None]. *)
From S2P Require Import Prelude Btree.

(** ** [nonceCache] *)

Record nonceCache := NonceCache {
  commitNonces : gmap string Z;
  pendingNonces : gmap string Z }.

Definition newNonceCache : nonceCache := NonceCache ∅ ∅.

Section nonceCache.
(** [getAccountNonce] reads the nonce of an account from the ledger. *)
Variable getAccountNonce : string → Z.

Definition getCommitNonce (nc : nonceCache) (account : string) : Z * nonceCache :=
  match commitNonces nc !! account with
  | None =>
      let cn := getAccountNonce account in
      (cn, NonceCache (<[account := cn]> (commitNonces nc)) (pendingNonces nc))
  | Some nonce => (nonce, nc)
  end.

Definition getPendingNonce (nc : nonceCache) (account : string) : Z * nonceCache :=
  match pendingNonces nc !! account with
  | None => getCommitNonce nc account
  | Some nonce => (nonce, nc)
  end.
End nonceCache.

Definition setCommitNonce (nc : nonceCache) (account : string) (nonce : Z) : nonceCache :=
  NonceCache (<[account := nonce]> (commitNonces nc)) (pendingNonces nc).

Definition setPendingNonce (nc : nonceCache) (account : string) (nonce : Z) : nonceCache :=
  NonceCache (commitNonces nc) (<[account := nonce]> (pendingNonces nc)).

Section updateNonces.
Context `{GoRange}.

Definition updatePendingNonce (nc : nonceCache) (newPending : gmap string Z) : nonceCache :=
  fold_left (λ nc '(account, n), setPendingNonce nc account n) (go_range newPending) nc.

Definition updateCommittedNonce (nc : nonceCache) (newCommitted : gmap string Z) : nonceCache :=
  fold_left (λ nc '(account, n), setCommitNonce nc account n) (go_range newCommitted) nc.
End updateNonces.

(** ** [txLiveTimeMap] and [txArrivedTimeMap] *)

Record txTimeMap `{BTreeLib} := TxTimeMap {
  tm_items : gmap string Z;
  tm_index : btree orderedTimeoutKey }.

Section timeMaps.
Context `{BTreeLib, GoRange}.

Definition newTxLiveTimeMap : txTimeMap := TxTimeMap _ ∅ bt_New.

Definition insertByTtlKey (tlm : txTimeMap) (account : string) (nonce liveTime : Z) : txTimeMap :=
  TxTimeMap _ (<[makeAccountNonceKey account nonce := liveTime]> (tm_items tlm))
    (bt_ReplaceOrInsert (tm_index tlm) (OrderedTimeoutKey account nonce liveTime)).

Definition removeOneByTtlKey (tlm : txTimeMap) (account : string) (tx : Tx) : txTimeMap :=
  match tm_items tlm !! makeAccountNonceKey account (tx_nonce tx) with
  | None => tlm
  | Some liveTime =>
      TxTimeMap _ (delete (makeAccountNonceKey account (tx_nonce tx)) (tm_items tlm))
        (bt_Delete (tm_index tlm) (OrderedTimeoutKey account (tx_nonce tx) liveTime))
  end.

Definition removeByTtlKey (tlm : txTimeMap) (txs : gmap string (list Tx)) : txTimeMap :=
  fold_left (λ tlm '(account, tx), removeOneByTtlKey tlm account tx) (range_txs txs) tlm.

Definition updateByTtlKey (tlm : txTimeMap) (originalKey : orderedTimeoutKey) (newTime : Z) : txTimeMap :=
  insertByTtlKey
    (TxTimeMap _
       (delete (makeAccountNonceKey (otk_account originalKey) (otk_nonce originalKey)) (tm_items tlm))
       (bt_Delete (tm_index tlm) originalKey))
    (otk_account originalKey) (otk_nonce originalKey) newTime.

Definition insertOrUpdateByTtlKey (tlm : txTimeMap) (account : string) (nonce liveTime : Z) : txTimeMap :=
  let index :=
    match tm_items tlm !! makeAccountNonceKey account nonce with
    | Some oldTime => bt_Delete (tm_index tlm) (OrderedTimeoutKey account nonce oldTime)
    | None => tm_index tlm
    end in
  insertByTtlKey (TxTimeMap _ (tm_items tlm) index) account nonce liveTime.

(** [txArrivedTimeMap] repeats the methods of [txLiveTimeMap] word for word. *)
Definition newTxArrivedTimeMap : txTimeMap := newTxLiveTimeMap.
Definition tam_insertByTtlKey := insertByTtlKey.
Definition tam_removeByTtlKey := removeByTtlKey.
Definition tam_insertOrUpdateByTtlKey := insertOrUpdateByTtlKey.
End timeMaps.

(** ** [txSortedMap] *)

Record txItem := TxItem { ti_account : string; ti_tx : Tx; ti_local : bool }.

Record txSortedMap `{BTreeLib} := TxSortedMap {
  items : gmap Z txItem;
  index : btree sortedNonceKey }.

Section txSortedMap.
Context `{BTreeLib, GoRange}.

Definition newTxSortedMap : txSortedMap := TxSortedMap _ ∅ bt_New.

(** The callback of [filterReady] on one key of the index; the state is
[(readyTxs, nonReadyTxs, demandNonce)]. *)
Definition filterReady_step (its : gmap Z txItem) (st : list Tx * list Tx * Z) (k : sortedNonceKey) :
    option (list Tx * list Tx * Z) :=
  let '(ready, nonReady, demandNonce) := st in
  let nonce := snk_nonce k in
  if decide (nonce = demandNonce)
  then it ← its !! demandNonce; Some (ready ++ [ti_tx it], nonReady, demandNonce +u 1)
  else it ← its !! nonce; Some (ready, nonReady ++ [ti_tx it], demandNonce).

Definition filterReady (m : txSortedMap) (demandNonce : Z) : option (list Tx * list Tx * Z) :=
  if decide (bt_Len (index m) = 0) then Some ([], [], demandNonce)
  else foldl (λ st k, st ← st; filterReady_step (items m) st k)
         (Some ([], [], demandNonce))
         (bt_AscendGreaterOrEqual (index m) (makeSortedNonceKey demandNonce)).

(** The callback of [forward]; the state is [(removedTxs, items)]. *)
Definition forward_step (st : gmap string (list Tx) * gmap Z txItem) (k : sortedNonceKey) :
    option (gmap string (list Tx) * gmap Z txItem) :=
  let '(removedTxs, its) := st in
  it ← its !! snk_nonce k;
  Some (<[ti_account it := default [] (removedTxs !! ti_account it) ++ [ti_tx it]]> removedTxs,
        delete (snk_nonce k) its).

Definition forward (m : txSortedMap) (commitNonce : Z) :
    option (gmap string (list Tx) * txSortedMap) :=
  r ← foldl (λ st k, st ← st; forward_step st k) (Some (∅, items m))
        (bt_AscendLessThan (index m) (makeSortedNonceKey commitNonce));
  Some (r.1, TxSortedMap _ r.2 (index m)).
End txSortedMap.

(** ** [transactionStore] *)

Record transactionStore `{BTreeLib} := TransactionStore {
  txHashMap : gmap string orderedIndexKey;
  allTxs : gmap string txSortedMap;
  ts_nonceCache : nonceCache;
  earliestTimestamp : Z;
  ttlIndex : txTimeMap;
  removeTimeoutIndex : txTimeMap;
  parkingLotIndex : btree orderedIndexKey;
  priorityIndex : btree orderedTimeoutKey;
  (** [map[orderedIndexKey]bool], whose values are all [true] *)
  batchedTxs : gset orderedIndexKey;
  priorityNonBatchSize : Z }.

Section transactionStore.
Context `{BTreeLib, GoRange}.

Definition newTransactionStore : transactionStore :=
  TransactionStore _ ∅ ∅ newNonceCache 0 newTxLiveTimeMap newTxArrivedTimeMap bt_New bt_New ∅ 0.

Definition with_txHashMap (s : transactionStore) v :=
  TransactionStore _ v (allTxs s) (ts_nonceCache s) (earliestTimestamp s) (ttlIndex s)
    (removeTimeoutIndex s) (parkingLotIndex s) (priorityIndex s) (batchedTxs s) (priorityNonBatchSize s).
Definition with_allTxs (s : transactionStore) v :=
  TransactionStore _ (txHashMap s) v (ts_nonceCache s) (earliestTimestamp s) (ttlIndex s)
    (removeTimeoutIndex s) (parkingLotIndex s) (priorityIndex s) (batchedTxs s) (priorityNonBatchSize s).
Definition with_nonceCache (s : transactionStore) v :=
  TransactionStore _ (txHashMap s) (allTxs s) v (earliestTimestamp s) (ttlIndex s)
    (removeTimeoutIndex s) (parkingLotIndex s) (priorityIndex s) (batchedTxs s) (priorityNonBatchSize s).
Definition with_earliestTimestamp (s : transactionStore) v :=
  TransactionStore _ (txHashMap s) (allTxs s) (ts_nonceCache s) v (ttlIndex s)
    (removeTimeoutIndex s) (parkingLotIndex s) (priorityIndex s) (batchedTxs s) (priorityNonBatchSize s).
Definition with_ttlIndex (s : transactionStore) v :=
  TransactionStore _ (txHashMap s) (allTxs s) (ts_nonceCache s) (earliestTimestamp s) v
    (removeTimeoutIndex s) (parkingLotIndex s) (priorityIndex s) (batchedTxs s) (priorityNonBatchSize s).
Definition with_removeTimeoutIndex (s : transactionStore) v :=
  TransactionStore _ (txHashMap s) (allTxs s) (ts_nonceCache s) (earliestTimestamp s) (ttlIndex s)
    v (parkingLotIndex s) (priorityIndex s) (batchedTxs s) (priorityNonBatchSize s).
Definition with_parkingLotIndex (s : transactionStore) v :=
  TransactionStore _ (txHashMap s) (allTxs s) (ts_nonceCache s) (earliestTimestamp s) (ttlIndex s)
    (removeTimeoutIndex s) v (priorityIndex s) (batchedTxs s) (priorityNonBatchSize s).
Definition with_priorityIndex (s : transactionStore) v :=
  TransactionStore _ (txHashMap s) (allTxs s) (ts_nonceCache s) (earliestTimestamp s) (ttlIndex s)
    (removeTimeoutIndex s) (parkingLotIndex s) v (batchedTxs s) (priorityNonBatchSize s).
Definition with_batchedTxs (s : transactionStore) v :=
  TransactionStore _ (txHashMap s) (allTxs s) (ts_nonceCache s) (earliestTimestamp s) (ttlIndex s)
    (removeTimeoutIndex s) (parkingLotIndex s) (priorityIndex s) v (priorityNonBatchSize s).
Definition with_priorityNonBatchSize (s : transactionStore) v :=
  TransactionStore _ (txHashMap s) (allTxs s) (ts_nonceCache s) (earliestTimestamp s) (ttlIndex s)
    (removeTimeoutIndex s) (parkingLotIndex s) (priorityIndex s) (batchedTxs s) v.

(** The body of the inner loop of [insertTxs]. *)
Definition insertTx (isLocal : bool) (now : Z) (account : string) (s : transactionStore) (tx : Tx) :
    transactionStore :=
  let s := with_txHashMap s (<[tx_hash tx := OrderedIndexKey account (tx_nonce tx)]> (txHashMap s)) in
  let txList := default newTxSortedMap (allTxs s !! account) in
  let it := TxItem account tx isLocal in
  let txList := TxSortedMap _ (<[tx_nonce tx := it]> (items txList))
                  (insertBySortedNonceKey (index txList) tx) in
  let s := with_allTxs s (<[account := txList]> (allTxs s)) in
  let s := if isLocal
           then with_ttlIndex s (insertOrUpdateByTtlKey (ttlIndex s) account (tx_nonce tx) (tx_timestamp tx))
           else s in
  with_removeTimeoutIndex s
    (tam_insertOrUpdateByTtlKey (removeTimeoutIndex s) account (tx_nonce tx) now).

(** [now] is the reading of the clock at the start of the call. *)
Definition insertTxs (s : transactionStore) (txs : gmap string (list Tx)) (isLocal : bool) (now : Z) :
    transactionStore * gmap string bool :=
  fold_left (λ '(s, dirtyAccounts) '(account, list),
               (fold_left (insertTx isLocal now account) list s, <[account := true]> dirtyAccounts))
    (go_range txs) (s, ∅).

Definition getTxByOrderKey (s : transactionStore) (account : string) (seqNo : Z) : option Tx :=
  m ← allTxs s !! account; ti_tx <$> items m !! seqNo.

(** [getPoolTxByTxnPointer] of [mempool_impl.go] *)
Definition getPoolTxByTxnPointer (s : transactionStore) (account : string) (nonce : Z) : option txItem :=
  m ← allTxs s !! account; items m !! nonce.

Definition updateEarliestTimestamp (s : transactionStore) : transactionStore :=
  with_earliestTimestamp s
    (match bt_Min (tm_index (ttlIndex s)) with
     | Some latestItem => otk_timestamp latestItem
     | None => MaxInt64
     end).
End transactionStore.
