(* ===== verification/Mempool.v ===== *)
(** * The mempool: [src/pkg/order/mempool/mempool_impl.go] and [mempool.go]

The operations of [mempoolImpl] as functions on its state. Readings of the clock
([time.Now]) and the nonces of the ledger ([getAccountNonce]) are arguments. The
result [None] is a panic of the Go code (a nil dereference, an index out of
range, a division by zero); the theorems of [MempoolProps] show when it cannot
happen. *)
From S2P Require Import Prelude Btree TxStore.

(** ** State and construction *)

Definition DefaultPoolSize : Z := 50000.
Definition DefaultTxCacheSize : Z := 10000.
Definition DefaultBatchSize : Z := 500.
Definition DefaultTxSetSize : Z := 10.

(** The fields of [Config] that reach the state of the mempool. *)
Record Config := MkConfig {
  cfg_ID : Z; cfg_BatchSize : Z; cfg_PoolSize : Z; cfg_IsTimed : bool;
  cfg_TxSliceSize : Z; cfg_ChainHeight : Z }.

Record mempoolImpl `{BTreeLib} := MempoolImpl {
  localID : Z;
  batchSize : Z;
  txSliceSize : Z;
  batchSeqNo : Z;
  poolSize : Z;
  isTimed : bool;
  txStore : transactionStore }.

(** [raftproto.RequestBatch]; a nil entry of the transaction list is [None]. *)
Record RequestBatch := MkRequestBatch {
  rb_TxList : list (option Tx); rb_Height : Z; rb_Timestamp : Z }.

Section mempool.
Context `{BTreeLib, GoRange}.

Definition newMempoolImpl (config : Config) : mempoolImpl :=
  MempoolImpl _ (cfg_ID config)
    (if decide (cfg_BatchSize config = 0)%Z then DefaultBatchSize else cfg_BatchSize config)
    (if decide (cfg_TxSliceSize config = 0)%Z then DefaultTxSetSize else cfg_TxSliceSize config)
    (cfg_ChainHeight config)
    (if decide (cfg_PoolSize config = 0)%Z then DefaultPoolSize else cfg_PoolSize config)
    (cfg_IsTimed config) newTransactionStore.

Definition with_txStore (mpi : mempoolImpl) (s : transactionStore) : mempoolImpl :=
  MempoolImpl _ (localID mpi) (batchSize mpi) (txSliceSize mpi) (batchSeqNo mpi) (poolSize mpi)
    (isTimed mpi) s.

Definition SetBatchSeqNo (mpi : mempoolImpl) (batchSeq : Z) : mempoolImpl :=
  MempoolImpl _ (localID mpi) (batchSize mpi) (txSliceSize mpi) batchSeq (poolSize mpi)
    (isTimed mpi) (txStore mpi).

Definition HasPendingRequest (mpi : mempoolImpl) : bool :=
  bool_decide (0 < priorityNonBatchSize (txStore mpi))%Z.

Definition IsPoolFull (mpi : mempoolImpl) : bool :=
  bool_decide (poolSize mpi ≤ Z.of_nat (size (txHashMap (txStore mpi))))%Z.

Variable getAccountNonce : string → Z.

(** ** Admission of transactions *)

(** The variables that the admission loop of [ProcessTransactions] updates. *)
Record admission := Admission {
  validTxs : gmap string (list Tx);
  validTxList : list Tx;
  txnPointersM : gmap (string * Z) string;
  adm_nonceCache : nonceCache }.

(** The body of that loop; [known] is [txStore.txHashMap]. *)
Definition admitTx (known : gmap string orderedIndexKey) (st : admission) (tx : Tx) : admission :=
  let txAccount := tx_from tx in
  let '(currentSeqNo, nc) := getPendingNonce getAccountNonce (adm_nonceCache st) txAccount in
  let st := Admission (validTxs st) (validTxList st) (txnPointersM st) nc in
  if decide (tx_nonce tx < currentSeqNo)%Z then st
  else
    let ptr := (tx_from tx, tx_nonce tx) in
    match txnPointersM st !! ptr with
    | Some _ => st
    | None =>
        let st := Admission (validTxs st) (validTxList st)
                    (<[ptr := tx_hash tx]> (txnPointersM st)) nc in
        match known !! tx_hash tx with
        | Some _ => st
        | None =>
            Admission
              (<[txAccount := default [] (validTxs st !! txAccount) ++ [tx]]> (validTxs st))
              (validTxList st ++ [tx]) (txnPointersM st) nc
        end
    end.

Definition admitTxs (s : transactionStore) (txs : list Tx) : admission :=
  fold_left (admitTx (txHashMap s)) txs (Admission ∅ [] ∅ (ts_nonceCache s)).

(** ** [processDirtyAccount] *)

Definition insertReady (s : transactionStore) (account : string) (readyTxs : list Tx) : transactionStore :=
  fold_left (λ s tx,
      if bt_Has (priorityIndex s) (makeTimeoutKey account tx) then s
      else with_priorityIndex s (insertByTimeoutKey (priorityIndex s) account tx)) readyTxs s.

Definition insertNonReady (s : transactionStore) (account : string) (nonReadyTxs : list Tx) :
    transactionStore :=
  fold_left (λ s tx,
      with_parkingLotIndex s (insertByOrderedQueueKey (parkingLotIndex s) account tx)) nonReadyTxs s.

(** The body of the loop over the dirty accounts; the state is the store and
[updateAccounts]. *)
Definition processDirtyAccount_step (st : transactionStore * gmap string Z) (account : string) :
    option (transactionStore * gmap string Z) :=
  let '(s, updateAccounts) := st in
  match allTxs s !! account with
  | None => Some st
  | Some list =>
      let '(pendingNonce, nc) := getPendingNonce getAccountNonce (ts_nonceCache s) account in
      let s := with_nonceCache s nc in
      '(readyTxs, nonReadyTxs, nextDemandNonce) ← filterReady list pendingNonce;
      let updateAccounts := <[account := nextDemandNonce]> updateAccounts in
      let s := insertReady s account readyTxs in
      let s := updateEarliestTimestamp s in
      let s := with_priorityNonBatchSize s
                 (priorityNonBatchSize s +u Z.of_nat (length readyTxs)) in
      Some (insertNonReady s account nonReadyTxs, updateAccounts)
  end.

Definition processDirtyAccount (s : transactionStore) (dirtyAccounts : gmap string bool) :
    option transactionStore :=
  '(s, updateAccounts) ←
    foldl (λ st account, st ← st; processDirtyAccount_step st account)
      (Some (s, ∅)) (go_keys dirtyAccounts);
  Some (with_nonceCache s (updatePendingNonce (ts_nonceCache s) updateAccounts)).

(** ** [generateBlock] *)

(** The loop that includes transactions skipped before; the state is
[batchedTxs] and [result], the boolean is the answer of the iterator callback.
[None] is a loop that has not ended within the fuel. *)
Fixpoint includeSkipped (fuel : nat) (batchLen : Z) (skippedTxs : gset orderedIndexKey)
    (batched : gset orderedIndexKey) (result : list orderedIndexKey) (skippedTxn : orderedIndexKey) :
    option (gset orderedIndexKey * list orderedIndexKey * bool) :=
  match fuel with
  | O => None
  | S fuel =>
      if decide (skippedTxn ∈ skippedTxs)
      then
        let batched := {[skippedTxn]} ∪ batched in
        let result := result ++ [skippedTxn] in
        if decide (Z.of_nat (length result) = batchLen) then Some (batched, result, false)
        else includeSkipped fuel batchLen skippedTxs batched result
               (OrderedIndexKey (oik_account skippedTxn) (oik_nonce skippedTxn +u 1))
      else Some (batched, result, true)
  end.

(** The variables that the callback of [Ascend] updates. *)
Record batching := Batching {
  b_batched : gset orderedIndexKey;
  b_skipped : gset orderedIndexKey;
  b_result : list orderedIndexKey;
  b_nonceCache : nonceCache }.

Definition batchCallback (batchLen : Z) (tx : orderedTimeoutKey) (st : option batching) :
    option batching * bool :=
  match st with
  | None => (None, false)
  | Some st =>
      let ptr := OrderedIndexKey (otk_account tx) (otk_nonce tx) in
      if decide (ptr ∈ b_batched st) then (Some st, true)
      else
        let txSeq := otk_nonce tx in
        let '(commitNonce, nc) := getCommitNonce getAccountNonce (b_nonceCache st) (otk_account tx) in
        let seenPrevious :=
          bool_decide (1 ≤ txSeq)%Z &&
          bool_decide (OrderedIndexKey (otk_account tx) (txSeq - 1) ∈ b_batched st) in
        if seenPrevious || bool_decide (txSeq = commitNonce)
        then
          let batched := {[ptr]} ∪ b_batched st in
          let result := b_result st ++ [ptr] in
          if decide (Z.of_nat (length result) = batchLen)
          then (Some (Batching batched (b_skipped st) result nc), false)
          else
            match includeSkipped (S (size (b_skipped st))) batchLen (b_skipped st) batched result
                    (OrderedIndexKey (otk_account tx) (txSeq +u 1)) with
            | None => (None, false)
            | Some (batched, result, continue) =>
                (Some (Batching batched (b_skipped st) result nc), continue)
            end
        else (Some (Batching (b_batched st) ({[ptr]} ∪ b_skipped st) (b_result st) nc), true)
  end.

(** The number of transactions the next block may hold. *)
Definition blockBatchSize (mpi : mempoolImpl) : Z :=
  let poolLen := priorityNonBatchSize (txStore mpi) in
  if decide (batchSize mpi < poolLen)%Z then batchSize mpi else poolLen.

Definition collectBatch (mpi : mempoolImpl) : option batching :=
  let s := txStore mpi in
  ascend (batchCallback (blockBatchSize mpi)) (bt_Ascend (priorityIndex s))
    (Some (Batching (batchedTxs s) ∅ [] (ts_nonceCache s))).

(** A result without a batch is the error of [generateBlock]; [now] is the
timestamp of the batch. *)
Definition generateBlock (mpi : mempoolImpl) (now : Z) : option (mempoolImpl * option RequestBatch) :=
  b ← collectBatch mpi;
  let s := with_nonceCache (with_batchedTxs (txStore mpi) (b_batched b)) (b_nonceCache b) in
  let result := b_result b in
  if negb (isTimed mpi) && bool_decide (length result = 0)
     && bool_decide (0 < priorityNonBatchSize s)%Z
  then Some (with_txStore mpi (with_priorityNonBatchSize s 0), None)
  else
    let txList := (λ v, getTxByOrderKey s (oik_account v) (oik_nonce v)) <$> result in
    let seqNo := batchSeqNo mpi +u 1 in
    let s := if decide (Z.of_nat (length txList) ≤ priorityNonBatchSize s)%Z
             then with_priorityNonBatchSize s (priorityNonBatchSize s - Z.of_nat (length txList))
             else s in
    Some (with_txStore (SetBatchSeqNo mpi seqNo) s, Some (MkRequestBatch txList seqNo now)).

(** [GenerateBlock] of [mempool.go] *)
Definition GenerateBlock (mpi : mempoolImpl) (now : Z) : option (mempoolImpl * option RequestBatch) :=
  if negb (isTimed mpi) && bool_decide (priorityNonBatchSize (txStore mpi) = 0)%Z
  then Some (mpi, None)
  else generateBlock mpi now.

(** The last component is what [postTxsEvent] publishes; [now1] and [now2] are
the clock in [insertTxs] and in [generateBlock]. *)
Definition ProcessTransactions (mpi : mempoolImpl) (txs : list Tx) (isLeader isLocal : bool)
    (now1 now2 : Z) : option (mempoolImpl * option RequestBatch * list Tx) :=
  let adm := admitTxs (txStore mpi) txs in
  let s := with_nonceCache (txStore mpi) (adm_nonceCache adm) in
  let '(s, dirtyAccounts) := insertTxs s (validTxs adm) isLocal now1 in
  s ← processDirtyAccount s dirtyAccounts;
  let mpi := with_txStore mpi s in
  if isLeader && bool_decide (batchSize mpi ≤ priorityNonBatchSize s)%Z && negb (isTimed mpi)
  then '(mpi, batch) ← generateBlock mpi now2; Some (mpi, batch, validTxList adm)
  else Some (mpi, None, validTxList adm).

Definition GetPendingNonceByAccount (mpi : mempoolImpl) (account : string) : Z * mempoolImpl :=
  let '(n, nc) := getPendingNonce getAccountNonce (ts_nonceCache (txStore mpi)) account in
  (n, with_txStore mpi (with_nonceCache (txStore mpi) nc)).

(** ** Commit *)

(** The variables of the first loop of [processCommitTransactions]. *)
Record committing := Committing {
  c_store : transactionStore;
  c_updateAccounts : gmap string Z;
  c_dirtyAccounts : gmap string bool }.

Definition commitHash (st : committing) (strHash : string) : committing :=
  let s := c_store st in
  match txHashMap s !! strHash with
  | None => st
  | Some txPointer =>
      let account := oik_account txPointer in
      let '(preCommitNonce, nc) := getCommitNonce getAccountNonce (ts_nonceCache s) account in
      let newCommitNonce := oik_nonce txPointer +u 1 in
      let updateAccounts :=
        if bool_decide (default 0%Z (c_updateAccounts st !! account) < newCommitNonce)%Z
           && bool_decide (preCommitNonce < newCommitNonce)%Z
        then <[account := newCommitNonce]> (c_updateAccounts st) else c_updateAccounts st in
      let s := with_nonceCache s nc in
      let s := with_txHashMap s (delete strHash (txHashMap s)) in
      let s := with_batchedTxs s (batchedTxs s ∖ {[txPointer]}) in
      Committing s updateAccounts (<[account := true]> (c_dirtyAccounts st))
  end.

(** The body of the second loop: the five goroutines of the source update five
different fields of the store and only read [removedTxs], so they are run one
after the other. *)
Definition cleanAccount (s : transactionStore) (account : string) : option transactionStore :=
  let '(commitNonce, nc) := getCommitNonce getAccountNonce (ts_nonceCache s) account in
  let s := with_nonceCache s nc in
  match allTxs s !! account with
  | None => Some s
  | Some list =>
      '(removedTxs, list) ← forward list commitNonce;
      let list := TxSortedMap _ (items list) (removeBySortedNonceKey (index list) removedTxs) in
      let s := with_allTxs s (<[account := list]> (allTxs s)) in
      let s := with_priorityIndex s (removeByTimeoutKey (priorityIndex s) removedTxs) in
      let s := updateEarliestTimestamp (with_ttlIndex s (removeByTtlKey (ttlIndex s) removedTxs)) in
      let s := with_removeTimeoutIndex s (tam_removeByTtlKey (removeTimeoutIndex s) removedTxs) in
      Some (with_parkingLotIndex s (removeByOrderedQueueKey (parkingLotIndex s) removedTxs))
  end.

Definition capNonBatchSize (s : transactionStore) : transactionStore :=
  let readyNum := Z.of_nat (bt_Len (priorityIndex s)) in
  if decide (readyNum < priorityNonBatchSize s)%Z then with_priorityNonBatchSize s readyNum else s.

Definition processCommitTransactions (mpi : mempoolImpl) (txHashList : list string) :
    option mempoolImpl :=
  let st := fold_left commitHash txHashList (Committing (txStore mpi) ∅ ∅) in
  let s := with_nonceCache (c_store st)
             (updateCommittedNonce (ts_nonceCache (c_store st)) (c_updateAccounts st)) in
  s ← foldl (λ s account, s ← s; cleanAccount s account) (Some s) (go_keys (c_dirtyAccounts st));
  Some (with_txStore mpi (capNonBatchSize s)).

Definition CommitTransactions (mpi : mempoolImpl) (txHashList : list string) : option mempoolImpl :=
  processCommitTransactions mpi txHashList.

(** ** Rebroadcast of timed-out transactions *)

(** The inner loop of [shardTxList]: [j], [begin] and [shardedList] are its
variables. *)
Fixpoint shardInner (fuel : nat) (s : transactionStore) (timeoutItems : list orderedTimeoutKey)
    (batchLen end_ : Z) (j begin : Z) (shardedList : list (option Tx)) :
    option (Z * list (option Tx)) :=
  match fuel with
  | O => None
  | S fuel =>
      if bool_decide (j < batchLen)%Z && bool_decide (begin ≤ end_)%Z
      then
        item ← timeoutItems !! Z.to_nat begin;
        txMap ← allTxs s !! otk_account item;
        it ← items txMap !! otk_nonce item;
        if decide (Z.to_nat j < length shardedList)
        then shardInner fuel s timeoutItems batchLen end_ (j +u 1) (begin +u 1)
               (<[Z.to_nat j := Some (ti_tx it)]> shardedList)
        else None
      else Some (begin, shardedList)
  end.

(** [batchNums] rounds of the outer loop. *)
Fixpoint shardOuter (batchNums : nat) (s : transactionStore) (timeoutItems : list orderedTimeoutKey)
    (batchLen end_ : Z) (begin : Z) : option (list (list (option Tx))) :=
  match batchNums with
  | O => Some []
  | S batchNums =>
      let remaining := u64 (end_ - begin + 1) in
      let actualLen := if decide (remaining < batchLen)%Z then remaining else batchLen in
      '(begin, shardedList) ←
        shardInner (S (length timeoutItems)) s timeoutItems batchLen end_ 0 begin
          (replicate (Z.to_nat actualLen) None);
      rest ← shardOuter batchNums s timeoutItems batchLen end_ begin;
      Some (shardedList :: rest)
  end.

Definition shardTxList (mpi : mempoolImpl) (timeoutItems : list orderedTimeoutKey) (batchLen : Z) :
    option (list (list (option Tx))) :=
  let totalLen := Z.of_nat (length timeoutItems) in
  let end_ := u64 (totalLen - 1) in
  if decide (batchLen = 0)%Z then None
  else
    let batchNums := (totalLen / batchLen)%Z in
    let batchNums := if decide (totalLen `mod` batchLen ≠ 0)%Z then batchNums +u 1 else batchNums in
    shardOuter (Z.to_nat batchNums) (txStore mpi) timeoutItems batchLen end_ 0.

(** The callback that gathers the timed-out keys of [ttlIndex]. *)
Definition timeoutCallback (s : transactionStore) (rebroadcastDuration currentTime : Z)
    (item : orderedTimeoutKey) (timeoutItems : list orderedTimeoutKey) :
    list orderedTimeoutKey * bool :=
  if decide (MaxInt64 < otk_timestamp item)%Z then (timeoutItems, true)
  else
    let timeoutTime := i64 (otk_timestamp item + rebroadcastDuration) in
    match allTxs s !! otk_account item with
    | None => (timeoutItems, false)
    | Some _ =>
        if decide (currentTime < timeoutTime)%Z then (timeoutItems, false)
        else (timeoutItems ++ [item], true)
    end.

Definition GetTimeoutTransactions (mpi : mempoolImpl) (rebroadcastDuration currentTime : Z) :
    option (mempoolImpl * list (list (option Tx))) :=
  let s := txStore mpi in
  if decide (currentTime < i64 (earliestTimestamp s + rebroadcastDuration))%Z then Some (mpi, [])
  else
    let timeoutItems :=
      ascend (timeoutCallback s rebroadcastDuration currentTime) (bt_Ascend (tm_index (ttlIndex s))) [] in
    let ttl := fold_left (λ ttl item, updateByTtlKey ttl item currentTime) timeoutItems (ttlIndex s) in
    let mpi := with_txStore mpi (with_ttlIndex s ttl) in
    shards ← shardTxList mpi timeoutItems (txSliceSize mpi);
    Some (mpi, shards).

(** ** Removal of transactions that stayed too long *)

Record removing := Removing {
  r_removedTxs : gmap string (list Tx);
  r_removeCnt : Z;
  r_txHashMap : gmap string orderedIndexKey }.

(** The callback on [removeTimeoutIndex]; it reads the store [s] and updates
[removedTxs], [removeCnt] and [txHashMap]. *)
Definition removeCallback (s : transactionStore) (now removeDuration : Z)
    (item : orderedTimeoutKey) (st : removing) : removing * bool :=
  match getPoolTxByTxnPointer s (otk_account item) (otk_nonce item) with
  | None => (st, true)
  | Some txIt =>
      if decide (removeDuration < i64 (now - otk_timestamp item))%Z
      then
        let orderedKey :=
          OrderedTimeoutKey (ti_account txIt) (tx_nonce (ti_tx txIt)) (tx_timestamp (ti_tx txIt)) in
        if decide (OrderedIndexKey (otk_account item) (otk_nonce item) ∈ batchedTxs s) then (st, true)
        else if bt_Get (priorityIndex s) orderedKey then (st, true)
        else
          match bt_Get (parkingLotIndex s)
                  (OrderedIndexKey (ti_account txIt) (tx_nonce (ti_tx txIt))) with
          | Some _ =>
              let account := otk_account orderedKey in
              (Removing
                 (<[account := default [] (r_removedTxs st !! account) ++ [ti_tx txIt]]> (r_removedTxs st))
                 (r_removeCnt st +u 1)
                 (delete (tx_hash (ti_tx txIt)) (r_txHashMap st)), true)
          | None => (st, true)
          end
      else (st, false)
  end.

(** The body of the loop over [removedTxs]. *)
Definition removeAccount (removedTxs : gmap string (list Tx)) (s : transactionStore)
    (entry : string * list Tx) : transactionStore :=
  let '(account, txs) := entry in
  match allTxs s !! account with
  | None => s
  | Some list =>
      let list := TxSortedMap _
                    (fold_left (λ its tx, delete (tx_nonce tx) its) txs (items list))
                    (removeBySortedNonceKey (index list) removedTxs) in
      let s := with_allTxs s (<[account := list]> (allTxs s)) in
      let s := with_priorityIndex s (removeByTimeoutKey (priorityIndex s) removedTxs) in
      let s := with_parkingLotIndex s (removeByOrderedQueueKey (parkingLotIndex s) removedTxs) in
      let s := with_ttlIndex s (removeByTtlKey (ttlIndex s) removedTxs) in
      with_removeTimeoutIndex s (tam_removeByTtlKey (removeTimeoutIndex s) removedTxs)
  end.

Definition RemoveAliveTimeoutTxs (mpi : mempoolImpl) (removeDuration now : Z) : mempoolImpl * Z :=
  let s := txStore mpi in
  let st := ascend (removeCallback s now removeDuration) (bt_Ascend (tm_index (removeTimeoutIndex s)))
              (Removing ∅ 0 (txHashMap s)) in
  let s := with_txHashMap s (r_txHashMap st) in
  let s := fold_left (removeAccount (r_removedTxs st)) (go_range (r_removedTxs st)) s in
  (with_txStore mpi s, r_removeCnt st).

Definition GetTransaction (mpi : mempoolImpl) (hash : string) : option Tx :=
  key ← txHashMap (txStore mpi) !! hash;
  txMap ← allTxs (txStore mpi) !! oik_account key;
  ti_tx <$> items txMap !! oik_nonce key.
End mempool.
