(* ===== verification/TxStoreProps.v ===== *)
(** * Lemmas about the transaction store

What each structure of [TxStore] promises: the nonce cache as a pair of total
functions (reading it changes nothing that can be observed), the time indexes as
finite maps, [filterReady] and [forward] against their specifications, and the
well-formedness predicates with the lemmas that every operation preserves them. *)
From S2P Require Import Prelude Btree TxStore.

(** ** The nonce cache as two functions *)

Section nonces.
Variable g : string → Z.

Definition commitNonce (nc : nonceCache) (a : string) : Z := default (g a) (commitNonces nc !! a).
Definition pendingNonce (nc : nonceCache) (a : string) : Z :=
  default (commitNonce nc a) (pendingNonces nc !! a).

(** Two caches that no reader can tell apart; the entries that a pending nonce
was recorded for are the same. *)
Definition nc_equiv (nc1 nc2 : nonceCache) : Prop :=
  (∀ a, commitNonce nc1 a = commitNonce nc2 a) ∧ pendingNonces nc1 = pendingNonces nc2.

Global Instance nc_equiv_equivalence : Equivalence nc_equiv.
Proof.
  split.
  - intros nc. split; done.
  - intros ?? [? ?]. by split.
  - intros nc1 nc2 nc3 [H1 ?] [H2 ?]. split; [intros a; by rewrite H1|congruence].
Qed.

Global Instance commitNonce_proper : Proper (nc_equiv ==> (=) ==> (=)) commitNonce.
Proof. intros ?? [Hc _] a ? <-. apply Hc. Qed.

Global Instance pendingNonce_proper : Proper (nc_equiv ==> (=) ==> (=)) pendingNonce.
Proof. intros ?? [Hc Hp] a ? <-. unfold pendingNonce. by rewrite Hc, Hp. Qed.

(** Reading the cache returns the view and leaves an equivalent cache. *)
Lemma getCommitNonce_spec nc a :
  (getCommitNonce g nc a).1 = commitNonce nc a ∧ nc_equiv (getCommitNonce g nc a).2 nc.
Proof.
  unfold getCommitNonce, commitNonce, nc_equiv.
  destruct (commitNonces nc !! a) eqn:E; simpl; [done|]. split; [done|]. split; [|done].
  intros b. unfold commitNonce. simpl. rewrite lookup_insert. case_decide; [|done].
  subst. by rewrite E.
Qed.

Lemma getPendingNonce_spec nc a :
  (getPendingNonce g nc a).1 = pendingNonce nc a ∧ nc_equiv (getPendingNonce g nc a).2 nc.
Proof.
  unfold getPendingNonce, pendingNonce. destruct (pendingNonces nc !! a) eqn:E; simpl; [done|].
  apply getCommitNonce_spec.
Qed.
End nonces.

Section update_nonces.
Context `{GoRange}.

Lemma updatePendingNonce_spec nc upd :
  updatePendingNonce nc upd = NonceCache (commitNonces nc) (upd ∪ pendingNonces nc).
Proof.
  rewrite <-go_range_store. unfold updatePendingNonce. generalize (go_range upd) as l.
  intros l. revert nc. induction l as [|[a n] l IH]; intros nc; simpl; [by destruct nc|].
  by rewrite IH.
Qed.

Lemma updateCommittedNonce_spec nc upd :
  updateCommittedNonce nc upd = NonceCache (upd ∪ commitNonces nc) (pendingNonces nc).
Proof.
  rewrite <-go_range_store. unfold updateCommittedNonce. generalize (go_range upd) as l.
  intros l. revert nc. induction l as [|[a n] l IH]; intros nc; simpl; [by destruct nc|].
  by rewrite IH.
Qed.
End update_nonces.

(** ** The time indexes *)

Section time_maps.
Context `{BTreeLib, GoRange}.
Implicit Types (tm : txTimeMap) (k : orderedTimeoutKey).

(** The tree and the map hold the same triples. *)
Definition time_map_ok tm : Prop :=
  (∀ k, k ∈ bt_Ascend (tm_index tm) → 0 ≤ otk_nonce k)%Z ∧
  ∀ a n t, (0 ≤ n)%Z →
    OrderedTimeoutKey a n t ∈ bt_Ascend (tm_index tm) ↔ tm_items tm !! makeAccountNonceKey a n = Some t.

Definition tm_lookup tm (a : string) (n : Z) : option Z := tm_items tm !! makeAccountNonceKey a n.

Lemma time_map_ok_elem tm k :
  time_map_ok tm → k ∈ bt_Ascend (tm_index tm) →
  (0 ≤ otk_nonce k)%Z ∧ tm_lookup tm (otk_account k) (otk_nonce k) = Some (otk_timestamp k).
Proof.
  intros [Hn Hok] Hk. pose proof (Hn k Hk). split; [done|]. destruct k. by apply Hok.
Qed.

Lemma newTxLiveTimeMap_ok : time_map_ok newTxLiveTimeMap.
Proof.
  split; simpl; [intros k Hk; by apply bt_New_elem in Hk|].
  intros a n t _. rewrite lookup_empty. split; [intros Hk; by apply bt_New_elem in Hk|done].
Qed.

Lemma insertOrUpdateByTtlKey_ok tm a n t :
  time_map_ok tm → (0 ≤ n)%Z → time_map_ok (insertOrUpdateByTtlKey tm a n t).
Proof.
  intros [Hn Hok] Hpos. unfold insertOrUpdateByTtlKey, insertByTtlKey.
  assert (∀ k, k ∈ bt_Ascend (match tm_items tm !! makeAccountNonceKey a n with
            | Some oldTime => bt_Delete (tm_index tm) (OrderedTimeoutKey a n oldTime)
            | None => tm_index tm end)
          ↔ k ∈ bt_Ascend (tm_index tm) ∧ otk_key k ≠ OrderedIndexKey a n) as Hdel.
  { intros k. destruct (tm_items tm !! _) as [old|] eqn:Eold.
    - rewrite bt_elem_Delete. split.
      + intros [Hne Hk]. split; [done|]. intros Heq. destruct k as [a' n' t'].
        unfold otk_key in Heq. simplify_eq/=. apply Hok in Hk; [|done]. congruence.
      + intros [Hk Hne]. split; [|done]. intros ->. by destruct Hne.
    - split; [|naive_solver]. intros Hk. split; [done|]. intros Heq. destruct k as [a' n' t'].
      unfold otk_key in Heq. simplify_eq/=. apply Hok in Hk; [|done]. congruence. }
  split; simpl.
  - intros k. rewrite bt_elem_ReplaceOrInsert. intros [->|[Hk _]%Hdel]; [done|by apply Hn].
  - intros a' n' t' Hn'. rewrite bt_elem_ReplaceOrInsert, Hdel, lookup_insert.
    case_decide as Hkey.
    + apply makeAccountNonceKey_inj in Hkey as [-> ->]; [|done..]. unfold otk_key. naive_solver.
    + rewrite <-Hok by done. unfold otk_key. naive_solver.
Qed.

Lemma tm_lookup_insertOrUpdate tm a n t a' n' :
  (0 ≤ n)%Z → (0 ≤ n')%Z →
  tm_lookup (insertOrUpdateByTtlKey tm a n t) a' n' =
    if decide (a = a' ∧ n = n') then Some t else tm_lookup tm a' n'.
Proof.
  intros ??. unfold tm_lookup, insertOrUpdateByTtlKey, insertByTtlKey. simpl. rewrite lookup_insert.
  case_decide as Hk.
  - apply makeAccountNonceKey_inj in Hk as [-> ->]; [|done..]. by rewrite decide_True.
  - rewrite decide_False; [done|]. intros [-> ->]. done.
Qed.

Lemma removeOneByTtlKey_ok tm a tx :
  time_map_ok tm → (0 ≤ tx_nonce tx)%Z → time_map_ok (removeOneByTtlKey tm a tx).
Proof.
  intros [Hn Hok] Hpos. unfold removeOneByTtlKey.
  destruct (tm_items tm !! _) as [t|] eqn:Et; [|by split].
  split; simpl.
  - intros k. rewrite bt_elem_Delete. intros [_ Hk]. by apply Hn.
  - intros a' n' t' Hn'. rewrite bt_elem_Delete, lookup_delete.
    case_decide as Hkey.
    + apply makeAccountNonceKey_inj in Hkey as [-> <-]; [|done..]. split; [|done].
      intros [Hne Hk]. apply Hok in Hk; [|done]. congruence.
    + rewrite <-Hok by done. naive_solver.
Qed.

Lemma tm_lookup_removeOne tm a tx a' n' :
  (0 ≤ tx_nonce tx)%Z → (0 ≤ n')%Z →
  tm_lookup (removeOneByTtlKey tm a tx) a' n' =
    if decide (a = a' ∧ tx_nonce tx = n') then None else tm_lookup tm a' n'.
Proof.
  intros ??. unfold tm_lookup, removeOneByTtlKey.
  destruct (tm_items tm !! makeAccountNonceKey a (tx_nonce tx)) as [t|] eqn:Et; simpl.
  - rewrite lookup_delete. case_decide as Hk.
    + apply makeAccountNonceKey_inj in Hk as [-> <-]; [|done..]. by rewrite decide_True.
    + rewrite decide_False; [done|]. by intros [-> <-].
  - case_decide as Hk; [|done]. by destruct Hk as [-> <-].
Qed.

Lemma removeByTtlKey_ok tm txs :
  time_map_ok tm → (∀ a tx, (a, tx) ∈ range_txs txs → 0 ≤ tx_nonce tx)%Z →
  time_map_ok (removeByTtlKey tm txs).
Proof.
  unfold removeByTtlKey. generalize (range_txs txs) as l. intros l. revert tm.
  induction l as [|[a tx] l IH]; intros tm Hok Hpos; simpl; [done|].
  apply IH; [|set_solver]. apply removeOneByTtlKey_ok; [done|]. apply (Hpos a). set_solver.
Qed.

Lemma tm_lookup_removeByTtlKey tm txs a n t :
  (∀ a tx, (a, tx) ∈ range_txs txs → 0 ≤ tx_nonce tx)%Z → (0 ≤ n)%Z →
  tm_lookup (removeByTtlKey tm txs) a n = Some t ↔
    tm_lookup tm a n = Some t ∧ ∀ tx, (a, tx) ∈ range_txs txs → tx_nonce tx ≠ n.
Proof.
  unfold removeByTtlKey. generalize (range_txs txs) as l. intros l Hpos Hn. revert tm.
  induction l as [|[a' tx] l IH]; intros tm; simpl; [set_solver|].
  rewrite IH by set_solver. rewrite tm_lookup_removeOne; [|by apply (Hpos a'); set_solver|done].
  case_decide as E.
  - destruct E as [-> <-]. set_solver.
  - split; [|set_solver]. intros [? Hl]. split; [done|].
    intros tx' [?|?]%elem_of_cons; [naive_solver|eauto].
Qed.

Lemma updateByTtlKey_ok tm k newTime :
  time_map_ok tm → k ∈ bt_Ascend (tm_index tm) → time_map_ok (updateByTtlKey tm k newTime).
Proof.
  intros Hok Hk. destruct (time_map_ok_elem _ _ Hok Hk) as [Hpos Hlook].
  assert (updateByTtlKey tm k newTime =
    insertOrUpdateByTtlKey
      (removeOneByTtlKey tm (otk_account k) (MkTx (otk_account k) (otk_nonce k) EmptyString 0))
      (otk_account k) (otk_nonce k) newTime) as ->.
  { unfold updateByTtlKey, insertOrUpdateByTtlKey, removeOneByTtlKey. simpl.
    unfold tm_lookup in Hlook. rewrite Hlook. simpl. rewrite lookup_delete_eq. by destruct k. }
  apply insertOrUpdateByTtlKey_ok; [|done]. by apply removeOneByTtlKey_ok.
Qed.
End time_maps.

(** ** [txSortedMap] *)

Section sorted_maps.
Context `{BTreeLib, GoRange}.
Implicit Types (m : txSortedMap) (its : gmap Z txItem).

(** The index holds the nonces of the items, and an item is filed under the
nonce and the account of its transaction. Nonces are [uint64] values whose
successor does not wrap. *)
Record sorted_map_ok (account : string) m : Prop := {
  smo_index n : makeSortedNonceKey n ∈ bt_Ascend (index m) ↔ is_Some (items m !! n);
  smo_item n it : items m !! n = Some it →
    ti_account it = account ∧ tx_from (ti_tx it) = account ∧ tx_nonce (ti_tx it) = n ∧
    (0 ≤ n < MaxUint64)%Z }.

Lemma newTxSortedMap_ok account : sorted_map_ok account newTxSortedMap.
Proof.
  split; simpl.
  - intros n. rewrite lookup_empty. split; [intros Hk; by apply bt_New_elem in Hk|by intros []].
  - intros n it. by rewrite lookup_empty.
Qed.

(** The transactions of the items at the nonces [d], [d + 1], ..., [d + k - 1]. *)
Definition txs_at its (d : Z) (k : nat) : list Tx :=
  omap (λ n, ti_tx <$> its !! n) (seqZ d (Z.of_nat k)).

Lemma txs_at_S its d k it :
  its !! d = Some it → txs_at its d (S k) = ti_tx it :: txs_at its (d + 1) k.
Proof.
  intros Hd. unfold txs_at. rewrite seqZ_cons by lia. simpl. rewrite Hd. simpl.
  rewrite Z.add_1_r. repeat f_equal. lia.
Qed.

(** Once a key is not the demanded one, all the later keys are non-ready. *)
Lemma filterReady_fold_gap its l ready nr d :
  (∀ k, k ∈ l → (d < snk_nonce k)%Z) → (∀ k, k ∈ l → is_Some (its !! snk_nonce k)) →
  ∃ nr', foldl (λ st k, st ← st; filterReady_step its st k) (Some (ready, nr, d)) l
         = Some (ready, nr ++ nr', d) ∧
    ∀ tx, tx ∈ nr' ↔ ∃ j it, SortedNonceKey j ∈ l ∧ its !! j = Some it ∧ tx = ti_tx it.
Proof.
  revert nr. induction l as [|[k] l IH]; intros nr Hgt Hsome; simpl.
  - exists []. rewrite (right_id_L [] (++)). set_solver.
  - pose proof (Hgt (SortedNonceKey k) ltac:(set_solver)). simpl in *.
    rewrite decide_False by lia.
    destruct (Hsome (SortedNonceKey k) ltac:(set_solver)) as [it Hit]. simpl in *.
    rewrite Hit. simpl.
    destruct (IH (nr ++ [ti_tx it])) as (nr' & -> & Hnr'); [set_solver..|].
    exists (ti_tx it :: nr'). split; [by rewrite <-app_assoc|].
    intros tx. rewrite elem_of_cons, Hnr'. split.
    + intros [->|(j & it' & ? & ? & ?)]; [exists k, it; set_solver|exists j, it'; set_solver].
    + intros (j & it' & [?|?]%elem_of_cons & Hit' & ->); simplify_eq; [naive_solver|].
      right. eauto.
Qed.

(** The fold of [filterReady] over a sorted list of keys [l] that holds exactly the
nonces of the items from [d] on. *)
Lemma filterReady_fold its l ready nonReady d :
  StronglySorted (λ a b, Less a b = true) l →
  (∀ k, k ∈ l → d ≤ snk_nonce k < MaxUint64)%Z → (0 ≤ d)%Z →
  (∀ k, k ∈ l → is_Some (its !! snk_nonce k)) →
  ∃ n nonReady',
    foldl (λ st k, st ← st; filterReady_step its st k) (Some (ready, nonReady, d)) l =
      Some (ready ++ txs_at its d n, nonReady ++ nonReady', d + Z.of_nat n)%Z ∧
    (∀ j, (d ≤ j < d + Z.of_nat n)%Z → SortedNonceKey j ∈ l) ∧
    SortedNonceKey (d + Z.of_nat n) ∉ l ∧
    (∀ tx, tx ∈ nonReady' ↔ ∃ j it, (d + Z.of_nat n < j)%Z ∧ SortedNonceKey j ∈ l ∧
                               its !! j = Some it ∧ tx = ti_tx it).
Proof.
  intros Hs. revert ready nonReady d.
  induction Hs as [|[k] l Hs IH Hhd]; intros ready nonReady d Hrange Hd Hits; simpl.
  { exists 0, []. split_and!.
    - unfold txs_at. simpl. by rewrite !(right_id_L [] (++)), Z.add_0_r.
    - lia.
    - set_solver.
    - set_solver. }
  assert (∀ k', k' ∈ l → (k < snk_nonce k')%Z) as Hlt.
  { intros [k'] Hk'. eapply Forall_forall in Hhd; [|done].
    unfold Less, sortedNonceKey_Less in Hhd. simpl in *. lia. }
  destruct (Hits (SortedNonceKey k)) as [it Hit]; [set_solver|]. simpl in Hit.
  pose proof (Hrange (SortedNonceKey k) ltac:(set_solver)) as Hk. simpl in Hk.
  case_decide as Hkd.
  - subst k. rewrite Hit. simpl. unfold MaxUint64 in Hk.
    simp_u64.
    destruct (IH (ready ++ [ti_tx it]) nonReady (d + 1)%Z) as (n & nr & -> & Hin & Hout & Hnr).
    { intros k' Hk'. pose proof (Hlt k' Hk'). pose proof (Hrange k' ltac:(set_solver)). lia. }
    { lia. } { set_solver. }
    exists (S n), nr. split_and!.
    + by rewrite (txs_at_S _ _ _ _ Hit), <-app_assoc, Nat2Z.inj_succ, <-Z.add_1_l, Z.add_assoc.
    + intros j Hj. destruct (decide (j = d)) as [->|]; [set_solver|].
      right. apply Hin. lia.
    + rewrite Nat2Z.inj_succ. intros [?|Hin']%elem_of_cons; [simplify_eq; lia|].
      apply Hout. by replace (d + 1 + Z.of_nat n)%Z with (d + Z.succ (Z.of_nat n))%Z by lia.
    + intros tx. rewrite Hnr. rewrite Nat2Z.inj_succ. split.
      * intros (j & it' & ? & ? & ? & ?). exists j, it'. split_and!; [lia|set_solver|done|done].
      * intros (j & it' & Hj & [?|?]%elem_of_cons & ? & ?); [simplify_eq; lia|].
        exists j, it'. split_and!; [lia|done..].
  - rewrite Hit. simpl.
    destruct (filterReady_fold_gap its l ready (nonReady ++ [ti_tx it]) d) as (nr' & -> & Hnr').
    { intros k' Hk'. pose proof (Hlt k' Hk'). lia. } { set_solver. }
    exists 0, (ti_tx it :: nr'). split_and!.
    + unfold txs_at. simpl. by rewrite (right_id_L [] (++)), <-app_assoc, Z.add_0_r.
    + lia.
    + rewrite Z.add_0_r. intros [?|Hin]%elem_of_cons; [simplify_eq; lia|].
      pose proof (Hlt _ Hin). simpl in *. lia.
    + rewrite Z.add_0_r. intros tx. rewrite elem_of_cons, Hnr'. split.
      * intros [->|(j & it' & Hj & ? & ?)].
        -- exists k, it. split_and!; [lia|set_solver|done|done].
        -- pose proof (Hlt _ Hj). exists j, it'. simpl in *. split_and!; [lia|set_solver|done|done].
      * intros (j & it' & ? & [?|?]%elem_of_cons & Hit' & ->); simplify_eq; [naive_solver|].
        right. eauto.
Qed.

(** [filterReady] cuts the transactions from the demanded nonce on at the first gap:
it does not panic, the ready ones are the run of consecutive nonces that starts at
the demanded one, the returned nonce is the first one missing, and the non-ready
ones are all the others above it. *)
Lemma filterReady_spec account m d :
  sorted_map_ok account m → (0 ≤ d)%Z →
  ∃ n nonReady,
    filterReady m d = Some (txs_at (items m) d n, nonReady, d + Z.of_nat n)%Z ∧
    (∀ j, (d ≤ j < d + Z.of_nat n)%Z → is_Some (items m !! j)) ∧
    items m !! (d + Z.of_nat n)%Z = None ∧
    (∀ tx, tx ∈ nonReady ↔ ∃ j it, (d + Z.of_nat n < j)%Z ∧ items m !! j = Some it ∧ tx = ti_tx it).
Proof.
  intros [Hidx Hitem] Hd. unfold filterReady. case_decide as Hlen.
  { rewrite bt_Len_spec in Hlen. apply nil_length_inv in Hlen.
    assert (∀ n, items m !! n = None) as Hnone.
    { intros n. apply eq_None_not_Some. rewrite <-Hidx, Hlen. set_solver. }
    exists 0, []. rewrite Z.add_0_r. split_and!; [done|lia|done|].
    intros tx. split; [set_solver|]. intros (j & it & _ & Hj & _). by rewrite Hnone in Hj. }
  rewrite bt_AscendGreaterOrEqual_spec.
  set (l := filter _ _).
  assert (∀ k, k ∈ l ↔ (d ≤ snk_nonce k)%Z ∧ is_Some (items m !! snk_nonce k)) as Hl.
  { intros [k]. unfold l. rewrite list_elem_of_filter. rewrite <-Hidx. simpl.
    unfold Less, sortedNonceKey_Less. simpl. rewrite Z.ltb_ge. done. }
  destruct (filterReady_fold (items m) l [] [] d) as (n & nr & -> & Hin & Hout & Hnr); [..|done| |].
  { apply StronglySorted_filter, bt_Ascend_sorted. }
  { intros k [Hk [it Hit]]%Hl. destruct (Hitem _ _ Hit) as (_ & _ & _ & ?). lia. }
  { intros k Hk. by apply Hl in Hk as [_ ?]. }
  exists n, nr. split_and!; [done|..].
  - intros j Hj. by apply Hin, Hl in Hj as [_ ?].
  - apply eq_None_not_Some. intros Hsome. apply Hout, Hl. simpl. split; [lia|done].
  - intros tx. rewrite Hnr. split.
    + intros (j & it & ? & _ & ? & ?). eauto.
    + intros (j & it & ? & Hit & ->). exists j, it. split_and!; [done| |done|done].
      apply Hl. simpl. split; [lia|eauto].
Qed.

(** The transactions that a [removedTxs] map lists for an account. *)
Lemma elem_of_range_txs_insert (rem : gmap string (list Tx)) account tx0 a tx :
  (a, tx) ∈ range_txs (<[account := default [] (rem !! account) ++ [tx0]]> rem) ↔
    (a = account ∧ tx = tx0) ∨ (a, tx) ∈ range_txs rem.
Proof.
  rewrite !elem_of_range_txs. destruct (decide (a = account)) as [->|Hne].
  - rewrite lookup_insert_eq. split.
    + intros (l & ? & Hin). simplify_eq.
      apply elem_of_app in Hin as [Hin|Hin%list_elem_of_singleton]; [|naive_solver].
      destruct (rem !! account) as [l|]; simpl in *; [naive_solver|set_solver].
    + intros Hor. eexists. split; [done|]. apply elem_of_app.
      destruct Hor as [[_ ->]|(l & -> & ?)]; [set_solver|by left].
  - rewrite lookup_insert_ne by done. naive_solver.
Qed.

Lemma forward_fold account l rem its :
  NoDup l → (∀ k, k ∈ l → ∃ it, its !! snk_nonce k = Some it ∧ ti_account it = account) →
  ∃ rem' its',
    foldl (λ st k, st ← st; forward_step st k) (Some (rem, its)) l = Some (rem', its') ∧
    (∀ n, its' !! n = if decide (SortedNonceKey n ∈ l) then None else its !! n) ∧
    (∀ a tx, (a, tx) ∈ range_txs rem' ↔ (a, tx) ∈ range_txs rem ∨
       (a = account ∧ ∃ n it, SortedNonceKey n ∈ l ∧ its !! n = Some it ∧ tx = ti_tx it)).
Proof.
  revert rem its. induction l as [|[k] l IH]; intros rem its Hnd Hl.
  - exists rem, its. split; [done|]. split; [|set_solver].
    intros n. by rewrite decide_False by set_solver.
  - apply NoDup_cons in Hnd as [Hk Hnd].
    destruct (Hl (SortedNonceKey k) ltac:(set_solver)) as (it & Hit & Hacc). simpl in Hit.
    cbn [foldl mbind option_bind forward_step snk_nonce]. rewrite Hit. cbn [mbind option_bind].
    rewrite Hacc.
    destruct (IH (<[account := default [] (rem !! account) ++ [ti_tx it]]> rem) (delete k its))
      as (rem' & its' & -> & Hits & Hrem); [done|..].
    { intros [k'] Hk'. destruct (Hl (SortedNonceKey k') ltac:(set_solver)) as (it' & ? & ?).
      exists it'. simpl in *. rewrite lookup_delete_ne by naive_solver. done. }
    exists rem', its'. split; [done|]. split.
    + intros n. rewrite Hits, lookup_delete.
      destruct (decide (k = n)) as [->|Hne].
      * rewrite (decide_True (P := SortedNonceKey n ∈ SortedNonceKey n :: l)) by set_solver.
        by case_decide.
      * apply decide_ext. set_solver.
    + intros a tx. rewrite Hrem, elem_of_range_txs_insert. split.
      * intros [[[-> ->]|?]|(-> & n & it' & Hn & Hit' & ->)]; [|by left|].
        -- right. split; [done|]. exists k, it. set_solver.
        -- apply lookup_delete_Some in Hit' as [? Hit']. right. split; [done|].
           exists n, it'. set_solver.
      * intros [?|(-> & n & it' & [?|?]%elem_of_cons & Hit' & ->)]; [by left; right| |].
        -- simplify_eq. by left; left.
        -- right. split; [done|]. exists n, it'. split; [done|]. split; [|done].
           rewrite lookup_delete_ne; [done|]. naive_solver.
Qed.

(** [forward] takes out of the items exactly the transactions below the commit
nonce and returns them, without panicking. *)
Lemma forward_spec account m c :
  sorted_map_ok account m →
  ∃ rem its',
    forward m c = Some (rem, TxSortedMap _ its' (index m)) ∧
    (∀ n, its' !! n = if decide (n < c)%Z then None else items m !! n) ∧
    (∀ a tx, (a, tx) ∈ range_txs rem ↔
       a = account ∧ ∃ n it, (n < c)%Z ∧ items m !! n = Some it ∧ tx = ti_tx it).
Proof.
  intros [Hidx Hitem]. unfold forward. rewrite bt_AscendLessThan_spec. set (l := filter _ _).
  assert (∀ n, SortedNonceKey n ∈ l ↔ (n < c)%Z ∧ is_Some (items m !! n)) as Hl.
  { intros n. unfold l. rewrite list_elem_of_filter, <-Hidx.
    unfold Less, sortedNonceKey_Less. simpl. by rewrite Z.ltb_lt. }
  destruct (forward_fold account l ∅ (items m)) as (rem & its' & -> & Hits & Hrem).
  { apply NoDup_filter, bt_Ascend_NoDup. }
  { intros [n] [_ [it Hit]]%Hl. exists it. split; [done|]. by apply Hitem in Hit as [? _]. }
  exists rem, its'. split; [done|]. split.
  - intros n. rewrite Hits. destruct (decide (n < c)%Z) as [Hn|Hn].
    + destruct (items m !! n) eqn:E; [|by case_decide].
      rewrite decide_True; [done|]. apply Hl. eauto.
    + rewrite decide_False; [done|]. rewrite Hl. naive_solver.
  - intros a tx. rewrite Hrem, elem_of_range_txs. split.
    + intros [(l' & Hl' & _)|(-> & n & it & [??]%Hl & ? & ?)]; [by rewrite lookup_empty in Hl'|].
      naive_solver.
    + intros (-> & n & it & ? & ? & ->). right. split; [done|]. exists n, it.
      rewrite Hl. naive_solver.
Qed.
End sorted_maps.
