(* ===== verification/BatchProps.v ===== *)
(** * Block generation

[generateBlock] walks the priority index in timestamp order and must send the
transactions of an account in nonce order. This file relates the walk to its
specification: the inductive predicate [sent_in_order] (what may be sent, and in
which order) and maximality (nothing that could still be sent is left behind when
the block has fewer transactions than the batch size and the counter of ready
transactions). *)
From S2P Require Import Prelude Btree TxStore TxStoreProps Mempool.

Definition pred_key (k : orderedIndexKey) : orderedIndexKey :=
  OrderedIndexKey (oik_account k) (oik_nonce k - 1).
Definition succ_key (k : orderedIndexKey) : orderedIndexKey :=
  OrderedIndexKey (oik_account k) (oik_nonce k + 1).

Definition nonce_ok (k : orderedIndexKey) : Prop := (0 ≤ oik_nonce k < MaxUint64)%Z.

Lemma pred_succ_key k : pred_key (succ_key k) = k.
Proof. destruct k. unfold pred_key, succ_key. simpl. f_equal. lia. Qed.

Lemma succ_pred_key k : succ_key (pred_key k) = k.
Proof. destruct k. unfold pred_key, succ_key. simpl. f_equal. lia. Qed.

Lemma u64_succ_key k :
  nonce_ok k → OrderedIndexKey (oik_account k) (oik_nonce k +u 1) = succ_key k.
Proof.
  unfold nonce_ok, MaxUint64. intros. rewrite u64_small; [done|]. unfold is_u64. lia.
Qed.

(** The specification: with [commit] the next nonce of each account in the ledger
and [sent] the transactions sent to consensus before, a list of keys is sent in
order when no key is sent twice and each is the next one of its account or follows
one that was sent before it. *)
Inductive sent_in_order (commit : string → Z) (sent : gset orderedIndexKey) :
    list orderedIndexKey → Prop :=
| sent_nil : sent_in_order commit sent []
| sent_snoc l k :
    sent_in_order commit sent l →
    k ∉ sent → k ∉ l →
    (oik_nonce k = commit (oik_account k) ∨
     (1 ≤ oik_nonce k)%Z ∧ (pred_key k ∈ sent ∨ pred_key k ∈ l)) →
    sent_in_order commit sent (l ++ [k]).

Lemma sent_in_order_NoDup commit sent l : sent_in_order commit sent l → NoDup l.
Proof.
  induction 1 as [|l k Hl IH Hs Hk _]; [constructor|].
  apply NoDup_app. split_and!; [done|set_solver|apply NoDup_singleton].
Qed.

Lemma sent_in_order_fresh commit sent l k : sent_in_order commit sent l → k ∈ l → k ∉ sent.
Proof.
  induction 1 as [|l k' Hl IH Hs Hk _]; [set_solver|].
  rewrite elem_of_app, list_elem_of_singleton. naive_solver.
Qed.

(** A transaction is not sent before the one it follows: unless it is the next one of
its account or its predecessor was sent in an earlier block, its predecessor stands
before it in the list. *)
Lemma sent_in_order_before commit sent l1 k l2 :
  sent_in_order commit sent (l1 ++ k :: l2) →
  oik_nonce k = commit (oik_account k) ∨ pred_key k ∈ sent ∨ pred_key k ∈ l1.
Proof.
  remember (l1 ++ k :: l2) as l eqn:Hl. intros Hs. revert l1 k l2 Hl.
  induction Hs as [|l k' Hs IH Hn Hk Hor]; intros l1 k l2 Hl; [by destruct l1|].
  destruct l2 as [|y l2' _] using rev_ind.
  - apply app_inj_2 in Hl as [-> [= ->]]; [|done]. naive_solver.
  - rewrite app_comm_cons, (assoc_L (++)) in Hl. apply app_inj_2 in Hl as [-> _]; [|done]. by eapply IH.
Qed.

(** ** The loop over the skipped transactions *)

Section skipped.
Context (skipped : gset orderedIndexKey).
Hypothesis skipped_ok : ∀ k, k ∈ skipped → nonce_ok k.

Definition above (c : orderedIndexKey) : gset orderedIndexKey :=
  filter (λ k, oik_account k = oik_account c ∧ (oik_nonce c ≤ oik_nonce k)%Z) skipped.

Lemma above_succ c : c ∈ skipped → size (above (succ_key c)) < size (above c).
Proof.
  intros Hc. apply subset_size. unfold above.
  split; [intros k; rewrite !elem_of_filter; simpl; intros [[-> ?] ?]; split_and!; [done|lia|done]|].
  intros Hsub. specialize (Hsub c). rewrite !elem_of_filter in Hsub. simpl in Hsub.
  destruct Hsub as [[_ ?] _]; [split_and!; [done|lia|done]|lia].
Qed.

(** The loop ends: it needs no more rounds than there are skipped transactions. *)
Lemma includeSkipped_fuel fuel bl batched result c :
  size (above c) < fuel → is_Some (includeSkipped fuel bl skipped batched result c).
Proof.
  revert batched result c. induction fuel as [|fuel IH]; intros batched result c Hf; [lia|].
  simpl. case_decide as Hc; [|by eauto]. case_decide; [by eauto|].
  rewrite u64_succ_key by auto. apply IH. pose proof (above_succ c Hc). lia.
Qed.

Lemma includeSkipped_total bl batched result c :
  is_Some (includeSkipped (S (size skipped)) bl skipped batched result c).
Proof.
  apply includeSkipped_fuel. apply Nat.lt_succ_r, subseteq_size.
  intros k. unfold above. rewrite elem_of_filter. naive_solver.
Qed.

Context (commit : string → Z) (sent : gset orderedIndexKey).

(** What holds between two steps of the walk: the batched transactions are those
sent before and those of the result, in order. *)
Record walk_inv (batched : gset orderedIndexKey) (result : list orderedIndexKey) : Prop := {
  wi_batched k : k ∈ batched ↔ k ∈ result ∨ k ∈ sent;
  wi_order : sent_in_order commit sent result }.

(** A skipped transaction is in the batch exactly when its predecessor is; the
transaction [c] may be about to join it. *)
Definition skip_inv (batched : gset orderedIndexKey) (c : option orderedIndexKey) : Prop :=
  ∀ k, k ∈ skipped →
    oik_nonce k ≠ commit (oik_account k) ∧
    (c ≠ Some k → k ∈ batched ↔ (1 ≤ oik_nonce k)%Z ∧ pred_key k ∈ batched).

Lemma walk_inv_snoc batched result k :
  walk_inv batched result → k ∉ batched →
  (oik_nonce k = commit (oik_account k) ∨ (1 ≤ oik_nonce k)%Z ∧ pred_key k ∈ batched) →
  walk_inv ({[k]} ∪ batched) (result ++ [k]).
Proof.
  intros [Hb Ho] Hk Hor. rewrite Hb in Hk. split.
  - intros k'. rewrite elem_of_union, elem_of_singleton, elem_of_app, list_elem_of_singleton, Hb.
    naive_solver.
  - constructor; [done|naive_solver|naive_solver|]. rewrite Hb in Hor. naive_solver.
Qed.

(** After [c] has joined the batch, the only skipped transaction that may be about to
join is the successor of [c]. *)
Lemma skip_inv_step batched c :
  skip_inv batched (Some c) → c ∉ batched →
  ((1 ≤ oik_nonce c)%Z ∧ pred_key c ∈ batched ∨ c ∉ skipped) →
  skip_inv ({[c]} ∪ batched) (Some (succ_key c)) ∧
  (succ_key c ∈ skipped → succ_key c ∉ {[c]} ∪ batched).
Proof.
  intros Hs Hc Hpred. assert (c ≠ succ_key c) as Hne.
  { destruct c. unfold succ_key. simpl. intros [= ?]. lia. }
  split.
  - intros k Hk. destruct (Hs k Hk) as [Hcommit Hiff]. split; [done|]. intros Hns.
    rewrite !elem_of_union, !elem_of_singleton.
    destruct (decide (k = c)) as [->|Hkc].
    + destruct Hpred as [[??]|?]; [|done]. split; [auto|]. intros [? _]. by left.
    + rewrite (Hiff ltac:(congruence)).
      assert (pred_key k ≠ c); [|naive_solver].
      intros <-. apply Hns. by rewrite succ_pred_key.
  - intros Hk. destruct (Hs _ Hk) as [_ Hiff]. rewrite elem_of_union, elem_of_singleton.
    intros [?|Hin]; [congruence|]. apply Hiff in Hin; [|congruence].
    rewrite pred_succ_key in Hin. by destruct Hin.
Qed.

Lemma includeSkipped_spec fuel bl batched result c batched' result' continue :
  walk_inv batched result → skip_inv batched (Some c) →
  (1 ≤ oik_nonce c)%Z → pred_key c ∈ batched → (c ∈ skipped → c ∉ batched) →
  includeSkipped fuel bl skipped batched result c = Some (batched', result', continue) →
  walk_inv batched' result' ∧
  (continue = true → skip_inv batched' None) ∧
  (continue = false → Z.of_nat (length result') = bl) ∧
  (∀ k, k ∈ result' → k ∈ result ∨ k ∈ skipped) ∧ batched ⊆ batched' ∧
  (Z.of_nat (length result) < bl → Z.of_nat (length result') ≤ bl ∧
     (continue = true → Z.of_nat (length result') < bl))%Z.
Proof.
  revert batched result c. induction fuel as [|fuel IH]; intros batched result c Hw Hs Hc1 Hp Hc; [done|].
  simpl. case_decide as Hin.
  - pose proof (walk_inv_snoc _ _ c Hw (Hc Hin) (or_intror (conj Hc1 Hp))) as Hw'.
    destruct (skip_inv_step _ _ Hs (Hc Hin) (or_introl (conj Hc1 Hp))) as [Hs' Hc'].
    case_decide as Hlen.
    + intros [= <- <- <-]. rewrite length_app in Hlen |- *. simpl in *.
      split_and!; [done|done|done| |apply union_subseteq_r|by intros; split; [lia|]].
      intros k. rewrite elem_of_app, list_elem_of_singleton. intros [?| ->]; auto.
    + rewrite u64_succ_key by auto. intros Heq.
      destruct (IH _ _ _ Hw' Hs' ltac:(simpl; lia) ltac:(rewrite pred_succ_key; apply elem_of_union_l, elem_of_singleton; done) Hc' Heq)
        as (? & ? & ? & Hsub & ? & Hl).
      split_and!; [done|done|done| |etrans; [apply union_subseteq_r|done]|].
      * intros k [Hk|?]%Hsub; [|by right].
        rewrite elem_of_app, list_elem_of_singleton in Hk. destruct Hk as [?| ->]; auto.
      * intros Hlt. apply Hl. rewrite length_app in *. simpl in *. lia.
  - intros [= <- <- <-]. split_and!; [done| |done|by left|done|intros; split; [lia|done]].
    intros _ k Hk. destruct (Hs k Hk) as [? Hiff]. split; [done|]. intros _. apply Hiff. congruence.
Qed.
End skipped.

(** ** The walk over the priority index *)

Section walk.
Context `{BTreeLib, GoRange} (g : string → Z).
Context (bl : Z) (sent : gset orderedIndexKey) (nc0 : nonceCache).
Implicit Types (st : batching) (k : orderedTimeoutKey) (keys : list orderedTimeoutKey).

Notation commit := (commitNonce g nc0).

(** What holds of the state of the walk whether or not it goes on, once it has
visited the keys of a list. *)
Record batch_sound keys st : Prop := {
  bs_walk : walk_inv commit sent (b_batched st) (b_result st);
  bs_keys p : p ∈ b_result st → p ∈ otk_key <$> keys;
  bs_nonces : nc_equiv g (b_nonceCache st) nc0;
  bs_length : (0 < bl)%Z → (Z.of_nat (length (b_result st)) ≤ bl)%Z }.

(** What holds in addition as long as it goes on: every visited key is in the batch
or was skipped, and a skipped one waits for its predecessor. *)
Record batch_inv keys st : Prop := {
  bi_sound : batch_sound keys st;
  bi_skip : skip_inv (b_skipped st) commit (b_batched st) None;
  bi_skipped p : p ∈ b_skipped st → nonce_ok p ∧ p ∈ otk_key <$> keys;
  bi_visited p : p ∈ otk_key <$> keys → p ∈ b_batched st ∨ p ∈ b_skipped st;
  bi_room : (0 < bl)%Z → (Z.of_nat (length (b_result st)) < bl)%Z }.

Lemma batch_inv_init st :
  b_batched st = sent → b_skipped st = ∅ → b_result st = [] → b_nonceCache st = nc0 →
  batch_inv [] st.
Proof.
  intros Hb Hs Hr Hn. split; [|rewrite ?Hs, ?Hb; try set_solver..|by rewrite Hr].
  split; rewrite ?Hr, ?Hb, ?Hn; [|set_solver|done|simpl; lia].
  split; [set_solver|constructor].
Qed.

Lemma elem_of_keys_snoc keys k p :
  p ∈ otk_key <$> keys ++ [k] ↔ p = otk_key k ∨ p ∈ otk_key <$> keys.
Proof. rewrite fmap_app, elem_of_app. simpl. rewrite list_elem_of_singleton. naive_solver. Qed.

Lemma batch_sound_mono keys keys' st :
  (∀ p, p ∈ otk_key <$> keys → p ∈ otk_key <$> keys') → batch_sound keys st → batch_sound keys' st.
Proof. intros Hsub [???]. split; auto. Qed.

(** The condition under which the walk sends a transaction at once. *)
Definition sendable (batched : gset orderedIndexKey) (p : orderedIndexKey) : Prop :=
  oik_nonce p = commit (oik_account p) ∨ (1 ≤ oik_nonce p)%Z ∧ pred_key p ∈ batched.

Lemma sendable_iff keys st k :
  batch_inv keys st →
  (bool_decide (1 ≤ otk_nonce k)%Z &&
   bool_decide (OrderedIndexKey (otk_account k) (otk_nonce k - 1) ∈ b_batched st)
   || bool_decide (otk_nonce k = (getCommitNonce g (b_nonceCache st) (otk_account k)).1)) = true ↔
  sendable (b_batched st) (otk_key k).
Proof.
  intros Hinv. destruct (getCommitNonce_spec g (b_nonceCache st) (otk_account k)) as [-> _].
  destruct (bs_nonces _ _ (bi_sound _ _ Hinv)) as [-> _].
  rewrite orb_true_iff, andb_true_iff, !bool_decide_eq_true.
  unfold sendable, pred_key, otk_key. simpl. naive_solver.
Qed.

(** A skipped transaction that is not in the batch cannot be sent at once. *)
Lemma skip_inv_not_sendable skipped batched p :
  skip_inv skipped commit batched None → p ∈ skipped → p ∉ batched → ¬ sendable batched p.
Proof. intros Hs Hp Hb [?|?]; destruct (Hs p Hp) as [? Hiff]; naive_solver. Qed.

(** The transaction of [k] has been sent. *)
Lemma batch_send keys st k nc :
  batch_inv keys st → nc_equiv g nc nc0 → nonce_ok (otk_key k) →
  otk_key k ∉ b_batched st → sendable (b_batched st) (otk_key k) →
  let batched := {[otk_key k]} ∪ b_batched st in
  let result := b_result st ++ [otk_key k] in
  batch_sound (keys ++ [k]) (Batching batched (b_skipped st) result nc) ∧
  skip_inv (b_skipped st) commit batched (Some (succ_key (otk_key k))) ∧
  (succ_key (otk_key k) ∈ b_skipped st → succ_key (otk_key k) ∉ batched).
Proof.
  intros [[Hw Hk _ Hlen] Hskip Hsk Hvis Hroom] Hnc Hok Hnin Hsend batched result.
  assert (otk_key k ∉ b_skipped st) as Hns.
  { intros Hin. by eapply skip_inv_not_sendable. }
  split; [split|].
  - by apply walk_inv_snoc.
  - intros p. simpl. unfold result.
    rewrite elem_of_keys_snoc, elem_of_app, list_elem_of_singleton. naive_solver.
  - done.
  - intros Hbl. simpl. unfold result. rewrite length_app. simpl. specialize (Hroom Hbl). lia.
  - apply skip_inv_step; [|done|by right].
    intros p Hp. destruct (Hskip p Hp). split; [done|]. naive_solver.
Qed.

Definition step_ok keys k (r : option batching * bool) : Prop :=
  ∃ st', r.1 = Some st' ∧ batch_sound (keys ++ [k]) st' ∧
    (r.2 = true → batch_inv (keys ++ [k]) st') ∧
    (r.2 = false → Z.of_nat (length (b_result st')) = bl).

Lemma batch_sent_step keys st k nc :
  batch_inv keys st → nc_equiv g nc nc0 → nonce_ok (otk_key k) →
  otk_key k ∉ b_batched st → sendable (b_batched st) (otk_key k) →
  let batched := {[otk_key k]} ∪ b_batched st in
  let result := b_result st ++ [otk_key k] in
  Z.of_nat (length result) ≠ bl →
  step_ok keys k
    match includeSkipped (S (size (b_skipped st))) bl (b_skipped st) batched result
            (succ_key (otk_key k)) with
    | None => (None, false)
    | Some (batched, result, continue) =>
        (Some (Batching batched (b_skipped st) result nc), continue)
    end.
Proof.
  intros Hinv Hnc Hok Hnin Hsend batched result Hlen.
  destruct (batch_send keys st k nc Hinv Hnc Hok Hnin Hsend) as ([Hw Hk _ Hl] & Hs & Hc).
  simpl in Hw, Hk, Hl, Hs, Hc.
  destruct Hinv as [_ _ Hsk Hvis _].
  assert (∀ p, p ∈ b_skipped st → nonce_ok p) as Hskok by (intros p Hp; by apply Hsk).
  destruct (includeSkipped_total (b_skipped st) Hskok bl batched result (succ_key (otk_key k)))
    as [[[batched' result'] cont] Heq]. rewrite Heq.
  destruct (includeSkipped_spec _ Hskok commit sent _ bl _ _ _ _ _ _ Hw Hs
              ltac:(unfold nonce_ok in *; simpl in *; lia)
              ltac:(rewrite pred_succ_key; apply elem_of_union_l, elem_of_singleton; done) Hc Heq)
    as (Hw' & Hs' & Hfull & Hsub & Hmono & Hlen').
  assert ((0 < bl)%Z → (Z.of_nat (length result) < bl)%Z) as Hlt.
  { intros Hbl. specialize (Hl Hbl). unfold result in *. lia. }
  assert (batch_sound (keys ++ [k]) (Batching batched' (b_skipped st) result' nc)) as Hsound.
  { split; simpl; [done| |done|naive_solver].
    intros p [?|Hp]%Hsub; [by apply Hk|]. apply elem_of_keys_snoc. right. by apply Hsk. }
  eexists. split; [done|]. split; [done|]. split; [|by apply Hfull]. simpl. intros ->.
  split; simpl; [done|by apply Hs'| |..].
  - intros p Hp. split; [by apply Hsk|]. apply elem_of_keys_snoc. right. by apply Hsk.
  - intros p. rewrite elem_of_keys_snoc. intros [->|Hp].
    + left. apply Hmono, elem_of_union_l. by apply elem_of_singleton.
    + destruct (Hvis p Hp); [|by right]. left. by apply Hmono, elem_of_union_r.
  - intros Hbl. by apply Hlen'; [apply Hlt|].
Qed.

Lemma batchCallback_step keys st k :
  batch_inv keys st → nonce_ok (otk_key k) → step_ok keys k (batchCallback g bl k (Some st)).
Proof.
  intros Hinv Hok. unfold batchCallback. fold (otk_key k).
  pose proof (sendable_iff keys st k Hinv) as Hsend.
  destruct (getCommitNonce_spec g (b_nonceCache st) (otk_account k)) as [_ Hnc].
  pose proof (transitivity Hnc (bs_nonces _ _ (bi_sound _ _ Hinv))) as Hnc'. clear Hnc.
  destruct (getCommitNonce g (b_nonceCache st) (otk_account k)) as [cn nc]. simpl in Hsend, Hnc'.
  destruct (decide (otk_key k ∈ b_batched st)) as [Hin|Hin].
  { exists st. split; [done|]. pose proof Hinv as [Hsound Hs Hsk Hvis Hroom].
    assert (batch_sound (keys ++ [k]) st) as Hsound'.
    { eapply batch_sound_mono; [|done]. intros p. rewrite elem_of_keys_snoc. auto. }
    split; [done|]. split; [|done]. intros _. split; [done|done| | |done].
    - intros p Hp. rewrite elem_of_keys_snoc. split; [|right]; by apply Hsk.
    - intros p. rewrite elem_of_keys_snoc. naive_solver. }
  destruct (_ || _) eqn:E.
  - pose proof (proj1 Hsend eq_refl) as Hsd.
    destruct (decide (Z.of_nat (length (b_result st ++ [otk_key k])) = bl)) as [Hlen|Hlen].
    + eexists. split; [done|]. split; [by apply batch_send|]. by split.
    + pose proof (u64_succ_key (otk_key k) Hok) as Hu. simpl in Hu. rewrite Hu.
      by apply batch_sent_step.
  - assert (¬ sendable (b_batched st) (otk_key k)) as Hnot by (intros Hsd; by apply Hsend in Hsd).
    destruct Hinv as [[Hw Hk Hn Hl] Hs Hsk Hvis Hroom].
    assert (batch_sound (keys ++ [k])
      (Batching (b_batched st) ({[otk_key k]} ∪ b_skipped st) (b_result st) nc)) as Hsound.
    { split; simpl; [done| |done|done]. intros p Hp. apply elem_of_keys_snoc. auto. }
    eexists. split; [done|]. split; [done|]. split; [|done]. intros _. split; simpl; [done| |..|done].
    + intros p. rewrite elem_of_union, elem_of_singleton. intros [->|Hp]; [|by apply Hs].
      unfold sendable in Hnot. split; [naive_solver|]. intros _. naive_solver.
    + intros p. rewrite elem_of_union, elem_of_singleton, elem_of_keys_snoc. intros [->|Hp]; [auto|].
      split; [|right]; by apply Hsk.
    + intros p. rewrite elem_of_keys_snoc, elem_of_union, elem_of_singleton.
      intros [->|Hp]; [auto|]. destruct (Hvis p Hp); auto.
Qed.

(** The whole walk: it does not panic, and unless the block is full it has visited
every key. *)
Lemma ascend_batch l keys st :
  batch_inv keys st → (∀ k, k ∈ l → nonce_ok (otk_key k)) →
  ∃ st', ascend (batchCallback g bl) l (Some st) = Some st' ∧ batch_sound (keys ++ l) st' ∧
    (batch_inv (keys ++ l) st' ∨ Z.of_nat (length (b_result st')) = bl).
Proof.
  revert keys st. induction l as [|k l IH]; intros keys st Hinv Hok; cbn [ascend].
  { exists st. rewrite app_nil_r. split; [done|]. split; [apply Hinv|by left]. }
  destruct (batchCallback_step keys st k Hinv) as (st' & Hst & Hsound & Hgo & Hstop); [set_solver|].
  destruct (batchCallback g bl k (Some st)) as [r continue]. simpl in *. subst r.
  destruct continue.
  - destruct (IH (keys ++ [k]) st') as (st'' & Heq & Hs & Hr); [auto|set_solver|].
    rewrite <-app_assoc in Hs, Hr.
    exists st''. split_and!; [exact Heq|exact Hs|exact Hr].
  - exists st'. split; [done|]. split; [|auto]. eapply batch_sound_mono; [|done].
    intros p. rewrite elem_of_keys_snoc, fmap_app, elem_of_app. simpl. rewrite elem_of_cons. tauto.
Qed.
End walk.

(** ** [generateBlock] against its specification *)

Section generate.
Context `{BTreeLib, GoRange} (g : string → Z).
Implicit Types (mpi : mempoolImpl) (s : transactionStore).

Definition ready_keys s : list orderedIndexKey := otk_key <$> bt_Ascend (priorityIndex s).

(** What block generation relies on: the ready transactions are in the pool, with
nonces whose successor does not wrap. *)
Definition ready_ok s : Prop :=
  ∀ k, k ∈ ready_keys s →
    nonce_ok k ∧ ∃ tx, getTxByOrderKey s (oik_account k) (oik_nonce k) = Some tx ∧
                       tx_from tx = oik_account k ∧ tx_nonce tx = oik_nonce k.

Definition commit_view s : string → Z := commitNonce g (ts_nonceCache s).

(** The block holds the transactions of [keys], which are sent in order. *)
Record good_block mpi (keys : list orderedIndexKey) (batch : RequestBatch) : Prop := {
  gb_order : sent_in_order (commit_view (txStore mpi)) (batchedTxs (txStore mpi)) keys;
  gb_ready k : k ∈ keys → k ∈ ready_keys (txStore mpi);
  gb_txs : Forall2 (λ k otx, ∃ tx, otx = Some tx ∧
                      getTxByOrderKey (txStore mpi) (oik_account k) (oik_nonce k) = Some tx ∧
                      tx_from tx = oik_account k ∧ tx_nonce tx = oik_nonce k) keys (rb_TxList batch);
  gb_size : (0 < blockBatchSize mpi)%Z → (Z.of_nat (length keys) ≤ blockBatchSize mpi)%Z;
  gb_height : rb_Height batch = batchSeqNo mpi +u 1 }.

Lemma collectBatch_spec mpi :
  ready_ok (txStore mpi) →
  let sent := batchedTxs (txStore mpi) in
  let nc := ts_nonceCache (txStore mpi) in
  let keys := bt_Ascend (priorityIndex (txStore mpi)) in
  ∃ st, collectBatch g mpi = Some st ∧
    batch_sound g (blockBatchSize mpi) sent nc keys st ∧
    (batch_inv g (blockBatchSize mpi) sent nc keys st ∨
     Z.of_nat (length (b_result st)) = blockBatchSize mpi).
Proof.
  intros Hready sent nc keys. unfold collectBatch.
  apply (ascend_batch g (blockBatchSize mpi) sent nc keys []).
  - by apply batch_inv_init.
  - intros k Hk. apply Hready. unfold ready_keys. by apply list_elem_of_fmap_2.
Qed.

(** The store after the walk: only the batched set and the cache of nonces differ. *)
Definition after_walk s (st : batching) : transactionStore :=
  with_nonceCache (with_batchedTxs s (b_batched st)) (b_nonceCache st).

Lemma getTx_after_walk s st a n :
  getTxByOrderKey (after_walk s st) a n = getTxByOrderKey s a n.
Proof. done. Qed.

(** A block that is not full leaves nothing behind that could be sent: a ready
transaction outside the batched set is not the next one of its account and its
predecessor is not in the batched set either. *)
Lemma generateBlock_complete mpi now mpi' batch k :
  ready_ok (txStore mpi) → generateBlock g mpi now = Some (mpi', Some batch) →
  Z.of_nat (length (rb_TxList batch)) ≠ blockBatchSize mpi →
  k ∈ ready_keys (txStore mpi) → k ∉ batchedTxs (txStore mpi') →
  oik_nonce k ≠ commit_view (txStore mpi) (oik_account k) ∧
  ((1 ≤ oik_nonce k)%Z → pred_key k ∉ batchedTxs (txStore mpi')).
Proof.
  intros Hready. destruct (collectBatch_spec mpi Hready) as (st & Hst & _ & Hend).
  unfold generateBlock. rewrite Hst. simpl. destruct (negb _ && _ && _); [done|].
  intros [= <- <-]. simpl. rewrite length_fmap. intros Hlen Hk.
  destruct Hend as [[_ Hs _ Hvis _]|?]; [|done].
  set (s' := if decide (_ ≤ _)%Z then _ else _).
  assert (batchedTxs s' = b_batched st) as -> by (unfold s'; by destruct (decide _)).
  intros Hnb. destruct (Hvis k Hk) as [?|Hsk]; [done|].
  pose proof (skip_inv_not_sendable g _ _ _ k Hs Hsk Hnb) as Hns.
  split; intros ?; [apply Hns; by left|]. intros ?. apply Hns. by right.
Qed.
End generate.
