(* ===== verification/MempoolProps.v ===== *)
(** * Invariant of the mempool

[store_inv] relates the indexes of the transaction store to the pool of
transactions: every index entry belongs to a pooled transaction, the transactions
between the commit nonce and the pending nonce of an account are all ready, and
the pending nonce is the first gap. The file proves that admission, insertion,
block generation and commit preserve it, that none of them panics, and what each
of them does to the pool. *)
From S2P Require Import Prelude Btree TxStore TxStoreProps Mempool BatchProps.

Section invariant.
Context `{BTreeLib, GoRange} (g : string → Z).
Implicit Types (s : transactionStore) (pend : gmap string Z) (dirty : string → Prop).

(** The pool: the transaction of an account with a nonce. *)
Notation pool := getTxByOrderKey.

(** The pending nonces of [pend], the commit nonce where there is none. *)
Definition pend_view pend s (a : string) : Z := default (commit_view g s a) (pend !! a).

(** [pend] are the pending nonces; for the accounts in [dirty] transactions have been
inserted and the pending nonce has not been moved yet. *)
Record store_inv pend dirty s : Prop := {
  si_sorted a m : allTxs s !! a = Some m → sorted_map_ok a m;
  si_ttl : time_map_ok (ttlIndex s);
  si_arrived : time_map_ok (removeTimeoutIndex s);
  si_ttl_pool a n : (0 ≤ n)%Z → is_Some (tm_lookup (ttlIndex s) a n) → is_Some (pool s a n);
  si_arrived_pool a n :
    (0 ≤ n)%Z → is_Some (tm_lookup (removeTimeoutIndex s) a n) ↔ is_Some (pool s a n);
  si_priority k : k ∈ bt_Ascend (priorityIndex s) →
    ∃ tx p, pool s (otk_account k) (otk_nonce k) = Some tx ∧ tx_timestamp tx = otk_timestamp k ∧
            pend !! otk_account k = Some p ∧ (otk_nonce k < p)%Z;
  si_parking k : k ∈ bt_Ascend (parkingLotIndex s) → is_Some (pool s (oik_account k) (oik_nonce k));
  si_run a n : (commit_view g s a ≤ n < pend_view pend s a)%Z → OrderedIndexKey a n ∈ ready_keys s;
  si_gap a : ¬ dirty a → pool s a (pend_view pend s a) = None;
  si_known a : is_Some (allTxs s !! a) → ¬ dirty a → is_Some (pend !! a);
  si_hash h k : txHashMap s !! h = Some k → is_Some (allTxs s !! oik_account k) ∧ nonce_ok k;
  si_commit a : (0 ≤ commit_view g s a)%Z;
  si_pend a p : pend !! a = Some p → (0 ≤ p)%Z }.

Lemma pool_item s pend dirty a n tx :
  store_inv pend dirty s → pool s a n = Some tx →
  tx_from tx = a ∧ tx_nonce tx = n ∧ (0 ≤ n < MaxUint64)%Z.
Proof.
  intros Hinv. unfold getTxByOrderKey.
  destruct (allTxs s !! a) as [m|] eqn:Hm; [|done]. simpl.
  destruct (items m !! n) as [it|] eqn:Hit; [|done]. simpl. intros [= <-].
  apply (si_sorted _ _ _ Hinv) in Hm. by destruct (smo_item _ _ Hm _ _ Hit) as (_ & ? & ? & ?).
Qed.

Lemma pend_view_nonneg pend dirty s a : store_inv pend dirty s → (0 ≤ pend_view pend s a)%Z.
Proof.
  intros Hinv. unfold pend_view. destruct (pend !! a) eqn:E; simpl.
  - by eapply si_pend.
  - by eapply si_commit.
Qed.

(** The invariant is what block generation relies on. *)
Lemma store_inv_ready_ok pend dirty s : store_inv pend dirty s → ready_ok s.
Proof.
  intros Hinv k (k' & -> & Hk)%list_elem_of_fmap.
  destruct (si_priority _ _ _ Hinv k' Hk) as (tx & p & Htx & _).
  destruct (pool_item _ _ _ _ _ _ Hinv Htx) as (? & ? & ?). split; [done|]. simpl. eauto.
Qed.

Lemma store_inv_dirty pend (dirty dirty' : string → Prop) s :
  (∀ a, dirty a → dirty' a) → store_inv pend dirty s → store_inv pend dirty' s.
Proof. intros Hsub []. split; try done; naive_solver. Qed.

(** Two stores that differ at most in the batched set, the counters, the recorded
pending nonces and the commit nonces already read. *)
Record same_pool s s' : Prop := {
  sp_allTxs : allTxs s' = allTxs s;
  sp_hashes : txHashMap s' = txHashMap s;
  sp_commit a : commit_view g s' a = commit_view g s a;
  sp_ttl : ttlIndex s' = ttlIndex s;
  sp_arrived : removeTimeoutIndex s' = removeTimeoutIndex s;
  sp_priority : priorityIndex s' = priorityIndex s;
  sp_parking : parkingLotIndex s' = parkingLotIndex s }.

Lemma same_pool_pool s s' a n : same_pool s s' → pool s' a n = pool s a n.
Proof. intros Hs. unfold getTxByOrderKey. by rewrite (sp_allTxs _ _ Hs). Qed.

Lemma same_pool_inv pend dirty s s' : same_pool s s' → store_inv pend dirty s → store_inv pend dirty s'.
Proof.
  intros Hs Hinv. pose proof Hs as [Ha Hh _ Ht Hr Hp Hk].
  split; unfold ready_keys, pend_view; rewrite ?Ha, ?Hh, ?Ht, ?Hr, ?Hp, ?Hk;
    try (by apply Hinv); intros *; rewrite ?(sp_commit _ _ Hs), ?(same_pool_pool _ _ _ _ Hs).
  all: first [by apply (si_ttl_pool _ _ _ Hinv) | by apply (si_arrived_pool _ _ _ Hinv)
             | by apply (si_priority _ _ _ Hinv) | by apply (si_parking _ _ _ Hinv)
             | by apply (si_run _ _ _ Hinv) | by apply (si_gap _ _ _ Hinv)
             | by apply (si_commit _ _ _ Hinv)].
Qed.

(** ** Insertion *)

(** The sorted map of the account after the insertion. *)
Definition insert_sorted a s (tx : Tx) (isLocal : bool) : txSortedMap :=
  let m := default newTxSortedMap (allTxs s !! a) in
  TxSortedMap _ (<[tx_nonce tx := TxItem a tx isLocal]> (items m)) (insertBySortedNonceKey (index m) tx).

Lemma insertTx_allTxs isLocal now a s tx :
  allTxs (insertTx isLocal now a s tx) = <[a := insert_sorted a s tx isLocal]> (allTxs s).
Proof. by destruct isLocal. Qed.

Lemma insert_sorted_ok a s tx isLocal :
  (∀ m, allTxs s !! a = Some m → sorted_map_ok a m) →
  tx_from tx = a → (0 ≤ tx_nonce tx < MaxUint64)%Z → sorted_map_ok a (insert_sorted a s tx isLocal).
Proof.
  intros Hok Hfrom Hn. assert (sorted_map_ok a (default newTxSortedMap (allTxs s !! a))) as [Hidx Hit].
  { destruct (allTxs s !! a); [by apply Hok|]. apply newTxSortedMap_ok. }
  split; unfold insert_sorted; simpl.
  - intros n. unfold insertBySortedNonceKey. rewrite bt_elem_ReplaceOrInsert, Hidx.
    rewrite lookup_insert_is_Some'. unfold makeSortedNonceKey. naive_solver.
  - intros n it. rewrite lookup_insert_Some. intros [[<- <-]|[_ ?]]; [done|by apply Hit].
Qed.

Lemma pool_insertTx isLocal now a s tx b n :
  pool (insertTx isLocal now a s tx) b n =
    if decide (b = a ∧ n = tx_nonce tx) then Some tx else pool s b n.
Proof.
  unfold getTxByOrderKey. rewrite insertTx_allTxs. destruct (decide (b = a)) as [->|Hb].
  - rewrite lookup_insert_eq. simpl. destruct (decide (n = tx_nonce tx)) as [->|Hn].
    + rewrite lookup_insert_eq, decide_True by done. done.
    + rewrite lookup_insert_ne, decide_False by naive_solver.
      destruct (allTxs s !! a); [done|]. simpl. by rewrite lookup_empty.
  - by rewrite lookup_insert_ne, decide_False by naive_solver.
Qed.

Lemma pool_insertTx_Some isLocal now a s tx b n :
  is_Some (pool s b n) → is_Some (pool (insertTx isLocal now a s tx) b n).
Proof. rewrite pool_insertTx. by case_decide. Qed.

Lemma insertTx_inv pend dirty isLocal now a s tx :
  store_inv pend dirty s → dirty a → tx_from tx = a →
  (pend_view pend s a ≤ tx_nonce tx < MaxUint64)%Z →
  store_inv pend dirty (insertTx isLocal now a s tx).
Proof.
  intros Hinv Hd Hfrom Hn. pose proof (pend_view_nonneg pend dirty s a Hinv).
  assert (0 ≤ tx_nonce tx)%Z as Hpos by lia.
  split.
  - intros b m. rewrite insertTx_allTxs, lookup_insert_Some. intros [[<- <-]|[_ Hm]].
    + apply insert_sorted_ok; [|done|lia]. intros m. by apply Hinv.
    + by eapply si_sorted.
  - destruct isLocal; simpl; [apply insertOrUpdateByTtlKey_ok; [|done]|]; apply Hinv.
  - destruct isLocal; simpl; apply insertOrUpdateByTtlKey_ok; try done; apply Hinv.
  - intros b n Hb Hl. destruct (decide (b = a ∧ n = tx_nonce tx)) as [Hk|Hk].
    { rewrite pool_insertTx, decide_True by done. eauto. }
    apply pool_insertTx_Some, (si_ttl_pool _ _ _ Hinv); [done|].
    destruct isLocal; simpl in Hl; [|done].
    rewrite tm_lookup_insertOrUpdate, decide_False in Hl; naive_solver.
  - intros b n Hb. transitivity (is_Some (if decide (a = b ∧ tx_nonce tx = n) then Some now
                                          else tm_lookup (removeTimeoutIndex s) b n)).
    { destruct isLocal; simpl; unfold tam_insertOrUpdateByTtlKey;
        by rewrite tm_lookup_insertOrUpdate by done. }
    rewrite pool_insertTx. destruct (decide (b = a ∧ n = tx_nonce tx)) as [[-> ->]|Hk].
    + rewrite decide_True by done. naive_solver.
    + rewrite decide_False by naive_solver. by apply (si_arrived_pool _ _ _ Hinv).
  - intros k Hk. assert (k ∈ bt_Ascend (priorityIndex s)) as Hk' by (by destruct isLocal).
    destruct (si_priority _ _ _ Hinv k Hk') as (tx' & p & ? & ? & Hp & ?). exists tx', p.
    rewrite pool_insertTx, decide_False; [done|]. intros [Ha Hnn].
    unfold pend_view in Hn. rewrite <-Ha, Hp in Hn. simpl in Hn. lia.
  - intros k Hk. apply pool_insertTx_Some. apply (si_parking _ _ _ Hinv). by destruct isLocal.
  - intros b n Hb. assert (OrderedIndexKey b n ∈ ready_keys s); [|by destruct isLocal].
    apply (si_run _ _ _ Hinv). by destruct isLocal.
  - intros b Hb. rewrite pool_insertTx, decide_False by naive_solver.
    transitivity (pool s b (pend_view pend s b)); [by destruct isLocal|]. by apply Hinv.
  - intros b. rewrite insertTx_allTxs, lookup_insert_is_Some'. intros [<-|Hb] ?; [done|].
    by apply (si_known _ _ _ Hinv).
  - intros h k. rewrite insertTx_allTxs, lookup_insert_is_Some'.
    assert (txHashMap (insertTx isLocal now a s tx) =
      <[tx_hash tx := OrderedIndexKey a (tx_nonce tx)]> (txHashMap s)) as -> by (by destruct isLocal).
    rewrite lookup_insert_Some. intros [[_ <-]|[_ Hh]]; [|by destruct (si_hash _ _ _ Hinv h k Hh); auto].
    split; [by left|]. unfold nonce_ok. simpl. lia.
  - intros b. transitivity (commit_view g s b); [by apply Hinv|by destruct isLocal].
  - apply Hinv.
Qed.

(** The nested loop of [insertTxs], as one loop over the pairs it visits. *)
Definition insertPairs isLocal now (l : list (string * Tx)) s : transactionStore :=
  fold_left (λ s '(a, tx), insertTx isLocal now a s tx) l s.

Lemma insertTxs_pairs s txs isLocal now :
  insertTxs s txs isLocal now =
    (insertPairs isLocal now (range_txs txs) s,
     fold_left (λ d '(a, _), <[a := true]> d) (go_range txs) (∅ : gmap string bool)).
Proof.
  unfold insertTxs, range_txs. generalize (∅ : gmap string bool) as d. revert s.
  induction (go_range txs) as [|[a l] r IH]; intros s d; simpl; [done|].
  rewrite IH. f_equal. unfold insertPairs. rewrite fold_left_app. f_equal.
  clear. revert s. induction l as [|tx l IHl]; intros s; simpl; [done|]. by rewrite IHl.
Qed.

(** The dirty accounts are those that transactions were inserted for. *)
Lemma insertTxs_dirty s txs isLocal now a :
  is_Some ((insertTxs s txs isLocal now).2 !! a) ↔ is_Some (txs !! a).
Proof.
  rewrite insertTxs_pairs. simpl.
  assert (∀ (r : list (string * list Tx)) (d : gmap string bool), is_Some (fold_left (λ d '(a, _), <[a := true]> d) r d !! a) ↔
    a ∈ r.*1 ∨ is_Some (d !! a)) as Hr.
  { clear. intros r. induction r as [|[b l] r IH]; intros d; simpl; [set_solver|].
    rewrite IH, lookup_insert_is_Some', elem_of_cons. naive_solver. }
  rewrite (Hr (go_range txs)), lookup_empty, <-(elem_of_go_keys txs). unfold go_keys.
  split; [|by left]. intros [?|[? ?]]; done.
Qed.

Lemma insertPairs_inv pend dirty isLocal now l s :
  store_inv pend dirty s →
  (∀ a tx, (a, tx) ∈ l → dirty a ∧ tx_from tx = a ∧
     pend_view pend s a ≤ tx_nonce tx < MaxUint64)%Z →
  store_inv pend dirty (insertPairs isLocal now l s) ∧
  ts_nonceCache (insertPairs isLocal now l s) = ts_nonceCache s.
Proof.
  revert s. induction l as [|[a tx] l IH]; intros s Hinv Hl; simpl; [done|].
  destruct (Hl a tx) as (Hd & Hf & Hn); [by left|].
  assert (ts_nonceCache (insertTx isLocal now a s tx) = ts_nonceCache s) as Hnc by (by destruct isLocal).
  destruct (IH (insertTx isLocal now a s tx)) as [Hi Hc].
  - by apply insertTx_inv.
  - intros b tx' Hb. unfold pend_view, commit_view. rewrite Hnc. apply Hl. by right.
  - split; [done|]. by rewrite Hc.
Qed.

(** The pool after the insertion of transactions with distinct keys. *)
Lemma insertPairs_pool isLocal now l s a n :
  (∀ b tx, (b, tx) ∈ l → tx_from tx = b) → NoDup ((λ p, (p.1, tx_nonce p.2)) <$> l) →
  (∀ tx, (a, tx) ∈ l → tx_nonce tx = n → pool (insertPairs isLocal now l s) a n = Some tx) ∧
  ((∀ tx, (a, tx) ∈ l → tx_nonce tx ≠ n) → pool (insertPairs isLocal now l s) a n = pool s a n).
Proof.
  revert s. induction l as [|[b tx0] l IH]; intros s Hf Hnd; simpl; [set_solver|].
  apply NoDup_cons in Hnd as [Hni Hnd]. simpl in Hni.
  destruct (IH (insertTx isLocal now b s tx0)) as [IH1 IH2]; [set_solver|done|]. split.
  - intros tx [Heq|Hin]%elem_of_cons Hn; [|by apply IH1]. simplify_eq.
    rewrite IH2; [by rewrite pool_insertTx, decide_True|].
    intros tx' Hin' Hn'. apply Hni. apply list_elem_of_fmap. exists (b, tx'). split; [simpl; congruence|done].
  - intros Hno. rewrite IH2; [|set_solver]. rewrite pool_insertTx, decide_False; [done|].
    intros [-> ->]. by apply (Hno tx0); [left|].
Qed.

(** ** Admission *)

Definition tx_key (tx : Tx) : string * Z := (tx_from tx, tx_nonce tx).

(** The specification of admission: the [i]-th transaction of the request is admitted
when its nonce is not below the pending one, its hash is not in the pool and no
earlier one of the request has its account and nonce. *)
Definition admissible s (tx : Tx) : Prop :=
  (pendingNonce g (ts_nonceCache s) (tx_from tx) ≤ tx_nonce tx)%Z ∧ txHashMap s !! tx_hash tx = None.

Definition admitted s (txs : list Tx) (tx : Tx) : Prop :=
  ∃ i, txs !! i = Some tx ∧ admissible s tx ∧
       ∀ j tx', j < i → txs !! j = Some tx' → tx_key tx' ≠ tx_key tx.

Record admission_ok s (txs : list Tx) (st : admission) : Prop := {
  ao_nonces : nc_equiv g (adm_nonceCache st) (ts_nonceCache s);
  ao_ptrs p : is_Some (txnPointersM st !! p) ↔
    ∃ tx, tx ∈ txs ∧ tx_key tx = p ∧ (pendingNonce g (ts_nonceCache s) (tx_from tx) ≤ tx_nonce tx)%Z;
  ao_list tx : tx ∈ validTxList st ↔ admitted s txs tx;
  ao_map a tx : (∃ l, validTxs st !! a = Some l ∧ tx ∈ l) ↔ tx_from tx = a ∧ tx ∈ validTxList st;
  ao_NoDup a l : validTxs st !! a = Some l → l ≠ [] ∧ NoDup (tx_nonce <$> l) }.

Lemma admitted_snoc s txs tx0 tx :
  admitted s (txs ++ [tx0]) tx ↔
    admitted s txs tx ∨
    tx = tx0 ∧ admissible s tx0 ∧ ∀ tx', tx' ∈ txs → tx_key tx' ≠ tx_key tx0.
Proof.
  split.
  - intros (i & Hi & Hadm & Hfirst). apply lookup_snoc_Some in Hi as [[Hlt Hi]|[-> ->]].
    + left. exists i. split_and!; [done|done|]. intros j tx' Hj Hj'. apply (Hfirst j); [done|].
      by apply lookup_app_l_Some.
    + right. split_and!; [done|done|]. intros tx' [j Hj]%list_elem_of_lookup.
      apply (Hfirst j); [by eapply lookup_lt_Some|]. by apply lookup_app_l_Some.
  - intros [(i & Hi & Hadm & Hfirst)|(-> & Hadm & Hfirst)].
    + exists i. split_and!; [by apply lookup_app_l_Some|done|]. intros j tx' Hj.
      rewrite lookup_app_l by (apply lookup_lt_Some in Hi; lia). by apply Hfirst.
    + exists (length txs). split_and!; [by apply list_lookup_middle|done|].
      intros j tx' Hj. rewrite lookup_app_l by done. intros. apply Hfirst. by eapply list_elem_of_lookup_2.
Qed.

Lemma admitted_elem s txs tx : admitted s txs tx → tx ∈ txs ∧ admissible s tx.
Proof. intros (i & Hi & ? & _). split; [by eapply list_elem_of_lookup_2|done]. Qed.

Lemma exists_snoc {A} (P : A → Prop) (l : list A) x :
  (∃ y, y ∈ l ++ [x] ∧ P y) ↔ (∃ y, y ∈ l ∧ P y) ∨ P x.
Proof.
  setoid_rewrite elem_of_app. setoid_rewrite list_elem_of_singleton. split.
  - intros (y & [?| ->] & ?); eauto.
  - intros [(y & ? & ?)|?]; eauto.
Qed.

(** A transaction that is not admitted leaves the admitted ones as they are. *)
Lemma admission_skip s txs st tx ptrs nc :
  admission_ok s txs st → nc_equiv g nc (ts_nonceCache s) →
  (∀ p, is_Some (ptrs !! p) ↔
     ∃ tx', tx' ∈ txs ++ [tx] ∧ tx_key tx' = p ∧
       (pendingNonce g (ts_nonceCache s) (tx_from tx') ≤ tx_nonce tx')%Z) →
  ¬ (admissible s tx ∧ ∀ tx', tx' ∈ txs → tx_key tx' ≠ tx_key tx) →
  admission_ok s (txs ++ [tx]) (Admission (validTxs st) (validTxList st) ptrs nc).
Proof.
  intros [_ _ Hlist Hmap Hnd] Hnc Hptr Hnot. split; simpl; [done|done| |done|done].
  intros tx'. rewrite Hlist, admitted_snoc. split; [by left|]. by intros [?|[-> ?]].
Qed.

(** One that is admitted joins the list of its account. *)
Lemma admission_add s txs st tx ptrs nc :
  admission_ok s txs st → nc_equiv g nc (ts_nonceCache s) →
  (∀ p, is_Some (ptrs !! p) ↔
     ∃ tx', tx' ∈ txs ++ [tx] ∧ tx_key tx' = p ∧
       (pendingNonce g (ts_nonceCache s) (tx_from tx') ≤ tx_nonce tx')%Z) →
  admissible s tx → (∀ tx', tx' ∈ txs → tx_key tx' ≠ tx_key tx) →
  admission_ok s (txs ++ [tx])
    (Admission (<[tx_from tx := default [] (validTxs st !! tx_from tx) ++ [tx]]> (validTxs st))
       (validTxList st ++ [tx]) ptrs nc).
Proof.
  intros [_ _ Hlist Hmap Hnd] Hnc Hptr Hadm Hno.
  assert (∀ tx', tx' ∈ default [] (validTxs st !! tx_from tx) →
    tx_from tx' = tx_from tx ∧ tx' ∈ validTxList st) as Hold.
  { intros tx'. destruct (validTxs st !! tx_from tx) as [l|] eqn:El; simpl; [|by intros ?%elem_of_nil].
    intros Hin. apply Hmap. eauto. }
  split; simpl; [done|done|..].
  - intros tx'. rewrite elem_of_app, list_elem_of_singleton, Hlist, admitted_snoc.
    split; intros [?|?]; [by left|right; by subst|by left|right; tauto].
  - intros a tx'. rewrite elem_of_app, list_elem_of_singleton. setoid_rewrite lookup_insert_Some.
    pose proof (Hmap a tx') as Hm. split.
    + intros (l & [[<- <-]|[Hne Hl]] & Hin); [|by destruct Hm as [[??] _]; eauto].
      rewrite elem_of_app, list_elem_of_singleton in Hin. destruct Hin as [[??]%Hold| ->]; auto.
    + intros [<- [Hin| ->]].
      * destruct Hm as [_ Hm]. destruct Hm as (l & Hl & Htx); [done|].
        destruct (decide (tx_from tx = tx_from tx')) as [E|E]; [|by eauto 6].
        eexists. split; [by left|]. rewrite E, Hl. simpl. apply elem_of_app. by left.
      * eexists. split; [by left|]. apply elem_of_app. right. by apply list_elem_of_singleton.
  - intros a l. rewrite lookup_insert_Some. intros [[<- <-]|[_ Hl]]; [|by eapply Hnd].
    split; [by intros [_ ?]%app_nil|].
    rewrite fmap_app. apply NoDup_app. split_and!; [..|apply NoDup_singleton].
    + destruct (validTxs st !! tx_from tx) as [l|] eqn:El; [by apply (Hnd _ _ El)|constructor].
    + intros n (tx' & -> & Hin)%list_elem_of_fmap Hn. simpl in Hn. apply list_elem_of_singleton in Hn.
      apply Hold in Hin as [Hf Hin]. apply Hlist, admitted_elem in Hin as [Hin _].
      apply (Hno tx' Hin). unfold tx_key. congruence.
Qed.

Lemma admitTx_ok s txs st tx :
  admission_ok s txs st → admission_ok s (txs ++ [tx]) (admitTx g (txHashMap s) st tx).
Proof.
  intros Hao. pose proof Hao as [Hnc Hptr _ _ _]. unfold admitTx.
  destruct (getPendingNonce_spec g (adm_nonceCache st) (tx_from tx)) as [Hv He].
  destruct (getPendingNonce g (adm_nonceCache st) (tx_from tx)) as [cur nc]. simpl in Hv, He.
  assert (nc_equiv g nc (ts_nonceCache s)) as Hnc' by (by transitivity (adm_nonceCache st)).
  assert (cur = pendingNonce g (ts_nonceCache s) (tx_from tx)) as -> by (by rewrite <-Hnc).
  simpl. destruct (decide (tx_nonce tx < _)%Z) as [Hlow|Hlow].
  { apply admission_skip; [done|done| |intros [[??] _]; lia].
    intros p. rewrite exists_snoc, Hptr. split; [by left|]. intros [?|[_ ?]]; [done|lia]. }
  fold (tx_key tx). destruct (txnPointersM st !! tx_key tx) as [h|] eqn:Ep.
  - pose proof (proj1 (Hptr (tx_key tx)) ltac:(rewrite Ep; eauto)) as Hdup.
    apply admission_skip; [done|done| |].
    + intros p. rewrite exists_snoc, Hptr. split; [by left|]. intros [?|[<- _]]; done.
    + intros [_ Hno]. destruct Hdup as (tx0 & Hin & Hk0 & _). by destruct (Hno tx0).
  - assert (∀ p, is_Some (<[tx_key tx := tx_hash tx]> (txnPointersM st) !! p) ↔
      ∃ tx', tx' ∈ txs ++ [tx] ∧ tx_key tx' = p ∧
        (pendingNonce g (ts_nonceCache s) (tx_from tx') ≤ tx_nonce tx')%Z) as Hptr'.
    { intros p. rewrite exists_snoc, lookup_insert_is_Some', Hptr.
      split; intros [?|?]; [right|by left|by right|left]; [split; [done|lia]|tauto]. }
    destruct (txHashMap s !! tx_hash tx) as [?|] eqn:Eh.
    + apply admission_skip; [done..|]. intros [[_ ?] _]. congruence.
    + apply admission_add; [done..|split; [lia|done]|].
      intros tx' Hin Hk. apply (eq_None_not_Some (txnPointersM st !! tx_key tx)); [done|].
      apply Hptr. exists tx'. split_and!; [done..|].
      unfold tx_key in Hk. injection Hk as -> ->. lia.
Qed.

Lemma admit_ok s txs : admission_ok s txs (admitTxs g s txs).
Proof.
  unfold admitTxs. induction txs as [|tx txs IH] using rev_ind; simpl.
  - split; simpl; [done|..].
    + intros p. rewrite lookup_empty. split; [by intros []|]. by intros (? & ?%elem_of_nil & _).
    + intros tx. split; [by intros ?%elem_of_nil|]. by intros [[] [? _]].
    + intros a tx. setoid_rewrite lookup_empty. split; [by intros (? & ? & _)|].
      by intros [_ ?%elem_of_nil].
    + intros a l. by rewrite lookup_empty.
  - rewrite fold_left_app. by apply admitTx_ok.
Qed.

(** ** [processDirtyAccount] *)

Lemma insertReady_spec s a l :
  insertReady s a l = with_priorityIndex s (priorityIndex (insertReady s a l)) ∧
  ∀ k, k ∈ bt_Ascend (priorityIndex (insertReady s a l)) ↔
    (∃ tx, tx ∈ l ∧ k = makeTimeoutKey a tx) ∨ k ∈ bt_Ascend (priorityIndex s).
Proof.
  induction l as [|tx l IH] using rev_ind; [split; [by destruct s|]; intros k; set_solver|].
  unfold insertReady in *. rewrite fold_left_app. cbn [fold_left].
  set (s' := fold_left _ l s) in *. destruct IH as [Heq Hk].
  destruct (bt_Has (priorityIndex s') (makeTimeoutKey a tx)) eqn:Hhas.
  - split; [done|]. intros k. rewrite exists_snoc, Hk. apply bt_Has_spec in Hhas.
    split; [tauto|]. intros [[?| ->]|?]; [tauto| |tauto]. by apply Hk.
  - split; [by rewrite Heq|]. intros k. simpl. unfold insertByTimeoutKey.
    rewrite bt_elem_ReplaceOrInsert, Hk, exists_snoc. tauto.
Qed.

Lemma insertNonReady_spec s a l :
  insertNonReady s a l = with_parkingLotIndex s (parkingLotIndex (insertNonReady s a l)) ∧
  ∀ k, k ∈ bt_Ascend (parkingLotIndex (insertNonReady s a l)) ↔
    (∃ tx, tx ∈ l ∧ k = makeOrderedIndexKey a tx) ∨ k ∈ bt_Ascend (parkingLotIndex s).
Proof.
  induction l as [|tx l IH] using rev_ind; [split; [by destruct s|]; intros k; set_solver|].
  unfold insertNonReady in *. rewrite fold_left_app. cbn [fold_left].
  set (s' := fold_left _ l s) in *. destruct IH as [Heq Hk].
  split; [by rewrite Heq|]. intros k. simpl. unfold insertByOrderedQueueKey.
  rewrite bt_elem_ReplaceOrInsert, Hk, exists_snoc. tauto.
Qed.

Lemma elem_of_txs_at (its : gmap Z txItem) d n tx :
  tx ∈ txs_at its d n ↔
    ∃ j it, (d ≤ j < d + Z.of_nat n)%Z ∧ its !! j = Some it ∧ tx = ti_tx it.
Proof.
  unfold txs_at. rewrite list_elem_of_omap. setoid_rewrite elem_of_seqZ.
  setoid_rewrite fmap_Some. split.
  - intros (j & ? & it & ? & ->). eauto 6.
  - intros (j & it & ? & ? & ->). eauto 6.
Qed.

(** What a round does to the store: the ready transactions of the account join the
priority index, the others the parking lot; [n] is the length of the run. *)
Record processed s a (n : nat) (nc : nonceCache) s' : Prop := {
  pd_allTxs : allTxs s' = allTxs s;
  pd_hashes : txHashMap s' = txHashMap s;
  pd_nonces : ts_nonceCache s' = nc;
  pd_ttl : ttlIndex s' = ttlIndex s;
  pd_arrived : removeTimeoutIndex s' = removeTimeoutIndex s;
  pd_batched : batchedTxs s' = batchedTxs s;
  pd_priority k : k ∈ bt_Ascend (priorityIndex s') ↔
    (∃ j tx, (pendingNonce g (ts_nonceCache s) a ≤ j <
              pendingNonce g (ts_nonceCache s) a + Z.of_nat n)%Z ∧
             pool s a j = Some tx ∧ k = makeTimeoutKey a tx) ∨
    k ∈ bt_Ascend (priorityIndex s);
  pd_parking k : k ∈ bt_Ascend (parkingLotIndex s') ↔
    (∃ j tx, (pendingNonce g (ts_nonceCache s) a + Z.of_nat n < j)%Z ∧
             pool s a j = Some tx ∧ k = makeOrderedIndexKey a tx) ∨
    k ∈ bt_Ascend (parkingLotIndex s) }.

Lemma processDirtyAccount_step_spec s upd a :
  (∀ m, allTxs s !! a = Some m → sorted_map_ok a m) → is_Some (allTxs s !! a) →
  let d := pendingNonce g (ts_nonceCache s) a in (0 ≤ d)%Z →
  ∃ n nc s',
    processDirtyAccount_step g (s, upd) a = Some (s', <[a := (d + Z.of_nat n)%Z]> upd) ∧
    nc_equiv g nc (ts_nonceCache s) ∧ processed s a n nc s' ∧
    (∀ j, (d ≤ j < d + Z.of_nat n)%Z → is_Some (pool s a j)) ∧ pool s a (d + Z.of_nat n) = None.
Proof.
  intros Hok [m Hm] d Hd. unfold processDirtyAccount_step. rewrite Hm.
  assert (∀ j, pool s a j = ti_tx <$> items m !! j) as Hpool.
  { intros j. unfold getTxByOrderKey. by rewrite Hm. }
  destruct (getPendingNonce_spec g (ts_nonceCache s) a) as [Hv He].
  destruct (getPendingNonce g (ts_nonceCache s) a) as [d' nc]. simpl in Hv, He. subst d'. fold d.
  destruct (filterReady_spec a m d (Hok m Hm) Hd) as (n & nr & -> & Hrun & Hgap & Hnr). simpl.
  set (s1 := with_nonceCache s nc).
  destruct (insertReady_spec s1 a (txs_at (items m) d n)) as [HeqR HkR].
  set (s2 := insertReady s1 a (txs_at (items m) d n)) in *.
  set (s3 := with_priorityNonBatchSize _ _).
  destruct (insertNonReady_spec s3 a nr) as [HeqN HkN].
  exists n, nc, (insertNonReady s3 a nr).
  split; [done|]. split; [done|].
  split; [|split; [intros j ?; rewrite Hpool; by apply fmap_is_Some, Hrun|by rewrite Hpool, Hgap]].
  split; try (rewrite HeqN; unfold s3; simpl; by rewrite HeqR).
  - intros k. rewrite HeqN. simpl. rewrite HkR. setoid_rewrite elem_of_txs_at.
    setoid_rewrite Hpool. setoid_rewrite fmap_Some. apply or_iff_compat_r.
    split; [intros (? & (j & it & ? & ? & ->) & ->); eauto 8|].
    intros (j & tx & ? & (it & ? & ->) & ->). eauto 8.
  - intros k. rewrite HkN. setoid_rewrite Hnr. setoid_rewrite Hpool. setoid_rewrite fmap_Some.
    assert (parkingLotIndex s3 = parkingLotIndex s) as -> by (unfold s3; simpl; by rewrite HeqR).
    apply or_iff_compat_r.
    split; [intros (? & (j & it & ? & ? & ->) & ->); eauto 8|].
    intros (j & tx & ? & (it & ? & ->) & ->). eauto 8.
Qed.

Lemma pend_view_pending pend s a :
  pend !! a = pendingNonces (ts_nonceCache s) !! a →
  pend_view pend s a = pendingNonce g (ts_nonceCache s) a.
Proof. unfold pend_view, pendingNonce. by intros ->. Qed.

Lemma processed_inv pend dirty s a n nc s' :
  let d := pendingNonce g (ts_nonceCache s) a in
  store_inv pend dirty s → pend !! a = pendingNonces (ts_nonceCache s) !! a →
  nc_equiv g nc (ts_nonceCache s) → processed s a n nc s' →
  (∀ j, (d ≤ j < d + Z.of_nat n)%Z → is_Some (pool s a j)) → pool s a (d + Z.of_nat n) = None →
  store_inv (<[a := (d + Z.of_nat n)%Z]> pend) (λ b, dirty b ∧ b ≠ a) s'.
Proof.
  intros d Hinv Hpa Hnc [Hall Hhash Hnonce Httl Harr _ Hprio Hpark] Hrun Hgap.
  assert (∀ b j, pool s' b j = pool s b j) as Hpool by (intros; unfold getTxByOrderKey; by rewrite Hall).
  assert (∀ b, commit_view g s' b = commit_view g s b) as Hcv.
  { intros b. unfold commit_view. rewrite Hnonce. by destruct Hnc as [-> _]. }
  assert (pend_view pend s a = d) as Hd by (by apply pend_view_pending).
  assert (∀ b, pend_view (<[a := (d + Z.of_nat n)%Z]> pend) s' b =
               if decide (b = a) then d + Z.of_nat n else pend_view pend s b)%Z as Hpv.
  { intros b. unfold pend_view. rewrite Hcv. destruct (decide (b = a)) as [->|];
      [by rewrite lookup_insert_eq|by rewrite lookup_insert_ne]. }
  split; rewrite ?Hall, ?Httl, ?Harr, ?Hhash; try (by apply Hinv);
    try (intros ??; rewrite ?Hpool; by apply Hinv).
  - intros k [(j & tx & Hj & Htx & ->)|Hk]%Hprio; simpl.
    + destruct (pool_item _ _ _ _ _ _ Hinv Htx) as (? & -> & ?). rewrite Hpool, lookup_insert_eq.
      eexists _, _. split_and!; [done..|lia].
    + destruct (si_priority _ _ _ Hinv k Hk) as (tx & p & Htx & ? & Hp & ?). rewrite Hpool.
      destruct (decide (otk_account k = a)) as [E|Hne]; [|rewrite lookup_insert_ne by done; eauto 6].
      rewrite E in *. rewrite lookup_insert_eq. eexists _, _. split_and!; [done..|].
      unfold pend_view in Hd. rewrite Hp in Hd. simpl in Hd. lia.
  - intros k [(j & tx & ? & Htx & ->)|Hk]%Hpark; rewrite Hpool; [|by apply (si_parking _ _ _ Hinv)]. simpl.
    destruct (pool_item _ _ _ _ _ _ Hinv Htx) as (? & -> & ?). eauto.
  - intros b j. rewrite Hcv, Hpv. unfold ready_keys. intros Hj.
    assert (∀ x, x ∈ ready_keys s → x ∈ otk_key <$> bt_Ascend (priorityIndex s')) as Hmono.
    { intros x (k & -> & Hk)%list_elem_of_fmap. apply list_elem_of_fmap_2, Hprio. by right. }
    destruct (decide (b = a)) as [->|]; [|by apply Hmono, (si_run _ _ _ Hinv)].
    destruct (decide (j < d)%Z); [apply Hmono, (si_run _ _ _ Hinv); rewrite Hd; lia|].
    destruct (Hrun j ltac:(lia)) as [tx Htx].
    destruct (pool_item _ _ _ _ _ _ Hinv Htx) as (_ & <- & _).
    apply list_elem_of_fmap. exists (makeTimeoutKey a tx). split; [done|]. apply Hprio. left.
    exists (tx_nonce tx), tx. split_and!; [lia|lia|done|done].
  - intros b Hb. rewrite Hpool, Hpv. destruct (decide (b = a)) as [->|]; [done|].
    apply (si_gap _ _ _ Hinv). tauto.
  - intros b Hb Hnd. rewrite lookup_insert_is_Some'. destruct (decide (a = b)); [by left|right].
    apply (si_known _ _ _ Hinv); [done|]. intros ?. by destruct Hnd.
  - intros b. rewrite Hcv. by apply Hinv.
  - intros b p. rewrite lookup_insert_Some. intros [[_ <-]|[_ ?]]; [|by eapply si_pend].
    rewrite <-Hd. pose proof (pend_view_nonneg _ _ _ a Hinv). lia.
Qed.

(** Pending nonces do not go back. *)
Definition nonces_le (m m' : gmap string Z) : Prop :=
  ∀ a p, m !! a = Some p → ∃ p', m' !! a = Some p' ∧ (p ≤ p')%Z.

Lemma nonces_le_refl m : nonces_le m m.
Proof. intros a p ?. by exists p. Qed.

Lemma nonces_le_trans m1 m2 m3 : nonces_le m1 m2 → nonces_le m2 m3 → nonces_le m1 m3.
Proof. intros H12 H23 a p (p' & Hp' & ?)%H12. apply H23 in Hp' as (p'' & ? & ?). exists p''. split; [done|lia]. Qed.

(** The loop over the dirty accounts; [l] are those still to come. *)
Lemma processDirty_loop pend0 l s upd :
  NoDup l → store_inv (upd ∪ pend0) (λ b, b ∈ l) s → pendingNonces (ts_nonceCache s) = pend0 →
  (∀ a, a ∈ l → upd !! a = None ∧ is_Some (allTxs s !! a)) →
  ∃ s' upd',
    foldl (λ st a, st ← st; processDirtyAccount_step g st a) (Some (s, upd)) l = Some (s', upd') ∧
    store_inv (upd' ∪ pend0) (λ _, False) s' ∧ pendingNonces (ts_nonceCache s') = pend0 ∧
    allTxs s' = allTxs s ∧ txHashMap s' = txHashMap s ∧ batchedTxs s' = batchedTxs s ∧
    nc_equiv g (ts_nonceCache s') (ts_nonceCache s) ∧ nonces_le (upd ∪ pend0) (upd' ∪ pend0).
Proof.
  revert s upd. induction l as [|a l IH]; intros s upd Hnd Hinv Hpend Hl; cbn [foldl].
  { exists s, upd. split_and!; try done; [|apply nonces_le_refl]. eapply store_inv_dirty; [|done]. by intros ? ?%elem_of_nil. }
  apply NoDup_cons in Hnd as [Ha Hnd]. destruct (Hl a) as [Hupd Hall]; [by left|].
  change (Some (s, upd) ≫= _) with (processDirtyAccount_step g (s, upd) a).
  assert ((upd ∪ pend0) !! a = pendingNonces (ts_nonceCache s) !! a) as Hpa.
  { by rewrite lookup_union_r, Hpend. }
  destruct (processDirtyAccount_step_spec s upd a) as (n & nc & s1 & -> & Hnc & Hpd & Hrun & Hgap);
    [intros m; by apply Hinv|done|..].
  { rewrite <-(pend_view_pending _ _ _ Hpa). by eapply pend_view_nonneg. }
  pose proof (processed_inv _ _ _ _ _ _ _ Hinv Hpa Hnc Hpd Hrun Hgap) as Hinv1.
  rewrite insert_union_l in Hinv1. destruct Hpd as [Hall1 Hh1 Hn1 _ _ Hb1 _ _].
  edestruct (IH s1) as (s2 & upd2 & -> & ? & ? & Hall2 & Hh2 & Hb2 & Hnc2 & Hle); [done|..].
  - eapply store_inv_dirty; [|exact Hinv1]. simpl. by intros b [[->|?]%elem_of_cons ?].
  - rewrite Hn1. destruct Hnc as [_ ->]. done.
  - intros b Hb. destruct (Hl b) as [??]; [by right|]. rewrite Hall1. split; [|done].
    by rewrite lookup_insert_ne by congruence.
  - exists s2, upd2. rewrite Hall2, Hall1, Hh2, Hh1, Hb2, Hb1. split_and!; try done.
    + transitivity (ts_nonceCache s1); [done|]. by rewrite Hn1.
    + eapply nonces_le_trans; [|exact Hle]. rewrite <-insert_union_l. intros b p Hp.
      destruct (decide (b = a)) as [->|]; [|rewrite lookup_insert_ne by done; by exists p].
      rewrite lookup_insert_eq. eexists. split; [done|]. unfold pendingNonce. rewrite Hpa in Hp. rewrite Hp. cbn. lia.
Qed.

(** ** [ProcessTransactions] *)

(** The invariant between two operations. *)
Definition pool_inv s : Prop := store_inv (pendingNonces (ts_nonceCache s)) (λ _, False) s.

Lemma range_txs_keys_NoDup (txs : gmap string (list Tx)) :
  (∀ a l, txs !! a = Some l → NoDup (tx_nonce <$> l)) →
  NoDup ((λ p, (p.1, tx_nonce p.2)) <$> range_txs txs).
Proof.
  intros Hl. assert (∀ a l, (a, l) ∈ go_range txs → NoDup (tx_nonce <$> l)) as Hr.
  { intros a l ?%elem_of_go_range. by eapply Hl. }
  pose proof (NoDup_go_keys txs) as Hnd. unfold go_keys, range_txs in *.
  induction (go_range txs) as [|[a l] r IH]; simpl; [constructor|].
  simpl in Hnd. apply NoDup_cons in Hnd as [Ha Hnd]. rewrite fmap_app, <-list_fmap_compose.
  apply NoDup_app. split_and!.
  - change (NoDup (pair a ∘ tx_nonce <$> l)). rewrite list_fmap_compose.
    apply (NoDup_fmap_2 _). apply (Hr a). by left.
  - intros [b n] (tx & Htx & _)%list_elem_of_fmap ([b' tx'] & Htx' & Hin)%list_elem_of_fmap.
    apply list_elem_of_bind in Hin as ([c l'] & Hin & Hc).
    apply list_elem_of_fmap in Hin as (? & Heq & _). simplify_eq/=. apply Ha.
    apply list_elem_of_fmap. by exists (a, l').
  - apply IH; [|done]. intros b l' ?. apply (Hr b). by right.
Qed.

(** What holds of the store once the admitted transactions have been inserted and the
dirty accounts processed. *)
Record accepted s (txs : list Tx) s' : Prop := {
  ac_inv : pool_inv s';
  ac_new tx : admitted s txs tx → pool s' (tx_from tx) (tx_nonce tx) = Some tx;
  ac_old a n : (∀ tx, admitted s txs tx → tx_key tx ≠ (a, n)) → pool s' a n = pool s a n;
  ac_commit a : commit_view g s' a = commit_view g s a;
  ac_batched : batchedTxs s' = batchedTxs s;
  ac_pending : nonces_le (pendingNonces (ts_nonceCache s)) (pendingNonces (ts_nonceCache s')) }.

(** The store between the insertion and the processing of the dirty accounts. *)
Record inserted s (txs : list Tx) (dirtyAccounts : gmap string bool) s' : Prop := {
  in_inv : store_inv (pendingNonces (ts_nonceCache s)) (λ a, is_Some (dirtyAccounts !! a)) s';
  in_dirty a : is_Some (dirtyAccounts !! a) → is_Some (allTxs s' !! a);
  in_new tx : admitted s txs tx → pool s' (tx_from tx) (tx_nonce tx) = Some tx;
  in_old a n : (∀ tx, admitted s txs tx → tx_key tx ≠ (a, n)) → pool s' a n = pool s a n;
  in_nonces : nc_equiv g (ts_nonceCache s') (ts_nonceCache s);
  in_batched : batchedTxs s' = batchedTxs s }.

Lemma insertPairs_batched isLocal now l s : batchedTxs (insertPairs isLocal now l s) = batchedTxs s.
Proof. revert s. induction l as [|[a tx] l IH]; intros s; simpl; [done|]. rewrite IH. by destruct isLocal. Qed.

Lemma insertion_spec s txs isLocal now :
  pool_inv s → (∀ tx, tx ∈ txs → tx_nonce tx < MaxUint64)%Z →
  let adm := admitTxs g s txs in
  let r := insertTxs (with_nonceCache s (adm_nonceCache adm)) (validTxs adm) isLocal now in
  inserted s txs r.2 r.1.
Proof.
  intros Hinv Hbound adm r. destruct (admit_ok s txs) as [Hnc _ Hlist Hmap Hnd].
  fold adm in Hnc, Hlist, Hmap, Hnd. set (s1 := with_nonceCache s (adm_nonceCache adm)) in *.
  assert (same_pool s s1) as Hsame by (split; try done; by destruct Hnc).
  assert (∀ a tx, (a, tx) ∈ range_txs (validTxs adm) ↔ tx_from tx = a ∧ admitted s txs tx) as Hpairs.
  { intros a tx. by rewrite elem_of_range_txs, Hmap, Hlist. }
  assert (r.1 = insertPairs isLocal now (range_txs (validTxs adm)) s1) as Hr.
  { unfold r. by rewrite insertTxs_pairs. }
  destruct (insertPairs_inv (pendingNonces (ts_nonceCache s)) (λ a, is_Some (r.2 !! a))
              isLocal now (range_txs (validTxs adm)) s1) as [Hinv2 Hnc2].
  { eapply store_inv_dirty, same_pool_inv; [|done|exact Hinv]. done. }
  { intros a tx Hin. pose proof Hin as [l [Hl _]]%elem_of_range_txs. apply Hpairs in Hin as [<- Hadm].
    split; [apply insertTxs_dirty; by exists l|]. split; [done|].
    apply admitted_elem in Hadm as [Hin [Hlow _]]. split; [|by apply Hbound].
    unfold pend_view. by rewrite (sp_commit _ _ Hsame). }
  pose proof (λ a n, insertPairs_pool isLocal now (range_txs (validTxs adm)) s1 a n
    (λ b tx Hin, proj1 (proj1 (Hpairs b tx) Hin))
    (range_txs_keys_NoDup _ (λ a l Hl, proj2 (Hnd a l Hl)))) as Hpool.
  rewrite <-Hr in Hinv2, Hnc2, Hpool. split; [done|..].
  - intros a [l Hl]%insertTxs_dirty. destruct (Hnd a l Hl) as [Hne _]. destruct l as [|tx l]; [done|].
    assert (pool r.1 a (tx_nonce tx) = Some tx) as Hsome.
    { apply Hpool; [|done]. apply elem_of_range_txs. eexists. split; [done|by left]. }
    unfold getTxByOrderKey in Hsome. by destruct (allTxs r.1 !! a).
  - intros tx Hadm. by apply Hpool; [apply Hpairs|].
  - intros a n Hno. rewrite <-(same_pool_pool _ _ a n Hsame). apply Hpool.
    intros tx [<- Hadm]%Hpairs <-. by apply (Hno tx).
  - by rewrite Hnc2.
  - by rewrite Hr, insertPairs_batched.
Qed.

Lemma accept_spec s txs isLocal now :
  pool_inv s → (∀ tx, tx ∈ txs → tx_nonce tx < MaxUint64)%Z →
  let adm := admitTxs g s txs in
  let r := insertTxs (with_nonceCache s (adm_nonceCache adm)) (validTxs adm) isLocal now in
  ∃ s', processDirtyAccount g r.1 r.2 = Some s' ∧ accepted s txs s'.
Proof.
  intros Hinv Hbound adm r.
  destruct (insertion_spec s txs isLocal now Hinv Hbound) as [Hinv2 Hdirty Hnew Hold [Hc2 Hp2] Hb2].
  fold adm r in Hinv2, Hdirty, Hnew, Hold, Hc2, Hp2, Hb2.
  destruct (processDirty_loop (pendingNonces (ts_nonceCache s)) (go_keys r.2) r.1 ∅) as
    (s3 & upd & Hloop & Hinv3 & Hp3 & Hall3 & _ & Hb3 & [Hc3 _] & Hle).
  { apply NoDup_go_keys. }
  { rewrite (left_id_L ∅ (∪)). eapply store_inv_dirty; [|done]. intros a Ha. by apply elem_of_go_keys. }
  { done. }
  { intros a Ha%elem_of_go_keys. split; [by rewrite lookup_empty|by apply Hdirty]. }
  unfold processDirtyAccount. rewrite Hloop. cbn [mbind option_bind]. eexists. split; [done|].
  rewrite updatePendingNonce_spec. set (s' := with_nonceCache s3 _).
  assert (same_pool s3 s') as Hsame by done.
  assert (∀ a n, pool s' a n = pool r.1 a n) as Hp.
  { intros a n. rewrite (same_pool_pool _ _ _ _ Hsame). unfold getTxByOrderKey. by rewrite Hall3. }
  split.
  - unfold pool_inv, s'. simpl. rewrite Hp3. by apply (same_pool_inv _ _ s3).
  - intros tx Hadm. rewrite Hp. by apply Hnew.
  - intros a n Hno. rewrite Hp. by apply Hold.
  - intros a. rewrite (sp_commit _ _ Hsame). unfold commit_view. by rewrite Hc3, Hc2.
  - unfold s'. simpl. by rewrite Hb3.
  - unfold s'. simpl. rewrite Hp3. by rewrite (left_id_L ∅ (∪)) in Hle.
Qed.

Lemma generateBlock_same mpi now mpi' batch :
  ready_ok (txStore mpi) → generateBlock g mpi now = Some (mpi', batch) →
  same_pool (txStore mpi) (txStore mpi') ∧
  pendingNonces (ts_nonceCache (txStore mpi')) = pendingNonces (ts_nonceCache (txStore mpi)).
Proof.
  intros Hready. destruct (collectBatch_spec g mpi Hready) as (st & Hst & [_ _ [Hc Hp] _] & _).
  unfold generateBlock. rewrite Hst. simpl. destruct (negb _ && _ && _).
  - intros [= <- <-]. by split.
  - intros [= <- <-]. simpl. by destruct (decide (_ ≤ _)%Z).
Qed.

Lemma generateBlock_inv mpi now mpi' batch :
  pool_inv (txStore mpi) → generateBlock g mpi now = Some (mpi', batch) → pool_inv (txStore mpi').
Proof.
  intros Hinv Hgen. destruct (generateBlock_same _ _ _ _ (store_inv_ready_ok _ _ _ Hinv) Hgen) as [Hs Hp].
  unfold pool_inv. rewrite Hp. by eapply same_pool_inv.
Qed.

Lemma generateBlock_total mpi now :
  pool_inv (txStore mpi) → is_Some (generateBlock g mpi now).
Proof.
  intros Hinv. destruct (collectBatch_spec g mpi (store_inv_ready_ok _ _ _ Hinv)) as (st & Hst & _).
  unfold generateBlock. rewrite Hst. simpl. by destruct (negb _ && _ && _).
Qed.

(** What a block is made of, and what is sent with it. *)
Lemma generateBlock_block mpi now :
  pool_inv (txStore mpi) →
  ∃ mpi' keys obatch,
    generateBlock g mpi now = Some (mpi', obatch) ∧
    (∀ k, k ∈ batchedTxs (txStore mpi') ↔ k ∈ keys ∨ k ∈ batchedTxs (txStore mpi)) ∧
    match obatch with
    | None => keys = [] ∧ batchSeqNo mpi' = batchSeqNo mpi ∧ HasPendingRequest mpi' = false
    | Some batch => good_block g mpi keys batch ∧ batchSeqNo mpi' = rb_Height batch
    end.
Proof.
  intros Hinv.
  pose proof (store_inv_ready_ok _ _ _ Hinv) as Hready.
  destruct (collectBatch_spec g mpi Hready) as (st & Hst & Hsound & _).
  destruct Hsound as [[Hb Ho] Hkeys _ Hlen].
  unfold generateBlock. rewrite Hst. simpl. fold (after_walk (txStore mpi) st).
  destruct (negb _ && _ && _) eqn:E.
  - apply andb_true_iff in E as [[_ E]%andb_true_iff _].
    apply bool_decide_eq_true, nil_length_inv in E.
    eexists _, [], None. split; [done|]. split; [|by split_and!].
    intros k. simpl. by rewrite Hb, E.
  - eexists _, (b_result st), (Some _). split; [done|]. split; [|split; [split|]; try done].
    + intros k. simpl. destruct (decide (_ ≤ _)%Z); apply Hb.
    + apply Forall2_fmap_r, Forall_Forall2_diag, Forall_forall. intros k Hk.
      destruct (Hready k (Hkeys k Hk)) as (_ & tx & Htx & ? & ?). exists tx.
      rewrite getTx_after_walk. by split_and!.
Qed.

(** ** Commit *)

Definition touched s (hashes : list string) (k : orderedIndexKey) : Prop :=
  ∃ h, h ∈ hashes ∧ txHashMap s !! h = Some k.

(** The first loop of [processCommitTransactions]. *)
Record commit_loop s (hashes : list string) (st : committing) : Prop := {
  cl_pool : with_txHashMap (c_store st) ∅ =
    with_nonceCache (with_batchedTxs (with_txHashMap s ∅) (batchedTxs (c_store st)))
      (ts_nonceCache (c_store st));
  cl_nonces : nc_equiv g (ts_nonceCache (c_store st)) (ts_nonceCache s);
  cl_hashes h k : txHashMap (c_store st) !! h = Some k ↔ txHashMap s !! h = Some k ∧ h ∉ hashes;
  cl_batched k : k ∈ batchedTxs (c_store st) ↔ k ∈ batchedTxs s ∧ ¬ touched s hashes k;
  cl_dirty a : is_Some (c_dirtyAccounts st !! a) ↔ ∃ n, touched s hashes (OrderedIndexKey a n);
  cl_above a n : touched s hashes (OrderedIndexKey a n) →
    (n < default (commit_view g s a) (c_updateAccounts st !! a))%Z;
  cl_update a v : c_updateAccounts st !! a = Some v →
    (commit_view g s a < v)%Z ∧ touched s hashes (OrderedIndexKey a (v - 1)) }.

Lemma touched_snoc s hashes h k :
  touched s (hashes ++ [h]) k ↔ touched s hashes k ∨ txHashMap s !! h = Some k.
Proof. unfold touched. by rewrite exists_snoc. Qed.

(** The new entry of [updateAccounts] for a committed transaction. *)
Lemma commit_update s hashes (upd : gmap string Z) a m h :
  nonce_ok (OrderedIndexKey a m) → txHashMap s !! h = Some (OrderedIndexKey a m) →
  (∀ a n, touched s hashes (OrderedIndexKey a n) → n < default (commit_view g s a) (upd !! a))%Z →
  (∀ a v, upd !! a = Some v →
     (commit_view g s a < v)%Z ∧ touched s hashes (OrderedIndexKey a (v - 1))) →
  let new := m +u 1 in
  let upd' := if bool_decide (default 0 (upd !! a) < new)%Z && bool_decide (commit_view g s a < new)%Z
              then <[a := new]> upd else upd in
  (∀ b n, touched s (hashes ++ [h]) (OrderedIndexKey b n) →
     n < default (commit_view g s b) (upd' !! b))%Z ∧
  (∀ b v, upd' !! b = Some v →
     (commit_view g s b < v)%Z ∧ touched s (hashes ++ [h]) (OrderedIndexKey b (v - 1))).
Proof.
  unfold nonce_ok, MaxUint64. simpl. intros Hk Hh Hab Hup.
  simp_u64. setoid_rewrite touched_snoc. rewrite Hh.
  destruct (bool_decide _ && bool_decide _) eqn:Ec.
  - apply andb_true_iff in Ec as [E1%bool_decide_eq_true E2%bool_decide_eq_true]. split.
    + intros b n Ht. destruct (decide (b = a)) as [->|Hne].
      * rewrite lookup_insert_eq. simpl. destruct Ht as [Ht%Hab|Heq]; [|simplify_eq; lia].
        destruct (upd !! a); simpl in *; lia.
      * rewrite lookup_insert_ne by done. destruct Ht as [?|?]; [by apply Hab|congruence].
    + intros b v. rewrite lookup_insert_Some. intros [[<- <-]|[_ Hv]].
      * split; [done|]. right. f_equal. f_equal. lia.
      * apply Hup in Hv as [??]. auto.
  - split; [|intros b v [??]%Hup; auto]. intros b n [Ht|Heq]; [by apply Hab|]. simplify_eq.
    apply andb_false_iff in Ec. rewrite !bool_decide_eq_false in Ec.
    pose proof (Hup b) as Hub. destruct (upd !! b) as [v|]; simpl in *; [|lia].
    destruct (Hub v) as [? _]; [done|]. lia.
Qed.

Lemma commitHash_loop s hashes st h :
  (∀ h k, txHashMap s !! h = Some k → nonce_ok k) →
  commit_loop s hashes st → commit_loop s (hashes ++ [h]) (commitHash g st h).
Proof.
  intros Hok [Hpool Hnc Hh Hb Hd Hab Hup]. unfold commitHash.
  destruct (txHashMap (c_store st) !! h) as [k|] eqn:Ek.
  - apply Hh in Ek as [Ek Hnew].
    destruct (getCommitNonce_spec g (ts_nonceCache (c_store st)) (oik_account k)) as [Hv He].
    destruct (getCommitNonce g (ts_nonceCache (c_store st)) (oik_account k)) as [pre nc]. simpl in Hv, He.
    assert (pre = commit_view g s (oik_account k)) as -> by (unfold commit_view; by rewrite <-Hnc).
    destruct (commit_update s hashes (c_updateAccounts st) (oik_account k) (oik_nonce k) h)
      as [Hab' Hup']; [destruct k; by eauto|by destruct k|done..|].
    split; simpl; [|by transitivity (ts_nonceCache (c_store st))|..|exact Hab'|exact Hup'].
    + unfold with_txHashMap, with_nonceCache, with_batchedTxs in *. simpl in *.
      injection Hpool. intros. congruence.
    + intros h' k'. rewrite lookup_delete_Some, Hh, elem_of_app, list_elem_of_singleton.
      split; [intros (? & ? & ?); split; [done|]; intros [?|?]; congruence|].
      intros [? ?]. split_and!; [intros ->|done|]; tauto.
    + intros k'. rewrite elem_of_difference, elem_of_singleton, Hb, touched_snoc, Ek.
      split; [intros [[??] ?]; split; [done|]; intros [?|[= ?]]; congruence|].
      intros [? ?]. split_and!; [done|tauto|intros ->; tauto].
    + intros a. rewrite lookup_insert_is_Some', Hd. setoid_rewrite touched_snoc. rewrite Ek. split.
      * intros [<-|[n ?]]; [|eauto]. exists (oik_nonce k). right. by destruct k.
      * intros (n & [?|[= ->]]); [right; eauto|by left].
  - assert (∀ k, txHashMap s !! h = Some k → touched s hashes k) as Hold.
    { intros k Hk. destruct (decide (h ∈ hashes)); [by exists h|].
      assert (txHashMap (c_store st) !! h = Some k) by (by apply Hh). congruence. }
    split; try done.
    + intros h' k. rewrite Hh, elem_of_app, list_elem_of_singleton. split; [|tauto].
      intros [??]. split; [done|]. intros [?| ->]; [done|].
      assert (txHashMap (c_store st) !! h = Some k) by (by apply Hh). congruence.
    + intros k. rewrite Hb, touched_snoc. naive_solver.
    + intros a. rewrite Hd. setoid_rewrite touched_snoc. naive_solver.
    + intros a n [?|?]%touched_snoc; auto.
    + intros a v Hv. rewrite touched_snoc. naive_solver.
Qed.

Lemma commitHashes_spec s hashes :
  (∀ h k, txHashMap s !! h = Some k → nonce_ok k) →
  commit_loop s hashes (fold_left (commitHash g) hashes (Committing s ∅ ∅)).
Proof.
  intros Hok. induction hashes as [|h hashes IH] using rev_ind; simpl.
  - split; simpl; try done.
    + split; [|tauto]. intros. split; [done|]. apply not_elem_of_nil.
    + split; [|tauto]. intros. split; [done|]. by intros (h & ?%elem_of_nil & _).
    + intros a. rewrite lookup_empty. split; [by intros []|]. by intros (n & h & ?%elem_of_nil & _).
    + intros a n. by intros (h & ?%elem_of_nil & _).
  - rewrite fold_left_app. by apply commitHash_loop.
Qed.

(** The second loop: the transactions of the account below its commit nonce leave the
pool and all indexes. *)
Record cleaned s a s' : Prop := {
  cd_pool b n : pool s' b n = if decide (b = a ∧ (n < commit_view g s a)%Z) then None else pool s b n;
  cd_accounts b : is_Some (allTxs s' !! b) ↔ is_Some (allTxs s !! b);
  cd_commit b : commit_view g s' b = commit_view g s b;
  cd_pending : pendingNonces (ts_nonceCache s') = pendingNonces (ts_nonceCache s);
  cd_hashes : txHashMap s' = txHashMap s;
  cd_batched : batchedTxs s' = batchedTxs s }.

(** Removal of the pooled transactions [rem] from the pool and from all indexes. *)
Record removal (rem : gmap string (list Tx)) s s' : Prop := {
  rm_pooled b tx : (b, tx) ∈ range_txs rem → pool s b (tx_nonce tx) = Some tx;
  rm_gone b tx : (b, tx) ∈ range_txs rem → pool s' b (tx_nonce tx) = None;
  rm_kept b n : (∀ tx, (b, tx) ∈ range_txs rem → tx_nonce tx ≠ n) → pool s' b n = pool s b n;
  rm_accounts b : is_Some (allTxs s' !! b) ↔ is_Some (allTxs s !! b);
  rm_commit b : commit_view g s' b = commit_view g s b;
  rm_hashes : txHashMap s' ⊆ txHashMap s;
  rm_sorted b m : allTxs s' !! b = Some m → sorted_map_ok b m;
  rm_ttl : time_map_ok (ttlIndex s');
  rm_arrived : time_map_ok (removeTimeoutIndex s');
  rm_ttl_lookup b n t : (0 ≤ n)%Z → tm_lookup (ttlIndex s') b n = Some t ↔
    tm_lookup (ttlIndex s) b n = Some t ∧ ∀ tx, (b, tx) ∈ range_txs rem → tx_nonce tx ≠ n;
  rm_arrived_lookup b n t : (0 ≤ n)%Z → tm_lookup (removeTimeoutIndex s') b n = Some t ↔
    tm_lookup (removeTimeoutIndex s) b n = Some t ∧ ∀ tx, (b, tx) ∈ range_txs rem → tx_nonce tx ≠ n;
  rm_priority k : k ∈ bt_Ascend (priorityIndex s') ↔ k ∈ bt_Ascend (priorityIndex s) ∧
    ∀ b tx, (b, tx) ∈ range_txs rem → k ≠ makeTimeoutKey b tx;
  rm_parking k : k ∈ bt_Ascend (parkingLotIndex s') ↔ k ∈ bt_Ascend (parkingLotIndex s) ∧
    ∀ b tx, (b, tx) ∈ range_txs rem → k ≠ makeOrderedIndexKey b tx }.

(** The invariant survives when what is removed has been committed or is not ready. *)
Lemma removal_inv pend dirty rem s s' :
  store_inv pend dirty s → removal rem s s' →
  (∀ b tx, (b, tx) ∈ range_txs rem →
     (tx_nonce tx < commit_view g s b)%Z ∨ makeTimeoutKey b tx ∉ bt_Ascend (priorityIndex s)) →
  store_inv pend dirty s'.
Proof.
  intros Hinv Hrm Hrun.
  assert (∀ b n, is_Some (pool s b n) → (∀ tx, (b, tx) ∈ range_txs rem → tx_nonce tx ≠ n) →
    is_Some (pool s' b n)) as Hkeep by (intros b n Hs Hno; by rewrite (rm_kept _ _ _ Hrm)).
  split.
  - apply Hrm.
  - apply Hrm.
  - apply Hrm.
  - intros b n Hn [t [Ht Hno]%(rm_ttl_lookup _ _ _ Hrm)]; [|done].
    apply Hkeep; [|done]. apply (si_ttl_pool _ _ _ Hinv); eauto.
  - intros b n Hn. split.
    + intros [t [Ht Hno]%(rm_arrived_lookup _ _ _ Hrm)]; [|done].
      apply Hkeep; [|done]. apply (si_arrived_pool _ _ _ Hinv); eauto.
    + intros Hs. assert (∀ tx, (b, tx) ∈ range_txs rem → tx_nonce tx ≠ n) as Hno.
      { intros tx Htx <-. rewrite (rm_gone _ _ _ Hrm b tx Htx) in Hs. by destruct Hs. }
      rewrite (rm_kept _ _ _ Hrm) in Hs by done.
      destruct (proj2 (si_arrived_pool _ _ _ Hinv b n Hn) Hs) as [t Ht]. exists t.
      by apply (rm_arrived_lookup _ _ _ Hrm).
  - intros k [Hk Hno]%(rm_priority _ _ _ Hrm).
    destruct (si_priority _ _ _ Hinv k Hk) as (tx & p & Htx & Hts & ? & ?). exists tx, p.
    split; [|done]. rewrite (rm_kept _ _ _ Hrm); [done|]. intros tx' Htx' Hn.
    pose proof (rm_pooled _ _ _ Hrm _ _ Htx') as Heq. rewrite Hn, Htx in Heq. injection Heq as <-.
    apply (Hno _ _ Htx'). unfold makeTimeoutKey. rewrite Hts, Hn. by destruct k.
  - intros k [Hk Hno]%(rm_parking _ _ _ Hrm).
    apply Hkeep; [by apply (si_parking _ _ _ Hinv)|]. intros tx Htx Hn.
    apply (Hno _ _ Htx). unfold makeOrderedIndexKey. rewrite Hn. by destruct k.
  - intros b n. unfold pend_view, ready_keys. rewrite (rm_commit _ _ _ Hrm). intros Hn.
    pose proof (si_run _ _ _ Hinv b n Hn) as (k & Hkey & Hk)%list_elem_of_fmap.
    rewrite Hkey. apply list_elem_of_fmap_2, (rm_priority _ _ _ Hrm). split; [done|].
    intros c tx Htx ->. destruct (Hrun _ _ Htx) as [Hlt|?]; [|done].
    unfold otk_key in Hkey. simpl in Hkey. simplify_eq. lia.
  - intros b Hb. unfold pend_view. rewrite (rm_commit _ _ _ Hrm). fold (pend_view pend s b).
    pose proof (si_gap _ _ _ Hinv b Hb) as Hgap. rewrite (rm_kept _ _ _ Hrm); [done|].
    intros tx Htx Hn. apply (rm_pooled _ _ _ Hrm) in Htx. congruence.
  - intros b. rewrite (rm_accounts _ _ _ Hrm). by apply Hinv.
  - intros h k Hk. rewrite (rm_accounts _ _ _ Hrm). eapply (si_hash _ _ _ Hinv).
    by eapply lookup_weaken; [|apply Hrm].
  - intros b. rewrite (rm_commit _ _ _ Hrm). by apply Hinv.
  - apply Hinv.
Qed.

(** The indexes after the removal of the transactions [rem] of one account. *)
Lemma cleaned_inv pend dirty s a rem s' :
  store_inv pend dirty s → cleaned s a s' →
  (∀ b m, allTxs s' !! b = Some m → sorted_map_ok b m) →
  (∀ b tx, (b, tx) ∈ range_txs rem ↔
     b = a ∧ pool s a (tx_nonce tx) = Some tx ∧ (tx_nonce tx < commit_view g s a)%Z) →
  ttlIndex s' = removeByTtlKey (ttlIndex s) rem →
  removeTimeoutIndex s' = removeByTtlKey (removeTimeoutIndex s) rem →
  priorityIndex s' = removeByTimeoutKey (priorityIndex s) rem →
  parkingLotIndex s' = removeByOrderedQueueKey (parkingLotIndex s) rem →
  store_inv pend dirty s'.
Proof.
  intros Hinv [Hpool Hacc Hcv _ Hhash _] Hsorted Hrem Httl Harr Hprio Hpark.
  assert (∀ b tx, (b, tx) ∈ range_txs rem → 0 ≤ tx_nonce tx)%Z as Hpos.
  { intros b tx (-> & Htx & _)%Hrem. by apply (pool_item _ _ _ _ _ _ Hinv) in Htx as (_ & _ & ? & _). }
  apply (removal_inv _ _ rem s); [done| |intros b tx (-> & _ & ?)%Hrem; by left].
  split; rewrite ?Httl, ?Harr, ?Hprio, ?Hpark, ?Hhash; try done.
  - by intros b tx (-> & ? & _)%Hrem.
  - intros b tx (-> & _ & ?)%Hrem. by rewrite Hpool, decide_True.
  - intros b n Hno. rewrite Hpool. case_decide as Hc; [|done]. destruct Hc as [-> Hlt].
    destruct (pool s a n) as [tx|] eqn:Htx; [|done].
    pose proof (pool_item _ _ _ _ _ _ Hinv Htx) as (_ & <- & _). destruct (Hno tx); [|done]. by apply Hrem.
  - apply removeByTtlKey_ok; [apply Hinv|done].
  - apply removeByTtlKey_ok; [apply Hinv|done].
  - intros. by apply tm_lookup_removeByTtlKey.
  - intros. by apply tm_lookup_removeByTtlKey.
  - intros k. apply elem_of_removeByTimeoutKey.
  - intros k. apply elem_of_removeByOrderedQueueKey.
Qed.

(** The index follows the items when the removed transactions leave it. *)
Lemma forward_sorted_ok a m c rem its :
  sorted_map_ok a m →
  (∀ n, its !! n = if decide (n < c)%Z then None else items m !! n) →
  (∀ b tx, (b, tx) ∈ range_txs rem ↔
     b = a ∧ ∃ n it, (n < c)%Z ∧ items m !! n = Some it ∧ tx = ti_tx it) →
  sorted_map_ok a (TxSortedMap _ its (removeBySortedNonceKey (index m) rem)).
Proof.
  intros [Hidx Hit] Hits Hrem. split; simpl; intros n.
  - rewrite elem_of_removeBySortedNonceKey, Hidx, Hits. split.
    + intros [[it Hn] Hno]. case_decide; [|by eauto].
      destruct (Hno a (ti_tx it)); [apply Hrem; eauto 6|].
      by destruct (Hit _ _ Hn) as (_ & _ & -> & _).
    + case_decide; [by intros []|]. intros Hs. split; [done|].
      intros b tx (_ & n' & it & ? & Hn' & ->)%Hrem [= ->].
      destruct (Hit _ _ Hn') as (_ & _ & E & _). lia.
  - intros it. rewrite Hits. case_decide; [done|]. apply Hit.
Qed.

Lemma cleanAccount_spec pend dirty s a :
  store_inv pend dirty s →
  ∃ s', cleanAccount g s a = Some s' ∧ store_inv pend dirty s' ∧ cleaned s a s'.
Proof.
  intros Hinv. unfold cleanAccount.
  destruct (getCommitNonce_spec g (ts_nonceCache s) a) as [Hv [Hc Hp]].
  destruct (getCommitNonce g (ts_nonceCache s) a) as [c nc]. cbn [fst snd] in Hv, Hc, Hp.
  assert (same_pool s (with_nonceCache s nc)) as Hsame by (split; try done; apply Hc).
  change (allTxs (with_nonceCache s nc)) with (allTxs s). fold (commit_view g s a) in Hv.
  destruct (allTxs s !! a) as [m|] eqn:Hm.
  - pose proof (si_sorted _ _ _ Hinv a m Hm) as Hok.
    destruct (forward_spec a m c Hok) as (rem & its & -> & Hits & Hrem). cbn [mbind option_bind].
    eexists. split; [done|]. set (s' := with_parkingLotIndex _ _).
    assert (∀ j, pool s a j = ti_tx <$> items m !! j) as Hpool.
    { intros j. unfold getTxByOrderKey. by rewrite Hm. }
    assert (cleaned s a s') as Hcl.
    { split; try done.
      - intros b n. unfold getTxByOrderKey, s'. simpl. destruct (decide (b = a)) as [->|Hne].
        + rewrite lookup_insert_eq, Hm. simpl. rewrite Hits, Hv. destruct (decide (n < _)%Z).
          * by rewrite decide_True.
          * by rewrite decide_False by tauto.
        + by rewrite lookup_insert_ne, decide_False by (congruence || tauto).
      - intros b. unfold s'. simpl. rewrite lookup_insert_is_Some'. split; [|tauto].
        intros [<-|?]; [by eauto|done]. }
    split; [|done]. apply (cleaned_inv _ _ s a rem s' Hinv Hcl); [|..|done|done|done|done].
    + intros b m'. unfold s'. simpl. rewrite lookup_insert_Some. intros [[<- <-]|[_ ?]]; [|by apply Hinv].
      by eapply forward_sorted_ok.
    + intros b tx. rewrite Hrem, Hpool, <-Hv, fmap_Some. apply and_iff_compat_l. split.
      * intros (n & it & ? & Hn & ->). destruct (smo_item _ _ Hok _ _ Hn) as (_ & _ & -> & _). eauto.
      * intros [(it & ? & ->) ?]. eauto 6.
  - exists (with_nonceCache s nc). split; [done|]. split; [by eapply same_pool_inv|].
    split; try done. intros b n. case_decide as Hb; [|done]. destruct Hb as [-> _].
    unfold getTxByOrderKey. simpl. by rewrite Hm.
Qed.

Lemma clean_loop pend l s :
  store_inv pend (λ _, False) s → NoDup l →
  ∃ s', foldl (λ st a, s ← st; cleanAccount g s a) (Some s) l = Some s' ∧
    store_inv pend (λ _, False) s' ∧
    (∀ b n, pool s' b n = if decide (b ∈ l ∧ (n < commit_view g s b)%Z) then None else pool s b n) ∧
    (∀ b, commit_view g s' b = commit_view g s b) ∧
    pendingNonces (ts_nonceCache s') = pendingNonces (ts_nonceCache s) ∧
    txHashMap s' = txHashMap s ∧ batchedTxs s' = batchedTxs s.
Proof.
  revert s. induction l as [|a l IH]; intros s Hinv Hnd; cbn [foldl].
  { by exists s. }
  apply NoDup_cons in Hnd as [Ha Hnd]. change (Some s ≫= _) with (cleanAccount g s a).
  destruct (cleanAccount_spec _ _ s a Hinv) as (s1 & -> & Hinv1 & [Hp _ Hc Hpe Hh Hb]).
  destruct (IH s1 Hinv1 Hnd) as (s2 & -> & Hinv2 & Hp2 & Hc2 & Hpe2 & Hh2 & Hb2).
  exists s2. split_and!; [done|done| |intros b; by rewrite Hc2|by rewrite Hpe2|by rewrite Hh2|by rewrite Hb2].
  intros b n. rewrite Hp2, Hp, Hc. destruct (decide (b = a)) as [->|Hne].
  - rewrite decide_False by tauto. destruct (decide (n < commit_view g s a)%Z).
    + by rewrite !decide_True by (split; [by left|done] || done).
    + by rewrite !decide_False by tauto.
  - rewrite (decide_False (P := b = a ∧ _)) by tauto.
    destruct (decide (b ∈ l ∧ _)) as [[??]|Hn]; [by rewrite decide_True by (by split; [right|])|].
    rewrite decide_False; [done|]. intros [[?|?]%elem_of_cons ?]; tauto.
Qed.

(** What [processCommitTransactions] does. *)
Record committed s (hashes : list string) s' : Prop := {
  cm_inv : pool_inv s';
  cm_above k : touched s hashes k → (oik_nonce k < commit_view g s' (oik_account k))%Z;
  cm_commit a : commit_view g s' a = commit_view g s a ∨
    (commit_view g s a < commit_view g s' a)%Z ∧
    touched s hashes (OrderedIndexKey a (commit_view g s' a - 1));
  cm_pool a n : pool s' a n = pool s a n ∨ pool s' a n = None ∧ (n < commit_view g s' a)%Z;
  cm_removed k n : touched s hashes k → (n < commit_view g s' (oik_account k))%Z →
    pool s' (oik_account k) n = None;
  cm_pending : pendingNonces (ts_nonceCache s') = pendingNonces (ts_nonceCache s);
  cm_hashes h k : txHashMap s' !! h = Some k ↔ txHashMap s !! h = Some k ∧ h ∉ hashes;
  cm_batched k : k ∈ batchedTxs s' ↔ k ∈ batchedTxs s ∧ ¬ touched s hashes k }.

(** The store between the two loops: the commit nonces have moved, the pool has not. *)
Lemma commit_nonces_inv s hashes st :
  pool_inv s → commit_loop s hashes st →
  let s1 := with_nonceCache (c_store st)
              (updateCommittedNonce (ts_nonceCache (c_store st)) (c_updateAccounts st)) in
  pool_inv s1 ∧ (∀ a n, pool s1 a n = pool s a n) ∧
  (∀ a, commit_view g s1 a = default (commit_view g s a) (c_updateAccounts st !! a)).
Proof.
  intros Hinv [Hpool [Hnc Hpe] Hh _ _ Hab Hup]. rewrite updateCommittedNonce_spec. intros s1.
  injection Hpool as Hp1 Hp2 Hp3 Hp4 Hp5 Hp6 Hp7.
  assert (∀ a n, pool s1 a n = pool s a n) as Hpl.
  { intros a n. unfold getTxByOrderKey, s1. simpl. by rewrite Hp1. }
  assert (∀ a, commit_view g s1 a = default (commit_view g s a) (c_updateAccounts st !! a)) as Hcv.
  { intros a. unfold commit_view at 1, commitNonce, s1. simpl. rewrite lookup_union.
    destruct (c_updateAccounts st !! a) as [v|]; simpl.
    - by destruct (commitNonces (ts_nonceCache (c_store st)) !! a).
    - rewrite (left_id_L None _). apply Hnc. }
  assert (∀ a, commit_view g s a ≤ commit_view g s1 a)%Z as Hle.
  { intros a. rewrite Hcv. destruct (c_updateAccounts st !! a) as [v|] eqn:Ev; simpl; [|lia].
    apply Hup in Ev as [? _]. lia. }
  split; [|done]. unfold pool_inv. change (pendingNonces (ts_nonceCache s1)) with
    (pendingNonces (ts_nonceCache (c_store st))). rewrite Hpe. set (pend := pendingNonces _).
  assert (∀ a, pend_view pend s1 a = pend_view pend s a) as Hpv.
  { intros a. unfold pend_view. destruct (pend !! a) as [p|] eqn:Ep; [done|]. simpl. rewrite Hcv.
    destruct (c_updateAccounts st !! a) as [v|] eqn:Ev; [|done].
    apply Hup in Ev as (_ & h & _ & [Ht _]%(si_hash _ _ _ Hinv)).
    destruct (si_known _ _ _ Hinv a Ht) as [p ?]; [by intros []|]. unfold pend in Ep. congruence. }
  change (allTxs (c_store st)) with (allTxs s1) in Hp1. change (ttlIndex (c_store st)) with (ttlIndex s1) in Hp3.
  change (removeTimeoutIndex (c_store st)) with (removeTimeoutIndex s1) in Hp4.
  change (parkingLotIndex (c_store st)) with (parkingLotIndex s1) in Hp5.
  change (priorityIndex (c_store st)) with (priorityIndex s1) in Hp6.
  split; unfold ready_keys; rewrite ?Hp1, ?Hp3, ?Hp4, ?Hp5, ?Hp6;
    try (by apply Hinv); intros *; rewrite ?Hpl, ?Hpv.
  - by apply (si_ttl_pool _ _ _ Hinv).
  - by apply (si_arrived_pool _ _ _ Hinv).
  - by apply (si_priority _ _ _ Hinv).
  - by apply (si_parking _ _ _ Hinv).
  - intros ?. apply (si_run _ _ _ Hinv). fold pend. specialize (Hle a). lia.
  - by apply (si_gap _ _ _ Hinv).
  - intros [? _]%Hh. by eapply si_hash.
  - pose proof (si_commit _ _ _ Hinv a). specialize (Hle a). lia.
Qed.

Lemma processCommit_ok mpi hashes :
  pool_inv (txStore mpi) →
  ∃ mpi', processCommitTransactions g mpi hashes = Some mpi' ∧
          committed (txStore mpi) hashes (txStore mpi').
Proof.
  intros Hinv. unfold processCommitTransactions. set (s := txStore mpi) in *.
  pose proof (commitHashes_spec s hashes (λ h k Hh, proj2 (si_hash _ _ _ Hinv h k Hh))) as Hloop.
  set (st := fold_left _ _ _) in *.
  destruct (commit_nonces_inv s hashes st Hinv Hloop) as (Hinv1 & Hp1 & Hc1).
  destruct Hloop as [_ [_ Hpe] Hh Hb Hd Hab Hup]. set (s1 := with_nonceCache (c_store st) _) in *.
  destruct (clean_loop _ (go_keys (c_dirtyAccounts st)) s1 Hinv1) as
    (s2 & -> & Hinv2 & Hp2 & Hc2 & Hpe2 & Hh2 & Hb2); [apply NoDup_go_keys|].
  cbn [mbind option_bind]. eexists. split; [done|]. simpl.
  assert (same_pool s2 (capNonBatchSize s2)) as Hsame by (unfold capNonBatchSize; by case_decide).
  assert (ts_nonceCache (capNonBatchSize s2) = ts_nonceCache s2) as Hncap
    by (unfold capNonBatchSize; by case_decide).
  assert (∀ a, commit_view g (capNonBatchSize s2) a =
               default (commit_view g s a) (c_updateAccounts st !! a)) as Hcv.
  { intros a. by rewrite (sp_commit _ _ Hsame), Hc2, Hc1. }
  split.
  - unfold pool_inv. rewrite Hncap, Hpe2. by eapply same_pool_inv.
  - intros k Hk. rewrite Hcv. apply Hab. by destruct k.
  - intros a. rewrite Hcv. pose proof (Hup a) as Hua.
    destruct (c_updateAccounts st !! a) as [v|]; [right; by apply Hua|by left].
  - intros a n. rewrite (same_pool_pool _ _ _ _ Hsame), Hp2, Hp1, Hcv, Hc1. case_decide; [right|left]; tauto.
  - intros k n Hk Hn. rewrite (same_pool_pool _ _ _ _ Hsame), Hp2, Hc1, <-Hcv, decide_True; [done|].
    split; [|done]. apply elem_of_go_keys, Hd. exists (oik_nonce k). by destruct k.
  - rewrite Hncap, Hpe2. unfold s1. cbn [ts_nonceCache with_nonceCache]. by rewrite updateCommittedNonce_spec.
  - intros h k. rewrite (sp_hashes _ _ Hsame), Hh2. apply Hh.
  - intros k. rewrite <-Hb. change (batchedTxs (c_store st)) with (batchedTxs s1). rewrite <-Hb2.
    unfold capNonBatchSize. by case_decide.
Qed.
(** ** Removal of transactions that stayed too long *)

(** What the walk over the times of arrival collects. *)
Definition expired s (removeDuration now : Z) : removing :=
  ascend (removeCallback s now removeDuration) (bt_Ascend (tm_index (removeTimeoutIndex s)))
    (Removing ∅ 0 (txHashMap s)).

Definition expiredTxs s (removeDuration now : Z) : list (string * Tx) :=
  range_txs (r_removedTxs (expired s removeDuration now)).

(** No account that loses a transaction keeps one with a nonce that another account loses. *)
Definition nonces_apart s (removeDuration now : Z) : Prop :=
  ∀ a tx b tx', (a, tx) ∈ expiredTxs s removeDuration now → (b, tx') ∈ expiredTxs s removeDuration now →
    is_Some (pool s a (tx_nonce tx')) →
    ∃ tx0, (a, tx0) ∈ expiredTxs s removeDuration now ∧ tx_nonce tx0 = tx_nonce tx'.

(** The walk collects transactions of the pool that are not ready. *)
Record collected s (st : removing) : Prop := {
  co_pool a l tx : r_removedTxs st !! a = Some l → tx ∈ l →
    pool s a (tx_nonce tx) = Some tx ∧ makeTimeoutKey a tx ∉ bt_Ascend (priorityIndex s);
  co_nonempty a l : r_removedTxs st !! a = Some l → l ≠ [];
  co_hashes : r_txHashMap st ⊆ txHashMap s }.

Lemma removeCallback_collected pend dirty s now dur k st :
  store_inv pend dirty s → collected s st → collected s (removeCallback s now dur k st).1.
Proof.
  intros Hinv Hst. unfold removeCallback.
  destruct (getPoolTxByTxnPointer s _ _) as [it|] eqn:Hit; [|done].
  repeat case_decide; try done. destruct (bt_Get (priorityIndex s) _) eqn:Hprio; [done|].
  destruct (bt_Get (parkingLotIndex s) _) eqn:Hpark; [|done]. apply bt_Get_None in Hprio.
  unfold getPoolTxByTxnPointer in Hit. destruct (allTxs s !! _) as [m|] eqn:Hm; [|done]. cbn in Hit.
  destruct (smo_item _ _ (si_sorted _ _ _ Hinv _ _ Hm) _ _ Hit) as (Ha & _ & Hn & _). cbn.
  assert (pool s (ti_account it) (tx_nonce (ti_tx it)) = Some (ti_tx it)) as Hp.
  { unfold getTxByOrderKey. rewrite Ha, Hn, Hm. cbn. by rewrite Hit. }
  destruct Hst as [Hpool Hne Hh]. split; cbn.
  - intros a l tx. rewrite lookup_insert_Some. intros [[<- <-]|[_ Hl]] Htx; [|by eapply Hpool].
    apply elem_of_app in Htx as [Htx| ->%list_elem_of_singleton]; [|done].
    destruct (r_removedTxs st !! ti_account it) as [l|] eqn:El; [by eapply Hpool|by apply elem_of_nil in Htx].
  - intros a l. rewrite lookup_insert_Some. intros [[<- <-]|[_ Hl]]; [|by eapply Hne]. by destruct (default _ _).
  - etrans; [apply delete_subseteq|done].
Qed.

Lemma expired_collected pend dirty s dur now : store_inv pend dirty s → collected s (expired s dur now).
Proof.
  intros Hinv. unfold expired.
  assert (collected s (Removing ∅ 0 (txHashMap s))) as Hst.
  { split; cbn; [by intros a l tx|by intros a l|done]. }
  revert Hst. generalize (Removing ∅ 0 (txHashMap s)) as st.
  induction (bt_Ascend (tm_index (removeTimeoutIndex s))) as [|k l IH]; intros st Hst; cbn; [done|].
  pose proof (removeCallback_collected _ _ s now dur k st Hinv Hst) as Hst'.
  destruct (removeCallback s now dur k st) as [st' []]; [by apply IH|done].
Qed.

(** Removing the same transactions again changes nothing. *)
Section again.
Variable R : gmap string (list Tx).

Lemma elem_of_iter_remove {K} `{ItemOk K} (f : btree K → btree K) (P : K → Prop) n t k :
  (∀ t k, k ∈ bt_Ascend (f t) ↔ k ∈ bt_Ascend t ∧ P k) →
  k ∈ bt_Ascend (Nat.iter (S n) f t) ↔ k ∈ bt_Ascend t ∧ P k.
Proof.
  intros Hf. induction n as [|n IH]; [apply Hf|]. change (Nat.iter (S (S n)) f t) with (f (Nat.iter (S n) f t)).
  rewrite Hf, IH. tauto.
Qed.

Lemma iter_removeByTtlKey n tm :
  (∀ a tx, (a, tx) ∈ range_txs R → 0 ≤ tx_nonce tx)%Z → time_map_ok tm →
  let tm' := Nat.iter (S n) (λ tm, removeByTtlKey tm R) tm in
  time_map_ok tm' ∧ ∀ b j t, (0 ≤ j)%Z → tm_lookup tm' b j = Some t ↔
    tm_lookup tm b j = Some t ∧ ∀ tx, (b, tx) ∈ range_txs R → tx_nonce tx ≠ j.
Proof.
  intros Hpos Hok. induction n as [|n [IH1 IH2]].
  { split; [by apply removeByTtlKey_ok|]. intros. by apply tm_lookup_removeByTtlKey. }
  change (Nat.iter (S (S n)) ?f tm) with (f (Nat.iter (S n) f tm)). cbn zeta. split; [by apply removeByTtlKey_ok|].
  intros b j t Hj. rewrite tm_lookup_removeByTtlKey, IH2 by done. tauto.
Qed.

(** The items of an account without the transactions of [txs]. *)
Definition without (txs : list Tx) (m : txSortedMap) : txSortedMap :=
  TxSortedMap _ (fold_left (λ its tx, delete (tx_nonce tx) its) txs (items m)) (removeBySortedNonceKey (index m) R).

Lemma without_items txs m n :
  items (without txs m) !! n = if decide (n ∈ tx_nonce <$> txs) then None else items m !! n.
Proof.
  cbn. generalize (items m) as its. induction txs as [|tx txs IH]; intros its; cbn.
  { by rewrite decide_False by apply not_elem_of_nil. }
  rewrite IH, lookup_delete. repeat case_decide; set_solver.
Qed.

Lemma removeAccount_fold l s :
  NoDup l.*1 → (∀ a txs, (a, txs) ∈ l → is_Some (allTxs s !! a)) →
  let s' := fold_left (removeAccount R) l s in
  txHashMap s' = txHashMap s ∧ ts_nonceCache s' = ts_nonceCache s ∧
  priorityIndex s' = Nat.iter (length l) (λ t, removeByTimeoutKey t R) (priorityIndex s) ∧
  parkingLotIndex s' = Nat.iter (length l) (λ t, removeByOrderedQueueKey t R) (parkingLotIndex s) ∧
  ttlIndex s' = Nat.iter (length l) (λ t, removeByTtlKey t R) (ttlIndex s) ∧
  removeTimeoutIndex s' = Nat.iter (length l) (λ t, removeByTtlKey t R) (removeTimeoutIndex s) ∧
  (∀ a txs, (a, txs) ∈ l → allTxs s' !! a = without txs <$> allTxs s !! a) ∧
  (∀ a, a ∉ l.*1 → allTxs s' !! a = allTxs s !! a).
Proof.
  revert s. induction l as [|[a txs] l IH]; intros s Hnd Hall; cbn [fold_left length].
  { split_and!; try done. by intros a txs ?%elem_of_nil. }
  apply NoDup_cons in Hnd as [Ha Hnd]. destruct (Hall a txs) as [m Hm]; [by left|].
  destruct (IH (removeAccount R s (a, txs)) Hnd) as (H1 & H2 & H3 & H4 & H5 & H6 & H7 & H8).
  { intros b txs' Hb. cbn. rewrite Hm. cbn. apply lookup_insert_is_Some'. right. apply (Hall b txs'). by right. }
  revert H1 H2 H3 H4 H5 H6 H7 H8. set (s' := fold_left _ _ _). cbn [removeAccount]. rewrite Hm. cbn -[Nat.iter]. intros.
  split_and!; [done|done|by rewrite H3, Nat.iter_succ_r|by rewrite H4, Nat.iter_succ_r
    |by rewrite H5, Nat.iter_succ_r|by rewrite H6, Nat.iter_succ_r|..].
  - intros b txs' [[= -> ->]|Hb]%elem_of_cons.
    + rewrite H8 by done. by rewrite lookup_insert_eq, Hm.
    + rewrite (H7 b txs' Hb), lookup_insert_ne; [done|]. intros ->. apply Ha. by apply (list_elem_of_fmap_2' _ _ (b, txs')).
  - intros b [Hne Hb]%not_elem_of_cons. by rewrite H8, lookup_insert_ne.
Qed.
(** After the loop the removed transactions are in no index. *)
Record unindexed s s' : Prop := {
  un_ttl : time_map_ok (ttlIndex s');
  un_arrived : time_map_ok (removeTimeoutIndex s');
  un_ttl_lookup b n t : (0 ≤ n)%Z → tm_lookup (ttlIndex s') b n = Some t ↔
    tm_lookup (ttlIndex s) b n = Some t ∧ ∀ tx, (b, tx) ∈ range_txs R → tx_nonce tx ≠ n;
  un_arrived_lookup b n t : (0 ≤ n)%Z → tm_lookup (removeTimeoutIndex s') b n = Some t ↔
    tm_lookup (removeTimeoutIndex s) b n = Some t ∧ ∀ tx, (b, tx) ∈ range_txs R → tx_nonce tx ≠ n;
  un_priority k : k ∈ bt_Ascend (priorityIndex s') ↔ k ∈ bt_Ascend (priorityIndex s) ∧
    ∀ b tx, (b, tx) ∈ range_txs R → k ≠ makeTimeoutKey b tx;
  un_parking k : k ∈ bt_Ascend (parkingLotIndex s') ↔ k ∈ bt_Ascend (parkingLotIndex s) ∧
    ∀ b tx, (b, tx) ∈ range_txs R → k ≠ makeOrderedIndexKey b tx }.

Lemma removeAccount_unindexed s :
  time_map_ok (ttlIndex s) → time_map_ok (removeTimeoutIndex s) →
  (∀ a tx, (a, tx) ∈ range_txs R → 0 ≤ tx_nonce tx)%Z →
  (∀ a txs, (a, txs) ∈ go_range R → is_Some (allTxs s !! a)) →
  unindexed s (fold_left (removeAccount R) (go_range R) s).
Proof.
  intros Httl Harr Hpos Hall.
  destruct (removeAccount_fold (go_range R) s (NoDup_go_keys R) Hall) as (_ & _ & H3 & H4 & H5 & H6 & _).
  assert (go_range R = [] → range_txs R = []) as Hnil by (intros E; unfold range_txs; by rewrite E).
  destruct (go_range R) as [|e l].
  { split; rewrite ?H3, ?H4, ?H5, ?H6; [done|done|..]; intros *; rewrite Hnil by done; set_solver. }
  cbn [length] in *. split; rewrite ?H3, ?H4, ?H5, ?H6; try by (intros; apply iter_removeByTtlKey).
  - intros k. apply (elem_of_iter_remove _ (λ k, ∀ b tx, (b, tx) ∈ range_txs R → k ≠ makeTimeoutKey b tx)).
    intros. apply elem_of_removeByTimeoutKey.
  - intros k. apply (elem_of_iter_remove _ (λ k, ∀ b tx, (b, tx) ∈ range_txs R → k ≠ makeOrderedIndexKey b tx)).
    intros. apply elem_of_removeByOrderedQueueKey.
Qed.
End again.

Lemma removeAccount_nonces R l s : ts_nonceCache (fold_left (removeAccount R) l s) = ts_nonceCache s.
Proof.
  revert s. induction l as [|[a txs] l IH]; intros s; cbn [fold_left]; [done|].
  rewrite IH. unfold removeAccount. by destruct (allTxs s !! a).
Qed.

Lemma RemoveAliveTimeoutTxs_nonces mpi dur now :
  ts_nonceCache (txStore (RemoveAliveTimeoutTxs mpi dur now).1) = ts_nonceCache (txStore mpi).
Proof. unfold RemoveAliveTimeoutTxs. cbn [fst txStore with_txStore]. by rewrite removeAccount_nonces. Qed.

(** The pool without the transactions that have expired. *)
Lemma RemoveAliveTimeoutTxs_removal pend dirty mpi dur now :
  store_inv pend dirty (txStore mpi) → nonces_apart (txStore mpi) dur now →
  removal (r_removedTxs (expired (txStore mpi) dur now)) (txStore mpi)
    (txStore (RemoveAliveTimeoutTxs mpi dur now).1).
Proof.
  intros Hinv Hap. set (s := txStore mpi) in *. destruct (expired_collected _ _ s dur now Hinv) as [Hpool Hne Hh].
  unfold RemoveAliveTimeoutTxs. fold s. fold (expired s dur now). cbn [fst txStore with_txStore].
  unfold nonces_apart, expiredTxs in Hap. set (R := r_removedTxs (expired s dur now)) in *.
  assert (∀ b tx, (b, tx) ∈ range_txs R → pool s b (tx_nonce tx) = Some tx) as HR.
  { intros b tx (l & Hl & Htx)%elem_of_range_txs. by eapply Hpool. }
  assert (∀ a tx, (a, tx) ∈ range_txs R → 0 ≤ tx_nonce tx)%Z as Hpos.
  { intros a tx Htx%HR. by apply (pool_item _ _ _ _ _ _ Hinv) in Htx as (_ & _ & ? & _). }
  assert (∀ a txs, R !! a = Some txs → ∃ m, allTxs s !! a = Some m) as Hdom.
  { intros a txs Ha. destruct txs as [|tx txs]; [by destruct (Hne _ _ Ha)|].
    destruct (Hpool a _ tx Ha) as [Hp _]; [by left|]. unfold getTxByOrderKey in Hp.
    destruct (allTxs s !! a); [by eauto|done]. }
  set (s0 := with_txHashMap s _).
  assert (∀ a txs, (a, txs) ∈ go_range R → is_Some (allTxs s0 !! a)) as Hall.
  { intros a txs Ha%elem_of_go_range. by eapply Hdom. }
  pose proof (removeAccount_unindexed R s0 (si_ttl _ _ _ Hinv) (si_arrived _ _ _ Hinv) Hpos Hall) as Hun.
  destruct (removeAccount_fold R (go_range R) s0 (NoDup_go_keys R) Hall) as (H1 & H2 & _ & _ & _ & _ & H7 & H8).
  set (s' := fold_left _ _ _) in *.
  assert (∀ a txs m, R !! a = Some txs → allTxs s !! a = Some m → allTxs s' !! a = Some (without R txs m)) as Hin.
  { intros a txs m Ha Hm. rewrite (H7 a txs) by (by apply elem_of_go_range). cbn. by rewrite Hm. }
  assert (∀ a, R !! a = None → allTxs s' !! a = allTxs s !! a) as Hout.
  { intros a Ha. rewrite H8; [done|]. intros Hi. apply elem_of_go_keys in Hi. rewrite Ha in Hi. by destruct Hi. }
  assert (∀ a txs n, R !! a = Some txs → n ∈ tx_nonce <$> txs ↔ ∃ tx, (a, tx) ∈ range_txs R ∧ tx_nonce tx = n) as Hnon.
  { intros a txs n Ha. rewrite list_elem_of_fmap. setoid_rewrite elem_of_range_txs. naive_solver. }
  assert (∀ a n, pool s' a n = None ∧ (∃ tx, (a, tx) ∈ range_txs R ∧ tx_nonce tx = n) ∨
    pool s' a n = pool s a n ∧ ∀ tx, (a, tx) ∈ range_txs R → tx_nonce tx ≠ n) as Hp'.
  { intros a n. unfold getTxByOrderKey. destruct (R !! a) as [txs|] eqn:Ea.
    - destruct (Hdom _ _ Ea) as [m Hm]. rewrite (Hin _ _ _ Ea Hm), Hm. cbn [mbind option_bind].
      rewrite without_items. case_decide as Hn; [left|right]; rewrite (Hnon _ _ _ Ea) in Hn; naive_solver.
    - right. rewrite Hout by done. split; [done|]. intros tx (l & Hl & _)%elem_of_range_txs. congruence. }
  split.
  - done.
  - intros b tx Htx. destruct (Hp' b (tx_nonce tx)) as [[? _]|[_ Hno]]; [done|]. by destruct (Hno tx).
  - intros b n Hno. destruct (Hp' b n) as [[_ (tx & Htx & Hn)]|[? _]]; [by destruct (Hno tx)|done].
  - intros b. destruct (R !! b) as [txs|] eqn:Eb; [|by rewrite Hout].
    destruct (Hdom _ _ Eb) as [m Hm]. rewrite (Hin _ _ _ Eb Hm), Hm. by split; eauto.
  - intros b. unfold commit_view. by rewrite H2.
  - by rewrite H1.
  - intros b m'. destruct (R !! b) as [txs|] eqn:Eb; [|rewrite Hout by done; by apply Hinv].
    destruct (Hdom _ _ Eb) as [m Hm]. rewrite (Hin _ _ _ Eb Hm). intros [= <-].
    destruct (si_sorted _ _ _ Hinv _ _ Hm) as [Hidx Hit]. split; intros n; rewrite without_items.
    + cbn [index without]. rewrite elem_of_removeBySortedNonceKey, Hidx. case_decide as Hn; rewrite (Hnon _ _ _ Eb) in Hn.
      * split; [|by intros []]. destruct Hn as (tx & Htx & <-). intros [_ Hno]. by destruct (Hno _ _ Htx).
      * split; [by intros [? _]|]. intros Hs. split; [done|]. intros c tx Htx [= ->]. apply Hn.
        destruct txs as [|tx1 txs]; [by destruct (Hne _ _ Eb)|].
        apply (Hap b tx1 c tx); [apply elem_of_range_txs; eexists; split; [done|by left]|done|].
        unfold getTxByOrderKey. rewrite Hm. cbn. by apply fmap_is_Some.
    + intros it. case_decide; [done|]. apply Hit.
  - apply Hun.
  - apply Hun.
  - apply Hun.
  - apply Hun.
  - apply Hun.
  - apply Hun.
Qed.

Lemma RemoveAliveTimeoutTxs_inv mpi dur now :
  pool_inv (txStore mpi) → nonces_apart (txStore mpi) dur now →
  pool_inv (txStore (RemoveAliveTimeoutTxs mpi dur now).1).
Proof.
  intros Hinv Hap. pose proof (RemoveAliveTimeoutTxs_removal _ _ mpi dur now Hinv Hap) as Hrm.
  destruct (expired_collected _ _ (txStore mpi) dur now Hinv) as [Hpool _ _].
  unfold pool_inv. rewrite RemoveAliveTimeoutTxs_nonces.
  apply (removal_inv _ _ _ _ _ Hinv Hrm). intros b tx (l & Hl & Htx)%elem_of_range_txs. right. by eapply Hpool.
Qed.
End invariant.
