(* ===== verification/ShardProps.v ===== *)
(** * Rebroadcast of timed-out transactions

[shardTxList] cuts the transactions of the timed-out keys into slices of bounded
length, with index arithmetic on [uint64]. It is related to the concatenation of
the slices: nothing is lost, nothing is repeated, the order is kept. *)
From S2P Require Import Prelude Btree TxStore TxStoreProps Mempool BatchProps MempoolProps.

Section shards.
Context `{BTreeLib, GoRange}.
Implicit Types (s : transactionStore) (items : list orderedTimeoutKey) (txs : list Tx).

(** The transactions of the keys are in the pool. *)
Definition pooled s items txs : Prop :=
  Forall2 (λ item tx, getTxByOrderKey s (otk_account item) (otk_nonce item) = Some tx) items txs.

Lemma pooled_lookup s its txs i :
  pooled s its txs → i < length its →
  ∃ item m it, its !! i = Some item ∧ allTxs s !! otk_account item = Some m ∧
    items m !! otk_nonce item = Some it ∧ txs !! i = Some (ti_tx it).
Proof.
  intros Hp Hi. destruct (lookup_lt_is_Some_2 its i Hi) as [item Hitem].
  destruct (Forall2_lookup_l _ _ _ _ _ Hp Hitem) as (tx & Htx & Hget).
  unfold getTxByOrderKey in Hget. destruct (allTxs s !! otk_account item) as [m|] eqn:Em; [|done].
  simpl in Hget. destruct (items m !! otk_nonce item) as [it|] eqn:Eit; [|done].
  exists item, m, it. simpl in Hget. naive_solver.
Qed.

(** The inner loop fills the slice that starts at [b] from position [j] on. *)
Lemma shardInner_spec s its txs bl b j fuel sl :
  pooled s its txs → (Z.of_nat (length its) < 2 ^ 63)%Z → (0 < bl < 2 ^ 64)%Z →
  length sl = Nat.min (Z.to_nat bl) (length its - b) → b ≤ length its → j ≤ length sl →
  length sl - j < fuel → 0 < length its →
  shardInner fuel s its bl (u64 (Z.of_nat (length its) - 1)) (Z.of_nat j) (Z.of_nat (b + j)) sl =
    Some (Z.of_nat (b + length sl), take j sl ++ (Some <$> take (length sl - j) (drop (b + j) txs))).
Proof.
  intros Hp Hlen Hbl Hsl Hb. revert j sl Hsl. induction fuel as [|fuel IH]; intros j sl Hsl Hj Hf Hpos; [lia|].
  cbn [shardInner]. simp_u64.
  destruct (decide (j < length sl)) as [Hlt|Hge].
  - rewrite !bool_decide_true by lia. cbn [andb]. rewrite !Nat2Z.id.
    destruct (pooled_lookup s its txs (b + j) Hp) as (item & m & it & -> & Hm & Hit & Htx); [lia|].
    cbn [mbind option_bind]. rewrite Hm. cbn [mbind option_bind]. rewrite Hit. cbn [mbind option_bind].
    rewrite decide_True by done. simp_u64.
    replace (Z.of_nat j + 1)%Z with (Z.of_nat (S j)) by lia.
    replace (Z.of_nat (b + j) + 1)%Z with (Z.of_nat (b + S j)) by lia.
    specialize (IH (S j) (<[j := Some (ti_tx it)]> sl)). rewrite length_insert in IH.
    simp_u64 in IH. rewrite IH by lia. f_equal. f_equal.
    replace (length sl - j) with (S (length sl - S j)) by lia.
    rewrite (drop_S txs _ _ Htx). cbn [take fmap list_fmap]. replace (b + S j) with (S (b + j)) by lia.
    rewrite (take_S_r _ _ (Some (ti_tx it))) by (by apply list_lookup_insert_eq).
    rewrite take_insert_ge by lia. by rewrite <-app_assoc.
  - assert (j = length sl) as -> by lia.
    assert (bool_decide (Z.of_nat (length sl) < bl)%Z &&
            bool_decide (Z.of_nat (b + length sl) ≤ Z.of_nat (length its) - 1)%Z = false) as ->.
    { apply andb_false_iff. rewrite !bool_decide_eq_false. lia. }
    rewrite Nat.sub_diag, take_0, app_nil_r, firstn_all. done.
Qed.

(** The outer loop, with [r] slices to go for the keys from [b] on. *)
Lemma shardOuter_spec s its txs bl r b :
  pooled s its txs → (Z.of_nat (length its) < 2 ^ 63)%Z → (0 < bl < 2 ^ 64)%Z → b ≤ length its →
  length its - b ≤ r * Z.to_nat bl → (0 < r → (r - 1) * Z.to_nat bl < length its - b) →
  ∃ shards,
    shardOuter r s its bl (u64 (Z.of_nat (length its) - 1)) (Z.of_nat b) = Some shards ∧
    concat shards = Some <$> drop b txs ∧ length shards = r ∧
    Forall (λ sh, 0 < length sh ≤ Z.to_nat bl) shards.
Proof.
  intros Hp Hlen Hbl. pose proof (Forall2_length _ _ _ Hp) as Htl.
  revert b. induction r as [|r IH]; intros b Hb Hle Hlt; cbn [shardOuter].
  { exists []. rewrite drop_ge by lia. by repeat split. }
  set (B := Z.to_nat bl) in *. set (n := Nat.min B (length its - b)).
  assert (0 < n) by lia.
  set (al := if decide _ then _ else _).
  assert (replicate (Z.to_nat al) (None : option Tx) = replicate n None) as ->.
  { f_equal. unfold al. rewrite (u64_small (Z.of_nat (length its) - 1)) by (unfold is_u64; lia).
    simp_u64. case_decide; lia. }
  pose proof (shardInner_spec s its txs bl b 0 (S (length its)) (replicate n None) Hp Hlen Hbl) as Hin.
  rewrite length_replicate, Nat.add_0_r, Nat.sub_0_r in Hin.
  change (Z.of_nat 0) with 0%Z in Hin. rewrite Hin by lia. cbn [mbind option_bind].
  destruct (IH (b + n)) as (shards & -> & Hc & Hr & Hall); [lia|nia|nia|].
  eexists. split; [done|]. cbn [concat length]. rewrite Hc, Hr. split_and!; [|done|].
  - rewrite take_0, app_nil_l, <-fmap_app. f_equal. rewrite <-(drop_drop txs n b). apply take_drop.
  - constructor; [|done]. rewrite take_0, app_nil_l, length_fmap, length_take, length_drop. lia.
Qed.

(** [shardTxList] never panics on pooled keys; the slices have at most [batchLen]
transactions, are as few as possible, and hold the transactions in order. *)
Lemma shardTxList_ok mpi its txs bl :
  pooled (txStore mpi) its txs → (Z.of_nat (length its) < 2 ^ 63)%Z → (0 < bl < 2 ^ 64)%Z →
  ∃ shards,
    shardTxList mpi its bl = Some shards ∧
    concat shards = Some <$> txs ∧
    Forall (λ sh, 0 < length sh ≤ Z.to_nat bl) shards ∧
    (Z.of_nat (length shards) = (Z.of_nat (length its) + bl - 1) / bl)%Z.
Proof.
  intros Hp Hlen Hbl. unfold shardTxList. rewrite decide_False by lia.
  set (T := Z.of_nat (length its)) in *.
  set (r := if decide _ then _ else _).
  assert (r = (T + bl - 1) / bl)%Z as Hr.
  { pose proof (Z.div_mod T bl ltac:(lia)) as Hdm. pose proof (Z.mod_pos_bound T bl ltac:(lia)) as Hmb.
    assert (0 ≤ T / bl ≤ T)%Z as Hq by (split; [apply Z.div_pos|apply Z.div_le_upper_bound]; nia).
    unfold r. case_decide as Hm.
    - simp_u64. apply Z.div_unique with (T `mod` bl - 1)%Z; lia.
    - apply Z.div_unique with (bl - 1)%Z; lia. }
  pose proof (Z.div_mod (T + bl - 1) bl ltac:(lia)) as Hdm.
  pose proof (Z.mod_pos_bound (T + bl - 1) bl ltac:(lia)) as Hmb. rewrite <-Hr in Hdm.
  assert (0 ≤ r)%Z as Hr0 by (rewrite Hr; apply Z.div_pos; lia).
  destruct (shardOuter_spec (txStore mpi) its txs bl (Z.to_nat r) 0 Hp Hlen Hbl)
    as (shards & Hs & Hc & Hlr & Hall); [lia|nia|nia|].
  exists shards. rewrite drop_0 in Hc. split_and!; [done..|]. rewrite Hlr. lia.
Qed.
End shards.

(** ** The keys that have timed out *)

Section timeouts.
Context `{BTreeLib, GoRange} (g : string → Z).
Implicit Types (s : transactionStore) (k : orderedTimeoutKey).

Lemma tm_lookup_update tm k t a n :
  (0 ≤ otk_nonce k)%Z → (0 ≤ n)%Z →
  tm_lookup (updateByTtlKey tm k t) a n =
    if decide (OrderedIndexKey a n = otk_key k) then Some t else tm_lookup tm a n.
Proof.
  intros ??. unfold tm_lookup, updateByTtlKey, insertByTtlKey, otk_key. simpl. rewrite lookup_insert.
  case_decide as Hk.
  - apply makeAccountNonceKey_inj in Hk as [-> ->]; [|done..]. by rewrite decide_True.
  - rewrite lookup_delete_ne by done. rewrite decide_False; [done|]. by intros [= -> ->].
Qed.

(** A pair of an account and a nonce has one entry in a time index. *)
Lemma time_map_keys_NoDup tm : time_map_ok tm → NoDup (otk_key <$> bt_Ascend (tm_index tm)).
Proof.
  intros Hok. apply NoDup_fmap_2_strong; [|apply bt_Ascend_NoDup]. intros k1 k2 H1 H2 Hkey.
  apply otk_ext; [|done]. destruct (time_map_ok_elem _ _ Hok H1) as [_ L1].
  destruct (time_map_ok_elem _ _ Hok H2) as [_ L2]. unfold otk_key in Hkey.
  injection Hkey as Ha Hn. rewrite Ha, Hn in L1. congruence.
Qed.

Lemma updateByTtlKey_fold l tm t :
  time_map_ok tm → NoDup (otk_key <$> l) → (∀ k, k ∈ l → k ∈ bt_Ascend (tm_index tm)) →
  let tm' := fold_left (λ tm k, updateByTtlKey tm k t) l tm in
  time_map_ok tm' ∧
  ∀ a n, (0 ≤ n)%Z →
    tm_lookup tm' a n = if decide (OrderedIndexKey a n ∈ otk_key <$> l) then Some t else tm_lookup tm a n.
Proof.
  revert tm. induction l as [|k l IH]; intros tm Hok Hnd Hl; cbn [fold_left].
  { split; [done|]. intros. by rewrite decide_False by apply not_elem_of_nil. }
  simpl in Hnd. apply NoDup_cons in Hnd as [Hk Hnd].
  destruct (time_map_ok_elem _ _ Hok (Hl k ltac:(by left))) as [Hpos _].
  pose proof (updateByTtlKey_ok _ _ t Hok (Hl k ltac:(by left))) as Hok1.
  destruct (IH (updateByTtlKey tm k t)) as [Hok' Hlook]; [done|done| |].
  { intros k' Hk'. destruct (time_map_ok_elem _ _ Hok (Hl k' ltac:(by right))) as [Hpos' Hl'].
    destruct Hok1 as [_ Hiff]. destruct k' as [a' n' t']. apply Hiff; [done|].
    fold (tm_lookup (updateByTtlKey tm k t) a' n'). rewrite tm_lookup_update by done.
    rewrite decide_False; [done|]. intros E. apply Hk. rewrite <-E. by apply (list_elem_of_fmap_2 otk_key _ _ Hk'). }
  split; [done|]. intros a n Hn. rewrite Hlook, tm_lookup_update by done. cbn [fmap list_fmap].
  destruct (decide (OrderedIndexKey a n ∈ otk_key <$> l)).
  - by rewrite decide_True by (by right).
  - destruct (decide (OrderedIndexKey a n = otk_key k)) as [->|].
    + by rewrite decide_True by (by left).
    + rewrite decide_False; [done|]. by intros [?|?]%elem_of_cons.
Qed.

(** The callback gathers exactly the keys whose waiting time has passed: the index is
ordered by time, so the first one that has not timed out ends the search. *)
Lemma timeoutCallback_filter s dur now l acc :
  StronglySorted (λ a b, Less a b = true) l →
  (∀ k, k ∈ l → is_Some (allTxs s !! otk_account k) ∧
     0 ≤ otk_timestamp k ∧ 0 ≤ dur ∧ otk_timestamp k + dur ≤ MaxInt64)%Z →
  ascend (timeoutCallback s dur now) l acc = acc ++ filter (λ k, otk_timestamp k + dur ≤ now)%Z l.
Proof.
  intros Hs. revert acc. induction Hs as [|k l Hl IH Hk]; intros acc Hok; cbn [ascend].
  { by rewrite app_nil_r. }
  destruct (Hok k) as ([m Hm] & Hts & Hdur & Hmax); [by left|]. unfold timeoutCallback.
  unfold MaxInt64 in *. rewrite decide_False by lia. rewrite Hm.
  rewrite i64_small by (unfold is_i64; lia). rewrite filter_cons.
  destruct (decide (now < _)%Z) as [Hlt|Hge].
  - rewrite decide_False by lia. rewrite (elem_of_nil_inv (filter _ l)); [by rewrite app_nil_r|].
    intros k' [? Hk']%list_elem_of_filter. eapply Forall_forall in Hk; [|done].
    rewrite orderedTimeoutKey_Less_alt in Hk. case_decide; [lia|]. rewrite Z.ltb_lt in Hk. lia.
  - rewrite decide_True by lia. fold (timeoutCallback s dur now). rewrite IH by (intros; apply Hok; by right).
    by rewrite <-app_assoc.
Qed.

(** [GetTimeoutTransactions] once the earliest timestamp has passed: it does not panic,
the slices hold the transactions of the timed-out keys, whose time is reset. *)
Definition timed_out s (dur now : Z) : list orderedTimeoutKey :=
  filter (λ k, otk_timestamp k + dur ≤ now)%Z (bt_Ascend (tm_index (ttlIndex s))).

Definition clock_ok s (dur : Z) : Prop :=
  (0 ≤ dur)%Z ∧ (Z.of_nat (bt_Len (tm_index (ttlIndex s))) < 2 ^ 63)%Z ∧
  ∀ k, k ∈ bt_Ascend (tm_index (ttlIndex s)) →
    (0 ≤ otk_timestamp k ∧ otk_timestamp k + dur ≤ MaxInt64)%Z.

(** The keys of the index are pooled, under the invariant. *)
Lemma ttl_pooled s l :
  pool_inv g s → (∀ k, k ∈ l → k ∈ bt_Ascend (tm_index (ttlIndex s))) → ∃ txs, pooled s l txs.
Proof.
  intros Hinv. induction l as [|k l IH]; intros Hl; [by exists []; constructor|].
  destruct IH as [txs Htxs]; [intros; apply Hl; by right|].
  destruct (time_map_ok_elem _ k (si_ttl _ _ _ _ Hinv)) as [Hn Hlook]; [apply Hl; by left|].
  destruct (si_ttl_pool _ _ _ _ Hinv (otk_account k) (otk_nonce k) Hn) as [tx Htx]; [by rewrite Hlook|].
  exists (tx :: txs). by constructor.
Qed.

Lemma collect_timed_out s dur now :
  pool_inv g s → clock_ok s dur →
  ascend (timeoutCallback s dur now) (bt_Ascend (tm_index (ttlIndex s))) [] = timed_out s dur now.
Proof.
  intros Hinv (Hdur & _ & Hts). rewrite timeoutCallback_filter; [done|apply bt_Ascend_sorted|].
  intros k Hk. destruct (ttl_pooled s [k] Hinv) as [txs Htxs].
  { by intros k' ->%list_elem_of_singleton. }
  destruct (pooled_lookup s [k] txs 0 Htxs) as (k' & m & _ & [= <-] & Hm & _); [simpl; lia|].
  destruct (Hts k Hk). split; [by exists m|lia].
Qed.

Lemma with_ttlIndex_inv s ttl :
  pool_inv g s → time_map_ok ttl →
  (∀ a n, (0 ≤ n)%Z → is_Some (tm_lookup ttl a n) → is_Some (tm_lookup (ttlIndex s) a n)) →
  pool_inv g (with_ttlIndex s ttl).
Proof.
  intros Hinv Hok Hsub. split; simpl; try (by apply Hinv); [done|].
  intros a n Hn Ht. apply (si_ttl_pool _ _ _ _ Hinv); auto.
Qed.

Lemma GetTimeoutTransactions_ok mpi dur now :
  pool_inv g (txStore mpi) → clock_ok (txStore mpi) dur → (0 < txSliceSize mpi < 2 ^ 64)%Z →
  (i64 (earliestTimestamp (txStore mpi) + dur) ≤ now)%Z →
  ∃ mpi' shards txs,
    GetTimeoutTransactions mpi dur now = Some (mpi', shards) ∧
    pooled (txStore mpi) (timed_out (txStore mpi) dur now) txs ∧
    concat shards = Some <$> txs ∧
    Forall (λ sh, 0 < length sh ≤ Z.to_nat (txSliceSize mpi)) shards ∧
    pool_inv g (txStore mpi') ∧
    (∀ a n, (0 ≤ n)%Z → tm_lookup (ttlIndex (txStore mpi')) a n =
       if decide (OrderedIndexKey a n ∈ otk_key <$> timed_out (txStore mpi) dur now)
       then Some now else tm_lookup (ttlIndex (txStore mpi)) a n).
Proof.
  intros Hinv Hclk Hslice Hearly. pose proof Hclk as (_ & Hlen & _). unfold GetTimeoutTransactions.
  rewrite decide_False by lia. set (s := txStore mpi) in *. rewrite bt_Len_spec in Hlen.
  assert (∀ k, k ∈ timed_out s dur now → k ∈ bt_Ascend (tm_index (ttlIndex s))) as Hsub.
  { intros k. unfold timed_out. rewrite list_elem_of_filter. tauto. }
  rewrite collect_timed_out by done.
  destruct (ttl_pooled s (timed_out s dur now) Hinv Hsub) as [txs Htxs].
  destruct (updateByTtlKey_fold (timed_out s dur now) (ttlIndex s) now) as [Hok Hlook]; [apply Hinv| |done|].
  { eapply sublist_NoDup; [apply (time_map_keys_NoDup _ (si_ttl _ _ _ _ Hinv))|].
    apply fmap_sublist. apply sublist_filter. }
  set (ttl := fold_left _ _ _) in *. set (mpi' := with_txStore mpi (with_ttlIndex s ttl)).
  destruct (shardTxList_ok mpi' (timed_out s dur now) txs (txSliceSize mpi)) as (shards & Hs & Hc & Hall & _);
    [done| |done|].
  { eapply Z.le_lt_trans; [|exact Hlen]. apply inj_le. unfold timed_out. apply length_filter. }
  change (txSliceSize mpi') with (txSliceSize mpi). rewrite Hs. cbn [mbind option_bind].
  exists mpi', shards, txs. split_and!; try done.
  apply with_ttlIndex_inv; [done|done|]. intros a n Hn. rewrite Hlook by done. case_decide as Hin; [|done].
  intros _. apply list_elem_of_fmap in Hin as (k & Hkey & Hk). apply Hsub in Hk.
  destruct (time_map_ok_elem _ k (si_ttl _ _ _ _ Hinv) Hk) as [_ L]. unfold otk_key in Hkey.
  injection Hkey as -> ->. by rewrite L.
Qed.
End timeouts.
