(* ===== verification/MempoolTheorems.v ===== *)
(** * Theorems about the mempool

The runs of the mempool as a step relation, its invariant by rule induction, and
what each operation does in a reachable state. The witnesses evaluate the
definitions on the run of a small pool. *)
From S2P Require Import Prelude Btree TxStore TxStoreProps Mempool BatchProps MempoolProps ShardProps.

(** ** Runs *)

Section runs.
Context `{BTreeLib, GoRange} (g : string → Z).

(** One call of the interface of the mempool. The nonces of the ledger ([g]) do not change during a run; nonces of
transactions are below the largest [uint64]; the clock does not overflow ([clock_ok]). [RemoveAliveTimeoutTxs] is
a step when no account that loses a transaction keeps one with a nonce that another account loses ([nonces_apart]):
otherwise it breaks the index of that account, see [removeAlive_breaks_index] below. *)
Inductive mempool_step : mempoolImpl → mempoolImpl → Prop :=
| step_ProcessTransactions mpi txs isLeader isLocal now1 now2 mpi' batch posted :
    (∀ tx, tx ∈ txs → tx_nonce tx < MaxUint64)%Z →
    ProcessTransactions g mpi txs isLeader isLocal now1 now2 = Some (mpi', batch, posted) →
    mempool_step mpi mpi'
| step_GenerateBlock mpi now mpi' batch :
    GenerateBlock g mpi now = Some (mpi', batch) → mempool_step mpi mpi'
| step_CommitTransactions mpi hashes mpi' :
    CommitTransactions g mpi hashes = Some mpi' → mempool_step mpi mpi'
| step_GetTimeoutTransactions mpi dur now mpi' shards :
    clock_ok (txStore mpi) dur → (0 < txSliceSize mpi < 2 ^ 64)%Z →
    GetTimeoutTransactions mpi dur now = Some (mpi', shards) → mempool_step mpi mpi'
| step_GetPendingNonce mpi a :
    mempool_step mpi (GetPendingNonceByAccount g mpi a).2
| step_SetBatchSeqNo mpi n : mempool_step mpi (SetBatchSeqNo mpi n)
| step_RemoveAliveTimeoutTxs mpi dur now :
    nonces_apart (txStore mpi) dur now → mempool_step mpi (RemoveAliveTimeoutTxs mpi dur now).1.

Definition reachable (config : Config) : mempoolImpl → Prop :=
  rtc mempool_step (newMempoolImpl config).

Hypothesis ledger_ok : ∀ a, (0 ≤ g a)%Z.

Lemma newMempoolImpl_inv config : pool_inv g (txStore (newMempoolImpl config)).
Proof.
  assert (∀ a n, getTxByOrderKey (txStore (newMempoolImpl config)) a n = None) as Hpool.
  { intros a n. unfold getTxByOrderKey. simpl. by rewrite lookup_empty. }
  assert (∀ a n, tm_lookup newTxLiveTimeMap a n = None) as Htm by (intros; apply lookup_empty).
  assert (∀ a, commit_view g (txStore (newMempoolImpl config)) a = g a) as Hcv.
  { intros a. unfold commit_view, commitNonce. simpl. by rewrite lookup_empty. }
  unfold pool_inv. split; simpl; intros *; unfold pend_view; simpl;
    rewrite ?Hpool, ?Htm, ?Hcv, ?lookup_empty; simpl; try done.
  all: first [apply newTxLiveTimeMap_ok | lia | by intros [] | by intros _ []
            | intros Hk; by apply bt_New_elem in Hk].
Qed.

Lemma ProcessTransactions_ok mpi txs isLeader isLocal now1 now2 :
  pool_inv g (txStore mpi) → (∀ tx, tx ∈ txs → tx_nonce tx < MaxUint64)%Z →
  ∃ mpi' batch posted s1,
    ProcessTransactions g mpi txs isLeader isLocal now1 now2 = Some (mpi', batch, posted) ∧
    accepted g (txStore mpi) txs s1 ∧ same_pool g s1 (txStore mpi') ∧ pool_inv g (txStore mpi') ∧
    (∀ tx, tx ∈ posted ↔ admitted g (txStore mpi) txs tx) ∧
    (isLeader = false ∨ isTimed mpi = true → batch = None ∧ txStore mpi' = s1).
Proof.
  intros Hinv Hb. destruct (accept_spec g (txStore mpi) txs isLocal now1 Hinv Hb) as (s1 & Hs1 & Hacc).
  pose proof (ao_list _ _ _ _ (admit_ok g (txStore mpi) txs)) as Hlist.
  unfold ProcessTransactions. destruct (insertTxs _ _ _ _) as [s0 dirty]. simpl in Hs1. rewrite Hs1.
  cbn [mbind option_bind].
  destruct (isLeader && _ && _) eqn:E.
  - destruct (generateBlock_total g (with_txStore mpi s1) now2 (ac_inv _ _ _ _ Hacc)) as [[mpi' batch] Hgen].
    rewrite Hgen. cbn [mbind option_bind]. exists mpi', batch, (validTxList (admitTxs g (txStore mpi) txs)), s1.
    split_and!; try done.
    + by apply (generateBlock_same g (with_txStore mpi s1) _ _ _ (store_inv_ready_ok _ _ _ _ (ac_inv _ _ _ _ Hacc)) Hgen).
    + by eapply (generateBlock_inv g (with_txStore mpi s1) _ _ _ (ac_inv _ _ _ _ Hacc)).
    + apply andb_true_iff in E as [[-> _]%andb_true_iff E]. simpl in E. intros [?|Ht]; [done|].
      by rewrite Ht in E.
  - exists (with_txStore mpi s1), None, (validTxList (admitTxs g (txStore mpi) txs)), s1.
    split_and!; try done. apply Hacc.
Qed.

Lemma mempool_step_inv mpi mpi' :
  mempool_step mpi mpi' → pool_inv g (txStore mpi) → pool_inv g (txStore mpi').
Proof.
  destruct 1 as [mpi txs isLeader isLocal now1 now2 mpi' batch posted Hb Heq|mpi now mpi' batch Heq
    |mpi hashes mpi' Heq|mpi dur now mpi' shards Hclk Hslice Heq|mpi a|mpi n|mpi dur now Hap]; intros Hinv.
  - destruct (ProcessTransactions_ok mpi txs isLeader isLocal now1 now2 Hinv Hb)
      as (mpi1 & ? & ? & ? & Heq' & _ & _ & Hinv' & _). congruence.
  - unfold GenerateBlock in Heq. destruct (_ && _); [congruence|]. by eapply generateBlock_inv.
  - destruct (processCommit_ok g mpi hashes Hinv) as (mpi1 & Heq' & [? _ _ _ _ _ _ _]).
    unfold CommitTransactions in Heq. congruence.
  - unfold GetTimeoutTransactions in Heq. destruct (decide (now < _)%Z) as [Hlt|Hge]; [congruence|].
    destruct (GetTimeoutTransactions_ok g mpi dur now Hinv Hclk Hslice ltac:(lia))
      as (mpi1 & sh & txs & Heq' & _ & _ & _ & Hinv' & _).
    unfold GetTimeoutTransactions in Heq'. rewrite decide_False in Heq' by lia. congruence.
  - unfold GetPendingNonceByAccount.
    destruct (getPendingNonce_spec g (ts_nonceCache (txStore mpi)) a) as [_ [Hc Hp]].
    destruct (getPendingNonce g (ts_nonceCache (txStore mpi)) a) as [n nc]. simpl in Hc, Hp |- *.
    unfold pool_inv. simpl. rewrite Hp. by apply (same_pool_inv g _ _ (txStore mpi)).
  - done.
  - by apply RemoveAliveTimeoutTxs_inv.
Qed.

Lemma reachable_pool_inv config mpi : reachable config mpi → pool_inv g (txStore mpi).
Proof.
  intros Hr. pose proof (newMempoolImpl_inv config) as Hinv. unfold reachable in Hr.
  induction Hr as [|mpi1 mpi2 mpi3 Hstep _ IH]; [done|]. apply IH. by eapply mempool_step_inv.
Qed.
End runs.

(** ** A small pool for the witnesses

Account [alice] sends nonce 1 before nonce 0 (and with the earlier timestamp), account
[bob] sends nonce 3 only, which has to wait. *)

Module Sample.
#[export] Existing Instance btree_by_list.
#[export] Existing Instance range_by_encoding.

Definition ledger : string → Z := λ _, 0%Z.
Definition config : Config := MkConfig 1 5 100 false 2 7.
Definition empty_pool : mempoolImpl := newMempoolImpl config.
Definition alice0 : Tx := MkTx "alice" 0 "h0" 20.
Definition alice1 : Tx := MkTx "alice" 1 "h1" 10.
Definition bob3 : Tx := MkTx "bob" 3 "h3" 5.
Definition request : list Tx := [alice1; alice0; bob3].

(** The state that an operation of the sample leaves behind. *)
Definition pool_of {A B} (r : option (mempoolImpl * A * B)) : mempoolImpl :=
  match r with Some (mpi, _, _) => mpi | None => empty_pool end.

Lemma run_pool {A B} (r : option (mempoolImpl * A * B)) b p :
  (λ x, (x.1.2, x.2)) <$> r = Some (b, p) → r = Some (pool_of r, b, p).
Proof. destruct r as [[[??]?]|]; simpl; congruence. Qed.

Lemma run_default {A} (d : A) (r : option A) : (λ _, tt) <$> r = Some tt → r = Some (default d r).
Proof. by destruct r. Qed.

Definition processed_pool : mempoolImpl :=
  pool_of (ProcessTransactions ledger empty_pool request true true 100 100).

Lemma ledger_ok a : (0 ≤ ledger a)%Z.
Proof. done. Qed.

Lemma request_ok tx : tx ∈ request → (tx_nonce tx < MaxUint64)%Z.
Proof. unfold request, MaxUint64. rewrite !elem_of_cons, elem_of_nil. intros [->|[->|[->|[]]]]; done. Qed.

Lemma processed_reachable : reachable ledger config processed_pool.
Proof.
  apply rtc_once. apply (step_ProcessTransactions ledger empty_pool request true true 100 100 _ None request).
  - apply request_ok.
  - unfold processed_pool. apply run_pool. vm_compute. reflexivity.
Qed.
End Sample.

(** ** What the mempool guarantees in every reachable state *)

Section theorems.
Context `{BTreeLib, GoRange} (g : string → Z) (config : Config).
Hypothesis ledger_ok : ∀ a, (0 ≤ g a)%Z.

(** C1: In every state that calls of the mempool reach, all indexes agree with the pool (each entry of the priority
index, the parking lot and the time indexes belongs to a pooled transaction, everything from the commit nonce up to
the pending nonce of an account is ready, the pending nonce is not pooled), and no next call panics. The runs are
those in which the nonces of the ledger do not change, transactions have nonces below the largest uint64, the times of
rebroadcasts do not overflow ([clock_ok]) and the slice size is a positive uint64, and every RemoveAliveTimeoutTxs
meets the condition that no account which loses a transaction keeps one with a nonce that another account loses
([nonces_apart]); without this condition the index breaks ([removeAlive_breaks_index]). *)
Theorem mempool_invariant mpi :
  reachable g config mpi →
  pool_inv g (txStore mpi) ∧
  (∀ txs isLeader isLocal now1 now2, (∀ tx, tx ∈ txs → tx_nonce tx < MaxUint64)%Z →
     is_Some (ProcessTransactions g mpi txs isLeader isLocal now1 now2)) ∧
  (∀ now, is_Some (GenerateBlock g mpi now)) ∧
  (∀ hashes, is_Some (CommitTransactions g mpi hashes)) ∧
  (∀ dur now, clock_ok (txStore mpi) dur → (0 < txSliceSize mpi < 2 ^ 64)%Z →
     is_Some (GetTimeoutTransactions mpi dur now)).
Proof.
  intros Hr. pose proof (reachable_pool_inv g ledger_ok config mpi Hr) as Hinv. split_and!; [done|..].
  - intros txs isLeader isLocal now1 now2 Hb.
    destruct (ProcessTransactions_ok g mpi txs isLeader isLocal now1 now2 Hinv Hb) as (? & ? & ? & ? & -> & _).
    by eauto.
  - intros now. unfold GenerateBlock. destruct (_ && _); [by eauto|]. by apply generateBlock_total.
  - intros hashes. destruct (processCommit_ok g mpi hashes Hinv) as (? & Heq & _).
    unfold CommitTransactions. rewrite Heq. by eauto.
  - intros dur now Hclk Hslice. destruct (decide (now < i64 (earliestTimestamp (txStore mpi) + dur))%Z) as [Hlt|Hge].
    + unfold GetTimeoutTransactions. rewrite decide_True by done. by eauto.
    + destruct (GetTimeoutTransactions_ok g mpi dur now Hinv Hclk Hslice ltac:(lia)) as (? & ? & ? & -> & _).
      by eauto.
Qed.

(** C37: In the reachable states of the mempool ([reachable]: constant nonces of the ledger, nonces below the largest
uint64, no overflowing clock, RemoveAliveTimeoutTxs only when [nonces_apart]), ProcessTransactions admits exactly the
transactions whose nonce is not below the pending one, whose hash is unknown and whose account and nonce occur for the
first time in the request; it posts them to the subscribers, the pool then holds them and is unchanged elsewhere;
afterwards the pool has no transaction with the pending nonce of an account, and everything from the commit nonce up
to the pending nonce is ready for a block. The pending nonce may be below the commit nonce, in which case nothing is
said to be ready: that happens, against the comment on pendingNonces ([parked_commit_stalls_account]). *)
Theorem ProcessTransactions_spec mpi txs isLeader isLocal now1 now2 :
  reachable g config mpi → (∀ tx, tx ∈ txs → tx_nonce tx < MaxUint64)%Z →
  ∃ mpi' batch posted,
    ProcessTransactions g mpi txs isLeader isLocal now1 now2 = Some (mpi', batch, posted) ∧
    (∀ tx, tx ∈ posted ↔ admitted g (txStore mpi) txs tx) ∧
    (∀ tx, admitted g (txStore mpi) txs tx →
       getTxByOrderKey (txStore mpi') (tx_from tx) (tx_nonce tx) = Some tx) ∧
    (∀ a n, (∀ tx, admitted g (txStore mpi) txs tx → tx_key tx ≠ (a, n)) →
       getTxByOrderKey (txStore mpi') a n = getTxByOrderKey (txStore mpi) a n) ∧
    (∀ a, let pending := (GetPendingNonceByAccount g mpi' a).1 in
       getTxByOrderKey (txStore mpi') a pending = None ∧
       ∀ n, (commit_view g (txStore mpi) a ≤ n < pending)%Z →
         OrderedIndexKey a n ∈ ready_keys (txStore mpi')).
Proof.
  intros Hr Hb. pose proof (reachable_pool_inv g ledger_ok config mpi Hr) as Hinv.
  destruct (ProcessTransactions_ok g mpi txs isLeader isLocal now1 now2 Hinv Hb)
    as (mpi' & batch & posted & s1 & Heq & Hacc & Hsame & Hinv' & Hposted & _).
  exists mpi', batch, posted. split; [done|]. split; [done|]. split_and!.
  - intros tx Htx. rewrite (same_pool_pool _ _ _ _ _ Hsame). by apply Hacc.
  - intros a n Hno. rewrite (same_pool_pool _ _ _ _ _ Hsame). by apply Hacc.
  - intros a. unfold GetPendingNonceByAccount.
    destruct (getPendingNonce_spec g (ts_nonceCache (txStore mpi')) a) as [Hv _].
    destruct (getPendingNonce g (ts_nonceCache (txStore mpi')) a) as [p nc]. simpl in Hv |- *. subst p.
    rewrite <-(pend_view_pending g (pendingNonces (ts_nonceCache (txStore mpi')))) by done. split.
    + apply (si_gap _ _ _ _ Hinv'). by intros [].
    + intros n Hn. apply (si_run _ _ _ _ Hinv').
      by rewrite (sp_commit _ _ _ Hsame), (ac_commit _ _ _ _ Hacc).
Qed.

(** C14: In the reachable states of the mempool ([reachable]: constant nonces of the ledger, nonces below the largest
uint64, no overflowing clock, RemoveAliveTimeoutTxs only when [nonces_apart]), generateBlock does not panic. It
answers with an error only when nothing was sent, and then the number of the next block stays and the counter of
unsent ready transactions is 0. Otherwise ([good_block]) the block has the transactions that the pool holds for its
keys, all of them ready, each the next one of its account or after its predecessor, none twice and none sent before;
their number is at most the smaller of the batch size and the counter when that is positive (nothing is said of the
size when it is 0, which timed blocks can meet); the block has the next number, and exactly its keys join the batched
set. *)
Theorem generateBlock_spec mpi now :
  reachable g config mpi →
  ∃ mpi' keys obatch,
    generateBlock g mpi now = Some (mpi', obatch) ∧
    (∀ k, k ∈ batchedTxs (txStore mpi') ↔ k ∈ keys ∨ k ∈ batchedTxs (txStore mpi)) ∧
    match obatch with
    | None => keys = [] ∧ batchSeqNo mpi' = batchSeqNo mpi ∧ HasPendingRequest mpi' = false
    | Some batch => good_block g mpi keys batch ∧ batchSeqNo mpi' = rb_Height batch
    end.
Proof. intros Hr. apply generateBlock_block. by eapply reachable_pool_inv. Qed.


(** A block that has another size than the smaller of the batch size and the counter of unsent ready
transactions takes everything that is ready: after it, each
transaction between the commit nonce and the pending nonce of its account has been sent. *)
Theorem generateBlock_drains mpi now mpi' batch a n :
  reachable g config mpi → generateBlock g mpi now = Some (mpi', Some batch) →
  Z.of_nat (length (rb_TxList batch)) ≠ blockBatchSize mpi →
  (commit_view g (txStore mpi) a ≤ n < pendingNonce g (ts_nonceCache (txStore mpi)) a)%Z →
  OrderedIndexKey a n ∈ batchedTxs (txStore mpi').
Proof.
  intros Hr Hgen Hlen Hn. pose proof (reachable_pool_inv g ledger_ok config mpi Hr) as Hinv.
  pose proof (store_inv_ready_ok _ _ _ _ Hinv) as Hready.
  pose proof (si_commit _ _ _ _ Hinv a) as Hpos.
  remember (Z.to_nat (n - commit_view g (txStore mpi) a)) as d eqn:Hd. revert n Hn Hd.
  induction d as [|d IH]; intros n Hn Hd.
  all: destruct (decide (OrderedIndexKey a n ∈ batchedTxs (txStore mpi'))) as [|Hni]; [done|exfalso].
  all: destruct (generateBlock_complete g mpi now mpi' batch (OrderedIndexKey a n) Hready Hgen Hlen)
    as [Hc Hp]; [by apply (si_run _ _ _ _ Hinv)|done|]; simpl in Hc, Hp.
  - lia.
  - apply Hp; [lia|]. unfold pred_key. simpl. apply IH; lia.
Qed.

(** C36: In the reachable states of the mempool ([reachable]: constant nonces of the ledger, nonces below the largest
uint64, no overflowing clock, RemoveAliveTimeoutTxs only when [nonces_apart]), CommitTransactions does not panic. For
the committed hashes that the pool knows: the commit nonce of an account stays or becomes the nonce of a committed
transaction of it plus one, is above the nonces of all of these, and never decreases; their keys leave the batched
set; their accounts lose everything below the new commit nonce from the pool and from what is ready. The committed
hashes are no longer found, and the pool loses nothing that is not below the new commit nonce of its account. *)
Theorem CommitTransactions_spec mpi hashes :
  reachable g config mpi →
  let s := txStore mpi in
  ∃ mpi', CommitTransactions g mpi hashes = Some mpi' ∧
    let s' := txStore mpi' in
    (∀ a, commit_view g s' a = commit_view g s a ∨
       (commit_view g s a < commit_view g s' a)%Z ∧
       touched s hashes (OrderedIndexKey a (commit_view g s' a - 1))) ∧
    (∀ k, touched s hashes k →
       (oik_nonce k < commit_view g s' (oik_account k))%Z ∧ k ∉ batchedTxs s' ∧
       ∀ n, (n < commit_view g s' (oik_account k))%Z →
         getTxByOrderKey s' (oik_account k) n = None ∧ OrderedIndexKey (oik_account k) n ∉ ready_keys s') ∧
    (∀ h, h ∈ hashes → GetTransaction mpi' h = None) ∧
    (∀ a n, getTxByOrderKey s' a n = getTxByOrderKey s a n ∨
       getTxByOrderKey s' a n = None ∧ (n < commit_view g s' a)%Z).
Proof.
  intros Hr s. pose proof (reachable_pool_inv g ledger_ok config mpi Hr) as Hinv.
  destruct (processCommit_ok g mpi hashes Hinv) as (mpi' & Heq & [Hinv' Hab Hcm Hpool Hrem _ Hh Hb]).
  exists mpi'. split; [done|]. split_and!; [done| | |done].
  - intros k Hk. split_and!; [by apply Hab|rewrite Hb; tauto|]. intros n Hn.
    split; [by apply Hrem|]. intros (k' & Hkey & Hk')%list_elem_of_fmap.
    destruct (si_priority _ _ _ _ Hinv' k' Hk') as (tx & _ & Htx & _). unfold otk_key in Hkey.
    injection Hkey as Ha Hnn. rewrite <-Ha, <-Hnn, (Hrem k n Hk Hn) in Htx. done.
  - intros h Hin. unfold GetTransaction. destruct (txHashMap (txStore mpi') !! h) as [k|] eqn:E; [|done].
    apply Hh in E as [_ ?]. done.
Qed.

(** once the earliest timestamp has passed, [GetTimeoutTransactions] returns, in slices
of at most [txSliceSize], the transactions of exactly those keys of the live-time index
that have waited for the given duration, in the order of the index, and resets their time;
before that it returns nothing and changes nothing. *)
Theorem GetTimeoutTransactions_spec mpi dur now :
  reachable g config mpi → clock_ok (txStore mpi) dur → (0 < txSliceSize mpi < 2 ^ 64)%Z →
  if decide (now < i64 (earliestTimestamp (txStore mpi) + dur))%Z
  then GetTimeoutTransactions mpi dur now = Some (mpi, [])
  else ∃ mpi' shards txs,
    GetTimeoutTransactions mpi dur now = Some (mpi', shards) ∧
    pooled (txStore mpi) (timed_out (txStore mpi) dur now) txs ∧
    concat shards = Some <$> txs ∧
    Forall (λ sh, 0 < length sh ≤ Z.to_nat (txSliceSize mpi)) shards ∧
    (∀ a n, (0 ≤ n)%Z → tm_lookup (ttlIndex (txStore mpi')) a n =
       if decide (OrderedIndexKey a n ∈ otk_key <$> timed_out (txStore mpi) dur now)
       then Some now else tm_lookup (ttlIndex (txStore mpi)) a n).
Proof.
  intros Hr Hclk Hslice. pose proof (reachable_pool_inv g ledger_ok config mpi Hr) as Hinv.
  case_decide as Hlt.
  - unfold GetTimeoutTransactions. by rewrite decide_True.
  - destruct (GetTimeoutTransactions_ok g mpi dur now Hinv Hclk Hslice ltac:(lia))
      as (mpi' & shards & txs & ? & ? & ? & ? & _ & ?). by exists mpi', shards, txs.
Qed.
End theorems.

(** ** Witnesses and counterexamples *)

Import Sample.

(** The transaction of [bob] has waited too long and is removed; those of [alice] are ready and stay. *)
Definition removed_pool : mempoolImpl := (RemoveAliveTimeoutTxs processed_pool 500 1000).1.

Lemma removed_reachable : reachable ledger config removed_pool.
Proof.
  eapply rtc_r; [apply processed_reachable|]. apply step_RemoveAliveTimeoutTxs.
  assert (expiredTxs (txStore processed_pool) 500 1000 = [("bob", bob3)]) as E by (vm_compute; reflexivity).
  unfold nonces_apart. rewrite E. intros a tx b tx' [= -> ->]%list_elem_of_singleton [= -> ->]%list_elem_of_singleton _.
  exists bob3. split; [apply list_elem_of_singleton; reflexivity|reflexivity].
Qed.

Lemma mempool_invariant_witness :
  reachable ledger config removed_pool ∧ GetTransaction removed_pool "h3" = None ∧
  pool_inv ledger (txStore removed_pool).
Proof.
  split; [apply removed_reachable|]. split; [vm_compute; reflexivity|].
  apply (mempool_invariant ledger config ledger_ok removed_pool removed_reachable).
Defined.

Lemma ProcessTransactions_spec_witness :
  ∃ mpi' batch posted,
    ProcessTransactions ledger empty_pool request true true 100 100 = Some (mpi', batch, posted) ∧
    ∀ tx, tx ∈ posted ↔ admitted ledger (txStore empty_pool) request tx.
Proof.
  destruct (ProcessTransactions_spec ledger config ledger_ok empty_pool request true true 100 100
              (rtc_refl _ _) request_ok) as (mpi' & batch & posted & Heq & Hp & _).
  exists mpi', batch, posted. by split.
Defined.

Lemma generateBlock_spec_witness :
  ∃ mpi' (keys : list orderedIndexKey) obatch,
    generateBlock ledger processed_pool 300 = Some (mpi', obatch) ∧
    (∀ k, k ∈ batchedTxs (txStore mpi') ↔ k ∈ keys ∨ k ∈ batchedTxs (txStore processed_pool)).
Proof.
  destruct (generateBlock_spec ledger config ledger_ok processed_pool 300 processed_reachable)
    as (mpi' & keys & obatch & Heq & Hk & _).
  exists mpi', keys, obatch. by split.
Defined.

(** The block that [generateBlock] makes of the small pool: nonce 0 before nonce 1. *)
Definition sample_block : mempoolImpl * option RequestBatch :=
  match generateBlock ledger processed_pool 300 with
  | Some r => r
  | None => (processed_pool, None)
  end.

Example sample_block_txs :
  sample_block.2 = Some (MkRequestBatch [Some alice0; Some alice1] 8 300).
Proof. vm_compute. reflexivity. Qed.

(** A run with blocks of two transactions: the leader sends both transactions of [alice],
another node sends the one of [bob], then [carol] arrives. *)
Module Run.
Definition config : Config := MkConfig 1 2 100 false 2 7.
Definition bob0 : Tx := MkTx "bob" 0 "b0" 50.
Definition carol0 : Tx := MkTx "carol" 0 "c0" 60.
Definition start : mempoolImpl := newMempoolImpl config.
Definition three : list Tx := [alice1; alice0; bob0].

Definition sent : mempoolImpl := pool_of (ProcessTransactions ledger start three true true 100 100).
Definition bob_done : mempoolImpl := default start (CommitTransactions ledger sent ["b0"]).
Definition carol_waits : mempoolImpl :=
  pool_of (ProcessTransactions ledger bob_done [carol0] false true 110 110).
Definition carol_block : mempoolImpl * option RequestBatch :=
  default (start, None) (generateBlock ledger carol_waits 120).

Lemma three_ok tx : tx ∈ three → (tx_nonce tx < MaxUint64)%Z.
Proof. unfold three, MaxUint64. rewrite !elem_of_cons, elem_of_nil. intros [->|[->|[->|[]]]]; done. Qed.

Lemma carol_waits_reachable : reachable ledger config carol_waits.
Proof.
  apply (rtc_l _ start sent).
  { eapply (step_ProcessTransactions ledger start three true true 100 100); [apply three_ok|].
    unfold sent. apply run_pool. vm_compute. reflexivity. }
  apply (rtc_l _ sent bob_done).
  { apply (step_CommitTransactions ledger sent ["b0"]). unfold bob_done. apply run_default. vm_compute. reflexivity. }
  apply rtc_once. eapply (step_ProcessTransactions ledger bob_done [carol0] false true 110 110).
  - by intros tx ->%list_elem_of_singleton.
  - unfold carol_waits. apply run_pool. vm_compute. reflexivity.
Qed.

Lemma carol_block_eq :
  generateBlock ledger carol_waits 120 =
    Some (carol_block.1, Some (MkRequestBatch [Some carol0] 9 120)).
Proof.
  unfold carol_block. assert (snd <$> generateBlock ledger carol_waits 120 =
    Some (Some (MkRequestBatch [Some carol0] 9 120))) as E by (vm_compute; reflexivity).
  revert E. destruct (generateBlock ledger carol_waits 120) as [[mpi b]|]; simpl; congruence.
Qed.
End Run.

Lemma generateBlock_drains_witness :
  OrderedIndexKey "carol" 0 ∈ batchedTxs (txStore Run.carol_block.1).
Proof.
  apply (generateBlock_drains ledger Run.config ledger_ok Run.carol_waits 120 _
           (MkRequestBatch [Some Run.carol0] 9 120) "carol" 0 Run.carol_waits_reachable Run.carol_block_eq).
  - vm_compute. discriminate.
  - vm_compute. split; [discriminate|reflexivity].
Defined.

Lemma CommitTransactions_spec_witness :
  ∃ mpi', CommitTransactions ledger processed_pool ["h0"] = Some mpi' ∧
          ∀ h, h ∈ ["h0"] → GetTransaction mpi' h = None.
Proof.
  destruct (CommitTransactions_spec ledger config ledger_ok processed_pool ["h0"] processed_reachable)
    as (mpi' & Heq & _ & _ & Hh & _).
  exists mpi'. by split.
Defined.

Lemma GetTimeoutTransactions_spec_witness :
  ∃ mpi' shards txs,
    GetTimeoutTransactions processed_pool 10 200 = Some (mpi', shards) ∧
    pooled (txStore processed_pool) (timed_out (txStore processed_pool) 10 200) txs ∧
    concat shards = Some <$> txs.
Proof.
  assert (clock_ok (txStore processed_pool) 10) as Hclk.
  { split_and!; [lia|vm_compute; reflexivity|]. apply Forall_forall. unfold MaxInt64.
    assert (bt_Ascend (tm_index (ttlIndex (txStore processed_pool))) =
      [OrderedTimeoutKey "bob" 3 5; OrderedTimeoutKey "alice" 1 10; OrderedTimeoutKey "alice" 0 20]) as ->
      by (vm_compute; reflexivity).
    repeat constructor; simpl; lia. }
  pose proof (GetTimeoutTransactions_spec ledger config ledger_ok processed_pool 10 200
    processed_reachable Hclk ltac:(vm_compute; split; reflexivity)) as H.
  rewrite decide_False in H by (vm_compute; discriminate).
  destruct H as (mpi' & shards & txs & H1 & H2 & H3 & _). exists mpi', shards, txs. by split_and!.
Defined.

(** ** Where the mempool does not do what it means to *)

Definition bob4 : Tx := MkTx "bob" 4 "h4" 30.
Definition bob3_committed : mempoolImpl :=
  default empty_pool (CommitTransactions ledger processed_pool ["h3"]).
Definition bob4_stuck : mempoolImpl :=
  pool_of (ProcessTransactions ledger bob3_committed [bob4] false true 400 400).

(** the comment on [pendingNonces] promises [pendingNonces[account] >= commitNonces[account]].
A node that holds only nonce 3 of [bob] and learns that the block with nonces 0 to 3 has been
committed moves the commit nonce to 4 and leaves the pending nonce at 0; the next transaction
of [bob], nonce 4, is admitted but never becomes ready. *)
Theorem parked_commit_stalls_account :
  CommitTransactions ledger processed_pool ["h3"] = Some bob3_committed ∧
  commit_view ledger (txStore bob3_committed) "bob" = 4%Z ∧
  (GetPendingNonceByAccount ledger bob3_committed "bob").1 = 0%Z ∧
  ProcessTransactions ledger bob3_committed [bob4] false true 400 400 = Some (bob4_stuck, None, [bob4]) ∧
  getTxByOrderKey (txStore bob4_stuck) "bob" 4 = Some bob4 ∧
  ready_keys (txStore bob4_stuck) = [OrderedIndexKey "alice" 1; OrderedIndexKey "alice" 0].
Proof.
  split; [unfold bob3_committed; apply run_default; vm_compute; reflexivity|]. split; [vm_compute; reflexivity|].
  split; [vm_compute; reflexivity|]. split; [unfold bob4_stuck; apply run_pool; vm_compute; reflexivity|].
  split; vm_compute; reflexivity.
Qed.

Definition other3 : Tx := MkTx "bob" 3 "other" 40.
Definition replaced_pool : mempoolImpl :=
  pool_of (ProcessTransactions ledger processed_pool [other3] false true 400 400).

(** a parked transaction can be replaced by another one with the same nonce, but the hash
of the replaced one stays in the hash map: [GetTransaction] then answers for the old hash
with the new transaction. *)
Theorem replaced_hash_is_stale :
  ProcessTransactions ledger processed_pool [other3] false true 400 400 = Some (replaced_pool, None, [other3]) ∧
  GetTransaction processed_pool "h3" = Some bob3 ∧
  GetTransaction replaced_pool "h3" = Some other3.
Proof.
  split; [unfold replaced_pool; apply run_pool; vm_compute; reflexivity|]. split; vm_compute; reflexivity.
Qed.

Definition dave5 : Tx := MkTx "dave" 5 "d5" 6.
Definition bob5 : Tx := MkTx "bob" 5 "b5" 7.
Definition two_parked : mempoolImpl :=
  pool_of (ProcessTransactions ledger empty_pool [bob3; dave5] false true 100 100).
Definition three_parked : mempoolImpl :=
  pool_of (ProcessTransactions ledger two_parked [bob5] false true 900 900).

(** [RemoveAliveTimeoutTxs] deletes the nonces of all removed transactions from the nonce
index of every account it visits: when nonce 3 of [bob] and nonce 5 of [dave] have stayed too
long, the index of [bob] loses nonce 5 too, although the pool still holds that transaction of
[bob], which can then not become ready any more. *)
Theorem removeAlive_breaks_index :
  ProcessTransactions ledger empty_pool [bob3; dave5] false true 100 100 =
    Some (two_parked, None, [bob3; dave5]) ∧
  ProcessTransactions ledger two_parked [bob5] false true 900 900 = Some (three_parked, None, [bob5]) ∧
  let mpi := (RemoveAliveTimeoutTxs three_parked 500 1000).1 in
  getTxByOrderKey (txStore mpi) "bob" 5 = Some bob5 ∧
  (bt_Ascend ∘ index) <$> allTxs (txStore mpi) !! "bob" = Some [].
Proof.
  split; [unfold two_parked; apply run_pool; vm_compute; reflexivity|].
  split; [unfold three_parked; apply run_pool; vm_compute; reflexivity|].
  split; vm_compute; reflexivity.
Qed.
