(* ===== verification/Storage.v ===== *)
(** * The packages below the ledger

[src/internal/ledger] keeps its data in a key-value store
([bitxhub-kit/storage]), in LRU caches ([hashicorp/golang-lru]) and in account
records of [eth-kit/ledger]; it hashes with SHA-256 and Keccak-256 and encodes
with protobuf and JSON. Each package is a class of operations with the behaviour
it documents as laws; the instances at the end are used by the witnesses. *)
From Stdlib Require Import Ascii.
From S2P Require Import Prelude Btree.

(** ** [storage.Storage]

A missing key is [None] (Go: a nil slice). A batch is the list of its writes,
[None] for a deletion; [st_Commit] applies them in order. *)

Definition batch := list (string * option string).

Definition below (hi : option string) (k : string) : Prop :=
  match hi with Some h => String.ltb k h = true | None => True end.

Global Instance below_dec hi k : Decision (below hi k).
Proof. destruct hi; simpl; apply _. Defined.

Class StorageLib := {
  storage : Type;
  st_Get : storage → string → option string;
  st_Commit : storage → batch → storage;
  st_Iterator : storage → string → option string → list (string * string);

  st_Get_nil s k : st_Get (st_Commit s []) k = st_Get s k;
  st_Get_snoc s b k v k' :
    st_Get (st_Commit s (b ++ [(k, v)])) k' = if decide (k' = k) then v else st_Get (st_Commit s b) k';
  (** the iterator visits the keys from the first bound (included) to the second
  (excluded, no bound when it is nil) in ascending order *)
  st_Iterator_elem s lo hi k v :
    (k, v) ∈ st_Iterator s lo hi ↔
      st_Get s k = Some v ∧ String.leb lo k = true ∧ below hi k;
  st_Iterator_sorted s lo hi :
    StronglySorted (λ a b, String.ltb a b = true) (st_Iterator s lo hi).*1
}.

(** ** [lru.Cache]

A cache may forget an entry whenever another one is added. [lru_Touch] is the
effect of a lookup on the recency list; [lru_Modify] is the mutation of a stored
object through the pointer that a lookup returned. *)

Class LruLib := {
  lru : Type → Type → Type;
  lru_New {K V} `{EqDecision K} : lru K V;
  lru_Get {K V} `{EqDecision K} : lru K V → K → option V;
  lru_Touch {K V} `{EqDecision K} : lru K V → K → lru K V;
  lru_Add {K V} `{EqDecision K} : lru K V → K → V → lru K V;
  lru_Modify {K V} `{EqDecision K} : lru K V → K → (V → V) → lru K V;
  lru_Remove {K V} `{EqDecision K} : lru K V → K → lru K V;
  lru_Len {K V} `{EqDecision K} : lru K V → nat;

  lru_Get_New {K V} `{EqDecision K} k : lru_Get (lru_New : lru K V) k = None;
  lru_Get_Touch {K V} `{EqDecision K} (c : lru K V) k k' : lru_Get (lru_Touch c k) k' = lru_Get c k';
  lru_Get_Add {K V} `{EqDecision K} (c : lru K V) k v : lru_Get (lru_Add c k v) k = Some v;
  lru_Get_Add_ne {K V} `{EqDecision K} (c : lru K V) k v k' :
    k ≠ k' → lru_Get (lru_Add c k v) k' = lru_Get c k' ∨ lru_Get (lru_Add c k v) k' = None;
  lru_Get_Modify {K V} `{EqDecision K} (c : lru K V) k f k' :
    lru_Get (lru_Modify c k f) k' = if decide (k' = k) then f <$> lru_Get c k else lru_Get c k';
  lru_Get_Remove {K V} `{EqDecision K} (c : lru K V) k k' :
    lru_Get (lru_Remove c k) k' = if decide (k' = k) then None else lru_Get c k';
  lru_Len_spec {K V} `{EqDecision K} (c : lru K V) :
    lru_Len c = 0 ↔ ∀ k, lru_Get c k = None
}.

(** [Purge] leaves a cache that is as good as new. *)
Definition lru_Purge `{LruLib} {K V} `{EqDecision K} (_ : lru K V) : lru K V := lru_New.

(** ** [types.Address], hashes and encodings *)

(** An address is its twenty bytes; [String] is injective. *)
Class AddressLib := {
  addr_String : string → string;
  addr_String_inj a b : addr_String a = addr_String b → a = b
}.

(** The hash functions; nothing about them is assumed. *)
Class HashLib := {
  Keccak256 : string → string;
  Sha256 : string → string
}.

(** The fields of [ledger.InnerAccount] that the ledger uses. *)
Record InnerAccount := MkInner { ia_Nonce : Z; ia_Balance : Z; ia_CodeHash : option string }.

Global Instance InnerAccount_eq_dec : EqDecision InnerAccount.
Proof. solve_decision. Defined.

Definition emptyInner : InnerAccount := MkInner 0 0 None.

Global Program Instance InnerAccount_countable : Countable InnerAccount :=
  inj_countable' (λ a, (ia_Nonce a, ia_Balance a, ia_CodeHash a)) (λ '(n, b, c), MkInner n b c) _.
Next Obligation. by intros []. Qed.

Class InnerAccountLib := {
  ia_codec :: Codec InnerAccount;
  CopyOrNewIfEmpty : option InnerAccount → InnerAccount;
  InnerAccountChanged : option InnerAccount → option InnerAccount → bool;

  CopyOrNewIfEmpty_spec o : CopyOrNewIfEmpty o = default emptyInner o;
  (** nothing has changed when there is no new record, or when it has the fields of
  the old one *)
  InnerAccountChanged_spec o d :
    InnerAccountChanged o d = false ↔
      match d with
      | None => True
      | Some d => ∃ o', o = Some o' ∧ ia_Nonce o' = ia_Nonce d ∧ ia_Balance o' = ia_Balance d ∧
                        bytes_Equal (ia_CodeHash o') (ia_CodeHash d) = true
      end
}.

Section storage_facts.
Context `{StorageLib}.

(** What a batch writes to a key. *)
Definition batch_lookup (b : batch) (k : string) : option (option string) :=
  foldl (λ r '(k', v), if decide (k = k') then Some v else r) None b.

Lemma batch_lookup_snoc b k' v k :
  batch_lookup (b ++ [(k', v)]) k = if decide (k = k') then Some v else batch_lookup b k.
Proof. unfold batch_lookup. by rewrite foldl_app. Qed.

Lemma st_Get_Commit s b k : st_Get (st_Commit s b) k = default (st_Get s k) (batch_lookup b k).
Proof.
  induction b as [|[k' v] b IH] using rev_ind; [apply st_Get_nil|].
  rewrite st_Get_snoc, batch_lookup_snoc, IH. by case_decide.
Qed.

Lemma batch_lookup_app b1 b2 k :
  batch_lookup (b1 ++ b2) k = match batch_lookup b2 k with Some v => Some v | None => batch_lookup b1 k end.
Proof.
  induction b2 as [|[k' v] b2 IH] using rev_ind; [by rewrite app_nil_r|].
  rewrite (assoc_L (++)), !batch_lookup_snoc, IH. by case_decide.
Qed.

Lemma batch_lookup_None b k : (∀ v, (k, v) ∉ b) → batch_lookup b k = None.
Proof.
  induction b as [|[k' v] b IH] using rev_ind; [done|]. intros Hno. rewrite batch_lookup_snoc.
  rewrite decide_False by (intros ->; apply (Hno v); set_solver). apply IH. set_solver.
Qed.

Lemma batch_lookup_Some b k v : batch_lookup b k = Some v → (k, v) ∈ b.
Proof.
  induction b as [|[k' v'] b IH] using rev_ind; [done|]. rewrite batch_lookup_snoc.
  case_decide; [|set_solver]. intros [= ->]. subst. set_solver.
Qed.

(** A batch that writes each key at most once. *)
Lemma batch_lookup_NoDup b k v : NoDup b.*1 → (k, v) ∈ b → batch_lookup b k = Some v.
Proof.
  induction b as [|[k' v'] b IH] using rev_ind; [set_solver|]. intros Hnd Hin.
  rewrite fmap_app in Hnd. apply NoDup_app in Hnd as (Hnd & Hni & _). rewrite batch_lookup_snoc.
  apply elem_of_app in Hin as [Hin|Hin].
  - rewrite decide_False; [by apply IH|]. intros ->. apply (Hni k'); [|set_solver].
    apply list_elem_of_fmap. by exists (k', v).
  - apply list_elem_of_singleton in Hin as [= -> ->]. by rewrite decide_True.
Qed.
End storage_facts.

(** ** Instances for the witnesses *)

Definition batch_apply (m : gmap string string) (b : batch) : gmap string string :=
  foldl (λ m '(k, v), match v with Some x => <[k := x]> m | None => delete k m end) m b.

(** Strings as items of an ordered index. *)
Definition string_Less : Item string := String.ltb.

Lemma string_ItemOk : @ItemOk string string_Less.
Proof.
  split; unfold Less, string_Less.
  - apply string_ltb_irrefl.
  - apply string_ltb_trans.
  - apply string_ltb_total.
Qed.

Definition map_iterator (m : gmap string string) (lo : string) (hi : option string) : list (string * string) :=
  omap (λ k, pair k <$> m !! k)
    (filter (λ k, String.leb lo k = true ∧ below hi k)
       (@sorted_items string string_Less (map_to_list m).*1)).

Lemma map_iterator_keys m (l : list string) :
  (omap (λ k, pair k <$> m !! k) l).*1 = filter (λ k, is_Some ((m : gmap string string) !! k)) l.
Proof.
  induction l as [|k l IH]; [done|]. rewrite filter_cons. csimpl.
  destruct (m !! k) eqn:E; csimpl; by rewrite IH.
Qed.

Lemma batch_apply_lookup m b k v k' :
  batch_apply m (b ++ [(k, v)]) !! k' = if decide (k' = k) then v else batch_apply m b !! k'.
Proof.
  unfold batch_apply. rewrite foldl_app. simpl. destruct v as [x|].
  - rewrite lookup_insert. destruct (decide (k' = k)) as [->|]; [by rewrite decide_True|].
    by rewrite decide_False.
  - rewrite lookup_delete. destruct (decide (k' = k)) as [->|]; [by rewrite decide_True|].
    by rewrite decide_False.
Qed.

Definition storage_by_map : StorageLib.
Proof.
  refine {|
    storage := gmap string string;
    st_Get s k := s !! k;
    st_Commit := batch_apply;
    st_Iterator := map_iterator
  |}.
  - done.
  - apply batch_apply_lookup.
  - intros s lo hi k v. unfold map_iterator. rewrite list_elem_of_omap.
    setoid_rewrite list_elem_of_filter. setoid_rewrite fmap_Some.
    setoid_rewrite (@elem_of_sorted_items string string_Less string_ItemOk). split.
    + intros (k' & [[??] _] & v' & ? & ?). simplify_eq. done.
    + intros (Hk & ? & ?). exists k. split_and!; [done|done| |].
      * apply list_elem_of_fmap. exists (k, v). split; [done|]. by apply elem_of_map_to_list.
      * by exists v.
  - intros s lo hi. unfold map_iterator. rewrite map_iterator_keys.
    do 2 apply StronglySorted_filter. apply (@sorted_items_sorted string string_Less string_ItemOk).
Defined.

(** A cache that never has to forget. *)
Fixpoint alist_get {K V} `{EqDecision K} (l : list (K * V)) (k : K) : option V :=
  match l with
  | [] => None
  | (k', v) :: l => if decide (k = k') then Some v else alist_get l k
  end.

Definition alist_remove {K V} `{EqDecision K} (l : list (K * V)) (k : K) : list (K * V) :=
  filter (λ p, p.1 ≠ k) l.

Lemma alist_get_remove {K V} `{EqDecision K} (l : list (K * V)) k k' :
  alist_get (alist_remove l k) k' = if decide (k' = k) then None else alist_get l k'.
Proof.
  unfold alist_remove. induction l as [|[k1 v] l IH]; [by case_decide|].
  rewrite filter_cons. cbn [fst alist_get].
  destruct (decide (k1 ≠ k)) as [Hne|Heq%dec_stable].
  - cbn [alist_get]. rewrite IH. destruct (decide (k' = k1)) as [->|]; [|done].
    by rewrite decide_False.
  - subst. rewrite IH. destruct (decide (k' = k)); [done|]. done.
Qed.

Definition lru_by_list : LruLib.
Proof.
  refine {|
    lru K V := list (K * V);
    lru_New K V _ := [];
    lru_Get K V _ c k := alist_get c k;
    lru_Touch K V _ c k := c;
    lru_Add K V _ c k v := (k, v) :: c;
    lru_Modify K V _ c k f :=
      match alist_get c k with Some v => (k, f v) :: c | None => c end;
    lru_Remove K V _ c k := alist_remove c k;
    lru_Len K V _ c := length c
  |}; try done; intros K V EK c.
  - intros k v. simpl. by rewrite decide_True.
  - intros k v k' Hne. left. simpl. by rewrite decide_False.
  - intros k f k'. destruct (alist_get c k) as [v|] eqn:E; simpl.
    + destruct (decide (k' = k)); [done|done].
    + destruct (decide (k' = k)) as [->|]; [by rewrite E|done].
  - intros k k'. apply alist_get_remove.
  - destruct c as [|[k v] c]; [done|]. split; [done|]. intros Hn. specialize (Hn k). simpl in Hn.
    by rewrite decide_True in Hn.
Defined.

Definition inner_changed (o d : option InnerAccount) : bool :=
  match d with
  | None => false
  | Some d =>
      match o with
      | None => true
      | Some o => negb (bool_decide (ia_Nonce o = ia_Nonce d) && bool_decide (ia_Balance o = ia_Balance d)
                        && bytes_Equal (ia_CodeHash o) (ia_CodeHash d))
      end
  end.

Definition inner_by_encode : InnerAccountLib.
Proof.
  refine {|
    ia_codec := codec_by_encode InnerAccount;
    CopyOrNewIfEmpty o := default emptyInner o;
    InnerAccountChanged := inner_changed
  |}; [done|].
  intros o [d|]; simpl; [|done]. destruct o as [o|]; simpl.
  - rewrite negb_false_iff, !andb_true_iff, !bool_decide_eq_true. naive_solver.
  - naive_solver.
Defined.

(** Addresses print as themselves, hashes are left in clear. *)
Definition address_plain : AddressLib :=
  {| addr_String a := a; addr_String_inj a b H := H |}.

Definition hash_plain : HashLib := {| Keccak256 s := s; Sha256 s := s |}.
