(* ===== verification/Account.v ===== *)
(** * Accounts: [src/internal/ledger/account.go], [account_cache.go], [key.go] and the
change log of [state_changer.go]

An account reads through four layers: the state written in the current block
([dirtyState]), the values already read ([originState]), the cache shared by all
accounts, and the store. It logs its changes in the [stateChanger] it was created
with; change logs are shared objects, so they live in a heap and an account holds
a pointer. [shared] is everything an account reaches through pointers. *)
From Stdlib Require Import Ascii.
From S2P Require Import Prelude Btree Storage.

(** ** Keys of the store ([key.go]) *)

Definition accountKey : string := "account-".
Definition codeKey : string := "code-".
Definition journalKey : string := "journal-".

(** [compositeKey] for a value that prints as [v]. *)
Definition compositeKey (prefix v : string) : string := prefix +:+ v.

(** Addresses are their bytes. *)
Definition composeStateKey (addr key : string) : string := addr +:+ key.

(** [(&types.Hash{}).Bytes()] *)
Definition zeroHash : string := String.concat EmptyString (replicate 32 (String "000"%char EmptyString)).

(** [sort.Strings] *)
Definition sort_Strings (l : list string) : list string := merge_sort String.le l.

(** ** The change log ([state_changer.go]) *)

Inductive stateChange :=
| createObjectChange (account : string)
| suicideChange (account : string) (prev : bool) (prevBalance : Z)
| balanceChange (account : string) (prev : Z)
| nonceChange (account : string) (prev : Z)
| storageChange (account key : string) (prevalue : option string)
| codeChange (account : string) (prevcode : option string)
| refundChange (prev : Z)
| addLogChange (txHash : string)
| addPreimageChange (hash : string)
| accessListAddAccountChange (address : string)
| accessListAddSlotChange (address slot : string).

(** The methods [dirtied] of the changes. *)
Definition dirtied (ch : stateChange) : option string :=
  match ch with
  | createObjectChange a | suicideChange a _ _ | balanceChange a _ | nonceChange a _
  | storageChange a _ _ | codeChange a _ => Some a
  | refundChange _ | addLogChange _ | addPreimageChange _ | accessListAddAccountChange _
  | accessListAddSlotChange _ _ => None
  end.

Record stateChanger := StateChanger { changes : list stateChange; dirties : gmap string Z }.

Definition newChanger : stateChanger := StateChanger [] ∅.

Definition changer_dirty (s : stateChanger) (addr : string) : stateChanger :=
  StateChanger (changes s) (<[addr := default 0 (dirties s !! addr) + 1]> (dirties s))%Z.

Definition changer_append (s : stateChanger) (ch : stateChange) : stateChanger :=
  let s := StateChanger (changes s ++ [ch]) (dirties s) in
  match dirtied ch with Some a => changer_dirty s a | None => s end.

Definition changer_length (s : stateChanger) : nat := length (changes s).

Definition changer_ptr := nat.

(** ** The account cache ([account_cache.go]) *)

Record AccountCache `{LruLib} := MkAccountCache {
  innerAccountCache : lru string InnerAccount;
  stateCache : lru string (lru string (option string));
  codeCache : lru string (option string) }.

Record shared `{StorageLib, LruLib} := MkShared {
  sh_ldb : storage;
  sh_cache : AccountCache;
  sh_changers : gmap changer_ptr stateChanger }.

(** ** Accounts *)

Record SimpleAccount := MkSimpleAccount {
  Addr : string;
  originAccount : option InnerAccount;
  dirtyAccount : option InnerAccount;
  originState : gmap string (option string);
  dirtyState : gmap string (option string);
  originCode : option string;
  dirtyCode : option string;
  dirtyStateHash : option string;
  acc_changer : changer_ptr;
  suicided : bool }.

Definition newAccount (addr : string) (changer : changer_ptr) : SimpleAccount :=
  MkSimpleAccount addr None None ∅ ∅ None None None changer false.

Definition with_originAccount (o : SimpleAccount) v :=
  MkSimpleAccount (Addr o) v (dirtyAccount o) (originState o) (dirtyState o) (originCode o)
    (dirtyCode o) (dirtyStateHash o) (acc_changer o) (suicided o).
Definition with_dirtyAccount (o : SimpleAccount) v :=
  MkSimpleAccount (Addr o) (originAccount o) v (originState o) (dirtyState o) (originCode o)
    (dirtyCode o) (dirtyStateHash o) (acc_changer o) (suicided o).
Definition with_originState (o : SimpleAccount) v :=
  MkSimpleAccount (Addr o) (originAccount o) (dirtyAccount o) v (dirtyState o) (originCode o)
    (dirtyCode o) (dirtyStateHash o) (acc_changer o) (suicided o).
Definition with_dirtyState (o : SimpleAccount) v :=
  MkSimpleAccount (Addr o) (originAccount o) (dirtyAccount o) (originState o) v (originCode o)
    (dirtyCode o) (dirtyStateHash o) (acc_changer o) (suicided o).
Definition with_originCode (o : SimpleAccount) v :=
  MkSimpleAccount (Addr o) (originAccount o) (dirtyAccount o) (originState o) (dirtyState o) v
    (dirtyCode o) (dirtyStateHash o) (acc_changer o) (suicided o).
Definition with_dirtyCode (o : SimpleAccount) v :=
  MkSimpleAccount (Addr o) (originAccount o) (dirtyAccount o) (originState o) (dirtyState o)
    (originCode o) v (dirtyStateHash o) (acc_changer o) (suicided o).
Definition with_dirtyStateHash (o : SimpleAccount) v :=
  MkSimpleAccount (Addr o) (originAccount o) (dirtyAccount o) (originState o) (dirtyState o)
    (originCode o) (dirtyCode o) v (acc_changer o) (suicided o).
Definition SetSuicided (o : SimpleAccount) v :=
  MkSimpleAccount (Addr o) (originAccount o) (dirtyAccount o) (originState o) (dirtyState o)
    (originCode o) (dirtyCode o) (dirtyStateHash o) (acc_changer o) v.

Definition Suicided (o : SimpleAccount) : bool := false.

(** An entry of the journal of a block ([block_journal.go]). *)
Record blockJournalEntry := MkJournalEntry {
  je_Address : string;
  je_PrevAccount : option InnerAccount;
  je_AccountChanged : bool;
  je_PrevStates : gmap string (option string);
  je_PrevCode : option string;
  je_CodeChanged : bool }.

Section account.
Context `{StorageLib, LruLib, AddressLib, HashLib, InnerAccountLib, GoRange}.

Definition NewAccountCache : AccountCache := MkAccountCache _ lru_New lru_New lru_New.

Definition rmAccount (ac : AccountCache) (addr : string) : AccountCache :=
  MkAccountCache _ (lru_Remove (innerAccountCache ac) (addr_String addr)) (stateCache ac) (codeCache ac).

(** The lookups of the cache return what they found and the cache with its recency
lists updated. *)
Definition getInnerAccount (ac : AccountCache) (addr : string) : option InnerAccount * AccountCache :=
  (lru_Get (innerAccountCache ac) (addr_String addr),
   MkAccountCache _ (lru_Touch (innerAccountCache ac) (addr_String addr)) (stateCache ac) (codeCache ac)).

Definition cache_getState (ac : AccountCache) (addr key : string) : option bytes * AccountCache :=
  let touched := lru_Touch (stateCache ac) (addr_String addr) in
  match lru_Get (stateCache ac) (addr_String addr) with
  | Some inner =>
      (lru_Get inner key,
       MkAccountCache _ (innerAccountCache ac)
         (lru_Modify touched (addr_String addr) (λ c, lru_Touch c key)) (codeCache ac))
  | None => (None, MkAccountCache _ (innerAccountCache ac) touched (codeCache ac))
  end.

Definition cache_getCode (ac : AccountCache) (addr : string) : option bytes * AccountCache :=
  (lru_Get (codeCache ac) (addr_String addr),
   MkAccountCache _ (innerAccountCache ac) (stateCache ac) (lru_Touch (codeCache ac) (addr_String addr))).

Definition cache_clear (ac : AccountCache) : AccountCache :=
  MkAccountCache _ (lru_Purge (innerAccountCache ac)) (lru_Purge (stateCache ac)) (lru_Purge (codeCache ac)).

(** The body of the loop of [add] for one account, filed under [addr]. *)
Definition cache_addAccount (ac : AccountCache) (entry : string * SimpleAccount) : AccountCache :=
  let '(addr, account) := entry in
  let inner := match dirtyAccount account with
               | Some d => lru_Add (innerAccountCache ac) addr d
               | None => innerAccountCache ac
               end in
  let addAll c := fold_left (λ c '(key, value), lru_Add c key value) (go_range (dirtyState account)) c in
  let touched := lru_Touch (stateCache ac) addr in
  let states :=
    match lru_Get (stateCache ac) addr with
    | Some _ => lru_Modify touched addr addAll
    | None => let c := addAll lru_New in
              if decide (lru_Len c ≠ 0) then lru_Add touched addr c else touched
    end in
  let codes :=
    if negb (bytes_Equal (originCode account) (dirtyCode account))
    then match dirtyAccount account with
         | Some d =>
             match originAccount account with
             | Some o => if negb (bytes_Equal (ia_CodeHash d) (ia_CodeHash o))
                         then lru_Add (codeCache ac) addr (dirtyCode account) else codeCache ac
             | None => lru_Add (codeCache ac) addr (dirtyCode account)
             end
         | None => codeCache ac
         end
    else codeCache ac in
  MkAccountCache _ inner states codes.

Definition cache_add (ac : AccountCache) (accounts : gmap string SimpleAccount) : AccountCache :=
  fold_left cache_addAccount (go_range accounts) ac.

Definition with_cache (sh : shared) (ac : AccountCache) : shared := MkShared _ _ (sh_ldb sh) ac (sh_changers sh).
Definition with_ldb (sh : shared) (ldb : storage) : shared := MkShared _ _ ldb (sh_cache sh) (sh_changers sh).
Definition with_changers (sh : shared) v : shared := MkShared _ _ (sh_ldb sh) (sh_cache sh) v.

(** [append] to the change log that [p] points to. *)
Definition log_change (sh : shared) (p : changer_ptr) (ch : stateChange) : shared :=
  with_changers sh (alter (λ s, changer_append s ch) p (sh_changers sh)).

Implicit Types (o : SimpleAccount) (sh : shared).

Definition acc_GetState o sh (key : string) : bytes * SimpleAccount * shared :=
  match dirtyState o !! key with
  | Some value => (value, o, sh)
  | None =>
      match originState o !! key with
      | Some value => (value, o, sh)
      | None =>
          let '(r, ac) := cache_getState (sh_cache sh) (Addr o) key in
          let val := match r with
                     | Some val => val
                     | None => st_Get (sh_ldb sh) (composeStateKey (Addr o) key)
                     end in
          (val, with_originState o (<[key := val]> (originState o)), with_cache sh ac)
      end
  end.

Definition acc_GetCommittedState o sh (key : string) : bytes * SimpleAccount * shared :=
  match originState o !! key with
  | Some value => (Some zeroHash, o, sh)
  | None =>
      let '(r, ac) := cache_getState (sh_cache sh) (Addr o) key in
      let val := match r with
                 | Some val => val
                 | None => st_Get (sh_ldb sh) (composeStateKey (Addr o) key)
                 end in
      (match val with Some _ => Some zeroHash | None => None end,
       with_originState o (<[key := val]> (originState o)), with_cache sh ac)
  end.

Definition acc_setState o (key : string) (value : bytes) : SimpleAccount :=
  with_dirtyState o (<[key := value]> (dirtyState o)).

(** [changer] is the change log of the instance that the caller passes, if any. *)
Definition acc_SetState o sh (key : string) (value : bytes) (changer : option changer_ptr) :
    SimpleAccount * shared :=
  let '(prev, o, sh) := acc_GetState o sh key in
  (acc_setState o key value,
   log_change sh (default (acc_changer o) changer) (storageChange (Addr o) key prev)).

Definition acc_AddState o (key : string) (value : bytes) : SimpleAccount := acc_setState o key value.

(** The record to modify: the dirty one, a copy of the original one, or a new one. *)
Definition dirtyOrCopy o : InnerAccount :=
  default (CopyOrNewIfEmpty (originAccount o)) (dirtyAccount o).

Definition acc_CodeHash o : bytes :=
  match dirtyAccount o with
  | Some d => ia_CodeHash d
  | None => match originAccount o with Some a => ia_CodeHash a | None => None end
  end.

Definition acc_Code o sh : bytes * SimpleAccount * shared :=
  match dirtyCode o with
  | Some c => (Some c, o, sh)
  | None =>
      match originCode o with
      | Some c => (Some c, o, sh)
      | None =>
          if bytes_Equal (acc_CodeHash o) None then (None, o, sh)
          else
            let '(r, ac) := cache_getCode (sh_cache sh) (Addr o) in
            let code := match r with
                        | Some c => c
                        | None => st_Get (sh_ldb sh) (compositeKey codeKey (addr_String (Addr o)))
                        end in
            (code, with_dirtyCode (with_originCode o code) code, with_cache sh ac)
      end
  end.

Definition acc_setCodeAndHash o (code : bytes) : SimpleAccount :=
  let d := dirtyOrCopy o in
  with_dirtyCode
    (with_dirtyAccount o (Some (MkInner (ia_Nonce d) (ia_Balance d)
                                  (Some (Keccak256 (default EmptyString code)))))) code.

Definition acc_SetCodeAndHash o sh (code : bytes) : SimpleAccount * shared :=
  let '(prev, o, sh) := acc_Code o sh in
  (acc_setCodeAndHash o code, log_change sh (acc_changer o) (codeChange (Addr o) prev)).

Definition acc_GetNonce o : Z :=
  match dirtyAccount o with
  | Some d => ia_Nonce d
  | None => match originAccount o with Some a => ia_Nonce a | None => 0 end
  end.

Definition acc_setNonce o (nonce : Z) : SimpleAccount :=
  let d := dirtyOrCopy o in
  with_dirtyAccount o (Some (MkInner nonce (ia_Balance d) (ia_CodeHash d))).

Definition acc_SetNonce o sh (nonce : Z) : SimpleAccount * shared :=
  (acc_setNonce o nonce, log_change sh (acc_changer o) (nonceChange (Addr o) (acc_GetNonce o))).

Definition acc_GetBalance o : Z :=
  match dirtyAccount o with
  | Some d => ia_Balance d
  | None => match originAccount o with Some a => ia_Balance a | None => 0 end
  end.

Definition acc_setBalance o (balance : Z) : SimpleAccount :=
  let d := dirtyOrCopy o in
  with_dirtyAccount o (Some (MkInner (ia_Nonce d) balance (ia_CodeHash d))).

Definition acc_SetBalance o sh (balance : Z) : SimpleAccount * shared :=
  (acc_setBalance o balance, log_change sh (acc_changer o) (balanceChange (Addr o) (acc_GetBalance o))).

Definition acc_SubBalance o sh (amount : Z) : SimpleAccount * shared :=
  if decide (amount = 0)%Z then (o, sh) else acc_SetBalance o sh (acc_GetBalance o - amount).

Definition acc_AddBalance o sh (amount : Z) : SimpleAccount * shared :=
  if decide (amount = 0)%Z then (o, sh) else acc_SetBalance o sh (acc_GetBalance o + amount).

Definition acc_IsEmpty o sh : bool * SimpleAccount * shared :=
  if negb (bool_decide (acc_GetBalance o = 0)%Z && bool_decide (acc_GetNonce o = 0)%Z)
  then (false, o, sh)
  else let '(code, o, sh) := acc_Code o sh in (bool_decide (code = None) && negb (suicided o), o, sh).

(** ** Queries by prefix *)

(** The successor of a prefix in the order of byte strings, nil when there is none. *)
Fixpoint prefix_limit (prefix : string) : option string :=
  match prefix with
  | EmptyString => None
  | String c s =>
      match prefix_limit s with
      | Some l => Some (String c l)
      | None => if decide (nat_of_ascii c < 255) then Some (String (ascii_of_nat (S (nat_of_ascii c))) EmptyString)
                else None
      end
  end.

Definition bytesPrefix (prefix : string) : string * option string := (prefix, prefix_limit prefix).

(** [sort.Slice] with [bytes.Compare] *)
Definition bytes_le (a b : bytes) : Prop := String.le (default EmptyString a) (default EmptyString b).
Global Instance bytes_le_dec : RelDecision bytes_le.
Proof. intros a b. unfold bytes_le. apply _. Defined.

Definition acc_Query o sh (prefix : string) : bool * list bytes :=
  let '(lo, hi) := bytesPrefix (Addr o +:+ prefix) in
  let stored : gmap string bytes :=
    fold_left (λ m '(k, v), <[k := Some v]> m) (st_Iterator (sh_ldb sh) lo hi) ∅ in
  let stored :=
    fold_left (λ m '(k, v), if String.prefix prefix k then <[k := v]> m else m)
      (go_range (dirtyState o)) stored in
  let ret := merge_sort bytes_le (go_range stored).*2 in
  (bool_decide (length ret ≠ 0), ret).

(** ** The journal of an account *)

(** The states that the block changed, with their values before it. *)
Definition prevStates_of o : gmap string bytes :=
  map_imap (λ key value,
      let origVal := default None (originState o !! key) in
      if bytes_Equal origVal value then None else Some origVal) (dirtyState o).

Definition getStateJournalAndComputeHash o : gmap string bytes * SimpleAccount :=
  let prevStates := prevStates_of o in
  let dirtyStateData :=
    foldl (λ data key, data +:+ key +:+ default EmptyString (default None (dirtyState o !! key)))
      EmptyString (sort_Strings (go_keys prevStates)) in
  (prevStates, with_dirtyStateHash o (Some (Sha256 dirtyStateData))).

Definition getJournalIfModified o (ldb : storage) : option blockJournalEntry * SimpleAccount :=
  let accountChanged := InnerAccountChanged (originAccount o) (dirtyAccount o) in
  let o :=
    match originCode o, originAccount o with
    | None, Some a => match ia_CodeHash a with
                      | Some _ => with_originCode o (st_Get ldb (compositeKey codeKey (addr_String (Addr o))))
                      | None => o
                      end
    | _, _ => o
    end in
  let codeChanged := negb (bytes_Equal (originCode o) (dirtyCode o)) in
  let '(prevStates, o) := getStateJournalAndComputeHash o in
  if accountChanged || codeChanged || bool_decide (size prevStates ≠ 0)
  then (Some (MkJournalEntry (Addr o)
                (if accountChanged then originAccount o else None) accountChanged prevStates
                (if codeChanged then originCode o else None) codeChanged), o)
  else (None, o).

(** [None] is the panic on a record that cannot be encoded. *)
Definition getDirtyData o : option string :=
  data ← match dirtyAccount o with Some d => marshal d | None => Some EmptyString end;
  Some (Addr o +:+ data +:+ default EmptyString (dirtyStateHash o)).
End account.
