(* ===== verification/StateLedger.v ===== *)
(** * The state ledger: [src/internal/ledger/state_accessor.go], [state_changer.go],
[block_journal.go], [simple_ledger.go] and [evmstate_accessor.go]

[SimpleLedger] keeps the accounts touched in the current block, a log of changes
that can be reverted, and a journal per block with which committed blocks can be
rolled back. Every operation is a computation in [LM], the state monad of the
ledger in which a panic of the Go code is [None]. *)
From Stdlib Require Import Ascii.
From S2P Require Import Prelude Btree Storage Account.

(** ** State *)

(** [eth-kit]'s access list. The deletions are meant for the change log and undo the
additions when they are performed in the opposite order. *)
Class AccessListLib := {
  AccessList : Type;
  NewAccessList : AccessList;
  al_AddAddress : AccessList → string → bool * AccessList;
  al_AddSlot : AccessList → string → string → bool * bool * AccessList;
  al_DeleteAddress : AccessList → string → AccessList;
  al_DeleteSlot : AccessList → string → string → AccessList;
  al_ContainsAddress : AccessList → string → bool;
  al_Contains : AccessList → string → string → bool * bool;

  (** the flags tell whether something was added; nothing changes when they are false *)
  al_AddAddress_new al a al' : al_AddAddress al a = (true, al') → al_DeleteAddress al' a = al;
  al_AddAddress_old al a al' : al_AddAddress al a = (false, al') → al' = al;
  al_AddSlot_new al a s addrMod al' :
    al_AddSlot al a s = (addrMod, true, al') →
    (if addrMod : bool then al_DeleteAddress (al_DeleteSlot al' a s) a else al_DeleteSlot al' a s) = al;
  al_AddSlot_old al a s addrMod al' : al_AddSlot al a s = (addrMod, false, al') → addrMod = false ∧ al' = al
}.

(** The access list that the witnesses use: addresses and slots as sets. *)
Definition access_by_sets : AccessListLib.
Proof.
  refine {|
    AccessList := gset string * gset (string * string);
    NewAccessList := (∅, ∅);
    al_AddAddress al a :=
      if decide (a ∈ al.1) then (false, al) else (true, (al.1 ∪ {[a]}, al.2));
    al_AddSlot al a s :=
      if decide ((a, s) ∈ al.2) then (false, false, al)
      else (bool_decide (a ∉ al.1), true, (al.1 ∪ {[a]}, al.2 ∪ {[(a, s)]}));
    al_DeleteAddress al a := (al.1 ∖ {[a]}, al.2);
    al_DeleteSlot al a s := (al.1, al.2 ∖ {[(a, s)]});
    al_ContainsAddress al a := bool_decide (a ∈ al.1);
    al_Contains al a s := (bool_decide (a ∈ al.1), bool_decide ((a, s) ∈ al.2))
  |}.
  - intros [as_ ss] a al'. simpl. case_decide; [done|]. intros [= <-]. simpl. f_equal. set_solver.
  - intros al a al'. by case_decide; intros [= <-].
  - intros [as_ ss] a s m al'. simpl. case_decide; [done|]. intros [= <- <-].
    case_bool_decide; simpl; f_equal; set_solver.
  - intros al a s m al'. by case_decide; intros [= <- <-].
Defined.

Record revision := MkRevision { rev_id : Z; rev_changerIndex : nat }.

Record ChangeInstance := MkChangeInstance {
  ci_changer : changer_ptr;
  ci_validRevisions : list revision;
  ci_nextRevisionId : Z }.

(** [pb.Event] and [pb.EvmLog] *)
Record Event := MkEvent { ev_type : Z; ev_data : string; ev_TxHash : option string }.

Record EvmLog := MkEvmLog {
  el_address : string; el_topics : list string; el_data : string;
  el_txHash : option string; el_txIndex : Z; el_blockHash : option string; el_index : Z }.

Record evmLogs := MkEvmLogs {
  el_logs : gmap string (list EvmLog); el_logSize : Z;
  el_thash : option string; el_bhash : option string; el_txIdx : Z }.

Definition NewEvmLogs : evmLogs := MkEvmLogs ∅ 0 None None 0.

Record BlockJournal := MkBlockJournal {
  bj_Journals : list blockJournalEntry; bj_ChangedHash : string }.

Record SimpleLedger `{StorageLib, LruLib, AccessListLib} := MkSimpleLedger {
  l_shared : shared;
  minJnlHeight : Z;
  maxJnlHeight : Z;
  l_events : gmap string (list Event);
  accounts : gmap string SimpleAccount;
  blockJournals : gmap string BlockJournal;
  prevJnlHash : string;
  l_blockHeight : Z;
  validRevisions : list revision;
  nextRevisionId : Z;
  l_changer : changer_ptr;
  (** the next change log to allocate *)
  l_fresh : changer_ptr;
  accessList : AccessList;
  preimages : gmap string string;
  refund : Z;
  logs : evmLogs }.

Section ledger.
Context `{StorageLib, LruLib, AddressLib, HashLib, InnerAccountLib, GoRange, AccessListLib}.

Definition LM (A : Type) : Type := SimpleLedger → option (A * SimpleLedger).

Global Instance LM_ret : MRet LM := λ A a l, Some (a, l).
Global Instance LM_bind : MBind LM := λ A B f m l,
  match m l with Some (a, l') => f a l' | None => None end.

Definition lm_get {A} (f : SimpleLedger → A) : LM A := λ l, Some (f l, l).
Definition lm_modify (f : SimpleLedger → SimpleLedger) : LM () := λ l, Some (tt, f l).
Definition lm_state {A} (f : SimpleLedger → A * SimpleLedger) : LM A := λ l, Some (f l).
Definition lm_panic {A} : LM A := λ _, None.
Definition lm_when (b : bool) (m : LM ()) : LM () := if b then m else mret tt.

Fixpoint lm_iter {A} (f : A → LM ()) (l : list A) : LM () :=
  match l with
  | [] => mret tt
  | x :: l => _ ← f x; lm_iter f l
  end.

(** Field updates. *)
Definition set_shared v (l : SimpleLedger) : SimpleLedger :=
  MkSimpleLedger _ _ _ v (minJnlHeight l) (maxJnlHeight l) (l_events l) (accounts l) (blockJournals l)
    (prevJnlHash l) (l_blockHeight l) (validRevisions l) (nextRevisionId l) (l_changer l) (l_fresh l)
    (accessList l) (preimages l) (refund l) (logs l).
Definition set_heights lo hi (l : SimpleLedger) : SimpleLedger :=
  MkSimpleLedger _ _ _ (l_shared l) lo hi (l_events l) (accounts l) (blockJournals l)
    (prevJnlHash l) (l_blockHeight l) (validRevisions l) (nextRevisionId l) (l_changer l) (l_fresh l)
    (accessList l) (preimages l) (refund l) (logs l).
Definition set_events v (l : SimpleLedger) : SimpleLedger :=
  MkSimpleLedger _ _ _ (l_shared l) (minJnlHeight l) (maxJnlHeight l) v (accounts l) (blockJournals l)
    (prevJnlHash l) (l_blockHeight l) (validRevisions l) (nextRevisionId l) (l_changer l) (l_fresh l)
    (accessList l) (preimages l) (refund l) (logs l).
Definition set_accounts v (l : SimpleLedger) : SimpleLedger :=
  MkSimpleLedger _ _ _ (l_shared l) (minJnlHeight l) (maxJnlHeight l) (l_events l) v (blockJournals l)
    (prevJnlHash l) (l_blockHeight l) (validRevisions l) (nextRevisionId l) (l_changer l) (l_fresh l)
    (accessList l) (preimages l) (refund l) (logs l).
Definition set_journals v (l : SimpleLedger) : SimpleLedger :=
  MkSimpleLedger _ _ _ (l_shared l) (minJnlHeight l) (maxJnlHeight l) (l_events l) (accounts l) v
    (prevJnlHash l) (l_blockHeight l) (validRevisions l) (nextRevisionId l) (l_changer l) (l_fresh l)
    (accessList l) (preimages l) (refund l) (logs l).
Definition set_prevJnlHash v (l : SimpleLedger) : SimpleLedger :=
  MkSimpleLedger _ _ _ (l_shared l) (minJnlHeight l) (maxJnlHeight l) (l_events l) (accounts l) (blockJournals l)
    v (l_blockHeight l) (validRevisions l) (nextRevisionId l) (l_changer l) (l_fresh l)
    (accessList l) (preimages l) (refund l) (logs l).
Definition set_blockHeight v (l : SimpleLedger) : SimpleLedger :=
  MkSimpleLedger _ _ _ (l_shared l) (minJnlHeight l) (maxJnlHeight l) (l_events l) (accounts l) (blockJournals l)
    (prevJnlHash l) v (validRevisions l) (nextRevisionId l) (l_changer l) (l_fresh l)
    (accessList l) (preimages l) (refund l) (logs l).
Definition set_revisions rs id (l : SimpleLedger) : SimpleLedger :=
  MkSimpleLedger _ _ _ (l_shared l) (minJnlHeight l) (maxJnlHeight l) (l_events l) (accounts l) (blockJournals l)
    (prevJnlHash l) (l_blockHeight l) rs id (l_changer l) (l_fresh l)
    (accessList l) (preimages l) (refund l) (logs l).
Definition set_changer v (l : SimpleLedger) : SimpleLedger :=
  MkSimpleLedger _ _ _ (l_shared l) (minJnlHeight l) (maxJnlHeight l) (l_events l) (accounts l) (blockJournals l)
    (prevJnlHash l) (l_blockHeight l) (validRevisions l) (nextRevisionId l) v (l_fresh l)
    (accessList l) (preimages l) (refund l) (logs l).
Definition set_accessList v (l : SimpleLedger) : SimpleLedger :=
  MkSimpleLedger _ _ _ (l_shared l) (minJnlHeight l) (maxJnlHeight l) (l_events l) (accounts l) (blockJournals l)
    (prevJnlHash l) (l_blockHeight l) (validRevisions l) (nextRevisionId l) (l_changer l) (l_fresh l)
    v (preimages l) (refund l) (logs l).
Definition set_preimages v (l : SimpleLedger) : SimpleLedger :=
  MkSimpleLedger _ _ _ (l_shared l) (minJnlHeight l) (maxJnlHeight l) (l_events l) (accounts l) (blockJournals l)
    (prevJnlHash l) (l_blockHeight l) (validRevisions l) (nextRevisionId l) (l_changer l) (l_fresh l)
    (accessList l) v (refund l) (logs l).
Definition set_refund v (l : SimpleLedger) : SimpleLedger :=
  MkSimpleLedger _ _ _ (l_shared l) (minJnlHeight l) (maxJnlHeight l) (l_events l) (accounts l) (blockJournals l)
    (prevJnlHash l) (l_blockHeight l) (validRevisions l) (nextRevisionId l) (l_changer l) (l_fresh l)
    (accessList l) (preimages l) v (logs l).
Definition set_logs v (l : SimpleLedger) : SimpleLedger :=
  MkSimpleLedger _ _ _ (l_shared l) (minJnlHeight l) (maxJnlHeight l) (l_events l) (accounts l) (blockJournals l)
    (prevJnlHash l) (l_blockHeight l) (validRevisions l) (nextRevisionId l) (l_changer l) (l_fresh l)
    (accessList l) (preimages l) (refund l) v.

(** [l.changer.append] *)
Definition log_ledger (ch : stateChange) : LM () :=
  lm_modify (λ l, set_shared (log_change (l_shared l) (l_changer l) ch) l).

(** [newChanger()], as an object of its own. *)
Definition alloc_changer : LM changer_ptr := λ l,
  let p := l_fresh l in
  Some (p, MkSimpleLedger _ _ _
    (with_changers (l_shared l) (<[p := newChanger]> (sh_changers (l_shared l))))
    (minJnlHeight l) (maxJnlHeight l) (l_events l) (accounts l) (blockJournals l)
    (prevJnlHash l) (l_blockHeight l) (validRevisions l) (nextRevisionId l) (l_changer l) (S p)
    (accessList l) (preimages l) (refund l) (logs l)).

Definition ldb_Get (key : string) : LM bytes := lm_get (λ l, st_Get (sh_ldb (l_shared l)) key).

(** A lookup in the account cache. *)
Definition cached {A} (f : AccountCache → A * AccountCache) : LM A :=
  lm_state (λ l, let '(a, ac) := f (sh_cache (l_shared l)) in
                 (a, set_shared (with_cache (l_shared l) ac) l)).

Definition store_account (account : SimpleAccount) : LM () :=
  lm_modify (λ l, set_accounts (<[addr_String (Addr account) := account]> (accounts l)) l).

(** ** Accounts *)

Definition GetAccount (address : string) : LM (option SimpleAccount) :=
  value ← lm_get (λ l, accounts l !! addr_String address);
  match value with
  | Some account => mret (Some account)
  | None =>
      changer ← lm_get l_changer;
      let account := newAccount address changer in
      innerAccount ← cached (λ ac, getInnerAccount ac address);
      match innerAccount with
      | Some inner =>
          let account := with_originAccount account (Some inner) in
          account ← (if bytes_Equal (ia_CodeHash inner) None then mret account
                     else
                       okCode ← cached (λ ac, cache_getCode ac address);
                       code ← match okCode with
                              | Some code => mret code
                              | None => ldb_Get (compositeKey codeKey (addr_String address))
                              end;
                       mret (with_dirtyCode (with_originCode account code) code));
          _ ← store_account account;
          mret (Some account)
      | None =>
          data ← ldb_Get (compositeKey accountKey (addr_String address));
          match data with
          | None => mret None
          | Some data =>
              match unmarshal data with
              | None => lm_panic
              | Some inner =>
                  let account := with_originAccount account (Some inner) in
                  account ← (if bytes_Equal (ia_CodeHash inner) None then mret account
                             else
                               code ← ldb_Get (compositeKey codeKey (addr_String address));
                               mret (with_dirtyCode (with_originCode account code) code));
                  _ ← store_account account;
                  mret (Some account)
              end
          end
      end
  end.

Definition GetOrCreateAccount (addr : string) : LM SimpleAccount :=
  account ← GetAccount addr;
  match account with
  | Some account => mret account
  | None =>
      changer ← lm_get l_changer;
      let account := newAccount addr changer in
      _ ← log_ledger (createObjectChange addr);
      _ ← store_account account;
      mret account
  end.

(** Runs a method of the account of [addr]. *)
Definition on_account {A} (addr : string) (f : SimpleAccount → shared → A * SimpleAccount * shared) : LM A :=
  account ← GetOrCreateAccount addr;
  lm_state (λ l,
    let '(r, account, sh) := f account (l_shared l) in
    (r, set_accounts (<[addr_String addr := account]> (accounts l)) (set_shared sh l))).

Definition no_result (r : SimpleAccount * shared) : () * SimpleAccount * shared := (tt, r.1, r.2).

Definition GetBalance (addr : string) : LM Z := on_account addr (λ o sh, (acc_GetBalance o, o, sh)).
Definition SetBalance (addr : string) (value : Z) : LM () :=
  on_account addr (λ o sh, no_result (acc_SetBalance o sh value)).
Definition SubBalance (addr : string) (value : Z) : LM () :=
  on_account addr (λ o sh,
    let '(empty, o, sh) := acc_IsEmpty o sh in
    if empty then (tt, o, sh) else no_result (acc_SubBalance o sh value)).
Definition AddBalance (addr : string) (value : Z) : LM () :=
  on_account addr (λ o sh, no_result (acc_AddBalance o sh value)).
Definition GetState (addr key : string) : LM bytes := on_account addr (λ o sh, acc_GetState o sh key).
Definition GetCommittedState (addr key : string) : LM bytes :=
  on_account addr (λ o sh,
    let '(empty, o, sh) := acc_IsEmpty o sh in
    if empty then (Some zeroHash, o, sh) else acc_GetCommittedState o sh key).
Definition SetState (addr key : string) (v : bytes) (changer : option changer_ptr) : LM () :=
  on_account addr (λ o sh, no_result (acc_SetState o sh key v changer)).
Definition AddState (addr key : string) (v : bytes) : LM () :=
  on_account addr (λ o sh, (tt, acc_AddState o key v, sh)).
Definition SetCode (addr : string) (code : bytes) : LM () :=
  on_account addr (λ o sh, no_result (acc_SetCodeAndHash o sh code)).
Definition GetCode (addr : string) : LM bytes := on_account addr (λ o sh, acc_Code o sh).
(** [CodeHash] of the account that [GetOrCreateAccount] returns. *)
Definition account_CodeHash (addr : string) : LM bytes := on_account addr (λ o sh, (acc_CodeHash o, o, sh)).
Definition GetCodeHash (addr : string) : LM bytes :=
  on_account addr (λ o sh,
    let '(empty, o, sh) := acc_IsEmpty o sh in
    if empty then (Some zeroHash, o, sh) else (acc_CodeHash o, o, sh)).
Definition GetCodeSize (addr : string) : LM Z :=
  on_account addr (λ o sh,
    let '(empty, o, sh) := acc_IsEmpty o sh in
    if empty then (0%Z, o, sh)
    else let '(code, o, sh) := acc_Code o sh in
         (match code with Some c => Z.of_nat (String.length c) | None => 0%Z end, o, sh)).
Definition GetNonce (addr : string) : LM Z := on_account addr (λ o sh, (acc_GetNonce o, o, sh)).
Definition SetNonce (addr : string) (nonce : Z) : LM () :=
  on_account addr (λ o sh, no_result (acc_SetNonce o sh nonce)).
Definition QueryByPrefix (addr prefix : string) : LM (bool * list bytes) :=
  on_account addr (λ o sh, (acc_Query o sh prefix, o, sh)).
Definition Empty (addr : string) : LM bool := on_account addr acc_IsEmpty.
Definition Exist (addr : string) : LM bool := b ← Empty addr; mret (negb b).

Definition Suiside (addr : string) : LM bool :=
  account ← GetAccount addr;
  match account with
  | None => lm_panic
  | Some account =>
      _ ← log_ledger (suicideChange addr (Suicided account) (acc_GetBalance account));
      _ ← on_account addr (λ o sh, no_result (acc_SetBalance (SetSuicided o true) sh 0));
      mret true
  end.

Definition HasSuiside (addr : string) : LM bool :=
  on_account addr (λ o sh,
    let '(empty, o, sh) := acc_IsEmpty o sh in (if empty then false else Suicided o, o, sh)).

(** ** Refunds, logs, preimages, access list, events *)

Definition AddRefund (gas : Z) : LM () :=
  r ← lm_get refund;
  _ ← log_ledger (refundChange r);
  lm_modify (set_refund (r +u gas)).

Definition SubRefund (gas : Z) : LM () :=
  r ← lm_get refund;
  _ ← log_ledger (refundChange r);
  if decide (r < gas)%Z then lm_panic else lm_modify (set_refund (r - gas)).

Definition GetRefund : LM Z := lm_get refund.

Definition AddAddressToAccessList (addr : string) : LM () :=
  al ← lm_get accessList;
  let '(added, al) := al_AddAddress al addr in
  _ ← lm_modify (set_accessList al);
  lm_when added (log_ledger (accessListAddAccountChange addr)).

Definition AddSlotToAccessList (addr slot : string) : LM () :=
  al ← lm_get accessList;
  let '(addrMod, slotMod, al) := al_AddSlot al addr slot in
  _ ← lm_modify (set_accessList al);
  _ ← lm_when addrMod (log_ledger (accessListAddAccountChange addr));
  lm_when slotMod (log_ledger (accessListAddSlotChange addr slot)).

Definition PrepareAccessList (sender : string) (dst : option string) (precompiles : list string)
    (list : list (string * list string)) : LM () :=
  _ ← AddAddressToAccessList sender;
  _ ← match dst with Some d => AddAddressToAccessList d | None => mret tt end;
  _ ← lm_iter AddAddressToAccessList precompiles;
  lm_iter (λ '(a, keys), _ ← AddAddressToAccessList a; lm_iter (AddSlotToAccessList a) keys) list.

Definition AddPreimage (hash preimage : string) : LM () :=
  ps ← lm_get preimages;
  match ps !! hash with
  | Some _ => mret tt
  | None => _ ← log_ledger (addPreimageChange hash); lm_modify (set_preimages (<[hash := preimage]> ps))
  end.

Definition PrepareBlock (hash : option string) (height : Z) : LM () :=
  _ ← lm_modify (set_logs (MkEvmLogs ∅ 0 None hash 0));
  lm_modify (set_blockHeight height).

Definition PrepareEVM (hash : string) (index : Z) : LM () :=
  _ ← lm_modify (λ l, set_logs (MkEvmLogs (el_logs (logs l)) (el_logSize (logs l)) (Some hash)
                                  (el_bhash (logs l)) index) l);
  lm_modify (set_accessList NewAccessList).

Definition AddLog (log : EvmLog) : LM () :=
  lg ← lm_get logs;
  match el_thash lg with
  | None => lm_panic
  | Some thash =>
      _ ← log_ledger (addLogChange thash);
      let log := MkEvmLog (el_address log) (el_topics log) (el_data log) (Some thash) (el_txIdx lg)
                   (el_bhash lg) (el_logSize lg) in
      lm_modify (set_logs
        (MkEvmLogs (<[thash := default [] (el_logs lg !! thash) ++ [log]]> (el_logs lg))
           (el_logSize lg + 1) (el_thash lg) (el_bhash lg) (el_txIdx lg)))
  end.

Definition GetLogs (hash : string) : LM (list EvmLog) := lm_get (λ l, default [] (el_logs (logs l) !! hash)).

Definition AddEvent (event : Event) : LM () :=
  lg ← lm_get logs;
  match ev_TxHash event, el_thash lg with
  | None, None => lm_panic
  | Some h, _ | None, Some h =>
      lm_modify (λ l, set_events (<[h := default [] (l_events l !! h) ++ [event]]> (l_events l)) l)
  end.

Definition Events (txHash : string) : LM (list Event) := lm_get (λ l, default [] (l_events l !! txHash)).

(** ** Snapshots *)

(** The methods [revert] of the changes. *)
Definition revert_change (ch : stateChange) : LM () :=
  match ch with
  | createObjectChange a =>
      _ ← lm_modify (λ l, set_accounts (delete (addr_String a) (accounts l)) l);
      cached (λ ac, (tt, rmAccount ac a))
  | suicideChange a prev prevBalance =>
      on_account a (λ o sh, (tt, acc_setBalance (SetSuicided o prev) prevBalance, sh))
  | balanceChange a prev => on_account a (λ o sh, (tt, acc_setBalance o prev, sh))
  | nonceChange a prev => on_account a (λ o sh, (tt, acc_setNonce o prev, sh))
  | codeChange a prevcode => on_account a (λ o sh, (tt, acc_setCodeAndHash o prevcode, sh))
  | storageChange a key prevalue => on_account a (λ o sh, (tt, acc_setState o key prevalue, sh))
  | refundChange prev => lm_modify (set_refund prev)
  | addPreimageChange hash => lm_modify (λ l, set_preimages (delete hash (preimages l)) l)
  | accessListAddAccountChange a => lm_modify (λ l, set_accessList (al_DeleteAddress (accessList l) a) l)
  | accessListAddSlotChange a slot =>
      lm_modify (λ l, set_accessList (al_DeleteSlot (accessList l) a slot) l)
  | addLogChange txHash =>
      lm_modify (λ l,
        let lg := logs l in
        let entries := default [] (el_logs lg !! txHash) in
        set_logs (MkEvmLogs
          (if decide (length entries = 1) then delete txHash (el_logs lg)
           else <[txHash := take (length entries - 1) entries]> (el_logs lg))
          (el_logSize lg - 1) (el_thash lg) (el_bhash lg) (el_txIdx lg)) l)
  end.

(** The count of the changes of an address goes down; an address without changes is
not dirty any more. *)
Definition undirty (ch : stateChange) (s : stateChanger) : stateChanger :=
  match dirtied ch with
  | None => s
  | Some a =>
      let n := (default 0 (dirties s !! a) - 1)%Z in
      StateChanger (changes s) (if decide (n = 0)%Z then delete a (dirties s) else <[a := n]> (dirties s))
  end.

Definition on_changer (p : changer_ptr) (f : stateChanger → stateChanger) : LM () :=
  lm_modify (λ l, set_shared (with_changers (l_shared l) (alter f p (sh_changers (l_shared l)))) l).

Definition get_changer (p : changer_ptr) : LM stateChanger :=
  lm_get (λ l, default newChanger (sh_changers (l_shared l) !! p)).

(** [revert] of the change log that [p] points to. The loop reads the changes from the
last one down to [snapshot]; reverting them does not append to this log unless an
account has to be created again, in which case the entry is cut off with the others. *)
Definition changer_revert (p : changer_ptr) (snapshot : nat) : LM () :=
  s ← get_changer p;
  _ ← lm_iter (λ ch, _ ← revert_change ch; on_changer p (undirty ch)) (reverse (drop snapshot (changes s)));
  s ← get_changer p;
  if decide (length (changes s) < snapshot) then lm_panic
  else on_changer p (λ s, StateChanger (take snapshot (changes s)) (dirties s)).

Definition Snapshot : LM Z :=
  id ← lm_get nextRevisionId;
  rs ← lm_get validRevisions;
  p ← lm_get l_changer;
  s ← get_changer p;
  _ ← lm_modify (set_revisions (rs ++ [MkRevision id (changer_length s)]) (id + 1));
  mret id.

(** [sort.Search] for the first revision whose id is not below [revid]. *)
Definition searchRevision (rs : list revision) (revid : Z) : option (nat * revision) :=
  list_find (λ r, revid ≤ rev_id r)%Z rs.

Definition RevertToSnapshot (revid : Z) : LM () :=
  rs ← lm_get validRevisions;
  match searchRevision rs revid with
  | Some (idx, r) =>
      if decide (rev_id r = revid)
      then
        p ← lm_get l_changer;
        _ ← changer_revert p (rev_changerIndex r);
        lm_modify (λ l, set_revisions (take idx (validRevisions l)) (nextRevisionId l) l)
      else lm_panic
  | None => lm_panic
  end.

Definition ClearChangerAndRefund : LM () :=
  p ← lm_get l_changer;
  s ← get_changer p;
  _ ← lm_when (bool_decide (0 < length (changes s)))
        (p' ← alloc_changer; _ ← lm_modify (set_changer p'); lm_modify (set_refund 0));
  lm_modify (set_revisions [] 0).

Definition Finalise (b : bool) : LM () := ClearChangerAndRefund.

(** [GetInstance] takes an instance from the pool: a new one, or one that has been reset. *)
Definition GetInstance : LM ChangeInstance := p ← alloc_changer; mret (MkChangeInstance p [] 0).

Definition SnapshotForParallel (instance : ChangeInstance) : LM (Z * ChangeInstance) :=
  s ← get_changer (ci_changer instance);
  let id := ci_nextRevisionId instance in
  mret (id, MkChangeInstance (ci_changer instance)
              (ci_validRevisions instance ++ [MkRevision id (changer_length s)]) (id + 1)).

Definition RevertToSnapshotForParallel (revid : Z) (change : ChangeInstance) : LM ChangeInstance :=
  match searchRevision (ci_validRevisions change) revid with
  | Some (idx, r) =>
      if decide (rev_id r = revid)
      then
        _ ← changer_revert (ci_changer change) (rev_changerIndex r);
        mret (MkChangeInstance (ci_changer change) (take idx (ci_validRevisions change))
                (ci_nextRevisionId change))
      else lm_panic
  | None => lm_panic
  end.

Definition ReleaseChangeInstance (instance : ChangeInstance) : LM ChangeInstance :=
  s ← get_changer (ci_changer instance);
  p ← (if decide (0 < length (changes s))
       then p ← alloc_changer; _ ← lm_modify (set_refund 0); mret p
       else mret (ci_changer instance));
  mret (MkChangeInstance p [] 0).

(** ** Blocks: journals, commit and rollback *)

Definition minHeightStr : string := "minHeight".
Definition maxHeightStr : string := "maxHeight".

Definition marshalHeight (height : Z) : string := fmt_d height.

Definition unmarshalHeight (data : string) : option Z := ParseUint data.

(** JSON of block journals is [bj_enc]. *)
Context `{bj_enc : Encoding BlockJournal}.

Definition Clear : LM () := lm_modify (λ l, set_accounts ∅ (set_events ∅ l)).

(** The variables of the loop of [FlushDirtyData] over the accounts. *)
Record flushing := MkFlushing {
  fl_dirtyAccounts : gmap string SimpleAccount;
  fl_journals : list blockJournalEntry;
  fl_sortedAddr : list string;
  fl_accountData : gmap string string }.

Definition flushAccount (ldb : storage) (st : option flushing) (entry : string * SimpleAccount) : option flushing :=
  st ← st;
  let '(addr, account) := entry in
  match getJournalIfModified account ldb with
  | (None, _) => Some st
  | (Some journal, account) =>
      data ← getDirtyData account;
      Some (MkFlushing (<[addr := account]> (fl_dirtyAccounts st)) (fl_journals st ++ [journal])
              (fl_sortedAddr st ++ [addr]) (<[addr := data]> (fl_accountData st)))
  end.

(** Returns the dirty accounts and the hash of the journal. *)
Definition FlushDirtyData : LM (gmap string SimpleAccount * string) := λ l,
  st ← foldl (flushAccount (sh_ldb (l_shared l))) (Some (MkFlushing ∅ [] [] ∅)) (go_range (accounts l));
  let dirtyAccountData :=
    foldl (λ d a, d +:+ default EmptyString (fl_accountData st !! a)) EmptyString
      (sort_Strings (fl_sortedAddr st)) +:+ prevJnlHash l in
  let journalHash := Sha256 dirtyAccountData in
  let blockJournal := MkBlockJournal (fl_journals st) journalHash in
  (_ ← lm_modify (λ l, set_journals (<[journalHash := blockJournal]> (blockJournals l)) l);
   _ ← lm_modify (set_prevJnlHash journalHash);
   _ ← Clear;
   _ ← cached (λ ac, (tt, cache_add ac (fl_dirtyAccounts st)));
   mret (fl_dirtyAccounts st, journalHash)) l.

(** The writes of [Commit] for one account; [None] is a panic (a record that cannot be
encoded, or the dereference of a missing original record). *)
Definition commitCode (account : SimpleAccount) : option batch :=
  let key := compositeKey codeKey (addr_String (Addr account)) in
  if bytes_Equal (originCode account) (dirtyCode account) then Some []
  else
    match dirtyCode account with
    | Some c => Some [(key, Some c)]
    | None =>
        match dirtyAccount account with
        | None => Some []
        | Some d =>
            o ← originAccount account;
            Some (if negb (bytes_Equal (ia_CodeHash o) (ia_CodeHash d)) && bytes_Equal (ia_CodeHash d) None
                  then [(key, None)] else [])
        end
    end.

Definition commitStates (account : SimpleAccount) : batch :=
  omap (λ '(key, value),
      let origVal := default None (originState account !! key) in
      if bytes_Equal origVal value then None
      else Some (composeStateKey (Addr account) key, value)) (go_range (dirtyState account)).

Definition commitAccount (ldb : storage) (account : SimpleAccount) : option batch :=
  let key := compositeKey accountKey (addr_String (Addr account)) in
  if Suicided account
  then Some (match st_Get ldb key with Some _ => [(key, None)] | None => [] end)
  else
    w1 ← (if InnerAccountChanged (originAccount account) (dirtyAccount account)
          then d ← dirtyAccount account; data ← marshal d; Some [(key, Some data)]
          else Some []);
    w2 ← commitCode account;
    Some (w1 ++ w2 ++ commitStates account).

Definition ldb_Commit (b : batch) : LM () :=
  lm_modify (λ l, set_shared (with_ldb (l_shared l) (st_Commit (sh_ldb (l_shared l)) b)) l).

(** The errors of the ledger. *)
Inductive ledgerError :=
| ErrorRollbackToHigherNumber | ErrorRollbackWithoutJournal | ErrorRollbackTooMuch
| ErrorRemoveJournalOutOfRange | ErrorNoBlockJournal | ErrorMarshalJournal.

Definition removeJournalsBeforeBlock (height : Z) : LM (option ledgerError) :=
  lo ← lm_get minJnlHeight;
  hi ← lm_get maxJnlHeight;
  if decide (hi < height)%Z then mret (Some ErrorRemoveJournalOutOfRange)
  else if decide (height ≤ lo)%Z then mret None
  else
    _ ← ldb_Commit (((λ i, (compositeKey journalKey (fmt_d i), None)) <$> seqZ lo (height - lo)) ++
                    [(compositeKey journalKey minHeightStr, Some (marshalHeight height))]);
    _ ← lm_modify (set_heights height hi);
    mret None.

Definition Commit (height : Z) (accs : gmap string SimpleAccount) (stateRoot : string) :
    LM (option ledgerError) := λ l,
  writes ← foldl (λ ws acc, ws ← ws; w ← commitAccount (sh_ldb (l_shared l)) acc; Some (ws ++ w))
             (Some []) (go_range accs).*2;
  match blockJournals l !! stateRoot with
  | None => Some (Some ErrorNoBlockJournal, l)
  | Some blockJournal =>
      match marshal blockJournal with
      | None => Some (Some ErrorMarshalJournal, l)
      | Some data =>
          let writes := writes ++
            [(compositeKey journalKey (fmt_d height), Some data);
             (compositeKey journalKey maxHeightStr, Some (marshalHeight height))] in
          let '(writes, lo) :=
            if decide (minJnlHeight l = 0)%Z
            then (writes ++ [(compositeKey journalKey minHeightStr, Some (marshalHeight height))], height)
            else (writes, minJnlHeight l) in
          (_ ← ldb_Commit writes;
           _ ← lm_modify (set_heights lo height);
           err ← (if decide (10 < height)%Z then removeJournalsBeforeBlock (height - 10) else mret None);
           match err with
           | Some e => mret (Some e)
           | None => _ ← lm_modify (set_journals ∅); mret None
           end) l
      end
  end.

Definition Version : LM Z := lm_get maxJnlHeight.

(** [block_journal.go] *)
Definition revertJournal (journal : blockJournalEntry) : option batch :=
  w1 ← (if je_AccountChanged journal
        then match je_PrevAccount journal with
             | Some a => data ← marshal a;
                 Some [(compositeKey accountKey (addr_String (je_Address journal)), Some data)]
             | None => Some [(compositeKey accountKey (addr_String (je_Address journal)), None)]
             end
        else Some []);
  let w2 := (λ '(key, val), (composeStateKey (je_Address journal) key, val)) <$> go_range (je_PrevStates journal) in
  let w3 := if je_CodeChanged journal
            then [(compositeKey codeKey (addr_String (je_Address journal)), je_PrevCode journal)] else [] in
  Some (w1 ++ w2 ++ w3).

Definition getBlockJournal (ldb : storage) (height : Z) : option (option BlockJournal) :=
  match st_Get ldb (compositeKey journalKey (fmt_d height)) with
  | None => Some None
  | Some data => j ← unmarshal data; Some (Some j)
  end.

Definition getJournalRange (ldb : storage) : option (Z * Z) :=
  lo ← match st_Get ldb (compositeKey journalKey minHeightStr) with
       | Some data => unmarshalHeight data | None => Some 0%Z end;
  hi ← match st_Get ldb (compositeKey journalKey maxHeightStr) with
       | Some data => unmarshalHeight data | None => Some 0%Z end;
  Some (lo, hi).

(** One round of the loop of [RollbackState]: block [i] is undone. *)
Definition rollbackBlock (i : Z) (ldb : storage) : option (option storage) :=
  journal ← getBlockJournal ldb i;
  match journal with
  | None => Some None
  | Some journal =>
      writes ← foldl (λ ws j, ws ← ws; w ← revertJournal j; Some (ws ++ w)) (Some []) (bj_Journals journal);
      Some (Some (st_Commit ldb (writes ++
        [(compositeKey journalKey (fmt_d i), None);
         (compositeKey journalKey maxHeightStr, Some (marshalHeight (i - 1)))])))
  end.

(** The blocks from [i] down, [n] of them. The boolean tells whether a journal was missing. *)
Fixpoint rollbackBlocks (n : nat) (i : Z) (ldb : storage) : option (bool * storage) :=
  match n with
  | O => Some (true, ldb)
  | S n =>
      r ← rollbackBlock i ldb;
      match r with
      | None => Some (false, ldb)
      | Some ldb => rollbackBlocks n (i - 1) ldb
      end
  end.

(** The rest of [RollbackState], once the caches have been emptied. *)
Definition rollbackStore (lo hi height : Z) : LM (option ledgerError) := λ l,
  '(complete, ldb) ← rollbackBlocks (Z.to_nat (hi - height)) hi (sh_ldb (l_shared l));
  let l := set_shared (with_ldb (l_shared l) ldb) l in
  if negb complete then Some (Some ErrorRollbackWithoutJournal, l)
  else if decide (height ≠ 0)%Z
  then
    journal ← getBlockJournal ldb height;
    journal ← journal;
    Some (None, set_heights lo height (set_prevJnlHash (bj_ChangedHash journal) l))
  else Some (None, set_heights 0 height (set_prevJnlHash zeroHash l)).

Definition RollbackState (height : Z) : LM (option ledgerError) :=
  lo ← lm_get minJnlHeight;
  hi ← lm_get maxJnlHeight;
  if decide (hi < height)%Z then mret (Some ErrorRollbackToHigherNumber)
  else if bool_decide (height < lo)%Z && negb (bool_decide (lo = 1)%Z && bool_decide (height = 0)%Z)
  then mret (Some ErrorRollbackTooMuch)
  else if decide (hi = height) then mret None
  else
    _ ← Clear;
    _ ← cached (λ ac, (tt, cache_clear ac));
    rollbackStore lo hi height.

(** [None] is a panic, the inner [None] the error for a missing journal. *)
Definition NewSimpleLedger (ldb : storage) (accountCache : option AccountCache) : option (option SimpleLedger) :=
  '(lo, hi) ← getJournalRange ldb;
  journal ← (if decide (hi ≠ 0)%Z then getBlockJournal ldb hi else Some (Some (MkBlockJournal [] zeroHash)));
  match journal with
  | None => Some None
  | Some journal =>
      Some (Some (MkSimpleLedger _ _ _
        (MkShared _ _ ldb (default NewAccountCache accountCache) {[0 := newChanger]})
        lo hi ∅ ∅ ∅ (bj_ChangedHash journal) 0 [] 0 0 1 NewAccessList ∅ 0 NewEvmLogs))
  end.
End ledger.
