(* ===== verification/StateLedgerProps.v ===== *)
(** * Views of the state ledger

What a client of the ledger can observe is a family of functions: the value of
each state key, the record (balance, nonce, code hash) of each account, the
refund counter, the logs and the preimages. [same_view] is equality of what can be
observed. The lemmas say how each operation changes the views and that reverting a
logged change restores them, whatever the layers below have cached meanwhile. *)
From S2P Require Import Prelude Btree Storage Account StateLedger.

Section views.
Context `{StorageLib, LruLib, AddressLib, HashLib, InnerAccountLib, GoRange, AccessListLib}.
Implicit Types (l : SimpleLedger) (o : SimpleAccount) (ac : AccountCache) (a k : string).

(** ** The layers *)

Definition cached_state ac a k : option bytes :=
  c ← lru_Get (stateCache ac) (addr_String a); lru_Get c k.

(** The value of a state key below the accounts of the current block. *)
Definition below l a k : bytes :=
  match cached_state (sh_cache (l_shared l)) a k with
  | Some v => v
  | None => st_Get (sh_ldb (l_shared l)) (composeStateKey a k)
  end.

Definition inner_below l a : option InnerAccount :=
  match lru_Get (innerAccountCache (sh_cache (l_shared l))) (addr_String a) with
  | Some i => Some i
  | None => d ← st_Get (sh_ldb (l_shared l)) (compositeKey accountKey (addr_String a)); unmarshal d
  end.

Definition acc_state o (b : bytes) k : bytes :=
  match dirtyState o !! k with
  | Some v => v
  | None => match originState o !! k with Some v => v | None => b end
  end.

Definition acc_inner o : InnerAccount :=
  match dirtyAccount o with Some d => d | None => default emptyInner (originAccount o) end.

Definition state_view l a k : bytes :=
  match accounts l !! addr_String a with
  | Some o => acc_state o (below l a k) k
  | None => below l a k
  end.

Definition inner_of l a : InnerAccount :=
  match accounts l !! addr_String a with
  | Some o => acc_inner o
  | None => default emptyInner (inner_below l a)
  end.

Definition exists_acc l a : Prop := is_Some (accounts l !! addr_String a) ∨ is_Some (inner_below l a).

(** The rest of what can be observed, and the change log in use. *)
Definition rest_of l := (refund l, preimages l, logs l, accessList l, l_changer l).

Record same_view l l' : Prop := {
  sv_state a k : state_view l' a k = state_view l a k;
  sv_inner a : inner_of l' a = inner_of l a;
  sv_below a k : below l' a k = below l a k;
  sv_inner_below a : inner_below l' a = inner_below l a;
  sv_exists a : exists_acc l' a ↔ exists_acc l a;
  sv_rest : rest_of l' = rest_of l }.

Lemma sv_changer l l' : same_view l l' → l_changer l' = l_changer l.
Proof. intros Hv. by injection (sv_rest _ _ Hv). Qed.

Global Instance same_view_equivalence : Equivalence same_view.
Proof.
  split.
  - intros l. by split.
  - intros l l' []. by split.
  - intros l1 l2 l3 [] []. split; intros; try congruence. etrans; eauto.
Qed.

(** ** Well-formedness *)

Record ledger_wf l : Prop := {
  lw_addr s o : accounts l !! s = Some o → s = addr_String (Addr o);
  lw_db a d : st_Get (sh_ldb (l_shared l)) (compositeKey accountKey (addr_String a)) = Some d →
    is_Some (unmarshal d : option InnerAccount);
  (** every account of the block logs to the current change log *)
  lw_changer s o : accounts l !! s = Some o → acc_changer o = l_changer l;
  lw_log : is_Some (sh_changers (l_shared l) !! l_changer l);
  lw_logs h es : el_logs (logs l) !! h = Some es → es ≠ [] }.

(** The current change log. *)
Definition log_of l : list stateChange :=
  changes (default newChanger (sh_changers (l_shared l) !! l_changer l)).

(** Caches with the same contents. *)
Record cache_equiv ac ac' : Prop := {
  ce_inner s : lru_Get (innerAccountCache ac') s = lru_Get (innerAccountCache ac) s;
  ce_state a k : cached_state ac' a k = cached_state ac a k;
  ce_code s : lru_Get (codeCache ac') s = lru_Get (codeCache ac) s }.

Global Instance cache_equiv_equivalence : Equivalence cache_equiv.
Proof.
  split.
  - intros ac. by split.
  - intros ?? []. by split.
  - intros ??? [] []. split; intros; congruence.
Qed.

Lemma getInnerAccount_equiv ac a : cache_equiv ac (getInnerAccount ac a).2.
Proof. split; simpl; intros; try done. apply lru_Get_Touch. Qed.

Lemma cache_getCode_equiv ac a : cache_equiv ac (cache_getCode ac a).2.
Proof. split; simpl; intros; try done. apply lru_Get_Touch. Qed.

Lemma cache_getState_spec ac a k :
  (cache_getState ac a k).1 = cached_state ac a k ∧ cache_equiv ac (cache_getState ac a k).2.
Proof.
  unfold cache_getState, cached_state. destruct (lru_Get (stateCache ac) (addr_String a)) as [c|] eqn:E; simpl.
  - split; [done|]. split; simpl; [done| |done]. intros b k'. unfold cached_state. simpl.
    rewrite lru_Get_Modify, !lru_Get_Touch. case_decide as Hb; [|done]. rewrite Hb, E. simpl.
    apply lru_Get_Touch.
  - split; [done|]. split; simpl; [done| |done]. intros b k'. unfold cached_state. simpl.
    by rewrite lru_Get_Touch.
Qed.

(** Two ledgers that agree below the accounts: the same store, and caches with the same
contents; everything but the accounts and the change logs is the same. *)
Record same_below l l' : Prop := {
  sb_rest : l' = set_accounts (accounts l') (set_shared (l_shared l') l);
  sb_ldb : sh_ldb (l_shared l') = sh_ldb (l_shared l);
  sb_cache : cache_equiv (sh_cache (l_shared l)) (sh_cache (l_shared l')) }.

Global Instance same_below_refl : Reflexive same_below.
Proof. intros l. split; [by destruct l|done|done]. Qed.

Global Instance same_below_trans : Transitive same_below.
Proof.
  intros l1 l2 l3 [R1 D1 C1] [R2 D2 C2]. split; [|congruence|by transitivity (sh_cache (l_shared l2))].
  rewrite R2. rewrite R1 at 1. done.
Qed.

Lemma same_below_below l l' a k : same_below l l' → below l' a k = below l a k.
Proof. intros [_ D [_ C _]]. unfold below. by rewrite D, C. Qed.

Lemma same_below_inner l l' a : same_below l l' → inner_below l' a = inner_below l a.
Proof. intros [_ D [C _ _]]. unfold inner_below. by rewrite D, C. Qed.

Lemma same_below_changer l l' : same_below l l' → l_changer l' = l_changer l.
Proof. by intros [-> _ _]. Qed.

Lemma same_below_revisions l l' :
  same_below l l' → validRevisions l' = validRevisions l ∧ nextRevisionId l' = nextRevisionId l.
Proof. by intros [-> _ _]. Qed.

Lemma addr_String_ne a b : a ≠ b → addr_String a ≠ addr_String b.
Proof. intros Hne Heq. by apply Hne, addr_String_inj. Qed.

(** The change log has grown by [chs]. *)
Definition log_ext l chs l' : Prop :=
  is_Some (sh_changers (l_shared l') !! l_changer l') ∧ log_of l' = log_of l ++ chs.

Lemma log_ext_nil l l' :
  ledger_wf l → sh_changers (l_shared l') = sh_changers (l_shared l) → l_changer l' = l_changer l →
  log_ext l [] l'.
Proof.
  intros Hwf Hs Hc. unfold log_ext, log_of. rewrite Hs, Hc, app_nil_r. split; [apply Hwf|done].
Qed.

Lemma log_ext_trans l1 l2 l3 chs1 chs2 :
  log_ext l1 chs1 l2 → log_ext l2 chs2 l3 → log_ext l1 (chs1 ++ chs2) l3.
Proof. intros [? E1] [? E2]. split; [done|]. by rewrite E2, E1, (assoc_L (++)). Qed.

(** ** Views after a change of one account *)

(** The account [a] of [l'] is [o'], the other accounts are those of [l]. *)
Record account_set l a o' l' : Prop := {
  as_below : same_below l l';
  as_acc : accounts l' = <[addr_String a := o']> (accounts l) }.

(** The views of [l'] are those of [l] but for the account [a]. *)
Record view_set l a (st : string → bytes) (inn : InnerAccount) l' : Prop := {
  vs_state b k : state_view l' b k = if decide (b = a) then st k else state_view l b k;
  vs_inner b : inner_of l' b = if decide (b = a) then inn else inner_of l b;
  vs_exists b : exists_acc l' b ↔ b = a ∨ exists_acc l b;
  vs_below b k : below l' b k = below l b k;
  vs_inner_below b : inner_below l' b = inner_below l b;
  vs_rest : rest_of l' = rest_of l }.

Lemma vs_changer l a st inn l' : view_set l a st inn l' → l_changer l' = l_changer l.
Proof. intros V. by injection (vs_rest _ _ _ _ _ V). Qed.

Lemma account_set_view l a o' l' :
  account_set l a o' l' → view_set l a (λ k, acc_state o' (below l a k) k) (acc_inner o') l'.
Proof.
  intros [Hb Ha].
  assert (∀ b, b ≠ a → accounts l' !! addr_String b = accounts l !! addr_String b) as Hne.
  { intros b Hne. rewrite Ha. by rewrite lookup_insert_ne by (by apply not_eq_sym, addr_String_ne). }
  assert (accounts l' !! addr_String a = Some o') as Heq by (by rewrite Ha, lookup_insert_eq).
  split.
  - intros b k. unfold state_view. rewrite (same_below_below _ _ _ _ Hb).
    destruct (decide (b = a)) as [->|]; [by rewrite Heq|by rewrite Hne].
  - intros b. unfold inner_of. rewrite (same_below_inner _ _ _ Hb).
    destruct (decide (b = a)) as [->|]; [by rewrite Heq|by rewrite Hne].
  - intros b. unfold exists_acc. rewrite (same_below_inner _ _ _ Hb).
    destruct (decide (b = a)) as [->|]; [|rewrite Hne by done; tauto].
    rewrite Heq. split; [by left|]. intros _. left. by eexists.
  - intros. by apply same_below_below.
  - intros. by apply same_below_inner.
  - by rewrite (sb_rest _ _ Hb).
Qed.

Lemma account_set_wf l a o' l' chs :
  account_set l a o' l' → log_ext l chs l' →
  ledger_wf l → Addr o' = a → acc_changer o' = l_changer l → ledger_wf l'.
Proof.
  intros [Hb Ha] [Hlog _] [Haddr Hdb Hch _ Hlogs] Ho Hc. pose proof (same_below_changer _ _ Hb) as Hlc.
  split; [| | |done|by rewrite (sb_rest _ _ Hb)].
  - intros s o. rewrite Ha, lookup_insert_Some. intros [[<- <-]|[_ ?]]; [by rewrite Ho|by apply Haddr].
  - intros b d. rewrite (sb_ldb _ _ Hb). apply Hdb.
  - intros s o. rewrite Ha, Hlc, lookup_insert_Some. intros [[_ <-]|[_ ?]]; [done|by eapply Hch].
Qed.

(** Setting the views of an account to what they are changes nothing. *)
Lemma view_set_same l a st inn l' :
  view_set l a st inn l' → exists_acc l a → (∀ k, st k = state_view l a k) → inn = inner_of l a →
  same_view l l'.
Proof.
  intros [Hs Hi He] Hex Hst ->. split; try done.
  - intros b k. rewrite Hs. case_decide; [by subst|done].
  - intros b. rewrite Hi. case_decide; [by subst|done].
  - intros b. rewrite He. split; [|by right]. by intros [->|?].
Qed.

(** A change of one account is undone by setting its views to what they were, from any
ledger that shows the same as the changed one. *)
Lemma view_set_back l0 a st inn l1 l' st' inn' l'' :
  view_set l0 a st inn l1 → same_view l1 l' → view_set l' a st' inn' l'' → exists_acc l0 a →
  (∀ k, st' k = state_view l0 a k) → inn' = inner_of l0 a → same_view l0 l''.
Proof.
  intros V1 Hv V2 Hex Hst ->. split.
  - intros b k. rewrite (vs_state _ _ _ _ _ V2), (sv_state _ _ Hv), (vs_state _ _ _ _ _ V1).
    case_decide; [by subst|done].
  - intros b. rewrite (vs_inner _ _ _ _ _ V2), (sv_inner _ _ Hv), (vs_inner _ _ _ _ _ V1).
    case_decide; [by subst|done].
  - intros. by rewrite (vs_below _ _ _ _ _ V2), (sv_below _ _ Hv), (vs_below _ _ _ _ _ V1).
  - intros. by rewrite (vs_inner_below _ _ _ _ _ V2), (sv_inner_below _ _ Hv), (vs_inner_below _ _ _ _ _ V1).
  - intros b. rewrite (vs_exists _ _ _ _ _ V2), (sv_exists _ _ Hv), (vs_exists _ _ _ _ _ V1).
    split; [|tauto]. by intros [->|[->|?]].
  - by rewrite (vs_rest _ _ _ _ _ V2), (sv_rest _ _ Hv), (vs_rest _ _ _ _ _ V1).
Qed.

(** ** Looking up an account *)

(** An account that was found or loaded. *)
Record loaded l a o l' : Prop := {
  ld_exists : exists_acc l a;
  ld_acc : accounts l' !! addr_String a = Some o;
  ld_addr : Addr o = a;
  ld_changer : acc_changer o = l_changer l;
  ld_below : same_below l l';
  ld_log : log_ext l [] l';
  ld_view : same_view l l';
  ld_wf : ledger_wf l' }.

(** A new account with the record found below shows what was there before. *)
Lemma fresh_loaded l a o l' inner :
  ledger_wf l → accounts l !! addr_String a = None → inner_below l a = Some inner →
  account_set l a o l' → sh_changers (l_shared l') = sh_changers (l_shared l) →
  Addr o = a → acc_changer o = l_changer l → originAccount o = Some inner → dirtyAccount o = None →
  originState o = ∅ → dirtyState o = ∅ →
  loaded l a o l'.
Proof.
  intros Hwf Hnone Hin Hset Hch Haddr Hc Ho Hd Hos Hds.
  assert (exists_acc l a) as Hex by (right; by rewrite Hin).
  assert (log_ext l [] l') as Hlog by (apply log_ext_nil; [done..|by apply same_below_changer, Hset]).
  split; try done.
  - by rewrite (as_acc _ _ _ _ Hset), lookup_insert_eq.
  - apply Hset.
  - apply (view_set_same _ _ _ _ _ (account_set_view _ _ _ _ Hset) Hex).
    + intros k. unfold acc_state, state_view. by rewrite Hds, Hos, !lookup_empty, Hnone.
    + unfold acc_inner, inner_of. by rewrite Hd, Ho, Hnone, Hin.
  - by eapply account_set_wf.
Qed.

Lemma loaded_refl l a o : ledger_wf l → accounts l !! addr_String a = Some o → loaded l a o l.
Proof.
  intros Hwf Ho. split; try done; [by left; rewrite Ho| |by eapply lw_changer|by apply log_ext_nil].
  apply addr_String_inj. symmetry. by eapply lw_addr.
Qed.

Lemma GetAccount_spec l a :
  ledger_wf l →
  ∃ r l', GetAccount a l = Some (r, l') ∧
    match r with
    | Some o => loaded l a o l'
    | None => ¬ exists_acc l a ∧ same_below l l' ∧ accounts l' = accounts l ∧
              sh_changers (l_shared l') = sh_changers (l_shared l)
    end.
Proof.
  intros Hwf. destruct (accounts l !! addr_String a) as [o|] eqn:Ho.
  { exists (Some o), l. split; [|by apply loaded_refl].
    unfold GetAccount, mbind, LM_bind, lm_get. by rewrite Ho. }
  pose proof (getInnerAccount_equiv (sh_cache (l_shared l)) a) as Hc.
  unfold GetAccount, cached, store_account, ldb_Get, mbind, LM_bind, mret, LM_ret, lm_get, lm_state, lm_modify.
  rewrite Ho. cbn [fst snd getInnerAccount] in *.
  destruct (lru_Get (innerAccountCache (sh_cache (l_shared l))) (addr_String a)) as [inner|] eqn:Ei.
  - assert (inner_below l a = Some inner) as Hib by (unfold inner_below; by rewrite Ei).
    destruct (bytes_Equal (ia_CodeHash inner) None).
    + eexists (Some _), _. split; [done|]. by apply (fresh_loaded _ _ _ _ inner).
    + set (ac := MkAccountCache _ _ _ _) in Hc |- *.
      pose proof (transitivity Hc (cache_getCode_equiv ac a)) as Hc2.
      cbn [fst snd cache_getCode] in *.
      destruct (lru_Get (codeCache _) (addr_String a)); eexists (Some _), _; split; try done;
        by apply (fresh_loaded _ _ _ _ inner).
  - cbn [sh_ldb l_shared set_shared with_cache].
    destruct (st_Get (sh_ldb (l_shared l)) (compositeKey accountKey (addr_String a))) as [d|] eqn:Ed.
    + destruct (lw_db _ Hwf a d Ed) as [inner Hd]. rewrite Hd.
      assert (inner_below l a = Some inner) as Hib by (unfold inner_below; by rewrite Ei, Ed).
      destruct (bytes_Equal (ia_CodeHash inner) None);
        eexists (Some _), _; (split; [done|]); by apply (fresh_loaded _ _ _ _ inner).
    + eexists None, _. split; [done|]. split; [|done].
      unfold exists_acc, inner_below. rewrite Ho, Ei, Ed. intros [[]|[]]; done.
Qed.

(** ** Undoing logged changes *)

Definition undo_change (p : changer_ptr) (ch : stateChange) : LM () :=
  _ ← revert_change ch; on_changer p (undirty ch).

(** The change log and the revisions are the same. *)
Record same_log l l' : Prop := {
  sl_log : log_ext l [] l';
  sl_revisions : validRevisions l' = validRevisions l;
  sl_next : nextRevisionId l' = nextRevisionId l }.

Lemma same_log_trans l1 l2 l3 : same_log l1 l2 → same_log l2 l3 → same_log l1 l3.
Proof.
  intros [A1 B1 C1] [A2 B2 C2]. split; [by apply (log_ext_trans _ _ _ [] [] A1 A2)|congruence..].
Qed.

(** From any ledger that shows the same as [l1], reverting the changes [chs], the last
one first, gives a ledger that shows the same as [l0]. *)
Definition undoes l1 (chs : list stateChange) l0 : Prop :=
  ∀ l', same_view l1 l' → ledger_wf l' →
    ∃ l'', lm_iter (undo_change (l_changer l1)) (reverse chs) l' = Some (tt, l'') ∧
      same_view l0 l'' ∧ ledger_wf l'' ∧ same_log l' l''.

Lemma undoes_nil l1 l0 : same_view l0 l1 → undoes l1 [] l0.
Proof.
  intros Hv l' Hv' Hwf. exists l'. split_and!; [done|by transitivity l1|done|].
  split; try done. by apply log_ext_nil.
Qed.

Lemma lm_iter_app {A} (f : A → LM ()) xs ys l :
  lm_iter f (xs ++ ys) l = match lm_iter f xs l with Some (_, l') => lm_iter f ys l' | None => None end.
Proof.
  revert l. induction xs as [|x xs IH]; intros l; [done|].
  simpl. unfold mbind, LM_bind. destruct (f x l) as [[[] l']|]; [apply IH|done].
Qed.

Lemma undoes_app l2 chs2 l1 chs1 l0 :
  undoes l2 chs2 l1 → undoes l1 chs1 l0 → l_changer l2 = l_changer l1 → undoes l2 (chs1 ++ chs2) l0.
Proof.
  intros U2 U1 Hc l' Hv Hwf. destruct (U2 l' Hv Hwf) as (l'' & E2 & Hv2 & Hwf2 & Hl2).
  destruct (U1 l'' Hv2 Hwf2) as (l3 & E1 & Hv3 & Hwf3 & Hl3). exists l3.
  split_and!; [|done|done|by eapply same_log_trans].
  by rewrite reverse_app, lm_iter_app, E2, Hc.
Qed.

Lemma undoes_proper l1 l1' chs l0 : same_view l1 l1' → undoes l1 chs l0 → undoes l1' chs l0.
Proof.
  intros Hv U l' Hv' Hwf. rewrite (sv_changer _ _ Hv). apply (U l'); [|done]. by transitivity l1'.
Qed.

(** [on_changer] with [undirty] is not visible. *)
Lemma undirty_changes ch s : changes (undirty ch s) = changes s.
Proof. unfold undirty. by destruct (dirtied ch). Qed.

Lemma undirty_step l ch :
  ledger_wf l →
  ∃ l', on_changer (l_changer l) (undirty ch) l = Some (tt, l') ∧
    same_view l l' ∧ ledger_wf l' ∧ same_log l l'.
Proof.
  intros Hwf. eexists. split; [done|].
  assert (log_ext l [] (set_shared (with_changers (l_shared l)
            (alter (undirty ch) (l_changer l) (sh_changers (l_shared l)))) l)) as Hlog.
  { destruct (lw_log _ Hwf) as [s Hs]. unfold log_ext, log_of. simpl. rewrite lookup_alter_eq, Hs. simpl.
    rewrite undirty_changes, app_nil_r. eauto. }
  split_and!; [by split| |by split]. destruct Hwf. split; try done. apply Hlog.
Qed.

(** ** Running a method of an account *)

(** What a method may do to the shared objects, besides logging [chs]. *)
Record shared_ext (p : changer_ptr) (sh : shared) (chs : list stateChange) (sh' : shared) : Prop := {
  se_ldb : sh_ldb sh' = sh_ldb sh;
  se_cache : cache_equiv (sh_cache sh) (sh_cache sh');
  se_log s : sh_changers sh !! p = Some s →
    ∃ s', sh_changers sh' !! p = Some s' ∧ changes s' = changes s ++ chs }.

Lemma shared_ext_refl p sh : shared_ext p sh [] sh.
Proof. split; [done|done|]. intros s Hs. exists s. by rewrite app_nil_r. Qed.

Lemma shared_ext_log p sh ch sh' chs :
  shared_ext p sh chs sh' → shared_ext p sh (chs ++ [ch]) (log_change sh' p ch).
Proof.
  intros [A B C]. split; [done|done|]. intros s Hs. destruct (C s Hs) as (s' & Hs' & E).
  exists (changer_append s' ch). split; [by simpl; rewrite lookup_alter_eq, Hs'|].
  rewrite (assoc_L (++)), <-E. unfold changer_append. by destruct (dirtied ch).
Qed.

Lemma shared_ext_cache p sh ac : cache_equiv (sh_cache sh) ac → shared_ext p sh [] (with_cache sh ac).
Proof. intros Hc. split; [done|done|]. intros s Hs. exists s. by rewrite app_nil_r. Qed.

(** The ledger after a method has replaced the account and the shared objects. *)
Lemma set_account_spec l a o' sh' chs :
  ledger_wf l → shared_ext (l_changer l) (l_shared l) chs sh' →
  let l' := set_accounts (<[addr_String a := o']> (accounts l)) (set_shared sh' l) in
  account_set l a o' l' ∧ log_ext l chs l'.
Proof.
  intros Hwf [A B C]. simpl. split; [split; [|done]; by split|].
  destruct (lw_log _ Hwf) as [s Hs]. destruct (C s Hs) as (s' & Hs' & E).
  unfold log_ext, log_of. simpl. rewrite Hs', Hs. eauto.
Qed.

(** The account is there when the method runs; if it had to be created, that is logged. *)
Record got l a o chs l' : Prop := {
  gt_acc : accounts l' !! addr_String a = Some o;
  gt_addr : Addr o = a;
  gt_changer : acc_changer o = l_changer l;
  gt_below : same_below l l';
  gt_view : view_set l a (state_view l a) (inner_of l a) l';
  gt_log : log_ext l chs l';
  gt_undo : undoes l' chs l;
  gt_wf : ledger_wf l';
  gt_known : exists_acc l a → chs = [] }.

Lemma got_exists l a o chs l' : got l a o chs l' → exists_acc l' a.
Proof. intros G. left. by rewrite (gt_acc _ _ _ _ _ G). Qed.

Lemma got_state l a o chs l' k : got l a o chs l' → acc_state o (below l a k) k = state_view l a k.
Proof.
  intros G. pose proof (gt_view _ _ _ _ _ G) as V.
  pose proof (vs_state _ _ _ _ _ V a k) as E. rewrite decide_True in E by done. rewrite <-E.
  unfold state_view. by rewrite (gt_acc _ _ _ _ _ G), (vs_below _ _ _ _ _ V).
Qed.

Lemma got_inner l a o chs l' : got l a o chs l' → acc_inner o = inner_of l a.
Proof.
  intros G. pose proof (vs_inner _ _ _ _ _ (gt_view _ _ _ _ _ G) a) as E. rewrite decide_True in E by done.
  rewrite <-E. unfold inner_of at 1. by rewrite (gt_acc _ _ _ _ _ G).
Qed.

Lemma loaded_got l a o l' : loaded l a o l' → got l a o [] l'.
Proof.
  intros [Hex Ha Hn Hc Hb Hl Hv Hwf]. split; try done; [|by apply undoes_nil].
  split; try apply Hv.
  - intros b k. rewrite (sv_state _ _ Hv). by case_decide; subst.
  - intros b. rewrite (sv_inner _ _ Hv). by case_decide; subst.
  - intros b. rewrite (sv_exists _ _ Hv). split; [by right|]. by intros [->|?].
Qed.

Lemma undoes_one l1 ch l0 :
  l_changer l1 = l_changer l0 →
  (∀ l', same_view l1 l' → ledger_wf l' →
     ∃ l'', revert_change ch l' = Some (tt, l'') ∧ same_view l0 l'' ∧ ledger_wf l'' ∧ same_log l' l'') →
  undoes l1 [ch] l0.
Proof.
  intros Hc Hr l' Hv Hwf. destruct (Hr l' Hv Hwf) as (l2 & E & Hv2 & Hwf2 & Hl2).
  destruct (undirty_step l2 ch Hwf2) as (l3 & E3 & Hv3 & Hwf3 & Hl3). exists l3.
  split_and!; [|by transitivity l2|done|by eapply same_log_trans].
  simpl. unfold undo_change, mbind, LM_bind. rewrite E, Hc, <-(sv_changer _ _ Hv2), E3. done.
Qed.

(** Removing an account that nothing below knows. *)
Lemma remove_account_view l a st inn l1 l' l'' :
  view_set l a st inn l1 → ¬ exists_acc l a → same_view l1 l' →
  accounts l'' = delete (addr_String a) (accounts l') →
  (∀ b k, below l'' b k = below l' b k) → (∀ b, inner_below l'' b = inner_below l' b) →
  rest_of l'' = rest_of l' → same_view l l''.
Proof.
  intros V Hno Hv Hacc Hb Hi Hr.
  assert (∀ b k, below l'' b k = below l b k) as Hbelow.
  { intros. by rewrite Hb, (sv_below _ _ Hv), (vs_below _ _ _ _ _ V). }
  assert (∀ b, inner_below l'' b = inner_below l b) as Hinner.
  { intros. by rewrite Hi, (sv_inner_below _ _ Hv), (vs_inner_below _ _ _ _ _ V). }
  assert (accounts l !! addr_String a = None) as Ha0 by (apply eq_None_not_Some; intros ?; apply Hno; by left).
  assert (accounts l'' !! addr_String a = None) as Ha by (rewrite Hacc; apply lookup_delete_eq).
  assert (∀ b, b ≠ a → accounts l'' !! addr_String b = accounts l' !! addr_String b) as Hne.
  { intros b Hne. rewrite Hacc. by rewrite lookup_delete_ne by (by apply not_eq_sym, addr_String_ne). }
  split; [| |done|done| |].
  - intros b k. destruct (decide (b = a)) as [->|Hba]; [unfold state_view; by rewrite Ha, Ha0, Hbelow|].
    transitivity (state_view l' b k); [unfold state_view; by rewrite Hne, Hb|].
    by rewrite (sv_state _ _ Hv), (vs_state _ _ _ _ _ V), decide_False.
  - intros b. destruct (decide (b = a)) as [->|Hba]; [unfold inner_of; by rewrite Ha, Ha0, Hinner|].
    transitivity (inner_of l' b); [unfold inner_of; by rewrite Hne, Hi|].
    by rewrite (sv_inner _ _ Hv), (vs_inner _ _ _ _ _ V), decide_False.
  - intros b. destruct (decide (b = a)) as [->|Hba]; [unfold exists_acc; by rewrite Ha, Ha0, Hinner|].
    transitivity (exists_acc l' b); [unfold exists_acc; by rewrite Hne, Hi|].
    rewrite (sv_exists _ _ Hv), (vs_exists _ _ _ _ _ V). tauto.
  - by rewrite Hr, (sv_rest _ _ Hv), (vs_rest _ _ _ _ _ V).
Qed.

(** Reverting the creation of an account removes it. *)
Lemma undo_create l0 a l1 :
  view_set l0 a (state_view l0 a) (inner_of l0 a) l1 → ¬ exists_acc l0 a →
  undoes l1 [createObjectChange a] l0.
Proof.
  intros V Hno. apply undoes_one; [by apply vs_changer in V|]. intros l' Hv Hwf.
  assert (inner_below l' a = None) as Hnone.
  { rewrite (sv_inner_below _ _ Hv), (vs_inner_below _ _ _ _ _ V).
    apply eq_None_not_Some. intros ?. apply Hno. by right. }
  eexists. split; [done|]. split_and!.
  - apply (remove_account_view _ _ _ _ _ _ _ V Hno Hv); try done.
    intros b. unfold inner_below. simpl. rewrite lru_Get_Remove. case_decide as Es; [|done].
    rewrite Es. unfold inner_below in Hnone. by case_match.
  - destruct Hwf as [W1 W2 W3 W4 W5]. split; [|done| |done|done].
    + simpl. intros s o [_ Hs]%lookup_delete_Some. by apply W1.
    + simpl. intros s o [_ Hs]%lookup_delete_Some. by eapply W3.
  - split; [by apply log_ext_nil|done|done].
Qed.

Lemma GetOrCreateAccount_spec l a :
  ledger_wf l → ∃ o chs l', GetOrCreateAccount a l = Some (o, l') ∧ got l a o chs l'.
Proof.
  intros Hwf. destruct (GetAccount_spec l a Hwf) as (r & l1 & E & Hr).
  unfold GetOrCreateAccount, mbind, LM_bind. rewrite E. destruct r as [o|].
  { exists o, [], l1. split; [done|]. by apply loaded_got. }
  destruct Hr as (Hno & Hb & Hacc & Hch). pose proof (same_below_changer _ _ Hb) as Hc.
  set (o := newAccount a (l_changer l1)).
  set (l2 := set_accounts (<[addr_String a := o]> (accounts l1))
               (set_shared (log_change (l_shared l1) (l_changer l1) (createObjectChange a)) l1)).
  exists o, [createObjectChange a], l2. split; [done|].
  assert (account_set l a o l2) as Hset.
  { split; [|by simpl; rewrite Hacc]. transitivity l1; [done|]. by split. }
  assert (log_ext l [createObjectChange a] l2) as Hlog.
  { destruct (lw_log _ Hwf) as [s Hs]. unfold log_ext, log_of. simpl. rewrite Hch, Hc, lookup_alter_eq, Hs. eauto. }
  assert (view_set l a (state_view l a) (inner_of l a) l2) as V.
  { pose proof (account_set_view _ _ _ _ Hset) as [Vs Vi ? ? ? ?]. split; try done.
    - intros b k. rewrite Vs. case_decide; [|done]. unfold state_view, acc_state. simpl. rewrite !lookup_empty.
      case_match eqn:Ea; [|done]. destruct Hno. left. by rewrite Ea.
    - intros b. rewrite Vi. case_decide; [|done]. unfold inner_of, acc_inner. simpl.
      case_match eqn:Ea; [destruct Hno; left; by rewrite Ea|].
      destruct (inner_below l a) eqn:Ei; [|done]. destruct Hno. right. by rewrite Ei. }
  split; try done; [by simpl; rewrite lookup_insert_eq|apply Hset|by apply undo_create|].
  by apply (account_set_wf _ _ _ _ _ Hset Hlog).
Qed.

(** A method that turns the account into [o'] and logs [chs]: the result, the views and the
log afterwards. *)
Record ran l a chs0 l1 (o' : SimpleAccount) chs l' : Prop := {
  rn_view : view_set l1 a (λ k, acc_state o' (below l a k) k) (acc_inner o') l';
  rn_below : same_below l l';
  rn_log : log_ext l (chs0 ++ chs) l';
  rn_wf : ledger_wf l' }.

Lemma on_account_run {A} l a (f : SimpleAccount → shared → A * SimpleAccount * shared) o chs0 l1 r o' sh' chs :
  ledger_wf l → GetOrCreateAccount a l = Some (o, l1) → got l a o chs0 l1 →
  f o (l_shared l1) = (r, o', sh') → Addr o' = a → acc_changer o' = l_changer l →
  shared_ext (l_changer l) (l_shared l1) chs sh' →
  ∃ l', on_account a f l = Some (r, l') ∧ ran l a chs0 l1 o' chs l'.
Proof.
  intros Hwf E G Ef Ha Hc Hse.
  unfold on_account, mbind, LM_bind. rewrite E. unfold lm_state. rewrite Ef. eexists. split; [done|].
  pose proof (gt_wf _ _ _ _ _ G) as Hwf1. pose proof (same_below_changer _ _ (gt_below _ _ _ _ _ G)) as Hlc.
  rewrite <-Hlc in Hse, Hc. destruct (set_account_spec l1 a o' sh' chs Hwf1 Hse) as [Hset Hlog]. split.
  - pose proof (account_set_view _ _ _ _ Hset) as [Vs]. split; try done.
    intros b k. rewrite Vs. by rewrite (vs_below _ _ _ _ _ (gt_view _ _ _ _ _ G)).
  - transitivity l1; [apply G|apply Hset].
  - by apply (log_ext_trans _ l1); [apply G|].
  - by apply (account_set_wf _ _ _ _ _ Hset Hlog).
Qed.

(** ** Methods of accounts *)

Lemma dirtyOrCopy_inner o : dirtyOrCopy o = acc_inner o.
Proof. unfold dirtyOrCopy, acc_inner. rewrite CopyOrNewIfEmpty_spec. by destruct (dirtyAccount o). Qed.

Lemma acc_setState_state o k v b k' :
  acc_state (acc_setState o k v) b k' = if decide (k' = k) then v else acc_state o b k'.
Proof.
  unfold acc_state. simpl. rewrite lookup_insert. destruct (decide (k = k')) as [->|]; [by rewrite decide_True|].
  by rewrite decide_False.
Qed.

Lemma acc_setBalance_inner o z :
  acc_inner (acc_setBalance o z) = MkInner (ia_Nonce (acc_inner o)) z (ia_CodeHash (acc_inner o)).
Proof. unfold acc_setBalance. by rewrite dirtyOrCopy_inner. Qed.

Lemma acc_setNonce_inner o z :
  acc_inner (acc_setNonce o z) = MkInner z (ia_Balance (acc_inner o)) (ia_CodeHash (acc_inner o)).
Proof. unfold acc_setNonce. by rewrite dirtyOrCopy_inner. Qed.

Lemma acc_GetBalance_inner o : acc_GetBalance o = ia_Balance (acc_inner o).
Proof. unfold acc_GetBalance, acc_inner. destruct (dirtyAccount o); [done|]. by destruct (originAccount o). Qed.

Lemma acc_GetNonce_inner o : acc_GetNonce o = ia_Nonce (acc_inner o).
Proof. unfold acc_GetNonce, acc_inner. destruct (dirtyAccount o); [done|]. by destruct (originAccount o). Qed.

(** A method that only loads: the account shows the same. *)
Record acc_same l a o o' : Prop := {
  am_state k : acc_state o' (below l a k) k = acc_state o (below l a k) k;
  am_inner : acc_inner o' = acc_inner o;
  am_addr : Addr o' = Addr o;
  am_changer : acc_changer o' = acc_changer o }.

Lemma acc_same_refl l a o : acc_same l a o o.
Proof. by split. Qed.

Lemma acc_GetState_spec l1 o k :
  let '(v, o', sh') := acc_GetState o (l_shared l1) k in
  v = acc_state o (below l1 (Addr o) k) k ∧ acc_same l1 (Addr o) o o' ∧
  ∀ p, shared_ext p (l_shared l1) [] sh'.
Proof.
  unfold acc_GetState. destruct (dirtyState o !! k) as [v|] eqn:Ed.
  { split_and!; [unfold acc_state; by rewrite Ed|done|]. intros p. apply shared_ext_refl. }
  destruct (originState o !! k) as [v|] eqn:Eo.
  { split_and!; [unfold acc_state; by rewrite Ed, Eo|done|]. intros p. apply shared_ext_refl. }
  destruct (cache_getState_spec (sh_cache (l_shared l1)) (Addr o) k) as [Er Hc].
  destruct (cache_getState _ _ _) as [r ac]. simpl in Er, Hc.
  split_and!; [| |intros p; by apply shared_ext_cache].
  - unfold acc_state, below. rewrite Ed, Eo, <-Er. by destruct r.
  - split; [|done|done|done]. intros k'. unfold acc_state. simpl.
    destruct (dirtyState o !! k') eqn:Ed'; [done|]. rewrite lookup_insert.
    destruct (decide (k = k')) as [<-|]; [|done]. rewrite Eo. unfold below. rewrite <-Er. by destruct r.
Qed.

Lemma acc_Code_spec l1 o :
  let '(v, o', sh') := acc_Code o (l_shared l1) in
  acc_same l1 (Addr o) o o' ∧ ∀ p, shared_ext p (l_shared l1) [] sh'.
Proof.
  unfold acc_Code. destruct (dirtyCode o); [by split; [|intros; apply shared_ext_refl]|].
  destruct (originCode o); [by split; [|intros; apply shared_ext_refl]|].
  destruct (bytes_Equal _ _); [by split; [|intros; apply shared_ext_refl]|].
  pose proof (cache_getCode_equiv (sh_cache (l_shared l1)) (Addr o)) as Hc.
  destruct (cache_getCode _ _) as [r ac]. split; [done|]. intros p. by apply shared_ext_cache.
Qed.

Lemma acc_IsEmpty_spec l1 o :
  let '(v, o', sh') := acc_IsEmpty o (l_shared l1) in
  acc_same l1 (Addr o) o o' ∧ ∀ p, shared_ext p (l_shared l1) [] sh'.
Proof.
  unfold acc_IsEmpty. destruct (negb _); [by split; [|intros; apply shared_ext_refl]|].
  pose proof (acc_Code_spec l1 o) as Hc. by destruct (acc_Code o (l_shared l1)) as [[v o'] sh'].
Qed.

(** What a method of an account changes is undone by setting the views back. *)
Lemma undo_method l a o chs0 l1 o' chs l' :
  got l a o chs0 l1 → ran l a chs0 l1 o' chs l' →
  undoes l' chs l1 → undoes l' (chs0 ++ chs) l.
Proof.
  intros G R U. apply (undoes_app _ _ l1); [done|apply G|].
  by apply (vs_changer _ _ _ _ _ (rn_view _ _ _ _ _ _ _ R)).
Qed.

(** Running an unlogged method on an account that exists, from a ledger that shows what [l']
shows after a method was run on that account. *)
Lemma undo_account l1 a st inn l' ch (g : SimpleAccount → SimpleAccount) :
  view_set l1 a st inn l' → exists_acc l1 a →
  revert_change ch = on_account a (λ o sh, (tt, g o, sh)) →
  (∀ o, Addr (g o) = Addr o ∧ acc_changer (g o) = acc_changer o) →
  (∀ o, (∀ k, acc_state o (below l1 a k) k = st k) → acc_inner o = inn →
     (∀ k, acc_state (g o) (below l1 a k) k = state_view l1 a k) ∧ acc_inner (g o) = inner_of l1 a) →
  undoes l' [ch] l1.
Proof.
  intros V Hex Hr Hg Hgv. apply undoes_one; [by apply vs_changer in V|]. intros l2 Hv Hwf. rewrite Hr.
  destruct (GetOrCreateAccount_spec l2 a Hwf) as (o & chs0 & l3 & E3 & G).
  assert (exists_acc l2 a) as Hex2 by (apply (sv_exists _ _ Hv), (vs_exists _ _ _ _ _ V); by left).
  destruct (Hg o) as [Hga Hgc]. pose proof (gt_known _ _ _ _ _ G Hex2) as ->.
  destruct (on_account_run l2 a (λ o sh, (tt, g o, sh)) o [] l3 tt (g o) (l_shared l3) [])
    as (l4 & E & R); [done|done|done|done| | |apply shared_ext_refl|].
  { by rewrite Hga, (gt_addr _ _ _ _ _ G). }
  { by rewrite Hgc, (gt_changer _ _ _ _ _ G). }
  assert (∀ k, below l2 a k = below l1 a k) as Hbelow.
  { intros k. by rewrite (sv_below _ _ Hv), (vs_below _ _ _ _ _ V). }
  destruct (Hgv o) as [Hs Hi].
  { intros k. rewrite <-Hbelow, (got_state _ _ _ _ _ _ G), (sv_state _ _ Hv), (vs_state _ _ _ _ _ V).
    by rewrite decide_True. }
  { rewrite (got_inner _ _ _ _ _ G), (sv_inner _ _ Hv), (vs_inner _ _ _ _ _ V). by rewrite decide_True. }
  exists l4. split; [done|]. split_and!; [|apply R|].
  - eapply (view_set_back l1 a st inn l' l3 _ _ l4 V); [|apply R|done| |done].
    + transitivity l2; [done|]. apply (view_set_same _ _ _ _ _ (gt_view _ _ _ _ _ G)); done.
    + intros k. simpl. by rewrite Hbelow.
  - destruct (same_below_revisions _ _ (rn_below _ _ _ _ _ _ _ R)). split; [apply R|done|done].
Qed.

(** ** Operations of the ledger *)

Lemma view_set_trans l a st inn l1 st' inn' l' :
  view_set l a st inn l1 → view_set l1 a st' inn' l' → view_set l a st' inn' l'.
Proof.
  intros V V'. split.
  - intros b k. rewrite (vs_state _ _ _ _ _ V'), (vs_state _ _ _ _ _ V). by case_decide.
  - intros b. rewrite (vs_inner _ _ _ _ _ V'), (vs_inner _ _ _ _ _ V). by case_decide.
  - intros b. rewrite (vs_exists _ _ _ _ _ V'), (vs_exists _ _ _ _ _ V). tauto.
  - intros. by rewrite (vs_below _ _ _ _ _ V'), (vs_below _ _ _ _ _ V).
  - intros. by rewrite (vs_inner_below _ _ _ _ _ V'), (vs_inner_below _ _ _ _ _ V).
  - by rewrite (vs_rest _ _ _ _ _ V'), (vs_rest _ _ _ _ _ V).
Qed.

(** The operation returns, keeps the invariant and the revisions, and what it changed can
be undone from what it logged. *)
Record logged l l' : Prop := {
  lg_wf : ledger_wf l';
  lg_log : ∃ chs, log_ext l chs l' ∧ undoes l' chs l;
  lg_revisions : validRevisions l' = validRevisions l;
  lg_next : nextRevisionId l' = nextRevisionId l;
  lg_changer : l_changer l' = l_changer l;
  lg_events : l_events l' = l_events l }.

Lemma logged_refl l : ledger_wf l → logged l l.
Proof. intros Hwf. split; try done. exists []. split; [by apply log_ext_nil|by apply undoes_nil]. Qed.

Lemma logged_trans l1 l2 l3 : logged l1 l2 → logged l2 l3 → logged l1 l3.
Proof.
  intros [? (c1 & L1 & U1) ????] [? (c2 & L2 & U2) ????]. split; try congruence.
  exists (c1 ++ c2). split; [by eapply log_ext_trans|by eapply undoes_app].
Qed.

Lemma ran_logged l a o chs0 l1 o' chs l' :
  got l a o chs0 l1 → ran l a chs0 l1 o' chs l' → undoes l' chs l1 → logged l l'.
Proof.
  intros G R U. destruct (same_below_revisions _ _ (rn_below _ _ _ _ _ _ _ R)).
  split; [apply R| |done|done|by apply same_below_changer, R|by rewrite (sb_rest _ _ (rn_below _ _ _ _ _ _ _ R))].
  exists (chs0 ++ chs). split; [apply R|]. by eapply undo_method.
Qed.

(** The effect of an operation on the account [a]. *)
Record effect l a st inn l' : Prop := {
  ef_view : view_set l a st inn l';
  ef_logged : logged l l' }.

(** A method that only reads, for the account that is found or created. *)
Lemma method_reads {A} l a (f : SimpleAccount → shared → A * SimpleAccount * shared) o chs0 l1 r o' sh' :
  ledger_wf l → GetOrCreateAccount a l = Some (o, l1) → got l a o chs0 l1 →
  f o (l_shared l1) = (r, o', sh') → acc_same l1 a o o' → (∀ p, shared_ext p (l_shared l1) [] sh') →
  ∃ l', on_account a f l = Some (r, l') ∧ effect l a (state_view l a) (inner_of l a) l'.
Proof.
  intros Hwf E G Ef Hsame Hse. pose proof (gt_view _ _ _ _ _ G) as V.
  destruct (on_account_run l a f o chs0 l1 r o' sh' [] Hwf E G Ef) as (l' & E' & R); [| |done|].
  { by rewrite (am_addr _ _ _ _ Hsame), (gt_addr _ _ _ _ _ G). }
  { by rewrite (am_changer _ _ _ _ Hsame), (gt_changer _ _ _ _ _ G). }
  assert (view_set l1 a (state_view l a) (inner_of l a) l') as V'.
  { pose proof (rn_view _ _ _ _ _ _ _ R) as [Vs Vi ? ? ? ?]. split; try done.
    - intros b k. rewrite Vs. case_decide; [|done]. subst b.
      rewrite <-(vs_below _ _ _ _ _ V), (am_state _ _ _ _ Hsame), (vs_below _ _ _ _ _ V).
      apply (got_state _ _ _ _ _ k G).
    - intros b. rewrite Vi. case_decide; [|done]. rewrite (am_inner _ _ _ _ Hsame).
      apply (got_inner _ _ _ _ _ G). }
  exists l'. split; [done|]. split; [by eapply view_set_trans|].
  apply (ran_logged _ _ _ _ _ _ _ _ G R), undoes_nil.
  apply (view_set_same _ _ _ _ _ V'); [by eapply got_exists| |].
  - intros k. by rewrite (vs_state _ _ _ _ _ V), decide_True.
  - by rewrite (vs_inner _ _ _ _ _ V), decide_True.
Qed.

(** A method that turns the account into one that shows [st] and [inn] and logs a change
[ch], which the unlogged method [g] reverts. *)
Lemma method_writes l a (f : SimpleAccount → shared → () * SimpleAccount * shared) o chs0 l1 o' sh'
    st inn ch (g : SimpleAccount → SimpleAccount) :
  ledger_wf l → GetOrCreateAccount a l = Some (o, l1) → got l a o chs0 l1 →
  f o (l_shared l1) = (tt, o', sh') → Addr o' = a → acc_changer o' = l_changer l →
  shared_ext (l_changer l) (l_shared l1) [ch] sh' →
  (∀ k, acc_state o' (below l a k) k = st k) → acc_inner o' = inn →
  revert_change ch = on_account a (λ o sh, (tt, g o, sh)) →
  (∀ o, Addr (g o) = Addr o ∧ acc_changer (g o) = acc_changer o) →
  (∀ o, (∀ k, acc_state o (below l a k) k = st k) → acc_inner o = inn →
     (∀ k, acc_state (g o) (below l a k) k = state_view l a k) ∧ acc_inner (g o) = inner_of l a) →
  ∃ l', on_account a f l = Some (tt, l') ∧ effect l a st inn l'.
Proof.
  intros Hwf E G Ef Ha Hc Hse Hst Hin Hr Hg Hgv. pose proof (gt_view _ _ _ _ _ G) as V.
  destruct (on_account_run l a f o chs0 l1 tt o' sh' [ch] Hwf E G Ef Ha Hc Hse) as (l' & E' & R).
  assert (view_set l1 a st inn l') as V'.
  { pose proof (rn_view _ _ _ _ _ _ _ R) as [Vs Vi ? ? ? ?]. split; try done.
    - intros b k. rewrite Vs. by case_decide.
    - intros b. rewrite Vi. by case_decide. }
  exists l'. split; [done|]. split; [by eapply view_set_trans|].
  apply (ran_logged _ _ _ _ _ _ _ _ G R).
  apply (undo_account _ _ _ _ _ _ g V'); [by eapply got_exists|done|done|].
  intros o2 H1' H2'. destruct (Hgv o2) as [Hs' Hi'].
  - intros k. by rewrite <-(vs_below _ _ _ _ _ V).
  - done.
  - split.
    + intros k. rewrite (vs_below _ _ _ _ _ V), Hs'. by rewrite (vs_state _ _ _ _ _ V), decide_True.
    + by rewrite Hi', (vs_inner _ _ _ _ _ V), decide_True.
Qed.

Lemma GetState_effect l a k :
  ledger_wf l →
  ∃ l', GetState a k l = Some (state_view l a k, l') ∧ effect l a (state_view l a) (inner_of l a) l'.
Proof.
  intros Hwf. destruct (GetOrCreateAccount_spec l a Hwf) as (o & chs0 & l1 & E & G).
  pose proof (acc_GetState_spec l1 o k) as Hg.
  destruct (acc_GetState o (l_shared l1) k) as [[v o'] sh'] eqn:Ef. destruct Hg as (-> & Hsame & Hse).
  rewrite (gt_addr _ _ _ _ _ G) in *.
  rewrite (vs_below _ _ _ _ _ (gt_view _ _ _ _ _ G)), (got_state _ _ _ _ _ _ G) in Ef.
  by apply (method_reads l a _ o chs0 l1 _ o' sh').
Qed.

Lemma GetBalance_effect l a :
  ledger_wf l →
  ∃ l', GetBalance a l = Some (ia_Balance (inner_of l a), l') ∧
        effect l a (state_view l a) (inner_of l a) l'.
Proof.
  intros Hwf. destruct (GetOrCreateAccount_spec l a Hwf) as (o & chs0 & l1 & E & G).
  apply (method_reads l a _ o chs0 l1 _ o (l_shared l1)); try done; [|intros; apply shared_ext_refl].
  by rewrite acc_GetBalance_inner, (got_inner _ _ _ _ _ G).
Qed.

Lemma GetNonce_effect l a :
  ledger_wf l →
  ∃ l', GetNonce a l = Some (ia_Nonce (inner_of l a), l') ∧
        effect l a (state_view l a) (inner_of l a) l'.
Proof.
  intros Hwf. destruct (GetOrCreateAccount_spec l a Hwf) as (o & chs0 & l1 & E & G).
  apply (method_reads l a _ o chs0 l1 _ o (l_shared l1)); try done; [|intros; apply shared_ext_refl].
  by rewrite acc_GetNonce_inner, (got_inner _ _ _ _ _ G).
Qed.

Lemma acc_CodeHash_inner o : acc_CodeHash o = ia_CodeHash (acc_inner o).
Proof. unfold acc_CodeHash, acc_inner. by destruct (dirtyAccount o), (originAccount o). Qed.

Lemma CodeHash_effect l a :
  ledger_wf l →
  ∃ l', account_CodeHash a l = Some (ia_CodeHash (inner_of l a), l') ∧
        effect l a (state_view l a) (inner_of l a) l'.
Proof.
  intros Hwf. destruct (GetOrCreateAccount_spec l a Hwf) as (o & chs0 & l1 & E & G).
  apply (method_reads l a _ o chs0 l1 _ o (l_shared l1)); try done; [|intros; apply shared_ext_refl].
  by rewrite acc_CodeHash_inner, (got_inner _ _ _ _ _ G).
Qed.

Lemma SetState_effect l a k v :
  ledger_wf l →
  ∃ l', SetState a k v None l = Some (tt, l') ∧
        effect l a (λ k', if decide (k' = k) then v else state_view l a k') (inner_of l a) l'.
Proof.
  intros Hwf. destruct (GetOrCreateAccount_spec l a Hwf) as (o & chs0 & l1 & E & G).
  pose proof (acc_GetState_spec l1 o k) as Hg.
  destruct (acc_GetState o (l_shared l1) k) as [[v0 o'] sh'] eqn:Ef. destruct Hg as (-> & Hsame & Hse).
  destruct Hsame as [Hss Hsi Hsa Hsc].
  rewrite (gt_addr _ _ _ _ _ G), (gt_changer _ _ _ _ _ G) in *.
  rewrite (vs_below _ _ _ _ _ (gt_view _ _ _ _ _ G)), (got_state _ _ _ _ _ _ G) in Ef.
  apply (method_writes l a _ o chs0 l1 (acc_setState o' k v)
           (log_change sh' (l_changer l) (storageChange a k (state_view l a k)))
           _ _ (storageChange a k (state_view l a k)) (λ o, acc_setState o k (state_view l a k)));
    try done.
  - unfold no_result, acc_SetState. rewrite Ef. simpl. by rewrite Hsc, Hsa.
  - by apply (shared_ext_log _ _ _ _ []).
  - intros k'. rewrite acc_setState_state. case_decide; [done|].
    rewrite <-(vs_below _ _ _ _ _ (gt_view _ _ _ _ _ G)), Hss, (vs_below _ _ _ _ _ (gt_view _ _ _ _ _ G)).
    apply (got_state _ _ _ _ _ _ G).
  - change (acc_inner (acc_setState o' k v)) with (acc_inner o'). rewrite Hsi. apply (got_inner _ _ _ _ _ G).
  - intros o2 Hs Hi. split; [|done]. intros k'. rewrite acc_setState_state, Hs. by case_decide; subst.
Qed.

(** Setting the balance, after the method may have loaded something. *)
Lemma balance_method l a f o chs0 l1 o2 sh2 z :
  ledger_wf l → GetOrCreateAccount a l = Some (o, l1) → got l a o chs0 l1 →
  acc_same l1 a o o2 → (∀ p, shared_ext p (l_shared l1) [] sh2) →
  f o (l_shared l1) = no_result (acc_SetBalance o2 sh2 z) →
  ∃ l', on_account a f l = Some (tt, l') ∧
        effect l a (state_view l a) (MkInner (ia_Nonce (inner_of l a)) z (ia_CodeHash (inner_of l a))) l'.
Proof.
  intros Hwf E G [Hss Hsi Hsa Hsc] Hse Hf. pose proof (got_inner _ _ _ _ _ G) as Hi. rewrite <-Hsi in Hi.
  rewrite (gt_addr _ _ _ _ _ G) in Hsa. rewrite (gt_changer _ _ _ _ _ G) in Hsc.
  apply (method_writes l a f o chs0 l1 (acc_setBalance o2 z)
           (log_change sh2 (l_changer l) (balanceChange a (ia_Balance (inner_of l a))))
           _ _ (balanceChange a (ia_Balance (inner_of l a)))
           (λ o, acc_setBalance o (ia_Balance (inner_of l a)))); try done.
  - rewrite Hf. unfold no_result, acc_SetBalance. simpl. by rewrite acc_GetBalance_inner, Hi, Hsa, Hsc.
  - by apply (shared_ext_log _ _ _ _ []).
  - intros k. change (acc_state (acc_setBalance o2 z)) with (acc_state o2).
    rewrite <-(vs_below _ _ _ _ _ (gt_view _ _ _ _ _ G)), Hss, (vs_below _ _ _ _ _ (gt_view _ _ _ _ _ G)).
    apply (got_state _ _ _ _ _ _ G).
  - by rewrite acc_setBalance_inner, Hi.
  - intros o3 Hs Hi3. split; [done|]. rewrite acc_setBalance_inner, Hi3. by destruct (inner_of l a).
Qed.

(** The record of an account with another balance or nonce. *)
Definition with_balance (i : InnerAccount) (z : Z) : InnerAccount := MkInner (ia_Nonce i) z (ia_CodeHash i).
Definition with_nonce (i : InnerAccount) (z : Z) : InnerAccount := MkInner z (ia_Balance i) (ia_CodeHash i).

Lemma with_balance_same i : with_balance i (ia_Balance i) = i.
Proof. by destruct i. Qed.

Lemma SetBalance_effect l a z :
  ledger_wf l →
  ∃ l', SetBalance a z l = Some (tt, l') ∧ effect l a (state_view l a) (with_balance (inner_of l a) z) l'.
Proof.
  intros Hwf. destruct (GetOrCreateAccount_spec l a Hwf) as (o & chs0 & l1 & E & G).
  apply (balance_method l a _ o chs0 l1 o (l_shared l1)); try done. intros. apply shared_ext_refl.
Qed.

Lemma AddBalance_effect l a z :
  ledger_wf l →
  ∃ l', AddBalance a z l = Some (tt, l') ∧
        effect l a (state_view l a) (with_balance (inner_of l a) (ia_Balance (inner_of l a) + z)) l'.
Proof.
  intros Hwf. destruct (decide (z = 0)%Z) as [->|Hz].
  - rewrite Z.add_0_r, with_balance_same.
    destruct (GetOrCreateAccount_spec l a Hwf) as (o & chs0 & l1 & E & G).
    apply (method_reads l a _ o chs0 l1 _ o (l_shared l1)); try done. intros; apply shared_ext_refl.
  - destruct (GetOrCreateAccount_spec l a Hwf) as (o & chs0 & l1 & E & G).
    apply (balance_method l a _ o chs0 l1 o (l_shared l1)); try done; [intros; apply shared_ext_refl|].
    unfold acc_AddBalance. rewrite decide_False by done.
    by rewrite acc_GetBalance_inner, (got_inner _ _ _ _ _ G).
Qed.

Lemma acc_IsEmpty_true o sh : (acc_IsEmpty o sh).1.1 = true → acc_GetBalance o = 0%Z ∧ acc_GetNonce o = 0%Z.
Proof.
  unfold acc_IsEmpty. destruct (bool_decide_reflect (acc_GetBalance o = 0%Z)); [|done].
  by destruct (bool_decide_reflect (acc_GetNonce o = 0%Z)).
Qed.

(** [SubBalance] does nothing to an account that is empty. *)
Lemma SubBalance_effect l a z :
  ledger_wf l →
  ∃ l' i, SubBalance a z l = Some (tt, l') ∧ effect l a (state_view l a) i l' ∧
    (i = with_balance (inner_of l a) (ia_Balance (inner_of l a) - z) ∨
     ia_Balance (inner_of l a) = 0%Z ∧ ia_Nonce (inner_of l a) = 0%Z ∧ i = inner_of l a).
Proof.
  intros Hwf. destruct (GetOrCreateAccount_spec l a Hwf) as (o & chs0 & l1 & E & G).
  pose proof (acc_IsEmpty_spec l1 o) as Hem. pose proof (acc_IsEmpty_true o (l_shared l1)) as Htrue.
  destruct (acc_IsEmpty o (l_shared l1)) as [[empty o'] sh'] eqn:Ee. destruct Hem as [Hsame Hse].
  rewrite (gt_addr _ _ _ _ _ G) in Hsame. unfold SubBalance.
  rewrite acc_GetBalance_inner, acc_GetNonce_inner, (got_inner _ _ _ _ _ G) in Htrue.
  destruct empty.
  - destruct Htrue as [Hb Hn]; [done|].
    destruct (method_reads l a (λ o sh, let '(empty, o, sh) := acc_IsEmpty o sh in
      if empty then (tt, o, sh) else no_result (acc_SubBalance o sh z)) o chs0 l1 tt o' sh')
      as (l' & E' & He); try done; [by rewrite Ee|].
    exists l', (inner_of l a). eauto 10.
  - destruct (decide (z = 0)%Z) as [->|Hz].
    + destruct (method_reads l a (λ o sh, let '(empty, o, sh) := acc_IsEmpty o sh in
        if empty then (tt, o, sh) else no_result (acc_SubBalance o sh 0)) o chs0 l1 tt o' sh')
        as (l' & E' & He); try done; [by rewrite Ee|].
      exists l', (inner_of l a). split_and!; [done..|]. left. by rewrite Z.sub_0_r, with_balance_same.
    + destruct (balance_method l a (λ o sh, let '(empty, o, sh) := acc_IsEmpty o sh in
        if empty then (tt, o, sh) else no_result (acc_SubBalance o sh z)) o chs0 l1 o' sh'
        (ia_Balance (inner_of l a) - z)) as (l' & E' & He); try done; [|eauto 10].
      rewrite Ee. unfold acc_SubBalance. rewrite decide_False by done.
      by rewrite acc_GetBalance_inner, (am_inner _ _ _ _ Hsame), (got_inner _ _ _ _ _ G).
Qed.

Lemma SetNonce_effect l a z :
  ledger_wf l →
  ∃ l', SetNonce a z l = Some (tt, l') ∧ effect l a (state_view l a) (with_nonce (inner_of l a) z) l'.
Proof.
  intros Hwf. destruct (GetOrCreateAccount_spec l a Hwf) as (o & chs0 & l1 & E & G).
  pose proof (got_inner _ _ _ _ _ G) as Hi.
  apply (method_writes l a _ o chs0 l1 (acc_setNonce o z)
           (log_change (l_shared l1) (l_changer l) (nonceChange a (ia_Nonce (inner_of l a))))
           _ _ (nonceChange a (ia_Nonce (inner_of l a)))
           (λ o, acc_setNonce o (ia_Nonce (inner_of l a)))); try done; try apply G.
  - unfold no_result, acc_SetNonce. simpl.
    by rewrite acc_GetNonce_inner, Hi, (gt_addr _ _ _ _ _ G), (gt_changer _ _ _ _ _ G).
  - apply (shared_ext_log _ _ _ _ []), shared_ext_refl.
  - intros k. apply (got_state _ _ _ _ _ _ G).
  - by rewrite acc_setNonce_inner, Hi.
  - intros o2 Hs Hi2. split; [done|]. rewrite acc_setNonce_inner, Hi2. by destruct (inner_of l a).
Qed.

(** ** Operations on the rest of the ledger *)

(** The accounts and the layers below them are the same. *)
Record only_rest l l' : Prop := {
  or_accounts : accounts l' = accounts l;
  or_ldb : sh_ldb (l_shared l') = sh_ldb (l_shared l);
  or_cache : sh_cache (l_shared l') = sh_cache (l_shared l) }.

Lemma only_rest_layers l l' :
  only_rest l l' →
  (∀ a k, state_view l' a k = state_view l a k) ∧ (∀ a, inner_of l' a = inner_of l a) ∧
  (∀ a k, below l' a k = below l a k) ∧ (∀ a, inner_below l' a = inner_below l a) ∧
  (∀ a, exists_acc l' a ↔ exists_acc l a).
Proof.
  intros [Ha Hd Hc].
  assert (∀ b k, below l' b k = below l b k) as Hb by (intros; unfold below; by rewrite Hd, Hc).
  assert (∀ b, inner_below l' b = inner_below l b) as Hi by (intros; unfold inner_below; by rewrite Hd, Hc).
  split_and!; try done; intros.
  - unfold state_view. by rewrite Ha, Hb.
  - unfold inner_of. by rewrite Ha, Hi.
  - unfold exists_acc. by rewrite Ha, Hi.
Qed.

Lemma only_rest_back l l1 l2 l3 :
  only_rest l l1 → same_view l1 l2 → only_rest l2 l3 → rest_of l3 = rest_of l → same_view l l3.
Proof.
  intros (A1 & A2 & A3 & A4 & A5)%only_rest_layers [] (B1 & B2 & B3 & B4 & B5)%only_rest_layers Hr.
  split; try done; intros; try congruence. by rewrite B5, <-A5.
Qed.

Lemma only_rest_wf l l' chs :
  only_rest l l' → log_ext l chs l' → l_changer l' = l_changer l →
  (∀ h es, el_logs (logs l') !! h = Some es → es ≠ []) → ledger_wf l → ledger_wf l'.
Proof.
  intros [Ha Hd _] [Hl _] Hc Hlogs [W1 W2 W3 _ _].
  split; [by rewrite Ha|by rewrite Hd|by rewrite Ha, Hc|done|done].
Qed.

(** An update of nothing but refunds, preimages, logs and access list. *)
Record rest_update (g : SimpleLedger → SimpleLedger) : Prop := {
  ru_only l : only_rest l (g l);
  ru_changer l : l_changer (g l) = l_changer l;
  ru_changers l : sh_changers (l_shared (g l)) = sh_changers (l_shared l);
  ru_revisions l : validRevisions (g l) = validRevisions l;
  ru_next l : nextRevisionId (g l) = nextRevisionId l;
  ru_events l : l_events (g l) = l_events l }.

(** A change of the rest that [h] sets back. *)
Lemma undo_rest l1 ch h l0 :
  only_rest l0 l1 → l_changer l1 = l_changer l0 → rest_update h → revert_change ch = lm_modify h →
  (∀ th es, el_logs (logs l0) !! th = Some es → es ≠ []) →
  (∀ l2, rest_of l2 = rest_of l1 → rest_of (h l2) = rest_of l0) →
  undoes l1 [ch] l0.
Proof.
  intros Hor Hc [Hor2 Hc2 Hchs2 Hrev2 Hnext2 _] Hr Hlogs Hback.
  apply undoes_one; [done|]. intros l2 Hv Hwf2. rewrite Hr. exists (h l2).
  assert (log_ext l2 [] (h l2)) as Hlog2 by (by apply log_ext_nil).
  assert (rest_of (h l2) = rest_of l0) as Hrest by apply Hback, Hv.
  split_and!; [done|by apply (only_rest_back _ l1 l2)| |by split].
  apply (only_rest_wf l2 _ []); try done. by injection Hrest as _ _ -> _ _.
Qed.

Lemma log_ext_log l ch l' :
  ledger_wf l → l_changer l' = l_changer l →
  sh_changers (l_shared l') = sh_changers (log_change (l_shared l) (l_changer l) ch) → log_ext l [ch] l'.
Proof.
  intros Hwf Hc Hs. destruct (lw_log _ Hwf) as [s Es]. unfold log_ext, log_of. rewrite Hc, Hs. simpl.
  rewrite lookup_alter_eq, Es. simpl. split; [by eexists|]. unfold changer_append. by destruct (dirtied ch).
Qed.

(** Logging a change and setting the rest with [g], which [h] sets back. *)
Lemma rest_writes l ch (g h : SimpleLedger → SimpleLedger) :
  ledger_wf l → revert_change ch = lm_modify h → rest_update g → rest_update h →
  let l' := g (set_shared (log_change (l_shared l) (l_changer l) ch) l) in
  (∀ th es, el_logs (logs l') !! th = Some es → es ≠ []) →
  (∀ l2, rest_of l2 = rest_of l' → rest_of (h l2) = rest_of l) →
  logged l l'.
Proof.
  intros Hwf Hr [Hor Hc Hchs Hrev Hnext Hev] Hh. set (l1 := set_shared _ l).
  intros l' Hlogs Hback. assert (only_rest l l') as Hor' by (destruct (Hor l1); by split).
  assert (log_ext l [ch] l') as Hlog by (apply log_ext_log; [done|exact (Hc l1)|exact (Hchs l1)]).
  split; [|exists [ch]; split; [done|]|exact (Hrev l1)|exact (Hnext l1)|exact (Hc l1)|exact (Hev l1)].
  - apply (only_rest_wf l _ [ch]); try done. exact (Hc l1).
  - apply (undo_rest _ _ h); try done; [exact (Hc l1)|apply Hwf].
Qed.

Lemma AddRefund_logged l gas :
  ledger_wf l →
  ∃ l', AddRefund gas l = Some (tt, l') ∧ refund l' = refund l +u gas ∧ only_rest l l' ∧ logged l l'.
Proof.
  intros Hwf. eexists. split_and!; [done|done|done|].
  apply (rest_writes l (refundChange (refund l)) (set_refund _) (set_refund (refund l))); try done; try (by split); [apply Hwf|].
  intros l2 [= E1 E2 E3 E4 E5]. unfold rest_of. simpl. by rewrite E2, E3, E4, E5.
Qed.

Lemma SubRefund_logged l gas :
  ledger_wf l → (gas ≤ refund l)%Z →
  ∃ l', SubRefund gas l = Some (tt, l') ∧ refund l' = (refund l - gas)%Z ∧ only_rest l l' ∧ logged l l'.
Proof.
  intros Hwf Hgas. eexists.
  split; [unfold SubRefund, mbind, LM_bind, lm_get, log_ledger, lm_modify; by rewrite decide_False by lia|].
  split_and!; [done|done|].
  apply (rest_writes l (refundChange (refund l)) (set_refund _) (set_refund (refund l))); try done; try (by split); [apply Hwf|].
  intros l2 [= E1 E2 E3 E4 E5]. unfold rest_of. simpl. by rewrite E2, E3, E4, E5.
Qed.

Lemma AddPreimage_logged l h p :
  ledger_wf l →
  ∃ l', AddPreimage h p l = Some (tt, l') ∧ only_rest l l' ∧ logged l l' ∧
        preimages l' = match preimages l !! h with Some _ => preimages l | None => <[h := p]> (preimages l) end.
Proof.
  intros Hwf. unfold AddPreimage, mbind, LM_bind, lm_get. destruct (preimages l !! h) eqn:Eh.
  - exists l. split_and!; [done|done|by apply logged_refl|done].
  - eexists. split_and!; [done|done| |done].
    apply (rest_writes l (addPreimageChange h) (set_preimages _) (λ l, set_preimages (delete h (preimages l)) l));
      try done; try (by split); [apply Hwf|].
    intros l2 [= E1 E2 E3 E4 E5]. unfold rest_of. simpl. by rewrite E1, E2, E3, E4, E5, delete_insert_id.
Qed.

Lemma AddLog_logged l th log :
  ledger_wf l → el_thash (logs l) = Some th →
  ∃ l' log', AddLog log l = Some (tt, l') ∧ only_rest l l' ∧ logged l l' ∧
    el_logs (logs l') = <[th := default [] (el_logs (logs l) !! th) ++ [log']]> (el_logs (logs l)) ∧
    el_index log' = el_logSize (logs l) ∧ el_logSize (logs l') = (el_logSize (logs l) + 1)%Z.
Proof.
  intros Hwf Hth. eexists _, _.
  split; [unfold AddLog, mbind, LM_bind, lm_get; rewrite Hth; done|].
  split; [done|]. split; [|by split_and!].
  eapply (rest_writes l (addLogChange th) (set_logs _)); [done|done|by split|by split| |].
  - simpl. intros h es [[_ <-]|[_ Hes]]%lookup_insert_Some; [by destruct (default [] _)|].
    by apply (lw_logs _ Hwf h).
  - intros l2 [= E1 E2 E3 E4 E5]. unfold rest_of. simpl. rewrite E1, E2, E3, E4, E5. simpl.
    do 2 f_equal. f_equal.
    rewrite lookup_insert_eq. simpl. rewrite length_app. simpl.
    destruct (logs l) as [m n t b i] eqn:El. simpl in *. rewrite Z.add_simpl_r. f_equal; [|done].
    destruct (m !! th) as [es|] eqn:Em; simpl; [|by apply delete_insert_id].
    assert (es ≠ []) by (apply (lw_logs _ Hwf th); by rewrite El).
    rewrite decide_False by (destruct es; simpl; [done|lia]).
    rewrite insert_insert_eq, Nat.add_sub, take_app_length. by apply insert_id.
Qed.

Lemma AddAddressToAccessList_logged l a :
  ledger_wf l →
  ∃ l', AddAddressToAccessList a l = Some (tt, l') ∧ only_rest l l' ∧ logged l l' ∧
        accessList l' = (al_AddAddress (accessList l) a).2.
Proof.
  intros Hwf. unfold AddAddressToAccessList, mbind, LM_bind, lm_get.
  destruct (al_AddAddress (accessList l) a) as [[] al] eqn:Ea; simpl.
  - eexists. split_and!; [done|done| |done].
    apply (rest_writes l (accessListAddAccountChange a) (set_accessList al)
             (λ l, set_accessList (al_DeleteAddress (accessList l) a) l)); try done; try (by split); [apply Hwf|].
    intros l2 [= E1 E2 E3 E4 E5]. unfold rest_of. simpl. rewrite E1, E2, E3, E4, E5.
    by rewrite (al_AddAddress_new _ _ _ Ea).
  - apply al_AddAddress_old in Ea as ->. eexists. split_and!; [done|done| |done].
    destruct l. by apply logged_refl.
Qed.

Lemma AddSlotToAccessList_logged l a slot :
  ledger_wf l →
  ∃ l', AddSlotToAccessList a slot l = Some (tt, l') ∧ only_rest l l' ∧ logged l l' ∧
        accessList l' = (al_AddSlot (accessList l) a slot).2.
Proof.
  intros Hwf. unfold AddSlotToAccessList, mbind, LM_bind, lm_get.
  destruct (al_AddSlot (accessList l) a slot) as [[[] []] al] eqn:Ea; simpl.
  - eexists. split_and!; [done|done| |done]. set (l' := set_shared _ _).
    set (lm := set_accessList (al_DeleteSlot al a slot) l).
    assert (log_ext l ([accessListAddAccountChange a] ++ [accessListAddSlotChange a slot]) l') as Hlog.
    { set (l1 := set_shared (log_change (l_shared l) (l_changer l) (accessListAddAccountChange a)) l).
      assert (log_ext l [accessListAddAccountChange a] l1) as H1' by (by apply log_ext_log).
      apply (log_ext_trans _ l1); [done|]. apply log_ext_log; [|done|done].
      apply (only_rest_wf l _ [accessListAddAccountChange a]); try done. apply Hwf. }
    split; [|eexists; split; [exact Hlog|]|done..].
    { refine (only_rest_wf l l' _ _ Hlog _ _ Hwf); [done|done|apply Hwf]. }
    apply (undoes_app _ _ lm); [| |done].
    + apply (undo_rest _ _ (λ l, set_accessList (al_DeleteSlot (accessList l) a slot) l)); try done; try (by split); [apply Hwf|].
      intros l2 [= E1 E2 E3 E4 E5]. unfold rest_of. simpl. by rewrite E1, E2, E3, E4, E5.
    + apply (undo_rest _ _ (λ l, set_accessList (al_DeleteAddress (accessList l) a) l)); try done; try (by split); [apply Hwf|].
      intros l2 [= E1 E2 E3 E4 E5]. unfold rest_of. simpl. rewrite E1, E2, E3, E4, E5.
      by rewrite (al_AddSlot_new _ _ _ _ _ Ea).
  - by apply al_AddSlot_old in Ea as [? _].
  - eexists. split_and!; [done|done| |done].
    apply (rest_writes l (accessListAddSlotChange a slot) (set_accessList al)
             (λ l, set_accessList (al_DeleteSlot (accessList l) a slot) l)); try done; try (by split); [apply Hwf|].
    intros l2 [= E1 E2 E3 E4 E5]. unfold rest_of. simpl. rewrite E1, E2, E3, E4, E5.
    by rewrite (al_AddSlot_new _ _ _ _ _ Ea).
  - apply al_AddSlot_old in Ea as [_ ->]. eexists. split_and!; [done|done| |done].
    destruct l. by apply logged_refl.
Qed.
End views.
