(* ===== verification/LedgerTheorems.v ===== *)
(** * Theorems about the state ledger

A transaction reads and writes the ledger through the operations of [txop]; it may
take snapshots and go back to them. *)
From S2P Require Import Prelude Btree Storage Account StateLedger StateLedgerProps.

(** The operations that a transaction performs, nested snapshots included. *)
Inductive txop :=
| OGetBalance (a : string) | OSetBalance (a : string) (z : Z)
| OAddBalance (a : string) (z : Z) | OSubBalance (a : string) (z : Z)
| OGetState (a k : string) | OSetState (a k : string) (v : option string)
| OGetNonce (a : string) | OSetNonce (a : string) (z : Z)
| OEmpty (a : string) | OGetCode (a : string)
| OAddRefund (gas : Z) | OSubRefund (gas : Z)
| OAddPreimage (hash preimage : string) | OAddLog (log : EvmLog)
| OAddAddress (a : string) | OAddSlot (a slot : string)
| OSnapshot | ORevert (revid : Z).

Section snapshots.
Context `{StorageLib, LruLib, AddressLib, HashLib, InnerAccountLib, GoRange, AccessListLib}.
Implicit Types (l : SimpleLedger).

Definition discard {A} (m : LM A) : LM () := _ ← m; mret tt.

Definition run_op (op : txop) : LM () :=
  match op with
  | OGetBalance a => discard (GetBalance a) | OSetBalance a z => SetBalance a z
  | OAddBalance a z => AddBalance a z | OSubBalance a z => SubBalance a z
  | OGetState a k => discard (GetState a k) | OSetState a k v => SetState a k v None
  | OGetNonce a => discard (GetNonce a) | OSetNonce a z => SetNonce a z
  | OEmpty a => discard (Empty a) | OGetCode a => discard (GetCode a)
  | OAddRefund gas => AddRefund gas | OSubRefund gas => SubRefund gas
  | OAddPreimage h p => AddPreimage h p | OAddLog log => AddLog log
  | OAddAddress a => AddAddressToAccessList a | OAddSlot a slot => AddSlotToAccessList a slot
  | OSnapshot => discard Snapshot | ORevert revid => RevertToSnapshot revid
  end.

(** ** The operations other than snapshots log what they change *)

Lemma discard_Some {A} (m : LM A) l l' : discard m l = Some (tt, l') ↔ ∃ r, m l = Some (r, l').
Proof.
  unfold discard, mbind, LM_bind, mret, LM_ret. destruct (m l) as [[r l2]|]; naive_solver.
Qed.

Lemma discard_logged {A} (m : LM A) l l' r l1 :
  discard m l = Some (tt, l') → m l = Some (r, l1) → logged l l1 → logged l l'.
Proof. intros (r' & E)%discard_Some. rewrite E. by intros [= -> ->]. Qed.

Lemma Empty_effect l a :
  ledger_wf l → ∃ b l', Empty a l = Some (b, l') ∧ effect l a (state_view l a) (inner_of l a) l'.
Proof.
  intros Hwf. destruct (GetOrCreateAccount_spec l a Hwf) as (o & chs0 & l1 & E & G).
  pose proof (acc_IsEmpty_spec l1 o) as Hs. destruct (acc_IsEmpty o (l_shared l1)) as [[b o'] sh'] eqn:Ef.
  rewrite (gt_addr _ _ _ _ _ G) in Hs. destruct Hs.
  destruct (method_reads l a acc_IsEmpty o chs0 l1 b o' sh') as (l' & ? & ?); eauto.
Qed.

Lemma GetCode_effect l a :
  ledger_wf l → ∃ c l', GetCode a l = Some (c, l') ∧ effect l a (state_view l a) (inner_of l a) l'.
Proof.
  intros Hwf. destruct (GetOrCreateAccount_spec l a Hwf) as (o & chs0 & l1 & E & G).
  pose proof (acc_Code_spec l1 o) as Hs. destruct (acc_Code o (l_shared l1)) as [[b o'] sh'] eqn:Ef.
  rewrite (gt_addr _ _ _ _ _ G) in Hs. destruct Hs.
  destruct (method_reads l a acc_Code o chs0 l1 b o' sh') as (l' & ? & ?); eauto.
Qed.

Lemma run_op_logged op l l' :
  ledger_wf l → run_op op l = Some (tt, l') →
  match op with OSnapshot | ORevert _ => True | _ => logged l l' end.
Proof.
  intros Hwf Hrun. destruct op; try done; simpl in Hrun.
  - destruct (GetBalance_effect l a Hwf) as (l1 & E & [_ He]). by eapply discard_logged.
  - destruct (SetBalance_effect l a z Hwf) as (l1 & E & [_ He]). congruence.
  - destruct (AddBalance_effect l a z Hwf) as (l1 & E & [_ He]). congruence.
  - destruct (SubBalance_effect l a z Hwf) as (l1 & i & E & [_ He] & _). congruence.
  - destruct (GetState_effect l a k Hwf) as (l1 & E & [_ He]). by eapply discard_logged.
  - destruct (SetState_effect l a k v Hwf) as (l1 & E & [_ He]). congruence.
  - destruct (GetNonce_effect l a Hwf) as (l1 & E & [_ He]). by eapply discard_logged.
  - destruct (SetNonce_effect l a z Hwf) as (l1 & E & [_ He]). congruence.
  - destruct (Empty_effect l a Hwf) as (b & l1 & E & [_ He]). by eapply discard_logged.
  - destruct (GetCode_effect l a Hwf) as (c & l1 & E & [_ He]). by eapply discard_logged.
  - destruct (AddRefund_logged l gas Hwf) as (l1 & E & _ & _ & He). congruence.
  - destruct (decide (gas ≤ refund l)%Z) as [Hg|Hg].
    + destruct (SubRefund_logged l gas Hwf Hg) as (l1 & E & _ & _ & He). congruence.
    + unfold SubRefund, mbind, LM_bind, lm_get, log_ledger, lm_modify in Hrun.
      by rewrite decide_True in Hrun by lia.
  - destruct (AddPreimage_logged l hash preimage Hwf) as (l1 & E & _ & He & _). congruence.
  - destruct (el_thash (logs l)) as [th|] eqn:Eth.
    + destruct (AddLog_logged l th log Hwf Eth) as (l1 & log' & E & _ & He & _). congruence.
    + unfold AddLog, mbind, LM_bind, lm_get in Hrun. by rewrite Eth in Hrun.
  - destruct (AddAddressToAccessList_logged l a Hwf) as (l1 & E & _ & He & _). congruence.
  - destruct (AddSlotToAccessList_logged l a slot Hwf) as (l1 & E & _ & He & _). congruence.
Qed.

(** ** Going back in the change log *)

Lemma changer_revert_eq p idx l :
  changer_revert p idx l =
  match lm_iter (undo_change p)
          (reverse (drop idx (changes (default newChanger (sh_changers (l_shared l) !! p))))) l with
  | Some (_, l1) =>
      (s ← get_changer p;
       if decide (length (changes s) < idx) then lm_panic
       else on_changer p (λ s, StateChanger (take idx (changes s)) (dirties s))) l1
  | None => None
  end.
Proof. done. Qed.

Lemma changer_revert_spec l idx l0 :
  ledger_wf l → idx ≤ length (log_of l) → undoes l (drop idx (log_of l)) l0 → l_changer l = l_changer l0 →
  ∃ l', changer_revert (l_changer l) idx l = Some (tt, l') ∧ same_view l0 l' ∧ ledger_wf l' ∧
    log_of l' = take idx (log_of l) ∧ validRevisions l' = validRevisions l ∧
    nextRevisionId l' = nextRevisionId l.
Proof.
  intros Hwf Hidx U Hc. destruct (U l) as (l1 & E & Hv & Hwf1 & [[_ Hlog] Hrev Hnext]); [done|done|].
  rewrite app_nil_r in Hlog. pose proof (sv_changer _ _ Hv) as Hc1. rewrite <-Hc in Hc1.
  destruct (lw_log _ Hwf1) as [s Hs]. rewrite Hc1 in Hs.
  assert (changes s = log_of l) as Hcs by (rewrite <-Hlog; unfold log_of; by rewrite Hc1, Hs).
  rewrite changer_revert_eq. fold (log_of l).
  rewrite E. unfold mbind, LM_bind, get_changer, lm_get. rewrite Hs. simpl. rewrite decide_False by (rewrite Hcs; lia). eexists. split; [done|].
  assert (log_of (set_shared (with_changers (l_shared l1)
     (alter (λ s0, StateChanger (take idx (changes s0)) (dirties s0)) (l_changer l)
        (sh_changers (l_shared l1)))) l1) = take idx (log_of l)) as Hl.
  { unfold log_of at 1. simpl. by rewrite Hc1, lookup_alter_eq, Hs, <-Hcs. }
  split_and!; [|destruct Hwf1 as [W1 W2 W3 W4 W5]; split; try done|done|done|done].
  - transitivity l1; [done|]. by split.
  - simpl. rewrite Hc1, lookup_alter_eq, Hs. by eexists.
Qed.

(** Snapshots that can be gone back to: for each one the ledger it was taken of, such that
the changes logged since lead back to it. *)
Inductive saved_ok : list (revision * SimpleLedger) → list stateChange → SimpleLedger → Prop :=
| so_nil chs l : saved_ok [] chs l
| so_snoc saved r lr chs l :
    saved_ok saved (take (rev_changerIndex r) chs) lr →
    rev_changerIndex r ≤ length chs → log_of lr = take (rev_changerIndex r) chs →
    undoes l (drop (rev_changerIndex r) chs) lr → l_changer l = l_changer lr →
    saved_ok (saved ++ [(r, lr)]) chs l.

Lemma saved_ok_snoc_inv saved r lr chs l :
  saved_ok (saved ++ [(r, lr)]) chs l →
  saved_ok saved (take (rev_changerIndex r) chs) lr ∧ rev_changerIndex r ≤ length chs ∧
  log_of lr = take (rev_changerIndex r) chs ∧ undoes l (drop (rev_changerIndex r) chs) lr ∧ l_changer l = l_changer lr.
Proof.
  intros Hs. remember (saved ++ [(r, lr)]) as s eqn:E. destruct Hs; [by destruct saved|].
  by apply app_inj_tail in E as [-> [= -> ->]].
Qed.

Lemma saved_ok_logged saved l l' : saved_ok saved (log_of l) l → logged l l' → saved_ok saved (log_of l') l'.
Proof.
  intros Hs [Hwf (chs & [_ Hlog] & U) _ _ Hc _]. rewrite Hlog. destruct Hs as [|saved r lr chs0 l Hs Hle Hl0 U0 Hc0].
  - constructor.
  - apply so_snoc; [by rewrite take_app_le|rewrite length_app; lia|by rewrite take_app_le| |congruence].
    rewrite drop_app_le by done. by apply (undoes_app _ _ l).
Qed.

(** The state at a saved snapshot, whatever was saved after it. *)
Lemma saved_ok_split s1 r lr s2 chs l :
  saved_ok (s1 ++ (r, lr) :: s2) chs l →
  saved_ok s1 (take (rev_changerIndex r) chs) lr ∧ rev_changerIndex r ≤ length chs ∧
  log_of lr = take (rev_changerIndex r) chs ∧ undoes l (drop (rev_changerIndex r) chs) lr ∧ l_changer l = l_changer lr.
Proof.
  revert chs l. induction s2 as [|[r2 lr2] s2 IH] using rev_ind; intros chs l Hs.
  { by apply saved_ok_snoc_inv. }
  rewrite app_comm_cons, (assoc_L (++)) in Hs. apply saved_ok_snoc_inv in Hs as (Hs & Hle & Hl & U & Hc).
  destruct (IH _ _ Hs) as (Hs1 & Hle1 & Hl1 & U1 & Hc1). rewrite length_take in Hle1.
  rewrite take_take, Nat.min_l in Hs1, Hl1 by lia. split_and!; [done|lia|done| |congruence].
  rewrite <-(take_drop (rev_changerIndex r2) chs), drop_app_le by (rewrite length_take; lia).
  by apply (undoes_app _ _ lr2).
Qed.

Lemma saved_ok_proper saved chs l l' : same_view l l' → saved_ok saved chs l → saved_ok saved chs l'.
Proof.
  intros Hv Hs. destruct Hs as [|saved r lr chs l Hs Hle Hl U Hc]; [constructor|].
  apply so_snoc; try done; [by eapply undoes_proper|]. by rewrite (sv_changer _ _ Hv).
Qed.

(** ** Revisions *)

(** The ids of the revisions grow and stay below the next one. *)
Record revisions_ok l : Prop := {
  ro_sorted : StronglySorted Z.lt (rev_id <$> validRevisions l);
  ro_next : Forall (λ r, rev_id r < nextRevisionId l)%Z (validRevisions l) }.

Lemma searchRevision_found pre r post :
  StronglySorted Z.lt (rev_id <$> pre ++ r :: post) →
  searchRevision (pre ++ r :: post) (rev_id r) = Some (length pre, r).
Proof.
  intros Hs. apply list_find_Some. split_and!; [by apply list_lookup_middle|done|].
  intros i r' Hi Hlt. rewrite lookup_app_l in Hi by done. intros Hle.
  rewrite fmap_app, fmap_cons in Hs. apply list_elem_of_lookup_2 in Hi.
  assert (rev_id r' < rev_id r)%Z; [|lia].
  apply (StronglySorted_app_1_elem_of _ _ _ _ _ Hs); [|set_solver].
  apply list_elem_of_fmap. by exists r'.
Qed.

Lemma RevertToSnapshot_pop l pre r post l0 :
  ledger_wf l → revisions_ok l → validRevisions l = pre ++ r :: post →
  rev_changerIndex r ≤ length (log_of l) → undoes l (drop (rev_changerIndex r) (log_of l)) l0 →
  l_changer l = l_changer l0 →
  ∃ l', RevertToSnapshot (rev_id r) l = Some (tt, l') ∧ same_view l0 l' ∧ ledger_wf l' ∧ revisions_ok l' ∧
    log_of l' = take (rev_changerIndex r) (log_of l) ∧ validRevisions l' = pre.
Proof.
  intros Hwf [Hsort Hnext] Hrev Hle U Hc.
  destruct (changer_revert_spec _ _ _ Hwf Hle U Hc) as (l1 & E & Hv & Hwf1 & Hlog & Hr1 & Hn1).
  unfold RevertToSnapshot, mbind, LM_bind, lm_get. rewrite Hrev in *.
  rewrite searchRevision_found, decide_True, E by done. eexists. split; [done|].
  split_and!; [transitivity l1; [done|by split]| | |done|].
  - by destruct Hwf1; split.
  - split; simpl; rewrite Hr1, take_app_length.
    + rewrite fmap_app in Hsort. by eapply StronglySorted_app_1_l.
    + rewrite Hn1. by apply Forall_app in Hnext as [? _].
  - simpl. by rewrite Hr1, take_app_length.
Qed.

(** ** Transactions *)

(** What holds while a transaction runs, if [saved] are the snapshots taken since [base]. *)
Record tx_inv (base : list revision) (saved : list (revision * SimpleLedger)) l : Prop := {
  ti_wf : ledger_wf l;
  ti_revs : revisions_ok l;
  ti_valid : validRevisions l = base ++ saved.*1;
  ti_saved : saved_ok saved (log_of l) l }.

Lemma tx_inv_logged base saved l l' : tx_inv base saved l → logged l l' → tx_inv base saved l'.
Proof.
  intros [Hwf [Hs Hn] Hv Hsv] Hl. split; [apply Hl| | |by eapply saved_ok_logged].
  - split; rewrite (lg_revisions _ _ Hl), ?(lg_next _ _ Hl); done.
  - by rewrite (lg_revisions _ _ Hl).
Qed.

Lemma Snapshot_inv base saved l id l' :
  tx_inv base saved l → Snapshot l = Some (id, l') →
  same_view l l' ∧ id = nextRevisionId l ∧
  tx_inv base (saved ++ [(MkRevision id (length (log_of l)), l)]) l'.
Proof.
  intros [Hwf [Hs Hn] Hv Hsv]. unfold Snapshot, mbind, LM_bind, lm_get, get_changer, lm_modify, mret, LM_ret.
  intros [= <- <-]. split_and!; [by split|done|]. split.
  - by destruct Hwf; split.
  - split; simpl.
    + rewrite fmap_app. apply StronglySorted_app_2; [|done|repeat constructor].
      intros x1 x2 (r & -> & Hr)%list_elem_of_fmap ->%list_elem_of_singleton.
      by eapply Forall_forall in Hn.
    + apply Forall_app. split; [|constructor; [simpl; lia|constructor]].
      eapply Forall_impl; [exact Hn|]. simpl. lia.
  - simpl. by rewrite Hv, fmap_app, (assoc_L (++)).
  - change (log_of (set_revisions _ _ l)) with (log_of l). apply so_snoc; simpl; [|done| | |done].
    + by rewrite firstn_all.
    + by rewrite firstn_all.
    + rewrite drop_all. apply undoes_nil. by split.
Qed.

Lemma tx_inv_revert base saved l revid l' :
  tx_inv base saved l → RevertToSnapshot revid l = Some (tt, l') →
  Forall (λ r, rev_id r < revid)%Z base →
  ∃ s1 r lr s2, saved = s1 ++ (r, lr) :: s2 ∧ rev_id r = revid ∧ same_view lr l' ∧ tx_inv base s1 l' ∧
    log_of l' = take (rev_changerIndex r) (log_of l).
Proof.
  intros [Hwf Hro Hv Hsv] Hrun Hbase.
  assert (∃ r, r ∈ validRevisions l ∧ rev_id r = revid) as (r & Hr & <-).
  { unfold RevertToSnapshot, mbind, LM_bind, lm_get in Hrun.
    destruct (searchRevision _ _) as [[i r]|] eqn:Es; [|done]. apply list_find_Some in Es as (Hi & _ & _).
    case_decide; [|done]. exists r. split; [by eapply list_elem_of_lookup_2|done]. }
  assert (r ∈ saved.*1) as Hrs.
  { rewrite Hv in Hr. apply elem_of_app in Hr as [Hr|]; [|done]. eapply Forall_forall in Hbase; [|done].
    simpl in Hbase. lia. }
  apply list_elem_of_fmap in Hrs as ([r' lr] & -> & Hin). simpl in *.
  apply list_elem_of_split in Hin as (s1 & s2 & ->).
  destruct (saved_ok_split _ _ _ _ _ _ Hsv) as (Hs1 & Hle & _ & U & Hc).
  destruct (RevertToSnapshot_pop l (base ++ s1.*1) r' s2.*1 lr) as (l2 & E & Hv2 & Hwf2 & Hro2 & Hlog & Hrev);
    try done; [by rewrite Hv, fmap_app, fmap_cons, (assoc_L (++))|].
  assert (l2 = l') as -> by congruence. exists s1, r', lr, s2. split_and!; try done.
  split; try done. rewrite Hlog. by eapply saved_ok_proper.
Qed.

Fixpoint run_ops (ops : list txop) : LM () :=
  match ops with [] => mret tt | op :: ops => _ ← run_op op; run_ops ops end.

(** The operations do not go back to revisions up to [id]. *)
Definition stays_above (id : Z) (ops : list txop) : Prop :=
  Forall (λ op, match op with ORevert revid => id < revid | _ => True end)%Z ops.

Lemma run_ops_inv base r0 l0 ops saved l l' :
  Forall (λ r, rev_id r < rev_id r0)%Z base →
  tx_inv base ((r0, l0) :: saved) l → stays_above (rev_id r0) ops → run_ops ops l = Some (tt, l') →
  ∃ saved', tx_inv base ((r0, l0) :: saved') l'.
Proof.
  intros Hbase. revert saved l. induction ops as [|op ops IH]; intros saved l Hinv Hab Hrun.
  { injection Hrun as <-. by exists saved. }
  apply Forall_cons in Hab as [Hop Hab]. simpl in Hrun. unfold mbind, LM_bind in Hrun.
  destruct (run_op op l) as [[[] l1]|] eqn:E; [|done].
  assert (∃ saved1, tx_inv base ((r0, l0) :: saved1) l1) as [saved1 Hinv1]; [|by eapply IH].
  pose proof (run_op_logged op l l1 (ti_wf _ _ _ Hinv) E) as Hl.
  destruct op; try (exists saved; by eapply tx_inv_logged); clear Hl; simpl in E.
  - apply discard_Some in E as (id & E). eexists. by apply (Snapshot_inv _ _ _ _ _ Hinv E).
  - destruct (tx_inv_revert _ _ _ _ _ Hinv E) as (s1 & r & lr & s2 & Hsv & <- & _ & Hinv1 & _).
    { eapply Forall_impl; [exact Hbase|]. simpl in *. lia. }
    destruct s1 as [|p s1]; [simplify_eq/=; lia|]. injection Hsv as <- ->. by exists s1.
Qed.

(** Back to the first snapshot. *)
Lemma tx_inv_back l0 saved l2 :
  tx_inv (validRevisions l0) ((MkRevision (nextRevisionId l0) (length (log_of l0)), l0) :: saved) l2 →
  ∃ l3, RevertToSnapshot (nextRevisionId l0) l2 = Some (tt, l3) ∧ same_view l0 l3 ∧ ledger_wf l3 ∧ revisions_ok l3 ∧
    validRevisions l3 = validRevisions l0 ∧ log_of l3 = log_of l0.
Proof.
  intros [Hwf2 Hro2 Hval2 Hsv2].
  destruct (saved_ok_split [] _ _ _ _ _ Hsv2) as (_ & Hle & Hlog & U & Hc). simpl in *.
  destruct (RevertToSnapshot_pop l2 (validRevisions l0) (MkRevision (nextRevisionId l0) (length (log_of l0)))
              saved.*1 l0) as (l3 & E & Hv3 & Hwf3 & Hro3 & Hlog3 & Hrev3); try done.
  exists l3. split_and!; try done. simpl in Hlog3. by rewrite Hlog3.
Qed.

(** C5: After a sequence of the operations of [txop] - reading and setting balances, states and nonces, adding to and
subtracting from balances, Empty, GetCode, refunds, preimages, logs, access lists, nested snapshots and reverts to
snapshots taken later than this one - RevertToSnapshot succeeds and restores every state, balance, nonce and code
hash, the set of accounts, the refund, preimages, logs and access list, the change log and the revisions. SetCode,
Suiside and AddState are not among the operations (reverting SetCode leaves another code hash and AddState is not
undone, [unlogged_changes_stay]), and the accounts must log to the current change log ([ledger_wf]), which holds for
the first transaction of a block only ([second_transaction_not_reverted]). *)
Theorem RevertToSnapshot_spec l0 id l1 ops l2 :
  ledger_wf l0 → revisions_ok l0 → Snapshot l0 = Some (id, l1) →
  stays_above id ops → run_ops ops l1 = Some (tt, l2) →
  ∃ l3, RevertToSnapshot id l2 = Some (tt, l3) ∧ same_view l0 l3 ∧ ledger_wf l3 ∧ revisions_ok l3 ∧
    validRevisions l3 = validRevisions l0 ∧ log_of l3 = log_of l0.
Proof.
  intros Hwf Hro Hsnap Hab Hrun.
  assert (tx_inv (validRevisions l0) [] l0) as Hinv0.
  { split; [done|done|by rewrite app_nil_r|constructor]. }
  destruct (Snapshot_inv _ _ _ _ _ Hinv0 Hsnap) as (Hv01 & -> & Hinv1). simpl in Hinv1.
  destruct (run_ops_inv (validRevisions l0) (MkRevision (nextRevisionId l0) (length (log_of l0))) l0 ops [] l1 l2)
    as (saved & Hinv2); [apply Hro|done|done|done|].
  by apply (tx_inv_back _ saved).
Qed.
End snapshots.

(** ** Concrete ledgers *)

Module LedgerSample.
Local Existing Instance storage_by_map.
Local Existing Instance lru_by_list.
Local Existing Instance address_plain.
Local Existing Instance hash_plain.
Local Existing Instance inner_by_encode.
Local Existing Instance range_by_encoding.
Local Existing Instance access_by_sets.

(** No journal can be decoded: the store of the sample has none. *)
Definition no_journals : Encoding BlockJournal := {| marshal _ := None; unmarshal _ := None |}.
Local Existing Instance no_journals.

Definition alice : string := "alice".
Definition bob : string := "bob".

(** A store in which alice has a balance of 100 and one state. *)
Definition db : gmap string string :=
  {[ compositeKey accountKey alice := pos_to_string (encode (MkInner 3 100 None));
     composeStateKey alice "k" := "old" ]}.

Definition genesis : SimpleLedger :=
  MkSimpleLedger _ _ _ (MkShared _ _ (db : storage) NewAccountCache {[0 := newChanger]})
    0 0 ∅ ∅ ∅ zeroHash 0 [] 0 0 1 NewAccessList ∅ 0 NewEvmLogs.

Lemma genesis_opened : NewSimpleLedger (db : storage) None = Some (Some genesis).
Proof.
  assert (getJournalRange (db : storage) = Some (0, 0)%Z) as Hr by (vm_compute; reflexivity).
  unfold NewSimpleLedger. by rewrite Hr.
Qed.

Lemma genesis_wf : ledger_wf genesis.
Proof.
  split; [by intros s o Hs| |by intros s o Hs|by eexists|by intros h es Hs].
  intros a d. simpl. unfold db. rewrite lookup_insert_Some, lookup_singleton_Some.
  intros [[_ <-]|[_ [_ <-]]]; vm_compute; by eexists.
Qed.

Lemma genesis_revisions : revisions_ok genesis.
Proof. split; constructor. Qed.

(** The ledger after a computation that returns. *)
Definition after {A} (r : option (A * SimpleLedger)) : SimpleLedger :=
  match r with Some (_, l) => l | None => genesis end.

Lemma after_run {A} (r : option (A * SimpleLedger)) (a : A) : fst <$> r = Some a → r = Some (a, after r).
Proof. by destruct r as [[] |]; intros [= ->]. Qed.

Lemma after_panic {A} (r : option (A * SimpleLedger)) : fst <$> r = None → r = None.
Proof. by destruct r. Qed.

Definition sample_ops : list txop :=
  [OSetState alice "k" (Some "new"); OAddBalance alice 5; OSnapshot; OSetNonce bob 7;
   OSetBalance bob 1; ORevert 1; OSubBalance alice 50; OAddRefund 9; OAddPreimage "h" "p"; OAddSlot bob "s";
   OGetState bob "k"].

(** The operations change what can be observed, and going back undoes them. *)
Lemma RevertToSnapshot_witness :
  let l1 := after (Snapshot genesis) in
  let l2 := after (run_ops sample_ops l1) in
  state_view l2 alice "k" = Some "new" ∧ ia_Balance (inner_of l2 alice) = 55%Z ∧
  ∃ l3, RevertToSnapshot 0 l2 = Some (tt, l3) ∧ same_view genesis l3.
Proof.
  intros l1 l2. split; [vm_compute; reflexivity|]. split; [vm_compute; reflexivity|].
  destruct (RevertToSnapshot_spec genesis 0 l1 sample_ops l2) as (l3 & E & Hv & _).
  - apply genesis_wf.
  - apply genesis_revisions.
  - unfold l1. apply after_run. vm_compute. reflexivity.
  - unfold stays_above, sample_ops. repeat (apply Forall_cons; split; [done|]). by apply Forall_nil.
  - unfold l2. apply after_run. vm_compute. reflexivity.
  - exists l3. split; [exact E|exact Hv].
Defined.

(** A transaction that is not the first of its block is not rolled back: [Finalise] starts a
new change log, but an account that an earlier transaction has touched keeps logging to
the old one, so [RevertToSnapshot] leaves the write of the second transaction in place. *)
Theorem second_transaction_not_reverted :
  let l := after ((_ ← SetState alice "k" (Some "first") None; Finalise true) genesis) in
  ∃ l', (id ← Snapshot; _ ← SetState alice "k" (Some "second") None; RevertToSnapshot id) l = Some (tt, l') ∧
        state_view l alice "k" = Some "first" ∧ state_view l' alice "k" = Some "second".
Proof.
  intros l. set (m := (id ← Snapshot; _ ← SetState alice "k" (Some "second") None; RevertToSnapshot id)).
  exists (after (m l)). split_and!; [|vm_compute; reflexivity..].
  apply after_run. vm_compute. reflexivity.
Qed.

(** A snapshot is lost when a nested EVM call fails: [ClearChangerAndRefund], which
[CrossInvokeEVM] calls after going back to its own snapshot, drops the revisions of the
enclosing transaction, and returning to its snapshot panics. *)
Theorem cleared_snapshot_panics :
  (id ← Snapshot; _ ← ClearChangerAndRefund; RevertToSnapshot id) genesis = None ∧
  (id ← Snapshot; _ ← (id' ← Snapshot; _ ← RevertToSnapshot id'; ClearChangerAndRefund); RevertToSnapshot id)
    genesis = None.
Proof. split; apply after_panic; vm_compute; reflexivity. Qed.

(** [AddState] and [SetCode] are not undone by going back to a snapshot: the state that was
added stays, and an account without code is left with the hash of the empty string as its
code hash. *)
Theorem unlogged_changes_stay :
  let l1 := after ((id ← Snapshot; _ ← AddState alice "k" (Some "added"); RevertToSnapshot id) genesis) in
  let l2 := after ((id ← Snapshot; _ ← SetCode alice (Some "code"); RevertToSnapshot id) genesis) in
  state_view genesis alice "k" = Some "old" ∧ state_view l1 alice "k" = Some "added" ∧
  ia_CodeHash (inner_of genesis alice) = None ∧ ia_CodeHash (inner_of l2 alice) = Some (Keccak256 EmptyString).
Proof. intros l1 l2. split_and!; vm_compute; reflexivity. Qed.
End LedgerSample.
