(* ===== verification/BlockProps.v ===== *)
(** * Blocks on the state ledger: what holds while a block is executed

While a block is executed the accounts remember the values that the store had at its start
([originState], [originAccount], [originCode]). The journal of the block is made of them, so a
rollback is right when they are. [block_inv] says that they are, for accounts that are changed by
logged operations, and that the caches agree with the store. *)
From Stdlib Require Import Ascii.
From S2P Require Import Prelude Btree Storage Account StateLedger StateLedgerProps LedgerTheorems.

(** ** Keys of the store *)

(** An address of twenty bytes that cannot be taken for the prefix of another kind of key. *)
Record plain_addr (a : string) : Prop := {
  pa_length : String.length a = 20;
  pa_account s : a ≠ accountKey +:+ s;
  pa_code s : a ≠ codeKey +:+ s;
  pa_journal s : a ≠ journalKey +:+ s }.

Lemma app_prefix_split (p a k s : string) :
  a +:+ k = p +:+ s → String.length p ≤ String.length a → ∃ t, a = p +:+ t.
Proof.
  revert a. induction p as [|c p IH]; intros a Heq Hle; [by exists a|].
  destruct a as [|c' a]; simpl in Hle; [lia|]. rewrite !string_app_cons in Heq. injection Heq as -> Heq.
  destruct (IH a Heq) as [t ->]; [lia|]. by exists t.
Qed.

Lemma app_length_inj (a b k k' : string) :
  String.length a = String.length b → a +:+ k = b +:+ k' → a = b ∧ k = k'.
Proof.
  revert b. induction a as [|c a IH]; intros [|c' b]; simpl; try lia; [done|]. intros Hl Heq.
  rewrite !string_app_cons in Heq. injection Heq as -> Heq. injection Hl as Hl.
  by destruct (IH b Hl Heq) as [-> ->].
Qed.

Lemma composeStateKey_inj a b k k' :
  plain_addr a → plain_addr b → composeStateKey a k = composeStateKey b k' → a = b ∧ k = k'.
Proof. intros Ha Hb. apply app_length_inj. by rewrite (pa_length _ Ha), (pa_length _ Hb). Qed.

(** A key of the state is no key of another kind. *)
Lemma composeStateKey_plain a k s :
  plain_addr a →
  composeStateKey a k ≠ compositeKey accountKey s ∧ composeStateKey a k ≠ compositeKey codeKey s ∧
  composeStateKey a k ≠ compositeKey journalKey s.
Proof.
  intros [Hl H1 H2 H3]. split_and!; intros Heq; apply app_prefix_split in Heq as [t Ht];
    naive_solver (rewrite ?Hl; simpl; lia).
Qed.

(** ** What accounts and caches remember *)

Section block.
Context `{StorageLib, LruLib, AddressLib, HashLib, InnerAccountLib, GoRange, AccessListLib}.
Implicit Types (l : SimpleLedger) (o : SimpleAccount) (ac : AccountCache) (a k : string) (ldb : storage).

Definition db_state ldb a k : bytes := st_Get ldb (composeStateKey a k).
Definition db_inner ldb a : bytes := st_Get ldb (compositeKey accountKey (addr_String a)).
Definition db_code ldb a : bytes := st_Get ldb (compositeKey codeKey (addr_String a)).

Record db_ok ldb : Prop := {
  do_state a k : plain_addr a → db_state ldb a k ≠ Some EmptyString;
  do_inner a d : plain_addr a → db_inner ldb a = Some d → ∃ i : InnerAccount, marshal i = Some d;
  (** code belongs to an account with a code hash *)
  do_code a : plain_addr a → is_Some (db_code ldb a) →
    ∃ i, marshal i = db_inner ldb a ∧ bytes_Equal (ia_CodeHash i) None = false }.

Record cache_ok ldb ac : Prop := {
  co_state a k v : plain_addr a → cached_state ac a k = Some v → v = db_state ldb a k;
  co_inner a i : plain_addr a → lru_Get (innerAccountCache ac) (addr_String a) = Some i →
    marshal i = db_inner ldb a;
  co_code a c : plain_addr a → lru_Get (codeCache ac) (addr_String a) = Some c → c = db_code ldb a }.

Record tracked ldb o : Prop := {
  tk_addr : plain_addr (Addr o);
  tk_origin k v : originState o !! k = Some v → v = db_state ldb (Addr o) k;
  tk_dirty k v : dirtyState o !! k = Some v →
    default None (originState o !! k) = db_state ldb (Addr o) k ∧ v ≠ Some EmptyString ∧ is_ascii k;
  tk_inner : (originAccount o ≫= marshal) = db_inner ldb (Addr o);
  tk_codehash d : dirtyAccount o = Some d → ia_CodeHash d = ia_CodeHash (default emptyInner (originAccount o));
  tk_originCode : originCode o = db_code ldb (Addr o);
  tk_dirtyCode : dirtyCode o = originCode o }.

Lemma cache_ok_equiv ldb ac ac' : cache_equiv ac ac' → cache_ok ldb ac → cache_ok ldb ac'.
Proof.
  intros [E1 E2 E3] [C1 C2 C3]. split; intros; [eapply C1|eapply C2|eapply C3]; rewrite <-?E1, <-?E2, <-?E3; eauto.
Qed.

(** Keys that were written stay written. *)
Definition remembers o o' : Prop := ∀ k, is_Some (dirtyState o !! k) → is_Some (dirtyState o' !! k).

Definition kept (accs accs' : gmap string SimpleAccount) : Prop :=
  ∀ s o, accs !! s = Some o → ∃ o', accs' !! s = Some o' ∧ remembers o o'.

Lemma kept_refl accs : kept accs accs.
Proof. intros s o Ho. exists o. split; [done|]. by intros k. Qed.

Lemma kept_insert accs s o' :
  (∀ o, accs !! s = Some o → remembers o o') → kept accs (<[s := o']> accs).
Proof.
  intros Hr s' o Ho. destruct (decide (s' = s)) as [->|].
  - exists o'. rewrite lookup_insert_eq. eauto.
  - exists o. rewrite lookup_insert_ne by done. split; [done|]. by intros k.
Qed.

(** ** The change log *)

(** A change that can be undone: the account is there, and knows that the key was written. *)
Definition change_ok (accs : gmap string SimpleAccount) (ch : stateChange) : Prop :=
  match ch with
  | storageChange a k prev =>
      plain_addr a ∧ is_ascii k ∧ prev ≠ Some EmptyString ∧
      ∃ o, accs !! addr_String a = Some o ∧ is_Some (dirtyState o !! k)
  | createObjectChange a | balanceChange a _ | nonceChange a _ => plain_addr a
  | suicideChange _ _ _ | codeChange _ _ => False
  | _ => True
  end.

(** Nothing was written to an account before its creation. *)
Inductive log_ok (accs : gmap string SimpleAccount) : list stateChange → Prop :=
| lo_nil : log_ok accs []
| lo_snoc chs ch :
    log_ok accs chs → change_ok accs ch →
    (∀ a, ch = createObjectChange a → ∀ k prev, storageChange a k prev ∉ chs) → log_ok accs (chs ++ [ch]).

Lemma log_ok_snoc_inv accs chs ch :
  log_ok accs (chs ++ [ch]) →
  log_ok accs chs ∧ change_ok accs ch ∧ (∀ a, ch = createObjectChange a → ∀ k prev, storageChange a k prev ∉ chs).
Proof.
  intros Hl. remember (chs ++ [ch]) as c eqn:E. destruct Hl as [|chs' ch' ???]; [by destruct chs|].
  by apply app_inj_tail in E as [-> ->].
Qed.

Lemma change_ok_kept accs accs' ch : kept accs accs' → change_ok accs ch → change_ok accs' ch.
Proof.
  intros Hk. destruct ch; simpl; try done. intros (? & ? & ? & o & Ho & Hs). split_and!; [done..|].
  destruct (Hk _ _ Ho) as (o' & Ho' & Hr). eauto.
Qed.

Lemma log_ok_kept accs accs' chs : kept accs accs' → log_ok accs chs → log_ok accs' chs.
Proof. intros Hk. induction 1; constructor; eauto using change_ok_kept. Qed.

(** Removing an account that nothing was written to. *)
Lemma log_ok_delete accs chs a :
  (∀ k prev, storageChange a k prev ∉ chs) → log_ok accs chs → log_ok (delete (addr_String a) accs) chs.
Proof.
  intros Hno. induction 1 as [|chs ch Hl IH Hc Hn]; constructor.
  - apply IH. intros k prev. specialize (Hno k prev). set_solver.
  - destruct ch as [| | | |b k prev| | | | | |]; simpl in *; try done.
    destruct Hc as (Hp & Ha & He & o & Ho & Hs). split_and!; [done..|]. exists o. split; [|done].
    rewrite lookup_delete_ne; [done|]. intros ->%addr_String_inj. apply (Hno k prev). set_solver.
  - done.
Qed.

(** ** The invariant *)

(** What the block has to leave alone: the journals and their heights. *)
Definition journal_of l := (minJnlHeight l, maxJnlHeight l, prevJnlHash l, blockJournals l).

(** The ledger while the block that started at [l0] is executed; [chs] is the part of the change log
that may be undone. *)
Record block_inv l0 (chs : list stateChange) l : Prop := {
  bi_ldb : sh_ldb (l_shared l) = sh_ldb (l_shared l0);
  bi_journal : journal_of l = journal_of l0;
  bi_cache : cache_ok (sh_ldb (l_shared l0)) (sh_cache (l_shared l));
  bi_acc s o : accounts l !! s = Some o → s = addr_String (Addr o) ∧ tracked (sh_ldb (l_shared l0)) o;
  bi_log : log_ok (accounts l) chs;
  bi_heap : is_Some (sh_changers (l_shared l) !! l_changer l) }.

(** The log grows by [ext], and the invariant holds with and without the new changes. *)
Definition advances l0 l l' : Prop :=
  ∃ ext, log_of l' = log_of l ++ ext ∧
    ∀ chs, block_inv l0 chs l → block_inv l0 chs l' ∧ block_inv l0 (chs ++ ext) l'.

Lemma advances_same l0 l l' :
  log_of l' = log_of l → (∀ chs, block_inv l0 chs l → block_inv l0 chs l') → advances l0 l l'.
Proof. intros Hl Hi. exists []. split; [by rewrite app_nil_r|]. intros chs Hc. rewrite app_nil_r. auto. Qed.

Lemma advances_trans l0 l1 l2 l3 : advances l0 l1 l2 → advances l0 l2 l3 → advances l0 l1 l3.
Proof.
  intros (e1 & L1 & I1) (e2 & L2 & I2). exists (e1 ++ e2). split; [by rewrite L2, L1, (assoc_L (++))|].
  intros chs Hc. rewrite (assoc_L (++)). destruct (I1 _ Hc) as [Ha Hb]. split; [by apply I2|by apply (I2 (chs ++ e1))].
Qed.

(** The whole log may be undone, before and after. *)
Lemma advances_inv l0 l l' : advances l0 l l' → block_inv l0 (log_of l) l → block_inv l0 (log_of l') l'.
Proof. intros (ext & -> & Hi) Hl. by apply Hi. Qed.

Section run.
Context (l0 : SimpleLedger).
Local Notation ldb0 := (sh_ldb (l_shared l0)).
Context (Hdb : db_ok ldb0).

Lemma block_inv_frame chs l l' :
  accounts l' = accounts l → sh_ldb (l_shared l') = sh_ldb (l_shared l) →
  cache_equiv (sh_cache (l_shared l)) (sh_cache (l_shared l')) → journal_of l' = journal_of l →
  is_Some (sh_changers (l_shared l') !! l_changer l') → block_inv l0 chs l → block_inv l0 chs l'.
Proof.
  intros Ha Hd Hc Hj Hh [B1 B2 B3 B4 B5 _].
  split; [congruence|congruence|by eapply cache_ok_equiv|by rewrite Ha|by rewrite Ha|done].
Qed.

(** An account is stored, in the place of one that it remembers. *)
Lemma block_inv_set chs l l' o :
  accounts l' = <[addr_String (Addr o) := o]> (accounts l) → tracked ldb0 o →
  (∀ o1, accounts l !! addr_String (Addr o) = Some o1 → remembers o1 o) →
  sh_ldb (l_shared l') = sh_ldb (l_shared l) → cache_ok ldb0 (sh_cache (l_shared l')) →
  journal_of l' = journal_of l → is_Some (sh_changers (l_shared l') !! l_changer l') →
  block_inv l0 chs l → block_inv l0 chs l'.
Proof.
  intros Ha Ht Hr Hd Hc Hj Hh [B1 B2 _ B4 B5 _]. split; [congruence|congruence|done| | |done].
  - intros s o'. rewrite Ha, lookup_insert_Some. intros [[<- <-]|[_ ?]]; [done|by apply B4].
  - rewrite Ha. eapply log_ok_kept; [by apply kept_insert|done].
Qed.

(** ** Looking up an account *)

Lemma marshal_inj (i i' : InnerAccount) : marshal i = marshal i' → i = i'.
Proof.
  intros Heq. destruct (codec_ok i) as (s & Hs & Hu). destruct (codec_ok i') as (s' & Hs' & Hu'). congruence.
Qed.

Lemma fresh_tracked a p inner code :
  plain_addr a → marshal inner = db_inner ldb0 a → code = db_code ldb0 a →
  tracked ldb0 (with_dirtyCode (with_originCode (with_originAccount (newAccount a p) (Some inner)) code) code).
Proof. intros Ha Hi ->. by split. Qed.

Lemma no_code a inner :
  plain_addr a → marshal inner = db_inner ldb0 a → bytes_Equal (ia_CodeHash inner) None = true → db_code ldb0 a = None.
Proof.
  intros Ha Hi Hc. apply eq_None_not_Some. intros Hs. destruct (do_code _ Hdb a Ha Hs) as (i & Hm & Hc').
  assert (i = inner) as -> by (apply marshal_inj; congruence). congruence.
Qed.

Lemma fresh_tracked_plain a p inner :
  plain_addr a → marshal inner = db_inner ldb0 a → bytes_Equal (ia_CodeHash inner) None = true →
  tracked ldb0 (with_originAccount (newAccount a p) (Some inner)).
Proof. intros Ha Hi Hc. apply (fresh_tracked a p inner None); [done|done|]. symmetry. by eapply no_code. Qed.

(** The account that [GetAccount] returns for an address: the one of the block, or a new one. *)
Definition account_got l a (r : option SimpleAccount) l' : Prop :=
  log_of l' = log_of l ∧ (∀ chs, block_inv l0 chs l → block_inv l0 chs l') ∧
  match r with
  | Some o => accounts l' !! addr_String a = Some o ∧ ∀ o0, accounts l !! addr_String a = Some o0 → o = o0
  | None => accounts l' = accounts l ∧ accounts l !! addr_String a = None ∧ db_inner ldb0 a = None
  end.

Lemma account_got_fresh l a o l' :
  accounts l !! addr_String a = None → Addr o = a → tracked ldb0 o →
  accounts l' = <[addr_String a := o]> (accounts l) → sh_ldb (l_shared l') = sh_ldb (l_shared l) →
  cache_equiv (sh_cache (l_shared l)) (sh_cache (l_shared l')) → journal_of l' = journal_of l →
  sh_changers (l_shared l') = sh_changers (l_shared l) → l_changer l' = l_changer l →
  account_got l a (Some o) l'.
Proof.
  intros Hn Ha Ht Hacc Hd Hc Hj Hch Hp. split_and!.
  - unfold log_of. by rewrite Hch, Hp.
  - intros chs Hi. apply (block_inv_set chs l l' o); subst a; try done.
    + intros o1. by rewrite Hn.
    + eapply cache_ok_equiv; [done|apply Hi].
    + rewrite Hch, Hp. apply Hi.
  - by rewrite Hacc, lookup_insert_eq.
  - intros o0. by rewrite Hn.
Qed.

Lemma GetAccount_got chs l a r l' :
  block_inv l0 chs l → plain_addr a → GetAccount a l = Some (r, l') → account_got l a r l'.
Proof.
  intros Hinv Ha. pose proof (getInnerAccount_equiv (sh_cache (l_shared l)) a) as Hc.
  unfold GetAccount, cached, store_account, ldb_Get, mbind, LM_bind, mret, LM_ret, lm_get, lm_state, lm_modify, lm_panic.
  destruct (accounts l !! addr_String a) as [o|] eqn:Ho.
  { intros [= <- <-]. split_and!; [done|done|done|]. naive_solver. }
  cbn [fst snd getInnerAccount] in *.
  destruct (lru_Get (innerAccountCache (sh_cache (l_shared l))) (addr_String a)) as [inner|] eqn:Ei.
  - pose proof (co_inner _ _ (bi_cache _ _ _ Hinv) a inner Ha Ei) as Hm.
    destruct (bytes_Equal (ia_CodeHash inner) None) eqn:Eb.
    + intros [= <- <-]. apply account_got_fresh; try done. by apply fresh_tracked_plain.
    + set (ac := MkAccountCache _ _ _ _) in Hc |- *.
      pose proof (transitivity Hc (cache_getCode_equiv ac a)) as Hc2.
      cbn [fst snd cache_getCode] in *. destruct (lru_Get (codeCache _) (addr_String a)) as [c|] eqn:Ec;
        intros [= <- <-]; (apply account_got_fresh; try done); apply fresh_tracked; try done.
      * by apply (co_code _ _ (bi_cache _ _ _ Hinv)).
      * cbn. by rewrite (bi_ldb _ _ _ Hinv).
  - cbn [sh_ldb l_shared set_shared with_cache]. rewrite (bi_ldb _ _ _ Hinv).
    change (st_Get ldb0 (compositeKey accountKey (addr_String a))) with (db_inner ldb0 a).
    destruct (db_inner ldb0 a) as [d|] eqn:Ed.
    + destruct (do_inner _ Hdb a d Ha Ed) as [inner Hm]. rewrite (marshal_unmarshal _ _ Hm).
      assert (marshal inner = db_inner ldb0 a) as Hm' by congruence.
      destruct (bytes_Equal (ia_CodeHash inner) None) eqn:Eb; intros [= <- <-];
        (apply account_got_fresh; try done); [by apply fresh_tracked_plain|apply fresh_tracked; [done|done|]; by rewrite (bi_ldb _ _ _ Hinv)].
    + intros [= <- <-]. split_and!; try done. intros chs'. apply block_inv_frame; try done. apply Hinv.
Qed.

(** A change is appended to the log that [p] points to. *)
Lemma log_of_append l l' p ch :
  is_Some (sh_changers (l_shared l) !! l_changer l) → l_changer l' = l_changer l →
  sh_changers (l_shared l') = alter (λ s, changer_append s ch) p (sh_changers (l_shared l)) →
  is_Some (sh_changers (l_shared l') !! l_changer l') ∧
  log_of l' = log_of l ++ (if decide (p = l_changer l) then [ch] else []).
Proof.
  intros [s Hs] Hp Hc. unfold log_of. rewrite Hp, Hc, lookup_alter. case_decide as E.
  - subst p. rewrite Hs. simpl. split; [by eexists|]. unfold changer_append. by destruct (dirtied ch).
  - by rewrite Hs, app_nil_r.
Qed.

Lemma block_inv_snoc chs l ch :
  block_inv l0 chs l → change_ok (accounts l) ch →
  (∀ a, ch = createObjectChange a → ∀ k prev, storageChange a k prev ∉ chs) → block_inv l0 (chs ++ [ch]) l.
Proof. intros [] Hch Hno. split; try done. by constructor. Qed.

Lemma log_ok_elem accs chs ch : log_ok accs chs → ch ∈ chs → change_ok accs ch.
Proof. induction 1; [set_solver|]. intros [?|Heq%list_elem_of_singleton]%elem_of_app; [|subst]; eauto. Qed.

(** The account of an address, created if it does not exist. *)
Definition account_there l a o l' : Prop :=
  advances l0 l l' ∧ accounts l' !! addr_String a = Some o ∧
  ∀ o0, accounts l !! addr_String a = Some o0 → o = o0.

Lemma GetOrCreateAccount_there chs l a o l' :
  block_inv l0 chs l → plain_addr a → GetOrCreateAccount a l = Some (o, l') → account_there l a o l'.
Proof.
  intros Hinv Ha. unfold GetOrCreateAccount, mbind, LM_bind.
  destruct (GetAccount a l) as [[r l1]|] eqn:Eg; [|done].
  destruct (GetAccount_got _ _ _ _ _ Hinv Ha Eg) as (Hlog & Hi1 & Hr). destruct r as [o1|].
  { intros [= <- <-]. destruct Hr. split_and!; [by apply advances_same|done..]. }
  destruct Hr as (Hacc & Hnone & Hin).
  unfold log_ledger, store_account, lm_get, lm_modify, mret, LM_ret. intros [= <- <-].
  set (l2 := set_accounts _ _). set (o := newAccount a (l_changer l1)).
  assert (db_code ldb0 a = None) as Hcode.
  { apply eq_None_not_Some. intros Hs. destruct (do_code _ Hdb a Ha Hs) as (i & Hm & _).
    destruct (codec_ok i) as (d & Hd & _). congruence. }
  assert (tracked ldb0 o) as Ht by (split; by rewrite ?Hin, ?Hcode).
  destruct (log_of_append l1 l2 (l_changer l1) (createObjectChange a)) as [Hheap Hl2]; [apply (Hi1 _ Hinv)|done|done|].
  rewrite decide_True in Hl2 by done. split_and!; [|by cbn; rewrite lookup_insert_eq|by intros o0; rewrite Hnone].
  exists [createObjectChange a]. rewrite Hl2, Hlog. split; [done|]. intros chs' Hc%Hi1.
  assert (block_inv l0 chs' l2) as Hc2.
  { apply (block_inv_set chs' l1 l2 o); try done; [|apply Hc]. intros o1. cbn. by rewrite Hacc, Hnone. }
  split; [done|]. apply block_inv_snoc; [done|done|]. intros b [= <-] k prev Hin'.
  destruct (log_ok_elem _ _ _ (bi_log _ _ _ Hc) Hin') as (_ & _ & _ & o1 & Ho1 & _). by rewrite Hacc, Hnone in Ho1.
Qed.

(** ** Methods of accounts *)

Definition logs_ok o (ch : stateChange) : Prop :=
  match ch with
  | storageChange a k prev => a = Addr o ∧ is_ascii k ∧ prev ≠ Some EmptyString ∧ is_Some (dirtyState o !! k)
  | balanceChange a _ | nonceChange a _ => a = Addr o
  | _ => False
  end.

Record method_ok o (sh : shared) o' (sh' : shared) : Prop := {
  mo_addr : Addr o' = Addr o;
  mo_tracked : tracked ldb0 o';
  mo_remembers : remembers o o';
  mo_ldb : sh_ldb sh' = sh_ldb sh;
  mo_cache : cache_ok ldb0 (sh_cache sh');
  mo_log : sh_changers sh' = sh_changers sh ∨
    ∃ p ch, sh_changers sh' = alter (λ s, changer_append s ch) p (sh_changers sh) ∧ logs_ok o' ch }.

(** What a method can count on. *)
Record called l a o (sh : shared) : Prop := {
  ca_same o0 : accounts l !! addr_String a = Some o0 → o = o0;
  ca_addr : Addr o = a;
  ca_tracked : tracked ldb0 o;
  ca_ldb : sh_ldb sh = ldb0;
  ca_cache : cache_ok ldb0 (sh_cache sh) }.

Lemma logs_ok_change accs o ch :
  tracked ldb0 o → accs !! addr_String (Addr o) = Some o → logs_ok o ch → change_ok accs ch.
Proof.
  intros Ht Ho. destruct ch; simpl; try done; try (intros ->; apply Ht).
  intros (-> & ? & ? & ?). split_and!; [apply Ht|done..|by exists o].
Qed.

Lemma method_advances chs l o sh' o' :
  block_inv l0 chs l → accounts l !! addr_String (Addr o) = Some o → method_ok o (l_shared l) o' sh' →
  advances l0 l (set_accounts (<[addr_String (Addr o) := o']> (accounts l)) (set_shared sh' l)).
Proof.
  intros Hinv Ho [Ma Mt Mr Md Mc Ml]. set (l' := set_accounts _ _).
  assert (∀ chs', is_Some (sh_changers sh' !! l_changer l) → block_inv l0 chs' l → block_inv l0 chs' l') as Hset.
  { intros chs' Hh Hc. apply (block_inv_set chs' l l' o'); rewrite ?Ma; try done. intros o1. rewrite Ho. by intros [= <-]. }
  destruct Ml as [Hs|(p & ch & Hs & Hch)].
  - apply advances_same; [unfold log_of; by cbn; rewrite Hs|]. intros chs' Hc. apply Hset; [|done]. rewrite Hs. apply Hc.
  - destruct (log_of_append l l' p ch) as [Hheap Hl]; [apply Hinv|done|done|].
    exists (if decide (p = l_changer l) then [ch] else []). split; [done|]. intros chs' Hc.
    apply Hset in Hc; [|done]. split; [done|]. case_decide; [|by rewrite app_nil_r].
    apply block_inv_snoc; [done| |by destruct ch].
    apply (logs_ok_change _ o'); [done| |done]. cbn. by rewrite Ma, lookup_insert_eq.
Qed.

Lemma on_account_advances {A} chs l a (f : SimpleAccount → shared → A * SimpleAccount * shared) r l' :
  block_inv l0 chs l → plain_addr a →
  (∀ o sh, called l a o sh → method_ok o sh (f o sh).1.2 (f o sh).2) →
  on_account a f l = Some (r, l') → advances l0 l l'.
Proof.
  intros Hinv Ha Hf. unfold on_account, mbind, LM_bind, lm_state.
  destruct (GetOrCreateAccount a l) as [[o l1]|] eqn:Eg; [|done].
  destruct (GetOrCreateAccount_there _ _ _ _ _ Hinv Ha Eg) as (Hadv & Ho & Hsame).
  assert (block_inv l0 chs l1) as Hi1 by (by destruct Hadv as (ext & _ & Hi); apply Hi).
  destruct (bi_acc _ _ _ Hi1 _ _ Ho) as [Haddr%addr_String_inj Ht].
  assert (called l a o (l_shared l1)) as Hcall by (split; try done; apply Hi1).
  specialize (Hf o (l_shared l1) Hcall). destruct (f o (l_shared l1)) as [[r' o'] sh']. intros [= <- <-].
  apply (advances_trans _ _ l1); [done|]. subst a. by apply (method_advances chs).
Qed.

(** Reading loads values into the account and touches the cache. *)
Record read_ok o (sh : shared) o' (sh' : shared) : Prop := {
  ro_method : method_ok o sh o' sh';
  ro_changers : sh_changers sh' = sh_changers sh }.

Lemma read_ok_refl o sh : tracked ldb0 o → cache_ok ldb0 (sh_cache sh) → read_ok o sh o sh.
Proof. intros. split; [|done]. split; try done; [by intros k|by left]. Qed.

Lemma read_then o sh o1 sh1 o2 sh2 : read_ok o sh o1 sh1 → method_ok o1 sh1 o2 sh2 → method_ok o sh o2 sh2.
Proof.
  intros [[A1 T1 R1 D1 C1 _] L1] [A2 T2 R2 D2 C2 L2].
  split; [congruence|done|intros k Hk; by apply R2, R1|congruence|done|by rewrite <-L1].
Qed.

Lemma acc_GetState_read o sh k :
  tracked ldb0 o → sh_ldb sh = ldb0 → cache_ok ldb0 (sh_cache sh) →
  let '(v, o', sh') := acc_GetState o sh k in
  read_ok o sh o' sh' ∧ v ≠ Some EmptyString ∧ default None (originState o' !! k) = db_state ldb0 (Addr o) k.
Proof.
  intros Ht Hd Hc. pose proof (read_ok_refl o sh Ht Hc) as Hr. unfold acc_GetState.
  destruct (dirtyState o !! k) as [v|] eqn:Ed.
  { by destruct (tk_dirty _ _ Ht k v Ed) as (? & ? & _). }
  pose proof (λ k, do_state _ Hdb (Addr o) k (tk_addr _ _ Ht)) as Hne.
  destruct (originState o !! k) as [v|] eqn:Eo.
  { rewrite Eo, (tk_origin _ _ Ht k v Eo). split_and!; [done|apply Hne|done]. }
  destruct (cache_getState_spec (sh_cache sh) (Addr o) k) as [Hv He].
  destruct (cache_getState (sh_cache sh) (Addr o) k) as [r ac]. simpl in *.
  set (val := match r with Some v => v | None => _ end).
  assert (val = db_state ldb0 (Addr o) k) as Hval.
  { unfold val. destruct r as [v|]; [|by rewrite Hd]. symmetry in Hv. by apply (co_state _ _ Hc (Addr o)); [apply Ht|]. }
  split_and!; [|rewrite Hval; apply Hne|by rewrite lookup_insert_eq].
  split; [|done]. split; try done; [|by intros k'|by eapply cache_ok_equiv|by left].
  destruct Ht as [T1 T2 T3 T4 T5 T6 T7]. split; try done.
  - intros k' v'. cbn. rewrite lookup_insert_Some. intros [[<- <-]|[_ ?]]; [done|by apply T2].
  - intros k' v' Hk'. destruct (T3 _ _ Hk') as (? & ? & ?). split_and!; [|done..].
    cbn. destruct (decide (k' = k)) as [->|]; [by rewrite lookup_insert_eq|by rewrite lookup_insert_ne].
Qed.

Lemma acc_Code_read o sh :
  tracked ldb0 o → sh_ldb sh = ldb0 → cache_ok ldb0 (sh_cache sh) →
  read_ok o sh (acc_Code o sh).1.2 (acc_Code o sh).2.
Proof.
  intros Ht Hd Hc. pose proof (read_ok_refl o sh Ht Hc) as Hr. unfold acc_Code.
  destruct (dirtyCode o) eqn:Edc; [done|]. destruct (originCode o) eqn:Eoc; [done|].
  destruct (bytes_Equal (acc_CodeHash o) None); [done|].
  pose proof (cache_getCode_equiv (sh_cache sh) (Addr o)) as He.
  destruct (cache_getCode (sh_cache sh) (Addr o)) as [r ac] eqn:Eg.
  set (code := match r with Some c => c | None => _ end).
  assert (code = db_code ldb0 (Addr o)) as Hcode.
  { injection Eg as Er _. unfold code. destruct r as [c|]; [|by rewrite Hd].
    by apply (co_code _ _ Hc (Addr o)); [apply Ht|]. }
  split; [|done]. split; try done; [by destruct Ht; split|by intros k|by eapply cache_ok_equiv|by left].
Qed.

Lemma acc_IsEmpty_read o sh :
  tracked ldb0 o → sh_ldb sh = ldb0 → cache_ok ldb0 (sh_cache sh) →
  read_ok o sh (acc_IsEmpty o sh).1.2 (acc_IsEmpty o sh).2.
Proof.
  intros Ht Hd Hc. unfold acc_IsEmpty. destruct (negb _); [by apply read_ok_refl|].
  pose proof (acc_Code_read o sh Ht Hd Hc) as Hr. by destruct (acc_Code o sh) as [[c o'] sh'].
Qed.

(** Setting a field of the record. *)
Lemma tracked_inner o d :
  tracked ldb0 o → ia_CodeHash d = ia_CodeHash (dirtyOrCopy o) → tracked ldb0 (with_dirtyAccount o (Some d)).
Proof.
  intros [T1 T2 T3 T4 T5 T6 T7] Hd. split; try done. intros d' [= <-]. rewrite Hd. unfold dirtyOrCopy.
  destruct (dirtyAccount o) eqn:E; simpl; [by apply T5|]. by rewrite CopyOrNewIfEmpty_spec.
Qed.

Lemma method_ok_quiet o sh o' :
  Addr o' = Addr o → tracked ldb0 o' → remembers o o' → cache_ok ldb0 (sh_cache sh) → method_ok o sh o' sh.
Proof. intros. split; try done. by left. Qed.

Lemma method_ok_logged o sh o' p ch :
  Addr o' = Addr o → tracked ldb0 o' → remembers o o' → cache_ok ldb0 (sh_cache sh) → logs_ok o' ch →
  method_ok o sh o' (log_change sh p ch).
Proof. intros. split; try done. right. by exists p, ch. Qed.

Lemma acc_SetBalance_ok o sh z :
  tracked ldb0 o → cache_ok ldb0 (sh_cache sh) →
  method_ok o sh (acc_SetBalance o sh z).1 (acc_SetBalance o sh z).2.
Proof. intros Ht Hc. apply method_ok_logged; try done; [by apply tracked_inner|by intros k]. Qed.

Lemma acc_SetNonce_ok o sh z :
  tracked ldb0 o → cache_ok ldb0 (sh_cache sh) → method_ok o sh (acc_SetNonce o sh z).1 (acc_SetNonce o sh z).2.
Proof. intros Ht Hc. apply method_ok_logged; try done; [by apply tracked_inner|by intros k]. Qed.

Lemma tracked_setState o k v :
  tracked ldb0 o → default None (originState o !! k) = db_state ldb0 (Addr o) k → is_ascii k → v ≠ Some EmptyString →
  tracked ldb0 (acc_setState o k v).
Proof.
  intros [T1 T2 T3 T4 T5 T6 T7] Hk Ha Hv. split; try done. intros k' v'. cbn. rewrite lookup_insert_Some.
  intros [[<- <-]|[_ ?]]; [done|by apply T3].
Qed.

Lemma setState_remembers o k v : remembers o (acc_setState o k v).
Proof.
  intros k' Hk'. cbn. destruct (decide (k' = k)) as [->|]; [rewrite lookup_insert_eq; by eexists|].
  by rewrite lookup_insert_ne.
Qed.

Lemma acc_SetState_ok o sh k v c :
  tracked ldb0 o → sh_ldb sh = ldb0 → cache_ok ldb0 (sh_cache sh) → is_ascii k → v ≠ Some EmptyString →
  method_ok o sh (acc_SetState o sh k v c).1 (acc_SetState o sh k v c).2.
Proof.
  intros Ht Hd Hc Hk Hv. unfold acc_SetState. pose proof (acc_GetState_read o sh k Ht Hd Hc) as Hg.
  destruct (acc_GetState o sh k) as [[prev o1] sh1]. destruct Hg as (Hr & Hp & Hs).
  pose proof (ro_method _ _ _ _ Hr) as [Ha Ht1 _ _ Hc1 _]. apply (read_then _ _ o1 sh1); [done|].
  apply method_ok_logged; try done; [by apply tracked_setState; rewrite ?Ha|by apply setState_remembers|].
  split_and!; try done. cbn. rewrite lookup_insert_eq. by eexists.
Qed.

(** ** Undoing changes *)

(** The change log is not read while changes are undone, but it may grow. *)
Record undone l chs l' : Prop := {
  ud_inv : block_inv l0 chs l';
  ud_changer : l_changer l' = l_changer l;
  ud_revisions : validRevisions l' = validRevisions l;
  ud_log : ∃ ext, log_of l' = log_of l ++ ext }.

Lemma undone_frame chs l l' :
  block_inv l0 chs l → accounts l' = accounts l → l_shared l' = l_shared l → journal_of l' = journal_of l →
  l_changer l' = l_changer l → validRevisions l' = validRevisions l → undone l chs l'.
Proof.
  intros Hinv Ha Hs Hj Hc Hv. split; [|done|done|exists []; unfold log_of; by rewrite Hs, Hc, app_nil_r].
  eapply block_inv_frame; try done; [by rewrite Hs..|rewrite Hs, Hc; apply Hinv].
Qed.

Lemma on_account_changer {A} a (f : SimpleAccount → shared → A * SimpleAccount * shared) l r l' :
  on_account a f l = Some (r, l') → l_changer l' = l_changer l ∧ validRevisions l' = validRevisions l.
Proof.
  unfold on_account, GetOrCreateAccount, GetAccount, cached, store_account, log_ledger, ldb_Get, mbind, LM_bind,
    mret, LM_ret, lm_get, lm_state, lm_modify, lm_panic.
  intros Hrun. repeat (case_match; simplify_eq/=; try done).
Qed.

Lemma undone_on_account chs l a (g : SimpleAccount → SimpleAccount) l' :
  block_inv l0 chs l → plain_addr a →
  (∀ o sh, called l a o sh → Addr (g o) = Addr o ∧ tracked ldb0 (g o) ∧ remembers o (g o)) →
  on_account a (λ o sh, (tt, g o, sh)) l = Some (tt, l') → undone l chs l'.
Proof.
  intros Hinv Ha Hg Hrun. destruct (on_account_changer _ _ _ _ _ Hrun) as [Hc Hv].
  assert (advances l0 l l') as (ext & Hl & Hi).
  { eapply on_account_advances; [exact Hinv|exact Ha| |exact Hrun]. intros o sh Hcall. cbn.
    destruct (Hg o sh Hcall) as (? & ? & ?). apply method_ok_quiet; try done. apply Hcall. }
  split; [by apply Hi|done|done|by exists ext].
Qed.

Lemma revert_change_undone chs ch l l' :
  block_inv l0 (chs ++ [ch]) l → revert_change ch l = Some (tt, l') → undone l chs l'.
Proof.
  intros Hinv Hrun. destruct (log_ok_snoc_inv _ _ _ (bi_log _ _ _ Hinv)) as (Hlog & Hch & Hno).
  assert (block_inv l0 chs l) as Hi by (by destruct Hinv).
  destruct ch as [a|a pr b|a b|a n|a k prev|a c|r|th|h|a|a slot]; simpl in Hch; try done;
    try (injection Hrun as <-; by apply undone_frame).
  - injection Hrun as <-. destruct Hi as [B1 B2 B3 B4 B5 B6].
    split; [split; try done|done|done|by exists []; rewrite app_nil_r].
    + destruct B3 as [C1 C2 C3]. split; [done| |done]. intros b i Hb. cbn. rewrite lru_Get_Remove.
      case_decide; [done|]. by apply C2.
    + cbn. intros s o [_ Hs]%lookup_delete_Some. by apply B4.
    + apply log_ok_delete; [|done]. by apply Hno.
  - eapply undone_on_account; [done|done| |exact Hrun]. intros o sh Hcall.
    split_and!; [done|by apply tracked_inner; [apply Hcall|]|by intros k].
  - eapply undone_on_account; [done|done| |exact Hrun]. intros o sh Hcall.
    split_and!; [done|by apply tracked_inner; [apply Hcall|]|by intros k].
  - destruct Hch as (Ha & Hk & Hp & o1 & Ho1 & Hs). eapply undone_on_account; [done|done| |exact Hrun].
    intros o sh [Hsame Haddr Ht _ _]. rewrite (Hsame _ Ho1) in *. split_and!; [done| |by apply setState_remembers].
    destruct Hs as [w Hw]. destruct (tk_dirty _ _ Ht k w Hw) as (? & _). by apply tracked_setState.
Qed.

Lemma undo_changes_undone chs sfx l l' :
  block_inv l0 (chs ++ sfx) l → lm_iter (undo_change (l_changer l)) (reverse sfx) l = Some (tt, l') → undone l chs l'.
Proof.
  revert l. induction sfx as [|ch sfx IH] using rev_ind; intros l Hinv.
  { intros [= <-]. rewrite app_nil_r in Hinv. by apply undone_frame. }
  rewrite reverse_snoc. simpl. unfold mbind, LM_bind, undo_change at 1, mbind, LM_bind.
  destruct (revert_change ch l) as [[[] l1]|] eqn:E; [|done]. rewrite (assoc_L (++)) in Hinv.
  destruct (revert_change_undone _ _ _ _ Hinv E) as [Hi Hc Hv (e1 & Hl)]. unfold on_changer, lm_modify.
  set (l2 := set_shared _ l1). intros Hrun.
  assert (log_of l2 = log_of l1) as Hl2.
  { unfold log_of. cbn. rewrite Hc. destruct (bi_heap _ _ _ Hi) as [s Hs]. rewrite Hc in Hs.
    rewrite lookup_alter_eq, Hs. simpl. apply undirty_changes. }
  assert (block_inv l0 (chs ++ sfx) l2) as Hi2.
  { eapply block_inv_frame; [..|exact Hi]; try done. cbn. rewrite Hc. destruct (bi_heap _ _ _ Hi) as [s Hs].
    rewrite Hc in Hs. rewrite lookup_alter_eq, Hs. by eexists. }
  destruct (IH l2 Hi2) as [H1' H2' Hv' (e2 & H3')]; [cbn; by rewrite Hc|].
  split; [done|by rewrite H2'|by rewrite Hv'|]. exists (e1 ++ e2). by rewrite H3', Hl2, Hl, (assoc_L (++)).
Qed.

(** While a block runs: the changes that snapshots can go back over, the last part [chs] of the log,
can be undone. *)
Inductive running l : Prop :=
| Running base chs :
    log_of l = base ++ chs → block_inv l0 chs l →
    Forall (λ r, length base ≤ rev_changerIndex r) (validRevisions l) → running l.

Lemma advances_running l l' :
  (∀ chs, block_inv l0 chs l → advances l0 l l') → validRevisions l' = validRevisions l → running l → running l'.
Proof.
  intros Hadv Hv [base chs Hl Hi Hr]. destruct (Hadv _ Hi) as (ext & Hext & Hinv).
  apply (Running l' base (chs ++ ext)); [by rewrite Hext, Hl, (assoc_L (++))|by apply Hinv|by rewrite Hv].
Qed.

Lemma RevertToSnapshot_running revid l l' :
  running l → RevertToSnapshot revid l = Some (tt, l') → running l'.
Proof.
  intros [base chs Hlog Hinv Hrev]. unfold RevertToSnapshot, mbind, LM_bind, lm_get, lm_panic.
  destruct (searchRevision _ _) as [[idx r]|] eqn:Es; [|done]. case_decide; [|done].
  destruct (changer_revert _ _ l) as [[[] l1]|] eqn:E; [|done].
  unfold lm_modify. intros [= <-]. apply list_find_Some in Es as (Hr & _ & _).
  set (n := rev_changerIndex r) in *.
  assert (length base ≤ n) as Hb.
  { apply list_elem_of_lookup_2 in Hr. by eapply Forall_forall in Hrev. }
  rewrite changer_revert_eq in E. fold (log_of l) in E.
  destruct (lm_iter (undo_change (l_changer l)) _ l) as [[[] l2]|] eqn:Eu; [|done].
  rewrite Hlog, drop_app_ge in Eu by done. set (m := n - length base) in *.
  rewrite <-(take_drop m chs) in Hinv.
  destruct (undo_changes_undone _ _ _ _ Hinv Eu) as [Hi Hc Hv (ext & Hl)].
  unfold mbind, LM_bind, get_changer, lm_get, on_changer, lm_modify, lm_panic in E. rewrite <-Hc in E. fold (log_of l2) in E.
  case_decide as Hn; [done|]. injection E as <-. destruct (bi_heap _ _ _ Hi) as [s Hs].
  assert (n ≤ length (log_of l)) as Hle.
  { destruct (decide (n ≤ length (log_of l))) as [|Hgt]; [done|]. rewrite Hlog, length_app in Hgt.
    rewrite drop_ge in Eu by lia. injection Eu as <-. rewrite Hlog, length_app in Hn. lia. }
  apply (Running _ base (take m chs)); cbn.
  - unfold log_of. cbn. rewrite lookup_alter_eq, Hs. cbn.
    change (changes s) with (changes (default newChanger (Some s))). rewrite <-Hs. fold (log_of l2).
    by rewrite Hl, take_app_le, Hlog, take_app_ge by done.
  - eapply block_inv_frame; [..|exact Hi]; try done. cbn. rewrite lookup_alter_eq, Hs. by eexists.
  - rewrite Hv. by apply Forall_take.
Qed.

(** ** The operations of a block *)

Lemma log_ledger_advances chs l l' ch :
  block_inv l0 chs l → change_ok (accounts l) ch → (∀ a, ch ≠ createObjectChange a) →
  accounts l' = accounts l → l_changer l' = l_changer l → journal_of l' = journal_of l →
  l_shared l' = log_change (l_shared l) (l_changer l) ch → advances l0 l l'.
Proof.
  intros Hinv Hch Hno Ha Hc Hj Hs.
  destruct (log_of_append l l' (l_changer l) ch) as [Hh Hl]; [apply Hinv|done|by rewrite Hs|].
  rewrite decide_True in Hl by done. exists [ch]. split; [done|]. intros chs' Hi.
  assert (block_inv l0 chs' l') as Hi'.
  { eapply block_inv_frame; [..|exact Hi]; try done; by rewrite Hs. }
  split; [done|]. apply block_inv_snoc; [done|by rewrite Ha|]. intros a ->. by destruct (Hno a).
Qed.

Definition op_ok (op : txop) : Prop :=
  match op with
  | OGetBalance a | OSetBalance a _ | OAddBalance a _ | OSubBalance a _ | OGetState a _ | OGetNonce a
  | OSetNonce a _ | OEmpty a | OGetCode a => plain_addr a
  | OSetState a k v => plain_addr a ∧ is_ascii k ∧ v ≠ Some EmptyString
  | _ => True
  end.

(** A computation that keeps the invariant. *)
Definition keeps {A} (m : LM A) : Prop := ∀ l r l', running l → m l = Some (r, l') → running l'.

Lemma keeps_bind {A B} (m : LM A) (f : A → LM B) : keeps m → (∀ x, keeps (f x)) → keeps (m ≫= f).
Proof.
  intros Hm Hf l r l' Hi. unfold mbind, LM_bind. destruct (m l) as [[x l1]|] eqn:E; [|done].
  intros Hrun. eapply Hf; [|exact Hrun]. by eapply Hm.
Qed.

Lemma keeps_ret {A} (x : A) : keeps (mret x).
Proof. by intros l r l' Hi [= <- <-]. Qed.

Lemma keeps_get {A} (f : SimpleLedger → A) : keeps (lm_get f).
Proof. by intros l r l' Hi [= <- <-]. Qed.

Lemma keeps_panic {A} : keeps (lm_panic : LM A).
Proof. by intros l r l' Hi. Qed.

(** The fields that the invariant does not mention. *)
Lemma keeps_rest (g : SimpleLedger → SimpleLedger) :
  (∀ l, accounts (g l) = accounts l ∧ l_shared (g l) = l_shared l ∧ journal_of (g l) = journal_of l ∧
        l_changer (g l) = l_changer l ∧ validRevisions (g l) = validRevisions l) → keeps (lm_modify g).
Proof.
  intros Hg l r l' Hi [= <- <-]. destruct (Hg l) as (Ha & Hs & Hj & Hc & Hv).
  apply (advances_running l); [|done|exact Hi]. intros chs Hinv.
  apply advances_same; [unfold log_of; by rewrite Hs, Hc|]. intros chs'.
  apply block_inv_frame; rewrite ?Hs, ?Hc; try done. apply Hinv.
Qed.

(** A change of something else than an account. *)
Definition rest_change (ch : stateChange) : Prop :=
  match ch with
  | refundChange _ | addLogChange _ | addPreimageChange _ | accessListAddAccountChange _
  | accessListAddSlotChange _ _ => True
  | _ => False
  end.

Lemma keeps_log ch : rest_change ch → keeps (log_ledger ch).
Proof.
  intros Hch l r l' Hi [= <- <-]. apply (advances_running l); [|done|exact Hi]. intros chs Hinv.
  eapply (log_ledger_advances _ l); try done; [by destruct ch|by intros a ->].
Qed.

Lemma keeps_on_account {A} a (f : SimpleAccount → shared → A * SimpleAccount * shared) :
  plain_addr a → (∀ l o sh, called l a o sh → method_ok o sh (f o sh).1.2 (f o sh).2) → keeps (on_account a f).
Proof.
  intros Ha Hf l r l' Hi Hrun. apply (advances_running l); [|by eapply on_account_changer|exact Hi]. intros chs Hinv.
  eapply on_account_advances; [exact Hinv|exact Ha|exact (Hf l)|exact Hrun].
Qed.

Lemma keeps_revert revid : keeps (RevertToSnapshot revid).
Proof. intros l [] l'. apply RevertToSnapshot_running. Qed.

Lemma keeps_snapshot : keeps Snapshot.
Proof.
  intros l r l' [base chs Hl Hi Hr] [= _ <-]. apply (Running _ base chs); [done| |].
  - eapply block_inv_frame; [..|exact Hi]; try done. apply Hi.
  - apply Forall_app. split; [done|]. constructor; [|constructor]. cbn. unfold changer_length. fold (log_of l).
    rewrite Hl, length_app. lia.
Qed.

(** A new change log, or an empty one. *)
Lemma keeps_clear : keeps ClearChangerAndRefund.
Proof.
  intros l r l' [base chs Hl Hi _].
  unfold ClearChangerAndRefund, alloc_changer, get_changer, mbind, LM_bind, lm_get, lm_when, lm_modify, mret, LM_ret.
  fold (log_of l). case_bool_decide as Hn; intros [= _ <-]; (eapply (Running _ [] []); [..|constructor]); try done.
  - unfold log_of. cbn. by rewrite lookup_insert_eq.
  - apply (block_inv_frame [] l); try done; [cbn; rewrite lookup_insert_eq; by eexists|].
    destruct Hi. split; try done. constructor.
  - unfold log_of. cbn. fold (log_of l). apply nil_length_inv. lia.
  - apply (block_inv_frame [] l); try done; [apply Hi|]. destruct Hi. split; try done. constructor.
Qed.

Create HintDb keeps.
Hint Resolve keeps_ret keeps_get keeps_panic keeps_revert keeps_snapshot keeps_clear : keeps.

(** Goes through a computation of the ledger. *)
Ltac solve_keeps :=
  repeat match goal with
         | |- ∀ _, _ => intros
         | |- keeps (_ ≫= _) => apply keeps_bind
         | |- keeps (match ?x with _ => _ end) => destruct x
         | |- keeps (lm_when ?b _) => unfold lm_when; destruct b
         | |- keeps (lm_modify _) => by apply keeps_rest
         | |- keeps (log_ledger _) => by apply keeps_log
         | |- keeps _ => solve [eauto with keeps]
         end.

Lemma keeps_run_op op : op_ok op → keeps (run_op op).
Proof.
  destruct op; simpl; intros Hok;
    unfold discard, AddRefund, SubRefund, AddPreimage, AddLog, AddAddressToAccessList, AddSlotToAccessList;
    solve_keeps; apply keeps_on_account; try naive_solver; intros l o sh [_ _ Ht Hd Hc]; cbn.
  - by apply read_ok_refl.
  - by apply acc_SetBalance_ok.
  - unfold acc_AddBalance. case_decide; [by apply read_ok_refl|by apply acc_SetBalance_ok].
  - pose proof (acc_IsEmpty_read o sh Ht Hd Hc) as Hr. destruct (acc_IsEmpty o sh) as [[e o1] sh1]. cbn in *.
    destruct e; [apply Hr|]. apply (read_then _ _ o1 sh1); [done|]. destruct Hr as [[_ Ht1 _ _ Hc1 _] _]. cbn.
    unfold acc_SubBalance. case_decide; [by apply read_ok_refl|by apply acc_SetBalance_ok].
  - pose proof (acc_GetState_read o sh k Ht Hd Hc) as Hg. destruct (acc_GetState o sh k) as [[v o1] sh1]. apply Hg.
  - destruct Hok as (_ & ? & ?). by apply acc_SetState_ok.
  - by apply read_ok_refl.
  - by apply acc_SetNonce_ok.
  - by apply acc_IsEmpty_read.
  - by apply acc_Code_read.
Qed.
End run.

(** ** Blocks *)

(** The operations of a block: those of its transactions, the end of a transaction, and [AddState], with
which the executor and the contracts add a key that is new. *)
Inductive blockop := BOp (op : txop) | BFinalise | BAddState (a k v : string).

Definition run_blockop (op : blockop) : LM () :=
  match op with BOp op => run_op op | BFinalise => Finalise true | BAddState a k v => AddState a k (Some v) end.

Fixpoint run_block (ops : list blockop) : LM () :=
  match ops with [] => mret tt | op :: ops => _ ← run_blockop op; run_block ops end.

Definition blockop_ok ldb (op : blockop) : Prop :=
  match op with
  | BOp op => op_ok op
  | BFinalise => True
  | BAddState a k v => plain_addr a ∧ is_ascii k ∧ v ≠ EmptyString ∧ db_state ldb a k = None
  end.

Lemma keeps_AddState l0 a k v :
  db_ok (sh_ldb (l_shared l0)) → blockop_ok (sh_ldb (l_shared l0)) (BAddState a k v) →
  keeps l0 (AddState a k (Some v)).
Proof.
  intros Hdb (Ha & Hk & Hv & Hn). apply keeps_on_account; [done..|]. intros l o sh [_ Haddr Ht _ Hc]. cbn.
  apply method_ok_quiet; try done; [|by apply setState_remembers]. apply tracked_setState; try done; [|congruence].
  rewrite Haddr, Hn. destruct (originState o !! k) as [w|] eqn:Eo; [|done].
  by rewrite (tk_origin _ _ Ht _ _ Eo), Haddr, Hn.
Qed.

Lemma run_block_running l0 ops l l' :
  db_ok (sh_ldb (l_shared l0)) → Forall (blockop_ok (sh_ldb (l_shared l0))) ops → running l0 l →
  run_block ops l = Some (tt, l') → running l0 l'.
Proof.
  intros Hdb Hok. assert (keeps l0 (run_block ops)) as Hk; [|by apply Hk].
  induction Hok as [|op ops Hop _ IH]; [apply keeps_ret|]. apply keeps_bind; [|done].
  destruct op; [by apply keeps_run_op|by apply keeps_clear|by apply keeps_AddState].
Qed.
End block.
