(* ===== verification/BlockCommit.v ===== *)
(** * Blocks on the state ledger: flush, commit and rollback

The writes that [Commit] makes for the accounts of a block and those with which [RollbackState]
undoes them, as relations between keys and values; the journal of a block; the store and the
caches afterwards. *)
From Stdlib Require Import Ascii.
From S2P Require Import Prelude Btree Storage Account StateLedger StateLedgerProps LedgerTheorems BlockProps.

Section commit.
Context `{StorageLib, LruLib, AddressLib, HashLib, InnerAccountLib, GoRange, AccessListLib}.
Implicit Types (l : SimpleLedger) (o : SimpleAccount) (ac : AccountCache) (a k : string) (ldb : storage).

(** ** Journals *)

Definition changed o : bool := InnerAccountChanged (originAccount o) (dirtyAccount o).
Definition modified o : bool := changed o || bool_decide (size (prevStates_of o) ≠ 0).
Definition hashed o : SimpleAccount := (getStateJournalAndComputeHash o).2.
Definition entry_of o : blockJournalEntry :=
  MkJournalEntry (Addr o) (if changed o then originAccount o else None) (changed o) (prevStates_of o) None false.

Lemma bytes_Equal_refl (v : option string) : bytes_Equal v v = true.
Proof. unfold bytes_Equal. by apply bool_decide_true. Qed.

Lemma with_originCode_same o : with_originCode o (originCode o) = o.
Proof. by destruct o. Qed.

Lemma getJournalIfModified_tracked ldb o :
  tracked ldb o → getJournalIfModified o ldb = (if modified o then Some (entry_of o) else None, hashed o).
Proof.
  intros Ht. unfold getJournalIfModified. pose proof (tk_originCode _ _ Ht) as Hc. unfold db_code in Hc.
  rewrite <-Hc, with_originCode_same. set (o' := match originCode o with Some _ => o | None => _ end).
  assert (o' = o) as -> by (unfold o'; by repeat case_match).
  rewrite (tk_dirtyCode _ _ Ht), bytes_Equal_refl. simpl. rewrite orb_false_r. unfold modified, entry_of, changed.
  by destruct (_ || _).
Qed.

Lemma prevStates_lookup o k v :
  prevStates_of o !! k = Some v ↔
  v = default None (originState o !! k) ∧ ∃ w, dirtyState o !! k = Some w ∧ bytes_Equal v w = false.
Proof.
  unfold prevStates_of. rewrite map_lookup_imap. destruct (dirtyState o !! k) as [w|]; simpl.
  - destruct (bytes_Equal (default None (originState o !! k)) w) eqn:E.
    + split; [done|]. intros (-> & w' & [= <-] & Hb). congruence.
    + split; [intros [= <-]; eauto|]. by intros (-> & _).
  - split; [done|]. by intros (_ & w & ? & _).
Qed.

Lemma modified_state o k v : prevStates_of o !! k = Some v → modified o.
Proof.
  intros Hk. unfold modified. apply orb_True. right. apply bool_decide_spec. intros Hz%map_size_empty_inv.
  by rewrite Hz in Hk.
Qed.

Lemma changed_modified o : changed o → modified o.
Proof. intros Hc. unfold modified. apply orb_True. by left. Qed.

Lemma hashed_dirty o : Addr (hashed o) = Addr o ∧ originAccount (hashed o) = originAccount o ∧
  dirtyAccount (hashed o) = dirtyAccount o ∧ originState (hashed o) = originState o ∧
  dirtyState (hashed o) = dirtyState o ∧ originCode (hashed o) = originCode o ∧ dirtyCode (hashed o) = dirtyCode o.
Proof. done. Qed.

(** ** The loop of [FlushDirtyData] *)

Record flushed (accs : list (string * SimpleAccount)) (st : flushing) : Prop := {
  fd_journals : fl_journals st = (λ p, entry_of p.2) <$> filter (λ p, modified p.2) accs;
  fd_dirty s o' : fl_dirtyAccounts st !! s = Some o' → ∃ o, (s, o) ∈ accs ∧ modified o ∧ o' = hashed o;
  fd_all s o : (s, o) ∈ accs → modified o → is_Some (fl_dirtyAccounts st !! s) }.

Lemma flushed_step ldb accs s o st :
  tracked ldb o → flushed accs st → ∃ st', flushAccount ldb (Some st) (s, o) = Some st' ∧ flushed (accs ++ [(s, o)]) st'.
Proof.
  intros Ht [F1 F2 F3]. unfold flushAccount. cbn [mbind option_bind].
  rewrite (getJournalIfModified_tracked ldb o Ht). destruct (modified o) eqn:Em.
  - assert (∃ data, getDirtyData (hashed o) = Some data) as [data ->].
    { unfold getDirtyData. cbn. destruct (dirtyAccount o) as [d|]; [|by eexists].
      destruct (codec_ok d) as (s' & -> & _). by eexists. }
    eexists. split; [done|]. split; cbn.
    + rewrite filter_app, fmap_app, filter_cons_True, F1 by (cbn; by rewrite Em). done.
    + intros s' o'. rewrite lookup_insert_Some. intros [[<- <-]|[_ Hs]].
      * exists o. rewrite Em. split_and!; [set_solver|done|done].
      * destruct (F2 _ _ Hs) as (o1 & ? & ? & ?). exists o1. split_and!; [set_solver|done|done].
    + intros s' o1 Hin Hm. destruct (decide (s' = s)) as [->|Hne]; [rewrite lookup_insert_eq; by eexists|].
      rewrite lookup_insert_ne by done.
      apply elem_of_app in Hin as [?|[= -> ->]%list_elem_of_singleton]; [by apply (F3 s' o1)|done].
  - eexists. split; [done|]. split.
    + rewrite filter_app, filter_cons_False, app_nil_r by (cbn; rewrite Em; by intros []). done.
    + intros s' o' Hs. destruct (F2 _ _ Hs) as (o1 & ? & ? & ?). exists o1. split_and!; [set_solver|done|done].
    + intros s' o1 [Hin|Hin%list_elem_of_singleton]%elem_of_app Hm; [by apply (F3 s' o1)|].
      simplify_eq. by rewrite Em in Hm.
Qed.

Lemma flush_fold ldb accs :
  (∀ s o, (s, o) ∈ accs → tracked ldb o) →
  ∃ st, foldl (flushAccount ldb) (Some (MkFlushing ∅ [] [] ∅)) accs = Some st ∧ flushed accs st.
Proof.
  induction accs as [|[s o] accs IH] using rev_ind; intros Ht.
  { eexists. split; [done|]. split; [done|by intros ??|set_solver]. }
  destruct IH as (st & E & Hst); [set_solver|]. rewrite foldl_app, E.
  apply (flushed_step ldb accs); [|done]. apply (Ht s). set_solver.
Qed.

(** ** The writes of a block *)

(** [Commit] writes [v] to [key] for the account. *)
Inductive writes o : string → option string → Prop :=
| wr_account d : changed o → dirtyAccount o = Some d →
    writes o (compositeKey accountKey (addr_String (Addr o))) (marshal d)
| wr_state k v : dirtyState o !! k = Some v → bytes_Equal (default None (originState o !! k)) v = false →
    writes o (composeStateKey (Addr o) k) v.

(** [revertJournal] writes [v] to [key]. *)
Inductive unwrites o : string → option string → Prop :=
| uw_account : changed o →
    unwrites o (compositeKey accountKey (addr_String (Addr o))) (originAccount o ≫= marshal)
| uw_state k v : prevStates_of o !! k = Some v → unwrites o (composeStateKey (Addr o) k) v.

Lemma changed_dirty o : changed o → ∃ d, dirtyAccount o = Some d.
Proof.
  unfold changed. destruct (dirtyAccount o) as [d|]; [by eexists|].
  assert (InnerAccountChanged (originAccount o) None = false) as -> by (by apply InnerAccountChanged_spec). done.
Qed.

Lemma commitAccount_writes ldb o :
  tracked ldb o → ∃ w, commitAccount ldb (hashed o) = Some w ∧ ∀ key v, (key, v) ∈ w ↔ writes o key v.
Proof.
  intros Ht. unfold commitAccount, commitCode. cbn [Suicided].
  destruct (hashed_dirty o) as (-> & -> & -> & _ & _ & -> & ->).
  rewrite (tk_dirtyCode _ _ Ht), bytes_Equal_refl. fold (changed o).
  assert (∀ key v, (key, v) ∈ commitStates (hashed o) ↔
    ∃ k, dirtyState o !! k = Some v ∧ bytes_Equal (default None (originState o !! k)) v = false ∧
         key = composeStateKey (Addr o) k) as Hst.
  { intros key v. unfold commitStates. rewrite list_elem_of_omap. split.
    - intros ([k w] & Hin%elem_of_go_range & Hw). destruct (bytes_Equal _ w) eqn:E; [done|]. exists k. naive_solver.
    - intros (k & Hk & Hb & ->). exists (k, v). rewrite elem_of_go_range. split; [done|]. cbn. by rewrite Hb. }
  destruct (changed o) eqn:Ec.
  - destruct (changed_dirty o) as [d Hd]; [by rewrite Ec|]. destruct (codec_ok d) as (data & Hm & _).
    rewrite Hd. cbn. rewrite Hm. cbn. eexists. split; [done|]. intros key v. rewrite elem_of_cons, Hst. split.
    + intros [[= -> ->]|(k & ? & ? & ->)]; [|by constructor]. rewrite <-Hm. by constructor; rewrite ?Ec.
    + intros [d' _ Hd'|k v' Hk Hb]; [left|right; eauto]. congruence.
  - eexists. split; [done|]. intros key v. cbn. rewrite Hst. split.
    + intros (k & ? & ? & ->). by constructor.
    + intros [d' Hc|k v' Hk Hb]; [by rewrite Ec in Hc|eauto].
Qed.

Lemma revertJournal_unwrites o :
  ∃ w, revertJournal (entry_of o) = Some w ∧ ∀ key v, (key, v) ∈ w ↔ unwrites o key v.
Proof.
  unfold revertJournal, entry_of. cbn.
  assert (∀ key v, (key, v) ∈ ((λ '(k, val), (composeStateKey (Addr o) k, val)) <$> go_range (prevStates_of o)) ++ [] ↔
    ∃ k, prevStates_of o !! k = Some v ∧ key = composeStateKey (Addr o) k) as Hst.
  { intros key v. rewrite app_nil_r, list_elem_of_fmap. split.
    - intros ([k w] & [= -> ->] & Hin%elem_of_go_range). eauto.
    - intros (k & Hk & ->). exists (k, v). by rewrite elem_of_go_range. }
  destruct (changed o) eqn:Ec.
  - assert (∃ w1, (match originAccount o with
                   | Some a => data ← marshal a; Some [(compositeKey accountKey (addr_String (Addr o)), Some data)]
                   | None => Some [(compositeKey accountKey (addr_String (Addr o)), None)]
                   end) = Some w1 ∧ w1 = [(compositeKey accountKey (addr_String (Addr o)), originAccount o ≫= marshal)])
      as (w1 & Ew & ->).
    { destruct (originAccount o) as [i|]; [|by eexists]. destruct (codec_ok i) as (d & Hd & _).
      cbn. rewrite Hd. by eexists. }
    rewrite Ew. cbn. eexists. split; [done|]. intros key v. rewrite elem_of_cons, Hst. split.
    + intros [[= -> ->]|(k & ? & ->)]; [by constructor; rewrite Ec|by constructor].
    + intros [_|k v' Hk]; [by left|right; eauto].
  - eexists. split; [done|]. intros key v. cbn. rewrite Hst. split.
    + intros (k & ? & ->). by constructor.
    + intros [Hc|k v' Hk]; [by rewrite Ec in Hc|eauto].
Qed.

(** What is written is undone, with the value that the store had. *)
Lemma writes_unwrites ldb o key v : tracked ldb o → writes o key v → ∃ v', unwrites o key v'.
Proof.
  intros Ht [d Hc Hd|k w Hk Hb]; [eexists; by constructor|]. eexists. apply uw_state, prevStates_lookup. eauto.
Qed.

Lemma unwrites_old ldb o key v : tracked ldb o → unwrites o key v → v = st_Get ldb key.
Proof.
  intros Ht [_|k w Hk].
  - apply (tk_inner _ _ Ht).
  - apply prevStates_lookup in Hk as (-> & w' & Hd & _). by destruct (tk_dirty _ _ Ht _ _ Hd) as (-> & _).
Qed.

Lemma writes_modified o key v : writes o key v → modified o.
Proof.
  intros [d Hc _|k w Hk Hb]; [by apply changed_modified|].
  apply (modified_state o k (default None (originState o !! k))). apply prevStates_lookup. eauto.
Qed.

Lemma writes_inv o key v :
  writes o key v →
  (∃ d, changed o ∧ dirtyAccount o = Some d ∧ key = compositeKey accountKey (addr_String (Addr o)) ∧ v = marshal d) ∨
  (∃ k, dirtyState o !! k = Some v ∧ key = composeStateKey (Addr o) k).
Proof. intros [d Hc Hd|k w Hk Hb]; [left|right]; eauto. Qed.

(** Batches that are collected from a list. *)
Lemma fold_writes {A} (f : A → option batch) (R : A → string → option string → Prop) (xs : list A) :
  (∀ x, x ∈ xs → ∃ w, f x = Some w ∧ ∀ key v, (key, v) ∈ w ↔ R x key v) →
  ∃ ws, foldl (λ ws x, ws ← ws; w ← f x; Some (ws ++ w)) (Some []) xs = Some ws ∧
    ∀ key v, (key, v) ∈ ws ↔ ∃ x, x ∈ xs ∧ R x key v.
Proof.
  induction xs as [|x xs IH] using rev_ind; intros Hf.
  { eexists. split; [done|]. intros key v. split; [by intros ?%elem_of_nil|]. by intros (y & ?%elem_of_nil & _). }
  destruct IH as (ws & E & Hws); [intros y Hy; apply Hf; set_solver|].
  destruct (Hf x) as (w & Ew & Hw); [clear; set_solver|].
  rewrite foldl_app, E. cbn. rewrite Ew. eexists. split; [done|]. intros key v.
  rewrite elem_of_app, Hws, Hw. split.
  - intros [(y & Hy & HR)|HR]; [exists y|exists x]; (split; [apply elem_of_app; rewrite ?list_elem_of_singleton; auto|done]).
  - intros (y & [Hy|Hy%list_elem_of_singleton]%elem_of_app & HR); [left; eauto|subst; by right].
Qed.

Lemma writes_hashed o key v : writes (hashed o) key v ↔ writes o key v.
Proof.
  split; intros [d Hc Hd|k w Hk Hb].
  - by apply (wr_account o).
  - by apply (wr_state o).
  - by apply (wr_account (hashed o)).
  - by apply (wr_state (hashed o)).
Qed.

(** A batch that writes a key with one value only. *)
Lemma batch_lookup_fun (b : batch) key v :
  (key, v) ∈ b → (∀ v', (key, v') ∈ b → v' = v) → batch_lookup b key = Some v.
Proof.
  intros Hin Hfun. destruct (batch_lookup b key) as [v'|] eqn:E.
  - apply batch_lookup_Some in E. by rewrite (Hfun _ E).
  - exfalso. clear Hfun. revert E. induction b as [|[k' w] b IH] using rev_ind; [set_solver|].
    rewrite batch_lookup_snoc. case_decide; [done|]. apply IH. set_solver.
Qed.

(** ** Keys of the journals *)

Definition jkey (i : Z) : string := compositeKey journalKey (fmt_d i).
Definition minKey : string := compositeKey journalKey minHeightStr.
Definition maxKey : string := compositeKey journalKey maxHeightStr.
Definition journal_key (key : string) : Prop := ∃ s, key = compositeKey journalKey s.

Lemma jkey_inj i j : jkey i = jkey j → i = j.
Proof. intros Heq%string_app_inj. by apply fmt_d_inj. Qed.

Lemma jkey_bounds i : (0 ≤ i)%Z → jkey i ≠ minKey ∧ jkey i ≠ maxKey.
Proof.
  intros Hi. pose proof (fmt_d_no_char "H" i eq_refl Hi) as Hn.
  split; intros Heq%string_app_inj; by rewrite Heq in Hn.
Qed.

Lemma minKey_maxKey : minKey ≠ maxKey.
Proof. by intros ?%string_app_inj. Qed.

Lemma account_not_journal s : ¬ journal_key (compositeKey accountKey s).
Proof. intros [t Ht]. unfold compositeKey, accountKey, journalKey in Ht. rewrite !string_app_cons in Ht. congruence. Qed.

Lemma code_not_journal s : ¬ journal_key (compositeKey codeKey s).
Proof. intros [t Ht]. unfold compositeKey, codeKey, journalKey in Ht. rewrite !string_app_cons in Ht. congruence. Qed.

Lemma state_not_journal a k : plain_addr a → ¬ journal_key (composeStateKey a k).
Proof. intros Ha [s Hs]. by apply (composeStateKey_plain a k s Ha). Qed.

Lemma code_not_account s t : compositeKey codeKey s ≠ compositeKey accountKey t.
Proof. unfold compositeKey, accountKey, codeKey. rewrite !string_app_cons. congruence. Qed.

(** ** The caches after [add] *)

Lemma lru_fold_add {K V} `{EqDecision K} (kvs : list (K * V)) (c : lru K V) (k : K) (v : V) :
  lru_Get (fold_left (λ c '(key, value), lru_Add c key value) kvs c) k = Some v →
  (k, v) ∈ kvs ∨ (lru_Get c k = Some v ∧ k ∉ kvs.*1).
Proof.
  induction kvs as [|[k1 v1] kvs IH] using rev_ind; [right; set_solver|]. rewrite fold_left_app. simpl.
  set (c' := fold_left _ kvs c) in *. destruct (decide (k1 = k)) as [->|Hne].
  - rewrite lru_Get_Add. intros [= ->]. left. set_solver.
  - destruct (lru_Get_Add_ne c' k1 v1 k Hne) as [->| ->]; [|done]. intros Hg.
    destruct (IH Hg) as [Hin|[? Hni]]; [left; set_solver|right]. split; [done|]. rewrite fmap_app. set_solver.
Qed.

(** What the caches hold of an account afterwards: what it wrote, or what they held before. *)
Lemma cache_addAccount_state ac s o a k v :
  cached_state (cache_addAccount ac (s, o)) a k = Some v →
  (addr_String a = s ∧ dirtyState o !! k = Some v) ∨
  (cached_state ac a k = Some v ∧ (addr_String a = s → dirtyState o !! k = None)).
Proof.
  assert (∀ c v', lru_Get (fold_left (λ c '(key, value), lru_Add c key value) (go_range (dirtyState o)) c) k = Some v' →
    dirtyState o !! k = Some v' ∨ (lru_Get c k = Some v' ∧ dirtyState o !! k = None)) as Hadd.
  { intros c v' [Hin%elem_of_go_range|[Hc Hni]]%lru_fold_add; [by left|right; split; [done|]].
    apply eq_None_not_Some. intros Hs. apply Hni. by apply elem_of_go_keys. }
  unfold cached_state, cache_addAccount. cbn. destruct (lru_Get (stateCache ac) s) as [c|] eqn:Ec.
  - rewrite lru_Get_Modify, !lru_Get_Touch. case_decide as Hs; [|by right].
    rewrite Hs, Ec. cbn. intros [?|[? ?]]%Hadd; [by left|right; eauto].
  - case_decide as Hl; [|rewrite lru_Get_Touch; intros Hg; right; split; [done|]; intros Hs; by rewrite Hs, Ec in Hg].
    destruct (decide (s = addr_String a)) as [->|Hne].
    + rewrite lru_Get_Add. cbn. intros [?|[Hn _]]%Hadd; [by left|]. by rewrite lru_Get_New in Hn.
    + intros Hg. right. split; [|intros Hs; by destruct Hne]. revert Hg.
      match goal with |- context [lru_Add ?x s ?y] => destruct (lru_Get_Add_ne x s y (addr_String a) Hne) as [->| ->] end;
        [by rewrite lru_Get_Touch|done].
Qed.

Lemma cache_addAccount_inner ac s o s' i :
  lru_Get (innerAccountCache (cache_addAccount ac (s, o))) s' = Some i →
  (s' = s ∧ dirtyAccount o = Some i) ∨
  (lru_Get (innerAccountCache ac) s' = Some i ∧ (s' = s → dirtyAccount o = None)).
Proof.
  cbn. destruct (dirtyAccount o) as [d|]; [|by right]. destruct (decide (s = s')) as [->|Hne].
  - rewrite lru_Get_Add. intros [= ->]. by left.
  - destruct (lru_Get_Add_ne (innerAccountCache ac) s d s' Hne) as [->| ->]; [|done]. intros Hg. right. by split.
Qed.

Lemma cache_addAccount_code ac s o :
  dirtyCode o = originCode o → codeCache (cache_addAccount ac (s, o)) = codeCache ac.
Proof. intros Hc. cbn. by rewrite Hc, bytes_Equal_refl. Qed.

Lemma cache_fold_state ac accs a k v :
  cached_state (fold_left cache_addAccount accs ac) a k = Some v →
  (∃ o, (addr_String a, o) ∈ accs ∧ dirtyState o !! k = Some v) ∨
  (cached_state ac a k = Some v ∧ ∀ o, (addr_String a, o) ∈ accs → dirtyState o !! k = None).
Proof.
  induction accs as [|[s o] accs IH] using rev_ind; [right; split; [done|by intros ? ?%elem_of_nil]|].
  rewrite fold_left_app. intros [[<- Ho]|[Hc Hs]]%cache_addAccount_state.
  - left. exists o. split; [apply elem_of_app; right; by apply list_elem_of_singleton|done].
  - destruct (IH Hc) as [(o1 & Hin & Ho1)|[Hc0 Hn]]; [left|right].
    + exists o1. split; [apply elem_of_app; by left|done].
    + split; [done|]. intros o1 [?|Heq%list_elem_of_singleton]%elem_of_app; simplify_eq; auto.
Qed.

Lemma cache_fold_inner ac accs s' i :
  lru_Get (innerAccountCache (fold_left cache_addAccount accs ac)) s' = Some i →
  (∃ o, (s', o) ∈ accs ∧ dirtyAccount o = Some i) ∨
  (lru_Get (innerAccountCache ac) s' = Some i ∧ ∀ o, (s', o) ∈ accs → dirtyAccount o = None).
Proof.
  induction accs as [|[s o] accs IH] using rev_ind; [right; split; [done|by intros ? ?%elem_of_nil]|].
  rewrite fold_left_app. intros [[-> Ho]|[Hc Hs]]%cache_addAccount_inner.
  - left. exists o. split; [apply elem_of_app; right; by apply list_elem_of_singleton|done].
  - destruct (IH Hc) as [(o1 & Hin & Ho1)|[Hc0 Hn]]; [left|right].
    + exists o1. split; [apply elem_of_app; by left|done].
    + split; [done|]. intros o1 [?|Heq%list_elem_of_singleton]%elem_of_app; simplify_eq; auto.
Qed.

Lemma cache_fold_code ac accs :
  (∀ s o, (s, o) ∈ accs → dirtyCode o = originCode o) →
  codeCache (fold_left cache_addAccount accs ac) = codeCache ac.
Proof.
  induction accs as [|[s o] accs IH] using rev_ind; intros Hc; [done|]. rewrite fold_left_app. cbn [fold_left].
  rewrite cache_addAccount_code; [apply IH; intros s' o' ?; apply (Hc s')|apply (Hc s)]; apply elem_of_app;
    rewrite ?list_elem_of_singleton; auto.
Qed.

(** ** The end of a block *)

Section end_of_block.
Context (l0 l1 : SimpleLedger) (chs : list stateChange) (Hdb : db_ok (sh_ldb (l_shared l0))).
Context (Hinv : block_inv l0 chs l1).
Local Notation ldb0 := (sh_ldb (l_shared l0)).

Lemma acc_tracked s o : accounts l1 !! s = Some o → tracked ldb0 o.
Proof. intros Ho. by destruct (bi_acc _ _ _ Hinv _ _ Ho). Qed.

Lemma acc_unique s o s' o' :
  accounts l1 !! s = Some o → accounts l1 !! s' = Some o' → Addr o = Addr o' → s = s' ∧ o = o'.
Proof.
  intros Ho Ho' Heq. destruct (bi_acc _ _ _ Hinv _ _ Ho) as [-> _]. destruct (bi_acc _ _ _ Hinv _ _ Ho') as [-> _].
  rewrite Heq in *. split; congruence.
Qed.

Lemma acc_at a o : accounts l1 !! addr_String a = Some o → Addr o = a.
Proof. intros Ho. destruct (bi_acc _ _ _ Hinv _ _ Ho) as [Hs _]. symmetry. by apply addr_String_inj. Qed.

(** What the block writes to the store. *)
Definition block_writes (key : string) (v : option string) : Prop :=
  ∃ s o, accounts l1 !! s = Some o ∧ writes o key v.

Lemma block_writes_fun key v v' : block_writes key v → block_writes key v' → v = v'.
Proof.
  intros (s & o & Ho & Hw) (s' & o' & Ho' & Hw').
  pose proof (tk_addr _ _ (acc_tracked _ _ Ho)) as Ha. pose proof (tk_addr _ _ (acc_tracked _ _ Ho')) as Ha'.
  apply writes_inv in Hw as [(d & _ & Hd & -> & ->)|(k & Hk & ->)];
    apply writes_inv in Hw' as [(d' & _ & Hd' & Heq & ->)|(k' & Hk' & Heq)].
  - apply string_app_inj, addr_String_inj in Heq. destruct (acc_unique _ _ _ _ Ho Ho' Heq) as [-> ->]. congruence.
  - destruct (composeStateKey_plain (Addr o') k' (addr_String (Addr o)) Ha') as [Hne _]. by destruct Hne.
  - destruct (composeStateKey_plain (Addr o) k (addr_String (Addr o')) Ha) as [Hne _]. by destruct Hne.
  - apply composeStateKey_inj in Heq as [Heq ->]; [|done..]. destruct (acc_unique _ _ _ _ Ho Ho' Heq) as [-> ->]. congruence.
Qed.

Lemma block_writes_ordinary key v : block_writes key v → ¬ journal_key key.
Proof.
  intros (s & o & Ho & Hw). pose proof (tk_addr _ _ (acc_tracked _ _ Ho)) as Ha.
  destruct Hw; [apply account_not_journal|by apply state_not_journal].
Qed.

(** The result of [FlushDirtyData]. *)
Record flush_result (accs : gmap string SimpleAccount) (root : string) l2 : Prop := {
  fr_accs s o' : accs !! s = Some o' ↔ ∃ o, accounts l1 !! s = Some o ∧ modified o ∧ o' = hashed o;
  fr_ldb : sh_ldb (l_shared l2) = ldb0;
  fr_cache : sh_cache (l_shared l2) = cache_add (sh_cache (l_shared l1)) accs;
  fr_log : sh_changers (l_shared l2) = sh_changers (l_shared l1) ∧ l_changer l2 = l_changer l1;
  fr_revisions : validRevisions l2 = validRevisions l1;
  fr_accounts : accounts l2 = ∅;
  fr_heights : minJnlHeight l2 = minJnlHeight l0 ∧ maxJnlHeight l2 = maxJnlHeight l0;
  fr_prev : prevJnlHash l2 = root;
  fr_journal : ∃ os, blockJournals l2 !! root = Some (MkBlockJournal (entry_of <$> os) root) ∧
    ∀ o, o ∈ os ↔ ∃ s, accounts l1 !! s = Some o ∧ modified o }.

Lemma FlushDirtyData_result :
  ∃ accs root l2, FlushDirtyData l1 = Some ((accs, root), l2) ∧ flush_result accs root l2.
Proof.
  unfold FlushDirtyData. rewrite (bi_ldb _ _ _ Hinv).
  destruct (flush_fold ldb0 (go_range (accounts l1))) as (st & -> & [F1 F2 F3]).
  { intros s o Hin%elem_of_go_range. by eapply acc_tracked. }
  cbn [mbind option_bind]. do 3 eexists. split; [done|].
  pose proof (bi_journal _ _ _ Hinv) as Hj. unfold journal_of in Hj. injection Hj as Hj1 Hj2 _ _.
  split; try done.
  - intros s o'. split.
    + intros Hs. destruct (F2 _ _ Hs) as (o & Hin%elem_of_go_range & ? & ?). eauto.
    + intros (o & Ho & Hm & ->). destruct (F3 s o) as [o' Ho']; [by apply elem_of_go_range|done|].
      destruct (F2 _ _ Ho') as (o2 & Hin%elem_of_go_range & _ & ->). congruence.
  - apply (bi_ldb _ _ _ Hinv).
  - exists (filter (λ p, modified p.2) (go_range (accounts l1))).*2. cbn. rewrite lookup_insert_eq. split.
    + rewrite F1, <-list_fmap_compose. done.
    + intros o. rewrite list_elem_of_fmap. split.
      * intros ([s o1] & -> & [Hm Hin%elem_of_go_range]%list_elem_of_filter). eauto.
      * intros (s & Ho & Hm). exists (s, o). split; [done|]. apply list_elem_of_filter. by rewrite elem_of_go_range.
Qed.

(** ** The store after the block *)

(** The ordinary keys have what the block wrote. *)
Definition block_store ldb : Prop :=
  ∀ key, ¬ journal_key key →
    (∃ v, block_writes key v ∧ st_Get ldb key = v) ∨
    ((∀ v, ¬ block_writes key v) ∧ st_Get ldb key = st_Get ldb0 key).

Context (ldb1 : storage) (Hst : block_store ldb1).

Lemma written key v : block_writes key v → st_Get ldb1 key = v.
Proof.
  intros Hw. destruct (Hst key) as [(v' & Hw' & ->)|[Hno _]]; [by eapply block_writes_ordinary| |by destruct (Hno v)].
  by eapply block_writes_fun.
Qed.

Lemma unwritten_state a k :
  plain_addr a → (∀ o v, accounts l1 !! addr_String a = Some o → dirtyState o !! k = Some v →
                  bytes_Equal (default None (originState o !! k)) v = true) →
  db_state ldb1 a k = db_state ldb0 a k.
Proof.
  intros Ha Hno. destruct (Hst (composeStateKey a k)) as [(v & (s & o & Ho & Hw) & _)|[_ ?]]; [by apply state_not_journal| |done].
  exfalso. pose proof (tk_addr _ _ (acc_tracked _ _ Ho)) as Ha'. destruct (bi_acc _ _ _ Hinv _ _ Ho) as [-> _].
  remember (composeStateKey a k) as key eqn:Ek. destruct Hw as [d _ _|k' v' Hk Hb].
  - by destruct (composeStateKey_plain a k (addr_String (Addr o)) Ha) as [[] _].
  - apply composeStateKey_inj in Ek as [Ek ->]; [|done..]. rewrite Ek in *. specialize (Hno _ _ Ho Hk). congruence.
Qed.

Lemma unwritten_inner a :
  plain_addr a → (∀ o, accounts l1 !! addr_String a = Some o → changed o = false) →
  db_inner ldb1 a = db_inner ldb0 a.
Proof.
  intros Ha Hno. destruct (Hst (compositeKey accountKey (addr_String a))) as [(v & (s & o & Ho & Hw) & _)|[_ ?]];
    [apply account_not_journal| |done].
  exfalso. pose proof (tk_addr _ _ (acc_tracked _ _ Ho)) as Ha'. destruct (bi_acc _ _ _ Hinv _ _ Ho) as [-> _].
  remember (compositeKey accountKey (addr_String a)) as key eqn:Ek. destruct Hw as [d Hc _|k' v' _ _].
  - apply string_app_inj in Ek. rewrite Ek in *. by rewrite (Hno _ Ho) in Hc.
  - by destruct (composeStateKey_plain (Addr o) k' (addr_String a) Ha') as [[] _].
Qed.

Lemma unwritten_code a : plain_addr a → db_code ldb1 a = db_code ldb0 a.
Proof.
  intros Ha. destruct (Hst (compositeKey codeKey (addr_String a))) as [(v & (s & o & Ho & Hw) & _)|[_ ?]];
    [apply code_not_journal| |done].
  exfalso. pose proof (tk_addr _ _ (acc_tracked _ _ Ho)) as Ha'.
  apply writes_inv in Hw as [(d & _ & _ & Heq & _)|(k & _ & Heq)]; [by apply code_not_account in Heq|].
  by destruct (composeStateKey_plain (Addr o) k (addr_String a) Ha') as (_ & [] & _).
Qed.

(** A dirty value is in the store afterwards. *)
Lemma state_written s o k v :
  accounts l1 !! s = Some o → dirtyState o !! k = Some v → db_state ldb1 (Addr o) k = v.
Proof.
  intros Ho Hk. pose proof (acc_tracked _ _ Ho) as Ht. destruct (bi_acc _ _ _ Hinv _ _ Ho) as [-> _].
  destruct (tk_dirty _ _ Ht k v Hk) as (Horig & Hv & _).
  destruct (bytes_Equal (default None (originState o !! k)) v) eqn:Eb.
  - rewrite unwritten_state; [|apply Ht|].
    + rewrite Horig in Eb. pose proof (do_state _ Hdb (Addr o) k (tk_addr _ _ Ht)) as Hn.
      unfold bytes_Equal in Eb. apply bool_decide_eq_true in Eb.
      destruct (db_state ldb0 (Addr o) k) as [x|], v as [y|]; simpl in Eb; congruence.
    + intros o' v' Ho' Hk'. congruence.
  - apply written. exists (addr_String (Addr o)), o. split; [done|]. by constructor.
Qed.

Lemma inner_same o d : tracked ldb0 o → changed o = false → dirtyAccount o = Some d → originAccount o = Some d.
Proof.
  intros Ht Hc Hd. unfold changed in Hc. rewrite Hd in Hc. apply InnerAccountChanged_spec in Hc as (i & Hi & Hn & Hb & _).
  pose proof (tk_codehash _ _ Ht d Hd) as Hh. rewrite Hi in *. simpl in Hh. destruct i, d. simpl in *. congruence.
Qed.

Lemma inner_written s o d :
  accounts l1 !! s = Some o → dirtyAccount o = Some d → db_inner ldb1 (Addr o) = marshal d.
Proof.
  intros Ho Hd. pose proof (acc_tracked _ _ Ho) as Ht. destruct (bi_acc _ _ _ Hinv _ _ Ho) as [-> _].
  destruct (changed o) eqn:Ec.
  - apply written. exists (addr_String (Addr o)), o. split; [done|]. by constructor; rewrite ?Ec.
  - rewrite unwritten_inner; [|apply Ht|intros; congruence].
    by rewrite <-(tk_inner _ _ Ht), (inner_same o d Ht Ec Hd).
Qed.

Lemma db_ok_written : db_ok ldb1.
Proof.
  split.
  - intros a k Ha Heq. destruct (Hst (composeStateKey a k)) as [(v & (s & o & Ho & Hw) & Hv)|[_ Hs]];
      [by apply state_not_journal| |apply (do_state _ Hdb a k Ha); unfold db_state in *; congruence].
    unfold db_state in Heq. rewrite Hv in Heq. subst v. pose proof (acc_tracked _ _ Ho) as Ht.
    apply writes_inv in Hw as [(d & _ & _ & Hk & _)|(k' & Hk & _)].
    + by destruct (composeStateKey_plain a k (addr_String (Addr o)) Ha) as [[] _].
    + by destruct (tk_dirty _ _ Ht _ _ Hk) as (_ & Hn & _).
  - intros a d Ha. destruct (accounts l1 !! addr_String a) as [o|] eqn:Ho.
    + pose proof (acc_at _ _ Ho) as Haddr. subst a. destruct (dirtyAccount o) as [i|] eqn:Ei.
      * rewrite (inner_written _ _ _ Ho Ei). eauto.
      * rewrite unwritten_inner; [by apply (do_inner _ Hdb)|done|]. intros o' Ho'.
        assert (o' = o) as -> by congruence. unfold changed. rewrite Ei. by apply InnerAccountChanged_spec.
    + rewrite unwritten_inner; [by apply (do_inner _ Hdb)|done|]. intros o' Ho'. congruence.
  - intros a Ha. rewrite (unwritten_code a Ha). intros Hs. destruct (do_code _ Hdb a Ha Hs) as (i & Hi & Hb).
    destruct (accounts l1 !! addr_String a) as [o|] eqn:Ho.
    + pose proof (acc_at _ _ Ho) as Haddr. subst a. pose proof (acc_tracked _ _ Ho) as Ht. destruct (dirtyAccount o) as [d|] eqn:Ed.
      * exists d. rewrite (inner_written _ _ _ Ho Ed). split; [done|]. rewrite (tk_codehash _ _ Ht d Ed).
        pose proof (tk_inner _ _ Ht) as Hin. rewrite <-Hi in Hin. destruct (originAccount o) as [i'|]; simpl in Hin.
        -- by rewrite (marshal_inj _ _ Hin).
        -- destruct (codec_ok i) as (? & Hm & _). congruence.
      * exists i. rewrite unwritten_inner; [done..|]. intros o' Ho'.
        assert (o' = o) as -> by congruence. unfold changed. rewrite Ed. by apply InnerAccountChanged_spec.
    + exists i. rewrite unwritten_inner; [done..|]. intros o' Ho'. congruence.
Qed.

(** The caches agree with the store again. *)
Lemma cache_ok_written (accs : gmap string SimpleAccount) :
  (∀ s o', accs !! s = Some o' ↔ ∃ o, accounts l1 !! s = Some o ∧ modified o ∧ o' = hashed o) →
  cache_ok ldb1 (cache_add (sh_cache (l_shared l1)) accs).
Proof.
  intros Haccs. pose proof (bi_cache _ _ _ Hinv) as [C1 C2 C3]. unfold cache_add. split.
  - intros a k v Ha [(o' & Hin%elem_of_go_range & Hk)|[Hc Hno]]%cache_fold_state.
    + apply Haccs in Hin as (o & Ho & _ & ->). rewrite <-(acc_at _ _ Ho). symmetry. by eapply state_written.
    + rewrite (C1 a k v Ha Hc). symmetry. apply unwritten_state; [done|]. intros o w Ho Hk.
      destruct (bytes_Equal _ w) eqn:Eb; [done|]. exfalso.
      assert (accs !! addr_String a = Some (hashed o)) as Hh.
      { apply Haccs. exists o. split_and!; [done| |done]. eapply writes_modified. by apply (wr_state o k w). }
      apply elem_of_go_range, Hno in Hh. cbn in Hh. congruence.
  - intros a i Ha [(o' & Hin%elem_of_go_range & Hd)|[Hc Hno]]%cache_fold_inner.
    + apply Haccs in Hin as (o & Ho & _ & ->). rewrite <-(acc_at _ _ Ho). symmetry. by eapply inner_written.
    + rewrite (C2 a i Ha Hc). symmetry. apply unwritten_inner; [done|]. intros o Ho.
      destruct (changed o) eqn:Ec; [|done]. exfalso.
      assert (accs !! addr_String a = Some (hashed o)) as Hh.
      { apply Haccs. exists o. split_and!; [done| |done]. apply changed_modified. by rewrite Ec. }
      apply elem_of_go_range, Hno in Hh. cbn in Hh. destruct (changed_dirty o) as [d Hd]; [by rewrite Ec|congruence].
  - intros a c Ha. rewrite cache_fold_code.
    + intros Hc. rewrite (unwritten_code a Ha). by apply C3.
    + intros s o' Hin%elem_of_go_range. apply Haccs in Hin as (o & Ho & _ & ->). apply (tk_dirtyCode _ _ (acc_tracked _ _ Ho)).
Qed.

(** ** What can be read *)

Lemma below_store ldb l a k : cache_ok ldb (sh_cache (l_shared l)) → sh_ldb (l_shared l) = ldb → plain_addr a →
  below l a k = db_state ldb a k.
Proof.
  intros Hc Hl Ha. unfold below. destruct (cached_state _ a k) as [v|] eqn:E; [by apply (co_state _ _ Hc)|].
  by rewrite Hl.
Qed.

Lemma inner_below_store ldb l a : cache_ok ldb (sh_cache (l_shared l)) → sh_ldb (l_shared l) = ldb → plain_addr a →
  inner_below l a = (db_inner ldb a ≫= unmarshal).
Proof.
  intros Hc Hl Ha. unfold inner_below. destruct (lru_Get _ (addr_String a)) as [i|] eqn:E; [|by rewrite Hl].
  rewrite <-(co_inner _ _ Hc a i Ha E). destruct (codec_ok i) as (s & Hs & Hu). rewrite Hs. simpl. by rewrite Hu.
Qed.

Lemma state_view_written a k : plain_addr a → state_view l1 a k = db_state ldb1 a k.
Proof.
  intros Ha. unfold state_view. pose proof (below_store ldb0 l1 a k (bi_cache _ _ _ Hinv) (bi_ldb _ _ _ Hinv) Ha) as Hb.
  destruct (accounts l1 !! addr_String a) as [o|] eqn:Ho.
  - pose proof (acc_at _ _ Ho) as Haddr. unfold acc_state. destruct (dirtyState o !! k) as [v|] eqn:Ek.
    + rewrite <-Haddr. symmetry. by eapply state_written.
    + rewrite unwritten_state; [|done|intros; congruence]. destruct (originState o !! k) as [v|] eqn:Eo; [|done].
      rewrite (tk_origin _ _ (acc_tracked _ _ Ho) k v Eo). by rewrite Haddr.
  - rewrite unwritten_state; [done|done|]. intros; congruence.
Qed.

Lemma inner_of_written a : plain_addr a → inner_of l1 a = default emptyInner (db_inner ldb1 a ≫= unmarshal).
Proof.
  intros Ha. unfold inner_of. destruct (accounts l1 !! addr_String a) as [o|] eqn:Ho.
  - pose proof (acc_tracked _ _ Ho) as Ht. rewrite <-(acc_at _ _ Ho). unfold acc_inner.
    destruct (dirtyAccount o) as [d|] eqn:Ed.
    + rewrite (inner_written _ _ _ Ho Ed). destruct (codec_ok d) as (s & -> & Hu). simpl. by rewrite Hu.
    + rewrite unwritten_inner; [|apply Ht|].
      * rewrite <-(tk_inner _ _ Ht). destruct (originAccount o) as [i|]; [|done]. simpl.
        destruct (codec_ok i) as (s & -> & Hu). simpl. by rewrite Hu.
      * intros o' Ho'. rewrite (acc_at _ _ Ho), Ho in Ho'. injection Ho' as <-. unfold changed. rewrite Ed.
        by apply InnerAccountChanged_spec.
  - rewrite (inner_below_store ldb0 l1 a (bi_cache _ _ _ Hinv) (bi_ldb _ _ _ Hinv) Ha).
    rewrite unwritten_inner; [done|done|]. intros; congruence.
Qed.
End end_of_block.
End commit.
