(* ===== verification/BlockTheorems.v ===== *)
(** * Blocks on the state ledger: commit, rollback and reopening

A block that changes the ledger through the operations of [txop] and through [AddState] for new keys is committed with the contents that its
transactions saw; rolling it back gives the contents from before it; a ledger that is opened on the
store of a committed block has the contents of the ledger that committed it. *)
From Stdlib Require Import Ascii.
From S2P Require Import Prelude Btree Storage Account StateLedger StateLedgerProps LedgerTheorems.
From S2P Require Import BlockProps BlockCommit.

(** The text of a block journal that JSON has to keep: the keys of the states. *)
Definition journal_text (j : BlockJournal) : list string :=
  bj_Journals j ≫= λ e, (map_to_list (je_PrevStates e)).*1.

Section theorems.
Context `{StorageLib, LruLib, AddressLib, HashLib, InnerAccountLib, GoRange, AccessListLib}.
Context `{!JsonCodec BlockJournal journal_text}.
Implicit Types (l : SimpleLedger) (o : SimpleAccount) (a k key : string) (ldb : storage) (b : batch).

(** The entry of an account determines what is undone. *)
Lemma unwrites_entry o o' key v : entry_of o = entry_of o' → unwrites o' key v → unwrites o key v.
Proof.
  unfold entry_of. intros [= Ha Hi Hc Hp] [Hc'|k w Hk].
  - rewrite <-Ha, <-Hc in *. destruct (changed o) eqn:Ec; [|done]. rewrite <-Hi. apply uw_account. by rewrite Ec.
  - rewrite <-Ha. apply uw_state. by rewrite Hp.
Qed.

(** ** Between two blocks *)

Definition stored_journal ldb (i : Z) (j : BlockJournal) : Prop :=
  ∃ data, st_Get ldb (jkey i) = Some data ∧ unmarshal data = Some j.

(** The ledger before a block. *)
Record block_start l : Prop := {
  bs_accounts : accounts l = ∅;
  bs_db : db_ok (sh_ldb (l_shared l));
  bs_cache : cache_ok (sh_ldb (l_shared l)) (sh_cache (l_shared l));
  bs_heights : (maxJnlHeight l = 0 ∧ 0 ≤ minJnlHeight l ≤ 1)%Z ∨ (1 ≤ minJnlHeight l ≤ maxJnlHeight l)%Z;
  (** the heights in the store; after a rollback to the start the lower one is left *)
  bs_maxKey : st_Get (sh_ldb (l_shared l)) maxKey = Some (marshalHeight (maxJnlHeight l)) ∨
    (st_Get (sh_ldb (l_shared l)) maxKey = None ∧ maxJnlHeight l = 0%Z);
  bs_minKey : st_Get (sh_ldb (l_shared l)) minKey = Some (marshalHeight (minJnlHeight l)) ∨
    (minJnlHeight l = 0%Z ∧ st_Get (sh_ldb (l_shared l)) minKey ∈ [None; Some (marshalHeight 1)]);
  bs_prev : if decide (maxJnlHeight l = 0%Z) then prevJnlHash l = zeroHash
            else ∃ j, stored_journal (sh_ldb (l_shared l)) (maxJnlHeight l) j ∧ bj_ChangedHash j = prevJnlHash l;
  bs_revisions : validRevisions l = [];
  bs_heap : is_Some (sh_changers (l_shared l) !! l_changer l) }.

Lemma block_start_running l : block_start l → running l l.
Proof.
  intros Hs. apply (Running _ _ (log_of l) []); [by rewrite app_nil_r| |by rewrite (bs_revisions _ Hs)].
  split; try done; [apply Hs| |constructor|apply Hs]. intros s o. by rewrite (bs_accounts _ Hs).
Qed.

(** What can be read of an account, for the addresses of the program. *)
Definition same_contents l l' : Prop :=
  ∀ a, plain_addr a → inner_of l' a = inner_of l a ∧ ∀ k, state_view l' a k = state_view l a k.

(** Without accounts in memory, what is read is what the store has. *)
Lemma contents_store l ldb :
  accounts l = ∅ → cache_ok ldb (sh_cache (l_shared l)) → sh_ldb (l_shared l) = ldb → ∀ a, plain_addr a →
  inner_of l a = default emptyInner (db_inner ldb a ≫= unmarshal) ∧ ∀ k, state_view l a k = db_state ldb a k.
Proof.
  intros Ha Hc Hl a Hp. unfold inner_of, state_view. rewrite Ha, lookup_empty. split.
  - by rewrite (inner_below_store ldb l a).
  - intros k. by apply below_store.
Qed.

(** ** Batches *)

Definition journal_batch b : Prop := ∀ key v, (key, v) ∈ b → journal_key key.

Lemma journal_batch_get ldb b b' key :
  journal_batch b' → ¬ journal_key key → st_Get (st_Commit ldb (b ++ b')) key = st_Get (st_Commit ldb b) key.
Proof.
  intros Hb Hk. rewrite !st_Get_Commit, batch_lookup_app, (batch_lookup_None b'); [done|].
  intros v Hin. by apply Hk, (Hb _ _ Hin).
Qed.

Lemma journal_batch_only ldb b key :
  journal_batch b → ¬ journal_key key → st_Get (st_Commit ldb b) key = st_Get ldb key.
Proof. intros Hb Hk. pose proof (journal_batch_get ldb [] b key Hb Hk) as Hg. by rewrite st_Get_nil in Hg. Qed.

(** Keys of the journals after a batch that starts with ordinary writes. *)
Lemma journal_get ldb b b' key :
  (∀ key v, (key, v) ∈ b → ¬ journal_key key) → journal_key key →
  st_Get (st_Commit ldb (b ++ b')) key = default (st_Get ldb key) (batch_lookup b' key).
Proof.
  intros Hb Hk. rewrite st_Get_Commit, batch_lookup_app. destruct (batch_lookup b' key); [done|].
  rewrite batch_lookup_None; [done|]. intros v Hin. by apply (Hb _ _ Hin).
Qed.

Lemma jkey_journal i : journal_key (jkey i).
Proof. by eexists. Qed.
Lemma minKey_journal : journal_key minKey.
Proof. by eexists. Qed.
Lemma maxKey_journal : journal_key maxKey.
Proof. by eexists. Qed.

Lemma batch_lookup_one k v key : batch_lookup [(k, v)] key = if decide (key = k) then Some v else None.
Proof. done. Qed.

Lemma batch_lookup_two k v k' v' key :
  batch_lookup [(k, v); (k', v')] key =
  if decide (key = k') then Some v' else if decide (key = k) then Some v else None.
Proof. done. Qed.

(** ** Removing old journals *)

Record pruned (height : Z) l l' : Prop := {
  pr_rest : l' = set_heights (minJnlHeight l') (maxJnlHeight l) (set_shared (l_shared l') l);
  pr_shared : l_shared l' = with_ldb (l_shared l) (sh_ldb (l_shared l'));
  pr_min : minJnlHeight l' = Z.max (minJnlHeight l) height;
  pr_ordinary key : ¬ journal_key key → st_Get (sh_ldb (l_shared l')) key = st_Get (sh_ldb (l_shared l)) key;
  pr_kept i : (height ≤ i)%Z → (0 ≤ i)%Z → st_Get (sh_ldb (l_shared l')) (jkey i) = st_Get (sh_ldb (l_shared l)) (jkey i);
  pr_maxKey : st_Get (sh_ldb (l_shared l')) maxKey = st_Get (sh_ldb (l_shared l)) maxKey;
  pr_minKey : st_Get (sh_ldb (l_shared l)) minKey = Some (marshalHeight (minJnlHeight l)) →
    st_Get (sh_ldb (l_shared l')) minKey = Some (marshalHeight (minJnlHeight l')) }.

Lemma pruned_refl height l : (height ≤ minJnlHeight l)%Z → pruned height l l.
Proof. intros Hh. split; try done; [by destruct l as [[]]|by destruct (l_shared l)|lia]. Qed.

Lemma removeJournalsBeforeBlock_pruned height l :
  (height ≤ maxJnlHeight l)%Z → (0 ≤ minJnlHeight l)%Z →
  ∃ l', removeJournalsBeforeBlock height l = Some (None, l') ∧ pruned height l l'.
Proof.
  intros Hh Hlo. unfold removeJournalsBeforeBlock, mbind, LM_bind, lm_get. rewrite decide_False by lia.
  case_decide as Hle; [eexists; split; [done|]; by apply pruned_refl|].
  set (js := (λ i, (compositeKey journalKey (fmt_d i), None)) <$> seqZ (minJnlHeight l) (height - minJnlHeight l)).
  eexists. split; [done|]. cbn.
  assert (∀ key v, (key, v) ∈ js → ∃ i, (minJnlHeight l ≤ i < height)%Z ∧ key = jkey i) as Hjs.
  { intros key v (i & [= -> ->] & Hi)%list_elem_of_fmap. exists i. split; [|done]. apply elem_of_seqZ in Hi. lia. }
  assert (journal_batch (js ++ [(compositeKey journalKey minHeightStr, Some (marshalHeight height))])) as Hb.
  { intros key v [Hin|[= -> ->]%list_elem_of_singleton]%elem_of_app; [|apply minKey_journal].
    destruct (Hjs _ _ Hin) as (i & _ & ->). apply jkey_journal. }
  split; cbn; try done.
  - lia.
  - intros key Hk. by apply journal_batch_only.
  - intros i Hi Hi0. rewrite st_Get_snoc, decide_False by (by apply jkey_bounds).
    rewrite st_Get_Commit, batch_lookup_None; [done|]. intros v Hin. destruct (Hjs _ _ Hin) as (i' & ? & Heq).
    apply jkey_inj in Heq. lia.
  - rewrite st_Get_snoc, decide_False by (intros Heq; by apply minKey_maxKey).
    rewrite st_Get_Commit, batch_lookup_None; [done|]. intros v Hin. destruct (Hjs _ _ Hin) as (i' & ? & Heq).
    by destruct (jkey_bounds i') as [_ []]; [lia|].
  - intros _. by rewrite st_Get_snoc, decide_True.
Qed.

(** ** Committing a block *)

Section one_block.
Context (l0 l1 : SimpleLedger) (chs : list stateChange) (Hstart : block_start l0) (Hinv : block_inv l0 chs l1).
Local Notation ldb0 := (sh_ldb (l_shared l0)).
Local Notation top := (maxJnlHeight l0).
Local Notation Hdb := (bs_db _ Hstart).

(** The journal of the block is the list of the entries of its modified accounts. *)
Definition journal_accounts (os : list SimpleAccount) : Prop :=
  ∀ o, o ∈ os ↔ ∃ s, accounts l1 !! s = Some o ∧ modified o.

Lemma journal_ascii os root :
  journal_accounts os → Forall is_ascii (journal_text (MkBlockJournal (entry_of <$> os) root)).
Proof.
  intros Hos. apply Forall_forall. intros k (e & Hk & He)%list_elem_of_bind. cbn in He.
  apply list_elem_of_fmap in He as (o & -> & Ho). apply Hos in Ho as (s & Ho & _).
  apply list_elem_of_fmap in Hk as ([k' v] & -> & Hk%elem_of_map_to_list). cbn in Hk.
  apply prevStates_lookup in Hk as (_ & w & Hw & _).
  by destruct (tk_dirty _ _ (acc_tracked l0 l1 chs Hinv _ _ Ho) _ _ Hw) as (_ & _ & ?).
Qed.

Record committed (root : string) l3 : Prop := {
  cm_store : block_store l0 l1 (sh_ldb (l_shared l3));
  cm_journal : ∃ os, journal_accounts os ∧
    stored_journal (sh_ldb (l_shared l3)) (top + 1) (MkBlockJournal (entry_of <$> os) root);
  cm_old : st_Get (sh_ldb (l_shared l3)) (jkey top) = st_Get ldb0 (jkey top);
  cm_max : maxJnlHeight l3 = (top + 1)%Z;
  cm_min : (1 ≤ minJnlHeight l3 ≤ Z.max 1 top)%Z;
  cm_maxKey : st_Get (sh_ldb (l_shared l3)) maxKey = Some (marshalHeight (top + 1));
  cm_minKey : st_Get (sh_ldb (l_shared l3)) minKey = Some (marshalHeight (minJnlHeight l3));
  cm_accounts : accounts l3 = ∅;
  cm_cache : cache_ok (sh_ldb (l_shared l3)) (sh_cache (l_shared l3));
  cm_prev : prevJnlHash l3 = root;
  cm_revisions : validRevisions l3 = validRevisions l1;
  cm_heap : is_Some (sh_changers (l_shared l3) !! l_changer l3) }.

(** The writes of the accounts, collected. *)
Lemma commit_writes accs :
  (∀ s o', accs !! s = Some o' ↔ ∃ o, accounts l1 !! s = Some o ∧ modified o ∧ o' = hashed o) →
  ∃ ws, foldl (λ ws acc, ws ← ws; w ← commitAccount ldb0 acc; Some (ws ++ w)) (Some []) (go_range accs).*2 = Some ws ∧
    ∀ key v, (key, v) ∈ ws ↔ block_writes l1 key v.
Proof.
  intros Haccs. assert (∀ o', o' ∈ (go_range accs).*2 ↔ ∃ s o, accounts l1 !! s = Some o ∧ modified o ∧ o' = hashed o) as Hin.
  { intros o'. rewrite list_elem_of_fmap. split.
    - intros ([s o1] & -> & Hs%elem_of_go_range). apply Haccs in Hs as (o & ?). eauto.
    - intros (s & o & Ho). exists (s, o'). rewrite elem_of_go_range. split; [done|]. apply Haccs. eauto. }
  destruct (fold_writes (commitAccount ldb0) writes (go_range accs).*2) as (ws & Hws & Hel).
  { intros o' (s & o & Ho & _ & ->)%Hin. pose proof (acc_tracked l0 l1 chs Hinv _ _ Ho) as Ht.
    destruct (commitAccount_writes ldb0 o Ht) as (w & Hw & Hwr). exists w. split; [done|].
    intros key v. by rewrite writes_hashed. }
  exists ws. split; [done|]. intros key v. rewrite Hel. split.
  - intros (o' & (s & o & Ho & _ & ->)%Hin & Hw). exists s, o. split; [done|]. by apply writes_hashed.
  - intros (s & o & Ho & Hw). exists (hashed o). rewrite writes_hashed. split; [|done]. apply Hin.
    exists s, o. split_and!; [done|by eapply writes_modified|done].
Qed.

Lemma ordinary_store ws js :
  (∀ key v, (key, v) ∈ ws ↔ block_writes l1 key v) → journal_batch js → block_store l0 l1 (st_Commit ldb0 (ws ++ js)).
Proof.
  intros Hws Hjs key Hk. rewrite journal_batch_get by done. rewrite st_Get_Commit.
  destruct (batch_lookup ws key) as [v|] eqn:E.
  - left. exists v. split; [|done]. by apply Hws, batch_lookup_Some.
  - right. split; [|done]. intros v Hw. pose proof Hw as Hin. apply Hws in Hin.
    rewrite (batch_lookup_fun ws key v Hin) in E; [done|]. intros v' Hin'%Hws.
    by eapply (block_writes_fun l0 l1 chs).
Qed.

Lemma block_store_same ldb ldb' :
  (∀ key, ¬ journal_key key → st_Get ldb' key = st_Get ldb key) → block_store l0 l1 ldb → block_store l0 l1 ldb'.
Proof. intros Hs Hb key Hk. rewrite (Hs key Hk). by apply Hb. Qed.

(** The batch of [Commit], before old journals are removed. *)
Lemma commit_batch ws data (lo : Z) js :
  (∀ key v, (key, v) ∈ ws ↔ block_writes l1 key v) → (0 ≤ top)%Z →
  js = [(jkey (top + 1), Some data); (maxKey, Some (marshalHeight (top + 1)))] ++
       (if decide (lo = 0)%Z then [(minKey, Some (marshalHeight (top + 1)))] else []) →
  let ldb := st_Commit ldb0 (ws ++ js) in
  block_store l0 l1 ldb ∧ st_Get ldb (jkey (top + 1)) = Some data ∧
  st_Get ldb (jkey top) = st_Get ldb0 (jkey top) ∧ st_Get ldb maxKey = Some (marshalHeight (top + 1)) ∧
  st_Get ldb minKey = if decide (lo = 0)%Z then Some (marshalHeight (top + 1)) else st_Get ldb0 minKey.
Proof.
  intros Hws Htop -> ldb.
  assert (∀ key v, (key, v) ∈ ws → ¬ journal_key key) as Hord.
  { intros key v Hin%Hws. by eapply (block_writes_ordinary l0 l1 chs). }
  destruct (jkey_bounds (top + 1)) as [J1 J2]; [lia|]. destruct (jkey_bounds top) as [J3 J4]; [lia|].
  pose proof minKey_maxKey as J5. assert (jkey top ≠ jkey (top + 1)) as J6 by (intros Heq%jkey_inj; lia).
  assert (∀ key v, journal_key key → batch_lookup
    ([(jkey (top + 1), Some data); (maxKey, Some (marshalHeight (top + 1)))] ++
     (if decide (lo = 0)%Z then [(minKey, Some (marshalHeight (top + 1)))] else [])) key = v →
    st_Get ldb key = default (st_Get ldb0 key) v) as Hget.
  { intros key v Hk <-. by apply journal_get. }
  split_and!.
  - apply ordinary_store; [done|]. intros key v Hin.
    case_decide; repeat (apply elem_of_cons in Hin as [[= -> ->]|Hin]; [by eexists|]); by apply elem_of_nil in Hin.
  - erewrite Hget by (apply jkey_journal || done). case_decide; cbn; repeat (rewrite decide_False by done);
      by rewrite decide_True.
  - erewrite Hget by (apply jkey_journal || done). case_decide; cbn; by repeat (rewrite decide_False by done).
  - erewrite Hget by (apply maxKey_journal || done). case_decide; cbn; rewrite ?(decide_False (P := maxKey = minKey)) by done;
      by rewrite decide_True.
  - erewrite Hget by (apply minKey_journal || done). case_decide; cbn; [by rewrite decide_True|].
    by repeat (rewrite decide_False by done).
Qed.

Lemma commit_run b lo hi (m : LM (option ledgerError)) l lp :
  m (set_heights lo hi (set_shared (with_ldb (l_shared l) (st_Commit (sh_ldb (l_shared l)) b)) l)) = Some (None, lp) →
  (_ ← ldb_Commit b; _ ← lm_modify (set_heights lo hi); err ← m;
   match err with
   | Some e => mret (Some e)
   | None => _ ← lm_modify (set_journals ∅); mret None
   end) l = Some (None, set_journals ∅ lp).
Proof. intros Hm. unfold mbind, LM_bind, ldb_Commit, lm_modify. by rewrite Hm. Qed.

Lemma Commit_committed accs root l2 :
  flush_result l0 l1 accs root l2 →
  ∃ l3, Commit (top + 1) accs root l2 = Some (None, l3) ∧ committed root l3.
Proof.
  intros [F1 F2 F3 [F4 F4'] F5 F6 [F7 F7'] F8 (os & Fj & Fos)].
  destruct (commit_writes accs F1) as (ws & Hws & Hel). unfold Commit. rewrite F2, Hws, Fj. cbn [mbind option_bind].
  destruct (json_marshals (MkBlockJournal (entry_of <$> os) root)) as [data Hdata]. rewrite Hdata, F7.
  pose proof (json_ok _ _ (journal_ascii os root Fos) Hdata) as Hun.
  assert (0 ≤ top)%Z as Htop by (destruct (bs_heights _ Hstart); lia).
  destruct (commit_batch ws data (minJnlHeight l0) _ Hel Htop eq_refl) as (S1 & S2 & S3 & S4 & S5).
  set (lo := if decide (minJnlHeight l0 = 0)%Z then (top + 1)%Z else minJnlHeight l0).
  assert (1 ≤ lo ≤ Z.max 1 top)%Z as Hlo1.
  { unfold lo. destruct (decide (minJnlHeight l0 = 0)%Z), (bs_heights _ Hstart); lia. }
  set (js := [_; _] ++ _) in *.
  set (lc := set_heights lo (top + 1) (set_shared (with_ldb (l_shared l2) (st_Commit ldb0 (ws ++ js))) l2)).
  assert (∃ lp, (if decide (10 < top + 1)%Z then removeJournalsBeforeBlock (top + 1 - 10) else mret None) lc =
    Some (None, lp) ∧ pruned (top + 1 - 10) lc lp) as (lp & Hrem & Hpr).
  { destruct (decide (10 < top + 1)%Z); [apply removeJournalsBeforeBlock_pruned; cbn; lia|].
    exists lc. split; [done|]. apply pruned_refl. cbn. lia. }
  exists (set_journals ∅ lp). split.
  - unfold lc, lo, js in Hrem. destruct (decide (minJnlHeight l0 = 0%Z)) as [E|E]; apply commit_run; rewrite F2;
      [rewrite <-(assoc_L (++))|]; exact Hrem.
  - destruct Hpr as [P1 P2 P3 P4 P5 P6 P7].
    assert (minJnlHeight lc = lo ∧ sh_ldb (l_shared lc) = st_Commit ldb0 (ws ++ js)) as [Hlo Hldb] by done.
    split; cbn [set_journals l_shared maxJnlHeight minJnlHeight accounts prevJnlHash validRevisions].
    + eapply block_store_same; [exact P4|done].
    + exists os. split; [done|]. exists data. rewrite P5 by lia. by rewrite Hldb.
    + rewrite P5 by lia. by rewrite Hldb.
    + by rewrite P1.
    + rewrite P3, Hlo. lia.
    + by rewrite P6, Hldb.
    + apply P7. rewrite Hldb, Hlo, S5. unfold lo. destruct (decide (minJnlHeight l0 = 0%Z)) as [E|E]; [done|].
      destruct (bs_minKey _ Hstart) as [?|[? _]]; done.
    + rewrite P1. apply F6.
    + rewrite P2. cbn. rewrite F3. eapply cache_ok_written; [apply Hdb|done| |done].
      eapply block_store_same; [exact P4|done].
    + rewrite P1. apply F8.
    + rewrite P1. apply F5.
    + rewrite P2, P1. cbn. rewrite F4, F4'. apply Hinv.
Qed.

Lemma committed_start root l3 : validRevisions l1 = [] → committed root l3 → block_start l3.
Proof.
  intros Hrev [C1 (os & _ & Hj) C3 C4 C5 C6 C7 C8 C9 C10 C11 C12].
  assert (0 ≤ top)%Z as Htop by (destruct (bs_heights _ Hstart); lia). split; try done.
  - eapply (db_ok_written l0 l1 chs); [apply Hdb|exact Hinv|exact C1].
  - right. lia.
  - left. by rewrite C4.
  - by left.
  - rewrite C4, decide_False by lia. eexists. by split.
  - congruence.
Qed.

Lemma committed_contents root l3 : committed root l3 → same_contents l1 l3.
Proof.
  intros Hc a Ha. destruct (contents_store l3 _ (cm_accounts _ _ Hc) (cm_cache _ _ Hc) eq_refl a Ha) as [Hi Hs]. split.
  - rewrite Hi. symmetry. eapply (inner_of_written l0 l1 chs); [exact Hinv|apply Hc|done].
  - intros k. rewrite Hs. symmetry. eapply (state_view_written l0 l1 chs); [apply Hdb|exact Hinv|apply Hc|done].
Qed.

(** ** Rolling a block back *)

(** The store after the rollback. *)
Record restored ldb : Prop := {
  rs_ordinary key : ¬ journal_key key → st_Get ldb key = st_Get ldb0 key;
  rs_journal : st_Get ldb (jkey top) = st_Get ldb0 (jkey top);
  rs_maxKey : st_Get ldb maxKey = Some (marshalHeight top) }.

Lemma rollback_restored root l3 :
  committed root l3 →
  ∃ ldb, rollbackBlock (top + 1) (sh_ldb (l_shared l3)) = Some (Some ldb) ∧ restored ldb ∧
    st_Get ldb minKey = st_Get (sh_ldb (l_shared l3)) minKey.
Proof.
  intros Hc. destruct (cm_journal _ _ Hc) as (os & Hos & data & Hdata & Hun).
  assert (0 ≤ top)%Z as Htop by (destruct (bs_heights _ Hstart); lia).
  unfold rollbackBlock, getBlockJournal. fold (jkey (top + 1)). rewrite Hdata. cbn [mbind option_bind]. rewrite Hun.
  cbn [mbind option_bind bj_Journals].
  destruct (fold_writes revertJournal (λ e key v, ∃ o, e = entry_of o ∧ unwrites o key v) (entry_of <$> os))
    as (ws & -> & Hws).
  { intros e (o & -> & Ho)%list_elem_of_fmap. destruct (revertJournal_unwrites o) as (w & Hw & Hel).
    exists w. split; [done|]. intros key v. rewrite Hel. split; [eauto|]. intros (o' & Heq & Hu).
    by apply (unwrites_entry o o'). }
  cbn [mbind option_bind]. eexists. split; [done|].
  assert (∀ key v, (key, v) ∈ ws ↔ ∃ o, o ∈ os ∧ unwrites o key v) as Hel.
  { intros key v. rewrite Hws. split.
    - intros (e & (o & -> & Ho)%list_elem_of_fmap & o' & Heq & Hu). exists o. split; [done|]. by apply (unwrites_entry o o').
    - intros (o & Ho & Hu). exists (entry_of o). split; [by apply list_elem_of_fmap; exists o|eauto]. }
  assert (∀ o, o ∈ os → tracked ldb0 o) as Htr.
  { intros o (s & Ho & _)%Hos. by apply (acc_tracked l0 l1 chs Hinv s). }
  assert (∀ key v, (key, v) ∈ ws → ¬ journal_key key) as Hord.
  { intros key v (o & Ho & Hu)%Hel. pose proof (tk_addr _ _ (Htr o Ho)) as Ha.
    destruct Hu; [apply account_not_journal|by apply state_not_journal]. }
  destruct (jkey_bounds (top + 1)) as [J1 J2]; [lia|]. destruct (jkey_bounds top) as [J3 J4]; [lia|].
  pose proof minKey_maxKey as J5. assert (jkey top ≠ jkey (top + 1)) as J6 by (intros Heq%jkey_inj; lia).
  split; [split|].
  - intros key Hk. rewrite journal_batch_get by
      (done || (intros k' v' Hin; repeat (apply elem_of_cons in Hin as [[= -> ->]|Hin]; [by eexists|]); by apply elem_of_nil in Hin)).
    rewrite st_Get_Commit. destruct (batch_lookup ws key) as [v|] eqn:E; cbn.
    + apply batch_lookup_Some, Hel in E as (o & Ho & Hu). by apply (unwrites_old ldb0 o); [apply Htr|].
    + destruct (cm_store _ _ Hc key Hk) as [(v & (s & o & Ho & Hw) & _)|[_ ->]]; [|done]. exfalso.
      pose proof (acc_tracked l0 l1 chs Hinv _ _ Ho) as Ht. destruct (writes_unwrites ldb0 o key v Ht Hw) as [v' Hu].
      rewrite (batch_lookup_fun ws key v') in E; [done| |].
      * apply Hel. exists o. split; [|done]. apply Hos. exists s. split; [done|]. by eapply writes_modified.
      * intros w (o' & Ho' & Hu')%Hel. rewrite (unwrites_old ldb0 o key v' Ht Hu).
        by apply (unwrites_old ldb0 o'); [apply Htr|].
  - rewrite journal_get, batch_lookup_two by (done || apply jkey_journal).
    rewrite !decide_False by done. apply Hc.
  - rewrite journal_get, batch_lookup_two by (done || apply maxKey_journal). rewrite decide_True by done. cbn.
    do 2 f_equal. lia.
  - rewrite journal_get, batch_lookup_two by (done || apply minKey_journal). by rewrite !decide_False by done.
Qed.

Lemma restored_db ldb : restored ldb → db_ok ldb.
Proof.
  intros [R _ _]. destruct Hdb as [D1 D2 D3]. split.
  - intros a k Ha. unfold db_state. rewrite R by (by apply state_not_journal). by apply D1.
  - intros a d Ha. unfold db_inner. rewrite R by apply account_not_journal. by apply D2.
  - intros a Ha. unfold db_code, db_inner. rewrite !R by (apply account_not_journal || apply code_not_journal). by apply D3.
Qed.

Lemma restored_contents l ldb :
  restored ldb → accounts l = ∅ → cache_ok ldb (sh_cache (l_shared l)) → sh_ldb (l_shared l) = ldb → same_contents l0 l.
Proof.
  intros [R _ _] Ha Hc Hl a Hp. destruct (contents_store l _ Ha Hc Hl a Hp) as [-> Hs].
  destruct (contents_store l0 _ (bs_accounts _ Hstart) (bs_cache _ Hstart) eq_refl a Hp) as [-> Hs0]. split.
  - unfold db_inner. by rewrite R by apply account_not_journal.
  - intros k. rewrite Hs, Hs0. unfold db_state. by rewrite R by (by apply state_not_journal).
Qed.

Lemma cache_clear_ok ldb (ac : AccountCache) : cache_ok ldb (cache_clear ac).
Proof.
  split; intros; unfold cached_state, cache_clear, lru_Purge in *; cbn in *; by rewrite lru_Get_New in *.
Qed.

Lemma RollbackState_restored root l3 :
  committed root l3 → validRevisions l1 = [] →
  ∃ l4, RollbackState top l3 = Some (None, l4) ∧ block_start l4 ∧ restored (sh_ldb (l_shared l4)) ∧
    maxJnlHeight l4 = top ∧ prevJnlHash l4 = prevJnlHash l0.
Proof.
  intros Hc Hrev. destruct (rollback_restored root l3 Hc) as (ldb & Hrb & Hrs & Hmin).
  destruct Hc as [_ _ _ C4 C5 _ C7 _ _ _ C11 C12]. rewrite C7 in Hmin.
  assert (0 ≤ top)%Z as Htop by (destruct (bs_heights _ Hstart); lia).
  unfold RollbackState, mbind, LM_bind, lm_get, Clear, cached, lm_modify, lm_state. rewrite C4, decide_False by lia.
  assert (bool_decide (top < minJnlHeight l3)%Z && negb (bool_decide (minJnlHeight l3 = 1)%Z && bool_decide (top = 0)%Z) = false)
    as ->.
  { repeat case_bool_decide; simpl; lia. }
  rewrite decide_False by lia. unfold rollbackStore. replace (Z.to_nat (top + 1 - top)) with 1 by lia. cbn.
  rewrite Hrb. cbn. pose proof (bs_prev _ Hstart) as Hprev. pose proof (rs_maxKey _ Hrs) as Hmax.
  destruct (decide (top ≠ 0)%Z) as [Hne|Heq%dec_stable].
  - rewrite decide_False in Hprev by done. destruct Hprev as (j & (data & Hd & Hu) & Hj).
    unfold getBlockJournal. fold (jkey top). rewrite (rs_journal _ Hrs), Hd. cbn. rewrite Hu. cbn.
    eexists. split; [done|]. split_and!; [split|..]; try done; cbn.
    + by apply restored_db.
    + apply cache_clear_ok.
    + right. lia.
    + by left.
    + by left.
    + rewrite decide_False by done. exists j. split; [|done]. exists data. by rewrite (rs_journal _ Hrs).
    + congruence.
  - rewrite decide_True in Hprev by done. eexists. split; [done|]. split_and!; [split|..]; try done; cbn.
    + by apply restored_db.
    + apply cache_clear_ok.
    + left. lia.
    + by left.
    + right. split; [done|]. rewrite Hmin. replace (minJnlHeight l3) with 1%Z by lia. set_solver.
    + by rewrite Heq.
    + congruence.
Qed.
End one_block.

(** ** Opening a ledger *)

(** The heights that are read back; the lower one may be 1 when there is no block. *)
Lemma getJournalRange_start l :
  block_start l → (maxJnlHeight l < 2 ^ 64)%Z →
  ∃ lo, getJournalRange (sh_ldb (l_shared l)) = Some (lo, maxJnlHeight l) ∧
    (lo = minJnlHeight l ∨ (maxJnlHeight l = 0 ∧ 0 ≤ lo ≤ 1))%Z ∧
    (st_Get (sh_ldb (l_shared l)) minKey = Some (marshalHeight lo) ∨
     (lo = 0%Z ∧ st_Get (sh_ldb (l_shared l)) minKey ∈ [None; Some (marshalHeight 1)])).
Proof.
  intros Hs Hlt. unfold getJournalRange. fold minKey maxKey. unfold unmarshalHeight.
  assert (match st_Get (sh_ldb (l_shared l)) maxKey with Some data => ParseUint data | None => Some 0%Z end =
    Some (maxJnlHeight l)) as ->.
  { destruct (bs_maxKey _ Hs) as [->|[-> ->]]; [|done]. apply ParseUint_fmt_d. destruct (bs_heights _ Hs); lia. }
  destruct (bs_heights _ Hs) as [?|?], (bs_minKey _ Hs) as [Hm|[E Hin]]; try lia.
  - exists (minJnlHeight l). rewrite Hm. unfold marshalHeight. rewrite ParseUint_fmt_d by lia. auto.
  - apply elem_of_cons in Hin as [Hin|Hin%list_elem_of_singleton]; rewrite Hin; [exists 0%Z|exists 1%Z].
    + split_and!; [done|lia|right]. split; [done|set_solver].
    + unfold marshalHeight. rewrite ParseUint_fmt_d by lia. split_and!; [done|lia|by left].
  - exists (minJnlHeight l). rewrite Hm. unfold marshalHeight. rewrite ParseUint_fmt_d by lia. auto.
Qed.

Lemma top_journal_read l :
  block_start l →
  ∃ j, (if decide (maxJnlHeight l ≠ 0)%Z then getBlockJournal (sh_ldb (l_shared l)) (maxJnlHeight l)
        else Some (Some (MkBlockJournal [] zeroHash))) = Some (Some j) ∧ bj_ChangedHash j = prevJnlHash l.
Proof.
  intros Hs. pose proof (bs_prev _ Hs) as Hprev. destruct (decide (maxJnlHeight l = 0%Z)) as [E|E].
  - rewrite decide_False by lia. eexists. by split.
  - rewrite decide_True by lia. destruct Hprev as (j & (data & Hd & Hu) & Hj). exists j. split; [|done].
    unfold getBlockJournal. fold (jkey (maxJnlHeight l)). rewrite Hd. cbn. by rewrite Hu.
Qed.
(** ** The theorems *)

(** The end of a block: what the executor does with the result of [FlushDirtyData]. *)
Definition flush_and_commit (height : Z) : LM (option ledgerError) :=
  '(accs, root) ← FlushDirtyData; Commit height accs root.

(** A block that is executed on [l0]; its last transaction has been finalised. *)
Record executed l0 (ops : list blockop) l1 : Prop := {
  ex_ops : Forall (blockop_ok (sh_ldb (l_shared l0))) ops;
  ex_run : run_block ops l0 = Some (tt, l1);
  ex_final : validRevisions l1 = [] }.

(** The ledgers of a node, from an empty store on: blocks are committed, the last block is rolled back, and the ledger is
opened again on its store. *)
Inductive built : SimpleLedger → Prop :=
| built_new ldb l : (∀ key, st_Get ldb key = None) → NewSimpleLedger ldb None = Some (Some l) → built l
| built_block l0 ops l1 l3 :
    built l0 → executed l0 ops l1 → flush_and_commit (maxJnlHeight l0 + 1) l1 = Some (None, l3) → built l3
| built_rollback l0 ops l1 l3 l4 :
    built l0 → executed l0 ops l1 → flush_and_commit (maxJnlHeight l0 + 1) l1 = Some (None, l3) →
    RollbackState (maxJnlHeight l0) l3 = Some (None, l4) → built l4
| built_reopen l l' :
    built l → (maxJnlHeight l < 2 ^ 64)%Z → NewSimpleLedger (sh_ldb (l_shared l)) None = Some (Some l') → built l'.

Lemma executed_committed l0 ops l1 :
  block_start l0 → executed l0 ops l1 →
  ∃ chs root l3, block_inv l0 chs l1 ∧ flush_and_commit (maxJnlHeight l0 + 1) l1 = Some (None, l3) ∧
    committed l0 l1 root l3.
Proof.
  intros Hs [Hok Hrun _].
  destruct (run_block_running l0 ops l0 l1 (bs_db _ Hs) Hok (block_start_running _ Hs) Hrun) as [base chs _ Hinv _].
  destruct (FlushDirtyData_result l0 l1 chs Hinv) as (accs & root & l2 & Hf & Hfr).
  destruct (Commit_committed l0 l1 chs Hs Hinv accs root l2 Hfr) as (l3 & Hcm & Hc).
  exists chs, root, l3. split_and!; [done| |done]. unfold flush_and_commit, mbind, LM_bind. by rewrite Hf.
Qed.

Lemma new_start ldb l : (∀ key, st_Get ldb key = None) → NewSimpleLedger ldb None = Some (Some l) → block_start l.
Proof.
  intros He. unfold NewSimpleLedger, getJournalRange. fold minKey maxKey. rewrite !He. cbn. intros [= <-].
  split; cbn; rewrite ?He; try done.
  - split; [intros a k _|intros a d _|intros a _]; unfold db_state, db_inner, db_code; rewrite He; [done|done|by intros []].
  - apply (cache_clear_ok ldb NewAccountCache).
  - left. by split.
  - by right.
  - right. split; [done|]. by left.
Qed.

Lemma commit_start l0 ops l1 l3 :
  block_start l0 → executed l0 ops l1 → flush_and_commit (maxJnlHeight l0 + 1) l1 = Some (None, l3) →
  block_start l3 ∧ maxJnlHeight l3 = (maxJnlHeight l0 + 1)%Z ∧ same_contents l1 l3.
Proof.
  intros Hs He Hrun. destruct (executed_committed _ _ _ Hs He) as (chs & root & l3' & Hinv & Hrun' & Hc).
  assert (l3' = l3) as -> by congruence. destruct He as [_ _ Hf].
  split_and!; [by eapply (committed_start l0 l1 chs)|apply Hc|by eapply (committed_contents l0 l1 chs)].
Qed.

Lemma rollback_start l0 ops l1 l3 :
  block_start l0 → executed l0 ops l1 → flush_and_commit (maxJnlHeight l0 + 1) l1 = Some (None, l3) →
  ∃ l4, RollbackState (maxJnlHeight l0) l3 = Some (None, l4) ∧ block_start l4 ∧
    maxJnlHeight l4 = maxJnlHeight l0 ∧ prevJnlHash l4 = prevJnlHash l0 ∧ same_contents l0 l4 ∧
    ∀ key, ¬ journal_key key → st_Get (sh_ldb (l_shared l4)) key = st_Get (sh_ldb (l_shared l0)) key.
Proof.
  intros Hs He Hrun. destruct (executed_committed _ _ _ Hs He) as (chs & root & l3' & Hinv & Hrun' & Hc).
  destruct He as [_ _ Hf]. assert (l3' = l3) as -> by congruence.
  destruct (RollbackState_restored l0 l1 chs Hs Hinv root l3 Hc Hf) as (l4 & Hrb & Hs4 & Hr & Hmax & Hprev).
  exists l4. split_and!; try done; [|apply Hr].
  eapply (restored_contents l0); [done|exact Hr|apply Hs4|apply Hs4|done].
Qed.

Lemma reopen_start l :
  block_start l → (maxJnlHeight l < 2 ^ 64)%Z →
  ∃ l', NewSimpleLedger (sh_ldb (l_shared l)) None = Some (Some l') ∧ block_start l' ∧
    maxJnlHeight l' = maxJnlHeight l ∧ prevJnlHash l' = prevJnlHash l ∧ same_contents l l'.
Proof.
  intros Hs Hlt. unfold NewSimpleLedger.
  destruct (getJournalRange_start l Hs Hlt) as (lo & -> & Hlo & Hk). cbn [mbind option_bind].
  destruct (top_journal_read l Hs) as (j & -> & Hj). cbn [mbind option_bind]. eexists. split; [done|]. rewrite Hj.
  assert (∀ ldb, cache_ok ldb NewAccountCache) as Hnew.
  { intros ldb. apply (cache_clear_ok ldb NewAccountCache). }
  split_and!; [split|..]; try done; cbn; try apply Hs.
  - destruct Hlo as [-> |?]; [apply Hs|left; lia].
  - intros a Ha. destruct (contents_store l _ (bs_accounts _ Hs) (bs_cache _ Hs) eq_refl a Ha) as [-> Hv].
    edestruct (contents_store (MkSimpleLedger _ _ _ (MkShared _ _ (sh_ldb (l_shared l)) NewAccountCache {[0 := newChanger]})
        lo (maxJnlHeight l) ∅ ∅ ∅ (prevJnlHash l) 0 [] 0 0 1 NewAccessList ∅ 0 NewEvmLogs)) as [-> Hv'];
      [done|apply Hnew|done|exact Ha|]. split; [done|]. intros k. by rewrite Hv, Hv'.
Qed.

(** The caches of a node agree with its store, and its store with the heights. *)
Lemma built_start l : built l → block_start l.
Proof.
  induction 1 as [ldb l He Hn|l0 ops l1 l3 _ IH He Hf|l0 ops l1 l3 l4 _ IH He Hf Hr|l l' _ IH Hlt Hn].
  - by eapply new_start.
  - by eapply commit_start.
  - destruct (rollback_start _ _ _ _ IH He Hf) as (l4' & Hr' & ? & _). congruence.
  - destruct (reopen_start _ IH Hlt) as (l'' & Hn' & ? & _). congruence.
Qed.

(** C34: On every ledger that was built from an empty store by blocks, rollbacks of the last block and reopening
([built]), flushing and committing a block of the operations of [txop], ends of transactions and AddState succeeds;
what could be read before the flush of the account data and the states of every plain address (twenty bytes that do
not begin like another kind of key) is read afterwards through caches and database, the height is the next one, and
caches and database agree. The block ([blockop_ok]) uses plain addresses, ASCII keys and non-empty values, AddState
only for keys that the database does not have, and neither SetCode nor Suiside. *)
Theorem commit_block l0 ops l1 :
  built l0 → executed l0 ops l1 →
  ∃ l3, flush_and_commit (maxJnlHeight l0 + 1) l1 = Some (None, l3) ∧ block_start l3 ∧
    maxJnlHeight l3 = (maxJnlHeight l0 + 1)%Z ∧ same_contents l1 l3.
Proof.
  intros Hb He. pose proof (built_start _ Hb) as Hs.
  destruct (executed_committed _ _ _ Hs He) as (chs & root & l3 & Hinv & Hrun & Hc).
  exists l3. split; [done|]. by eapply commit_start.
Qed.

(** C6: On every ledger that was built from an empty store by blocks, rollbacks of the last block and reopening
([built]), committing a block and rolling it back succeeds and gives every key of the database that is not one of the
journal, the account data and states of every plain address, the height and the journal hash from before the block.
The block ([blockop_ok]) has the operations of [txop], ends of transactions and AddState for keys that the database
does not have (otherwise [AddState_rollback_loses]), on plain addresses with ASCII keys and non-empty values; SetCode
and Suiside are not covered. *)
Theorem rollback_block l0 ops l1 l3 :
  built l0 → executed l0 ops l1 → flush_and_commit (maxJnlHeight l0 + 1) l1 = Some (None, l3) →
  ∃ l4, RollbackState (maxJnlHeight l0) l3 = Some (None, l4) ∧ block_start l4 ∧
    maxJnlHeight l4 = maxJnlHeight l0 ∧ prevJnlHash l4 = prevJnlHash l0 ∧ same_contents l0 l4 ∧
    ∀ key, ¬ journal_key key → st_Get (sh_ldb (l_shared l4)) key = st_Get (sh_ldb (l_shared l0)) key.
Proof. intros Hb. by apply rollback_start, built_start. Qed.

(** C35: Opening the database of a ledger again gives a ledger with the same height, journal hash and contents
(account data and states of all plain addresses), for every ledger that was built from an empty store by blocks,
rollbacks of the last block and reopening ([built]), with a height below 2^64. The blocks are those of [blockop_ok]:
operations of [txop] and AddState for new keys, on plain addresses with ASCII keys and non-empty values, without
SetCode and Suiside; with an empty value the caches and a reopened database would differ. *)
Theorem reopen_ledger l :
  built l → (maxJnlHeight l < 2 ^ 64)%Z →
  ∃ l', NewSimpleLedger (sh_ldb (l_shared l)) None = Some (Some l') ∧ block_start l' ∧
    maxJnlHeight l' = maxJnlHeight l ∧ prevJnlHash l' = prevJnlHash l ∧ same_contents l l'.
Proof. intros Hb. by apply reopen_start, built_start. Qed.
End theorems.

(** ** A concrete block *)

Global Instance blockJournalEntry_eq_dec : EqDecision blockJournalEntry.
Proof. solve_decision. Defined.

Global Program Instance blockJournalEntry_countable : Countable blockJournalEntry :=
  inj_countable' (λ e, (je_Address e, je_PrevAccount e, je_AccountChanged e, je_PrevStates e, je_PrevCode e, je_CodeChanged e))
    (λ '(a, p, c, s, pc, cc), MkJournalEntry a p c s pc cc) _.
Next Obligation. by intros []. Qed.

Global Instance BlockJournal_eq_dec : EqDecision BlockJournal.
Proof. solve_decision. Defined.

Global Program Instance BlockJournal_countable : Countable BlockJournal :=
  inj_countable' (λ j, (bj_Journals j, bj_ChangedHash j)) (λ '(js, h), MkBlockJournal js h) _.
Next Obligation. by intros []. Qed.

Module BlockSample.
Local Existing Instance storage_by_map.
Local Existing Instance lru_by_list.
Local Existing Instance address_plain.
Local Existing Instance hash_plain.
Local Existing Instance inner_by_encode.
Local Existing Instance range_by_encoding.
Local Existing Instance access_by_sets.
Local Instance journals : JsonCodec BlockJournal journal_text := json_by_encode BlockJournal journal_text.

Definition Alice : string := "Alice---------------".
Definition Bob : string := "Bob-----------------".

Lemma Alice_plain : plain_addr Alice.
Proof. split; [done|..]; intros s; unfold Alice, accountKey, codeKey, journalKey; rewrite !string_app_cons; congruence. Qed.

Lemma Bob_plain : plain_addr Bob.
Proof. split; [done|..]; intros s; unfold Bob, accountKey, codeKey, journalKey; rewrite !string_app_cons; congruence. Qed.

(** Alice has a balance of 100 and one state. *)
Definition db : gmap string string :=
  {[ compositeKey accountKey Alice := pos_to_string (encode (MkInner 3 100 None));
     composeStateKey Alice "k" := "old" ]}.

Definition genesis : SimpleLedger :=
  MkSimpleLedger _ _ _ (MkShared _ _ (db : storage) NewAccountCache {[0 := newChanger]})
    0 0 ∅ ∅ ∅ zeroHash 0 [] 0 0 1 NewAccessList ∅ 0 NewEvmLogs.

Local Notation after := LedgerSample.after.

(** A node starts on an empty store; its first block gives Alice a balance and a state. *)
Definition empty_db : storage := (∅ : gmap string string).
Definition first_ledger : SimpleLedger :=
  match NewSimpleLedger empty_db None with Some (Some l) => l | _ => genesis end.
Definition first_ops : list blockop :=
  [BOp (OSetBalance Alice 100); BOp (OSetNonce Alice 3); BOp (OSetState Alice "k" (Some "old")); BFinalise].
Definition first_run : SimpleLedger := after (run_block first_ops first_ledger).
Definition first_block : SimpleLedger := after (flush_and_commit 1 first_run).

Lemma first_ops_ok : Forall (blockop_ok (sh_ldb (l_shared first_ledger))) first_ops.
Proof. pose proof Alice_plain. unfold first_ops. repeat (apply Forall_cons; split; [by split_and?|]). by apply Forall_nil. Qed.

Lemma first_block_built : built first_block.
Proof.
  apply (built_block first_ledger first_ops first_run).
  - apply (built_new empty_db); [intros key; apply lookup_empty|reflexivity].
  - split; [apply first_ops_ok| |vm_compute; reflexivity].
    unfold first_run. apply LedgerSample.after_run. vm_compute. reflexivity.
  - unfold first_block. apply LedgerSample.after_run. vm_compute. reflexivity.
Qed.

(** Two transactions: Alice pays Bob and writes a state, then a failed transaction is reverted. *)
Definition block_ops : list blockop :=
  [BOp (OSubBalance Alice 30); BOp (OAddBalance Bob 30); BOp (OSetState Alice "k" (Some "new")); BFinalise;
   BOp OSnapshot; BOp (OSetState Bob "m" (Some "lost")); BOp (ORevert 0); BAddState Bob "n" "added"; BFinalise].

Lemma block_ops_ok : Forall (blockop_ok (sh_ldb (l_shared first_block))) block_ops.
Proof.
  pose proof Alice_plain. pose proof Bob_plain.
  assert (db_state (sh_ldb (l_shared first_block)) Bob "n" = None) as Hn by (vm_compute; reflexivity).
  revert Hn. generalize (sh_ldb (l_shared first_block)). intros ldb Hn. unfold block_ops. repeat (apply Forall_cons; split; [by split_and?|]). by apply Forall_nil.
Qed.

Definition executed2 : SimpleLedger := after (run_block block_ops first_block).
Definition second_block : SimpleLedger := after (flush_and_commit 2 executed2).

Lemma executed2_ok : executed first_block block_ops executed2.
Proof.
  split; [apply block_ops_ok| |vm_compute; reflexivity].
  unfold executed2. apply LedgerSample.after_run. vm_compute. reflexivity.
Qed.

Lemma second_committed : flush_and_commit (maxJnlHeight first_block + 1) executed2 = Some (None, second_block).
Proof. unfold second_block. apply LedgerSample.after_run. vm_compute. reflexivity. Qed.

Lemma commit_block_witness :
  ia_Balance (inner_of executed2 Bob) = 30%Z ∧ state_view executed2 Bob "n" = Some "added" ∧
  ∃ l3, flush_and_commit (maxJnlHeight first_block + 1) executed2 = Some (None, l3) ∧ same_contents executed2 l3.
Proof.
  split; [vm_compute; reflexivity|]. split; [vm_compute; reflexivity|].
  destruct (commit_block first_block block_ops executed2 first_block_built executed2_ok) as (l3 & Hrun & _ & _ & Hs).
  exists l3. split; [exact Hrun|exact Hs].
Defined.

Lemma rollback_block_witness :
  state_view second_block Alice "k" = Some "new" ∧
  ∃ l4, RollbackState (maxJnlHeight first_block) second_block = Some (None, l4) ∧ same_contents first_block l4.
Proof.
  split; [vm_compute; reflexivity|].
  destruct (rollback_block first_block block_ops executed2 second_block first_block_built executed2_ok second_committed)
    as (l4 & Hrb & _ & _ & _ & Hs & _).
  exists l4. split; [exact Hrb|exact Hs].
Defined.

(** The ledger after the block is opened again from its store. *)
Lemma reopen_ledger_witness :
  ∃ l', NewSimpleLedger (sh_ldb (l_shared second_block)) None = Some (Some l') ∧ maxJnlHeight l' = 2%Z ∧ same_contents second_block l'.
Proof.
  assert (maxJnlHeight second_block = 2%Z) as Hm by (vm_compute; reflexivity).
  destruct (reopen_ledger second_block (built_block _ _ _ _ first_block_built executed2_ok second_committed))
    as (l' & Hopen & _ & Hm' & _ & Hsame); [rewrite Hm; reflexivity|].
  exists l'. split; [exact Hopen|]. split; [rewrite Hm', Hm; reflexivity|exact Hsame].
Defined.

(** A rollback loses a state that a block wrote with [AddState] without having read it before: the
journal takes the old value from [originState], which only a read fills, so the rollback deletes the key
instead of restoring it. *)
Theorem AddState_rollback_loses :
  let l1 := after (run_block [BAddState Alice "k" "new"; BFinalise] genesis) in
  let l3 := after (flush_and_commit 1 l1) in
  let l4 := after (RollbackState 0 l3) in
  fst <$> RollbackState 0 l3 = Some None ∧ state_view genesis Alice "k" = Some "old" ∧
  state_view l1 Alice "k" = Some "new" ∧ state_view l3 Alice "k" = Some "new" ∧ state_view l4 Alice "k" = None.
Proof. intros l1 l3 l4. split_and!; vm_compute; reflexivity. Qed.
End BlockSample.
