(* ===== verification/Contract.v ===== *)
(** * Programs over the ledger, and the stub of the built-in contracts

The built-in contracts ([src/internal/executor/contracts]) and the block executor
reach the ledger through a few operations. [prog] is the syntax of such programs;
[run_ledger] runs them on [SimpleLedger], [run_world] on the abstract state that the
ledger promises: a value per address and key, a balance and a nonce per address, and
the events of each transaction. [LedgerRefinement.v] shows that the two agree, so that
the theorems about contracts are proved on the abstract state.

[BoltStubImpl] is [src/pkg/vm/boltvm/bolt_stub.go]. *)
From Stdlib Require Import Ascii.
From S2P Require Import Prelude Storage Account StateLedger.

(** ** Programs *)

Inductive prog (A : Type) :=
| Ret (a : A)
| Panic
| OpGetState (addr key : string) (k : option string → prog A)
| OpSetState (addr key : string) (v : option string) (changer : option changer_ptr) (k : prog A)
| OpAddState (addr key : string) (v : option string) (k : prog A)
| OpGetBalance (addr : string) (k : Z → prog A)
| OpSetBalance (addr : string) (v : Z) (k : prog A)
| OpGetNonce (addr : string) (k : Z → prog A)
| OpSetNonce (addr : string) (v : Z) (k : prog A)
| OpGetCodeHash (addr : string) (k : option string → prog A)
| OpAddEvent (txHash : string) (type : Z) (data : string) (k : prog A).
Arguments Ret {A}.
Arguments Panic {A}.
Arguments OpGetState {A}.
Arguments OpSetState {A}.
Arguments OpAddState {A}.
Arguments OpGetBalance {A}.
Arguments OpSetBalance {A}.
Arguments OpGetNonce {A}.
Arguments OpSetNonce {A}.
Arguments OpGetCodeHash {A}.
Arguments OpAddEvent {A}.

Fixpoint prog_bind {A B} (f : A → prog B) (p : prog A) : prog B :=
  match p with
  | Ret a => f a
  | Panic => Panic
  | OpGetState a key k => OpGetState a key (λ v, prog_bind f (k v))
  | OpSetState a key v c k => OpSetState a key v c (prog_bind f k)
  | OpAddState a key v k => OpAddState a key v (prog_bind f k)
  | OpGetBalance a k => OpGetBalance a (λ v, prog_bind f (k v))
  | OpSetBalance a v k => OpSetBalance a v (prog_bind f k)
  | OpGetNonce a k => OpGetNonce a (λ v, prog_bind f (k v))
  | OpSetNonce a v k => OpSetNonce a v (prog_bind f k)
  | OpGetCodeHash a k => OpGetCodeHash a (λ v, prog_bind f (k v))
  | OpAddEvent h t d k => OpAddEvent h t d (prog_bind f k)
  end.

Global Instance prog_mret : MRet prog := @Ret.
Global Instance prog_mbind : MBind prog := @prog_bind.

(** [defer] with [recover]: a panic becomes [None]; what was done before it stays. *)
Fixpoint recover {A} (p : prog A) : prog (option A) :=
  match p with
  | Ret a => Ret (Some a)
  | Panic => Ret None
  | OpGetState a key k => OpGetState a key (λ v, recover (k v))
  | OpSetState a key v c k => OpSetState a key v c (recover k)
  | OpAddState a key v k => OpAddState a key v (recover k)
  | OpGetBalance a k => OpGetBalance a (λ v, recover (k v))
  | OpSetBalance a v k => OpSetBalance a v (recover k)
  | OpGetNonce a k => OpGetNonce a (λ v, recover (k v))
  | OpSetNonce a v k => OpSetNonce a v (recover k)
  | OpGetCodeHash a k => OpGetCodeHash a (λ v, recover (k v))
  | OpAddEvent h t d k => OpAddEvent h t d (recover k)
  end.

Fixpoint prog_iter {A} (f : A → prog ()) (l : list A) : prog () :=
  match l with
  | [] => mret tt
  | x :: l => _ ← f x; prog_iter f l
  end.

(** ** Running programs *)

Section run_ledger.
Context `{StorageLib, LruLib, AddressLib, HashLib, InnerAccountLib, GoRange, AccessListLib}.

Fixpoint run_ledger {A} (p : prog A) : LM A :=
  match p with
  | Ret a => mret a
  | Panic => lm_panic
  | OpGetState a key k => v ← GetState a key; run_ledger (k v)
  | OpSetState a key v c k => _ ← SetState a key v c; run_ledger k
  | OpAddState a key v k => _ ← AddState a key v; run_ledger k
  | OpGetBalance a k => v ← GetBalance a; run_ledger (k v)
  | OpSetBalance a v k => _ ← SetBalance a v; run_ledger k
  | OpGetNonce a k => v ← GetNonce a; run_ledger (k v)
  | OpSetNonce a v k => _ ← SetNonce a v; run_ledger k
  | OpGetCodeHash a k => v ← account_CodeHash a; run_ledger (k v)
  | OpAddEvent h t d k => _ ← AddEvent (MkEvent t d (Some h)); run_ledger k
  end.
End run_ledger.

(** What the ledger promises to its clients. *)
Record world := MkWorld {
  w_state : string → string → option string;
  w_balance : string → Z;
  w_nonce : string → Z;
  w_codehash : string → option string;
  w_events : string → list Event }.

Definition upd {B} (f : string → B) (a : string) (v : B) : string → B :=
  λ a', if decide (a' = a) then v else f a'.

Definition upd2 {B} (f : string → string → B) (a k : string) (v : B) : string → string → B :=
  upd f a (upd (f a) k v).

Definition w_setState (w : world) a k v := MkWorld (upd2 (w_state w) a k v) (w_balance w) (w_nonce w) (w_codehash w) (w_events w).
Definition w_setBalance (w : world) a v := MkWorld (w_state w) (upd (w_balance w) a v) (w_nonce w) (w_codehash w) (w_events w).
Definition w_setNonce (w : world) a v := MkWorld (w_state w) (w_balance w) (upd (w_nonce w) a v) (w_codehash w) (w_events w).
Definition w_addEvent (w : world) h e :=
  MkWorld (w_state w) (w_balance w) (w_nonce w) (w_codehash w) (upd (w_events w) h (w_events w h ++ [e])).

Fixpoint run_world {A} (p : prog A) (w : world) : option (A * world) :=
  match p with
  | Ret a => Some (a, w)
  | Panic => None
  | OpGetState a key k => run_world (k (w_state w a key)) w
  | OpSetState a key v _ k | OpAddState a key v k => run_world k (w_setState w a key v)
  | OpGetBalance a k => run_world (k (w_balance w a)) w
  | OpSetBalance a v k => run_world k (w_setBalance w a v)
  | OpGetNonce a k => run_world (k (w_nonce w a)) w
  | OpSetNonce a v k => run_world k (w_setNonce w a v)
  | OpGetCodeHash a k => run_world (k (w_codehash w a)) w
  | OpAddEvent h t d k => run_world k (w_addEvent w h (MkEvent t d (Some h)))
  end.

Lemma run_world_bind {A B} (p : prog A) (f : A → prog B) w :
  run_world (p ≫= f) w = match run_world p w with Some (a, w') => run_world (f a) w' | None => None end.
Proof. revert w. induction p; intros w; simpl; auto. Qed.

(** The outcome of a program with what it did before a panic. *)
Fixpoint exec {A} (p : prog A) (w : world) : option A * world :=
  match p with
  | Ret a => (Some a, w)
  | Panic => (None, w)
  | OpGetState a key k => exec (k (w_state w a key)) w
  | OpSetState a key v _ k | OpAddState a key v k => exec k (w_setState w a key v)
  | OpGetBalance a k => exec (k (w_balance w a)) w
  | OpSetBalance a v k => exec k (w_setBalance w a v)
  | OpGetNonce a k => exec (k (w_nonce w a)) w
  | OpSetNonce a v k => exec k (w_setNonce w a v)
  | OpGetCodeHash a k => exec (k (w_codehash w a)) w
  | OpAddEvent h t d k => exec k (w_addEvent w h (MkEvent t d (Some h)))
  end.

Lemma exec_bind {A B} (p : prog A) (f : A → prog B) w :
  exec (p ≫= f) w = match exec p w with (Some a, w') => exec (f a) w' | (None, w') => (None, w') end.
Proof. revert w. induction p; intros w; simpl; auto. Qed.

Lemma run_world_exec {A} (p : prog A) w :
  run_world p w = match exec p w with (Some a, w') => Some (a, w') | (None, _) => None end.
Proof. revert w. induction p; intros w; simpl; auto. Qed.

Lemma exec_recover {A} (p : prog A) w : exec (recover p) w = (Some (exec p w).1, (exec p w).2).
Proof. revert w. induction p; intros w; simpl; auto. Qed.

Lemma exec_bind_Some {A B} (p : prog A) (f : A → prog B) w r w' :
  exec (p ≫= f) w = (Some r, w') → ∃ a w1, exec p w = (Some a, w1) ∧ exec (f a) w1 = (Some r, w').
Proof. rewrite exec_bind. destruct (exec p w) as [[a|] w1]; [|done]. eauto. Qed.

(** ** The keys that a program may write *)

Fixpoint writes_only {A} (P : string → string → Prop) (p : prog A) : Prop :=
  match p with
  | Ret _ | Panic => True
  | OpGetState _ _ k => ∀ v, writes_only P (k v)
  | OpSetState a key _ _ p | OpAddState a key _ p => P a key ∧ writes_only P p
  | OpGetBalance _ k | OpGetNonce _ k => ∀ v, writes_only P (k v)
  | OpGetCodeHash _ k => ∀ v, writes_only P (k v)
  | OpSetBalance _ _ p | OpSetNonce _ _ p | OpAddEvent _ _ _ p => writes_only P p
  end.

Lemma writes_only_bind {A B} P (p : prog A) (f : A → prog B) :
  writes_only P p → (∀ a, writes_only P (f a)) → writes_only P (p ≫= f).
Proof. intros Hp Hf. induction p; simpl in *; naive_solver. Qed.

Lemma writes_only_recover {A} P (p : prog A) : writes_only P p → writes_only P (recover p).
Proof. induction p; simpl; naive_solver. Qed.

Lemma writes_only_weaken {A} (P Q : string → string → Prop) (p : prog A) :
  (∀ a k, P a k → Q a k) → writes_only P p → writes_only Q p.
Proof. intros HPQ. induction p; simpl; naive_solver. Qed.

Lemma upd_eq {B} (f : string → B) a v : upd f a v a = v.
Proof. unfold upd. by rewrite decide_True. Qed.

Lemma upd_ne {B} (f : string → B) a v a' : a' ≠ a → upd f a v a' = f a'.
Proof. unfold upd. intros. by rewrite decide_False. Qed.

Lemma upd2_eq {B} (f : string → string → B) a k v : upd2 f a k v a k = v.
Proof. unfold upd2. by rewrite !upd_eq. Qed.

Lemma upd2_ne {B} (f : string → string → B) a k v a' k' : a' ≠ a ∨ k' ≠ k → upd2 f a k v a' k' = f a' k'.
Proof.
  unfold upd2, upd. intros Hne. destruct (decide (a' = a)) as [->|]; [|done].
  destruct (decide (k' = k)) as [->|]; [|done]. naive_solver.
Qed.

(** Other keys keep their value. *)
Lemma writes_only_frame {A} P (p : prog A) w a k :
  writes_only P p → ¬ P a k → w_state (exec p w).2 a k = w_state w a k.
Proof.
  intros Hp Hak. revert w.
  induction p as [r| |a' key' f IH|a' key' v c p IH|a' key' v p IH|a' f IH|a' v p IH|a' f IH|a' v p IH|a' f IH|h t d p IH];
    intros w; simpl in *; try done; try (rewrite IH by auto; done).
  - destruct Hp as [HP Hp]. rewrite IH by done. simpl. apply upd2_ne.
    destruct (decide (a = a')) as [->|]; [|by left]. right. by intros ->.
  - destruct Hp as [HP Hp]. rewrite IH by done. simpl. apply upd2_ne.
    destruct (decide (a = a')) as [->|]; [|by left]. right. by intros ->.
Qed.

(** Programs that only read. *)
Fixpoint reads_only {A} (p : prog A) : Prop :=
  match p with
  | Ret _ | Panic => True
  | OpGetState _ _ k => ∀ v, reads_only (k v)
  | OpGetBalance _ k | OpGetNonce _ k => ∀ v, reads_only (k v)
  | OpGetCodeHash _ k => ∀ v, reads_only (k v)
  | _ => False
  end.

Lemma reads_only_bind {A B} (p : prog A) (f : A → prog B) : reads_only p → (∀ a, reads_only (f a)) → reads_only (p ≫= f).
Proof. intros Hp Hf. induction p; simpl in *; try done; auto. Qed.

Lemma reads_only_writes {A} P (p : prog A) : reads_only p → writes_only P p.
Proof. intros Hp. induction p; simpl in *; try done; auto. Qed.

Lemma reads_only_exec {A} (p : prog A) w : reads_only p → (exec p w).2 = w.
Proof. intros Hp. induction p; simpl in *; try done; auto. Qed.

Lemma reads_only_run {A} (p : prog A) w r w' : reads_only p → exec p w = (r, w') → w' = w.
Proof. intros Hp E. pose proof (reads_only_exec p w Hp) as Hw. by rewrite E in Hw. Qed.

(** ** Responses *)

(** [boltvm.Response]: [boltvm.Success] and [boltvm.Error] with its code; [args] are the values
that the message of the error mentions. *)
Inductive Response :=
| Success (data : option string)
| Error (code : string) (args : list string).

Definition resp_Ok (r : Response) : bool := match r with Success _ => true | Error _ _ => false end.

(** [boltvm.BxhError] *)
Record BxhError := MkBxhError { be_Code : string; be_Args : list string }.

(** Results with an error. *)
Definition result (A : Type) : Type := A + BxhError.

(** [pb.AuditRelatedObjInfo]: the object, and the keys of the maps of related chains and nodes. *)
Record AuditRelatedObjInfo := MkAudit {
  au_AuditObj : string; au_RelatedChainIDList : list string; au_RelatedNodeIDList : list string }.

(** ** The stub *)

(** [vm.Context] *)
Record Context := MkContext {
  ctx_Caller : string;
  ctx_Callee : string;
  ctx_CurrentCaller : string;
  ctx_TransactionIndex : Z;
  ctx_TxHash : string;
  ctx_CurrentHeight : Z;
  ctx_EnableAudit : bool;
  ctx_Changer : option changer_ptr;
  ctx_TxTimeStamp : Z }.

Section stub.
Context (ctx : Context).

Definition Has (key : string) : prog bool :=
  OpGetState (ctx_Callee ctx) key (λ v, Ret (bool_decide (is_Some v))).

(** The boolean that [Get] returns tells whether the value is not nil. *)
Definition Get (key : string) : prog (option string) := OpGetState (ctx_Callee ctx) key Ret.

Definition Delete (key : string) : prog () :=
  OpSetState (ctx_Callee ctx) key None (ctx_Changer ctx) (Ret tt).

Definition Set_ (key : string) (value : option string) : prog () :=
  OpSetState (ctx_Callee ctx) key value (ctx_Changer ctx) (Ret tt).

Definition Add (key : string) (value : option string) : prog () :=
  OpAddState (ctx_Callee ctx) key value (Ret tt).

Definition GetObject {A} `{Encoding A} (key : string) : prog (option A) :=
  data ← Get key;
  mret (data ← data; unmarshal data).

Definition SetObject {A} `{Encoding A} (key : string) (value : A) : prog () :=
  match marshal value with
  | None => Panic
  | Some data => Set_ key (Some data)
  end.

Definition AddObject {A} `{Encoding A} (key : string) (value : A) : prog () :=
  match marshal value with
  | None => Panic
  | Some data => Add key (Some data)
  end.

Definition postEvent {A} `{Encoding A} (eventType : Z) (event : A) : prog () :=
  match marshal event with
  | None => Panic
  | Some data => OpAddEvent (ctx_TxHash ctx) eventType data (Ret tt)
  end.

(** The context in which [CrossInvoke] runs the contract at [address]: audit and the change
log of the instance are not passed on. *)
Definition cross_context (address : string) : Context :=
  MkContext (ctx_Caller ctx) address (ctx_Callee ctx) (ctx_TransactionIndex ctx) (ctx_TxHash ctx)
    (ctx_CurrentHeight ctx) false None (ctx_TxTimeStamp ctx).

(** [method] is the method of the contract at [address], applied to its arguments; panics
of the callee are recovered by [BoltVM.Run]. *)
Definition CrossInvoke (address : string) (method : Context → prog Response) : prog Response :=
  res ← recover (method (cross_context address));
  mret match res with
       | Some (Success data) => Success data
       | Some (Error code args) => Error "OtherInternalErrCode" (code :: args)
       | None => Error "OtherInternalErrCode" []
       end.
End stub.

Section stub_facts.
Context (ctx : Context).

Lemma exec_Get key w : exec (Get ctx key) w = (Some (w_state w (ctx_Callee ctx) key), w).
Proof. done. Qed.

Lemma exec_GetObject {A} `{Encoding A} key w :
  exec (GetObject ctx key) w = (Some (d ← w_state w (ctx_Callee ctx) key; unmarshal d), w).
Proof. done. Qed.

Lemma exec_Set key v w : exec (Set_ ctx key v) w = (Some tt, w_setState w (ctx_Callee ctx) key v).
Proof. done. Qed.

Lemma exec_Add key v w : exec (Add ctx key v) w = (Some tt, w_setState w (ctx_Callee ctx) key v).
Proof. done. Qed.

Lemma exec_SetObject {A} `{Encoding A} key (v : A) d w :
  marshal v = Some d → exec (SetObject ctx key v) w = (Some tt, w_setState w (ctx_Callee ctx) key (Some d)).
Proof. unfold SetObject. by intros ->. Qed.

Lemma exec_AddObject {A} `{Encoding A} key (v : A) d w :
  marshal v = Some d → exec (AddObject ctx key v) w = (Some tt, w_setState w (ctx_Callee ctx) key (Some d)).
Proof. unfold AddObject. by intros ->. Qed.

Lemma exec_CrossInvoke address method w :
  exec (CrossInvoke ctx address method) w =
  let '(res, w') := exec (method (cross_context ctx address)) w in
  (Some match res with
        | Some (Success data) => Success data
        | Some (Error code args) => Error "OtherInternalErrCode" (code :: args)
        | None => Error "OtherInternalErrCode" []
        end, w').
Proof. unfold CrossInvoke. rewrite exec_bind, exec_recover. by destruct (exec _ w). Qed.

Lemma writes_only_CrossInvoke P address method :
  writes_only P (method (cross_context ctx address)) → writes_only P (CrossInvoke ctx address method).
Proof. intros Hm. apply writes_only_bind; [by apply writes_only_recover|]. by intros [[|]|]. Qed.
End stub_facts.

(** ** Which keys a program writes *)

(** The first step of a program that returned. *)
Tactic Notation "step" hyp(H) "as" ident(x) ident(w1) ident(E1) :=
  apply exec_bind_Some in H; destruct H as (x & w1 & E1 & H).

(** Goes through a program; the leaves are the lemmas of [writes]. *)
Ltac solve_writes :=
  repeat match goal with
         | |- ∀ _, _ => intros
         | |- writes_only _ (_ ≫= _) => apply writes_only_bind
         | |- writes_only _ (mret _) => exact I
         | |- writes_only _ Panic => exact I
         | |- writes_only _ (Ret _) => exact I
         | |- writes_only _ (match ?x with _ => _ end) => destruct x
         | |- writes_only _ (let _ := _ in _) => cbv zeta
         | |- writes_only _ _ => solve [eauto with writes]
         end.

Section stub_writes.
Context (P : string → string → Prop) (ctx : Context).

Lemma Get_writes k : writes_only P (Get ctx k).
Proof. done. Qed.

Lemma GetObject_writes {A} `{Encoding A} k : writes_only P (GetObject (A := A) ctx k).
Proof. done. Qed.

Lemma Set_writes k v : P (ctx_Callee ctx) k → writes_only P (Set_ ctx k v).
Proof. done. Qed.

Lemma Add_writes k v : P (ctx_Callee ctx) k → writes_only P (Add ctx k v).
Proof. done. Qed.

Lemma SetObject_writes {A} `{Encoding A} k (v : A) : P (ctx_Callee ctx) k → writes_only P (SetObject ctx k v).
Proof. intros. unfold SetObject. solve_writes. by apply Set_writes. Qed.

Lemma AddObject_writes {A} `{Encoding A} k (v : A) : P (ctx_Callee ctx) k → writes_only P (AddObject ctx k v).
Proof. intros. unfold AddObject. solve_writes. by apply Add_writes. Qed.

Lemma postEvent_writes {A} `{Encoding A} t (v : A) : writes_only P (postEvent ctx t v).
Proof. unfold postEvent. solve_writes. done. Qed.
End stub_writes.

#[export] Hint Resolve Get_writes GetObject_writes Set_writes Add_writes SetObject_writes AddObject_writes
  postEvent_writes : writes.

(** Goes through a program that only reads; the leaves are the lemmas of [reads]. *)
Ltac solve_reads :=
  repeat match goal with
         | |- ∀ _, _ => intros
         | |- reads_only (_ ≫= _) => apply reads_only_bind
         | |- reads_only (mret _) => exact I
         | |- reads_only Panic => exact I
         | |- reads_only (match ?x with _ => _ end) => destruct x
         | |- reads_only (let _ := _ in _) => cbv zeta
         | |- reads_only _ => solve [eauto with reads]
         end.

Section stub_reads.
Context (ctx : Context).

Lemma Get_pure k : reads_only (Get ctx k).
Proof. done. Qed.
Lemma GetObject_pure {A} `{Encoding A} k : reads_only (GetObject (A := A) ctx k).
Proof. done. Qed.
Lemma CrossInvoke_pure address method :
  reads_only (method (cross_context ctx address)) → reads_only (CrossInvoke ctx address method).
Proof.
  intros Hm. apply reads_only_bind; [|by intros [[|]|]].
  induction (method (cross_context ctx address)); simpl in *; try done; auto.
Qed.
End stub_reads.
#[export] Hint Resolve Get_pure GetObject_pure CrossInvoke_pure : reads.

(** ** [Query]

[Query] returns the values of the keys with a prefix, in the database and in what the block has written
([QueryByPrefix]). What it finds depends on the layers of the ledger, not only on what the ledger shows, so
it is left open here: a computation that does not write. *)
Class QueryLib := {
  stub_Query : Context → string → prog (list (option string));
  stub_Query_reads ctx prefix : writes_only (λ _ _, False) (stub_Query ctx prefix)
}.
