(* ===== verification/Dispatch.v ===== *)
(** * The stub of a contract under re-entrance: [src/pkg/vm/boltvm/boltvm.go], [bolt_stub.go]

The built-in contracts are objects that are registered once. [InvokeBVM] stores the stub of the call in the object and
calls the method, which reads the caller, the height and so on through the object. When the method calls another contract
([CrossInvoke]) and that contract calls back, the stub in the object is replaced and not restored: the outer method goes
on with the stub of the inner call. A method with a value receiver works on a copy of the object and is not affected.

[act] is what a method does as far as stubs are concerned: it looks at its stub, or calls a contract. The models of the
contracts keep the context of the call; the theorems say when this is exact, and which fields can differ. *)
From S2P Require Import Prelude Storage Account StateLedger Contract.

Inductive act :=
| Look
| Call (address : string) (body : list act).

(** The contexts of the stubs that the contract objects hold. *)
Notation stubs := (gmap string Context) (only parsing).

(** The context that a method of the contract at [ctx_Callee ctx] reads, which was called with [ctx]. *)
Definition stub_of (byValue : string → bool) (ctx : Context) (st : stubs) : Context :=
  if byValue (ctx_Callee ctx) then ctx else default ctx (st !! ctx_Callee ctx).

(** Runs one step of a method: the contexts that it looks at, and the objects. [InvokeBVM] of the callee stores its stub
and runs its method; its looks are not those of the caller. *)
Fixpoint run_act (byValue : string → bool) (ctx : Context) (a : act) (st : stubs) : list Context * stubs :=
  match a with
  | Look => ([stub_of byValue ctx st], st)
  | Call address body =>
      let inner := cross_context (stub_of byValue ctx st) address in
      let fix run_body (l : list act) (st : stubs) : stubs :=
        match l with
        | [] => st
        | a :: l => run_body l (run_act byValue inner a st).2
        end in
      ([], run_body body (<[address := inner]> st))
  end.

Fixpoint run_acts (byValue : string → bool) (ctx : Context) (l : list act) (st : stubs) : list Context * stubs :=
  match l with
  | [] => ([], st)
  | a :: l =>
      let '(seen, st) := run_act byValue ctx a st in
      let '(more, st) := run_acts byValue ctx l st in
      (seen ++ more, st)
  end.

(** [InvokeBVM] as far as stubs are concerned: the contexts that the method looks at. *)
Definition invoke_stubs (byValue : string → bool) (ctx : Context) (body : list act) (st : stubs) : list Context * stubs :=
  run_acts byValue ctx body (<[ctx_Callee ctx := ctx]> st).

(** Whether a step enters the contract at [address]. *)
Fixpoint enters (address : string) (a : act) : bool :=
  match a with
  | Look => false
  | Call address' body => bool_decide (address' = address) || existsb (enters address) body
  end.

Lemma run_act_Call byValue ctx address body st :
  run_act byValue ctx (Call address body) st =
  let inner := cross_context (stub_of byValue ctx st) address in
  ([], (run_acts byValue inner body (<[address := inner]> st)).2).
Proof.
  cbn. f_equal. generalize (cross_context (stub_of byValue ctx st) address). intros inner.
  generalize (<[address := inner]> st). clear. induction body as [|a body IH]; intros st; [done|]. cbn [run_acts].
  rewrite IH. destruct (run_act byValue inner a st) as [s1 st1]. cbn. by destruct (run_acts byValue inner body st1).
Qed.

(** Induction over nested calls. *)
Lemma act_nested_ind (P : act → Prop) : P Look → (∀ address body, Forall P body → P (Call address body)) → ∀ a, P a.
Proof.
  intros HL HC. fix IH 1. intros [|address body]; [done|]. apply HC.
  induction body as [|a body IHb]; constructor; [apply IH|done].
Qed.

(** The fields that calls pass on. *)
Definition same_call (c1 c2 : Context) : Prop :=
  ctx_Caller c1 = ctx_Caller c2 ∧ ctx_TransactionIndex c1 = ctx_TransactionIndex c2 ∧ ctx_TxHash c1 = ctx_TxHash c2 ∧
  ctx_CurrentHeight c1 = ctx_CurrentHeight c2 ∧ ctx_TxTimeStamp c1 = ctx_TxTimeStamp c2.

Global Instance same_call_equivalence : Equivalence same_call.
Proof.
  split.
  - by intros c.
  - intros c1 c2 (? & ? & ? & ? & ?). by repeat split.
  - intros c1 c2 c3 (? & ? & ? & ? & ?) (? & ? & ? & ? & ?). repeat split; congruence.
Qed.

Section runs.
Context (byValue : string → bool).

(** The objects of a transaction: every stub belongs to its contract and has the fields of the transaction. *)
Definition stubs_ok (ctx : Context) (st : stubs) : Prop :=
  ∀ a c, st !! a = Some c → ctx_Callee c = a ∧ same_call c ctx.

Lemma stub_of_ok ctx st : stubs_ok ctx st → ctx_Callee (stub_of byValue ctx st) = ctx_Callee ctx ∧ same_call (stub_of byValue ctx st) ctx.
Proof.
  intros Hok. unfold stub_of. destruct (byValue _); [done|]. destruct (st !! ctx_Callee ctx) as [c|] eqn:E; [|done]. by apply Hok.
Qed.

Lemma stubs_ok_insert ctx st a c : stubs_ok ctx st → ctx_Callee c = a → same_call c ctx → stubs_ok ctx (<[a := c]> st).
Proof. intros Hok Ha Hc a' c'. rewrite lookup_insert_Some. intros [[<- <-]|[_ Hl]]; [done|by apply Hok]. Qed.

Lemma stubs_ok_same ctx ctx' st : same_call ctx ctx' → stubs_ok ctx st → stubs_ok ctx' st.
Proof. intros Hs Hok a c Hc. destruct (Hok a c Hc) as [? Hc']. split; [done|]. by rewrite Hc'. Qed.

Lemma run_acts_of_act ctx l st :
  Forall (λ a, ∀ ctx st, stubs_ok ctx st → stubs_ok ctx (run_act byValue ctx a st).2 ∧
    Forall (λ c, ctx_Callee c = ctx_Callee ctx ∧ same_call c ctx) (run_act byValue ctx a st).1) l →
  stubs_ok ctx st → stubs_ok ctx (run_acts byValue ctx l st).2 ∧
    Forall (λ c, ctx_Callee c = ctx_Callee ctx ∧ same_call c ctx) (run_acts byValue ctx l st).1.
Proof.
  intros Hl. revert st. induction Hl as [|a l Ha Hl IH]; intros st Hok; [done|]. cbn [run_acts].
  destruct (Ha ctx st Hok) as [Hok1 Hs1]. destruct (run_act byValue ctx a st) as [s1 st1]. cbn in Hok1, Hs1.
  destruct (IH st1 Hok1) as [Hok2 Hs2]. destruct (run_acts byValue ctx l st1) as [s2 st2]. cbn in *. split; [done|]. by apply Forall_app.
Qed.

Lemma run_act_ok a : ∀ ctx st, stubs_ok ctx st → stubs_ok ctx (run_act byValue ctx a st).2 ∧
  Forall (λ c, ctx_Callee c = ctx_Callee ctx ∧ same_call c ctx) (run_act byValue ctx a st).1.
Proof.
  induction a as [|address body IH] using act_nested_ind; intros ctx st Hok.
  - cbn. split; [done|]. apply Forall_singleton. by apply stub_of_ok.
  - rewrite run_act_Call. cbv zeta. split; [|done]. cbn [snd]. set (inner := cross_context (stub_of byValue ctx st) address).
    assert (same_call inner ctx) as Hs by apply (stub_of_ok ctx st Hok).
    apply (stubs_ok_same inner ctx); [done|].
    apply (run_acts_of_act inner body _ IH). apply (stubs_ok_same ctx inner); [by symmetry|]. by apply stubs_ok_insert.
Qed.

(** A step that does not enter a contract leaves its object alone. *)
Lemma run_acts_other address ctx l st :
  Forall (λ a, ∀ ctx st, enters address a = false → (run_act byValue ctx a st).2 !! address = st !! address) l →
  existsb (enters address) l = false → (run_acts byValue ctx l st).2 !! address = st !! address.
Proof.
  intros Hl. revert st. induction Hl as [|a l Ha Hl IH]; intros st Hn; [done|]. cbn [existsb] in Hn. apply orb_false_iff in Hn as [Hn1 Hn2].
  cbn [run_acts]. specialize (Ha ctx st Hn1). destruct (run_act byValue ctx a st) as [s1 st1]. specialize (IH st1 Hn2).
  destruct (run_acts byValue ctx l st1). cbn in *. congruence.
Qed.

Lemma run_act_other address a : ∀ ctx st, enters address a = false → (run_act byValue ctx a st).2 !! address = st !! address.
Proof.
  induction a as [|address' body IH] using act_nested_ind; intros ctx st Hn; [done|]. rewrite run_act_Call. cbn [snd].
  cbn [enters] in Hn. apply orb_false_iff in Hn as [Hne Hn]. apply bool_decide_eq_false in Hne.
  rewrite (run_acts_other address _ body _ IH Hn). by apply lookup_insert_ne.
Qed.

(** Looks before and after steps that do not enter the contract again see the context of the call. *)
Lemma run_acts_own ctx l st :
  st !! ctx_Callee ctx = Some ctx → byValue (ctx_Callee ctx) = true ∨ existsb (enters (ctx_Callee ctx)) l = false →
  Forall (λ c, c = ctx) (run_acts byValue ctx l st).1.
Proof.
  intros Hst [Hv|Hn].
  - clear Hst. revert st. induction l as [|a l IH]; intros st; [done|]. cbn [run_acts].
    assert (Forall (λ c, c = ctx) (run_act byValue ctx a st).1) as Ha.
    { destruct a; [|by rewrite run_act_Call]. cbn. apply Forall_singleton. unfold stub_of. by rewrite Hv. }
    destruct (run_act byValue ctx a st) as [s1 st1]. specialize (IH st1). destruct (run_acts byValue ctx l st1). by apply Forall_app.
  - revert st Hst. induction l as [|a l IH]; intros st Hst; [done|]. cbn [existsb] in Hn. apply orb_false_iff in Hn as [Hn1 Hn2]. cbn [run_acts].
    assert (Forall (λ c, c = ctx) (run_act byValue ctx a st).1) as Ha.
    { destruct a; [|by rewrite run_act_Call]. cbn. apply Forall_singleton. unfold stub_of. rewrite Hst. by destruct (byValue _). }
    pose proof (run_act_other (ctx_Callee ctx) a ctx st Hn1) as Hl. destruct (run_act byValue ctx a st) as [s1 st1]. cbn in Hl.
    specialize (IH Hn2 st1). destruct (run_acts byValue ctx l st1). cbn in *. apply Forall_app. split; [done|]. apply IH. congruence.
Qed.

(** What a method reads of its stub is what it was called with, as far as the caller of the transaction, its own address,
the number and hash of the transaction, the height and the time are concerned, however contracts call each other and come
back. The calling contract, the audit flag and the change log are those of the call too when the contract has a value
receiver or none of the calls that the method makes comes back to it, directly or through others. *)
Theorem stub_stable ctx body st :
  stubs_ok ctx st →
  Forall (λ c, ctx_Callee c = ctx_Callee ctx ∧ same_call c ctx) (invoke_stubs byValue ctx body st).1 ∧
  (byValue (ctx_Callee ctx) = true ∨ existsb (enters (ctx_Callee ctx)) body = false →
   Forall (λ c, c = ctx) (invoke_stubs byValue ctx body st).1).
Proof.
  intros Hok. unfold invoke_stubs. split.
  - apply run_acts_of_act; [apply Forall_forall; intros a _; apply run_act_ok|]. by apply stubs_ok_insert.
  - intros Hn. apply run_acts_own; [by rewrite lookup_insert_eq|done].
Qed.
End runs.

(** A contract that is called back goes on with the stub of the inner call: its caller is the contract that called back,
and audit is off, so that the events for auditors that it would post afterwards are not posted. *)
Theorem reentry_turns_audit_off ctx other st :
  (invoke_stubs (λ _, false) ctx [Look; Call other [Call (ctx_Callee ctx) []]; Look] st).1 =
  [ctx; cross_context (cross_context ctx other) (ctx_Callee ctx)].
Proof.
  unfold invoke_stubs. cbn -[stub_of].
  assert (stub_of (λ _, false) ctx (<[ctx_Callee ctx := ctx]> st) = ctx) as ->.
  { unfold stub_of. by rewrite lookup_insert_eq. }
  unfold stub_of. cbn. rewrite lookup_insert_eq. cbn. by rewrite lookup_insert_eq.
Qed.

(** The stub of the inner call: what is passed on. *)
Example reentry_stub ctx other :
  let c := cross_context (cross_context ctx other) (ctx_Callee ctx) in
  ctx_EnableAudit c = false ∧ ctx_CurrentCaller c = other ∧ ctx_Caller c = ctx_Caller ctx.
Proof. done. Qed.

(** A registration of a role with audit on: the role contract calls the governance contract, which asks the role contract
for the administrators. *)
Definition role_call : Context := MkContext "user" "role" "user" 0 "hash" 100 true None 0.

Lemma stub_stable_witness :
  stubs_ok role_call ∅ ∧
  Forall (λ c, c = role_call) (invoke_stubs (λ _, false) role_call [Look; Call "gov" [Call "strategy" []]; Look] ∅).1.
Proof.
  split; [by intros a c|]. refine (proj2 (stub_stable (λ _, false) role_call [Look; Call "gov" [Call "strategy" []]; Look] ∅ _) _).
  - by intros a c.
  - right. reflexivity.
Defined.

Example role_audit_lost :
  ctx_EnableAudit <$> (invoke_stubs (λ _, false) role_call [Look; Call "gov" [Call "role" []]; Look] ∅).1 = [true; false].
Proof. reflexivity. Qed.
