(* ===== verification/LedgerRefinement.v ===== *)
(** * The ledger implements its abstract specification

Programs that use the state, balances, nonces and events of the ledger behave on
[SimpleLedger], with its four layers of caches, as on the plain functions of [world]. *)
From S2P Require Import Prelude Btree Storage Account StateLedger StateLedgerProps LedgerTheorems Contract.

Section refinement.
Context `{StorageLib, LruLib, AddressLib, HashLib, InnerAccountLib, GoRange, AccessListLib}.
Implicit Types (l : SimpleLedger) (w : world) (a k : string).

(** The ledger shows what the abstract state holds. *)
Record models l w : Prop := {
  mo_state a k : state_view l a k = w_state w a k;
  mo_balance a : ia_Balance (inner_of l a) = w_balance w a;
  mo_nonce a : ia_Nonce (inner_of l a) = w_nonce w a;
  mo_codehash a : ia_CodeHash (inner_of l a) = w_codehash w a;
  mo_events h : default [] (l_events l !! h) = w_events w h }.

(** A step on one account, with the views it leaves. *)
Lemma models_step l w a st inn l' w' :
  models l w → view_set l a st inn l' → l_events l' = l_events l →
  (∀ b k, w_state w' b k = if decide (b = a) then st k else w_state w b k) →
  (∀ b, w_balance w' b = if decide (b = a) then ia_Balance inn else w_balance w b) →
  (∀ b, w_nonce w' b = if decide (b = a) then ia_Nonce inn else w_nonce w b) →
  (∀ b, w_codehash w' b = if decide (b = a) then ia_CodeHash inn else w_codehash w b) →
  (∀ h, w_events w' h = w_events w h) → models l' w'.
Proof.
  intros [Ms Mb Mn Mc Me] V Hev Ws Wb Wn Wc We. split.
  - intros b k. rewrite (vs_state _ _ _ _ _ V), Ws. case_decide; [done|apply Ms].
  - intros b. rewrite (vs_inner _ _ _ _ _ V), Wb. case_decide; [done|apply Mb].
  - intros b. rewrite (vs_inner _ _ _ _ _ V), Wn. case_decide; [done|apply Mn].
  - intros b. rewrite (vs_inner _ _ _ _ _ V), Wc. case_decide; [done|apply Mc].
  - intros h. rewrite Hev, We. apply Me.
Qed.

(** Reading changes nothing. *)
Lemma models_read l w a l' :
  models l w → view_set l a (state_view l a) (inner_of l a) l' → l_events l' = l_events l → models l' w.
Proof.
  intros M V Hev. apply (models_step _ _ _ _ _ _ _ M V Hev); try done; intros.
  - case_decide; [by subst; rewrite (mo_state _ _ M)|done].
  - case_decide; [by subst; rewrite (mo_balance _ _ M)|done].
  - case_decide; [by subst; rewrite (mo_nonce _ _ M)|done].
  - case_decide; [by subst; rewrite (mo_codehash _ _ M)|done].
Qed.

(** Setting a state, wherever the change is logged. *)
Lemma setState_view l a k v (f : SimpleAccount → shared → () * SimpleAccount * shared) :
  ledger_wf l →
  (∀ l1 o, Addr o = a → ∃ o2 sh2 chs, f o (l_shared l1) = (tt, acc_setState o2 k v, sh2) ∧
     acc_same l1 a o o2 ∧ shared_ext (l_changer l) (l_shared l1) chs sh2) →
  ∃ l', on_account a f l = Some (tt, l') ∧ ledger_wf l' ∧ l_events l' = l_events l ∧
    view_set l a (λ k', if decide (k' = k) then v else state_view l a k') (inner_of l a) l'.
Proof.
  intros Hwf Hf. destruct (GetOrCreateAccount_spec l a Hwf) as (o & chs0 & l1 & E & G).
  destruct (Hf l1 o (gt_addr _ _ _ _ _ G)) as (o2 & sh2 & chs & Ef & [Hss Hsi Hsa Hsc] & Hse).
  destruct (on_account_run l a f o chs0 l1 tt (acc_setState o2 k v) sh2 chs) as (l' & E' & R); try done.
  { simpl. by rewrite Hsa, (gt_addr _ _ _ _ _ G). }
  { simpl. by rewrite Hsc, (gt_changer _ _ _ _ _ G). }
  exists l'. split_and!; [done|apply R|by rewrite (sb_rest _ _ (rn_below _ _ _ _ _ _ _ R))|].
  eapply view_set_trans; [apply G|]. pose proof (rn_view _ _ _ _ _ _ _ R) as [Vs Vi Ve Vb Vn Vr].
  split; try done.
  - intros b k'. rewrite Vs. case_decide; [|done]. rewrite acc_setState_state. case_decide; [done|].
    rewrite <-(vs_below _ _ _ _ _ (gt_view _ _ _ _ _ G)), Hss, (vs_below _ _ _ _ _ (gt_view _ _ _ _ _ G)).
    apply (got_state _ _ _ _ _ _ G).
  - intros b. rewrite Vi. case_decide; [|done]. change (acc_inner (acc_setState o2 k v)) with (acc_inner o2).
    rewrite Hsi. apply (got_inner _ _ _ _ _ G).
Qed.

Lemma SetState_view l a k v c :
  ledger_wf l →
  ∃ l', SetState a k v c l = Some (tt, l') ∧ ledger_wf l' ∧ l_events l' = l_events l ∧
    view_set l a (λ k', if decide (k' = k) then v else state_view l a k') (inner_of l a) l'.
Proof.
  intros Hwf. apply setState_view; [done|]. intros l1 o <-. pose proof (acc_GetState_spec l1 o k) as Hg.
  unfold no_result, acc_SetState. destruct (acc_GetState o (l_shared l1) k) as [[prev o2] sh2].
  destruct Hg as (_ & Hsame & Hse). simpl. set (p := default (acc_changer o2) c).
  set (ch := storageChange (Addr o2) k prev).
  exists o2, (log_change sh2 p ch), (if decide (p = l_changer l) then [ch] else []).
  split_and!; [done|done|]. case_decide as Hp; [rewrite Hp; by apply (shared_ext_log _ _ _ _ [])|].
  destruct (Hse (l_changer l)) as [Ed Ec El]. split; [done|done|]. intros s Hs.
  destruct (El s Hs) as (s' & Hs' & Es'). exists s'. split; [|done]. simpl. by rewrite lookup_alter_ne.
Qed.

Lemma AddState_view l a k v :
  ledger_wf l →
  ∃ l', AddState a k v l = Some (tt, l') ∧ ledger_wf l' ∧ l_events l' = l_events l ∧
    view_set l a (λ k', if decide (k' = k) then v else state_view l a k') (inner_of l a) l'.
Proof.
  intros Hwf. apply setState_view; [done|]. intros l1 o <-. exists o, (l_shared l1), [].
  split_and!; [done|apply acc_same_refl|apply shared_ext_refl].
Qed.

Lemma upd2_state w a k v b k' :
  upd2 (w_state w) a k v b k' =
  if decide (b = a) then (if decide (k' = k) then v else w_state w a k') else w_state w b k'.
Proof. unfold upd2, upd. by case_decide. Qed.

(** The invariant of the ledger and the abstract state, carried through a program. *)
Record refines l w : Prop := { rf_wf : ledger_wf l; rf_models : models l w }.

Lemma refines_effect l w a st inn l' w' :
  refines l w → effect l a st inn l' →
  (∀ b k, w_state w' b k = if decide (b = a) then st k else w_state w b k) →
  (∀ b, w_balance w' b = if decide (b = a) then ia_Balance inn else w_balance w b) →
  (∀ b, w_nonce w' b = if decide (b = a) then ia_Nonce inn else w_nonce w b) →
  (∀ b, w_codehash w' b = if decide (b = a) then ia_CodeHash inn else w_codehash w b) →
  (∀ h, w_events w' h = w_events w h) → refines l' w'.
Proof.
  intros [Hwf M] [V L] ?????. split; [apply L|]. eapply (models_step l w); try done. apply L.
Qed.

Lemma refines_read l w a l' : refines l w → effect l a (state_view l a) (inner_of l a) l' → refines l' w.
Proof. intros [Hwf M] [V L]. split; [apply L|]. eapply models_read; [done|done|apply L]. Qed.

Lemma refines_setState l w a k v l' :
  refines l w → ledger_wf l' → l_events l' = l_events l →
  view_set l a (λ k', if decide (k' = k) then v else state_view l a k') (inner_of l a) l' →
  refines l' (w_setState w a k v).
Proof.
  intros [Hwf M] Hwf' Hev V. split; [done|]. eapply (models_step l w); try done; simpl.
  - intros b k'. rewrite upd2_state. repeat case_decide; try done. by rewrite (mo_state _ _ M).
  - intros b. case_decide; [by subst; rewrite (mo_balance _ _ M)|done].
  - intros b. case_decide; [by subst; rewrite (mo_nonce _ _ M)|done].
  - intros b. case_decide; [by subst; rewrite (mo_codehash _ _ M)|done].
Qed.

Lemma run_ledger_sim {A} (p : prog A) l w :
  refines l w →
  match run_world p w with
  | Some (r, w') => ∃ l', run_ledger p l = Some (r, l') ∧ refines l' w'
  | None => run_ledger p l = None
  end.
Proof.
  revert l w.
  induction p as [r| |a key k IH|a key v c p IH|a key v p IH|a k IH|a v p IH|a k IH|a v p IH|a k IH|h t d p IH];
    intros l w R; cbn [run_world run_ledger].
  - by exists l.
  - done.
  - destruct (GetState_effect l a key (rf_wf _ _ R)) as (l1 & E & He).
    unfold mbind, LM_bind. rewrite E, (mo_state _ _ (rf_models _ _ R)). apply IH. by eapply refines_read.
  - destruct (SetState_view l a key v c (rf_wf _ _ R)) as (l1 & E & Hwf1 & Hev & V).
    unfold mbind, LM_bind. rewrite E. apply IH. by eapply refines_setState.
  - destruct (AddState_view l a key v (rf_wf _ _ R)) as (l1 & E & Hwf1 & Hev & V).
    unfold mbind, LM_bind. rewrite E. apply IH. by eapply refines_setState.
  - destruct (GetBalance_effect l a (rf_wf _ _ R)) as (l1 & E & He).
    unfold mbind, LM_bind. rewrite E, (mo_balance _ _ (rf_models _ _ R)). apply IH. by eapply refines_read.
  - destruct (SetBalance_effect l a v (rf_wf _ _ R)) as (l1 & E & He).
    unfold mbind, LM_bind. rewrite E. apply IH. apply (refines_effect _ _ _ _ _ _ _ R He); simpl; try done.
    + intros b k'. by case_decide; subst; rewrite ?(mo_state _ _ (rf_models _ _ R)).
    + intros b. by case_decide; subst; rewrite ?(mo_nonce _ _ (rf_models _ _ R)).
    + intros b. by case_decide; subst; rewrite ?(mo_codehash _ _ (rf_models _ _ R)).
  - destruct (GetNonce_effect l a (rf_wf _ _ R)) as (l1 & E & He).
    unfold mbind, LM_bind. rewrite E, (mo_nonce _ _ (rf_models _ _ R)). apply IH. by eapply refines_read.
  - destruct (SetNonce_effect l a v (rf_wf _ _ R)) as (l1 & E & He).
    unfold mbind, LM_bind. rewrite E. apply IH. apply (refines_effect _ _ _ _ _ _ _ R He); simpl; try done.
    + intros b k'. by case_decide; subst; rewrite ?(mo_state _ _ (rf_models _ _ R)).
    + intros b. by case_decide; subst; rewrite ?(mo_balance _ _ (rf_models _ _ R)).
    + intros b. by case_decide; subst; rewrite ?(mo_codehash _ _ (rf_models _ _ R)).
  - destruct (CodeHash_effect l a (rf_wf _ _ R)) as (l1 & E & He).
    unfold mbind, LM_bind. rewrite E, (mo_codehash _ _ (rf_models _ _ R)). apply IH. by eapply refines_read.
  - unfold mbind, LM_bind, AddEvent, lm_get, lm_modify. simpl. apply IH. destruct R as [[] [Ms Mb Mn Mc Me]].
    split; [by split|]. split; [done|done|done|done|]. intros h'. simpl. unfold upd. rewrite lookup_insert.
    destruct (decide (h = h')) as [->|Hne]; [by rewrite decide_True, Me|by rewrite decide_False].
Qed.

(** C15: The ledger implements its abstract specification: a program returns on [SimpleLedger] what
it returns on the plain maps of [world], panics when it panics there, and leaves a ledger
that shows the maps it leaves, whatever the caches hold and wherever changes are logged. *)
Theorem run_ledger_refines {A} (p : prog A) l w :
  ledger_wf l → models l w →
  match run_world p w with
  | Some (r, w') => ∃ l', run_ledger p l = Some (r, l') ∧ ledger_wf l' ∧ models l' w'
  | None => run_ledger p l = None
  end.
Proof.
  intros Hwf M. pose proof (run_ledger_sim p l w (Build_refines _ _ Hwf M)) as Hs.
  destruct (run_world p w) as [[r w']|]; [|done]. destruct Hs as (l' & E & [Hwf' M']). by exists l'.
Qed.
End refinement.

(** A program that moves a balance, writes and reads back a state, on the ledger of the sample. *)
Module RefinementSample.
Import LedgerSample.
Local Existing Instance storage_by_map.
Local Existing Instance lru_by_list.
Local Existing Instance address_plain.
Local Existing Instance hash_plain.
Local Existing Instance inner_by_encode.
Local Existing Instance range_by_encoding.
Local Existing Instance access_by_sets.

Definition genesis_world : world :=
  MkWorld (state_view genesis) (λ a, ia_Balance (inner_of genesis a))
    (λ a, ia_Nonce (inner_of genesis a)) (λ a, ia_CodeHash (inner_of genesis a)) (λ h, default [] (l_events genesis !! h)).

Definition sample_prog : prog (option string * Z) :=
  OpGetBalance alice (λ b, OpSetBalance alice (b - 30) (OpSetBalance bob 30
    (OpSetState alice "k" (Some "v") None (OpGetState alice "k" (λ v, OpGetBalance alice (λ z, Ret (v, z))))))).

Lemma run_ledger_refines_witness :
  ∃ l' w', run_world sample_prog genesis_world = Some ((Some "v", 70%Z), w') ∧
    run_ledger sample_prog genesis = Some ((Some "v", 70%Z), l') ∧ models l' w'.
Proof.
  pose proof (run_ledger_refines sample_prog genesis genesis_world genesis_wf) as Hr.
  assert (fst <$> run_world sample_prog genesis_world = Some (Some "v", 70%Z)) as E by (vm_compute; reflexivity).
  destruct (run_world sample_prog genesis_world) as [[r w']|]; [|discriminate]. injection E as ->.
  destruct Hr as (l' & Hl & _ & Hm); [split; reflexivity|].
  exists l', w'. split; [reflexivity|]. split; [exact Hl|exact Hm].
Defined.
End RefinementSample.
