(* ===== verification/TransactionManager.v ===== *)
(** * Cross-chain transactions: [src/internal/executor/contracts/transaction_manager.go]

The contract keeps, under its own address, a record per cross-chain transaction
([tx-<id>]), a record per one-to-many transaction ([global-tx-<id>]) with the status of
each child, the global id of each child, and a comma separated list of the
transactions that time out at each height ([timeout-<height>]). *)
From Stdlib Require Import Ascii.
From S2P Require Import Prelude Storage Account StateLedger Contract.

(** ** Messages of [bitxhub-model/pb] *)

Inductive TransactionStatus :=
| BEGIN | BEGIN_FAILURE | BEGIN_ROLLBACK | SUCCESS | FAILURE | ROLLBACK
| STATUS_NONE (** the value -1, used for "no previous status" *).

Global Instance TransactionStatus_eq_dec : EqDecision TransactionStatus.
Proof. solve_decision. Defined.

(** [String] of the enumeration. *)
Definition status_String (s : TransactionStatus) : string :=
  match s with
  | BEGIN => "BEGIN" | BEGIN_FAILURE => "BEGIN_FAILURE" | BEGIN_ROLLBACK => "BEGIN_ROLLBACK"
  | SUCCESS => "SUCCESS" | FAILURE => "FAILURE" | ROLLBACK => "ROLLBACK" | STATUS_NONE => "-1"
  end.

(** [TransactionStatus_value]; a name that is not there gives the zero value. *)
Definition status_value (s : string) : TransactionStatus :=
  if decide (s = "BEGIN_FAILURE") then BEGIN_FAILURE
  else if decide (s = "BEGIN_ROLLBACK") then BEGIN_ROLLBACK
  else if decide (s = "SUCCESS") then SUCCESS
  else if decide (s = "FAILURE") then FAILURE
  else if decide (s = "ROLLBACK") then ROLLBACK
  else BEGIN.

Inductive IBTP_Type :=
| IBTP_INTERCHAIN | IBTP_RECEIPT_SUCCESS | IBTP_RECEIPT_FAILURE | IBTP_RECEIPT_ROLLBACK
| IBTP_OTHER (n : Z).

Global Instance IBTP_Type_eq_dec : EqDecision IBTP_Type.
Proof. solve_decision. Defined.

Record TransactionRecord := MkRecord { tr_Status : TransactionStatus; tr_Height : Z }.

Record StatusChange := MkStatusChange {
  sc_PrevStatus : TransactionStatus;
  sc_CurStatus : TransactionStatus;
  sc_ChildIBTPIDs : list string;
  sc_NotifySrcIBTPIDs : list string;
  sc_NotifyDstIBTPIDs : list string;
  sc_IsFailChildIBTP : bool }.

(** ** Data of the contract *)

Record TransactionInfo := MkTransactionInfo {
  GlobalState : TransactionStatus;
  ti_Height : Z;
  ChildTxInfo : gmap string TransactionStatus;
  ChildTxCount : Z }.

Definition TransactionInfo_text (t : TransactionInfo) : list string := (map_to_list (ChildTxInfo t)).*1.

(** What the contract uses of the message library. *)
Class TxPbLib := {
  record_codec :: Codec TransactionRecord;
  change_codec :: Codec StatusChange;
  info_codec :: JsonCodec TransactionInfo TransactionInfo_text;
  (** [TxStatus] of a [pb.BxhProof], if the bytes are one *)
  proof_TxStatus : string → option TransactionStatus;
  status_number : TransactionStatus → Z
}.

(** Addresses of the built-in contracts ([bitxhub-model/constant]). *)
Class ConstantLib := {
  InterchainContractAddr : string;
  TransactionMgrContractAddr : string;
  ServiceMgrContractAddr : string;
  AppchainMgrContractAddr : string;
  InterBrokerContractAddr : string;
  constants_NoDup :
    NoDup [InterchainContractAddr; TransactionMgrContractAddr; ServiceMgrContractAddr;
           AppchainMgrContractAddr; InterBrokerContractAddr]
}.

(** [looplab/fsm]: an event leads from the current state to the destination of the
description that names it and lists the state as a source; without one it fails. *)
Record EventDesc := MkEventDesc { ed_Name : string; ed_Src : list string; ed_Dst : string }.

Definition desc_matches (cur ev : string) (d : EventDesc) : Prop := ed_Name d = ev ∧ cur ∈ ed_Src d.

Global Instance desc_matches_dec cur ev d : Decision (desc_matches cur ev d).
Proof. unfold desc_matches. apply _. Defined.

Class FsmLib := {
  fsm_Event : list EventDesc → string → string → option string;
  fsm_Event_ok evs cur ev d :
    filter (desc_matches cur ev) evs = [d] → ed_Dst d ≠ cur → fsm_Event evs cur ev = Some (ed_Dst d);
  fsm_Event_err evs cur ev : filter (desc_matches cur ev) evs = [] → fsm_Event evs cur ev = None
}.

Definition fsm_by_filter : FsmLib.
Proof.
  refine {| fsm_Event evs cur ev :=
              match filter (desc_matches cur ev) evs with d :: _ => Some (ed_Dst d) | [] => None end |}.
  - by intros evs cur ev d -> _.
  - by intros evs cur ev ->.
Defined.

(** ** Keys *)

Definition PREFIX : string := "tx".
Definition TimeoutPrefix : string := "timeout".

Definition TxInfoKey (id : string) : string := PREFIX +:+ "-" +:+ id.
Definition GlobalTxInfoKey (id : string) : string := "global-" +:+ PREFIX +:+ "-" +:+ id.
Definition TimeoutKey (height : Z) : string := TimeoutPrefix +:+ "-" +:+ fmt_d height.

(** ** The state machine *)

Definition TransactionEventBegin : string := "begin".
Definition TransactionEventBeginFailure : string := "begin_failure".
Definition TransactionEventTimeout : string := "timeout".
Definition TransactionEventFailure : string := "failure".
Definition TransactionEventSuccess : string := "success".
Definition TransactionEventRollback : string := "rollback".
Definition TransactionEventDstRollback : string := "dst_rollback".
Definition TransactionEventDstFailure : string := "dst_failure".
Definition TransactionStateInit : string := "init".

Definition receipt2EventM (result : IBTP_Type) : string :=
  match result with
  | IBTP_RECEIPT_FAILURE => TransactionEventFailure
  | IBTP_RECEIPT_SUCCESS => TransactionEventSuccess
  | IBTP_RECEIPT_ROLLBACK => TransactionEventRollback
  | _ => EmptyString
  end.

Definition txStatus2EventM (s : TransactionStatus) : string :=
  match s with
  | BEGIN_FAILURE => TransactionEventDstFailure
  | BEGIN_ROLLBACK => TransactionEventDstRollback
  | _ => EmptyString
  end.

Definition tx_events : list EventDesc :=
  let s := status_String in
  [MkEventDesc TransactionEventBegin [TransactionStateInit] (s BEGIN);
   MkEventDesc TransactionEventBeginFailure [TransactionStateInit; s BEGIN] (s BEGIN_FAILURE);
   MkEventDesc TransactionEventTimeout [s BEGIN] (s BEGIN_ROLLBACK);
   MkEventDesc TransactionEventSuccess [s BEGIN] (s SUCCESS);
   MkEventDesc TransactionEventFailure [s BEGIN; s BEGIN_FAILURE] (s FAILURE);
   MkEventDesc TransactionEventRollback [s BEGIN_ROLLBACK] (s ROLLBACK);
   MkEventDesc TransactionEventFailure [s BEGIN_ROLLBACK] (s ROLLBACK);
   MkEventDesc TransactionEventDstFailure [s BEGIN] (s FAILURE);
   MkEventDesc TransactionEventDstRollback [s BEGIN] (s ROLLBACK)].

(** ** Removing from a slice while ranging over it

[for index, value := range list { if value == x { list = append(list[:index], list[index+1:]...) } }]:
the range reads the array of the slice it started with, which the appends modify; [m] is
the length of [list]. [None] is the panic of a slice bound out of range. *)
Definition range_remove_step (x : string) (st : option (list string * nat)) (index : nat) :
    option (list string * nat) :=
  '(arr, m) ← st;
  if decide (arr !! index = Some x)
  then if decide (index + 1 ≤ m)
       then Some (take index arr ++ take (m - (index + 1)) (drop (index + 1) arr) ++ drop (m - 1) arr, m - 1)
       else None
  else Some (arr, m).

Definition range_remove (x : string) (list : list string) : option (Datatypes.list string) :=
  '(arr, m) ← foldl (range_remove_step x) (Some (list, length list)) (seq 0 (length list));
  Some (take m arr).

Section contract.
Context `{TxPbLib, ConstantLib, FsmLib, GoRange}.

(** The new status, or nothing if the state machine refuses the event. *)
Definition setFSM (state : TransactionStatus) (event : string) : option TransactionStatus :=
  status_value <$> fsm_Event tx_events (status_String state) event.

Section methods.
Context (ctx : Context).

(** [CurrentCaller() != InterchainContractAddr]: the caller that is refused, if any. *)
Definition tm_checkCurrentCaller : bool := bool_decide (ctx_CurrentCaller ctx = InterchainContractAddr).

Definition addToTimeoutList (height : Z) (txId : string) : prog () :=
  val ← Get ctx (TimeoutKey height);
  let timeoutList := match val with
                     | None => txId
                     | Some val => val +:+ "," +:+ txId
                     end in
  Set_ ctx (TimeoutKey height) (Some timeoutList).

Definition removeFromTimeoutList (height : Z) (txId : string) : prog () :=
  timeoutList ← Get ctx (TimeoutKey height);
  match timeoutList with
  | None => mret tt
  | Some timeoutList =>
      match range_remove txId (str_split comma timeoutList) with
      | None => Panic
      | Some list => Set_ ctx (TimeoutKey height) (Some (str_join comma list))
      end
  end.

(** The height at which a transaction times out. *)
Definition timeout_at (timeoutHeight : Z) : Z :=
  if decide (timeoutHeight = 0 ∨ MaxUint64 - ctx_CurrentHeight ctx ≤ timeoutHeight)%Z
  then MaxUint64 else ctx_CurrentHeight ctx +u timeoutHeight.

Definition respond (change : StatusChange) : prog Response :=
  mret match marshal change with
       | None => Error "TransactionInternalErrCode" []
       | Some data => Success (Some data)
       end.

(** The first child of a global transaction. *)
Definition newTxInfo (ibtpID : string) (timeoutHeight : Z) (isFailed : bool) (count : Z) : TransactionInfo :=
  if isFailed
  then MkTransactionInfo BEGIN_FAILURE (timeout_at timeoutHeight) {[ibtpID := BEGIN_FAILURE]} count
  else MkTransactionInfo BEGIN (timeout_at timeoutHeight) {[ibtpID := BEGIN]} count.

(** The end of [BeginMultiTXs]. *)
Definition beginMultiEnd (globalID ibtpID : string) (txInfo : TransactionInfo) (src dst : list string) :
    prog Response :=
  _ ← Set_ ctx ibtpID (Some globalID);
  respond (MkStatusChange STATUS_NONE (default BEGIN (ChildTxInfo txInfo !! ibtpID))
             (go_keys (ChildTxInfo txInfo)) src dst false).

Definition BeginMultiTXs (globalID ibtpID : string) (timeoutHeight : Z) (isFailed : bool) (count : Z) :
    prog Response :=
  if negb tm_checkCurrentCaller then mret (Error "TransactionNoPermissionCode" [ctx_CurrentCaller ctx])
  else
    txInfo ← GetObject ctx (GlobalTxInfoKey globalID);
    match txInfo with
    | None =>
        let txInfo := newTxInfo ibtpID timeoutHeight isFailed count in
        _ ← (if isFailed then mret tt else addToTimeoutList (ti_Height txInfo) globalID);
        _ ← AddObject ctx (GlobalTxInfoKey globalID) txInfo;
        beginMultiEnd globalID ibtpID txInfo [] []
    | Some txInfo =>
        match ChildTxInfo txInfo !! ibtpID with
        | Some _ => mret (Error "TransactionExistentChildTxCode" [ibtpID; globalID])
        | None =>
            if decide (GlobalState txInfo ≠ BEGIN)
            then
              let txInfo := MkTransactionInfo (GlobalState txInfo) (ti_Height txInfo)
                              (<[ibtpID := GlobalState txInfo]> (ChildTxInfo txInfo)) (ChildTxCount txInfo) in
              _ ← SetObject ctx (GlobalTxInfoKey globalID) txInfo;
              beginMultiEnd globalID ibtpID txInfo [] []
            else if isFailed
            then
              let dst := (filter (λ p, p.2 = SUCCESS) (go_range (ChildTxInfo txInfo))).*1 in
              let src := (go_range (ChildTxInfo txInfo)).*1 in
              let txInfo := MkTransactionInfo BEGIN_FAILURE (ti_Height txInfo)
                              (<[ibtpID := BEGIN_FAILURE]> ((λ _, BEGIN_FAILURE) <$> ChildTxInfo txInfo))
                              (ChildTxCount txInfo) in
              _ ← removeFromTimeoutList (ti_Height txInfo) globalID;
              _ ← SetObject ctx (GlobalTxInfoKey globalID) txInfo;
              beginMultiEnd globalID ibtpID txInfo src dst
            else
              let txInfo := MkTransactionInfo (GlobalState txInfo) (ti_Height txInfo)
                              (<[ibtpID := BEGIN]> (ChildTxInfo txInfo)) (ChildTxCount txInfo) in
              _ ← SetObject ctx (GlobalTxInfoKey globalID) txInfo;
              beginMultiEnd globalID ibtpID txInfo [] []
        end
    end.

(** A new record for [txId]. *)
Definition addRecord (txId : string) (timeoutHeight : Z) (isFailed : bool) : prog Response :=
  let record := MkRecord (if isFailed then BEGIN_FAILURE else BEGIN) (timeout_at timeoutHeight) in
  match marshal record with
  | None => mret (Error "TransactionInternalErrCode" [])
  | Some recordData =>
      _ ← Add ctx (TxInfoKey txId) (Some recordData);
      respond (MkStatusChange STATUS_NONE (tr_Status record) [] [] [] false)
  end.

Definition Begin (txId : string) (timeoutHeight : Z) (isFailed : bool) : prog Response :=
  if negb tm_checkCurrentCaller then mret (Error "TransactionNoPermissionCode" [ctx_CurrentCaller ctx])
  else addRecord txId timeoutHeight isFailed.

(** The record of a transaction that exists already is not read: [record] is the zero value. *)
Definition BeginInterBitXHub (txId : string) (timeoutHeight : Z) (proof : string) (isFailed : bool) :
    prog Response :=
  if negb tm_checkCurrentCaller then mret (Error "TransactionNoPermissionCode" [ctx_CurrentCaller ctx])
  else
    ok ← Get ctx (TxInfoKey txId);
    match ok with
    | Some _ =>
        let record := MkRecord BEGIN 0 in
        match proof_TxStatus proof with
        | None => mret (Error "TransactionStateErrCode" [txId])
        | Some txStatus =>
            match setFSM (tr_Status record) (txStatus2EventM txStatus) with
            | None => mret (Error "TransactionStateErrCode" [txId; status_String (tr_Status record)])
            | Some status =>
                let record' := MkRecord status (tr_Height record) in
                match marshal record' with
                | None => mret (Error "TransactionInternalErrCode" [])
                | Some recordData =>
                    _ ← Add ctx (TxInfoKey txId) (Some recordData);
                    respond (MkStatusChange (tr_Status record) status [] [] [] false)
                end
            end
        end
    | None => addRecord txId timeoutHeight isFailed
    end.

Definition isMultiTxFinished (childStatus : TransactionStatus) (txInfo : TransactionInfo) : bool :=
  forallb (λ p, bool_decide (p.2 = childStatus)) (map_to_list (ChildTxInfo txInfo)) &&
  bool_decide (u64 (Z.of_nat (size (ChildTxInfo txInfo))) = ChildTxCount txInfo).

(** The changed record, or nothing if the receipt is refused. *)
Definition changeMultiTxStatus (globalID : string) (txInfo : TransactionInfo) (txId : string)
    (result : IBTP_Type) : prog (option TransactionInfo) :=
  if decide (GlobalState txInfo = BEGIN ∧ result = IBTP_RECEIPT_FAILURE)
  then
    let txInfo := MkTransactionInfo BEGIN_FAILURE (ti_Height txInfo)
                    (<[txId := FAILURE]> ((λ _, BEGIN_FAILURE) <$> ChildTxInfo txInfo))
                    (ChildTxCount txInfo) in
    _ ← removeFromTimeoutList (ti_Height txInfo) globalID;
    mret (Some txInfo)
  else
    match setFSM (default BEGIN (ChildTxInfo txInfo !! txId)) (receipt2EventM result) with
    | None => mret None
    | Some status =>
        let txInfo := MkTransactionInfo (GlobalState txInfo) (ti_Height txInfo)
                        (<[txId := status]> (ChildTxInfo txInfo)) (ChildTxCount txInfo) in
        if isMultiTxFinished status txInfo
        then
          match setFSM (GlobalState txInfo) (receipt2EventM result) with
          | None => mret None
          | Some global =>
              _ ← removeFromTimeoutList (ti_Height txInfo) globalID;
              mret (Some (MkTransactionInfo global (ti_Height txInfo) (ChildTxInfo txInfo) (ChildTxCount txInfo)))
          end
        else mret (Some txInfo)
    end.

(** The change that [Report] returns for a child. *)
Definition reportChange (txId : string) (prev : TransactionStatus) (txInfo : TransactionInfo) : StatusChange :=
  let others := filter (λ p, p.1 ≠ txId) (go_range (ChildTxInfo txInfo)) in
  let failed := bool_decide (prev = BEGIN ∧ GlobalState txInfo = BEGIN_FAILURE) in
  MkStatusChange prev (GlobalState txInfo) (sort_Strings (go_keys (ChildTxInfo txInfo)))
    others.*1
    (if failed then (filter (λ p, p.2 = SUCCESS) others).*1 else [])
    (failed && bool_decide (others ≠ [])).

Definition reportRecord (txId : string) (recordData : string) (result : IBTP_Type) : prog Response :=
  match unmarshal recordData with
  | None => mret (Error "TransactionInternalErrCode" [])
  | Some record =>
      match setFSM (tr_Status record) (receipt2EventM result) with
      | None => mret (Error "TransactionStateErrCode" [txId; status_String (tr_Status record)])
      | Some status =>
          match marshal (MkRecord status (tr_Height record)) with
          | None => mret (Error "TransactionInternalErrCode" [])
          | Some data =>
              _ ← Set_ ctx (TxInfoKey txId) (Some data);
              respond (MkStatusChange (tr_Status record) status [] [] [] false)
          end
      end
  end.

Definition reportChild (txId globalId : string) (result : IBTP_Type) : prog Response :=
  txInfo ← GetObject ctx (GlobalTxInfoKey globalId);
  match txInfo with
  | None => mret (Error "TransactionNonexistentGlobalTxCode" [globalId; txId])
  | Some txInfo =>
      match ChildTxInfo txInfo !! txId with
      | None => mret (Error "TransactionInternalErrCode" [txId; globalId])
      | Some _ =>
          txInfo' ← changeMultiTxStatus globalId txInfo txId result;
          match txInfo' with
          | None => mret (Error "TransactionStateErrCode" [txId])
          | Some txInfo' =>
              let change := reportChange txId (GlobalState txInfo) txInfo' in
              _ ← SetObject ctx (GlobalTxInfoKey globalId) txInfo';
              respond change
          end
      end
  end.

Definition Report (txId : string) (result : IBTP_Type) : prog Response :=
  if negb tm_checkCurrentCaller then mret (Error "TransactionNoPermissionCode" [ctx_CurrentCaller ctx])
  else
    recordData ← Get ctx (TxInfoKey txId);
    match recordData with
    | Some recordData => reportRecord txId recordData result
    | None =>
        val ← Get ctx txId;
        match val with
        | None => mret (Error "TransactionNonexistentTxCode" [txId])
        | Some globalId => reportChild txId globalId result
        end
    end.

Definition GetStatus (txId : string) : prog Response :=
  recordData ← Get ctx (TxInfoKey txId);
  match recordData with
  | Some recordData =>
      match unmarshal recordData with
      | None => mret (Error "TransactionInternalErrCode" [])
      | Some record => mret (Success (Some (fmt_d (status_number (tr_Status record)))))
      end
  | None =>
      txInfo ← GetObject ctx (GlobalTxInfoKey txId);
      match txInfo with
      | Some txInfo => mret (Success (Some (fmt_d (status_number (GlobalState txInfo)))))
      | None =>
          val ← Get ctx txId;
          match val with
          | None => mret (Error "TransactionNonexistentGlobalIdCode" [txId])
          | Some globalId =>
              txInfo ← GetObject ctx (GlobalTxInfoKey globalId);
              match txInfo with
              | None => mret (Error "TransactionNonexistentGlobalTxCode" [globalId; txId])
              | Some txInfo => mret (Success (Some (fmt_d (status_number (GlobalState txInfo)))))
              end
          end
      end
  end.
End methods.
End contract.
