(* ===== verification/TransactionManagerProps.v ===== *)
(** * Lemmas about cross-chain transactions

The state machine as a table, removal from a slice, and what the methods of the
contract do to the abstract state. *)
From S2P Require Import Prelude Storage Account StateLedger Contract TransactionManager.

(** ** The state machine *)

(** The status after a receipt. *)
Definition next_status (s : TransactionStatus) (r : IBTP_Type) : option TransactionStatus :=
  match r, s with
  | IBTP_RECEIPT_SUCCESS, BEGIN => Some SUCCESS
  | IBTP_RECEIPT_FAILURE, (BEGIN | BEGIN_FAILURE) => Some FAILURE
  | IBTP_RECEIPT_FAILURE, BEGIN_ROLLBACK => Some ROLLBACK
  | IBTP_RECEIPT_ROLLBACK, BEGIN_ROLLBACK => Some ROLLBACK
  | _, _ => None
  end.

(** The status after the proof of the other relay chain has been seen. *)
Definition dst_status (s : TransactionStatus) : option TransactionStatus :=
  match s with
  | BEGIN_FAILURE => Some FAILURE
  | BEGIN_ROLLBACK => Some ROLLBACK
  | _ => None
  end.

Definition is_final (s : TransactionStatus) : Prop := s = SUCCESS ∨ s = FAILURE ∨ s = ROLLBACK.

Lemma fsm_step `{FsmLib} evs cur ev r :
  match filter (desc_matches cur ev) evs with
  | [] => r = None
  | [d] => ed_Dst d ≠ cur ∧ r = Some (ed_Dst d)
  | _ => False
  end → fsm_Event evs cur ev = r.
Proof.
  destruct (filter (desc_matches cur ev) evs) as [|d [|??]] eqn:E; [|intros [? ->]|done].
  - intros ->. by apply fsm_Event_err.
  - by apply fsm_Event_ok.
Qed.

Lemma setFSM_receipt `{FsmLib} s r : setFSM s (receipt2EventM r) = next_status s r.
Proof.
  unfold setFSM.
  destruct s, r; simpl; (erewrite fsm_step by (vm_compute; first [done|split; [discriminate|done]]); done).
Qed.

Lemma setFSM_dst `{FsmLib} s : setFSM BEGIN (txStatus2EventM s) = dst_status s.
Proof.
  unfold setFSM.
  destruct s; simpl; (erewrite fsm_step by (vm_compute; first [done|split; [discriminate|done]]); done).
Qed.

(** ** Removal while ranging *)

Lemma range_remove_skip x arr m i n :
  (∀ j, i ≤ j < i + n → arr !! j ≠ Some x) →
  foldl (range_remove_step x) (Some (arr, m)) (seq i n) = Some (arr, m).
Proof.
  revert i. induction n as [|n IH]; intros i Hno; [done|]. cbn [seq foldl]. unfold range_remove_step at 2. simpl.
  rewrite decide_False by (apply Hno; lia). apply IH. intros j Hj. apply Hno. lia.
Qed.

(** Something that occurs at most once is removed; the rest stays in order. *)
Lemma range_remove_once x l1 l2 :
  x ∉ l1 → x ∉ l2 → range_remove x (l1 ++ x :: l2) = Some (l1 ++ l2).
Proof.
  intros H1 H2. unfold range_remove. set (l := l1 ++ x :: l2).
  assert (length l = length l1 + (1 + length l2)) as Hlen by (subst l; rewrite length_app; simpl; lia).
  rewrite Hlen at 2. rewrite seq_app, foldl_app. rewrite range_remove_skip.
  2:{ intros j Hj. subst l. rewrite lookup_app_l by lia. intros Hx. apply H1. by eapply list_elem_of_lookup_2. }
  cbn [seq foldl Nat.add]. unfold range_remove_step at 2. simpl.
  rewrite decide_True by (subst l; by apply list_lookup_middle). rewrite decide_True by lia.
  assert (take (length l1) l = l1) as -> by (subst l; by rewrite take_app_length).
  assert (drop (length l1 + 1) l = l2) as ->.
  { subst l. rewrite drop_app_add. done. }
  rewrite (take_ge l2) by lia. set (arr := l1 ++ l2 ++ _).
  rewrite range_remove_skip.
  - simpl. subst arr. rewrite (assoc_L (++)), take_app_le by (rewrite length_app; lia).
    by rewrite take_ge by (rewrite length_app; lia).
  - intros j Hj. subst arr. rewrite lookup_app_r by lia. intros Hx.
    apply list_elem_of_lookup_2, elem_of_app in Hx as [Hx|Hx]; [done|].
    destruct l2 as [|y l2 _] using rev_ind; [simpl in Hj; lia|].
    assert (l = (l1 ++ x :: l2) ++ [y]) as El by (subst l; by rewrite <-(assoc_L (++))).
    rewrite El, length_app, Nat.add_sub, drop_app_length in Hx. set_solver.
Qed.

Lemma range_remove_absent x l : x ∉ l → range_remove x l = Some l.
Proof.
  intros Hx. unfold range_remove. rewrite range_remove_skip.
  - simpl. by rewrite take_ge.
  - intros j _ Hj. apply Hx. by eapply list_elem_of_lookup_2.
Qed.

Lemma range_remove_NoDup x l : NoDup l → range_remove x l = Some (filter (.≠ x) l).
Proof.
  intros Hnd. destruct (decide (x ∈ l)) as [Hx|Hx].
  - apply list_elem_of_split in Hx as (l1 & l2 & ->).
    apply NoDup_app in Hnd as (_ & Hdis & [Hx2 _]%NoDup_cons).
    assert (x ∉ l1) as Hx1 by (intros ?; apply (Hdis x); set_solver).
    rewrite range_remove_once by done. f_equal.
    rewrite filter_app, filter_cons_False by naive_solver.
    f_equal; symmetry; apply filter_keep; set_solver.
  - rewrite range_remove_absent by done. f_equal. symmetry. apply filter_keep. set_solver.
Qed.

(** ** The contract on the abstract state *)

Section tm.
Context `{TxPbLib, ConstantLib, FsmLib, GoRange}.
Implicit Types (w : world) (t : TransactionInfo).

Definition tm_record w (id : string) : option TransactionRecord :=
  d ← w_state w TransactionMgrContractAddr (TxInfoKey id); unmarshal d.

Definition tm_info w (gid : string) : option TransactionInfo :=
  d ← w_state w TransactionMgrContractAddr (GlobalTxInfoKey gid); unmarshal d.

Definition tm_timeouts w (height : Z) : option string :=
  w_state w TransactionMgrContractAddr (TimeoutKey height).

(** The keys do not meet. *)
Lemma TxInfoKey_inj a b : TxInfoKey a = TxInfoKey b → a = b.
Proof. by intros [=]. Qed.

Lemma GlobalTxInfoKey_inj a b : GlobalTxInfoKey a = GlobalTxInfoKey b → a = b.
Proof. by intros [=]. Qed.

Lemma TimeoutKey_inj a b : TimeoutKey a = TimeoutKey b → a = b.
Proof. intros [= ?]. by apply fmt_d_inj. Qed.

(** An id that is none of the other keys of the contract. *)
Definition plain_id (id : string) : Prop :=
  (∀ x, id ≠ TxInfoKey x) ∧ (∀ x, id ≠ GlobalTxInfoKey x) ∧ ∀ h, id ≠ TimeoutKey h.

(** ** One-to-many transactions

The statuses of the children agree with the status of the whole. *)
Definition child_ok (global child : TransactionStatus) : Prop :=
  match global with
  | BEGIN => child = BEGIN ∨ child = SUCCESS
  | BEGIN_FAILURE => child = BEGIN_FAILURE ∨ child = FAILURE
  | BEGIN_ROLLBACK => child = BEGIN_ROLLBACK ∨ child = ROLLBACK
  | SUCCESS => child = SUCCESS
  | FAILURE => child = FAILURE
  | ROLLBACK => child = ROLLBACK
  | STATUS_NONE => False
  end.

Record info_ok t : Prop := {
  io_child id s : ChildTxInfo t !! id = Some s → child_ok (GlobalState t) s;
  io_some : ChildTxInfo t ≠ ∅;
  io_ascii : Forall is_ascii (TransactionInfo_text t) }.

Definition tm_inv w : Prop := ∀ gid t, tm_info w gid = Some t → info_ok t.

Lemma text_ascii t : Forall is_ascii (TransactionInfo_text t) ↔ ∀ id s, ChildTxInfo t !! id = Some s → is_ascii id.
Proof.
  unfold TransactionInfo_text. rewrite Forall_fmap, Forall_forall. split.
  - intros Hall id s Hs. apply (Hall (id, s)). by apply elem_of_map_to_list.
  - intros Hall [id s] Hin%elem_of_map_to_list. by eapply Hall.
Qed.

(** Writing anything but a global record, or a global record that is all right. *)
Lemma tm_inv_other w a k v :
  tm_inv w → (∀ g, k ≠ GlobalTxInfoKey g) → tm_inv (w_setState w a k v).
Proof.
  intros Hinv Hk gid t. unfold tm_info. simpl. rewrite upd2_ne by (right; by apply not_eq_sym).
  apply Hinv.
Qed.

Lemma tm_inv_info w a gid t d :
  tm_inv w → marshal t = Some d → info_ok t → tm_inv (w_setState w a (GlobalTxInfoKey gid) (Some d)).
Proof.
  intros Hinv Hd Hok g t'. unfold tm_info. simpl. destruct (decide (a = TransactionMgrContractAddr ∧ g = gid)) as [[-> ->]|Hne].
  - rewrite upd2_eq. simpl. rewrite (json_ok t d) by (done || apply Hok). by intros [= <-].
  - rewrite upd2_ne; [apply Hinv|].
    destruct (decide (a = TransactionMgrContractAddr)); [|naive_solver]. right. intros ?%GlobalTxInfoKey_inj. naive_solver.
Qed.

Section methods.
Context (ctx : Context) (Hcallee : ctx_Callee ctx = TransactionMgrContractAddr).

Lemma addToTimeoutList_inv w h g : tm_inv w → tm_inv (exec (addToTimeoutList ctx h g) w).2.
Proof. intros. by apply tm_inv_other. Qed.

Lemma exec_addToTimeoutList w h g :
  exec (addToTimeoutList ctx h g) w =
  (Some tt, w_setState w (ctx_Callee ctx) (TimeoutKey h)
     (Some match w_state w (ctx_Callee ctx) (TimeoutKey h) with None => g | Some v => v +:+ "," +:+ g end)).
Proof. done. Qed.

(** Nothing but the list changes, and nothing at all if the removal panics. *)
Lemma exec_removeFromTimeoutList w h g :
  ∃ r w', exec (removeFromTimeoutList ctx h g) w = (r, w') ∧
    (w' = w ∨ ∃ v, r = Some tt ∧ w' = w_setState w (ctx_Callee ctx) (TimeoutKey h) v).
Proof.
  unfold removeFromTimeoutList. rewrite exec_bind, exec_Get.
  destruct (w_state w (ctx_Callee ctx) (TimeoutKey h)) as [s|]; [|by eauto].
  destruct (range_remove g (str_split comma s)); [|by eauto]. eauto 10.
Qed.

Lemma removeFromTimeoutList_inv w h g : tm_inv w → tm_inv (exec (removeFromTimeoutList ctx h g) w).2.
Proof.
  intros Hinv. destruct (exec_removeFromTimeoutList w h g) as (r & w' & -> & [->|(v & _ & ->)]); [done|].
  by apply tm_inv_other.
Qed.

Lemma exec_respond w c : (exec (respond c) w).2 = w.
Proof. done. Qed.

Lemma beginMultiEnd_inv w gid id t src dst :
  plain_id id → tm_inv w → tm_inv (exec (beginMultiEnd ctx gid id t src dst) w).2.
Proof.
  intros (_ & Hp & _) Hinv. unfold beginMultiEnd. rewrite exec_bind, exec_Set. simpl. by apply tm_inv_other.
Qed.

Lemma newTxInfo_ok id th f c : is_ascii id → info_ok (newTxInfo ctx id th f c).
Proof.
  intros Ha. unfold newTxInfo. destruct f; (split; simpl; [|apply insert_non_empty|]).
  - intros id' s [<- <-]%lookup_singleton_Some. by left.
  - apply text_ascii. simpl. by intros id' s [<- <-]%lookup_singleton_Some.
  - intros id' s [<- <-]%lookup_singleton_Some. by left.
  - apply text_ascii. simpl. by intros id' s [<- <-]%lookup_singleton_Some.
Qed.

(** A child added to a record whose children all are [f] of what they were. *)
Lemma info_ok_insert t id s (f : TransactionStatus → TransactionStatus) g h c :
  info_ok t → is_ascii id → child_ok g s → (∀ s', child_ok (GlobalState t) s' → child_ok g (f s')) →
  info_ok (MkTransactionInfo g h (<[id := s]> (f <$> ChildTxInfo t)) c).
Proof.
  intros [Hc Hn Ha] Hid Hs Hf. split; simpl; [|apply insert_non_empty|].
  - intros id' s' [[<- <-]|[_ Hs']]%lookup_insert_Some; [done|].
    rewrite lookup_fmap, fmap_Some in Hs'. destruct Hs' as (s0 & Hs0 & ->). by eapply Hf, Hc.
  - apply text_ascii. simpl. intros id' s' [[<- <-]|[_ Hs']]%lookup_insert_Some; [done|].
    rewrite lookup_fmap, fmap_Some in Hs'. destruct Hs' as (s0 & Hs0 & ->). rewrite text_ascii in Ha. by eapply Ha.
Qed.

Lemma info_ok_add t id s :
  info_ok t → is_ascii id → child_ok (GlobalState t) s →
  info_ok (MkTransactionInfo (GlobalState t) (ti_Height t) (<[id := s]> (ChildTxInfo t)) (ChildTxCount t)).
Proof.
  intros Hok Ha Hs. pose proof (info_ok_insert t id s (λ x, x) (GlobalState t) (ti_Height t) (ChildTxCount t) Hok Ha Hs) as Hi.
  rewrite map_fmap_id in Hi. by apply Hi.
Qed.

Lemma set_info_inv {B} w gid t (k : prog B) :
  tm_inv w → info_ok t → (∀ w', tm_inv w' → tm_inv (exec k w').2) →
  tm_inv (exec (_ ← SetObject ctx (GlobalTxInfoKey gid) t; k) w).2.
Proof.
  intros Hinv Hok Hk. destruct (json_marshals t) as [d Hd]. rewrite exec_bind, (exec_SetObject _ _ _ d) by done.
  by eapply Hk, tm_inv_info.
Qed.

Lemma BeginMultiTXs_inv w gid id th f c :
  tm_inv w → is_ascii id → plain_id id → tm_inv (exec (BeginMultiTXs ctx gid id th f c) w).2.
Proof.
  intros Hinv Ha Hp. unfold BeginMultiTXs. destruct (negb _); [done|].
  rewrite exec_bind, exec_GetObject, Hcallee. fold (tm_info w gid).
  destruct (tm_info w gid) as [t|] eqn:Et.
  - destruct (ChildTxInfo t !! id); [done|]. pose proof (Hinv _ _ Et) as Hok.
    destruct (decide (GlobalState t ≠ BEGIN)) as [Hne|Hb%dec_stable]; [|destruct f].
    + apply set_info_inv; [done| |by intros; apply beginMultiEnd_inv].
      apply info_ok_add; [done|done|]. destruct (GlobalState t) eqn:Eg; simpl; auto.
      destruct (map_choose _ (io_some _ Hok)) as (i & x & Hx). pose proof (io_child _ Hok _ _ Hx) as Hx'.
      by rewrite Eg in Hx'.
    + rewrite exec_bind. cbn [ti_Height]. destruct (exec_removeFromTimeoutList w (ti_Height t) gid) as (r & w' & -> & Hw').
      assert (tm_inv w') as Hinv'.
      { destruct Hw' as [->|(v & _ & ->)]; [done|by apply tm_inv_other]. }
      destruct r as [[]|]; [|done]. apply set_info_inv; [done| |by intros; apply beginMultiEnd_inv].
      apply info_ok_insert; [done|done|by left|by left].
    + apply set_info_inv; [done| |by intros; apply beginMultiEnd_inv].
      apply info_ok_add; [done|done|]. rewrite Hb. by left.
  - rewrite exec_bind. destruct (json_marshals (newTxInfo ctx id th f c)) as [d Hd].
    assert (∀ w', tm_inv w' → tm_inv (exec (_ ← AddObject ctx (GlobalTxInfoKey gid) (newTxInfo ctx id th f c);
              beginMultiEnd ctx gid id (newTxInfo ctx id th f c) [] []) w').2) as Hrest.
    { intros w' Hinv'. rewrite exec_bind, (exec_AddObject _ _ _ d) by done.
      apply beginMultiEnd_inv; [done|]. eapply tm_inv_info; [done|done|by apply newTxInfo_ok]. }
    destruct f; [by apply Hrest|]. rewrite exec_addToTimeoutList. apply Hrest. by apply tm_inv_other.
Qed.

(** ** Receipts *)

(** What a receipt makes of the record of a one-to-many transaction. *)
Definition report_step t (txId : string) (r : IBTP_Type) : option TransactionInfo :=
  if decide (GlobalState t = BEGIN ∧ r = IBTP_RECEIPT_FAILURE)
  then Some (MkTransactionInfo BEGIN_FAILURE (ti_Height t)
               (<[txId := FAILURE]> ((λ _, BEGIN_FAILURE) <$> ChildTxInfo t)) (ChildTxCount t))
  else
    s ← next_status (default BEGIN (ChildTxInfo t !! txId)) r;
    let t' := MkTransactionInfo (GlobalState t) (ti_Height t) (<[txId := s]> (ChildTxInfo t)) (ChildTxCount t) in
    if isMultiTxFinished s t'
    then g ← next_status (GlobalState t) r;
         Some (MkTransactionInfo g (ti_Height t) (ChildTxInfo t') (ChildTxCount t))
    else Some t'.

Lemma exec_changeMultiTxStatus w gid t txId r :
  match report_step t txId r with
  | None => exec (changeMultiTxStatus ctx gid t txId r) w = (Some None, w)
  | Some t' =>
      exec (changeMultiTxStatus ctx gid t txId r) w = (Some (Some t'), w) ∧ GlobalState t' = GlobalState t ∨
      exec (changeMultiTxStatus ctx gid t txId r) w =
        (let '(res, w') := exec (removeFromTimeoutList ctx (ti_Height t) gid) w in
         (match res with Some _ => Some (Some t') | None => None end, w'))
  end.
Proof.
  unfold report_step, changeMultiTxStatus.
  destruct (decide (GlobalState t = BEGIN ∧ r = IBTP_RECEIPT_FAILURE)).
  { right. rewrite exec_bind. cbn [ti_Height]. by destruct (exec (removeFromTimeoutList ctx (ti_Height t) gid) w) as [[|] ?]. }
  rewrite setFSM_receipt. destruct (next_status (default BEGIN (ChildTxInfo t !! txId)) r) as [s|]; [|done].
  cbn [mbind option_bind]. destruct (isMultiTxFinished _ _); [|by left]. rewrite setFSM_receipt.
  cbn [GlobalState]. destruct (next_status (GlobalState t) r) as [g|]; [|done]. right.
  rewrite exec_bind. cbn [ti_Height]. by destruct (exec (removeFromTimeoutList ctx (ti_Height t) gid) w) as [[|] ?].
Qed.

Lemma isMultiTxFinished_all s t : isMultiTxFinished s t = true → ∀ id s', ChildTxInfo t !! id = Some s' → s' = s.
Proof.
  unfold isMultiTxFinished. intros [Hall _]%andb_true_iff id s' Hs'.
  rewrite forallb_forall in Hall. specialize (Hall (id, s')). apply bool_decide_eq_true in Hall; [done|].
  by apply list_elem_of_In, elem_of_map_to_list.
Qed.

(** A receipt for a child keeps the statuses together. *)
Lemma report_step_ok t txId r t' :
  info_ok t → is_Some (ChildTxInfo t !! txId) → report_step t txId r = Some t' → info_ok t'.
Proof.
  intros Hok [s0 Hs0]. pose proof (io_child _ Hok _ _ Hs0) as Hc0. unfold report_step. rewrite Hs0. simpl.
  assert (is_ascii txId) as Ha by (pose proof (io_ascii _ Hok) as Ha; rewrite text_ascii in Ha; by eapply Ha).
  destruct (decide (GlobalState t = BEGIN ∧ r = IBTP_RECEIPT_FAILURE)) as [[Hb ->]|Hnb].
  { intros [= <-]. apply info_ok_insert; [done|done|by right|by left]. }
  destruct (next_status s0 r) as [s|] eqn:Es; [|done]. simpl.
  assert (child_ok (GlobalState t) s) as Hcs.
  { destruct (GlobalState t), s0, r; simpl in *; try done; destruct_or?; try done; simplify_eq; naive_solver. }
  pose proof (info_ok_add t txId s Hok Ha Hcs) as Hadd.
  destruct (isMultiTxFinished s _) eqn:Ef; [|by intros [= <-]].
  destruct (next_status (GlobalState t) r) as [g|] eqn:Eg; [|done]. simpl. intros [= <-].
  assert (child_ok g s) as Hgs.
  { destruct (GlobalState t), s0, r; simpl in *; try done; destruct_or?; try done; simplify_eq; naive_solver. }
  destruct Hadd as [Hc Hn Hasc]. split; [|done|done].
  intros id s' Hs'. by rewrite (isMultiTxFinished_all _ _ Ef id s' Hs').
Qed.

Lemma Report_inv w txId r : tm_inv w → tm_inv (exec (Report ctx txId r) w).2.
Proof.
  intros Hinv. unfold Report. destruct (negb _); [done|]. rewrite exec_bind, exec_Get.
  destruct (w_state w (ctx_Callee ctx) (TxInfoKey txId)) as [d|] eqn:Ed.
  - unfold reportRecord. destruct (unmarshal d) as [record|]; [|done].
    destruct (setFSM _ _) as [s|]; [|done]. destruct (marshal (MkRecord s _)); [|done].
    rewrite exec_bind, exec_Set. by apply tm_inv_other.
  - rewrite exec_bind, exec_Get. destruct (w_state w (ctx_Callee ctx) txId) as [gid|]; [|done].
    unfold reportChild. rewrite exec_bind, exec_GetObject, Hcallee. fold (tm_info w gid).
    destruct (tm_info w gid) as [t|] eqn:Et; [|done]. destruct (ChildTxInfo t !! txId) eqn:Ec; [|done].
    pose proof (exec_changeMultiTxStatus w gid t txId r) as Hch. rewrite exec_bind.
    destruct (report_step t txId r) as [t'|] eqn:Er; [|by rewrite Hch].
    assert (info_ok t') as Hok' by (eapply report_step_ok; [by eapply Hinv|by eexists|done]).
    destruct Hch as [[-> _]| ->]; [by apply set_info_inv|].
    destruct (exec_removeFromTimeoutList w (ti_Height t) gid) as (res & w' & -> & Hw').
    assert (tm_inv w') as Hinv' by (destruct Hw' as [->|(v & _ & ->)]; [done|by apply tm_inv_other]).
    destruct res; [by apply set_info_inv|done].
Qed.

Lemma addRecord_inv w txId th f : tm_inv w → tm_inv (exec (addRecord ctx txId th f) w).2.
Proof.
  intros Hinv. unfold addRecord. destruct (marshal (MkRecord _ _)); [|done].
  rewrite exec_bind, exec_Add. by apply tm_inv_other.
Qed.

Lemma Begin_inv w txId th f : tm_inv w → tm_inv (exec (Begin ctx txId th f) w).2.
Proof. intros Hinv. unfold Begin. destruct (negb _); [done|]. by apply addRecord_inv. Qed.

Lemma BeginInterBitXHub_inv w txId th proof f : tm_inv w → tm_inv (exec (BeginInterBitXHub ctx txId th proof f) w).2.
Proof.
  intros Hinv. unfold BeginInterBitXHub. destruct (negb _); [done|]. rewrite exec_bind, exec_Get.
  destruct (w_state w (ctx_Callee ctx) (TxInfoKey txId)) as [old|]; [|by apply addRecord_inv].
  destruct (proof_TxStatus proof) as [ps|]; [|done]. destruct (setFSM _ _) as [s|]; [|done].
  destruct (marshal (MkRecord s _)); [|done]. rewrite exec_bind, exec_Add. by apply tm_inv_other.
Qed.

(** ** Single transactions *)

Section single.
Context (Hcaller : ctx_CurrentCaller ctx = InterchainContractAddr).

Lemma caller_ok : tm_checkCurrentCaller ctx = true.
Proof. unfold tm_checkCurrentCaller. by rewrite bool_decide_true. Qed.

Lemma tm_record_data w id r :
  tm_record w id = Some r →
  ∃ d, w_state w TransactionMgrContractAddr (TxInfoKey id) = Some d ∧ unmarshal d = Some r.
Proof. unfold tm_record. destruct (w_state _ _ _) as [d|]; [|done]. eauto. Qed.

Lemma tm_record_set w id r d :
  marshal r = Some d → tm_record (w_setState w TransactionMgrContractAddr (TxInfoKey id) (Some d)) id = Some r.
Proof. intros Hd. unfold tm_record. simpl. rewrite upd2_eq. simpl. by apply marshal_unmarshal. Qed.

Lemma tm_record_set_ne w id id' v :
  id' ≠ id → tm_record (w_setState w TransactionMgrContractAddr (TxInfoKey id) v) id' = tm_record w id'.
Proof. intros Hne. unfold tm_record. simpl. rewrite upd2_ne; [done|]. right. by intros ?%TxInfoKey_inj. Qed.

(** A receipt for a single transaction: the state machine decides; on success the new status is
stored and reported, on refusal nothing changes. *)
Lemma Report_record w txId rec r :
  tm_record w txId = Some rec →
  match next_status (tr_Status rec) r with
  | Some s => ∃ d w', exec (Report ctx txId r) w = (Some (Success (Some d)), w') ∧
      marshal (MkStatusChange (tr_Status rec) s [] [] [] false) = Some d ∧
      tm_record w' txId = Some (MkRecord s (tr_Height rec)) ∧
      (∀ a k, a ≠ TransactionMgrContractAddr ∨ k ≠ TxInfoKey txId → w_state w' a k = w_state w a k)
  | None => ∃ code args, exec (Report ctx txId r) w = (Some (Error code args), w)
  end.
Proof.
  intros (data & Hdata & Hu)%tm_record_data. unfold Report. rewrite caller_ok. simpl negb. cbv iota.
  rewrite exec_bind, exec_Get, Hcallee, Hdata. unfold reportRecord. rewrite Hu, setFSM_receipt.
  destruct (next_status (tr_Status rec) r) as [s|]; [|by eauto].
  destruct (codec_ok (MkRecord s (tr_Height rec))) as (d & Hd & _). rewrite Hd, exec_bind, exec_Set, Hcallee.
  destruct (codec_ok (MkStatusChange (tr_Status rec) s [] [] [] false)) as (dc & Hdc & _).
  unfold respond. rewrite Hdc. exists dc. eexists. split; [done|]. split_and!; [done|by apply tm_record_set|].
  intros a k Hak. by apply upd2_ne.
Qed.

(** Opening a transaction stores a record, whatever was there before. *)
Lemma Begin_record w txId th (f : bool) :
  let rc := MkRecord (if f then BEGIN_FAILURE else BEGIN) (timeout_at ctx th) in
  ∃ d w', exec (Begin ctx txId th f) w = (Some (Success (Some d)), w') ∧
    marshal (MkStatusChange STATUS_NONE (tr_Status rc) [] [] [] false) = Some d ∧
    tm_record w' txId = Some rc ∧
    (∀ a k, a ≠ TransactionMgrContractAddr ∨ k ≠ TxInfoKey txId → w_state w' a k = w_state w a k).
Proof.
  intros rc. unfold Begin. rewrite caller_ok. unfold addRecord. fold rc.
  destruct (codec_ok rc) as (d & Hd & _). simpl negb. cbv iota zeta. rewrite Hd, exec_bind, exec_Add, Hcallee.
  destruct (codec_ok (MkStatusChange STATUS_NONE (tr_Status rc) [] [] [] false)) as (dc & Hdc & _).
  unfold respond. rewrite Hdc. exists dc. eexists. split; [done|]. split_and!; [done|by apply tm_record_set|].
  intros a k Hak. by apply upd2_ne.
Qed.
End single.
End methods.
End tm.
