(* ===== verification/Interchain.v ===== *)
(** * Cross-chain messages: [src/internal/executor/contracts/interchain.go]

An IBTP asks for a call of a service on another chain, or is the receipt of such a call.
The contract checks it, lets the transaction manager open or advance the transaction,
notifies the chains, and keeps the counters of requests and receipts per pair of services.

What the contract uses of other contracts is the class [PeerContracts]; the message
library is [PbLib]. *)
From Stdlib Require Import Ascii.
From S2P Require Import Prelude Storage Account StateLedger Contract TransactionManager.

(** ** Messages *)

Inductive IBTP_Category := IBTP_REQUEST | IBTP_RESPONSE | IBTP_UNKNOWN.

Global Instance IBTP_Category_eq_dec : EqDecision IBTP_Category.
Proof. solve_decision. Defined.

Record StringUint64Map := MkGroup { g_Keys : list string; g_Vals : list Z }.

Record IBTP := MkIBTP {
  ib_From : string; ib_To : string; ib_Index : Z; ib_Type : IBTP_Type;
  ib_TimeoutHeight : Z; ib_Group : option StringUint64Map; ib_Extra : string; ib_Payload : string;
  ib_Proof : option string }.

Record Interchain := MkInterchain {
  ic_ID : string;
  InterchainCounter : gmap string Z;
  ReceiptCounter : gmap string Z;
  SourceInterchainCounter : gmap string Z;
  SourceReceiptCounter : gmap string Z }.

(** [service_mgr.Service]: the field and the methods that are used. *)
Class ServiceLib := {
  Service : Type;
  sv_Ordered : Service → bool;
  sv_Status : Service → string;
  sv_IsAvailable : Service → bool;
  CheckPermission : Service → string → bool;
  service_encoding :: Encoding Service
}.

Record EventWrapper := MkEventWrapper { ew_Index : Z; ew_IsBatch : bool }.

(** [types.Hash] *)
Record Hash := MkHash { hash_Bytes : string }.

Record ChainService := MkChainService { cs_BxhId : string; cs_ChainId : string; cs_ServiceId : string; cs_IsLocal : bool }.

Class PbLib := {
  Category : IBTP → IBTP_Category;
  Category_request i : Category i = IBTP_REQUEST ↔ ib_Type i = IBTP_INTERCHAIN;
  Category_response i :
    ib_Type i ∈ [IBTP_RECEIPT_SUCCESS; IBTP_RECEIPT_FAILURE; IBTP_RECEIPT_ROLLBACK] → Category i = IBTP_RESPONSE;
  (** [ID], [ParseFrom], [ParseTo], [ParseIBTPID], [ParseFullServiceID]; an error is [None] *)
  ParseFullServiceID : string → option (string * string * string);
  ParseFullServiceID_ok a b c :
    str_contains colon a = false → str_contains colon b = false → str_contains colon c = false →
    ParseFullServiceID (str_join colon [a; b; c]) = Some (a, b, c);
  ParseIBTPID : string → option (string * string * Z);
  IsFinalStatus : TransactionStatus → bool;
  IsFinalStatus_spec s : IsFinalStatus s = true ↔ s = SUCCESS ∨ s = FAILURE ∨ s = ROLLBACK;
  NotifyFlags : StatusChange → bool * bool;
  HashString : string → string;
  Event_INTERCHAIN : Z;
  Event_AUDIT_INTERCHAIN : Z;
  ibtp_codec :: Codec IBTP;
  interchain_codec :: Codec Interchain;
  group_encoding :: Encoding (gmap string Z);
  hash_encoding :: Encoding Hash;
  events_encoding :: Encoding (gmap string EventWrapper);
  audit_encoding :: Encoding AuditRelatedObjInfo;
  notify_encoding :: Encoding (gmap string (list string));
  (** decoding a JSON string *)
  json_string : string → option string
}.

(** The methods of other contracts. They belong to other addresses and do not write the state
of this contract and of the transaction manager. *)
Definition leaves_alone (addrs : list string) (m : Context → prog Response) : Prop :=
  ∀ ctx, ctx_Callee ctx ∉ addrs → writes_only (λ a _, a ∉ addrs) (m ctx).

Class PeerContracts `{ConstantLib} := {
  ServiceMgr_GetServiceInfo : string → Context → prog Response;
  ServiceMgr_RecordInvokeService : string → string → bool → Context → prog Response;
  AppchainMgr_IsAvailableBitxhub : string → Context → prog Response;
  InterBroker_InvokeInterchain : option string → Context → prog Response;
  InterBroker_InvokeReceipt : option string → Context → prog Response;
  GetServiceInfo_alone id :
    leaves_alone [InterchainContractAddr; TransactionMgrContractAddr] (ServiceMgr_GetServiceInfo id);
  RecordInvokeService_alone to from r :
    leaves_alone [InterchainContractAddr; TransactionMgrContractAddr] (ServiceMgr_RecordInvokeService to from r);
  IsAvailableBitxhub_alone id :
    leaves_alone [InterchainContractAddr; TransactionMgrContractAddr] (AppchainMgr_IsAvailableBitxhub id)
}.

(** ** Keys *)

Definition BitXHubID : string := "bitxhub-id".
Definition DEFAULT_UNION_PIER_ID : string := "default_union_pier_id".
Definition INTERCHAINSERVICE_PREFIX : string := "service".
Definition MULTITX_PREFIX : string := "multitx".

Definition serviceKey (id : string) : string := INTERCHAINSERVICE_PREFIX +:+ "-" +:+ id.
Definition IndexMapKey (id : string) : string := "index-tx-" +:+ id.
Definition IndexReceiptMapKey (id : string) : string := "index-receipt-tx-" +:+ id.
Definition MultiTxNotifyKey (height : Z) : string := MULTITX_PREFIX +:+ "-" +:+ fmt_d height.
Definition getIBTPID (from to : string) (index : Z) : string := from +:+ "-" +:+ to +:+ "-" +:+ fmt_d index.

Definition getFullServiceId (cs : ChainService) : string :=
  cs_BxhId cs +:+ ":" +:+ cs_ChainId cs +:+ ":" +:+ cs_ServiceId cs.
Definition getChainServiceId (cs : ChainService) : string := cs_ChainId cs +:+ ":" +:+ cs_ServiceId cs.

Definition checkIndex (exp cur : Z) : option BxhError :=
  if decide (cur < exp)%Z then Some (MkBxhError "InterchainIbtpIndexExistCode" [fmt_d exp; fmt_d cur])
  else if decide (exp < cur)%Z then Some (MkBxhError "InterchainIbtpIndexWrongCode" [fmt_d exp; fmt_d cur])
  else None.

Section contract.
Context `{TxPbLib, ConstantLib, FsmLib, GoRange, PbLib, ServiceLib, !PeerContracts, HashLib}.

(** [ServiceCache]: the executor makes a contract with a cache for each message; the contract object that transactions
and other contracts call has a nil cache, until [InitServiceCache] is called. [ctx] is the context of the contract. *)
Context (ServiceCache : option (gmap string Service)) (ctx : Context).

(** The first component of [ParseFrom] and [ParseTo]; empty on error. *)
Definition bxh_of (id : string) : string :=
  match ParseFullServiceID id with Some (b, _, _) => b | None => EmptyString end.
Definition chain_of (id : string) : string :=
  match ParseFullServiceID id with Some (_, c, _) => c | None => EmptyString end.
Definition ibtp_ID (ibtp : IBTP) : string := getIBTPID (ib_From ibtp) (ib_To ibtp) (ib_Index ibtp).

(** Reading a nil cache panics. *)
Definition getServiceCache (key : string) : prog (option Service) :=
  match ServiceCache with None => Panic | Some cache => mret (cache !! key) end.

Definition InitServiceCache : option (gmap string Service) := Some ∅.

Definition GetServiceCache (key : string) : prog Response :=
  service ← getServiceCache key;
  mret match service with
       | None => Error "InterchainInternalErrCode" [key]
       | Some s => match marshal s with None => Error "InterchainInternalErrCode" [] | Some data => Success (Some data) end
       end.

Definition getBitXHubID : prog (option string) := Get ctx BitXHubID.

Definition GetBitXHubID : prog Response :=
  id ← getBitXHubID;
  mret match id with
       | None => Error "InterchainInternalErrCode" ["cannot get bitxhub ID"]
       | Some id => Success (Some id)
       end.

(** [None] is the error. *)
Definition parseChainService (id : string) : prog (option ChainService) :=
  match str_split colon id with
  | [b; c; s] =>
      bxhId ← getBitXHubID;
      mret (bxhId ← bxhId; Some (MkChainService b c s (bool_decide (b = bxhId))))
  | _ => mret None
  end.

(** [None] is the panic on a value that cannot be decoded. *)
Definition decode_interchain (id : string) (data : option string) : option (Interchain * bool) :=
  match data with
  | None => Some (MkInterchain id ∅ ∅ ∅ ∅, false)
  | Some data =>
      ic ← unmarshal data;
      Some (MkInterchain (if decide (ic_ID ic = EmptyString) then id else ic_ID ic) (InterchainCounter ic)
              (ReceiptCounter ic) (SourceInterchainCounter ic) (SourceReceiptCounter ic), true)
  end.

Definition getInterchain (id : string) : prog (Interchain * bool) :=
  data ← Get ctx (serviceKey id);
  match decode_interchain id data with
  | None => Panic
  | Some r => mret r
  end.

Definition setInterchain (id : string) (interchain : Interchain) : prog () :=
  match marshal interchain with
  | None => Panic
  | Some data => Set_ ctx (serviceKey id) (Some data)
  end.

(** [None] is the error. *)
Definition postAuditInterchainEvent (fullServiceID : string) : prog (option ()) :=
  interchainData ← Get ctx (serviceKey fullServiceID);
  match interchainData with
  | None => mret None
  | Some interchainData =>
      chainService ← parseChainService fullServiceID;
      match chainService with
      | None => mret None
      | Some cs => _ ← postEvent ctx Event_AUDIT_INTERCHAIN (MkAudit interchainData [cs_ChainId cs] []); mret (Some tt)
      end
  end.

Definition Register (chainServiceID : string) : prog Response :=
  bxhID ← getBitXHubID;
  match bxhID with
  | None => mret (Error "InterchainInternalErrCode" [])
  | Some bxhID =>
      let fullServiceID := bxhID +:+ ":" +:+ chainServiceID in
      '(interchain, ok) ← getInterchain fullServiceID;
      _ ← (if ok : bool then mret tt else setInterchain fullServiceID interchain);
      match marshal interchain with
      | None => mret (Error "InterchainInternalErrCode" [])
      | Some body =>
          if ctx_EnableAudit ctx
          then e ← postAuditInterchainEvent fullServiceID;
               mret match e with Some _ => Success (Some body) | None => Error "InterchainInternalErrCode" [] end
          else mret (Success (Some body))
      end
  end.

Definition DeleteInterchain (id : string) : prog Response :=
  _ ← Delete ctx (serviceKey id);
  if ctx_EnableAudit ctx
  then e ← postAuditInterchainEvent id;
       mret match e with Some _ => Success None | None => Error "InterchainInternalErrCode" [] end
  else mret (Success None).

Definition GetInterchain (id : string) : prog Response :=
  data ← Get ctx (serviceKey id);
  mret match data with
       | None => Error "InterchainNonexistentInterchainCode" [id]
       | Some data => Success (Some data)
       end.

(** ** Checks *)

(** [None] is the error. *)
Definition getServiceByID (id : string) : prog (option Service) :=
  cached ← getServiceCache id;
  match cached with
  | Some s => mret (Some s)
  | None =>
      res ← CrossInvoke ctx ServiceMgrContractAddr (ServiceMgr_GetServiceInfo id);
      mret match res with
           | Success data => unmarshal (default EmptyString data)
           | Error _ _ => None
           end
  end.

Definition checkServiceAvailability (chainServiceID : string) : prog (option bool) :=
  service ← getServiceByID chainServiceID;
  mret match service with
       | Some s => if sv_IsAvailable s then Some (sv_Ordered s) else None
       | None => None
       end.

Definition checkSourceAvailability (src : ChainService) : prog (option BxhError) :=
  r ← checkServiceAvailability (getChainServiceId src);
  mret match r with
       | Some _ => None
       | None => Some (MkBxhError "InterchainSourceServiceNotAvailableCode" [getChainServiceId src])
       end.

Definition checkBitXHubAvailability (id : string) : prog bool :=
  res ← CrossInvoke ctx AppchainMgrContractAddr (AppchainMgr_IsAvailableBitxhub id);
  mret match res with
       | Success data => negb (bool_decide (data = Some "false"))
       | Error _ _ => false
       end.

(** Whether the destination accepts batches, and why it is not available. *)
Definition checkTargetAvailability (src dst : ChainService) (typ : IBTP_Type) : prog (bool * option BxhError) :=
  if decide (typ = IBTP_INTERCHAIN)
  then
    if cs_IsLocal dst
    then
      if decide (cs_ChainId dst = cs_BxhId dst) then mret (false, None)
      else
        dstService ← getServiceByID (getChainServiceId dst);
        mret match dstService with
             | None => (false, Some (MkBxhError "InterchainTargetServiceNotAvailableCode" [getChainServiceId dst]))
             | Some s =>
                 if negb (sv_IsAvailable s)
                 then (false, Some (MkBxhError "InterchainTargetServiceNotAvailableCode"
                                      [getChainServiceId dst; sv_Status s]))
                 else if negb (CheckPermission s (getFullServiceId src))
                 then (false, Some (MkBxhError "InterchainTargetServiceNoPermissionCode"
                                      [getFullServiceId src; getFullServiceId dst]))
                 else (negb (sv_Ordered s), None)
             end
    else
      ok ← checkBitXHubAvailability (cs_BxhId dst);
      mret (false, if ok : bool then None
                   else Some (MkBxhError "InterchainTargetBitXHubNotAvailableCode" [cs_BxhId dst]))
  else mret (false, None).

(** Whether the IBTP is a notification that the destination relay chain has given up; [None] is
the error. *)
Definition checkTxStatusForSourceBxh (ibtp : IBTP) : prog (option bool) :=
  if decide (bxh_of (ib_From ibtp) = bxh_of (ib_To ibtp) ∨ Category ibtp = IBTP_RESPONSE)
  then mret (Some false)
  else
    txHash ← Get ctx (IndexMapKey (ibtp_ID ibtp));
    mret match d ← txHash; json_string d with
         | None => Some false
         | Some _ =>
             s ← proof_TxStatus (ib_Extra ibtp);
             Some (bool_decide (s = BEGIN_FAILURE ∨ s = BEGIN_ROLLBACK))
         end.

(** The value of a counter; a missing entry is zero. *)
Definition counter (m : gmap string Z) (id : string) : Z := default 0%Z (m !! id).

Definition checkIndexUnless (isBatch : bool) (exp cur : Z) : option BxhError :=
  if isBatch then None else checkIndex exp cur.

(** A request that is not a notification. *)
Definition checkRequest (ibtp : IBTP) (src dst : ChainService) (interchain : Interchain) :
    prog (result (Interchain * bool * option BxhError)) :=
  let exp := counter (InterchainCounter interchain) (getFullServiceId dst) +u 1 in
  let finish isBatch targetError :=
    mret match checkIndexUnless isBatch exp (ib_Index ibtp) with
         | Some e => inr e
         | None => inl (interchain, isBatch, targetError)
         end in
  if cs_IsLocal src
  then
    err ← checkSourceAvailability src;
    match err with
    | Some e => mret (inr e)
    | None =>
        '(isBatch, targetError) ← checkTargetAvailability src dst (ib_Type ibtp);
        finish isBatch targetError
    end
  else if negb (cs_IsLocal dst)
  then mret (inr (MkBxhError "InterchainInvalidIBTPNotInCurBXHCode" [ibtp_ID ibtp]))
  else
    ok ← checkBitXHubAvailability (cs_BxhId src);
    if negb ok
    then mret (inr (MkBxhError "InterchainSourceBitXHubNotAvailableCode" [cs_BxhId src]))
    else
      '(isBatch, targetError) ← checkTargetAvailability src dst (ib_Type ibtp);
      finish isBatch targetError.

(** A receipt, or a notification. *)
Definition checkResponse (ibtp : IBTP) (src dst : ChainService) (interchain : Interchain) :
    prog (result (Interchain * bool * option BxhError)) :=
  let exp := counter (ReceiptCounter interchain) (getFullServiceId dst) +u 1 in
  let finish isBatch :=
    mret match checkIndex exp (ib_Index ibtp) with
         | Some e => inr e
         | None => inl (interchain, isBatch, None)
         end in
  if cs_IsLocal src
  then
    srcService ← getServiceByID (getChainServiceId src);
    match srcService with
    | None => Panic
    | Some s => finish (negb (sv_Ordered s))
    end
  else if negb (cs_IsLocal dst)
  then mret (inr (MkBxhError "InterchainInvalidIBTPNotInCurBXHCode" [ibtp_ID ibtp]))
  else finish false.

Definition checkIBTP (ibtp : IBTP) : prog (result (Interchain * bool * option BxhError)) :=
  src ← parseChainService (ib_From ibtp);
  match src with
  | None => mret (inr (MkBxhError "InterchainInvalidIBTPParseSourceErrorCode" []))
  | Some src =>
      dst ← parseChainService (ib_To ibtp);
      match dst with
      | None => mret (inr (MkBxhError "InterchainInvalidIBTPParseDestErrorCode" []))
      | Some dst =>
          '(interchain, _) ← getInterchain (getFullServiceId src);
          isNotification ← checkTxStatusForSourceBxh ibtp;
          match isNotification with
          | None => mret (inr (MkBxhError "InterchainInternalErrCode" [ibtp_ID ibtp]))
          | Some isNotification =>
              if bool_decide (Category ibtp = IBTP_REQUEST) && negb isNotification
              then checkRequest ibtp src dst interchain
              else if bool_decide (Category ibtp = IBTP_RESPONSE) || isNotification
              then checkResponse ibtp src dst interchain
              else mret (inr (MkBxhError "InterchainInvalidIBTPIllegalTypeCode" []))
          end
      end
  end.

(** ** Transactions *)

Definition genGlobalTxID (ibtp : IBTP) (group : StringUint64Map) : prog (option string) :=
  if decide (length (g_Vals group) < length (g_Keys group)) then Panic
  else
    let m : gmap string Z := foldl (λ m '(k, v), <[k := v]> m) ∅ (zip (g_Keys group) (g_Vals group)) in
    mret (data ← marshal m; Some (HashString (Sha256 (ib_From ibtp +:+ data)))).

(** The status change that the transaction manager returned; [None] is an error. *)
Definition decode_change (res : Response) : option StatusChange :=
  match res with
  | Success data => unmarshal (default EmptyString data)
  | Error _ _ => None
  end.

Definition beginTransaction (ibtp : IBTP) (isFailed : bool) : prog (option StatusChange) :=
  let txId := getIBTPID (ib_From ibtp) (ib_To ibtp) (ib_Index ibtp) in
  let timeoutHeight := u64 (ib_TimeoutHeight ibtp) in
  if decide (bxh_of (ib_From ibtp) ≠ bxh_of (ib_To ibtp))
  then
    currentBxhId ← getBitXHubID;
    match currentBxhId with
    | None => mret None
    | Some currentBxhId =>
        let timeoutHeight := if decide (currentBxhId = bxh_of (ib_From ibtp)) then 0%Z else timeoutHeight in
        res ← CrossInvoke ctx TransactionMgrContractAddr
                (λ c, BeginInterBitXHub c txId timeoutHeight (ib_Extra ibtp) isFailed);
        mret (decode_change res)
    end
  else
    match ib_Group ibtp with
    | None =>
        res ← CrossInvoke ctx TransactionMgrContractAddr (λ c, Begin c txId timeoutHeight isFailed);
        mret (decode_change res)
    | Some group =>
        globalID ← genGlobalTxID ibtp group;
        match globalID with
        | None => mret None
        | Some globalID =>
            res ← CrossInvoke ctx TransactionMgrContractAddr
                    (λ c, BeginMultiTXs c globalID (ibtp_ID ibtp) timeoutHeight isFailed
                            (Z.of_nat (length (g_Keys group))));
            mret (decode_change res)
        end
    end.

Definition reportTransaction (ibtp : IBTP) : prog (option StatusChange) :=
  let txId := getIBTPID (ib_From ibtp) (ib_To ibtp) (ib_Index ibtp) in
  res ← CrossInvoke ctx TransactionMgrContractAddr (λ c, Report c txId (ib_Type ibtp));
  mret (decode_change res).

(** ** Notifications *)

(** The destination chain of every id is taken from the first id of the list. *)
Definition addToMultiTxNotifyMap (height : Z) (ibtpIDs : list string) (toSrc : bool) : prog () :=
  match ibtpIDs with
  | [] => mret tt
  | first :: _ =>
      m ← GetObject ctx (MultiTxNotifyKey height);
      let m : gmap string (list string) := default ∅ m in
      let '(from, to) := match ParseIBTPID first with Some (f, t, _) => (f, t) | None => (EmptyString, EmptyString) end in
      let add chainID m ids := <[chainID := default [] (m !! chainID) ++ ids]> m in
      let m := if toSrc : bool then add (chain_of from) m ibtpIDs
               else foldl (λ m id, add (chain_of to) m [id]) m ibtpIDs in
      SetObject ctx (MultiTxNotifyKey height) m
  end.

Definition notifySrcDst (ibtp : IBTP) (statusChange : StatusChange) (isBatch : bool) : prog () :=
  src ← parseChainService (ib_From ibtp);
  dst ← parseChainService (ib_To ibtp);
  match src, dst with
  | Some src, Some dst =>
      let wrapper := MkEventWrapper (ctx_TransactionIndex ctx) isBatch in
      let '(notifySrc, notifyDst) := NotifyFlags statusChange in
      m1 ← (if notifySrc : bool
            then if cs_IsLocal src
                 then _ ← addToMultiTxNotifyMap (ctx_CurrentHeight ctx) (sc_NotifySrcIBTPIDs statusChange) true;
                      mret {[cs_ChainId src := wrapper]}
                 else mret {[DEFAULT_UNION_PIER_ID := wrapper]}
            else mret ∅);
      m2 ← (if notifyDst : bool
            then if cs_IsLocal dst
                 then _ ← addToMultiTxNotifyMap (ctx_CurrentHeight ctx) (sc_NotifyDstIBTPIDs statusChange) false;
                      mret (if sc_IsFailChildIBTP statusChange then m1 else <[cs_ChainId dst := wrapper]> m1)
                 else mret (<[DEFAULT_UNION_PIER_ID := wrapper]> m1)
            else mret (m1 : gmap string EventWrapper));
      postEvent ctx Event_INTERCHAIN m2
  | _, _ => Panic
  end.

(** ** Counters *)

Definition setDestInterchain (from to : string) (index : Z) (interchain : Interchain) : prog () :=
  _ ← setInterchain from (MkInterchain (ic_ID interchain) (InterchainCounter interchain)
        (<[to := index]> (ReceiptCounter interchain)) (SourceInterchainCounter interchain)
        (SourceReceiptCounter interchain));
  '(ic, _) ← getInterchain to;
  setInterchain to (MkInterchain (ic_ID ic) (InterchainCounter ic) (ReceiptCounter ic)
        (SourceInterchainCounter ic) (<[from := index]> (SourceReceiptCounter ic))).

Definition recordService (from to : string) (result : bool) : prog () :=
  _ ← CrossInvoke ctx ServiceMgrContractAddr (ServiceMgr_RecordInvokeService to from result);
  mret tt.

(** [false] is the error for an id that cannot be parsed. *)
Fixpoint handleMultiIbtpInterchain (childIbtps : list string) (src : ChainService) (ibtp : IBTP)
    (globalState : TransactionStatus) : prog bool :=
  match childIbtps with
  | [] => mret true
  | ibtpId :: childIbtps =>
      match ParseIBTPID ibtpId with
      | None => mret false
      | Some (from, to, index) =>
          '(fromInterchain, _) ← getInterchain from;
          _ ← setDestInterchain from to index fromInterchain;
          _ ← (if decide (cs_ChainId src = cs_BxhId src)
               then _ ← CrossInvoke ctx InterBrokerContractAddr (InterBroker_InvokeReceipt (marshal ibtp)); mret tt
               else mret tt);
          _ ← recordService from to (negb (bool_decide (globalState = FAILURE)));
          handleMultiIbtpInterchain childIbtps src ibtp globalState
      end
  end.

(** The bytes that the receipt of the IBTP carries. *)
Definition process_result (isTargetFail isBatch : bool) : option string :=
  if isBatch then Some "batch_ibtp" else if isTargetFail then Some "begin_failure" else None.

(** The counters of a new request, and its hash. *)
Definition processRequest (ibtp : IBTP) (interchain : Interchain) (dst : ChainService)
    (isTargetFail isBatch : bool) : prog (option string) :=
  _ ← setInterchain (ib_From ibtp) (MkInterchain (ic_ID interchain)
        (<[ib_To ibtp := counter (InterchainCounter interchain) (ib_To ibtp) +u 1]> (InterchainCounter interchain))
        (ReceiptCounter interchain) (SourceInterchainCounter interchain) (SourceReceiptCounter interchain));
  _ ← AddObject ctx (IndexMapKey (ibtp_ID ibtp)) (MkHash (ctx_TxHash ctx));
  if decide (cs_ChainId dst = cs_BxhId dst)
  then
    res ← CrossInvoke ctx InterBrokerContractAddr (InterBroker_InvokeInterchain (marshal ibtp));
    mret match res with Success data => data | Error code args => Some (str_join comma (code :: args)) end
  else
    '(ic, _) ← getInterchain (ib_To ibtp);
    _ ← setInterchain (ib_To ibtp) (MkInterchain (ic_ID ic) (InterchainCounter ic) (ReceiptCounter ic)
          (<[ib_From ibtp := ib_Index ibtp]> (SourceInterchainCounter ic)) (SourceReceiptCounter ic));
    mret (process_result isTargetFail isBatch).

(** The counters of a receipt, once the transaction is final. *)
Definition processResponse (ibtp : IBTP) (interchain : Interchain) (src : ChainService)
    (isTargetFail isBatch isNotification : bool) (curStatus : TransactionStatus) (childIbtps : list string) :
    prog (option string) :=
  ok ← (if IsFinalStatus curStatus
        then if decide (length childIbtps ≠ 0)
             then handleMultiIbtpInterchain childIbtps src ibtp curStatus
             else
               _ ← setDestInterchain (ib_From ibtp) (ib_To ibtp) (ib_Index ibtp) interchain;
               _ ← recordService (ib_From ibtp) (ib_To ibtp)
                     (negb (bool_decide (ib_Type ibtp = IBTP_RECEIPT_FAILURE) || isNotification));
               mret true
        else mret true);
  if negb ok then mret None
  else
    _ ← SetObject ctx (IndexReceiptMapKey (ibtp_ID ibtp)) (MkHash (ctx_TxHash ctx));
    mret (process_result isTargetFail isBatch).

Definition ProcessIBTP (ibtp : IBTP) (interchain : Interchain) (isTargetFail isBatch : bool)
    (curStatus : TransactionStatus) (childIbtps : list string) : prog (option string) :=
  src ← parseChainService (ib_From ibtp);
  dst ← parseChainService (ib_To ibtp);
  isNotification ← checkTxStatusForSourceBxh ibtp;
  let isNotification := default false isNotification in
  match src, dst with
  | Some src, Some dst =>
      if bool_decide (Category ibtp = IBTP_REQUEST) && negb isNotification
      then processRequest ibtp interchain dst isTargetFail isBatch
      else processResponse ibtp interchain src isTargetFail isBatch isNotification curStatus childIbtps
  | _, _ => Panic
  end.

(** ** Entry points *)

(** The events for the auditors at the end of [HandleIBTP]. *)
Definition auditEnd (ibtp : IBTP) (ret : option string) : prog Response :=
  if ctx_EnableAudit ctx
  then
    e1 ← postAuditInterchainEvent (ib_From ibtp);
    match e1 with
    | None => mret (Error "InterchainInternalErrCode" [ib_From ibtp])
    | Some _ =>
        e2 ← postAuditInterchainEvent (ib_To ibtp);
        mret match e2 with
             | None => Error "InterchainInternalErrCode" [ib_To ibtp]
             | Some _ => Success ret
             end
    end
  else mret (Success ret).

Definition HandleIBTP (ibtp : IBTP) : prog Response :=
  checked ← checkIBTP ibtp;
  match checked with
  | inr e => mret (Error (be_Code e) (be_Args e))
  | inl (interchain, isBatch, targetErr) =>
      let isTargetFail := bool_decide (is_Some targetErr) in
      change ← match Category ibtp with
               | IBTP_REQUEST => beginTransaction ibtp isTargetFail
               | IBTP_RESPONSE => reportTransaction ibtp
               | IBTP_UNKNOWN => Panic
               end;
      match change with
      | None => mret (Error "InterchainInternalErrCode" [])
      | Some change =>
          _ ← notifySrcDst ibtp change isBatch;
          ret ← ProcessIBTP ibtp interchain isTargetFail isBatch (sc_CurStatus change) (sc_ChildIBTPIDs change);
          auditEnd ibtp ret
      end
  end.

Definition HandleIBTPData (input : string) : prog Response :=
  match unmarshal input with
  | None => mret (Error "InterchainInternalErrCode" [])
  | Some ibtp => HandleIBTP ibtp
  end.

Definition GetIBTPByID (id : string) (isReq : bool) : prog Response :=
  if decide (length (str_split dash id) ≠ 3) then mret (Error "InterchainWrongIBTPIDCode" [id])
  else
    hash ← GetObject ctx (if isReq then IndexMapKey id else IndexReceiptMapKey id);
    mret match hash with
         | None => Error "InterchainNonexistentIBTPCode" [id]
         | Some h => Success (Some (hash_Bytes h))
         end.
End contract.
