(* ===== verification/InterchainProps.v ===== *)
(** * Lemmas about cross-chain messages

Which keys the methods write, what the checks establish, and how the counters change. *)
From Stdlib Require Import Ascii.
From S2P Require Import Prelude Storage Account StateLedger Contract TransactionManager TransactionManagerProps Interchain.

(** A contract writes its own state. *)
Definition own (ctx : Context) (a k : string) : Prop := a = ctx_Callee ctx.

Lemma own_self ctx k : own ctx (ctx_Callee ctx) k.
Proof. done. Qed.

#[export] Hint Resolve own_self : writes.

Section tm_writes.
Context `{TxPbLib, ConstantLib, FsmLib, GoRange} (ctx : Context).

Lemma addToTimeoutList_writes h g : writes_only (own ctx) (addToTimeoutList ctx h g).
Proof. unfold addToTimeoutList. solve_writes. Qed.

Lemma removeFromTimeoutList_writes h g : writes_only (own ctx) (removeFromTimeoutList ctx h g).
Proof. unfold removeFromTimeoutList. solve_writes. Qed.

Hint Resolve addToTimeoutList_writes removeFromTimeoutList_writes : writes.

Lemma respond_writes P c : writes_only P (respond c).
Proof. done. Qed.
Hint Resolve respond_writes : writes.

Lemma beginMultiEnd_writes gid id t src dst : writes_only (own ctx) (beginMultiEnd ctx gid id t src dst).
Proof. unfold beginMultiEnd. solve_writes. Qed.
Hint Resolve beginMultiEnd_writes : writes.

Lemma BeginMultiTXs_writes gid id th f c : writes_only (own ctx) (BeginMultiTXs ctx gid id th f c).
Proof. unfold BeginMultiTXs. solve_writes. Qed.

Lemma addRecord_writes id th f : writes_only (own ctx) (addRecord ctx id th f).
Proof. unfold addRecord. solve_writes. Qed.
Hint Resolve addRecord_writes : writes.

Lemma Begin_writes id th f : writes_only (own ctx) (Begin ctx id th f).
Proof. unfold Begin. solve_writes. Qed.

Lemma BeginInterBitXHub_writes id th proof f : writes_only (own ctx) (BeginInterBitXHub ctx id th proof f).
Proof. unfold BeginInterBitXHub. solve_writes. Qed.

Lemma changeMultiTxStatus_writes gid t id r : writes_only (own ctx) (changeMultiTxStatus ctx gid t id r).
Proof. unfold changeMultiTxStatus. solve_writes. Qed.
Hint Resolve changeMultiTxStatus_writes : writes.

Lemma reportRecord_writes id d r : writes_only (own ctx) (reportRecord ctx id d r).
Proof. unfold reportRecord. solve_writes. Qed.

Lemma reportChild_writes id g r : writes_only (own ctx) (reportChild ctx id g r).
Proof. unfold reportChild. solve_writes. Qed.
Hint Resolve reportRecord_writes reportChild_writes : writes.

Lemma Report_writes id r : writes_only (own ctx) (Report ctx id r).
Proof. unfold Report. solve_writes. Qed.
End tm_writes.

#[export] Hint Resolve BeginMultiTXs_writes Begin_writes BeginInterBitXHub_writes Report_writes : writes.

(** ** The contract *)

Section interchain.
Context `{TxPbLib, ConstantLib, FsmLib, GoRange, PbLib, ServiceLib, !PeerContracts, HashLib}.
Context (cache : option (gmap string Service)) (ctx : Context) (Hcallee : ctx_Callee ctx = InterchainContractAddr).
Implicit Types (w : world) (ibtp : IBTP) (ic : Interchain).

Definition core : list string := [InterchainContractAddr; TransactionMgrContractAddr].

(** A program that writes nothing of this contract and of the transaction manager. *)
Definition outside (a k : string) : Prop := a ∉ core.

Lemma constants_distinct :
  ServiceMgrContractAddr ∉ core ∧ AppchainMgrContractAddr ∉ core ∧
  InterchainContractAddr ≠ TransactionMgrContractAddr.
Proof.
  pose proof constants_NoDup as Hnd. unfold core. rewrite !NoDup_cons in Hnd. set_solver.
Qed.

Lemma getServiceByID_writes id : writes_only outside (getServiceByID cache ctx id).
Proof.
  unfold getServiceByID, getServiceCache. solve_writes. apply writes_only_CrossInvoke, GetServiceInfo_alone. apply constants_distinct.
Qed.

Lemma checkBitXHubAvailability_writes id : writes_only outside (checkBitXHubAvailability ctx id).
Proof.
  unfold checkBitXHubAvailability. solve_writes.
  apply writes_only_CrossInvoke, IsAvailableBitxhub_alone. apply constants_distinct.
Qed.

Lemma recordService_writes from to r : writes_only outside (recordService ctx from to r).
Proof.
  unfold recordService. solve_writes.
  apply writes_only_CrossInvoke, RecordInvokeService_alone. apply constants_distinct.
Qed.

Hint Resolve getServiceByID_writes checkBitXHubAvailability_writes recordService_writes : writes.

Lemma parseChainService_writes P id : writes_only P (parseChainService ctx id).
Proof. unfold parseChainService, getBitXHubID. solve_writes. Qed.

Lemma getInterchain_writes P id : writes_only P (getInterchain ctx id).
Proof. unfold getInterchain. solve_writes. Qed.

Lemma checkTxStatusForSourceBxh_writes P ibtp : writes_only P (checkTxStatusForSourceBxh ctx ibtp).
Proof. unfold checkTxStatusForSourceBxh. solve_writes. Qed.

Hint Resolve parseChainService_writes getInterchain_writes checkTxStatusForSourceBxh_writes : writes.

Lemma checkTargetAvailability_writes src dst typ : writes_only outside (checkTargetAvailability cache ctx src dst typ).
Proof. unfold checkTargetAvailability. solve_writes. Qed.

Lemma checkSourceAvailability_writes src : writes_only outside (checkSourceAvailability cache ctx src).
Proof. unfold checkSourceAvailability, checkServiceAvailability. solve_writes. Qed.

Hint Resolve checkTargetAvailability_writes checkSourceAvailability_writes : writes.

(** The checks write nothing of this contract. *)
Lemma checkIBTP_writes ibtp : writes_only outside (checkIBTP cache ctx ibtp).
Proof. unfold checkIBTP, checkRequest, checkResponse. solve_writes. Qed.

(** ** Reading the contract *)

Definition interchain_of w (id : string) : option Interchain :=
  fst <$> decode_interchain id (w_state w InterchainContractAddr (serviceKey id)).

Definition counter_of (f : Interchain → gmap string Z) w (id other : string) : Z :=
  match interchain_of w id with Some ic => counter (f ic) other | None => 0 end.

(** Requests from a service to another, seen by the source and by the destination, and
receipts seen by both. *)
Definition out_counter := counter_of InterchainCounter.
Definition receipt_counter := counter_of ReceiptCounter.
Definition in_counter := counter_of SourceInterchainCounter.
Definition in_receipt_counter := counter_of SourceReceiptCounter.

Lemma serviceKey_inj a b : serviceKey a = serviceKey b → a = b.
Proof. by intros [=]. Qed.

(** Two worlds in which the state of this contract and the transaction manager is the same. *)
Definition same_core w w' : Prop := ∀ a k, a ∈ core → w_state w' a k = w_state w a k.

Lemma outside_same_core {A} (p : prog A) w : writes_only outside p → same_core w (exec p w).2.
Proof. intros Hp a k Ha. apply (writes_only_frame outside); [done|]. by intros []. Qed.

Lemma same_core_refl w : same_core w w.
Proof. done. Qed.

Lemma same_core_trans w1 w2 w3 : same_core w1 w2 → same_core w2 w3 → same_core w1 w3.
Proof. intros A1 A2 a k Ha. by rewrite A2, A1. Qed.

Lemma same_core_interchain w w' id : same_core w w' → interchain_of w' id = interchain_of w id.
Proof. intros Hs. unfold interchain_of. rewrite Hs by set_solver. done. Qed.

Lemma split_three id a b c : str_split colon id = [a; b; c] → a +:+ ":" +:+ b +:+ ":" +:+ c = id.
Proof. intros E. rewrite <-(str_join_split colon id), E. done. Qed.

Lemma parseChainService_Some w id cs w' :
  exec (parseChainService ctx id) w = (Some (Some cs), w') → w' = w ∧ getFullServiceId cs = id.
Proof.
  unfold parseChainService, getBitXHubID. destruct (str_split colon id) as [|a [|b [|c [|]]]] eqn:E; try done.
  rewrite exec_bind, exec_Get. simpl. destruct (w_state w (ctx_Callee ctx) BitXHubID); [|done].
  intros [= <- <-]. split; [done|]. by apply split_three.
Qed.

Lemma getInterchain_Some w id ic ok w' :
  exec (getInterchain ctx id) w = (Some (ic, ok), w') → w' = w ∧ interchain_of w id = Some ic.
Proof.
  unfold getInterchain, interchain_of. rewrite exec_bind, exec_Get, Hcallee.
  destruct (decode_interchain _ _) as [[ic' ok']|]; [|done]. by intros [= <- <- <-].
Qed.

Lemma checkTxStatus_Some w ibtp r w' : exec (checkTxStatusForSourceBxh ctx ibtp) w = (Some r, w') → w' = w.
Proof.
  unfold checkTxStatusForSourceBxh. case_decide; [by intros [= _ <-]|]. rewrite exec_bind, exec_Get.
  by intros [= _ <-].
Qed.

(** Whether [ibtp] is a notification of the other relay chain, as the state stands. *)
Definition notification w ibtp : bool :=
  default false (default None (exec (checkTxStatusForSourceBxh ctx ibtp) w).1).

Lemma checkIndex_None exp cur : checkIndex exp cur = None ↔ cur = exp.
Proof. unfold checkIndex. repeat case_decide; (split; [|done || lia]); intros; try done; lia. Qed.

(** What the checks have established when they pass. *)
Record checked w ibtp ic (isBatch : bool) w1 : Prop := {
  ck_core : same_core w w1;
  ck_interchain : interchain_of w (ib_From ibtp) = Some ic;
  ck_request :
    Category ibtp = IBTP_REQUEST → notification w ibtp = false → isBatch = false →
    ib_Index ibtp = counter (InterchainCounter ic) (ib_To ibtp) +u 1;
  ck_response :
    Category ibtp = IBTP_RESPONSE → ib_Index ibtp = counter (ReceiptCounter ic) (ib_To ibtp) +u 1 }.

Lemma checkRequest_inl ibtp src dst ic w r w1 :
  exec (checkRequest cache ctx ibtp src dst ic) w = (Some (inl r), w1) →
  r.1.1 = ic ∧ (r.1.2 = false → ib_Index ibtp = counter (InterchainCounter ic) (getFullServiceId dst) +u 1).
Proof.
  unfold checkRequest. cbv zeta. destruct r as [[ic' b'] e']. simpl. intros E. destruct (cs_IsLocal src).
  - step E as err w2 E1. destruct err; [done|]. step E as be w3 E2. destruct be as [b e].
    injection E as E _. destruct (checkIndexUnless b _ _) eqn:Ei; [done|].
    injection E as -> -> ->. split; [done|]. intros ->. by apply checkIndex_None.
  - destruct (negb (cs_IsLocal dst)); [done|]. step E as ok w2 E1. destruct (negb ok); [done|].
    step E as be w3 E2. destruct be as [b e].
    injection E as E _. destruct (checkIndexUnless b _ _) eqn:Ei; [done|].
    injection E as -> -> ->. split; [done|]. intros ->. by apply checkIndex_None.
Qed.

Lemma checkResponse_inl ibtp src dst ic w r w1 :
  exec (checkResponse cache ctx ibtp src dst ic) w = (Some (inl r), w1) →
  r.1.1 = ic ∧ ib_Index ibtp = counter (ReceiptCounter ic) (getFullServiceId dst) +u 1.
Proof.
  unfold checkResponse. cbv zeta. destruct r as [[ic' b'] e']. simpl. intros E. destruct (cs_IsLocal src).
  - step E as s w2 E1. destruct s; [|done]. injection E as E _. destruct (checkIndex _ _) eqn:Ei; [done|].
    injection E as -> _ _. split; [done|]. by apply checkIndex_None.
  - destruct (negb (cs_IsLocal dst)); [done|]. injection E as E _. destruct (checkIndex _ _) eqn:Ei; [done|].
    injection E as -> _ _. split; [done|]. by apply checkIndex_None.
Qed.

Lemma checkIBTP_inl w ibtp ic isBatch e w1 :
  exec (checkIBTP cache ctx ibtp) w = (Some (inl (ic, isBatch, e)), w1) → checked w ibtp ic isBatch w1.
Proof.
  intros E. assert (same_core w w1) as Hcore.
  { pose proof (outside_same_core (checkIBTP cache ctx ibtp) w) as Hw. rewrite E in Hw. apply Hw, checkIBTP_writes. }
  unfold checkIBTP in E. step E as src w2 E1. destruct src as [src|]; [|done].
  apply parseChainService_Some in E1 as [-> Hsrc]. step E as dst w2 E1. destruct dst as [dst|]; [|done].
  apply parseChainService_Some in E1 as [-> Hdst]. step E as ic0 w2 E1. destruct ic0 as [ic0 ok].
  apply getInterchain_Some in E1 as [-> Hic]. rewrite Hsrc in Hic. step E as n w2 E1.
  pose proof (checkTxStatus_Some _ _ _ _ E1) as ->. destruct n as [n|]; [|done].
  assert (notification w ibtp = n) as Hn by (unfold notification; by rewrite E1).
  destruct (bool_decide (Category ibtp = IBTP_REQUEST) && negb n) eqn:Eb.
  - apply andb_true_iff in Eb as [Hc%bool_decide_eq_true Hnn%negb_true_iff].
    apply checkRequest_inl in E as [<- Hi]. simpl in *. rewrite Hdst in Hi. split; try done.
    intros Hr. by rewrite Hc in Hr.
  - destruct (bool_decide (Category ibtp = IBTP_RESPONSE) || n) eqn:Eo; [|done].
    apply checkResponse_inl in E as [<- Hi]. simpl in *. rewrite Hdst in Hi. split; try done.
    intros Hr Hnf _. rewrite Hn in Hnf. rewrite Hnf, andb_true_r in Eb. by apply bool_decide_eq_false in Eb.
Qed.

(** ** Counters *)

(** The counters of the record of [id] after [setInterchain]. *)
Lemma setInterchain_Some w id ic r w' :
  exec (setInterchain ctx id ic) w = (Some r, w') →
  ∃ ic', interchain_of w' id = Some ic' ∧ InterchainCounter ic' = InterchainCounter ic ∧
    ReceiptCounter ic' = ReceiptCounter ic ∧ SourceInterchainCounter ic' = SourceInterchainCounter ic ∧
    SourceReceiptCounter ic' = SourceReceiptCounter ic ∧
    (∀ a k, a ≠ InterchainContractAddr ∨ k ≠ serviceKey id → w_state w' a k = w_state w a k).
Proof.
  unfold setInterchain. destruct (marshal ic) as [d|] eqn:Ed; [|done]. rewrite exec_Set, Hcallee. intros [= _ <-].
  unfold interchain_of. simpl. rewrite upd2_eq. simpl. rewrite (marshal_unmarshal ic d Ed). simpl.
  eexists. split_and!; try done. intros a k Hak. by apply upd2_ne.
Qed.

Lemma interchain_frame w w' id :
  w_state w' InterchainContractAddr (serviceKey id) = w_state w InterchainContractAddr (serviceKey id) →
  interchain_of w' id = interchain_of w id.
Proof. unfold interchain_of. by intros ->. Qed.

(** Keys of this contract other than the records of services. *)
Definition not_service (a k : string) : Prop := a = InterchainContractAddr → ∀ id, k ≠ serviceKey id.

Lemma not_service_frame {A} (p : prog A) w id :
  writes_only not_service p → interchain_of (exec p w).2 id = interchain_of w id.
Proof.
  intros Hp. apply interchain_frame, (writes_only_frame not_service); [done|]. intros Hns.
  by apply (Hns eq_refl id).
Qed.

Lemma not_service_exec {A} (p : prog A) w r w' id :
  writes_only not_service p → exec p w = (r, w') → interchain_of w' id = interchain_of w id.
Proof. intros Hp E. pose proof (not_service_frame p w id Hp) as Hf. by rewrite E in Hf. Qed.

Lemma outside_not_service {A} (p : prog A) : writes_only outside p → writes_only not_service p.
Proof. apply writes_only_weaken. intros a k Ho ->. destruct Ho. set_solver. Qed.

Lemma own_key_not_service k :
  (∀ id, k ≠ serviceKey id) → not_service (ctx_Callee ctx) k.
Proof. by intros Hk _. Qed.

(** The transaction manager does not write here. *)
Lemma tm_not_service (m : Context → prog Response) :
  (∀ c, writes_only (own c) (m c)) → writes_only not_service (CrossInvoke ctx TransactionMgrContractAddr m).
Proof.
  intros Hm. apply writes_only_CrossInvoke. eapply writes_only_weaken; [|apply Hm].
  intros a k ->. simpl. intros Heq. destruct constants_distinct as (_ & _ & Hne). by destruct Hne.
Qed.

Lemma processRequest_counters w ibtp ic dst tf b r w' :
  exec (processRequest ctx ibtp ic dst tf b) w = (Some r, w') →
  cs_ChainId dst ≠ cs_BxhId dst → interchain_of w (ib_From ibtp) = Some ic →
  out_counter w' (ib_From ibtp) (ib_To ibtp) = out_counter w (ib_From ibtp) (ib_To ibtp) +u 1 ∧
  in_counter w' (ib_To ibtp) (ib_From ibtp) = ib_Index ibtp ∧ r = process_result tf b ∧
  (∀ f t, f ≠ ib_From ibtp ∨ t ≠ ib_To ibtp → out_counter w' f t = out_counter w f t).
Proof.
  intros E Hdst Hic. unfold processRequest in E.
  assert (out_counter w (ib_From ibtp) (ib_To ibtp) = counter (InterchainCounter ic) (ib_To ibtp)) as Hout.
  { unfold out_counter, counter_of. by rewrite Hic. }
  step E as u w1 E1. apply setInterchain_Some in E1 as (ic1 & Hic1 & Ho1 & _ & _ & _ & Hf1).
  step E as u2 w2 E2.
  assert (∀ id, interchain_of w2 id = interchain_of w1 id) as Hf2.
  { intros id. eapply not_service_exec; [|exact E2]. apply AddObject_writes. by intros _ ?. }
  rewrite decide_False in E by done. step E as ico w3 E3. destruct ico as [ic3 ok].
  apply getInterchain_Some in E3 as [-> Hic3]. step E as u3 w4 E4.
  apply setInterchain_Some in E4 as (ic4 & Hic4 & Ho4 & _ & Hs4 & _ & Hf4). injection E as <- <-.
  assert (∀ id, id ≠ ib_To ibtp → interchain_of w4 id = interchain_of w2 id) as Hne4.
  { intros id Hne. apply interchain_frame, Hf4. right. intros Hk. apply Hne, serviceKey_inj, Hk. }
  assert (∀ id, id ≠ ib_From ibtp → interchain_of w1 id = interchain_of w id) as Hne1.
  { intros id Hne. apply interchain_frame, Hf1. right. intros Hk. apply Hne, serviceKey_inj, Hk. }
  assert (∀ f t, out_counter w4 f t = out_counter w1 f t) as Ho41.
  { intros f t. unfold out_counter, counter_of. destruct (decide (f = ib_To ibtp)) as [->|Hne].
    - by rewrite Hic4, <-Hf2, Hic3, Ho4.
    - by rewrite Hne4, Hf2. }
  split_and!; [| |done|].
  - rewrite Ho41. unfold out_counter at 1, counter_of. rewrite Hic1, Ho1, Hout. simpl.
    unfold counter at 1. by rewrite lookup_insert_eq.
  - unfold in_counter, counter_of. rewrite Hic4, Hs4. unfold counter. simpl. by rewrite lookup_insert_eq.
  - intros f t Hft. rewrite Ho41. unfold out_counter, counter_of.
    destruct (decide (f = ib_From ibtp)) as [->|Hne]; [|by rewrite Hne1].
    rewrite Hic1, Ho1, Hic. simpl. unfold counter. rewrite lookup_insert_ne; [done|]. naive_solver.
Qed.

Lemma setDestInterchain_counters w from to index ic r w' :
  exec (setDestInterchain ctx from to index ic) w = (Some r, w') →
  interchain_of w from = Some ic →
  receipt_counter w' from to = index ∧ in_receipt_counter w' to from = index ∧
  (∀ f t, f ≠ from ∨ t ≠ to → receipt_counter w' f t = receipt_counter w f t).
Proof.
  intros E Hic. unfold setDestInterchain in E.
  step E as u w1 E1. apply setInterchain_Some in E1 as (ic1 & Hic1 & _ & Hr1 & _ & _ & Hf1).
  step E as ico w3 E3. destruct ico as [ic3 ok]. apply getInterchain_Some in E3 as [-> Hic3].
  apply setInterchain_Some in E as (ic4 & Hic4 & _ & Hr4 & _ & Hs4 & Hf4).
  assert (∀ id, id ≠ to → interchain_of w' id = interchain_of w1 id) as Hne4.
  { intros id Hne. apply interchain_frame, Hf4. right. intros Hk. apply Hne, serviceKey_inj, Hk. }
  assert (∀ id, id ≠ from → interchain_of w1 id = interchain_of w id) as Hne1.
  { intros id Hne. apply interchain_frame, Hf1. right. intros Hk. apply Hne, serviceKey_inj, Hk. }
  assert (∀ f t, receipt_counter w' f t = receipt_counter w1 f t) as Ho41.
  { intros f t. unfold receipt_counter, counter_of. destruct (decide (f = to)) as [->|Hne].
    - by rewrite Hic4, Hic3, Hr4.
    - by rewrite Hne4. }
  split_and!.
  - rewrite Ho41. unfold receipt_counter, counter_of. rewrite Hic1, Hr1. unfold counter. simpl.
    by rewrite lookup_insert_eq.
  - unfold in_receipt_counter, counter_of. rewrite Hic4, Hs4. unfold counter. simpl. by rewrite lookup_insert_eq.
  - intros f t Hft. rewrite Ho41. unfold receipt_counter, counter_of.
    destruct (decide (f = from)) as [->|Hne]; [|by rewrite Hne1].
    rewrite Hic1, Hr1, Hic. simpl. unfold counter. rewrite lookup_insert_ne; [done|]. naive_solver.
Qed.

(** ** From the checks to the counters *)

(** Nothing of this contract is written but the lists of notifications. *)
Definition aside (a k : string) : Prop := a = InterchainContractAddr → ∃ h, k = MultiTxNotifyKey h.

Lemma tm_aside (m : Context → prog Response) :
  (∀ c, writes_only (own c) (m c)) → writes_only aside (CrossInvoke ctx TransactionMgrContractAddr m).
Proof.
  intros Hm. apply writes_only_CrossInvoke. eapply writes_only_weaken; [|apply Hm].
  intros a k ->. simpl. intros Heq. destruct constants_distinct as (_ & _ & Hne). by destruct Hne.
Qed.

Lemma beginTransaction_aside ibtp f : writes_only aside (beginTransaction ctx ibtp f).
Proof.
  unfold beginTransaction, genGlobalTxID, getBitXHubID. cbv zeta. solve_writes; apply tm_aside; intros;
    eauto with writes.
Qed.

Lemma reportTransaction_aside ibtp : writes_only aside (reportTransaction ctx ibtp).
Proof. unfold reportTransaction. cbv zeta. solve_writes. apply tm_aside. eauto with writes. Qed.

Lemma addToMultiTxNotifyMap_aside h ids b : writes_only aside (addToMultiTxNotifyMap ctx h ids b).
Proof.
  unfold addToMultiTxNotifyMap. solve_writes; (apply SetObject_writes; intros _; by eexists).
Qed.

Lemma notifySrcDst_aside ibtp c b : writes_only aside (notifySrcDst ctx ibtp c b).
Proof.
  unfold notifySrcDst. solve_writes; first [apply parseChainService_writes | apply addToMultiTxNotifyMap_aside].
Qed.

Lemma notifySrcDst_own ibtp c b : writes_only (own ctx) (notifySrcDst ctx ibtp c b).
Proof.
  unfold notifySrcDst, addToMultiTxNotifyMap. solve_writes; apply parseChainService_writes.
Qed.

Lemma processResponse_not_tm ibtp ic src tf b n s :
  writes_only (λ a _, a ≠ TransactionMgrContractAddr) (processResponse ctx ibtp ic src tf b n s []).
Proof.
  assert (ctx_Callee ctx ≠ TransactionMgrContractAddr) as Hne by (rewrite Hcallee; apply constants_distinct).
  unfold processResponse. simpl length. rewrite decide_False by lia. unfold setDestInterchain, setInterchain.
  solve_writes; try apply getInterchain_writes; try (by apply SetObject_writes); try (by apply Set_writes).
  eapply writes_only_weaken; [|apply recordService_writes]. intros a1 k1 Ha ->. apply Ha. unfold core. set_solver.
Qed.

Lemma auditEnd_writes P ibtp r : writes_only P (auditEnd ctx ibtp r).
Proof.
  unfold auditEnd, postAuditInterchainEvent. solve_writes; apply parseChainService_writes.
Qed.

(** Two worlds that agree on the state of this contract, lists of notifications apart. *)
Definition same_records w w' : Prop :=
  ∀ k, (∀ h, k ≠ MultiTxNotifyKey h) → w_state w' InterchainContractAddr k = w_state w InterchainContractAddr k.

Lemma aside_records {A} (p : prog A) w r w' : writes_only aside p → exec p w = (r, w') → same_records w w'.
Proof.
  intros Hp E k Hk. pose proof (writes_only_frame aside p w InterchainContractAddr k Hp) as Hf. rewrite E in Hf.
  apply Hf. intros Ha. destruct (Ha eq_refl) as [h ->]. by apply (Hk h).
Qed.

Lemma same_core_records w w' : same_core w w' → same_records w w'.
Proof. intros Hs k _. apply Hs. set_solver. Qed.

Lemma same_records_trans w1 w2 w3 : same_records w1 w2 → same_records w2 w3 → same_records w1 w3.
Proof. intros A1 A2 k Hk. by rewrite A2, A1. Qed.

Lemma same_records_interchain w w' id : same_records w w' → interchain_of w' id = interchain_of w id.
Proof. intros Hs. by apply interchain_frame, Hs. Qed.

Lemma same_records_counter f w w' a b : same_records w w' → counter_of f w' a b = counter_of f w a b.
Proof. intros Hs. unfold counter_of. by rewrite (same_records_interchain w w'). Qed.

Lemma same_records_notification w w' ibtp : same_records w w' → notification w' ibtp = notification w ibtp.
Proof.
  intros Hs. unfold notification, checkTxStatusForSourceBxh. case_decide; [done|].
  rewrite !exec_bind, !exec_Get, Hcallee. rewrite Hs by done. done.
Qed.

Lemma notification_exec w ibtp n w1 :
  exec (checkTxStatusForSourceBxh ctx ibtp) w = (Some n, w1) → default false n = notification w ibtp.
Proof. intros E. unfold notification. by rewrite E. Qed.

Lemma auditEnd_Success ibtp ret w r w' :
  exec (auditEnd ctx ibtp ret) w = (Some (Success r), w') →
  r = ret ∧ ∀ a k, w_state w' a k = w_state w a k.
Proof.
  intros E. split.
  - unfold auditEnd in E. destruct (ctx_EnableAudit ctx); [|by injection E].
    step E as e1 w1 E1. destruct e1; [|done]. step E as e2 w2 E2. destruct e2; [|done]. by injection E.
  - intros a k. pose proof (writes_only_frame (λ _ _, False) (auditEnd ctx ibtp ret) w a k) as Hf.
    rewrite E in Hf. apply Hf; [apply auditEnd_writes|tauto].
Qed.

(** The part of [HandleIBTP] after the checks: what is left to look at is [ProcessIBTP]. *)
Lemma HandleIBTP_Success w ibtp r w' :
  exec (HandleIBTP cache ctx ibtp) w = (Some (Success r), w') →
  ∃ ic isBatch tf w1 change w2 w3 w4,
    checked w ibtp ic isBatch w1 ∧
    exec (match Category ibtp with
          | IBTP_REQUEST => beginTransaction ctx ibtp tf
          | IBTP_RESPONSE => reportTransaction ctx ibtp
          | IBTP_UNKNOWN => Panic
          end) w1 = (Some (Some change), w2) ∧
    (∀ k, w_state w3 TransactionMgrContractAddr k = w_state w2 TransactionMgrContractAddr k) ∧
    same_records w w3 ∧
    exec (ProcessIBTP ctx ibtp ic tf isBatch (sc_CurStatus change) (sc_ChildIBTPIDs change)) w3 = (Some r, w4) ∧
    (∀ a k, w_state w' a k = w_state w4 a k).
Proof.
  intros E. unfold HandleIBTP in E. step E as res w1 E1. destruct res as [[[ic isBatch] targetErr]|e]; [|done].
  cbv zeta in E. step E as change w2 E2. destruct change as [change|]; [|done].
  step E as u w3 E3. step E as ret w4 E4. apply auditEnd_Success in E as [-> Hend].
  pose proof (checkIBTP_inl _ _ _ _ _ _ E1) as Hck.
  assert (same_records w1 w2) as H12.
  { destruct (Category ibtp); [| |done].
    - eapply aside_records; [|exact E2]. apply beginTransaction_aside.
    - eapply aside_records; [|exact E2]. apply reportTransaction_aside. }
  assert (same_records w2 w3) as H23 by (eapply aside_records; [|exact E3]; apply notifySrcDst_aside).
  assert (same_records w w3) as Hs.
  { apply (same_records_trans _ w1); [apply same_core_records, Hck|]. by apply (same_records_trans _ w2). }
  exists ic, isBatch, (bool_decide (is_Some targetErr)), w1, change, w2, w3, w4. split_and!; try done.
  intros k. pose proof (writes_only_frame (own ctx) (notifySrcDst ctx ibtp change isBatch) w2
                          TransactionMgrContractAddr k) as Hf.
  rewrite E3 in Hf. apply Hf.
  - apply notifySrcDst_own.
  - unfold own. rewrite Hcallee. destruct constants_distinct as (_ & _ & Hne). by apply not_eq_sym.
Qed.

(** A request: the counters, and the index unless the destination takes batches. *)
Lemma HandleIBTP_request w ibtp r w' b c s :
  Category ibtp = IBTP_REQUEST → notification w ibtp = false →
  str_split colon (ib_To ibtp) = [b; c; s] → c ≠ b →
  exec (HandleIBTP cache ctx ibtp) w = (Some (Success r), w') →
  out_counter w' (ib_From ibtp) (ib_To ibtp) = out_counter w (ib_From ibtp) (ib_To ibtp) +u 1 ∧
  in_counter w' (ib_To ibtp) (ib_From ibtp) = ib_Index ibtp ∧
  (∀ f t, f ≠ ib_From ibtp ∨ t ≠ ib_To ibtp → out_counter w' f t = out_counter w f t) ∧
  (r ≠ Some "batch_ibtp" → ib_Index ibtp = out_counter w' (ib_From ibtp) (ib_To ibtp)).
Proof.
  intros Hcat Hn Hsplit Hcb E.
  destruct (HandleIBTP_Success _ _ _ _ E) as (ic & isBatch & tf & w1 & change & w2 & w3 & w4 & Hck & _ & _ & Hs & Ep & Hend).
  assert (same_records w4 w') as Hs4 by (intros k _; apply Hend). unfold ProcessIBTP in Ep.
  step Ep as src w5 E1. step Ep as dst w6 E2. step Ep as n w7 E3.
  destruct src as [src|]; [|by destruct dst]. destruct dst as [dst|]; [|done].
  apply parseChainService_Some in E1 as [-> _].
  assert (cs_ChainId dst = c ∧ cs_BxhId dst = b) as [Hc Hb].
  { unfold parseChainService in E2. rewrite Hsplit in E2. step E2 as bx wx Ex. destruct bx; [|done].
    by injection E2 as <- _. }
  apply parseChainService_Some in E2 as [-> _]. pose proof (checkTxStatus_Some _ _ _ _ E3) as ->.
  rewrite (notification_exec _ _ _ _ E3), (same_records_notification w) in Ep by done.
  rewrite Hn, bool_decide_true in Ep by done. simpl in Ep.
  assert (interchain_of w3 (ib_From ibtp) = Some ic) as Hic.
  { rewrite (same_records_interchain w) by done. apply Hck. }
  destruct (processRequest_counters _ _ _ _ _ _ _ _ Ep) as (Ho & Hi & -> & Hne); [by rewrite Hc, Hb|done|].
  unfold out_counter, in_counter in *. rewrite (same_records_counter _ w w3) in Ho by done.
  split_and!.
  - by rewrite (same_records_counter _ w4).
  - by rewrite (same_records_counter _ w4).
  - intros f t Hft. by rewrite (same_records_counter _ w4), Hne, (same_records_counter _ w).
  - intros Hr. rewrite (same_records_counter _ w4), Ho by done. unfold counter_of. rewrite (ck_interchain _ _ _ _ _ Hck).
    apply Hck; [done|done|]. destruct isBatch; [|done]. by destruct Hr.
Qed.

(** The counters of a receipt of a single transaction. *)
Lemma processResponse_single w ibtp ic src tf b n s r w' :
  IsFinalStatus s = true → interchain_of w (ib_From ibtp) = Some ic →
  exec (processResponse ctx ibtp ic src tf b n s []) w = (Some r, w') →
  receipt_counter w' (ib_From ibtp) (ib_To ibtp) = ib_Index ibtp ∧
  in_receipt_counter w' (ib_To ibtp) (ib_From ibtp) = ib_Index ibtp ∧
  (∀ f t, f ≠ ib_From ibtp ∨ t ≠ ib_To ibtp → receipt_counter w' f t = receipt_counter w f t) ∧
  (∀ k, w_state w' TransactionMgrContractAddr k = w_state w TransactionMgrContractAddr k).
Proof.
  intros Hfin Hic E.
  assert (∀ k, w_state w' TransactionMgrContractAddr k = w_state w TransactionMgrContractAddr k) as Htm.
  { intros k. pose proof (writes_only_frame (λ a _, a ≠ TransactionMgrContractAddr)
      (processResponse ctx ibtp ic src tf b n s []) w TransactionMgrContractAddr k) as Hf. rewrite E in Hf.
    apply Hf; [|tauto]. apply processResponse_not_tm. }
  unfold processResponse in E. rewrite Hfin in E. simpl length in E. rewrite decide_False in E by lia.
  step E as ok w8 E4. step E4 as u w9 E5. step E4 as u2 w10 E6. injection E4 as <- <-. simpl in E.
  step E as u3 w11 E7. injection E as _ <-.
  destruct (setDestInterchain_counters _ _ _ _ _ _ _ E5 Hic) as (Hr1 & Hr2 & Hr3).
  assert (∀ id, interchain_of w11 id = interchain_of w9 id) as Hfr.
  { intros id. transitivity (interchain_of w10 id).
    - eapply not_service_exec; [|exact E7]. apply SetObject_writes. by intros _ ?.
    - eapply not_service_exec; [|exact E6]. apply outside_not_service, recordService_writes. }
  assert (∀ f a b, counter_of f w11 a b = counter_of f w9 a b) as Hfc by (intros; unfold counter_of; by rewrite Hfr).
  unfold receipt_counter, in_receipt_counter in *. rewrite !Hfc. split_and!; try done.
  intros f t Hft. by rewrite Hfc, Hr3.
Qed.

(** What the transaction manager makes of the receipt. *)
Lemma reportTransaction_single w ibtp change w' rec :
  tm_record w (ibtp_ID ibtp) = Some rec →
  exec (reportTransaction ctx ibtp) w = (Some (Some change), w') →
  ∃ s, next_status (tr_Status rec) (ib_Type ibtp) = Some s ∧
    change = MkStatusChange (tr_Status rec) s [] [] [] false ∧
    tm_record w' (ibtp_ID ibtp) = Some (MkRecord s (tr_Height rec)).
Proof.
  intros Hrec E. unfold reportTransaction in E. cbv zeta in E. fold (ibtp_ID ibtp) in E. step E as res w5 Ei.
  rewrite exec_CrossInvoke in Ei.
  pose proof (Report_record (cross_context ctx TransactionMgrContractAddr) eq_refl Hcallee w _ _ (ib_Type ibtp) Hrec) as Hrep.
  destruct (next_status (tr_Status rec) (ib_Type ibtp)) as [s|].
  - destruct Hrep as (d & w6 & Hrep & Hd & Hrec6 & _). rewrite Hrep in Ei. injection Ei as <- <-.
    injection E as Hch <-. simpl in Hch. rewrite (marshal_unmarshal _ _ Hd) in Hch. injection Hch as <-. eauto.
  - destruct Hrep as (code & args & Hrep). rewrite Hrep in Ei. by injection Ei as <- <-.
Qed.

(** A receipt of a single transaction. *)
Lemma HandleIBTP_receipt w ibtp r w' rec :
  Category ibtp = IBTP_RESPONSE → exec (HandleIBTP cache ctx ibtp) w = (Some (Success r), w') →
  tm_record w (ibtp_ID ibtp) = Some rec →
  ib_Index ibtp = receipt_counter w (ib_From ibtp) (ib_To ibtp) +u 1 ∧
  receipt_counter w' (ib_From ibtp) (ib_To ibtp) = ib_Index ibtp ∧
  in_receipt_counter w' (ib_To ibtp) (ib_From ibtp) = ib_Index ibtp ∧
  (∀ f t, f ≠ ib_From ibtp ∨ t ≠ ib_To ibtp → receipt_counter w' f t = receipt_counter w f t) ∧
  ∃ s, next_status (tr_Status rec) (ib_Type ibtp) = Some s ∧
       tm_record w' (ibtp_ID ibtp) = Some (MkRecord s (tr_Height rec)).
Proof.
  intros Hcat E Hrec.
  destruct (HandleIBTP_Success _ _ _ _ E) as (ic & isBatch & tf & w1 & change & w2 & w3 & w4 & Hck & Er & Htm & Hs & Ep & Hend).
  assert (same_records w4 w') as Hs4 by (intros k _; apply Hend). rewrite Hcat in Er.
  assert (tm_record w1 (ibtp_ID ibtp) = Some rec) as Hrec1.
  { unfold tm_record. rewrite (ck_core _ _ _ _ _ Hck) by (unfold core; set_solver). done. }
  destruct (reportTransaction_single _ _ _ _ _ Hrec1 Er) as (s & En & -> & Hrec2).
  unfold ProcessIBTP in Ep. cbn [sc_CurStatus sc_ChildIBTPIDs] in Ep.
  step Ep as src w5 E1. step Ep as dst w6 E2. step Ep as n w7 E3.
  destruct src as [src|]; [|by destruct dst]. destruct dst as [dst|]; [|done].
  apply parseChainService_Some in E1 as [-> _]. apply parseChainService_Some in E2 as [-> _].
  pose proof (checkTxStatus_Some _ _ _ _ E3) as ->.
  rewrite bool_decide_false in Ep by (by rewrite Hcat). simpl andb in Ep. cbv iota in Ep.
  assert (interchain_of w3 (ib_From ibtp) = Some ic) as Hic.
  { rewrite (same_records_interchain w) by done. apply Hck. }
  apply processResponse_single in Ep as (Hr1 & Hr2 & Hr3 & Hr4); [| |done].
  2:{ apply IsFinalStatus_spec. destruct (tr_Status rec), (ib_Type ibtp); simpl in En; simplify_eq; auto. }
  unfold receipt_counter, in_receipt_counter in *. rewrite !(same_records_counter _ w4 w') by done.
  split_and!; try done.
  - unfold counter_of. rewrite (ck_interchain _ _ _ _ _ Hck). by apply Hck.
  - intros f t Hft. rewrite (same_records_counter _ w4 w'), Hr3 by done. by apply same_records_counter.
  - exists s. split; [done|]. rewrite <-Hrec2. unfold tm_record. by rewrite Hend, Hr4, Htm.
Qed.
End interchain.
