(* ===== verification/Executor.v ===== *)
(** * The block executor: balances and timeouts of [src/internal/executor/handle.go]

Transfers, gas fees, and the timeouts of cross-chain transactions at the end of a block.
The executor reaches the state of the transaction manager through the ledger, with the
keys of the contract. *)
From Stdlib Require Import Ascii.
From S2P Require Import Prelude Storage Account StateLedger Contract TransactionManager Interchain.

(** A loop that may stop with an error ([None]). *)
Fixpoint prog_iter_err {A} (f : A → prog (option ())) (l : list A) : prog (option ()) :=
  match l with
  | [] => mret (Some tt)
  | x :: l => r ← f x; match r with None => mret None | Some _ => prog_iter_err f l end
  end.

(** The same with a value that is passed on. *)
Fixpoint prog_fold_err {A B} (f : B → A → prog (option B)) (b : B) (l : list A) : prog (option B) :=
  match l with
  | [] => mret (Some b)
  | x :: l => r ← f b x; match r with None => mret None | Some b => prog_fold_err f b l end
  end.

(** ** Balances *)

(** [None] is success, [Some _] the error for funds that do not suffice. *)
Definition transfer (from to : string) (value : option Z) : prog (option string) :=
  match value with
  | None => mret None
  | Some value =>
      if decide (value = 0)%Z then mret None
      else OpGetBalance from (λ fv,
        if decide (fv < value)%Z then mret (Some from)
        else OpGetBalance to (λ tv,
          OpSetBalance from (fv - value) (OpSetBalance to (tv + value) (mret None))))
  end.

(** The admins, and the price of gas. *)
Record ExecConfig := MkExecConfig { ec_admins : list string; ec_bxhGasPrice : Z; ec_ChainID : Z }.

Section fees.
Context (config : ExecConfig).

Definition payAdmin (fee : Z) (admin : string) : prog () :=
  OpGetBalance admin (λ balance, OpSetBalance admin (balance + fee) (mret tt)).

(** Dividing by the number of admins panics when there are none. *)
Definition payAdmins (fees : Z) : prog () :=
  if decide (length (ec_admins config) = 0) then Panic
  else prog_iter (payAdmin (fees `div` Z.of_nat (length (ec_admins config)))%Z) (ec_admins config).

(** [None] is success. *)
Definition payGasFee (from : string) (gasUsed : Z) : prog (option string) :=
  let fees := (gasUsed * ec_bxhGasPrice config)%Z in
  OpGetBalance from (λ have,
    if decide (have < fees)%Z then mret (Some from)
    else OpSetBalance from (have - fees) (_ ← payAdmins fees; mret None)).

Definition payLeftAsGasFee (from : string) : prog () :=
  OpGetBalance from (λ have, OpSetBalance from 0 (payAdmins have)).
End fees.

(** ** Lists of ids as strings *)

Definition writeToStr (str txId : string) : string :=
  if decide (str = EmptyString) then txId else str +:+ "," +:+ txId.

(** [None] is the panic of the removal. *)
Definition removeFromStr (str txId : string) : option string :=
  str_join comma <$> range_remove txId (str_split comma str).

Definition isGlobalID (id : string) : bool := negb (str_contains dash id).

(** [pb.Receipt] without its bloom filter; [rc_BeginFailure] is the status [BEGIN_FAILURE]. *)
Record Receipt := MkReceipt {
  rc_TxHash : string; rc_Success : bool; rc_Ret : option string; rc_GasUsed : Z; rc_BeginFailure : bool;
  rc_EvmLogs : list EvmLog; rc_Events : list Event; rc_ContractAddress : option string }.

Definition with_rc_Events (r : Receipt) v :=
  MkReceipt (rc_TxHash r) (rc_Success r) (rc_Ret r) (rc_GasUsed r) (rc_BeginFailure r) (rc_EvmLogs r) v (rc_ContractAddress r).

(** The status and the answer of a receipt. *)
Definition with_rc_Result (r : Receipt) ok ret :=
  MkReceipt (rc_TxHash r) ok ret (rc_GasUsed r) (rc_BeginFailure r) (rc_EvmLogs r) (rc_Events r) (rc_ContractAddress r).

Definition filterValidTx (receipts : list Receipt) : gmap string bool * gmap string bool :=
  foldl (λ '(invalid, failed) r,
      (if negb (rc_Success r) || bool_decide (rc_Ret r = Some "batch_ibtp")
       then <[rc_TxHash r := true]> invalid else invalid,
       if rc_BeginFailure r then <[rc_TxHash r := true]> failed else failed))
    (∅, ∅) receipts.

Section timeouts.
Context `{TxPbLib, ConstantLib, FsmLib, GoRange, PbLib}.
Context (config : ExecConfig).

Definition tmGet (key : string) : prog (option string) := OpGetState TransactionMgrContractAddr key Ret.
Definition tmSet (key : string) (v : option string) : prog () :=
  OpSetState TransactionMgrContractAddr key v None (Ret tt).
Definition tmAdd (key : string) (v : option string) : prog () :=
  OpAddState TransactionMgrContractAddr key v (Ret tt).

Definition getTimeoutList (height : Z) : prog (list string) :=
  val ← tmGet (TimeoutKey height);
  mret match val with
       | None => []
       | Some val =>
           let list := str_split comma val in
           match list with
           | [] => []
           | first :: _ => if decide (first = EmptyString) then [] else list
           end
       end.

(** [None] is the error. *)
Definition getTxInfoByGlobalID (id : string) : prog (option TransactionInfo) :=
  val ← tmGet (GlobalTxInfoKey id);
  mret (val ← val; unmarshal val).

Definition setTxRecord (id : string) (record : TransactionRecord) : prog (option ()) :=
  match marshal record with
  | None => mret None
  | Some value => _ ← tmSet (TxInfoKey id) (Some value); mret (Some tt)
  end.

Definition setGlobalTxStatus (globalID : string) (status : TransactionStatus) : prog (option ()) :=
  txInfo ← getTxInfoByGlobalID globalID;
  match txInfo with
  | None => mret None
  | Some txInfo =>
      let txInfo := MkTransactionInfo status (ti_Height txInfo) ((λ _, status) <$> ChildTxInfo txInfo)
                      (ChildTxCount txInfo) in
      match marshal txInfo with
      | None => mret None
      | Some data => _ ← tmSet (GlobalTxInfoKey globalID) (Some data); mret (Some tt)
      end
  end.

(** One id of the list of transactions that time out. *)
Definition rollbackTimeout (height : Z) (id : string) : prog (option ()) :=
  if isGlobalID id then setGlobalTxStatus id BEGIN_ROLLBACK
  else setTxRecord id (MkRecord BEGIN_ROLLBACK height).

Definition setTimeoutRollback (height : Z) : prog (option ()) :=
  list ← getTimeoutList height;
  prog_iter_err (rollbackTimeout height) list.

Definition addTimeoutList (timeoutHeight : Z) (txIdList : string) : prog string :=
  val ← tmGet (TimeoutKey timeoutHeight);
  mret (writeToStr (default EmptyString val) txIdList).

(** [None] is a panic. *)
Definition removeAllFromStr (str txidList : string) : option string :=
  foldl (λ s txId, s ← s; removeFromStr s txId) (Some str) (str_split comma txidList).

Definition removeTimeoutList (recordHeight : Z) (txidList : string) : prog string :=
  val ← tmGet (TimeoutKey recordHeight);
  match removeAllFromStr (default EmptyString val) txidList with
  | None => Panic
  | Some s => mret s
  end.

Definition isDstChainFromBxh (to bxhId : string) : bool :=
  match ParseFullServiceID to with
  | None => false
  | Some (_, chainId, _) => bool_decide (chainId = bxhId)
  end.

(** The transactions of the block: their hash, and the IBTP of those that carry one. *)
Record BlockTx := MkBlockTx { bt_Hash : string; bt_IsEth : bool; bt_IBTP : option IBTP }.

(** Files [txId] under a height. *)
Definition fileAt (m : gmap Z string) (height : Z) (txId : string) : gmap Z string :=
  <[height := match m !! height with None => txId | Some str => writeToStr str txId end]> m.

(** One round of the loop of [setTimeoutList] over the transactions; [None] is the error. *)
Definition timeoutOfTx (height : Z) (invalidMap failMap : gmap string bool) (bxhId : string)
    (maps : gmap Z string * gmap Z string) (tx : BlockTx) : prog (option (gmap Z string * gmap Z string)) :=
  let '(adds, removes) := maps in
  if bt_IsEth tx then mret (Some maps)
  else
    match bt_IBTP tx with
    | None => mret (Some maps)
    | Some ibtp =>
        if isDstChainFromBxh (ib_To ibtp) bxhId || bool_decide (is_Some (ib_Group ibtp))
           || default false (invalidMap !! bt_Hash tx) || default false (failMap !! bt_Hash tx)
        then mret (Some maps)
        else
          let txId := getIBTPID (ib_From ibtp) (ib_To ibtp) (ib_Index ibtp) in
          match Category ibtp with
          | IBTP_REQUEST =>
              if decide (ib_TimeoutHeight ibtp ≤ 0 ∨ MaxUint64 - height ≤ ib_TimeoutHeight ibtp)%Z
              then mret (Some maps)
              else mret (Some (fileAt adds (height +u ib_TimeoutHeight ibtp) txId, removes))
          | IBTP_RESPONSE =>
              val ← tmGet (TxInfoKey txId);
              match val with
              | None =>
                  val ← tmGet txId;
                  mret match val with None => None | Some _ => Some maps end
              | Some val =>
                  mret match unmarshal val with
                       | None => None
                       | Some record =>
                           if decide (ib_Type ibtp = IBTP_RECEIPT_FAILURE ∧ tr_Status record = FAILURE)
                           then Some maps
                           else Some (adds, fileAt removes (tr_Height record) txId)
                       end
              end
          | IBTP_UNKNOWN => mret (Some maps)
          end
    end.

Definition setTimeoutList (height : Z) (txList : list BlockTx) (invalidMap failMap : gmap string bool)
    (bxhId : string) : prog (option ()) :=
  maps ← prog_fold_err (timeoutOfTx height invalidMap failMap bxhId) (∅, ∅) txList;
  match maps with
  | None => mret None
  | Some (adds, removes) =>
      _ ← prog_iter (λ '(timeoutHeight, txidList),
             newStr ← addTimeoutList timeoutHeight txidList;
             tmAdd (TimeoutKey timeoutHeight) (Some newStr)) (go_range adds);
      _ ← prog_iter (λ '(recordHeight, txidList),
             newStr ← removeTimeoutList recordHeight txidList;
             tmSet (TimeoutKey recordHeight) (Some newStr)) (go_range removes);
      mret (Some tt)
  end.

(** ** Whom to notify *)

Inductive NotifyChain := NOTIFY_SRC | NOTIFY_DEST.

(** An id without enough parts panics; an id that cannot be parsed is an error. *)
Definition addTxIdToSrcTimeoutIBTPsMap (m : gmap string (list string)) (txId bitXHubID : string)
    (notifyFlag : NotifyChain) : prog (option (gmap string (list string))) :=
  match str_split dash txId !! (match notifyFlag with NOTIFY_SRC => 0 | NOTIFY_DEST => 1 end) with
  | None => Panic
  | Some service =>
      mret match ParseFullServiceID service with
           | None => None
           | Some (bxhID, chainID, _) =>
               let notifyChain := if decide (bxhID ≠ bitXHubID) then DEFAULT_UNION_PIER_ID else chainID in
               Some (<[notifyChain := default [] (m !! notifyChain) ++ [txId]]> m)
           end
  end.

Definition timeoutChild (bxhID : string) (m : gmap string (list string)) (child : string * TransactionStatus) :
    prog (option (gmap string (list string))) :=
  let '(id, childStatus) := child in
  m ← addTxIdToSrcTimeoutIBTPsMap m id bxhID NOTIFY_SRC;
  match m with
  | None => mret None
  | Some m =>
      if IsFinalStatus childStatus then addTxIdToSrcTimeoutIBTPsMap m id bxhID NOTIFY_DEST
      else mret (Some m)
  end.

Definition timeoutOfId (bxhID : string) (m : gmap string (list string)) (value : string) :
    prog (option (gmap string (list string))) :=
  if isGlobalID value
  then
    txInfo ← getTxInfoByGlobalID value;
    match txInfo with
    | None => mret None
    | Some txInfo => prog_fold_err (timeoutChild bxhID) m (go_range (ChildTxInfo txInfo))
    end
  else addTxIdToSrcTimeoutIBTPsMap m value bxhID NOTIFY_SRC.

Definition getTimeoutIBTPsMap (height : Z) : prog (option (gmap string (list string))) :=
  timeoutList ← getTimeoutList height;
  prog_fold_err (timeoutOfId (fmt_d (ec_ChainID config))) ∅ timeoutList.

Definition getMultiTxIBTPsMap (height : Z) : prog (option (gmap string (list string))) :=
  OpGetState InterchainContractAddr (MultiTxNotifyKey height) (λ val,
    mret match val with
         | None => Some ∅
         | Some val => unmarshal val
         end).
End timeouts.
