(* ===== verification/ExecutorProps.v ===== *)
(** * Lemmas about the block executor: sums of balances, lists of timeouts *)
From Stdlib Require Import Ascii.
From S2P Require Import Prelude Storage Account StateLedger Contract TransactionManager TransactionManagerProps.
From S2P Require Import Interchain Executor.

(** ** Sums of balances *)

Definition total (w : world) (accs : list string) : Z := foldr Z.add 0%Z (w_balance w <$> accs).

Lemma total_cons w a accs : total w (a :: accs) = (w_balance w a + total w accs)%Z.
Proof. done. Qed.

Lemma total_ext w w' accs : (∀ a, a ∈ accs → w_balance w' a = w_balance w a) → total w' accs = total w accs.
Proof.
  induction accs as [|a accs IH]; intros Hall; [done|]. rewrite !total_cons.
  rewrite Hall by set_solver. f_equal. apply IH. set_solver.
Qed.

(** Setting one of the balances. *)
Lemma total_set w accs a v :
  NoDup accs → a ∈ accs → total (w_setBalance w a v) accs = (total w accs - w_balance w a + v)%Z.
Proof.
  induction accs as [|b accs IH]; [set_solver|]. intros [Hb Hnd]%NoDup_cons Ha. rewrite !total_cons.
  simpl. destruct (decide (a = b)) as [->|Hne].
  - rewrite upd_eq, (total_ext w (w_setBalance w b v)); [lia|].
    intros c Hc. apply upd_ne. by intros ->.
  - rewrite IH by set_solver. rewrite upd_ne by done. lia.
Qed.

Section fees.
Context (config : ExecConfig).

Lemma payAdmins_total fees w accs admins fee :
  NoDup accs → (∀ a, a ∈ admins → a ∈ accs) →
  fee = fees →
  let w' := (exec (prog_iter (payAdmin fee) admins) w).2 in
  (exec (prog_iter (payAdmin fee) admins) w).1 = Some tt ∧
  total w' accs = (total w accs + Z.of_nat (length admins) * fee)%Z ∧
  w_state w' = w_state w ∧ w_nonce w' = w_nonce w.
Proof.
  intros Hnd Hin _. revert w. induction admins as [|a admins IH]; intros w; simpl; [split_and!; try done; lia|].
  destruct (IH ltac:(set_solver) (w_setBalance w a (w_balance w a + fee))) as (Hr & Ht & Hs & Hn).
  split_and!; [done| |done|done]. rewrite Ht, total_set by (done || set_solver). lia.
Qed.

(** The fee of a transaction: what the sender pays reaches the admins, but for the
remainder of the division. *)
Lemma payGasFee_total w from gasUsed accs :
  NoDup accs → from ∈ accs → (∀ a, a ∈ ec_admins config → a ∈ accs) → ec_admins config ≠ [] →
  let fees := (gasUsed * ec_bxhGasPrice config)%Z in
  let n := Z.of_nat (length (ec_admins config)) in
  if decide (w_balance w from < fees)%Z
  then exec (payGasFee config from gasUsed) w = (Some (Some from), w)
  else ∃ w', exec (payGasFee config from gasUsed) w = (Some None, w') ∧
         total w' accs = (total w accs - fees `mod` n)%Z ∧ w_state w' = w_state w.
Proof.
  intros Hnd Hfrom Hin Hne. simpl. unfold payGasFee. cbv zeta. cbn [exec].
  case_decide as Hlt; [done|]. cbn [exec]. rewrite exec_bind. unfold payAdmins.
  rewrite decide_False by (by destruct (ec_admins config)).
  set (n := Z.of_nat (length (ec_admins config))). set (fees := (gasUsed * ec_bxhGasPrice config)%Z) in *.
  set (w1 := w_setBalance w from (w_balance w from - fees)).
  destruct (payAdmins_total (fees `div` n)%Z w1 accs (ec_admins config) (fees `div` n)%Z Hnd Hin eq_refl)
    as (Hr & Ht & Hs & _).
  destruct (exec (prog_iter _ (ec_admins config)) w1) as [r w2] eqn:E. simpl in Hr, Ht, Hs. subst r.
  eexists. split; [done|]. split; [|by rewrite Hs].
  rewrite Ht. subst w1. rewrite total_set by done. fold n.
  assert (n ≠ 0)%Z by (subst n; destruct (ec_admins config); simpl; [done|lia]).
  pose proof (Z.div_mod fees n). lia.
Qed.
End fees.

(** ** Transfers *)

Lemma transfer_spec w from to v :
  from ≠ to →
  exec (transfer from to (Some v)) w =
  if decide (v = 0)%Z then (Some None, w)
  else if decide (w_balance w from < v)%Z then (Some (Some from), w)
  else (Some None, w_setBalance (w_setBalance w from (w_balance w from - v)) to (w_balance w to + v)).
Proof.
  intros Hne. unfold transfer. case_decide; [done|]. cbn [exec]. case_decide; [done|]. done.
Qed.

(** ** Lists of timeouts *)

Section timeouts.
Context `{TxPbLib, ConstantLib, FsmLib, GoRange, PbLib}.

(** The ids listed for a height; no list is the empty list. *)
Definition listed (v : option string) : list string :=
  match v with None => [] | Some s => if decide (s = EmptyString) then [] else str_split comma s end.

Definition no_comma (id : string) : Prop := str_contains comma id = false.

Lemma writeToStr_listed s id :
  no_comma id → id ≠ EmptyString → listed (Some (writeToStr s id)) = listed (Some s) ++ [id].
Proof.
  intros Hid Hne. unfold writeToStr, listed. destruct (decide (s = EmptyString)) as [->|Hs].
  - rewrite decide_False by done. by apply str_split_plain.
  - assert (s +:+ "," +:+ id ≠ EmptyString) by (by destruct s). rewrite decide_False by done.
    by apply (str_split_snoc comma).
Qed.

(** Joining a list of ids and listing it again. *)
Lemma listed_join l : Forall no_comma l → Forall (.≠ EmptyString) l → listed (Some (str_join comma l)) = l.
Proof.
  intros Hc Hn. destruct l as [|x l]; [done|]. unfold listed.
  assert (str_join comma (x :: l) ≠ EmptyString) as Hj.
  { apply Forall_cons in Hn as [Hx _]. destruct l; [done|]. simpl. by destruct x. }
  rewrite decide_False by done. by apply str_split_join.
Qed.

Lemma removeFromStr_listed s id :
  NoDup (listed (Some s)) → id ≠ EmptyString → Forall (.≠ EmptyString) (listed (Some s)) →
  Forall no_comma (listed (Some s)) →
  ∃ s', removeFromStr s id = Some s' ∧ listed (Some s') = filter (.≠ id) (listed (Some s)).
Proof.
  intros Hnd Hid Hne Hc. unfold removeFromStr.
  destruct (decide (s = EmptyString)) as [->|Hs].
  { simpl. rewrite range_remove_absent by set_solver. simpl. by eexists. }
  assert (listed (Some s) = str_split comma s) as El by (unfold listed; by rewrite decide_False).
  rewrite El in *. rewrite range_remove_NoDup by done. simpl. eexists. split; [done|].
  rewrite Forall_forall in Hne, Hc.
  apply listed_join; apply Forall_forall; intros x [_ Hx]%list_elem_of_filter; auto.
Qed.

Lemma getTimeoutList_listed w h :
  Forall (.≠ EmptyString) (listed (tm_timeouts w h)) →
  exec (getTimeoutList h) w = (Some (listed (tm_timeouts w h)), w).
Proof.
  intros Hne. unfold getTimeoutList. rewrite exec_bind. cbn [exec tmGet]. unfold tm_timeouts in *.
  destruct (w_state w TransactionMgrContractAddr (TimeoutKey h)) as [s|]; [|done].
  unfold listed in *. do 2 f_equal. destruct (decide (s = EmptyString)) as [->|Hs]; [done|].
  destruct (str_split comma s) as [|x l] eqn:E; [done|]. apply Forall_cons in Hne as [Hx _].
  by rewrite decide_False.
Qed.

(** ** Rolling back at a timeout *)

Lemma setGlobalTxStatus_inv w gid :
  tm_inv w → tm_inv (exec (setGlobalTxStatus gid BEGIN_ROLLBACK) w).2.
Proof.
  intros Hinv. unfold setGlobalTxStatus. rewrite exec_bind.
  assert (exec (getTxInfoByGlobalID gid) w = (Some (tm_info w gid), w)) as -> by done.
  destruct (tm_info w gid) as [t|] eqn:Et; [|done]. pose proof (Hinv _ _ Et) as Hok. cbv iota zeta.
  set (t' := MkTransactionInfo BEGIN_ROLLBACK (ti_Height t) ((λ _, BEGIN_ROLLBACK) <$> ChildTxInfo t) (ChildTxCount t)).
  destruct (json_marshals t') as [d Hd]. rewrite Hd, exec_bind. cbn [exec tmSet].
  eapply tm_inv_info; [done|exact Hd|].
  destruct Hok as [Hc Hn Ha]. split; simpl.
  - intros id s. rewrite lookup_fmap, fmap_Some. intros (s0 & _ & ->). by left.
  - by rewrite fmap_empty_iff.
  - apply text_ascii. simpl. intros id s. rewrite lookup_fmap, fmap_Some. intros (s0 & Hs0 & ->).
    rewrite text_ascii in Ha. by eapply Ha.
Qed.

Lemma rollbackTimeout_inv w h id : tm_inv w → tm_inv (exec (rollbackTimeout h id) w).2.
Proof.
  intros Hinv. unfold rollbackTimeout. destruct (isGlobalID id); [by apply setGlobalTxStatus_inv|].
  unfold setTxRecord. destruct (marshal (MkRecord BEGIN_ROLLBACK h)); [|done]. by apply tm_inv_other.
Qed.

Lemma setTimeoutRollback_inv w h : tm_inv w → tm_inv (exec (setTimeoutRollback h) w).2.
Proof.
  intros Hinv. unfold setTimeoutRollback. rewrite exec_bind.
  assert (∃ l, exec (getTimeoutList h) w = (Some l, w)) as [l ->] by (by eexists).
  revert w Hinv. induction l as [|id l IH]; intros w Hinv; [done|]. cbn [prog_iter_err]. rewrite exec_bind.
  pose proof (rollbackTimeout_inv w h id Hinv) as Hinv'.
  destruct (exec (rollbackTimeout h id) w) as [[[[]|]|] w']; simpl in *; [by apply IH|done|done].
Qed.
End timeouts.
