(* ===== verification/CrossChainTheorems.v ===== *)
(** * Theorems about cross-chain transactions, messages and the executor *)
From Stdlib Require Import Ascii.
From S2P Require Import Prelude Storage Account StateLedger Contract TransactionManager TransactionManagerProps.
From S2P Require Import Interchain InterchainProps Executor ExecutorProps.

(** ** One-to-many transactions *)

Section transactions.
Context `{TxPbLib, ConstantLib, FsmLib, GoRange, PbLib}.
Implicit Types (w : world) (ctx : Context).

(** The steps that reach the state of the transaction manager: its methods, called by anybody, the
timeouts at the end of a block, and whatever does not write its records of one-to-many
transactions. A child is named by an id that is ASCII and not another key of the contract. *)
Inductive tm_step : world → world → Prop :=
| ts_begin ctx id th f w :
    ctx_Callee ctx = TransactionMgrContractAddr → tm_step w (exec (Begin ctx id th f) w).2
| ts_begin_inter ctx id th proof f w :
    ctx_Callee ctx = TransactionMgrContractAddr → tm_step w (exec (BeginInterBitXHub ctx id th proof f) w).2
| ts_begin_multi ctx gid id th f count w :
    ctx_Callee ctx = TransactionMgrContractAddr → is_ascii id → plain_id id →
    tm_step w (exec (BeginMultiTXs ctx gid id th f count) w).2
| ts_report ctx id r w :
    ctx_Callee ctx = TransactionMgrContractAddr → tm_step w (exec (Report ctx id r) w).2
| ts_timeout height w : tm_step w (exec (setTimeoutRollback height) w).2
| ts_timeout_list height txs invalid failed bxhId w :
    tm_step w (exec (setTimeoutList height txs invalid failed bxhId) w).2
| ts_other w w' :
    (∀ gid, w_state w' TransactionMgrContractAddr (GlobalTxInfoKey gid) =
            w_state w TransactionMgrContractAddr (GlobalTxInfoKey gid)) → tm_step w w'.

Lemma tm_inv_frame {A} (p : prog A) w :
  writes_only (λ _ k, ∀ g, k ≠ GlobalTxInfoKey g) p → tm_inv w → tm_inv (exec p w).2.
Proof.
  intros Hp Hinv gid t. unfold tm_info. rewrite (writes_only_frame _ _ _ _ _ Hp).
  - apply Hinv.
  - intros Hk. by apply (Hk gid).
Qed.

Lemma prog_iter_writes {A} P (f : A → prog ()) l : (∀ x, writes_only P (f x)) → writes_only P (prog_iter f l).
Proof. intros Hf. induction l as [|x l IH]; [done|]. by apply writes_only_bind. Qed.

Lemma prog_fold_err_writes {A B} P (f : B → A → prog (option B)) b l :
  (∀ b x, writes_only P (f b x)) → writes_only P (prog_fold_err f b l).
Proof.
  intros Hf. revert b. induction l as [|x l IH]; intros b; [done|]. apply writes_only_bind; [done|].
  intros [b'|]; [apply IH|done].
Qed.

Lemma setTimeoutList_writes height txs invalid failed bxhId :
  writes_only (λ _ k, ∀ g, k ≠ GlobalTxInfoKey g) (setTimeoutList height txs invalid failed bxhId).
Proof.
  unfold setTimeoutList. apply writes_only_bind.
  { apply prog_fold_err_writes. intros [adds removes] tx. unfold timeoutOfTx. solve_writes; done. }
  intros [[adds removes]|]; [|done]. apply writes_only_bind; [|intros; apply writes_only_bind; [|done]].
  - apply prog_iter_writes. intros [h l]. unfold addTimeoutList. by solve_writes.
  - apply prog_iter_writes. intros [h l]. unfold removeTimeoutList. apply writes_only_bind; [|done].
    solve_writes. done.
Qed.

Lemma tm_step_inv w w' : tm_step w w' → tm_inv w → tm_inv w'.
Proof.
  intros [ctx id th f w1 Hc|ctx id th proof f w1 Hc|ctx gid id th f c w1 Hc Ha Hp|ctx id r w1 Hc|h w1
         |h txs i f b w1|w1 w2 Hsame] Hinv.
  - by apply Begin_inv.
  - by apply BeginInterBitXHub_inv.
  - by apply BeginMultiTXs_inv.
  - by apply Report_inv.
  - by apply setTimeoutRollback_inv.
  - apply tm_inv_frame; [apply setTimeoutList_writes|done].
  - intros gid t. unfold tm_info. rewrite Hsame. apply Hinv.
Qed.

(** C4: One-to-many transactions are atomic. In every state that the methods of the contract and the
timeouts can reach, the statuses of the children agree with the status of the whole
transaction (all of them have succeeded when it has, none has when it has failed or was
rolled back, and so on), so no transaction has a child that succeeded beside one that
failed or was rolled back. *)
Theorem global_tx_atomic w0 w gid t :
  (∀ g, tm_info w0 g = None) → rtc tm_step w0 w → tm_info w gid = Some t →
  (∀ id s, ChildTxInfo t !! id = Some s → child_ok (GlobalState t) s) ∧
  ¬ ∃ id1 id2, ChildTxInfo t !! id1 = Some SUCCESS ∧
               (ChildTxInfo t !! id2 = Some FAILURE ∨ ChildTxInfo t !! id2 = Some ROLLBACK).
Proof.
  intros Hnone Hsteps Ht.
  assert (tm_inv w) as Hinv.
  { assert (tm_inv w0) as Hinv0 by (intros g t' Hg; by rewrite Hnone in Hg). clear Hnone Ht.
    induction Hsteps as [|w1 w2 w3 Hstep _ IH]; [done|]. apply IH. by eapply tm_step_inv. }
  pose proof (io_child _ (Hinv _ _ Ht)) as Hc. split; [done|].
  intros (id1 & id2 & H1' & H2'). apply Hc in H1'.
  destruct H2' as [H2'|H2']; apply Hc in H2'; destruct (GlobalState t); simpl in *; naive_solver.
Qed.

(** ** Single transactions *)

(** Receipts for one transaction, and which of them are accepted. *)
Fixpoint report_all ctx (txId : string) (rs : list IBTP_Type) w : list bool * world :=
  match rs with
  | [] => ([], w)
  | r :: rs =>
      let '(res, w') := exec (Report ctx txId r) w in
      let '(oks, w'') := report_all ctx txId rs w' in
      (match res with Some (Success _) => true | _ => false end :: oks, w'')
  end.

Lemma report_all_final ctx txId rs w rec :
  ctx_Callee ctx = TransactionMgrContractAddr → ctx_CurrentCaller ctx = InterchainContractAddr →
  tm_record w txId = Some rec → is_final (tr_Status rec) →
  Forall (λ b, b = false) (report_all ctx txId rs w).1 ∧ (report_all ctx txId rs w).2 = w.
Proof.
  intros Hc Hcc Hrec Hfin. induction rs as [|r rs IH]; [done|]. simpl.
  pose proof (Report_record ctx Hc Hcc w txId rec r Hrec) as Hrep.
  assert (next_status (tr_Status rec) r = None) as Hnone.
  { destruct Hfin as [->|[->| ->]]; by destruct r. }
  rewrite Hnone in Hrep. destruct Hrep as (code & args & ->). destruct (report_all ctx txId rs w) as [oks w2].
  simpl in *. destruct IH as [? ->]. by split; [constructor|].
Qed.

Lemma next_status_final s r s' : next_status s r = Some s' → is_final s'.
Proof. unfold is_final. destruct s, r; simpl; intros; simplify_eq; auto. Qed.

Lemma report_all_length ctx txId rs w : length (report_all ctx txId rs w).1 = length rs.
Proof.
  revert w. induction rs as [|r rs IH]; intros w; [done|]. simpl.
  destruct (exec _ w) as [res w1]. specialize (IH w1). destruct (report_all ctx txId rs w1). simpl in *. lia.
Qed.

Lemma all_false (l : list bool) : Forall (λ b, b = false) l → l = replicate (length l) false.
Proof. induction 1 as [|b l -> _ IH]; [done|]. simpl. by rewrite <-IH. Qed.

(** Either no receipt is accepted, or one is and the others are not. *)
Definition accepts_once (rec : TransactionRecord) (txId : string) (rs : list IBTP_Type)
    (res : list bool * world) : Prop :=
  Forall (λ b, b = false) res.1 ∧ tm_record res.2 txId = Some rec ∨
  ∃ n r s, res.1 = replicate n false ++ true :: replicate (length rs - n - 1) false ∧ rs !! n = Some r ∧
    next_status (tr_Status rec) r = Some s ∧ is_final s ∧
    tm_record res.2 txId = Some (MkRecord s (tr_Height rec)).

Lemma report_all_once ctx txId rs w rec :
  ctx_Callee ctx = TransactionMgrContractAddr → ctx_CurrentCaller ctx = InterchainContractAddr →
  tm_record w txId = Some rec → accepts_once rec txId rs (report_all ctx txId rs w).
Proof.
  intros Hc Hcc Hrec. induction rs as [|r rs IH]; [by left|]. simpl.
  pose proof (Report_record ctx Hc Hcc w txId rec r Hrec) as Hrep.
  destruct (next_status (tr_Status rec) r) as [s|] eqn:En.
  - destruct Hrep as (d & w' & -> & _ & Hrec' & _). apply next_status_final in En as Hfin.
    destruct (report_all_final ctx txId rs w' _ Hc Hcc Hrec' Hfin) as [Hf Hw].
    pose proof (report_all_length ctx txId rs w') as Hlen.
    destruct (report_all ctx txId rs w') as [oks w2]. simpl in *. subst w2. right.
    exists 0, r, s. simpl. split_and!; try done. f_equal. rewrite Nat.sub_0_r, <-Hlen. by apply all_false.
  - destruct Hrep as (code & args & ->). destruct (report_all ctx txId rs w) as [oks w2].
    destruct IH as [[Hf Hr]|(n & r' & s & Hoks & Hn & Hs & Hfin & Hr)]; simpl in *.
    + left. split; [by constructor|done].
    + right. exists (S n), r', s. subst oks. by split_and!.
Qed.

(** C16: The life of a single transaction. [Begin] opens it with the status BEGIN (BEGIN_FAILURE when the
destination is not available) and its timeout height; of the receipts that follow, in any
order and number, at most one is accepted, and the transaction is final from then on: the
record holds the status that the state machine assigns to the accepted receipt. *)
Theorem single_tx_lifecycle ctx txId th (f : bool) rs w :
  ctx_Callee ctx = TransactionMgrContractAddr → ctx_CurrentCaller ctx = InterchainContractAddr →
  let w1 := (exec (Begin ctx txId th f) w).2 in
  let rec1 := MkRecord (if f then BEGIN_FAILURE else BEGIN) (timeout_at ctx th) in
  tm_record w1 txId = Some rec1 ∧ accepts_once rec1 txId rs (report_all ctx txId rs w1).
Proof.
  intros Hc Hcc. destruct (Begin_record ctx Hc Hcc w txId th f) as (d & w1 & -> & _ & Hrec & _). simpl snd.
  split; [done|]. by apply report_all_once.
Qed.
End transactions.

(** ** Messages *)

Section messages.
Context `{TxPbLib, ConstantLib, FsmLib, GoRange, PbLib, ServiceLib, !PeerContracts, HashLib}.
Context (cache : option (gmap string Service)) (ctx : Context).
Implicit Types (w : world) (ibtp : IBTP).

(** C11: An accepted request whose destination is not a service of the relay chain itself and which is not a
notification of another relay chain's outcome ([notification] is false) raises the counter of its pair of services by
one (modulo 2^64), is recorded by the destination with its index, touches the counter of no other pair, and, unless
the answer is that of a destination which takes batches, has the index the counter now has. *)
Theorem HandleIBTP_request_spec w ibtp r w' b c s :
  ctx_Callee ctx = InterchainContractAddr → Category ibtp = IBTP_REQUEST → notification ctx w ibtp = false →
  str_split colon (ib_To ibtp) = [b; c; s] → c ≠ b →
  exec (HandleIBTP cache ctx ibtp) w = (Some (Success r), w') →
  out_counter w' (ib_From ibtp) (ib_To ibtp) = out_counter w (ib_From ibtp) (ib_To ibtp) +u 1 ∧
  in_counter w' (ib_To ibtp) (ib_From ibtp) = ib_Index ibtp ∧
  (∀ f t, f ≠ ib_From ibtp ∨ t ≠ ib_To ibtp → out_counter w' f t = out_counter w f t) ∧
  (r ≠ Some "batch_ibtp" → ib_Index ibtp = out_counter w' (ib_From ibtp) (ib_To ibtp)).
Proof. intros Hc Hcat Hn Hs Hcb E. by apply (HandleIBTP_request cache ctx Hc w ibtp r w' b c s). Qed.

(** A request is not accepted twice by a destination that takes its requests in order: once it has
been accepted, handling it again in a state with the same counter does not succeed
(except as a batch, should the destination have been switched to batches), whatever else
has changed. *)
Theorem HandleIBTP_no_replay w ibtp r w' cache2 ctx2 w2 b c s :
  ctx_Callee ctx = InterchainContractAddr → Category ibtp = IBTP_REQUEST → notification ctx w ibtp = false →
  str_split colon (ib_To ibtp) = [b; c; s] → c ≠ b →
  exec (HandleIBTP cache ctx ibtp) w = (Some (Success r), w') → r ≠ Some "batch_ibtp" →
  ctx_Callee ctx2 = InterchainContractAddr → notification ctx2 w2 ibtp = false →
  out_counter w2 (ib_From ibtp) (ib_To ibtp) = out_counter w' (ib_From ibtp) (ib_To ibtp) →
  match (exec (HandleIBTP cache2 ctx2 ibtp) w2).1 with
  | Some (Success r2) => r2 = Some "batch_ibtp"
  | _ => True
  end.
Proof.
  intros Hc Hcat Hn Hs Hcb E Hr Hc2 Hn2 Hout.
  destruct (exec (HandleIBTP cache2 ctx2 ibtp) w2) as [[[r2|]|] w2'] eqn:E2; simpl; try done.
  destruct (HandleIBTP_request cache ctx Hc w ibtp r w' b c s) as (Ho & _ & _ & Hi); try done.
  destruct (HandleIBTP_request cache2 ctx2 Hc2 w2 ibtp r2 w2' b c s) as (Ho2 & _ & _ & Hi2); try done.
  destruct (decide (r2 = Some "batch_ibtp")) as [|Hr2]; [done|]. exfalso.
  specialize (Hi Hr). specialize (Hi2 Hr2). rewrite Ho2, Hout, <-Hi in Hi2.
  assert (is_u64 (ib_Index ibtp)) as Hu by (rewrite Hi, Ho; apply u64_range).
  unfold is_u64, u64 in *. destruct (decide (ib_Index ibtp + 1 < 2 ^ 64)%Z).
  - rewrite Z.mod_small in Hi2; lia.
  - replace (ib_Index ibtp + 1)%Z with (2 ^ 64)%Z in Hi2 by lia. rewrite Z.mod_same in Hi2; lia.
Qed.

(** C17: Receipts of single transactions are accepted once and in order. When a receipt is accepted for
a transaction that the transaction manager has on record, its index is the next one of the
pair of services, both ends record it, no other pair is touched, the state machine accepts
the receipt in the status the transaction had, and the transaction has the new status. *)
Theorem HandleIBTP_receipt_spec w ibtp r w' rec :
  ctx_Callee ctx = InterchainContractAddr → Category ibtp = IBTP_RESPONSE →
  exec (HandleIBTP cache ctx ibtp) w = (Some (Success r), w') →
  tm_record w (ibtp_ID ibtp) = Some rec →
  ib_Index ibtp = receipt_counter w (ib_From ibtp) (ib_To ibtp) +u 1 ∧
  receipt_counter w' (ib_From ibtp) (ib_To ibtp) = ib_Index ibtp ∧
  in_receipt_counter w' (ib_To ibtp) (ib_From ibtp) = ib_Index ibtp ∧
  (∀ f t, f ≠ ib_From ibtp ∨ t ≠ ib_To ibtp → receipt_counter w' f t = receipt_counter w f t) ∧
  ∃ s, next_status (tr_Status rec) (ib_Type ibtp) = Some s ∧
       tm_record w' (ibtp_ID ibtp) = Some (MkRecord s (tr_Height rec)).
Proof. intros Hc Hcat E Hrec. by apply (HandleIBTP_receipt cache ctx Hc w ibtp r w' rec). Qed.

(** A message that the checks refuse changes neither the state of the contract nor that of the
transaction manager. *)
Theorem HandleIBTP_refused w ibtp e w1 :
  ctx_Callee ctx = InterchainContractAddr → exec (checkIBTP cache ctx ibtp) w = (Some (inr e), w1) →
  exec (HandleIBTP cache ctx ibtp) w = (Some (Error (be_Code e) (be_Args e)), w1) ∧
  ∀ a k, a = InterchainContractAddr ∨ a = TransactionMgrContractAddr → w_state w1 a k = w_state w a k.
Proof.
  intros Hc E. split; [unfold HandleIBTP, result in *; rewrite exec_bind; by rewrite E|]. intros a k Ha.
  pose proof (outside_same_core (checkIBTP cache ctx ibtp) w (checkIBTP_writes cache ctx Hc ibtp)) as Hs.
  rewrite E in Hs. apply Hs. unfold core. destruct Ha; subst; set_solver.
Qed.
End messages.

(** ** The executor *)

Section executor.
Implicit Types (w : world).

(** A transfer between two accounts moves the amount and nothing else: the sum of the balances of any
set of accounts that contains both stays the same, and the transfer is refused, without
any change, exactly when the sender has less than the amount. *)
Theorem transfer_conserves w from to v accs :
  from ≠ to → (0 ≤ v)%Z → NoDup accs → from ∈ accs → to ∈ accs →
  let '(res, w') := exec (transfer from to (Some v)) w in
  if decide (w_balance w from < v ∧ v ≠ 0)%Z
  then res = Some (Some from) ∧ w' = w
  else res = Some None ∧ total w' accs = total w accs ∧
       w_balance w' from = (w_balance w from - v)%Z ∧ w_balance w' to = (w_balance w to + v)%Z ∧
       (∀ a, a ≠ from → a ≠ to → w_balance w' a = w_balance w a).
Proof.
  intros Hne Hv Hnd Hf Ht. rewrite transfer_spec by done.
  destruct (decide (v = 0)%Z) as [->|Hv0].
  { rewrite decide_False by lia. split_and!; try done; lia. }
  destruct (decide (w_balance w from < v)%Z) as [Hlt|Hge].
  - by rewrite decide_True by lia.
  - rewrite decide_False by lia. split; [done|]. split_and!.
    + rewrite !total_set by done. simpl. rewrite upd_ne by (by apply not_eq_sym). lia.
    + simpl. rewrite upd_ne, upd_eq by done. done.
    + simpl. by rewrite upd_eq.
    + intros a Ha1 Ha2. simpl. by rewrite !upd_ne.
Qed.

(** Gas fees. A sender whose balance covers the fee pays it, in equal shares, to the admins: the sum
of the balances shrinks only by the remainder of the division by their number; a sender
who cannot pay is refused and nothing changes. *)
Theorem payGasFee_spec config w from gasUsed accs :
  NoDup accs → from ∈ accs → (∀ a, a ∈ ec_admins config → a ∈ accs) → ec_admins config ≠ [] →
  let fees := (gasUsed * ec_bxhGasPrice config)%Z in
  let n := Z.of_nat (length (ec_admins config)) in
  if decide (w_balance w from < fees)%Z
  then exec (payGasFee config from gasUsed) w = (Some (Some from), w)
  else ∃ w', exec (payGasFee config from gasUsed) w = (Some None, w') ∧
         total w' accs = (total w accs - fees `mod` n)%Z ∧ w_state w' = w_state w.
Proof. intros. by apply payGasFee_total. Qed.

(** A transfer of an account to itself creates money: the balance that was read before the first
write is written back increased by the amount. *)
Theorem self_transfer_mints w a v :
  (0 < v ≤ w_balance w a)%Z →
  ∃ w', exec (transfer a a (Some v)) w = (Some None, w') ∧ w_balance w' a = (w_balance w a + v)%Z.
Proof.
  intros Hv. unfold transfer. rewrite decide_False by lia. cbn [exec]. rewrite decide_False by lia. cbn [exec].
  eexists. split; [done|]. simpl. by rewrite upd_eq.
Qed.

(** A transfer of a negative amount succeeds whatever the balances are and takes the amount from the
account it is addressed to. *)
Theorem negative_transfer_takes w from to v :
  from ≠ to → (v < 0 ≤ w_balance w from)%Z →
  ∃ w', exec (transfer from to (Some v)) w = (Some None, w') ∧
    w_balance w' from = (w_balance w from + Z.abs v)%Z ∧ w_balance w' to = (w_balance w to - Z.abs v)%Z.
Proof.
  intros Hne Hv. rewrite transfer_spec, !decide_False by (done || lia). eexists. split; [done|]. simpl. split.
  - rewrite upd_ne, upd_eq by done. lia.
  - rewrite upd_eq. lia.
Qed.
End executor.

(** ** Timeouts *)

Section timeouts.
Context `{TxPbLib, ConstantLib, FsmLib, GoRange, PbLib}.
Implicit Types (w : world) (ctx : Context).

Lemma tm_timeouts_set w h v : tm_timeouts (w_setState w TransactionMgrContractAddr (TimeoutKey h) v) h = v.
Proof. unfold tm_timeouts. simpl. apply upd2_eq. Qed.

Lemma addToTimeoutList_timeouts ctx h id w :
  ctx_Callee ctx = TransactionMgrContractAddr →
  tm_timeouts (exec (addToTimeoutList ctx h id) w).2 h =
  Some match tm_timeouts w h with None => id | Some v => v +:+ "," +:+ id end.
Proof. intros Hc. rewrite exec_addToTimeoutList, Hc. cbn [snd]. by rewrite tm_timeouts_set. Qed.

Lemma removeFromTimeoutList_timeouts ctx h id w s l :
  ctx_Callee ctx = TransactionMgrContractAddr → tm_timeouts w h = Some s →
  range_remove id (str_split comma s) = Some l →
  (exec (removeFromTimeoutList ctx h id) w).1 = Some tt ∧
  tm_timeouts (exec (removeFromTimeoutList ctx h id) w).2 h = Some (str_join comma l).
Proof.
  intros Hc Hs Hl. unfold removeFromTimeoutList. rewrite exec_bind, exec_Get, Hc. fold (tm_timeouts w h).
  rewrite Hs, Hl, exec_Set, Hc. cbn [fst snd]. by rewrite tm_timeouts_set.
Qed.

(** Lists of timeouts. Adding an id to a list that is absent or has entries appends it; removing an id
from a list without duplicates never panics, drops the id and keeps the others in order.
The executor reads back the list that results. *)
Theorem timeout_list_spec ctx h id w :
  ctx_Callee ctx = TransactionMgrContractAddr → no_comma id → id ≠ EmptyString →
  tm_timeouts w h ≠ Some EmptyString → NoDup (listed (tm_timeouts w h)) →
  Forall (.≠ EmptyString) (listed (tm_timeouts w h)) → Forall no_comma (listed (tm_timeouts w h)) →
  listed (tm_timeouts (exec (addToTimeoutList ctx h id) w).2 h) = listed (tm_timeouts w h) ++ [id] ∧
  (exec (removeFromTimeoutList ctx h id) w).1 = Some tt ∧
  listed (tm_timeouts (exec (removeFromTimeoutList ctx h id) w).2 h) = filter (.≠ id) (listed (tm_timeouts w h)) ∧
  exec (getTimeoutList h) w = (Some (listed (tm_timeouts w h)), w).
Proof.
  intros Hc Hid Hne Hemp Hnd Hall Hcom.
  assert (exec (getTimeoutList h) w = (Some (listed (tm_timeouts w h)), w)) as Hget by (by apply getTimeoutList_listed).
  rewrite addToTimeoutList_timeouts by done. destruct (tm_timeouts w h) as [s|] eqn:Es.
  - assert (s ≠ EmptyString) as Hs by naive_solver.
    destruct (removeFromStr_listed s id) as (s' & Hs' & Hl); try done.
    unfold removeFromStr in Hs'. destruct (range_remove id (str_split comma s)) as [l|] eqn:Er; [|done].
    injection Hs' as <-. destruct (removeFromTimeoutList_timeouts ctx h id w s l) as [Hr1 Hr2]; try done.
    split_and!; try done; [|by rewrite Hr2].
    rewrite <-writeToStr_listed by done. unfold writeToStr. by rewrite decide_False.
  - assert (exec (removeFromTimeoutList ctx h id) w = (Some tt, w)) as Hr.
    { unfold removeFromTimeoutList. rewrite exec_bind, exec_Get, Hc. fold (tm_timeouts w h). by rewrite Es. }
    rewrite Hr. cbn [fst snd]. rewrite Es. split_and!; try done.
    unfold listed. rewrite decide_False by done. by apply str_split_plain.
Qed.

(** A timeout is lost. When the only transaction listed for a height is removed, the list is left as the
empty string; the next transaction that is listed for this height comes after an empty
entry, and the executor, which takes a list that starts with an empty entry for no list,
never rolls it back. *)
Theorem emptied_list_loses_timeout ctx h g1 g2 w :
  ctx_Callee ctx = TransactionMgrContractAddr → no_comma g1 → no_comma g2 → tm_timeouts w h = None →
  let w1 := (exec (addToTimeoutList ctx h g1) w).2 in
  let w2 := (exec (removeFromTimeoutList ctx h g1) w1).2 in
  let w3 := (exec (addToTimeoutList ctx h g2) w2).2 in
  tm_timeouts w3 h = Some ("," +:+ g2) ∧ (exec (getTimeoutList h) w3).1 = Some [] ∧
  exec (setTimeoutRollback h) w3 = (Some (Some tt), w3).
Proof.
  intros Hc Hg1 Hg2 Hnone w1 w2 w3.
  assert (tm_timeouts w1 h = Some g1) as Hw1 by (subst w1; by rewrite addToTimeoutList_timeouts, Hnone).
  assert (tm_timeouts w2 h = Some EmptyString) as Hw2.
  { subst w2. destruct (removeFromTimeoutList_timeouts ctx h g1 w1 g1 []) as [_ ->]; try done.
    rewrite str_split_plain by done. apply (range_remove_once g1 [] []); set_solver. }
  assert (tm_timeouts w3 h = Some ("," +:+ g2)) as Hw3 by (subst w3; by rewrite addToTimeoutList_timeouts, Hw2).
  assert (exec (getTimeoutList h) w3 = (Some [], w3)) as Hg.
  { unfold getTimeoutList. rewrite exec_bind. cbn [exec tmGet]. fold (tm_timeouts w3 h). by rewrite Hw3. }
  split_and!; [done|by rewrite Hg|]. unfold setTimeoutRollback. by rewrite exec_bind, Hg.
Qed.

(** The receipt of a failed child does not ask the destinations of the children that have already
succeeded to roll back: [changeMultiTxStatus] has overwritten their status before the list is
built, so that it is always empty. *)
Theorem failed_child_notifies_nobody t txId t' :
  GlobalState t = BEGIN → report_step t txId IBTP_RECEIPT_FAILURE = Some t' →
  sc_NotifyDstIBTPIDs (reportChange txId (GlobalState t) t') = [].
Proof.
  intros Hb. unfold report_step. rewrite decide_True by done. intros [= <-]. unfold reportChange.
  cbn [sc_NotifyDstIBTPIDs GlobalState ChildTxInfo]. rewrite bool_decide_true by (by rewrite Hb).
  rewrite filter_none; [done|]. intros [id s] [Hne Hin]%list_elem_of_filter. simpl in *.
  apply elem_of_go_range, lookup_insert_Some in Hin as [[-> _]|[_ Hin]]; [done|].
  rewrite lookup_fmap, fmap_Some in Hin. by destruct Hin as (s0 & _ & ->).
Qed.
End timeouts.
