(* ===== verification/CrossChainSample.v ===== *)
(** * Concrete instances for the theorems about cross-chain transactions

Encodings, addresses and the other contracts are instantiated; the theorems are applied
to a relay chain with two services, and a few runs show where the code departs from what it
is meant to do. *)
From Stdlib Require Import Ascii.
From S2P Require Import Prelude Storage Account StateLedger Contract TransactionManager TransactionManagerProps.
From S2P Require Import Interchain InterchainProps Executor ExecutorProps CrossChainTheorems.

(** ** Encodings *)

Definition status_index (s : TransactionStatus) : nat :=
  match s with BEGIN => 0 | BEGIN_FAILURE => 1 | BEGIN_ROLLBACK => 2 | SUCCESS => 3 | FAILURE => 4 | ROLLBACK => 5
          | STATUS_NONE => 6 end.
Definition status_at (n : nat) : TransactionStatus :=
  match n with 0 => BEGIN | 1 => BEGIN_FAILURE | 2 => BEGIN_ROLLBACK | 3 => SUCCESS | 4 => FAILURE | 5 => ROLLBACK
          | _ => STATUS_NONE end.
Lemma status_at_index s : status_at (status_index s) = s.
Proof. by destruct s. Qed.
Global Instance TransactionStatus_countable : Countable TransactionStatus :=
  inj_countable' status_index status_at status_at_index.

Global Instance TransactionRecord_eq_dec : EqDecision TransactionRecord.
Proof. solve_decision. Defined.
Global Program Instance TransactionRecord_countable : Countable TransactionRecord :=
  inj_countable' (λ r, (tr_Status r, tr_Height r)) (λ '(s, h), MkRecord s h) _.
Next Obligation. by intros []. Qed.

Global Instance StatusChange_eq_dec : EqDecision StatusChange.
Proof. solve_decision. Defined.
Global Program Instance StatusChange_countable : Countable StatusChange :=
  inj_countable' (λ c, (sc_PrevStatus c, sc_CurStatus c, sc_ChildIBTPIDs c, sc_NotifySrcIBTPIDs c,
                        sc_NotifyDstIBTPIDs c, sc_IsFailChildIBTP c))
    (λ '(a, b, c, d, e, f), MkStatusChange a b c d e f) _.
Next Obligation. by intros []. Qed.

Global Instance TransactionInfo_eq_dec : EqDecision TransactionInfo.
Proof. solve_decision. Defined.
Global Program Instance TransactionInfo_countable : Countable TransactionInfo :=
  inj_countable' (λ t, (GlobalState t, ti_Height t, ChildTxInfo t, ChildTxCount t))
    (λ '(a, b, c, d), MkTransactionInfo a b c d) _.
Next Obligation. by intros []. Qed.

Global Instance Interchain_eq_dec : EqDecision Interchain.
Proof. solve_decision. Defined.
Global Program Instance Interchain_countable : Countable Interchain :=
  inj_countable' (λ i, (ic_ID i, InterchainCounter i, ReceiptCounter i, SourceInterchainCounter i, SourceReceiptCounter i))
    (λ '(a, b, c, d, e), MkInterchain a b c d e) _.
Next Obligation. by intros []. Qed.

Global Instance EventWrapper_eq_dec : EqDecision EventWrapper.
Proof. solve_decision. Defined.
Global Program Instance EventWrapper_countable : Countable EventWrapper :=
  inj_countable' (λ e, (ew_Index e, ew_IsBatch e)) (λ '(a, b), MkEventWrapper a b) _.
Next Obligation. by intros []. Qed.

Definition type_index (t : IBTP_Type) : nat + Z :=
  match t with IBTP_INTERCHAIN => inl 0 | IBTP_RECEIPT_SUCCESS => inl 1 | IBTP_RECEIPT_FAILURE => inl 2
          | IBTP_RECEIPT_ROLLBACK => inl 3 | IBTP_OTHER n => inr n end.
Definition type_at (x : nat + Z) : IBTP_Type :=
  match x with inl 0 => IBTP_INTERCHAIN | inl 1 => IBTP_RECEIPT_SUCCESS | inl 2 => IBTP_RECEIPT_FAILURE
          | inl _ => IBTP_RECEIPT_ROLLBACK | inr n => IBTP_OTHER n end.
Lemma type_at_index t : type_at (type_index t) = t.
Proof. by destruct t. Qed.
Global Instance IBTP_Type_countable : Countable IBTP_Type := inj_countable' type_index type_at type_at_index.

Global Instance Group_eq_dec : EqDecision StringUint64Map.
Proof. solve_decision. Defined.
Global Program Instance Group_countable : Countable StringUint64Map :=
  inj_countable' (λ g, (g_Keys g, g_Vals g)) (λ '(a, b), MkGroup a b) _.
Next Obligation. by intros []. Qed.

Global Instance IBTP_eq_dec : EqDecision IBTP.
Proof. solve_decision. Defined.
Global Program Instance IBTP_countable : Countable IBTP :=
  inj_countable' (λ i, (ib_From i, ib_To i, ib_Index i, ib_Type i, ib_TimeoutHeight i, ib_Group i, ib_Extra i, ib_Payload i, ib_Proof i))
    (λ '(a, b, c, d, e, f, g, h, i), MkIBTP a b c d e f g h i) _.
Next Obligation. by intros []. Qed.

Global Instance Hash_eq_dec : EqDecision Hash.
Proof. solve_decision. Defined.
Global Program Instance Hash_countable : Countable Hash := inj_countable' hash_Bytes MkHash _.
Next Obligation. by intros []. Qed.

Global Instance Audit_eq_dec : EqDecision AuditRelatedObjInfo.
Proof. solve_decision. Defined.
Global Program Instance Audit_countable : Countable AuditRelatedObjInfo :=
  inj_countable' (λ a, (au_AuditObj a, au_RelatedChainIDList a, au_RelatedNodeIDList a)) (λ '(a, b, c), MkAudit a b c) _.
Next Obligation. by intros []. Qed.

(** ** Libraries *)

Definition tx_lib : TxPbLib :=
  {| record_codec := codec_by_encode TransactionRecord;
     change_codec := codec_by_encode StatusChange;
     info_codec := json_by_encode TransactionInfo TransactionInfo_text;
     proof_TxStatus s := if decide (s = "failed") then Some BEGIN_FAILURE
                         else if decide (s = "rollback") then Some BEGIN_ROLLBACK else None;
     status_number s := Z.of_nat (status_index s) |}.

Definition constants : ConstantLib.
Proof.
  refine {| InterchainContractAddr := "ic"; TransactionMgrContractAddr := "tm"; ServiceMgrContractAddr := "sm";
            AppchainMgrContractAddr := "am"; InterBrokerContractAddr := "ib" |}.
  apply (bool_decide_unpack _). vm_compute. exact I.
Defined.

Definition category_of (i : IBTP) : IBTP_Category :=
  match ib_Type i with IBTP_INTERCHAIN => IBTP_REQUEST | IBTP_OTHER _ => IBTP_UNKNOWN | _ => IBTP_RESPONSE end.

Definition parse_service (s : string) : option (string * string * string) :=
  match str_split colon s with [a; b; c] => Some (a, b, c) | _ => None end.

Definition pb_lib : PbLib.
Proof.
  refine {| Category := category_of;
            ParseFullServiceID := parse_service;
            ParseIBTPID s := match str_split dash s with [f; t; i] => Some (f, t, Z.of_nat (String.length i)) | _ => None end;
            IsFinalStatus s := bool_decide (s = SUCCESS ∨ s = FAILURE ∨ s = ROLLBACK);
            NotifyFlags c := (bool_decide (sc_CurStatus c ≠ BEGIN), bool_decide (sc_CurStatus c ≠ FAILURE));
            HashString s := s;
            Event_INTERCHAIN := 0; Event_AUDIT_INTERCHAIN := 1;
            ibtp_codec := codec_by_encode IBTP;
            interchain_codec := codec_by_encode Interchain;
            group_encoding := encoding_by_encode (gmap string Z);
            hash_encoding := encoding_by_encode Hash;
            events_encoding := encoding_by_encode (gmap string EventWrapper);
            audit_encoding := encoding_by_encode AuditRelatedObjInfo;
            notify_encoding := encoding_by_encode (gmap string (list string));
            json_string s := Some s |}.
  - intros i. unfold category_of. by destruct (ib_Type i).
  - intros i Hin. unfold category_of. destruct (ib_Type i); set_solver.
  - intros a b c Ha Hb Hc. unfold parse_service. by rewrite str_split_join by (done || by repeat constructor).
  - intros s. apply bool_decide_eq_true.
Defined.

(** A service is whether it takes its requests in order. *)
Definition services : ServiceLib :=
  {| Service := bool; sv_Ordered s := s; sv_Status _ := EmptyString; sv_IsAvailable _ := true;
     CheckPermission _ _ := true; service_encoding := encoding_by_encode bool |}.

(** Contracts that answer and do nothing. *)
Definition silent (ctx : Context) : prog Response := mret (Success None).

Definition peers : @PeerContracts constants.
Proof.
  refine {| ServiceMgr_GetServiceInfo _ := silent; ServiceMgr_RecordInvokeService _ _ _ := silent;
            AppchainMgr_IsAvailableBitxhub _ := silent; InterBroker_InvokeInterchain _ := silent;
            InterBroker_InvokeReceipt _ := silent |}; by intros.
Defined.

Module CrossChain.
Local Existing Instance tx_lib.
Local Existing Instance constants.
Local Existing Instance pb_lib.
Local Existing Instance services.
Local Existing Instance peers.
Local Existing Instance fsm_by_filter.
Local Existing Instance range_by_encoding.
Local Existing Instance hash_plain.

(** A relay chain with the id 1 and nothing else. *)
Definition w0 : world :=
  MkWorld (λ a k, if decide (a = "ic" ∧ k = BitXHubID) then Some "1" else None) (λ _, 0%Z) (λ _, 0%Z) (λ _, None) (λ _, []).

Definition ctx : Context := MkContext "user" "ic" "user" 0 "hash" 100 false None 0.
Definition tm_ctx : Context := MkContext "user" "tm" "ic" 0 "hash" 100 false None 0.

(** Services of the chains a and b; [ordered] tells whether b takes requests in order. *)
Definition cache (ordered : bool) : gmap string Service :=
  {["a:s" := true; "b:s" := ordered]}.

Definition request (index : Z) : IBTP := MkIBTP "1:a:s" "1:b:s" index IBTP_INTERCHAIN 10 None EmptyString EmptyString None.
Definition receipt (index : Z) (t : IBTP_Type) : IBTP := MkIBTP "1:a:s" "1:b:s" index t 10 None EmptyString EmptyString None.

Definition w1 : world := (exec (HandleIBTP (Some (cache true)) ctx (request 1)) w0).2.

(** The outcome of a program whose first component is known. *)
Lemma outcome {A} (p : prog A) w r : (exec p w).1 = Some r → exec p w = (Some r, (exec p w).2).
Proof. intros <-. by destruct (exec p w). Qed.

Lemma w1_reached : exec (HandleIBTP (Some (cache true)) ctx (request 1)) w0 = (Some (Success None), w1).
Proof. apply outcome. vm_compute. reflexivity. Qed.

Lemma HandleIBTP_request_witness :
  out_counter w1 "1:a:s" "1:b:s" = 1%Z ∧ in_counter w1 "1:b:s" "1:a:s" = 1%Z.
Proof.
  destruct (HandleIBTP_request_spec (Some (cache true)) ctx w0 (request 1) None w1 "1" "b" "s") as (H1 & H2 & _).
  - reflexivity.
  - reflexivity.
  - vm_compute. reflexivity.
  - reflexivity.
  - discriminate.
  - exact w1_reached.
  - split; [|exact H2]. refine (eq_trans H1 _). vm_compute. reflexivity.
Defined.

(** The second time, the index is refused. *)
Lemma HandleIBTP_no_replay_witness :
  (exec (HandleIBTP (Some (cache true)) ctx (request 1)) w1).1 = Some (Error "InterchainIbtpIndexExistCode" ["2"; "1"]) ∧
  match (exec (HandleIBTP (Some (cache true)) ctx (request 1)) w1).1 with
  | Some (Success r2) => r2 = Some "batch_ibtp"
  | _ => True
  end.
Proof.
  split; [vm_compute; reflexivity|].
  apply (HandleIBTP_no_replay (Some (cache true)) ctx w0 (request 1) None w1 (Some (cache true)) ctx w1 "1" "b" "s").
  - reflexivity.
  - reflexivity.
  - vm_compute. reflexivity.
  - reflexivity.
  - discriminate.
  - exact w1_reached.
  - discriminate.
  - reflexivity.
  - vm_compute. reflexivity.
  - reflexivity.
Defined.

Definition txId : string := "1:a:s-1:b:s-1".

Definition w2 : world := (exec (HandleIBTP (Some (cache true)) ctx (receipt 1 IBTP_RECEIPT_SUCCESS)) w1).2.

Lemma HandleIBTP_receipt_witness :
  receipt_counter w2 "1:a:s" "1:b:s" = 1%Z ∧ tm_record w2 txId = Some (MkRecord SUCCESS 110).
Proof.
  destruct (HandleIBTP_receipt_spec (Some (cache true)) ctx w1 (receipt 1 IBTP_RECEIPT_SUCCESS) None w2 (MkRecord BEGIN 110))
    as (_ & H1 & _ & _ & s & Hs & Hrec).
  - reflexivity.
  - reflexivity.
  - apply outcome. vm_compute. reflexivity.
  - vm_compute. reflexivity.
  - injection Hs as <-. split; [exact H1|exact Hrec].
Defined.

(** A receipt of an index that is too high. *)
Lemma HandleIBTP_refused_witness :
  exec (HandleIBTP (Some (cache true)) ctx (request 7)) w0 =
    (Some (Error "InterchainIbtpIndexWrongCode" ["1"; "7"]), (exec (checkIBTP (Some (cache true)) ctx (request 7)) w0).2).
Proof.
  destruct (HandleIBTP_refused (Some (cache true)) ctx w0 (request 7) (MkBxhError "InterchainIbtpIndexWrongCode" ["1"; "7"])
              (exec (checkIBTP (Some (cache true)) ctx (request 7)) w0).2) as [H1 _].
  - reflexivity.
  - apply outcome. vm_compute. reflexivity.
  - exact H1.
Defined.

Lemma single_tx_lifecycle_witness :
  (report_all tm_ctx txId [IBTP_RECEIPT_ROLLBACK; IBTP_RECEIPT_SUCCESS; IBTP_RECEIPT_FAILURE]
     (exec (Begin tm_ctx txId 10 false) w0).2).1 = [false; true; false] ∧
  tm_record (exec (Begin tm_ctx txId 10 false) w0).2 txId = Some (MkRecord BEGIN 110).
Proof.
  split; [vm_compute; reflexivity|].
  destruct (single_tx_lifecycle tm_ctx txId 10 false [IBTP_RECEIPT_ROLLBACK; IBTP_RECEIPT_SUCCESS; IBTP_RECEIPT_FAILURE] w0)
    as [H1 _]; [reflexivity|reflexivity|]. exact H1.
Defined.

(** Two children of a transaction, of which one succeeds and the other fails. *)
Definition g1 : world := (exec (BeginMultiTXs tm_ctx "gid" "1:a:s-1:b:s-1" 10 false 2) w0).2.
Definition g2 : world := (exec (BeginMultiTXs tm_ctx "gid" "1:a:s-1:c:s-1" 10 false 2) g1).2.
Definition g3 : world := (exec (Report tm_ctx "1:a:s-1:b:s-1" IBTP_RECEIPT_SUCCESS) g2).2.
Definition g4 : world := (exec (Report tm_ctx "1:a:s-1:c:s-1" IBTP_RECEIPT_FAILURE) g3).2.

Definition g4_info : TransactionInfo :=
  MkTransactionInfo BEGIN_FAILURE 110 {["1:a:s-1:b:s-1" := BEGIN_FAILURE; "1:a:s-1:c:s-1" := FAILURE]} 2.

Lemma starts_ne (id : string) (c : ascii) (s : string) : id = String c s → c ≠ "t"%char → c ≠ "g"%char → plain_id id.
Proof. intros -> Ht Hg. split_and!; by intros ? [=]. Qed.

Lemma global_tx_atomic_witness :
  tm_info g4 "gid" = Some g4_info ∧
  ¬ ∃ id1 id2, ChildTxInfo g4_info !! id1 = Some SUCCESS ∧
               (ChildTxInfo g4_info !! id2 = Some FAILURE ∨ ChildTxInfo g4_info !! id2 = Some ROLLBACK).
Proof.
  assert (tm_info g4 "gid" = Some g4_info) as Hinfo by (vm_compute; reflexivity). split; [exact Hinfo|].
  refine (proj2 (global_tx_atomic w0 g4 "gid" g4_info _ _ Hinfo)).
  - intros g. reflexivity.
  - eapply rtc_l; [apply (ts_begin_multi tm_ctx "gid" "1:a:s-1:b:s-1" 10 false 2 w0); [reflexivity|reflexivity|]|].
    { by eapply starts_ne. }
    eapply rtc_l; [apply (ts_begin_multi tm_ctx "gid" "1:a:s-1:c:s-1" 10 false 2 g1); [reflexivity|reflexivity|]|].
    { by eapply starts_ne. }
    eapply rtc_l; [apply (ts_report tm_ctx "1:a:s-1:b:s-1" IBTP_RECEIPT_SUCCESS g2); reflexivity|].
    eapply rtc_l; [apply (ts_report tm_ctx "1:a:s-1:c:s-1" IBTP_RECEIPT_FAILURE g3); reflexivity|].
    apply rtc_refl.
Defined.

(** Balances. *)
Definition bank : world := MkWorld (λ _ _, None) (λ a, if decide (a = "x") then 100 else 7)%Z (λ _, 0%Z) (λ _, None) (λ _, []).

Lemma transfer_witness :
  total (exec (transfer "x" "y" (Some 30%Z)) bank).2 ["x"; "y"; "z"] = 114%Z.
Proof.
  assert (NoDup ["x"; "y"; "z"]) as Hnd by (apply (bool_decide_unpack _); vm_compute; exact I).
  pose proof (transfer_conserves bank "x" "y" 30 ["x"; "y"; "z"] ltac:(discriminate) ltac:(lia) Hnd
                ltac:(set_solver) ltac:(set_solver)) as Hc.
  destruct (exec (transfer "x" "y" (Some 30%Z)) bank) as [res w'] eqn:E.
  destruct (decide _) as [[Hlt _]|_]; [vm_compute in Hlt; discriminate Hlt|].
  destruct Hc as (_ & Ht & _). refine (eq_trans Ht _). vm_compute. reflexivity.
Defined.

Lemma payGasFee_witness :
  total (exec (payGasFee (MkExecConfig ["y"; "z"] 3 1) "x" 7) bank).2 ["x"; "y"; "z"] = 113%Z.
Proof.
  assert (NoDup ["x"; "y"; "z"]) as Hnd by (apply (bool_decide_unpack _); vm_compute; exact I).
  pose proof (payGasFee_spec (MkExecConfig ["y"; "z"] 3 1) bank "x" 7 ["x"; "y"; "z"] Hnd
                ltac:(set_solver) ltac:(set_solver) ltac:(discriminate)) as Hc.
  cbv zeta in Hc. destruct (decide _) as [Hlt|_]; [vm_compute in Hlt; discriminate Hlt|].
  destruct Hc as (w' & E & Ht & _). rewrite E. refine (eq_trans Ht _). vm_compute. reflexivity.
Defined.

Lemma self_transfer_witness : w_balance (exec (transfer "x" "x" (Some 100%Z)) bank).2 "x" = 200%Z.
Proof.
  destruct (self_transfer_mints bank "x" 100) as (w' & E & Hb); [vm_compute; split; congruence|].
  rewrite E. exact Hb.
Defined.

Lemma negative_transfer_witness : w_balance (exec (transfer "x" "y" (Some (-50)%Z)) bank).2 "y" = (-43)%Z.
Proof.
  destruct (negative_transfer_takes bank "x" "y" (-50)) as (w' & E & _ & Hb);
    [discriminate|vm_compute; split; congruence|].
  rewrite E. exact Hb.
Defined.

(** Lists of timeouts. *)
Definition wt : world := (exec (addToTimeoutList tm_ctx 110 "g1") w0).2.

Lemma timeout_list_witness :
  listed (tm_timeouts (exec (addToTimeoutList tm_ctx 110 "g2") wt).2 110) = ["g1"; "g2"] ∧
  exec (getTimeoutList 110) wt = (Some ["g1"], wt).
Proof.
  destruct (timeout_list_spec tm_ctx 110 "g2" wt) as (H1 & _ & _ & H2); try reflexivity; try discriminate.
  - apply (bool_decide_unpack _). vm_compute. exact I.
  - apply (bool_decide_unpack _). vm_compute. exact I.
  - apply Forall_singleton. reflexivity.
  - split; [exact H1|exact H2].
Defined.

Lemma emptied_list_witness :
  exec (setTimeoutRollback 110) (exec (addToTimeoutList tm_ctx 110 "g2") (exec (removeFromTimeoutList tm_ctx 110 "g1") wt).2).2 =
  (Some (Some tt), (exec (addToTimeoutList tm_ctx 110 "g2") (exec (removeFromTimeoutList tm_ctx 110 "g1") wt).2).2).
Proof.
  destruct (emptied_list_loses_timeout tm_ctx 110 "g1" "g2" w0) as (_ & _ & H1); [reflexivity..|exact H1].
Defined.

(** A child that had succeeded when another one failed. *)
Definition half : TransactionInfo :=
  MkTransactionInfo BEGIN 110 {["1:a:s-1:b:s-1" := SUCCESS; "1:a:s-1:c:s-1" := BEGIN]} 2.

Lemma failed_child_witness :
  sc_NotifyDstIBTPIDs (reportChange "1:a:s-1:c:s-1" BEGIN g4_info) = [].
Proof. by apply (failed_child_notifies_nobody half). Defined.

(** Destinations that take batches accept the same request again and again: the index is not looked
at, the counter is increased each time, and the transaction, which had succeeded, is opened
again. *)
Theorem batch_request_replayed :
  let u1 := (exec (HandleIBTP (Some (cache false)) ctx (request 1)) w0).2 in
  let u2 := (exec (HandleIBTP (Some (cache false)) ctx (receipt 1 IBTP_RECEIPT_SUCCESS)) u1).2 in
  let u3 := exec (HandleIBTP (Some (cache false)) ctx (request 1)) u2 in
  tm_record u2 txId = Some (MkRecord SUCCESS 110) ∧ u3.1 = Some (Success (Some "batch_ibtp")) ∧
  tm_record u3.2 txId = Some (MkRecord BEGIN 110) ∧ out_counter u3.2 "1:a:s" "1:b:s" = 2%Z.
Proof. intros u1 u2 u3. split_and!; vm_compute; reflexivity. Qed.

(** A transaction with a single child never ends once the child has failed: the child is final, every
further receipt is refused, and the whole transaction stays in BEGIN_FAILURE. *)
Theorem single_child_failure_stuck :
  let u1 := (exec (BeginMultiTXs tm_ctx "gid" txId 10 false 1) w0).2 in
  let u2 := (exec (Report tm_ctx txId IBTP_RECEIPT_FAILURE) u1).2 in
  tm_info u2 "gid" = Some (MkTransactionInfo BEGIN_FAILURE 110 {[txId := FAILURE]} 1) ∧
  (report_all tm_ctx txId [IBTP_RECEIPT_FAILURE; IBTP_RECEIPT_SUCCESS; IBTP_RECEIPT_ROLLBACK] u2).1 =
    [false; false; false].
Proof. intros u1 u2. split; vm_compute; reflexivity. Qed.

(** A finished transaction between relay chains can be changed again: [BeginInterBitXHub] does not read the
record that exists, so that a proof of failure turns a transaction that has succeeded into
a failed one and erases its timeout height. *)
Theorem inter_relay_record_overwritten :
  let u1 := (exec (BeginInterBitXHub tm_ctx txId 10 EmptyString false) w0).2 in
  let u2 := (exec (Report tm_ctx txId IBTP_RECEIPT_SUCCESS) u1).2 in
  let u3 := (exec (BeginInterBitXHub tm_ctx txId 10 "failed" false) u2).2 in
  tm_record u2 txId = Some (MkRecord SUCCESS 110) ∧ tm_record u3 txId = Some (MkRecord FAILURE 0).
Proof. intros u1 u2 u3. split; vm_compute; reflexivity. Qed.

(** Children for different chains are all announced to the chain of the first one. *)
Theorem notify_map_uses_first_id :
  (d ← w_state (exec (addToMultiTxNotifyMap ctx 100 ["1:a:s-1:b:s-1"; "1:a:s-1:c:s-1"] false) w0).2 "ic" (MultiTxNotifyKey 100);
   unmarshal d) = Some ({["b" := ["1:a:s-1:b:s-1"; "1:a:s-1:c:s-1"]]} : gmap string (list string)).
Proof. vm_compute. reflexivity. Qed.
End CrossChain.
