(* ===== verification/Transactions.v ===== *)
(** * Applying transactions: [src/internal/executor/handle.go], [src/pkg/vm/boltvm/boltvm.go]

A transaction is run on the ledger: the dispatch to the built-in contracts, the snapshot that a failed
transaction goes back to, the gas fee, the nonce, transactions of Ethereum, and what the events of a
transaction leave in the executor. Programs of contracts run on the ledger with [run_ledger]. The texts of
errors are the fixed words that they begin with. *)
From Stdlib Require Import Ascii.
From S2P Require Import Prelude Storage Account StateLedger Contract TransactionManager Interchain Executor.

(** ** Data *)

(** [pb.TransactionData]; a type other than NORMAL is INVOKE. *)
Inductive TransactionData_Type := TX_NORMAL | TX_INVOKE.
Inductive TransactionData_VMType := VM_BVM | VM_XVM | VM_OTHER.
Record TransactionData := MkTransactionData {
  td_Type : TransactionData_Type; td_Amount : string; td_VmType : TransactionData_VMType; td_Payload : string }.

(** [pb.BxhTransaction] *)
Record BxhTransaction := MkBxhTransaction {
  tx_From : string; tx_To : string; tx_Nonce : Z; tx_Hash : string; tx_TimeStamp : Z;
  tx_IBTP : option IBTP; tx_Payload : option string; tx_Extra : option string }.

(** [types.EthTransaction]: what the executor reads of it; the message for the virtual machine is not looked at. *)
Record EthTransaction := MkEthTransaction {
  et_From : string; et_To : option string; et_Nonce : Z; et_Hash : string; et_TimeStamp : Z; et_Data : string }.

(** [pb.Transaction] and its implementations; [UnknownTx] is any other. *)
Inductive Transaction :=
| BxhTx (tx : BxhTransaction)
| EthTx (tx : EthTransaction)
| UnknownTx (from : string) (nonce : Z) (hash : string).

Definition GetFrom (tx : Transaction) : string :=
  match tx with BxhTx tx => tx_From tx | EthTx tx => et_From tx | UnknownTx from _ _ => from end.
Definition tx_GetNonce (tx : Transaction) : Z :=
  match tx with BxhTx tx => tx_Nonce tx | EthTx tx => et_Nonce tx | UnknownTx _ nonce _ => nonce end.
Definition GetHash (tx : Transaction) : string :=
  match tx with BxhTx tx => tx_Hash tx | EthTx tx => et_Hash tx | UnknownTx _ _ hash => hash end.
Definition GetIBTP (tx : Transaction) : option IBTP := match tx with BxhTx tx => tx_IBTP tx | _ => None end.

Definition IsIBTP (tx : BxhTransaction) : bool := bool_decide (is_Some (tx_IBTP tx)).

(** [pb.InvokePayload] *)
Inductive Arg_Type := Arg_F64 | Arg_I32 | Arg_I64 | Arg_U64 | Arg_String | Arg_Bytes | Arg_Bool | Arg_OTHER.
Record Arg := MkArg { arg_Type : Arg_Type; arg_Value : string }.
Record InvokePayload := MkInvokePayload { ip_Method : string; ip_Args : list Arg }.

Definition GasNormalTx : Z := 21000.
Definition GasFailedTx : Z := 21000.
Definition GasBVMTx : Z := 21000 * 10.

(** Packages: the messages of errors in [bitxhub-core/boltvm], protobuf, and numbers with a fraction. *)
Class BvmLib := {
  txdata_codec :: Codec TransactionData;
  payload_codec :: Codec InvokePayload;
  error_text : string → list string → string;
  Float : Type;
  ParseFloat : string → option Float
}.

(** ** Arguments of contracts *)

(** Numbers with a sign in base 10; [None] is a syntax or a range error. *)
Definition Atoi (s : string) : option Z :=
  let sign := match s with String c _ => bool_decide (c = "-"%char) | EmptyString => false end in
  let digits := match s with
                | String c s' => if decide (c = "-"%char ∨ c = "+"%char) then s' else s
                | EmptyString => s
                end in
  match digits with
  | EmptyString => None
  | String _ _ =>
      v ← digits_value digits 0;
      let v := if sign then (- v)%Z else v in
      if decide (- 2 ^ 63 ≤ v < 2 ^ 63)%Z then Some v else None
  end.

Lemma Atoi_fmt_d z : is_i64 z → Atoi (fmt_d z) = Some z.
Proof.
  assert (∀ z, (0 ≤ z < 2 ^ 64)%Z → ∃ c s, fmt_d z = String c s ∧ digits_value (String c s) 0 = Some z) as Hd.
  { intros n Hn. pose proof (ParseUint_fmt_d n ltac:(lia)) as Hp. destruct (fmt_d n) as [|c s]; [done|]. exists c, s. split; [done|].
    unfold ParseUint in Hp. destruct (digits_value (String c s) 0) as [v|]; [|done]. cbn [mbind option_bind] in Hp. by case_decide. }
  unfold is_i64. intros Hz. destruct (decide (0 ≤ z)%Z) as [Hpos|Hneg].
  - destruct (Hd z ltac:(lia)) as (c & s & -> & Ev). unfold Atoi.
    assert (c ≠ "-"%char ∧ c ≠ "+"%char) as [Hn1 Hn2] by (split; intros ->; discriminate Ev).
    rewrite bool_decide_false by done. rewrite decide_False by (by intros [|]). rewrite Ev. cbn [mbind option_bind].
    by rewrite decide_True by lia.
  - destruct (Hd (- z)%Z ltac:(lia)) as (c & s & E & Ev).
    assert (fmt_d z = String "-" (String c s)) as ->. { rewrite <-E. destruct z as [|p|p]; [lia|lia|reflexivity]. }
    unfold Atoi. rewrite bool_decide_true, decide_True by auto. rewrite Ev. cbn [mbind option_bind].
    by rewrite Z.opp_involutive, decide_True by lia.
Qed.

(** The conversion to [int32]. *)
Definition i32 (z : Z) : Z := ((z + 2 ^ 31) `mod` 2 ^ 32 - 2 ^ 31)%Z.

Section arguments.
Context `{BvmLib}.

Inductive ArgValue :=
| VFloat64 (x : Float) | VInt32 (z : Z) | VInt64 (z : Z) | VUint64 (z : Z)
| VString (s : string) | VBytes (s : string) | VBool (b : bool).

Definition parseArg (a : Arg) : option ArgValue :=
  match arg_Type a with
  | Arg_F64 => VFloat64 <$> ParseFloat (arg_Value a)
  | Arg_I32 => (λ v, VInt32 (i32 v)) <$> Atoi (arg_Value a)
  | Arg_I64 => VInt64 <$> Atoi (arg_Value a)
  | Arg_U64 => VUint64 <$> ParseUint (arg_Value a)
  | Arg_String => Some (VString (arg_Value a))
  | Arg_Bytes => Some (VBytes (arg_Value a))
  | Arg_Bool => VBool <$> ParseBool (arg_Value a)
  | Arg_OTHER => Some (VString (arg_Value a))
  end.

Definition parseArgs (ins : list Arg) : option (list ArgValue) := mapM parseArg ins.

(** ** The virtual machine for built-in contracts *)

(** A contract: its methods by name. Arguments that do not fit the method make the call panic. *)
Definition BoltContract : Type := string → option (list ArgValue → Context → prog Response).

(** A result with its gas, or an error. *)
Definition VmResult : Type := (option string + string) * Z.

(** [contracts] is the register of contracts by address. *)
Definition InvokeBVM (contracts : string → option BoltContract) (ctx : Context) (address input : string) :
    prog (option string + string) :=
  match unmarshal input with
  | None => mret (inr "unmarshal invoke payload")
  | Some payload =>
      match contracts address with
      | None => mret (inr "get bolt contract")
      | Some contract =>
          match contract (ip_Method payload) with
          | None => mret (inr ("not such method " +:+ ip_Method payload))
          | Some m =>
              match parseArgs (ip_Args payload) with
              | None => mret (inr "parse args")
              | Some args =>
                  res ← m args ctx;
                  mret match res with
                       | Success data => inl data
                       | Error code args => inr (error_text code args)
                       end
              end
          end
      end
  end.

(** Panics of the contract become errors. *)
Definition bvm_Run (contracts : string → option BoltContract) (ctx : Context) (input : string) : prog (option string + string) :=
  res ← recover (InvokeBVM contracts ctx (ctx_Callee ctx) input);
  mret (default (inr "panic") res).
End arguments.

(** The context of a transaction. *)
Definition NewContext (tx : BxhTransaction) (txIndex height : Z) (enableAudit : bool) (changer : option changer_ptr) : Context :=
  MkContext (tx_From tx) (tx_To tx) (tx_From tx) txIndex (tx_Hash tx) height enableAudit changer (tx_TimeStamp tx).

(** The same for a transaction of Ethereum. *)
Definition NewEthContext (tx : EthTransaction) (txIndex height : Z) (enableAudit : bool) : Context :=
  MkContext (et_From tx) (default EmptyString (et_To tx)) (et_From tx) txIndex (et_Hash tx) height enableAudit None (et_TimeStamp tx).

(** [boltvm.Register]: the contracts that are enabled, by address; [None] is the panic for an address twice. *)
Fixpoint Register {C} (contracts : list (bool * string * C)) (register : gmap string C) : option (gmap string C) :=
  match contracts with
  | [] => Some register
  | (enabled, address, c) :: contracts =>
      if negb enabled then Register contracts register
      else match register !! address with
           | Some _ => None
           | None => Register contracts (<[address := c]> register)
           end
  end.

Section bvm_ibtp.
Context `{BvmLib, TxPbLib, ConstantLib, PbLib, ServiceLib, !PeerContracts, GoRange, FsmLib, HashLib}.

(** The handling of a message between chains: only that the receiver is some contract is checked. *)
Definition bvm_HandleIBTP (contracts : string → option BoltContract) (cache : gmap string Service) (ctx : Context) (ibtp : IBTP) :
    prog (option string + string) :=
  res ← recover (match contracts (ctx_Callee ctx) with
                 | None => mret (inr "get bolt contract")
                 | Some _ =>
                     res ← HandleIBTP (Some cache) ctx ibtp;
                     mret match res with
                          | Success data => inl data
                          | Error code args => inr (error_text code args)
                          end
                 end);
  mret (default (inr "panic") res).
End bvm_ibtp.

(** ** Transactions on the ledger *)

Section apply.
Context `{StorageLib, LruLib, AddressLib, InnerAccountLib, AccessListLib}.
Context `{BvmLib, TxPbLib, ConstantLib, PbLib, ServiceLib, !PeerContracts, GoRange, FsmLib, HashLib}.

(** The register of contracts; WebAssembly contracts: whether an instance can be made, and its run. *)
Context (contracts : string → option BoltContract).
Context (XVM_New : Context → bool) (XVM_Run : Context → string → Z → prog VmResult).

(** The virtual machine of Ethereum: an error of the message, or the result of its run. *)
Record ExecutionResult := MkExecutionResult { er_UsedGas : Z; er_Err : option string; er_ReturnData : string }.
Context (EVM_ApplyMessage : EthTransaction → Z → LM (string + ExecutionResult)).
Context (ErrExecutionReverted : string) (CreateAddress : string → Z → string) (zeroAddress : string).
(** [strings.EqualFold] *)
Context (EqualFold : string → string → bool).

(** The fields of [BlockExecutor] that applying a transaction reads. *)
Record BlockExecutor := MkBlockExecutor {
  be_config : ExecConfig; be_EnableAudit : bool; be_supportParallel : bool; be_gasLimit : Z; be_currentHeight : Z }.

Context (be : BlockExecutor).

Definition revert_if (failed : bool) (snapshot : Z) : LM () := if failed then RevertToSnapshot snapshot else mret tt.

Definition is_err {A B} (r : A + B) : bool := match r with inl _ => false | inr _ => true end.

Definition applyBxhTransaction (i : Z) (tx : BxhTransaction) (invalidReason : string) (changer : option changer_ptr)
    (serviceCache : gmap string Service) : LM VmResult :=
  if decide (invalidReason ≠ EmptyString) then mret (inr invalidReason, GasFailedTx)
  else
  match tx_IBTP tx with
  | Some ibtp =>
      let ctx := NewContext tx i (be_currentHeight be +u 1) (be_EnableAudit be) changer in
      ret ← run_ledger (bvm_HandleIBTP contracts serviceCache ctx ibtp);
      mret (ret, GasBVMTx)
  | None =>
      match tx_Payload tx with
      | None => mret (inr "empty transaction data", GasFailedTx)
      | Some payload =>
          match unmarshal payload with
          | None => mret (inr "unmarshal transaction data", GasFailedTx)
          | Some data =>
              snapshot ← Snapshot;
              match td_Type data with
              | TX_NORMAL =>
                  let val := default 0%Z (big_SetString (td_Amount data)) in
                  err ← run_ledger (transfer (tx_From tx) (tx_To tx) (Some val));
                  _ ← revert_if (bool_decide (is_Some (err : option string))) snapshot;
                  mret (match err with None => inl None | Some _ => inr "not sufficient funds" end, GasNormalTx)
              | TX_INVOKE =>
                  let ctx := NewContext tx i (be_currentHeight be) (be_EnableAudit be) None in
                  match td_VmType data with
                  | VM_BVM =>
                      ret ← run_ledger (bvm_Run contracts ctx (td_Payload data));
                      _ ← revert_if (is_err ret) snapshot;
                      mret (ret, GasBVMTx)
                  | VM_XVM =>
                      if negb (XVM_New ctx) then mret (inr "new wasm", GasFailedTx)
                      else
                        '(ret, gasRunUsed) ← run_ledger (XVM_Run ctx (td_Payload data) (be_gasLimit be));
                        _ ← revert_if (is_err ret) snapshot;
                        mret (ret, gasRunUsed)
                  | VM_OTHER => mret (inr "wrong vm type", GasFailedTx)
                  end
              end
          end
      end
  end.

(** The receipt of a result. *)
Definition receiptOf (tx : BxhTransaction) (ret : option string + string) (gasUsed : Z) : LM Receipt :=
  match ret with
  | inr err => mret (MkReceipt (tx_Hash tx) false (Some err) gasUsed false [] [] None)
  | inl ret =>
      logs ← GetLogs (tx_Hash tx);
      mret (MkReceipt (tx_Hash tx) true ret gasUsed (bool_decide (ret = Some "begin_failure")) logs [] None)
  end.

(** The gas fee; a sender who cannot pay it loses the effects of the transaction and all that is left. *)
Definition chargeGas (from : string) (gasUsed : Z) (receipt : Receipt) (revert : LM ()) : LM Receipt :=
  err ← run_ledger (payGasFee (be_config be) from gasUsed);
  match err with
  | None => mret receipt
  | Some _ =>
      _ ← revert;
      _ ← run_ledger (payLeftAsGasFee (be_config be) from);
      mret (with_rc_Result receipt false (Some "insufficient balance"))
  end.

(** *** Transactions of Ethereum *)

Definition applyEthTransaction (tx : EthTransaction) : LM Receipt :=
  snapshot ← Snapshot;
  result ← EVM_ApplyMessage tx (be_gasLimit be);
  match result with
  | inl err =>
      _ ← RevertToSnapshot snapshot;
      _ ← Finalise true;
      mret (MkReceipt (et_Hash tx) false (Some err) 0 false [] [] None)
  | inr result =>
      let ret := match er_Err result with
                 | Some err => if String.prefix ErrExecutionReverted err then err +:+ er_ReturnData result else err
                 | None => er_ReturnData result
                 end in
      _ ← Finalise true;
      logs ← GetLogs (et_Hash tx);
      mret (MkReceipt (et_Hash tx) (bool_decide (er_Err result = None)) (Some ret) (er_UsedGas result) false logs []
              (if decide (et_To tx = None ∨ et_To tx = Some zeroAddress) then Some (CreateAddress (et_From tx) (et_Nonce tx)) else None))
  end.

(** The first log of the broker contract is a call of that contract. *)
Definition evmInterchain (i : Z) (tx : EthTransaction) (receipt : Receipt) : LM Receipt :=
  if negb (rc_Success receipt) then mret receipt
  else
    match list_find (λ log, EqualFold (el_address log) InterBrokerContractAddr = true) (rc_EvmLogs receipt) with
    | None => mret receipt
    | Some (_, log) =>
        let ctx := NewEthContext tx i (be_currentHeight be) (be_EnableAudit be) in
        ret ← run_ledger (InvokeBVM contracts ctx InterBrokerContractAddr (el_data log));
        mret match ret with
             | inl ret => with_rc_Result receipt (rc_Success receipt) ret
             | inr _ => with_rc_Result receipt false None
             end
    end.

(** *** All transactions *)

(** In parallel execution, messages between chains log their changes to a change log of their own. *)
Definition applyTransaction (i : Z) (tx : Transaction) (invalidReason : string) (serviceCache : gmap string Service) :
    LM Receipt :=
  let finish (receipt : Receipt) :=
    _ ← SetNonce (GetFrom tx) (tx_GetNonce tx +u 1);
    _ ← Finalise true;
    mret receipt in
  match tx with
  | BxhTx tx =>
      if be_supportParallel be && IsIBTP tx
      then
        changer ← GetInstance;
        _ ← PrepareEVM (tx_Hash tx) i;
        '(snapshot, changer) ← SnapshotForParallel changer;
        '(ret, gasUsed) ← applyBxhTransaction i tx invalidReason (Some (ci_changer changer)) serviceCache;
        receipt ← receiptOf tx ret gasUsed;
        receipt ← chargeGas (tx_From tx) gasUsed receipt (_ ← RevertToSnapshotForParallel snapshot changer; mret tt);
        _ ← SetNonce (tx_From tx) (tx_Nonce tx +u 1);
        _ ← ReleaseChangeInstance changer;
        mret receipt
      else
        _ ← PrepareEVM (tx_Hash tx) i;
        snapshot ← Snapshot;
        '(ret, gasUsed) ← applyBxhTransaction i tx invalidReason None serviceCache;
        receipt ← receiptOf tx ret gasUsed;
        receipt ← chargeGas (tx_From tx) gasUsed receipt (RevertToSnapshot snapshot);
        finish receipt
  | EthTx tx =>
      _ ← PrepareEVM (et_Hash tx) i;
      receipt ← applyEthTransaction tx;
      receipt ← evmInterchain i tx receipt;
      finish receipt
  | UnknownTx from nonce hash =>
      _ ← PrepareEVM hash i;
      let receipt := MkReceipt hash false (Some "unknown tx type") GasFailedTx false [] [] None in
      receipt ← chargeGas from GasFailedTx receipt (mret tt);
      finish receipt
  end.
End apply.
