(* ===== verification/TransactionTheorems.v ===== *)
(** * Theorems about transactions

The first transaction that a block applies to the ledger does what its specification on plain maps says: the program
of the contract runs, a failed one leaves nothing but the fee and the nonce, and a sender who cannot pay
loses the effects and the rest of the balance. *)
From Stdlib Require Import Ascii.
From S2P Require Import Prelude Btree Storage Account StateLedger StateLedgerProps LedgerTheorems Contract LedgerRefinement.
From S2P Require Import TransactionManager Interchain Executor Transactions.

(** ** The specification *)

Definition with_events (w : world) ev : world := MkWorld (w_state w) (w_balance w) (w_nonce w) (w_codehash w) ev.

(** The program that returned [r] took [w] to [w1] and used [gas]: whether the transaction succeeds, its answer, and
the state that it leaves. *)
Definition tx_spec (config : ExecConfig) (from : string) (nonce : Z) (r : option string + string) (gas : Z) (w w1 : world) :
    option (bool * option string * world) :=
  match run_world (payGasFee config from gas) (if is_err r then w else w1) with
  | Some (None, w2) =>
      Some (negb (is_err r), match r with inl ret => ret | inr err => Some err end, w_setNonce w2 from nonce)
  | Some (Some _, _) =>
      '(_, w2) ← run_world (payLeftAsGasFee config from) w;
      Some (false, Some "insufficient balance", w_setNonce w2 from nonce)
  | None => None
  end.

(** ** Arguments *)

Section arguments.
Context `{BvmLib}.

(** The text of a value as a client writes it: numbers in base 10. *)
Definition arg_text (v : ArgValue) : Arg :=
  match v with
  | VFloat64 _ => MkArg Arg_F64 EmptyString
  | VInt32 z => MkArg Arg_I32 (fmt_d z)
  | VInt64 z => MkArg Arg_I64 (fmt_d z)
  | VUint64 z => MkArg Arg_U64 (fmt_d z)
  | VString s => MkArg Arg_String s
  | VBytes s => MkArg Arg_Bytes s
  | VBool b => MkArg Arg_Bool (if b then "true" else "false")
  end.

(** The values of a type and width; floating-point numbers are left to their library. *)
Definition fits (v : ArgValue) : Prop :=
  match v with
  | VFloat64 _ => False
  | VInt32 z => (- 2 ^ 31 ≤ z < 2 ^ 31)%Z
  | VInt64 z => is_i64 z
  | VUint64 z => is_u64 z
  | VString _ | VBytes _ | VBool _ => True
  end.

Lemma i32_small z : (- 2 ^ 31 ≤ z < 2 ^ 31)%Z → i32 z = z.
Proof. intros Hz. unfold i32. rewrite Z.mod_small; lia. Qed.

Lemma parseArg_text v : fits v → parseArg (arg_text v) = Some v.
Proof.
  destruct v as [x|z|z|z|s|s|b]; cbn -[Z.pow]; intros Hv; unfold parseArg; cbn [arg_Type arg_Value]; try done.
  - rewrite Atoi_fmt_d by (unfold is_i64; lia). cbn. by rewrite i32_small.
  - by rewrite Atoi_fmt_d.
  - by rewrite ParseUint_fmt_d.
  - by destruct b.
Qed.

(** C40: The values that a method gets are those the client wrote: arguments of the types int32, int64, uint64,
string, bytes and bool, written as text with their type, are parsed to the same values in the same order, negative
numbers and the ends of the ranges included. Numbers outside the range of int32 are cut without an error
([int32_argument_cut]); floating-point numbers are left to their library. *)
Theorem parseArgs_roundtrip args : Forall fits args → parseArgs (arg_text <$> args) = Some args.
Proof.
  intros Hargs. unfold parseArgs. apply mapM_Some. induction Hargs as [|v args Hv _ IH]; constructor; [by apply parseArg_text|done].
Qed.
End arguments.

Section transactions.
Context `{StorageLib, LruLib, AddressLib, InnerAccountLib, AccessListLib, GoRange, HashLib}.
Implicit Types (l : SimpleLedger) (w : world).

(** ** Programs whose changes are all logged *)

(** A program that neither uses [AddState] nor a change log of its own. *)
Fixpoint undoable {A} (p : prog A) : Prop :=
  match p with
  | Ret _ | Panic => True
  | OpGetState _ _ k => ∀ v, undoable (k v)
  | OpSetState _ _ _ c p => c = None ∧ undoable p
  | OpAddState _ _ _ _ => False
  | OpGetBalance _ k | OpGetNonce _ k => ∀ v, undoable (k v)
  | OpGetCodeHash _ k => ∀ v, undoable (k v)
  | OpSetBalance _ _ p | OpSetNonce _ _ p | OpAddEvent _ _ _ p => undoable p
  end.

Lemma tx_inv_events base saved l ev : tx_inv base saved l → tx_inv base saved (set_events ev l).
Proof.
  intros [Hwf [Hs Hn] Hv Hsv]. split; [by destruct Hwf|by split|done|].
  change (log_of (set_events ev l)) with (log_of l). eapply saved_ok_proper; [|exact Hsv]. by split.
Qed.

Lemma run_ledger_inv {A} (p : prog A) base saved l r l' :
  undoable p → tx_inv base saved l → run_ledger p l = Some (r, l') → tx_inv base saved l'.
Proof.
  revert l. induction p as [a| |a key k IH|a key v c p IH|a key v p IH|a k IH|a v p IH|a k IH|a v p IH|a k IH|h t d p IH];
    intros l Hu Hinv; cbn [run_ledger undoable] in *; unfold mbind, LM_bind; pose proof (ti_wf _ _ _ Hinv) as Hwf.
  - by intros [= <- <-].
  - done.
  - destruct (GetState_effect l a key Hwf) as (l1 & E & [_ He]). rewrite E. apply IH; [done|by eapply tx_inv_logged].
  - destruct Hu as [-> Hu]. destruct (SetState_effect l a key v Hwf) as (l1 & E & [_ He]). rewrite E.
    apply IH; [done|by eapply tx_inv_logged].
  - done.
  - destruct (GetBalance_effect l a Hwf) as (l1 & E & [_ He]). rewrite E. apply IH; [done|by eapply tx_inv_logged].
  - destruct (SetBalance_effect l a v Hwf) as (l1 & E & [_ He]). rewrite E. apply IH; [done|by eapply tx_inv_logged].
  - destruct (GetNonce_effect l a Hwf) as (l1 & E & [_ He]). rewrite E. apply IH; [done|by eapply tx_inv_logged].
  - destruct (SetNonce_effect l a v Hwf) as (l1 & E & [_ He]). rewrite E. apply IH; [done|by eapply tx_inv_logged].
  - destruct (CodeHash_effect l a Hwf) as (l1 & E & [_ He]). rewrite E. apply IH; [done|by eapply tx_inv_logged].
  - unfold AddEvent, mbind, LM_bind, lm_get, lm_modify. cbn [ev_TxHash]. apply IH; [done|]. by apply tx_inv_events.
Qed.

Lemma undoable_bind {A B} (p : prog A) (f : A → prog B) : undoable p → (∀ a, undoable (f a)) → undoable (p ≫= f).
Proof. intros Hp Hf. induction p; cbn in *; naive_solver. Qed.

Lemma undoable_recover {A} (p : prog A) : undoable p → undoable (recover p).
Proof. induction p; cbn; naive_solver. Qed.

Lemma undoable_payAdmins config fees : undoable (payAdmins config fees).
Proof.
  unfold payAdmins. destruct (decide _) as [|_]; [done|]. generalize (fees `div` Z.of_nat (length (ec_admins config)))%Z. intros fee.
  induction (ec_admins config) as [|a l IH]; [done|]. apply undoable_bind; [done|intros []; by apply IH].
Qed.

Lemma undoable_payGasFee config from gas : undoable (payGasFee config from gas).
Proof. cbn. intros v. case_decide; [done|]. cbn. apply undoable_bind; [apply undoable_payAdmins|done]. Qed.

(** ** States up to events *)

(** The ledger shows [w]; the events are left open. *)
Record shows l w : Prop := { sh_wf : ledger_wf l; sh_models : ∃ ev, models l (with_events w ev) }.

Lemma run_world_events {A} (p : prog A) w ev :
  match run_world p w with
  | Some (r, w') => ∃ ev', run_world p (with_events w ev) = Some (r, with_events w' ev')
  | None => run_world p (with_events w ev) = None
  end.
Proof.
  revert w ev. induction p as [a| |a key k IH|a key v c p IH|a key v p IH|a k IH|a v p IH|a k IH|a v p IH|a k IH|h t d p IH];
    intros w ev; cbn [run_world]; [by exists ev|done|apply IH|apply (IH (w_setState w a key v))|apply (IH (w_setState w a key v))|
      apply IH|apply (IH (w_setBalance w a v))|apply IH|apply (IH (w_setNonce w a v))|apply IH|].
  specialize (IH (w_addEvent w h (MkEvent t d (Some h))) (w_events (w_addEvent (with_events w ev) h (MkEvent t d (Some h))))).
  exact IH.
Qed.

Lemma run_shows {A} (p : prog A) l w :
  shows l w →
  match run_world p w with
  | Some (r, w') => ∃ l', run_ledger p l = Some (r, l') ∧ shows l' w'
  | None => run_ledger p l = None
  end.
Proof.
  intros [Hwf [ev M]]. pose proof (run_ledger_sim p l _ (Build_refines _ _ Hwf M)) as Hs.
  pose proof (run_world_events p w ev) as He. destruct (run_world p w) as [[r w']|].
  - destruct He as [ev' He]. rewrite He in Hs. destruct Hs as (l' & E & [Hwf' M']). exists l'. split; [done|]. split; [done|by exists ev'].
  - by rewrite He in Hs.
Qed.

Lemma shows_view l w l' : shows l w → same_view l l' → ledger_wf l' → shows l' w.
Proof.
  intros [_ [ev M]] V Hwf. split; [done|]. exists (λ h, default [] (l_events l' !! h)). destruct M as [Ms Mb Mn Mc _]. split.
  - intros a k. rewrite (sv_state _ _ V). apply Ms.
  - intros a. rewrite (sv_inner _ _ V). apply Mb.
  - intros a. rewrite (sv_inner _ _ V). apply Mn.
  - intros a. rewrite (sv_inner _ _ V). apply Mc.
  - done.
Qed.

Lemma shows_run {A} (p : prog A) l w : shows l w → ∀ r l', run_ledger p l = Some (r, l') → ledger_wf l'.
Proof.
  intros S r l' E. pose proof (run_shows p l w S) as Hr. destruct (run_world p w) as [[r' w']|]; [|congruence].
  destruct Hr as (l2 & E2 & S2). rewrite E2 in E. injection E as _ <-. apply S2.
Qed.

Lemma SetNonce_shows l w a v : shows l w → ∃ l', SetNonce a v l = Some (tt, l') ∧ shows l' (w_setNonce w a v).
Proof.
  intros S. destruct (run_shows (OpSetNonce a v (Ret tt)) l w S) as (l2 & E & S2). exists l2. split; [|done].
  cbn [run_ledger] in E. unfold mbind, LM_bind in E. destruct (SetNonce _ _ l) as [[[] l3]|]; [|done]. by injection E as ->.
Qed.

(** What is logged, under a snapshot that has just been gone back to. *)
Lemma tx_inv_same base saved l l' :
  tx_inv base saved l → same_view l l' → ledger_wf l' → revisions_ok l' → validRevisions l' = validRevisions l →
  log_of l' = log_of l → tx_inv base saved l'.
Proof.
  intros [Hwf Hr Hv Hs] V Hwf' Hr' Hv' Hl. split; [done|done|by rewrite Hv'|]. rewrite Hl. by eapply saved_ok_proper.
Qed.

(** The first snapshot of a ledger. *)
Lemma snapshot_first l :
  ledger_wf l → revisions_ok l →
  ∃ l1, Snapshot l = Some (nextRevisionId l, l1) ∧ same_view l l1 ∧
    tx_inv (validRevisions l) [(MkRevision (nextRevisionId l) (length (log_of l)), l)] l1.
Proof.
  intros Hwf Hro. destruct (Snapshot l) as [[id l1]|] eqn:E; [|done].
  destruct (Snapshot_inv (validRevisions l) [] l id l1) as (V & -> & T); [|done|by exists l1].
  split; [done|done|by rewrite app_nil_r|constructor].
Qed.
End transactions.

Section apply.
Context `{StorageLib, LruLib, AddressLib, InnerAccountLib, AccessListLib}.
Context `{BvmLib, TxPbLib, ConstantLib, PbLib, ServiceLib, !PeerContracts, GoRange, FsmLib, HashLib}.
Context (contracts : string → option BoltContract).
Context (XVM_New : Context → bool) (XVM_Run : Context → string → Z → prog VmResult).
Context (EVM_ApplyMessage : EthTransaction → Z → LM (string + ExecutionResult)).
Context (ErrExecutionReverted : string) (CreateAddress : string → Z → string) (zeroAddress : string).
Context (EqualFold : string → string → bool).
Context (be : BlockExecutor).
Implicit Types (l : SimpleLedger) (w : world) (tx : BxhTransaction) (p : prog VmResult).

(** The program of a transaction that is not a message between chains. *)
Definition tx_body (i : Z) tx (invalidReason : string) : prog VmResult :=
  if decide (invalidReason ≠ EmptyString) then mret (inr invalidReason, GasFailedTx) else
  match tx_Payload tx with
  | None => mret (inr "empty transaction data", GasFailedTx)
  | Some payload =>
      match unmarshal payload with
      | None => mret (inr "unmarshal transaction data", GasFailedTx)
      | Some data =>
          let ctx := NewContext tx i (be_currentHeight be) (be_EnableAudit be) None in
          match td_Type data, td_VmType data with
          | TX_NORMAL, _ =>
              err ← transfer (tx_From tx) (tx_To tx) (Some (default 0%Z (big_SetString (td_Amount data))));
              mret (match err with None => inl None | Some _ => inr "not sufficient funds" end, GasNormalTx)
          | TX_INVOKE, VM_BVM => ret ← bvm_Run contracts ctx (td_Payload data); mret (ret, GasBVMTx)
          | TX_INVOKE, VM_XVM =>
              if XVM_New ctx then XVM_Run ctx (td_Payload data) (be_gasLimit be) else mret (inr "new wasm", GasFailedTx)
          | TX_INVOKE, VM_OTHER => mret (inr "wrong vm type", GasFailedTx)
          end
      end
  end.

(** A transaction on plain maps. *)
Definition tx_world (i : Z) tx (invalidReason : string) w : option (bool * option string * world) :=
  '((r, gas), w1) ← run_world (tx_body i tx invalidReason) w;
  tx_spec (be_config be) (tx_From tx) (tx_Nonce tx +u 1) r gas w w1.

(** A program under a snapshot: its failure goes back to the snapshot. *)
Definition guarded p : LM VmResult :=
  snapshot ← Snapshot; '(r, gas) ← run_ledger p; _ ← revert_if (is_err r) snapshot; mret (r, gas).

Lemma guarded_spec p base saved l w :
  undoable p → tx_inv base saved l → shows l w →
  match run_world p w with
  | Some ((r, gas), w1) => ∃ l' saved', guarded p l = Some ((r, gas), l') ∧ tx_inv base (saved ++ saved') l' ∧
      shows l' (if is_err r then w else w1)
  | None => guarded p l = None
  end.
Proof.
  intros Hu T S. destruct (snapshot_first l (ti_wf _ _ _ T) (ti_revs _ _ _ T)) as (l1 & E1 & V1 & T1).
  destruct (Snapshot_inv _ _ _ _ _ T E1) as (_ & _ & T1').
  assert (shows l1 w) as S1 by (eapply shows_view; [done|done|apply T1]).
  pose proof (run_shows p l1 w S1) as Hr. unfold guarded, mbind, LM_bind. rewrite E1.
  destruct (run_world p w) as [[[r gas] w1]|]; [|by rewrite Hr]. destruct Hr as (l2 & E2 & S2). rewrite E2.
  pose proof (run_ledger_inv p _ _ _ _ _ Hu T1 E2) as T2. pose proof (run_ledger_inv p _ _ _ _ _ Hu T1' E2) as T2'.
  destruct r as [ret|err]; cbn [is_err revert_if]; [by exists l2, [(MkRevision (nextRevisionId l) (length (log_of l)), l)]|].
  destruct (tx_inv_back l [] l2 T2) as (l3 & E3 & V3 & Hwf3 & Hro3 & Hv3 & Hlog3). rewrite E3.
  exists l3, []. split_and!; [done| |exact (shows_view _ _ _ S V3 Hwf3)]. rewrite app_nil_r. exact (tx_inv_same _ _ _ _ T V3 Hwf3 Hro3 Hv3 Hlog3).
Qed.

(** A computation that stops before any snapshot. *)
Lemma failed_spec base saved l w (err : string) gas :
  tx_inv base saved l → shows l w →
  ∃ l' saved', (mret (inr err, gas) : LM VmResult) l = Some ((inr err, gas), l') ∧ tx_inv base (saved ++ saved') l' ∧ shows l' w.
Proof. intros T S. exists l, []. by rewrite app_nil_r. Qed.

Lemma snapshot_failed_spec base saved l w (err : string) gas :
  tx_inv base saved l → shows l w →
  ∃ l' saved', (_ ← Snapshot; mret (inr err, gas) : LM VmResult) l = Some ((inr err, gas), l') ∧
    tx_inv base (saved ++ saved') l' ∧ shows l' w.
Proof.
  intros T S. unfold mbind, LM_bind. destruct (Snapshot l) as [[id l1]|] eqn:E; [|done].
  destruct (Snapshot_inv _ _ _ _ _ T E) as (V & -> & T1). eexists l1, _. split_and!; [done|exact T1|].
  eapply shows_view; [done|done|apply T1].
Qed.

Lemma LM_bind_eq {A B} (m : LM A) (f g : A → LM B) l : (∀ a l', f a l' = g a l') → (m ≫= f) l = (m ≫= g) l.
Proof. intros Hfg. unfold mbind, LM_bind. destruct (m l) as [[a l']|]; [apply Hfg|done]. Qed.

Lemma LM_bind_Some {A B} (m : LM A) (f : A → LM B) l a l' : m l = Some (a, l') → (m ≫= f) l = f a l'.
Proof. intros E. unfold mbind, LM_bind. by rewrite E. Qed.

Lemma LM_bind_None {A B} (m : LM A) (f : A → LM B) l : m l = None → (m ≫= f) l = None.
Proof. intros E. unfold mbind, LM_bind. by rewrite E. Qed.

Lemma LM_bind_assoc {A B C} (m : LM A) (f : A → LM B) (g : B → LM C) l : ((m ≫= f) ≫= g) l = (a ← m; f a ≫= g) l.
Proof. unfold mbind, LM_bind. by destruct (m l) as [[a l']|]. Qed.

Lemma run_ledger_bind {A B} (p : prog A) (f : A → prog B) l :
  run_ledger (p ≫= f) l = (a ← run_ledger p; run_ledger (f a)) l.
Proof.
  revert l. induction p; intros l; [done|done|cbn [run_ledger]; rewrite LM_bind_assoc; by apply LM_bind_eq..].
Qed.

Lemma guarded_bind {A} (p : prog A) (f : A → VmResult) l :
  (snapshot ← Snapshot; a ← run_ledger p; _ ← revert_if (is_err (f a).1) snapshot; mret (f a)) l =
  guarded (a ← p; mret (f a)) l.
Proof.
  apply LM_bind_eq. intros id l1.
  etrans; [|symmetry; etrans; [unfold mbind at 1, LM_bind; rewrite run_ledger_bind; reflexivity|reflexivity]].
  unfold mbind, LM_bind. destruct (run_ledger p l1) as [[a l2]|]; [|done]. cbn [run_ledger mret LM_ret]. by destruct (f a).
Qed.

(** The goal is about [guarded] of the program that the specification runs. *)
Local Ltac as_guarded :=
  match goal with |- context [run_world ?p ?w] => match goal with |- context [?m ?l = None] =>
    assert (m l = guarded p l) as ->; [|by apply guarded_spec] end end.

Lemma applyBxhTransaction_spec i tx invalidReason changer cache base saved l w :
  tx_IBTP tx = None → undoable (tx_body i tx invalidReason) → tx_inv base saved l → shows l w →
  match run_world (tx_body i tx invalidReason) w with
  | Some ((r, gas), w1) => ∃ l' saved',
      applyBxhTransaction contracts XVM_New XVM_Run be i tx invalidReason changer cache l = Some ((r, gas), l') ∧
      tx_inv base (saved ++ saved') l' ∧ shows l' (if is_err r then w else w1)
  | None => applyBxhTransaction contracts XVM_New XVM_Run be i tx invalidReason changer cache l = None
  end.
Proof.
  intros Hib Hu T S. unfold applyBxhTransaction. rewrite Hib. revert Hu. unfold tx_body.
  destruct (decide (invalidReason ≠ EmptyString)); [intros _; by apply failed_spec|].
  destruct (tx_Payload tx) as [payload|]; [|intros _; by apply failed_spec].
  destruct (unmarshal payload) as [data|]; [|intros _; by apply failed_spec].
  destruct (td_Type data); [|destruct (td_VmType data)]; intros Hu.
  - as_guarded. rewrite <-guarded_bind. apply LM_bind_eq. intros id l1. apply LM_bind_eq. by intros [err|] l2.
  - as_guarded. by rewrite <-guarded_bind.
  - destruct (XVM_New _); cbn [negb]; [by apply guarded_spec|by apply snapshot_failed_spec].
  - by apply snapshot_failed_spec.
Qed.

Lemma receiptOf_spec tx r gas l :
  ∃ rc, receiptOf tx r gas l = Some (rc, l) ∧ rc_Success rc = negb (is_err r) ∧
    rc_Ret rc = match r with inl ret => ret | inr err => Some err end ∧ rc_GasUsed rc = gas.
Proof. destruct r as [ret|err]; by eexists. Qed.

(** The fee, with the way back to the outer snapshot. *)
Lemma chargeGas_spec tx r gas rc l0 saved l w w1 :
  rc_Success rc = negb (is_err r) → rc_Ret rc = (match r with inl ret => ret | inr err => Some err end) →
  tx_inv (validRevisions l0) ((MkRevision (nextRevisionId l0) (length (log_of l0)), l0) :: saved) l →
  shows l0 w → shows l (if is_err r then w else w1) →
  let charged := (rc' ← chargeGas be (tx_From tx) gas rc (RevertToSnapshot (nextRevisionId l0));
                  _ ← SetNonce (tx_From tx) (tx_Nonce tx +u 1); mret rc') l in
  match tx_spec (be_config be) (tx_From tx) (tx_Nonce tx +u 1) r gas w w1 with
  | Some (ok, ret, w') => ∃ rc' l', charged = Some (rc', l') ∧ rc_Success rc' = ok ∧ rc_Ret rc' = ret ∧ shows l' w'
  | None => charged = None
  end.
Proof.
  intros Hok Hret T S0 S charged.
  pose proof (run_shows (payGasFee (be_config be) (tx_From tx) gas) l _ S) as Hpay.
  unfold charged, chargeGas. unfold mbind, LM_bind. unfold tx_spec.
  destruct (run_world (payGasFee _ _ _) _) as [[[x|] w2]|]; [| |by rewrite Hpay].
  - destruct Hpay as (l2 & E2 & S2). rewrite E2.
    pose proof (run_ledger_inv _ _ _ _ _ _ (undoable_payGasFee _ _ _) T E2) as T2.
    destruct (tx_inv_back _ _ _ T2) as (l3 & E3 & V3 & Hwf3 & _). rewrite E3.
    pose proof (run_shows (payLeftAsGasFee (be_config be) (tx_From tx)) l3 w (shows_view _ _ _ S0 V3 Hwf3)) as Hleft.
    destruct (run_world (payLeftAsGasFee _ _) w) as [[[] w3]|]; cbn [mbind option_bind]; [|by rewrite Hleft].
    destruct Hleft as (l4 & E4 & S4). rewrite E4. cbn [mret LM_ret].
    destruct (SetNonce_shows l4 w3 (tx_From tx) (tx_Nonce tx +u 1) S4) as (l5 & E5 & S5). rewrite E5. by eexists _, l5.
  - destruct Hpay as (l2 & E2 & S2). rewrite E2. cbn [mret LM_ret].
    destruct (SetNonce_shows l2 w2 (tx_From tx) (tx_Nonce tx +u 1) S2) as (l5 & E5 & S5). rewrite E5. by eexists _, l5.
Qed.

Lemma PrepareEVM_spec h i l w :
  ledger_wf l → revisions_ok l → shows l w →
  ∃ l', PrepareEVM h i l = Some (tt, l') ∧ revisions_ok l' ∧ shows l' w.
Proof.
  intros Hwf [Hs Hn] [_ [ev M]]. eexists. split; [reflexivity|]. split; [by split|]. split; [by destruct Hwf|].
  exists ev. by destruct M.
Qed.

(** What can be observed does not depend on the change log. *)
Lemma Finalise_spec b l : ∃ l', Finalise b l = Some (tt, l') ∧ (∀ w, models l w → models l' w).
Proof.
  unfold Finalise, ClearChangerAndRefund, mbind, LM_bind, get_changer, lm_get, lm_when, alloc_changer, lm_modify. cbv beta iota.
  destruct (bool_decide (0 < length (changes (default newChanger (sh_changers (l_shared l) !! l_changer l)))));
    eexists; (split; [reflexivity|]); intros w [Ms Mb Mn Me]; by split.
Qed.

(** After its snapshot a transaction is its program, the fee, the nonce, and a new change log. *)
Lemma applyTransaction_serial i tx invalidReason cache l l0 l1 :
  tx_IBTP tx = None → PrepareEVM (tx_Hash tx) i l = Some (tt, l0) → Snapshot l0 = Some (nextRevisionId l0, l1) →
  applyTransaction contracts XVM_New XVM_Run EVM_ApplyMessage ErrExecutionReverted CreateAddress zeroAddress EqualFold be i (BxhTx tx) invalidReason cache l =
  (rc ← ('(ret, gasUsed) ← applyBxhTransaction contracts XVM_New XVM_Run be i tx invalidReason None cache;
         receipt ← receiptOf tx ret gasUsed;
         rc' ← chargeGas be (tx_From tx) gasUsed receipt (RevertToSnapshot (nextRevisionId l0));
         _ ← SetNonce (tx_From tx) (tx_Nonce tx +u 1); mret rc');
   _ ← Finalise true; mret rc) l1.
Proof.
  intros Hib E0 E1. unfold applyTransaction.
  assert (IsIBTP tx = false) as -> by (unfold IsIBTP; by rewrite Hib, bool_decide_false by (by intros [])).
  rewrite andb_false_r. unfold mbind, LM_bind. rewrite E0, E1.
  destruct (applyBxhTransaction _ _ _ _ _ _ _ _ _ l1) as [[[ret gas] l2]|]; [|done].
  destruct (receiptOf tx ret gas l2) as [[rc l3]|]; [|done].
  destruct (chargeGas _ _ _ _ _ l3) as [[rc' l4]|]; [|done].
  by destruct (SetNonce _ _ l4) as [[[] l5]|].
Qed.

(** C3: The first transaction that a block applies, when it is a transaction of the relay chain (BxhTx) without a
message between chains and its program neither uses AddState nor a change log of its own ([undoable]), does on the
ledger, with its snapshots, change log and caches, what its specification does on plain maps: failure leaves only the
fee and the nonce, a sender who cannot pay loses the effects and the rest of the balance, and a panic of the
specification is a panic of the code. "First" is [ledger_wf]: the accounts in memory log to the current change log;
later transactions of a block are not undone completely ([second_transaction_not_reverted]), nor is AddState
([unlogged_changes_stay]). *)
Theorem applyTransaction_refines i tx invalidReason cache l w :
  tx_IBTP tx = None → undoable (tx_body i tx invalidReason) → ledger_wf l → revisions_ok l → models l w →
  let run := applyTransaction contracts XVM_New XVM_Run EVM_ApplyMessage ErrExecutionReverted CreateAddress zeroAddress EqualFold be i (BxhTx tx) invalidReason cache l in
  match tx_world i tx invalidReason w with
  | Some (ok, ret, w') => ∃ rc l' ev, run = Some (rc, l') ∧ rc_Success rc = ok ∧ rc_Ret rc = ret ∧ models l' (with_events w' ev)
  | None => run = None
  end.
Proof.
  intros Hib Hu Hwf Hro M run.
  assert (shows l w) as S by (split; [done|]; exists (w_events w); by destruct w).
  destruct (PrepareEVM_spec (tx_Hash tx) i l w Hwf Hro S) as (l0 & E0 & Hro0 & S0).
  destruct (snapshot_first l0 (sh_wf _ _ S0) Hro0) as (l1 & E1 & V1 & T1).
  assert (shows l1 w) as S1 by (eapply shows_view; [exact S0|done|apply T1]).
  pose proof (applyBxhTransaction_spec i tx invalidReason None cache _ _ _ _ Hib Hu T1 S1) as Hb.
  unfold run. rewrite (applyTransaction_serial _ _ _ _ _ _ _ Hib E0 E1).
  unfold tx_world. destruct (run_world (tx_body i tx invalidReason) w) as [[[r gas] w1]|]; cbn [mbind option_bind].
  2: by do 2 apply LM_bind_None.
  destruct Hb as (l2 & saved & E2 & T2 & S2). destruct (receiptOf_spec tx r gas l2) as (rc & E3 & Hok & Hret & _).
  pose proof (chargeGas_spec tx r gas rc l0 saved l2 w w1 Hok Hret T2 S0 S2) as Hc. cbv zeta in Hc.
  rewrite LM_bind_assoc, (LM_bind_Some _ _ _ _ _ E2), LM_bind_assoc, (LM_bind_Some _ _ _ _ _ E3).
  destruct (tx_spec _ _ _ _ _ _ _) as [[[ok ret] w']|]; [|by apply LM_bind_None].
  destruct Hc as (rc' & l4 & E4 & <- & <- & [_ [ev M4]]). rewrite (LM_bind_Some _ _ _ _ _ E4).
  destruct (Finalise_spec true l4) as (l5 & E5 & M5). exists rc', l5, ev. rewrite (LM_bind_Some _ _ _ _ _ E5). auto.
Qed.
End apply.
