(* ===== verification/Blocks.v ===== *)
(** * Blocks and the checks before they are executed

[pb.Block], and the checks of signatures and proofs of [src/internal/executor/handle.go] ([verifySign]) and
[src/internal/executor/executor.go] ([verifyProofs]), which run in parallel. *)
From Stdlib Require Import Ascii.
From S2P Require Import Prelude Storage Account StateLedger Contract TransactionManager Interchain Executor Transactions.

(** ** Data *)

(** [pb.BlockHeader] without the bloom filter. *)
Record BlockHeader := MkBlockHeader {
  bh_Number : Z; bh_Timestamp : Z; bh_ParentHash : string; bh_StateRoot : string; bh_TxRoot : string;
  bh_ReceiptRoot : string; bh_TimeoutRoot : string }.

Record Block := MkBlock {
  b_Header : BlockHeader; b_Transactions : list Transaction; b_BlockHash : string; b_Signature : option string;
  b_Extra : option string }.

Definition with_b_Extra (b : Block) v := MkBlock (b_Header b) (b_Transactions b) (b_BlockHash b) (b_Signature b) v.
Definition with_b_Signature (b : Block) v := MkBlock (b_Header b) (b_Transactions b) (b_BlockHash b) v (b_Extra b).

(** [pb.CommitEvent] and [BlockWrapper]: a block with the transactions that are not valid, by index. *)
Record CommitEvent := MkCommitEvent { ce_Block : Block; ce_LocalList : list bool }.
Record BlockWrapper := MkBlockWrapper { bw_block : Block; bw_invalidTx : gmap nat string }.

(** ** Signatures *)

(** The routines write to different indices, under a lock: the order in which they run does not matter. *)
Definition verifySign (VerifySignature : Transaction → option string) (event : CommitEvent) : BlockWrapper :=
  let block := ce_Block event in
  if decide (bh_Number (b_Header block) = 1%Z) then MkBlockWrapper block ∅
  else
    MkBlockWrapper block (foldl (λ m '(i, tx),
      if default false (ce_LocalList event !! i) then m
      else match VerifySignature tx with Some err => <[i := err]> m | None => m end)
      ∅ (imap pair (b_Transactions block))).

(** ** Proofs *)

Definition maxGroup : nat := 5.

(** The result of [CheckProof] for each transaction. *)
Notation CheckResult := (bool * Z * option string)%type.

(** The indices and errors of the results that are not ok, from [start] on. A result that is not ok and has no
error panics. *)
Fixpoint groupInvalid (start : nat) (results : list CheckResult) : option (list (nat * string)) :=
  match results with
  | [] => Some []
  | (ok, _, err) :: results =>
      if (ok : bool) then groupInvalid (S start) results
      else err ← err; rest ← groupInvalid (S start) results; Some ((start, err) :: rest)
  end.

(** The routine [i]: the last one takes what is left. *)
Definition groupCheck (groupNum groupLen : nat) (results : list CheckResult) (i : nat) : option (list (nat * string)) :=
  if decide (i = groupNum - 1) then groupInvalid (i * groupLen) (drop (i * groupLen) results)
  else groupInvalid (i * groupLen) (take groupLen (drop (i * groupLen) results)).

Definition configGroup (proofType : string) : nat :=
  if decide (proofType = "parallel") then maxGroup else if decide (proofType = "serial") then 1 else 0.

(** The number and the length of the groups. *)
Definition groupNum (proofType : string) (n : nat) : nat :=
  if decide (n < configGroup proofType) then n else configGroup proofType.

(** [order] is the order in which the routines come to the lock; [None] is a panic. *)
Definition verifyProofs (proofType : string) (order : list nat) (results : list CheckResult) (bw : BlockWrapper) :
    option BlockWrapper :=
  let block := bw_block bw in
  if decide (bh_Number (b_Header block) = 1%Z) then Some bw
  else match b_Extra block with
  | Some _ => Some (MkBlockWrapper (with_b_Extra block None) (bw_invalidTx bw))
  | None =>
      let n := length (b_Transactions block) in
      if decide (n = 0) then Some bw
      else
        let groups := groupNum proofType n in
        if decide (groups = 0) then None
        else
          invalid ← mapM (groupCheck groups (n / groups) results) order;
          Some (MkBlockWrapper block (foldl (λ m '(index, err), <[index := err]> m) (bw_invalidTx bw) (concat invalid)))
  end.
