(* ===== verification/TxExecutor.v ===== *)
(** * Executing the transactions of a block: [src/internal/executor/serial_executor.go], [applyTx] of [handle.go]

After each transaction its events are looked at: messages between chains are counted for the chains that they go
to, services are put into the cache, and events for nodes and auditors are posted. *)
From Stdlib Require Import Ascii.
From S2P Require Import Prelude Storage Account StateLedger Contract TransactionManager Interchain Executor Transactions Blocks.

(** ** Data *)

(** [pb.VerifiedIndex] *)
Record VerifiedIndex := MkVerifiedIndex { vi_Index : Z; vi_Valid : bool; vi_IsBatch : bool }.

(** [SerialExecutor] *)
Record TxsExecutor := MkTxsExecutor { normalTxs : list string; interchainCounter : gmap string (list VerifiedIndex) }.

Definition AddNormalTx (se : TxsExecutor) (hash : string) : TxsExecutor :=
  MkTxsExecutor (normalTxs se ++ [hash]) (interchainCounter se).

Definition AddInterchainCounter (se : TxsExecutor) (to : string) (index : VerifiedIndex) : TxsExecutor :=
  MkTxsExecutor (normalTxs se) (<[to := default [] (interchainCounter se !! to) ++ [index]]> (interchainCounter se)).

(** [strings.Contains] *)
Definition str_includes (pat s : string) : bool := bool_decide (is_Some (String.index 0 pat s)).

Definition TargetAppchainNotAvailable : string := "target appchain not available".

(** Types of events, and the values that they carry. *)
Class EventLib `{ServiceLib} := {
  Event_NODEMGR : Z;
  Event_SERVICE : Z;
  audit_types : list Z;
  NodeEvent : Type;
  nodeevent_encoding :: Encoding NodeEvent;
  Service_ChainID : Service → string;
  Service_ServiceID : Service → string
}.

(** [pb.AuditTxInfo] *)
Record AuditTxInfo := MkAuditTxInfo {
  ai_Tx : BxhTransaction; ai_Rec : Receipt; ai_BlockHeight : Z; ai_Chains : gset string; ai_Nodes : gset string }.

Section txs.
Context `{StorageLib, LruLib, AddressLib, InnerAccountLib, AccessListLib}.
Context `{BvmLib, TxPbLib, ConstantLib, PbLib, ServiceLib, !PeerContracts, !EventLib, GoRange, FsmLib, HashLib}.
Context (contracts : string → option BoltContract).
Context (XVM_New : Context → bool) (XVM_Run : Context → string → Z → prog VmResult).
Context (EVM_ApplyMessage : EthTransaction → Z → LM (string + ExecutionResult)).
Context (ErrExecutionReverted : string) (CreateAddress : string → Z → string) (zeroAddress : string).
Context (EqualFold : string → string → bool).
Context (be : BlockExecutor).

(** What the executor keeps besides the ledger; the events that are posted to its feeds. *)
Record ExecOut := MkExecOut {
  eo_txs : TxsExecutor; serviceCache : gmap string Service; posted_nodes : list NodeEvent; posted_audits : list AuditTxInfo }.

Definition with_eo_txs (o : ExecOut) v := MkExecOut v (serviceCache o) (posted_nodes o) (posted_audits o).
Definition with_serviceCache (o : ExecOut) v := MkExecOut (eo_txs o) v (posted_nodes o) (posted_audits o).
Definition with_posted_nodes (o : ExecOut) v := MkExecOut (eo_txs o) (serviceCache o) v (posted_audits o).
Definition with_posted_audits (o : ExecOut) v := MkExecOut (eo_txs o) (serviceCache o) (posted_nodes o) v.

(** The variables of the loop over the events. *)
Record EventLoop := MkEventLoop {
  lp_normalTx : bool; lp_audit : bool; lp_chains : gset string; lp_nodes : gset string; lp_out : ExecOut }.

Definition countInterchain (receipt : Receipt) (o : ExecOut) (kv : string * EventWrapper) : ExecOut :=
  let '(k, v) := kv in
  let valid := negb (negb (rc_Success receipt) && str_includes TargetAppchainNotAvailable (default EmptyString (rc_Ret receipt))) in
  with_eo_txs o (AddInterchainCounter (eo_txs o) k (MkVerifiedIndex (ew_Index v) valid (ew_IsBatch v))).

(** One event; [None] is the panic for data that cannot be decoded. *)
Definition handleEvent (receipt : Receipt) (lp : EventLoop) (ev : Event) : option EventLoop :=
  if decide (ev_type ev = Event_INTERCHAIN)
  then
    m ← (unmarshal (ev_data ev) : option (gmap string EventWrapper));
    Some (MkEventLoop false (lp_audit lp) (lp_chains lp) (lp_nodes lp)
            (foldl (countInterchain receipt) (lp_out lp) (go_range m)))
  else if decide (ev_type ev = Event_NODEMGR)
  then
    nodeEvent ← unmarshal (ev_data ev);
    Some (MkEventLoop (lp_normalTx lp) (lp_audit lp) (lp_chains lp) (lp_nodes lp)
            (with_posted_nodes (lp_out lp) (posted_nodes (lp_out lp) ++ [nodeEvent])))
  else if decide (ev_type ev ∈ audit_types)
  then
    info ← (unmarshal (ev_data ev) : option AuditRelatedObjInfo);
    Some (MkEventLoop (lp_normalTx lp) true (list_to_set (au_RelatedChainIDList info) ∪ lp_chains lp)
            (list_to_set (au_RelatedNodeIDList info) ∪ lp_nodes lp) (lp_out lp))
  else if decide (ev_type ev = Event_SERVICE)
  then
    service ← (unmarshal (ev_data ev) : option Service);
    let chainServiceID := Service_ChainID service +:+ ":" +:+ Service_ServiceID service in
    Some (MkEventLoop (lp_normalTx lp) (lp_audit lp) (lp_chains lp) (lp_nodes lp)
            (with_serviceCache (lp_out lp) (<[chainServiceID := service]> (serviceCache (lp_out lp)))))
  else Some lp.

Fixpoint handleEvents (receipt : Receipt) (lp : EventLoop) (evs : list Event) : option EventLoop :=
  match evs with
  | [] => Some lp
  | ev :: evs => lp ← handleEvent receipt lp ev; handleEvents receipt lp evs
  end.

(** The audit record is only made for a transaction of the relay chain; another one panics. *)
Definition postAudit (tx : Transaction) (receipt : Receipt) (lp : EventLoop) : option ExecOut :=
  if lp_audit lp
  then match tx with
       | BxhTx tx => Some (with_posted_audits (lp_out lp) (posted_audits (lp_out lp) ++
                             [MkAuditTxInfo tx receipt (be_currentHeight be) (lp_chains lp) (lp_nodes lp)]))
       | _ => None
       end
  else Some (lp_out lp).

(** What the events of a transaction leave. *)
Definition afterTx (tx : Transaction) (receipt : Receipt) (evs : list Event) (o : ExecOut) : option (Receipt * ExecOut) :=
  '(receipt, normalTx, o) ←
    match evs with
    | [] => Some (receipt, true, o)
    | _ =>
        let receipt := with_rc_Events receipt evs in
        lp ← handleEvents receipt (MkEventLoop true false ∅ ∅ o) evs;
        o ← postAudit tx receipt lp;
        Some (receipt, lp_normalTx lp, o)
    end;
  Some (receipt, if (normalTx : bool) then with_eo_txs o (AddNormalTx (eo_txs o) (GetHash tx)) else o).

Definition applyTx (index : Z) (tx : Transaction) (invalidReason : string) (o : ExecOut) : LM (Receipt * ExecOut) :=
  receipt ← applyTransaction contracts XVM_New XVM_Run EVM_ApplyMessage ErrExecutionReverted CreateAddress zeroAddress
              EqualFold be index tx invalidReason (serviceCache o);
  evs ← Events (GetHash tx);
  match afterTx tx receipt evs o with
  | Some res => mret res
  | None => lm_panic
  end.

(** The loop over the transactions, from index [i] on. *)
Fixpoint applyTxs (i : nat) (txs : list Transaction) (invalidTxs : gmap nat string) (o : ExecOut) : LM (list Receipt * ExecOut) :=
  match txs with
  | [] => mret ([], o)
  | tx :: txs =>
      '(receipt, o) ← applyTx (Z.of_nat i) tx (default EmptyString (invalidTxs !! i)) o;
      '(receipts, o) ← applyTxs (S i) txs invalidTxs o;
      mret (receipt :: receipts, o)
  end.

Definition ApplyTransactions (txs : list Transaction) (invalidTxs : gmap nat string) (o : ExecOut) : LM (list Receipt * ExecOut) :=
  applyTxs 0 txs invalidTxs (with_eo_txs o (MkTxsExecutor [] ∅)).
End txs.

(** ** Receipts and events *)

Section props.
Context `{StorageLib, LruLib, AddressLib, InnerAccountLib, AccessListLib}.
Context `{BvmLib, TxPbLib, ConstantLib, PbLib, ServiceLib, !PeerContracts, !EventLib, GoRange, FsmLib, HashLib}.
Context (contracts : string → option BoltContract).
Context (XVM_New : Context → bool) (XVM_Run : Context → string → Z → prog VmResult).
Context (EVM_ApplyMessage : EthTransaction → Z → LM (string + ExecutionResult)).
Context (ErrExecutionReverted : string) (CreateAddress : string → Z → string) (zeroAddress : string).
Context (EqualFold : string → string → bool).
Context (be : BlockExecutor).
Implicit Types (l : SimpleLedger) (tx : Transaction) (rc : Receipt) (o : ExecOut).

Local Notation applyTransaction := (applyTransaction contracts XVM_New XVM_Run EVM_ApplyMessage ErrExecutionReverted
  CreateAddress zeroAddress EqualFold be).
Local Notation applyTxs := (applyTxs contracts XVM_New XVM_Run EVM_ApplyMessage ErrExecutionReverted
  CreateAddress zeroAddress EqualFold be).
Local Notation ApplyTransactions := (ApplyTransactions contracts XVM_New XVM_Run EVM_ApplyMessage ErrExecutionReverted
  CreateAddress zeroAddress EqualFold be).

Lemma LM_bind_inv {A B} (m : LM A) (f : A → LM B) l b l' :
  (m ≫= f) l = Some (b, l') → ∃ a l1, m l = Some (a, l1) ∧ f a l1 = Some (b, l').
Proof. unfold mbind, LM_bind. destruct (m l) as [[a l1]|]; [|done]. by exists a, l1. Qed.

(** Opens the run of a computation step by step. *)
Local Ltac lm_inv :=
  repeat match goal with
  | H : (_ ≫= _) _ = Some _ |- _ => apply LM_bind_inv in H as (? & ? & ? & H)
  | H : (let '(_, _) := ?x in _) _ = Some _ |- _ => destruct x
  | H : mret _ _ = Some _ |- _ => injection H as <- <-
  | H : (if ?b then _ else _) _ = Some _ |- _ => destruct b
  | H : match ?x with inl _ => _ | inr _ => _ end _ = Some _ |- _ => destruct x
  | H : match ?x with Some _ => _ | None => _ end _ = Some _ |- _ => destruct x
  end.

(** The receipt of the transaction with hash [h], without events. *)
Definition receipt_for (h : string) rc : Prop := rc_TxHash rc = h ∧ rc_Events rc = [].

Lemma receiptOf_for (tx : BxhTransaction) ret gas l rc l' : receiptOf tx ret gas l = Some (rc, l') → receipt_for (tx_Hash tx) rc.
Proof. unfold receiptOf. intros E. destruct ret; lm_inv; done. Qed.

Lemma chargeGas_for h from gas rc revert l rc' l' :
  receipt_for h rc → chargeGas be from gas rc revert l = Some (rc', l') → receipt_for h rc'.
Proof. unfold chargeGas. intros Hr E. lm_inv; done. Qed.

Lemma applyEthTransaction_for (tx : EthTransaction) l rc l' :
  applyEthTransaction EVM_ApplyMessage ErrExecutionReverted CreateAddress zeroAddress be tx l = Some (rc, l') →
  receipt_for (et_Hash tx) rc.
Proof. unfold applyEthTransaction. cbv zeta. intros E. lm_inv; done. Qed.

Lemma evmInterchain_for h i (tx : EthTransaction) rc l rc' l' :
  receipt_for h rc → evmInterchain contracts EqualFold be i tx rc l = Some (rc', l') → receipt_for h rc'.
Proof.
  unfold evmInterchain. intros Hr E. lm_inv; try done. by destruct x.
Qed.

Lemma applyTransaction_for i tx reason cache l rc l' :
  applyTransaction i tx reason cache l = Some (rc, l') → receipt_for (GetHash tx) rc.
Proof.
  unfold Transactions.applyTransaction. destruct tx as [tx|tx|from nonce h]; cbn [GetFrom GetHash tx_GetNonce]; intros E.
  - lm_inv; (eapply chargeGas_for; [|eassumption]; by eapply receiptOf_for).
  - lm_inv. eapply evmInterchain_for; [|eassumption]. by eapply applyEthTransaction_for.
  - lm_inv. by eapply chargeGas_for; [|eassumption].
Qed.

(** ** What the events leave *)

Definition not_interchain (ev : Event) : Prop := ev_type ev ≠ Event_INTERCHAIN.

Global Instance not_interchain_dec ev : Decision (not_interchain ev).
Proof. unfold not_interchain. apply _. Defined.

(** A receipt without the event of a message. *)
Definition is_normal rc : Prop := Forall not_interchain (rc_Events rc).

Global Instance is_normal_dec rc : Decision (is_normal rc).
Proof. unfold is_normal. apply _. Defined.

Lemma countInterchain_normal rc o kvs :
  normalTxs (eo_txs (foldl (countInterchain rc) o kvs)) = normalTxs (eo_txs o).
Proof. revert o. induction kvs as [|[k v] kvs IH]; intros o; [done|]. cbn. by rewrite IH. Qed.

Lemma handleEvent_normal rc lp ev lp' :
  handleEvent rc lp ev = Some lp' →
  normalTxs (eo_txs (lp_out lp')) = normalTxs (eo_txs (lp_out lp)) ∧
  lp_normalTx lp' = bool_decide (not_interchain ev) && lp_normalTx lp.
Proof.
  unfold handleEvent, not_interchain. case_decide as Hi.
  - destruct (unmarshal _) as [m|]; [|done]. intros [= <-]. cbn [lp_out lp_normalTx]. rewrite countInterchain_normal.
    by rewrite bool_decide_false by (by intros []).
  - rewrite bool_decide_true by done. repeat case_decide; [..|by intros [= <-]];
      (destruct (unmarshal _); [|done]); by intros [= <-].
Qed.

Lemma handleEvents_normal rc evs lp lp' :
  handleEvents rc lp evs = Some lp' →
  normalTxs (eo_txs (lp_out lp')) = normalTxs (eo_txs (lp_out lp)) ∧
  lp_normalTx lp' = bool_decide (Forall not_interchain evs) && lp_normalTx lp.
Proof.
  revert lp. induction evs as [|ev evs IH]; intros lp; cbn [handleEvents].
  { by intros [= <-]. }
  destruct (handleEvent rc lp ev) as [lp1|] eqn:E; [|done]. intros [Hx1 Hx2]%IH.
  destruct (handleEvent_normal _ _ _ _ E) as [Hx3 Hx4]. split; [by rewrite Hx1|]. rewrite Hx2, Hx4, andb_assoc. f_equal.
  apply eq_bool_prop_intro. rewrite andb_True, !bool_decide_spec, Forall_cons. tauto.
Qed.

Lemma afterTx_spec tx rc evs o rc' o' :
  receipt_for (GetHash tx) rc → afterTx be tx rc evs o = Some (rc', o') →
  rc_TxHash rc' = GetHash tx ∧ rc_Events rc' = evs ∧
  normalTxs (eo_txs o') = normalTxs (eo_txs o) ++ (if decide (is_normal rc') then [GetHash tx] else []).
Proof.
  intros [Hh He]. unfold afterTx. destruct evs as [|ev evs].
  { intros [= <- <-]. rewrite decide_True by (unfold is_normal; by rewrite He). done. }
  set (rc1 := with_rc_Events rc (ev :: evs)). cbn [mbind option_bind].
  destruct (handleEvents rc1 _ _) as [lp|] eqn:E; [|done]. cbn [mbind option_bind].
  destruct (handleEvents_normal _ _ _ _ E) as [Hx1 Hx2]. cbn [lp_normalTx lp_out] in *.
  destruct (postAudit be tx rc1 lp) as [o1|] eqn:Ep; [|done]. intros [= <- <-].
  assert (normalTxs (eo_txs o1) = normalTxs (eo_txs o)) as Ho1.
  { revert Ep. unfold postAudit. destruct (lp_audit lp); [destruct tx; [|done..]|]; intros [= <-]; exact Hx1. }
  split_and!; [done|done|]. rewrite Hx2, andb_true_r. unfold is_normal. change (rc_Events rc1) with (ev :: evs).
  destruct (decide (Forall not_interchain (ev :: evs))) as [Hf|Hf].
  - rewrite bool_decide_true by done. cbn. by rewrite Ho1.
  - rewrite bool_decide_false by done. by rewrite app_nil_r.
Qed.

Lemma applyTxs_spec i txs invalid o l rcs o' l' :
  applyTxs i txs invalid o l = Some ((rcs, o'), l') →
  rc_TxHash <$> rcs = GetHash <$> txs ∧
  normalTxs (eo_txs o') = normalTxs (eo_txs o) ++ (rc_TxHash <$> filter is_normal rcs).
Proof.
  revert i o l rcs. induction txs as [|tx txs IH]; intros i o l rcs; cbn [TxExecutor.applyTxs].
  { intros [= <- <- <-]. by rewrite app_nil_r. }
  intros E. apply LM_bind_inv in E as ([rc o1] & l1 & E1 & E). apply LM_bind_inv in E as ([rcs1 o2] & l2 & E2 & E).
  injection E as <- <- <-. destruct (IH _ _ _ _ E2) as [Hh Hn].
  unfold applyTx in E1. apply LM_bind_inv in E1 as (rc0 & l3 & Ea & E1). apply LM_bind_inv in E1 as (evs & l4 & _ & E1).
  destruct (afterTx be tx rc0 evs o) as [res|] eqn:Ef; [|done]. injection E1 as -> ->.
  destruct (afterTx_spec _ _ _ _ _ _ (applyTransaction_for _ _ _ _ _ _ _ Ea) Ef) as (Hx1 & _ & Hx2).
  split; [cbn; by rewrite Hx1, Hh|]. rewrite Hn, Hx2, <-(assoc_L (++)). f_equal. rewrite filter_cons.
  case_decide; cbn; [by rewrite Hx1|done].
Qed.

(** The transactions of a block have one receipt each, in their order, and the executor reports as normal
transactions, in their order, exactly those without the event of a message between chains. *)
Theorem ApplyTransactions_receipts txs invalid o l rcs o' l' :
  ApplyTransactions txs invalid o l = Some ((rcs, o'), l') →
  rc_TxHash <$> rcs = GetHash <$> txs ∧ normalTxs (eo_txs o') = rc_TxHash <$> filter is_normal rcs.
Proof. intros E. by destruct (applyTxs_spec _ _ _ _ _ _ _ _ E). Qed.
End props.
