(* ===== verification/ExecutorSample.v ===== *)
(** * Concrete instances for the theorems about transactions and blocks

A relay chain with an account, a contract that stores values, and two services. *)
From Stdlib Require Import Ascii.
From S2P Require Import Prelude Btree Storage Account StateLedger StateLedgerProps LedgerTheorems Contract LedgerRefinement.
From S2P Require Import TransactionManager Interchain InterchainProps CrossChainSample.
From S2P Require Import Executor Transactions TransactionTheorems Blocks TxExecutor.

(** ** Encodings *)

Definition txtype_index (t : TransactionData_Type) : bool := match t with TX_NORMAL => false | TX_INVOKE => true end.
Definition txtype_at (b : bool) : TransactionData_Type := if b then TX_INVOKE else TX_NORMAL.
Global Instance txtype_eq_dec : EqDecision TransactionData_Type.
Proof. solve_decision. Defined.
Global Program Instance txtype_countable : Countable TransactionData_Type := inj_countable' txtype_index txtype_at _.
Next Obligation. by intros []. Qed.

Definition vmtype_index (t : TransactionData_VMType) : nat := match t with VM_BVM => 0 | VM_XVM => 1 | VM_OTHER => 2 end.
Definition vmtype_at (n : nat) : TransactionData_VMType := match n with 0 => VM_BVM | 1 => VM_XVM | _ => VM_OTHER end.
Global Instance vmtype_eq_dec : EqDecision TransactionData_VMType.
Proof. solve_decision. Defined.
Global Program Instance vmtype_countable : Countable TransactionData_VMType := inj_countable' vmtype_index vmtype_at _.
Next Obligation. by intros []. Qed.

Global Instance txdata_eq_dec : EqDecision TransactionData.
Proof. solve_decision. Defined.
Global Program Instance txdata_countable : Countable TransactionData :=
  inj_countable' (λ t, (td_Type t, td_Amount t, td_VmType t, td_Payload t)) (λ '(a, b, c, d), MkTransactionData a b c d) _.
Next Obligation. by intros []. Qed.

Definition argtype_index (t : Arg_Type) : nat :=
  match t with Arg_F64 => 0 | Arg_I32 => 1 | Arg_I64 => 2 | Arg_U64 => 3 | Arg_String => 4 | Arg_Bytes => 5 | Arg_Bool => 6
          | Arg_OTHER => 7 end.
Definition argtype_at (n : nat) : Arg_Type :=
  match n with 0 => Arg_F64 | 1 => Arg_I32 | 2 => Arg_I64 | 3 => Arg_U64 | 4 => Arg_String | 5 => Arg_Bytes | 6 => Arg_Bool
          | _ => Arg_OTHER end.
Global Instance argtype_eq_dec : EqDecision Arg_Type.
Proof. solve_decision. Defined.
Global Program Instance argtype_countable : Countable Arg_Type := inj_countable' argtype_index argtype_at _.
Next Obligation. by intros []. Qed.

Global Instance arg_eq_dec : EqDecision Arg.
Proof. solve_decision. Defined.
Global Program Instance arg_countable : Countable Arg := inj_countable' (λ a, (arg_Type a, arg_Value a)) (λ '(a, b), MkArg a b) _.
Next Obligation. by intros []. Qed.

Global Instance invoke_eq_dec : EqDecision InvokePayload.
Proof. solve_decision. Defined.
Global Program Instance invoke_countable : Countable InvokePayload :=
  inj_countable' (λ a, (ip_Method a, ip_Args a)) (λ '(a, b), MkInvokePayload a b) _.
Next Obligation. by intros []. Qed.

Definition bvm_lib : BvmLib :=
  {| txdata_codec := codec_by_encode TransactionData; payload_codec := codec_by_encode InvokePayload;
     error_text code _ := code; Float := unit; ParseFloat _ := None |}.

(** Events of services carry whether the service is ordered; the service is that of chain b. *)
Definition event_lib : @EventLib services :=
  {| Event_NODEMGR := 2; Event_SERVICE := 3; audit_types := [1%Z]; NodeEvent := unit;
     nodeevent_encoding := encoding_by_encode unit; Service_ChainID _ := "b"; Service_ServiceID _ := "s" |}.

Module ExecutorSample.
Import LedgerSample CrossChain.
Local Existing Instance storage_by_map.
Local Existing Instance lru_by_list.
Local Existing Instance address_plain.
Local Existing Instance hash_plain.
Local Existing Instance inner_by_encode.
Local Existing Instance range_by_encoding.
Local Existing Instance access_by_sets.
Local Existing Instance tx_lib.
Local Existing Instance constants.
Local Existing Instance pb_lib.
Local Existing Instance services.
Local Existing Instance peers.
Local Existing Instance fsm_by_filter.
Local Existing Instance bvm_lib.
Local Existing Instance event_lib.

(** alice has a balance of 1000000, the relay chain has the id 1. *)
Definition chain_db : gmap string string :=
  {[ compositeKey accountKey alice := pos_to_string (encode (MkInner 3 1000000 None));
     composeStateKey "ic" BitXHubID := "1" ]}.

Definition l0 : SimpleLedger :=
  MkSimpleLedger _ _ _ (MkShared _ _ (chain_db : storage) NewAccountCache {[0 := newChanger]})
    0 0 ∅ ∅ ∅ zeroHash 0 [] 0 0 1 NewAccessList ∅ 0 NewEvmLogs.

Lemma l0_wf : ledger_wf l0.
Proof.
  split; [by intros s o Hs| |by intros s o Hs|by eexists|by intros h es Hs].
  intros a d. simpl. unfold chain_db. rewrite lookup_insert_Some, lookup_singleton_Some.
  intros [[_ <-]|[_ [E _]]]; [vm_compute; by eexists|discriminate E].
Qed.

Lemma l0_revisions : revisions_ok l0.
Proof. split; constructor. Qed.

(** What a ledger shows. *)
Definition world_of (l : SimpleLedger) : world :=
  MkWorld (state_view l) (λ a, ia_Balance (inner_of l a)) (λ a, ia_Nonce (inner_of l a)) (λ a, ia_CodeHash (inner_of l a)) (λ h, default [] (l_events l !! h)).

Lemma models_world_of l : models l (world_of l).
Proof. by split. Qed.

(** A contract that stores a value; [Fail] announces a service, writes, and gives an error. *)
Definition store_contract : BoltContract := λ m,
  if decide (m = "Set") then Some (λ args ctx,
    match args with
    | [VString k; VString v] => _ ← Set_ ctx k (Some v); mret (Success None)
    | _ => Panic
    end)
  else if decide (m = "Fail") then Some (λ args ctx,
    OpAddEvent (ctx_TxHash ctx) 3 (pos_to_string (encode true)) (_ ← Set_ ctx "k" (Some "lost"); mret (Error "FailCode" [])))
  else None.

Definition contracts (addr : string) : option BoltContract :=
  if decide (addr ∈ ["store"; "ic"]) then Some store_contract else None.

Definition be (audit : bool) : BlockExecutor := MkBlockExecutor (MkExecConfig ["root"] 1 1) audit false 0 9.

Definition no_evm (tx : EthTransaction) (gas : Z) : LM (string + ExecutionResult) := mret (inl "no evm").

Definition apply (audit : bool) : Z → Transaction → string → gmap string Service → LM Receipt :=
  applyTransaction contracts (λ _, false) (λ _ _ _, Panic) no_evm "reverted" (λ a _, a) "0" (λ a b, bool_decide (a = b)) (be audit).

(** Transactions: a transfer, calls of the contract, and messages between chains. *)
Definition encode_data (d : TransactionData) : option string := marshal d.
Definition transfer_tx (amount : string) : BxhTransaction :=
  MkBxhTransaction alice bob 3 "h1" 0 None (encode_data (MkTransactionData TX_NORMAL amount VM_BVM "")) None.
Definition call_tx (method : string) (args : list Arg) : BxhTransaction :=
  MkBxhTransaction alice "store" 3 "h2" 0 None
    (encode_data (MkTransactionData TX_INVOKE "" VM_BVM (default EmptyString (marshal (MkInvokePayload method args))))) None.
Definition ibtp_tx (ibtp : IBTP) : BxhTransaction := MkBxhTransaction alice "ic" 3 "h3" 0 (Some ibtp) None None.

Definition set_args : list Arg := [MkArg Arg_String "k"; MkArg Arg_String "v"].

(** A call that succeeds: the value is stored, the fee of 210000 is paid to the administrator, the nonce is set. *)
Lemma applyTransaction_refines_witness :
  undoable (tx_body contracts (λ _, false) (λ _ _ _, Panic) (be false) 0 (call_tx "Set" set_args) "") ∧
  ∃ rc l', apply false 0 (BxhTx (call_tx "Set" set_args)) "" ∅ l0 = Some (rc, l') ∧ rc_Success rc = true ∧
    state_view l' "store" "k" = Some "v" ∧ ia_Balance (inner_of l' "root") = 210000%Z ∧ ia_Nonce (inner_of l' alice) = 4%Z.
Proof.
  assert (undoable (tx_body contracts (λ _, false) (λ _ _ _, Panic) (be false) 0 (call_tx "Set" set_args) "")) as Hu.
  { vm_compute. tauto. }
  split; [exact Hu|].
  pose proof (applyTransaction_refines contracts (λ _, false) (λ _ _ _, Panic) no_evm "reverted" (λ a _, a) "0"
    (λ a b, bool_decide (a = b)) (be false) 0 (call_tx "Set" set_args) "" ∅ l0 (world_of l0)
    eq_refl Hu l0_wf l0_revisions (models_world_of l0)) as Hr. cbv zeta in Hr.
  destruct (tx_world contracts (λ _, false) (λ _ _ _, Panic) (be false) 0 (call_tx "Set" set_args) "" (world_of l0))
    as [[[ok ret] w']|] eqn:E.
  - destruct Hr as (rc & l' & ev & Hrun & Hok & _ & M). exists rc, l'. split; [exact Hrun|].
    assert (ok = true ∧ w_state w' "store" "k" = Some "v" ∧ w_balance w' "root" = 210000%Z ∧ w_nonce w' alice = 4%Z) as (E1 & E2 & E3 & E4).
    { assert ((λ '(ok, _, w'), (ok, w_state w' "store" "k", w_balance w' "root", w_nonce w' alice)) <$>
        tx_world contracts (λ _, false) (λ _ _ _, Panic) (be false) 0 (call_tx "Set" set_args) "" (world_of l0) =
        Some (true, Some "v", 210000%Z, 4%Z)) as Ev by (vm_compute; reflexivity).
      rewrite E in Ev. injection Ev as -> E2 E3 E4. split; [reflexivity|]. split; [exact E2|]. split; [exact E3|exact E4]. }
    split; [by rewrite Hok|]. split; [exact (eq_trans (mo_state _ _ M "store" "k") E2)|].
    split; [exact (eq_trans (mo_balance _ _ M "root") E3)|exact (eq_trans (mo_nonce _ _ M alice) E4)].
  - exfalso. assert (is_Some (tx_world contracts (λ _, false) (λ _ _ _, Panic) (be false) 0 (call_tx "Set" set_args) "" (world_of l0)))
      as [x Hx] by (vm_compute; eexists; reflexivity). rewrite E in Hx. discriminate Hx.
Defined.

Lemma parseArgs_roundtrip_witness :
  let args := [VInt32 (-5); VUint64 18446744073709551615; VInt64 (- 2 ^ 63); VBool true; VString "s"] in
  parseArgs [MkArg Arg_I32 "-5"; MkArg Arg_U64 "18446744073709551615"; MkArg Arg_I64 "-9223372036854775808"; MkArg Arg_Bool "true"; MkArg Arg_String "s"] = Some args.
Proof.
  intros args. assert (Forall fits args) as Hf by (repeat constructor; unfold is_i64, is_u64; lia).
  exact (parseArgs_roundtrip args Hf).
Defined.

(** A number that is too wide for 32 bits is cut without an error. *)
Example int32_argument_cut : parseArgs [MkArg Arg_I32 "4294967297"; MkArg Arg_U64 "18446744073709551616"] = None ∧
  parseArgs [MkArg Arg_I32 "4294967297"] = Some [VInt32 1].
Proof. split; reflexivity. Qed.

(** ** What failed transactions leave *)

Definition ran {A} (r : option (A * SimpleLedger)) : SimpleLedger := match r with Some (_, l) => l | None => l0 end.

Definition self_request : IBTP := MkIBTP "1:a:s" "1:1:x" 1 IBTP_INTERCHAIN 10 None EmptyString EmptyString None.

(** A message between chains that fails is not undone: there is no snapshot to go back to in
[applyBxhTransaction], so that the transaction is reported as failed while the counters have advanced and the
cross-chain transaction has begun. *)
Theorem failed_ibtp_not_reverted :
  let run := apply true 0 (BxhTx (ibtp_tx self_request)) "" (cache true) l0 in
  option_map (λ r, rc_Success r.1) run = Some false ∧
  out_counter (world_of (ran run)) "1:a:s" "1:1:x" = 1%Z ∧ out_counter (world_of l0) "1:a:s" "1:1:x" = 0%Z.
Proof. intros run. split_and!; vm_compute; reflexivity. Qed.

Definition out0 : ExecOut := MkExecOut (MkTxsExecutor [] ∅) ∅ [] [].

Definition apply_block (txs : list Transaction) : LM (list Receipt * ExecOut) :=
  ApplyTransactions contracts (λ _, false) (λ _ _ _, Panic) no_evm "reverted" (λ a _, a) "0" (λ a b, bool_decide (a = b)) (be false)
    txs ∅ out0.

(** Events survive the return to a snapshot: a call that has failed, and whose write is undone, still puts the
service that it announced into the cache of the executor. *)
Theorem failed_call_updates_cache :
  let run := apply_block [BxhTx (call_tx "Fail" [])] l0 in
  option_map (λ r, (map rc_Success r.1.1, serviceCache r.1.2 !! "b:s")) run = Some ([false], Some true) ∧
  state_view (ran run) "store" "k" = None.
Proof. intros run. split; vm_compute; reflexivity. Qed.

(** A block with a transfer and a message. *)
Lemma ApplyTransactions_receipts_witness :
  let run := apply_block [BxhTx (transfer_tx "5"); BxhTx (ibtp_tx (request 1))] l0 in
  ∃ rcs o l', run = Some ((rcs, o), l') ∧ rc_TxHash <$> rcs = ["h1"; "h3"] ∧ normalTxs (eo_txs o) = ["h1"].
Proof.
  intros run. destruct run as [[[rcs o] l']|] eqn:E.
  - exists rcs, o, l'. split; [reflexivity|].
    destruct (ApplyTransactions_receipts contracts (λ _, false) (λ _ _ _, Panic) no_evm "reverted" (λ a _, a) "0"
      (λ a b, bool_decide (a = b)) (be false) _ _ _ _ _ _ _ E) as [Hh Hn].
    split; [exact Hh|]. rewrite Hn.
    assert (option_map (λ r, rc_TxHash <$> filter is_normal r.1.1) run = Some ["h1"]) as Ev by (vm_compute; reflexivity).
    rewrite E in Ev. injection Ev as Ev. exact Ev.
  - exfalso. assert (option_map (λ _, tt) run = Some tt) as Hx by (vm_compute; reflexivity). rewrite E in Hx. discriminate Hx.
Defined.
End ExecutorSample.
