(* ===== verification/ChainLedger.v ===== *)
(** * The chain ledger: [src/internal/ledger/chain_ledger_impl.go], [chain_meta.go]

Blocks are kept in an append-only file with four tables (bodies, transactions, receipts, messages between chains);
a key-value store has the indices by hash and the meta data of the chain. *)
From Stdlib Require Import Ascii.
From S2P Require Import Prelude Storage Account StateLedger Contract TransactionManager Interchain Executor Transactions.
From S2P Require Import Blocks TxExecutor.

(** ** The file of blocks *)

Inductive Table := BodiesTable | TXsTable | ReceiptTable | InterchainTable.

(** One block of the file. *)
Record FileBlock := MkFileBlock { fb_body : string; fb_receipts : string; fb_txs : string; fb_interchain : string }.

Definition fb_table (t : Table) (b : FileBlock) : string :=
  match t with BodiesTable => fb_body b | TXsTable => fb_txs b | ReceiptTable => fb_receipts b | InterchainTable => fb_interchain b end.

(** [bitxhub-kit/storage/blockfile]: blocks are numbered from 1, and there are no others; appending with a number that is not the number of
blocks is refused; truncating keeps the first blocks. *)
Class BlockFileLib := {
  blockfile : Type;
  bf_blocks : blockfile → Z;
  bf_Get : Table → Z → blockfile → option string;
  bf_AppendBlock : Z → string → FileBlock → blockfile → option blockfile;
  bf_TruncateBlocks : Z → blockfile → option blockfile;
  bf_get_range t k f : is_Some (bf_Get t k f) → (1 ≤ k ≤ bf_blocks f)%Z;
  bf_append_ok n hash b f : bf_blocks f = n →
    ∃ f', bf_AppendBlock n hash b f = Some f' ∧ bf_blocks f' = (n + 1)%Z ∧
      (∀ t, bf_Get t (n + 1) f' = Some (fb_table t b)) ∧ (∀ t k, (k ≤ n)%Z → bf_Get t k f' = bf_Get t k f);
  bf_append_order n hash b f : bf_blocks f ≠ n → bf_AppendBlock n hash b f = None;
  bf_truncate_ok n f : (0 ≤ n ≤ bf_blocks f)%Z →
    ∃ f', bf_TruncateBlocks n f = Some f' ∧ bf_blocks f' = n ∧ (∀ t k, (k ≤ n)%Z → bf_Get t k f' = bf_Get t k f)
}.

(** ** Data *)

(** [pb.ChainMeta]; the hash is a pointer. *)
Record ChainMeta := MkChainMeta { cm_Height : Z; cm_BlockHash : option string; cm_InterchainTxCount : Z }.

(** [pb.TransactionMeta] *)
Record TransactionMeta := MkTransactionMeta { tm_BlockHeight : Z; tm_BlockHash : string; tm_Index : Z }.

(** [pb.InterchainMeta] *)
Record InterchainMeta := MkInterchainMeta {
  im_Counter : gmap string (list VerifiedIndex); im_TimeoutCounter : gmap string (list string);
  im_TimeoutL2Roots : list string; im_MultiTxCounter : gmap string (list string) }.

(** Encodings; [hash_String] is the text of a hash, [NewHash] the hash of bytes. *)
Class ChainLib := {
  block_codec :: Codec Block;
  txs_codec :: Codec (list Transaction);
  receipts_codec :: Codec (list Receipt);
  chainmeta_codec :: Codec ChainMeta;
  txmeta_codec :: Codec TransactionMeta;
  interchainmeta_codec :: Codec InterchainMeta;
  hashes_codec :: Codec (list string);
  hash_String : string → string;
  hash_String_inj h1 h2 : hash_String h1 = hash_String h2 → h1 = h2;
  NewHash : string → string;
  PrivKey_Sign : string → option string
}.

Definition blockHashKey : string := "block-hash-".
Definition blockHeightKey : string := "block-height-".
Definition blockTxSetKey : string := "block-tx-set-".
Definition interchainMetaKey : string := "interchain-meta-".
Definition transactionMetaKey : string := "tx-meta-".
Definition chainMetaKey : string := "chain-meta".

(** The number of messages in the counters. *)
Definition getInterchainTxCount `{GoRange} (meta : InterchainMeta) : Z :=
  foldl (λ ret kv, ret +u Z.of_nat (length (kv : string * list VerifiedIndex).2)) 0%Z (go_range (im_Counter meta)).

(** A transaction of which only the hash is known. *)
Definition hash_only (hash : string) : Transaction :=
  BxhTx (MkBxhTransaction EmptyString EmptyString 0 hash 0 None None None).

Definition with_b_Transactions (b : Block) v := MkBlock (b_Header b) v (b_BlockHash b) (b_Signature b) (b_Extra b).

Section chain.
Context `{StorageLib, BlockFileLib, ChainLib, GoRange}.

Record ChainLedgerImpl := MkChainLedger { blockchainStore : storage; bf : blockfile; chainMeta : ChainMeta }.

Implicit Types (l : ChainLedgerImpl) (height : Z) (hash : string).

(** [None] is the error. *)
Definition loadChainMeta (store : storage) : option ChainMeta :=
  match st_Get store chainMetaKey with
  | None => Some (MkChainMeta 0 (Some zeroHash) 0)
  | Some body => unmarshal body
  end.

Definition NewChainLedgerImpl (store : storage) (file : blockfile) : option ChainLedgerImpl :=
  meta ← loadChainMeta store;
  Some (MkChainLedger store file meta).

(** ** Queries; [None] is the error *)

Definition GetBlock l height (fullTx : bool) : option Block :=
  data ← bf_Get BodiesTable height (bf l);
  block ← (unmarshal data : option Block);
  txs ← (if fullTx
         then txsBytes ← bf_Get TXsTable height (bf l); unmarshal txsBytes
         else txHashesData ← st_Get (blockchainStore l) (compositeKey blockTxSetKey (fmt_d height));
              txHashes ← unmarshal txHashesData;
              Some (hash_only <$> (txHashes : list string)));
  Some (with_b_Transactions block txs).

Definition GetBlockHash l height : string :=
  match st_Get (blockchainStore l) (compositeKey blockHeightKey (fmt_d height)) with
  | None => zeroHash
  | Some hash => NewHash hash
  end.

Definition GetBlockSign l height : option (option string) := b_Signature <$> GetBlock l height false.

Definition GetBlockByHash l hash (fullTx : bool) : option Block :=
  data ← st_Get (blockchainStore l) (compositeKey blockHashKey (hash_String hash));
  height ← Atoi data;
  GetBlock l (u64 height) fullTx.

Definition GetTransactionMeta l hash : option TransactionMeta :=
  data ← st_Get (blockchainStore l) (compositeKey transactionMetaKey (hash_String hash));
  unmarshal data.

(** The element at an index of a table; the outer [None] is the panic of an index out of range. *)
Definition at_index {A} (meta : TransactionMeta) (xs : option (list A)) : option (option A) :=
  match xs with
  | None => Some None
  | Some xs => x ← xs !! Z.to_nat (tm_Index meta); Some (Some x)
  end.

Definition GetTransaction l hash : option (option Transaction) :=
  match GetTransactionMeta l hash with
  | None => Some None
  | Some meta => at_index meta (txsBytes ← bf_Get TXsTable (tm_BlockHeight meta) (bf l); unmarshal txsBytes)
  end.

Definition GetReceipt l hash : option (option Receipt) :=
  match GetTransactionMeta l hash with
  | None => Some None
  | Some meta => at_index meta (rsBytes ← bf_Get ReceiptTable (tm_BlockHeight meta) (bf l); unmarshal rsBytes)
  end.

Definition GetTransactionCount l height : option Z :=
  txHashesData ← st_Get (blockchainStore l) (compositeKey blockTxSetKey (fmt_d height));
  txHashes ← (unmarshal txHashesData : option (list string));
  Some (Z.of_nat (length txHashes)).

Definition GetInterchainMeta l height : option InterchainMeta :=
  data ← bf_Get InterchainTable height (bf l);
  unmarshal data.

Definition GetChainMeta l : ChainMeta := chainMeta l.

Definition UpdateChainMeta l (meta : ChainMeta) : ChainLedgerImpl := MkChainLedger (blockchainStore l) (bf l) meta.

(** ** Appending a block *)

Definition prepareReceipts (receipts : list Receipt) : option string := marshal receipts.

(** The writes of the indices of the transactions, from index [i] on. *)
Fixpoint txMetas (block : Block) (i : nat) (txs : list Transaction) : option batch :=
  match txs with
  | [] => Some []
  | tx :: txs =>
      metaBytes ← marshal (MkTransactionMeta (bh_Number (b_Header block)) (b_BlockHash block) (Z.of_nat i));
      rest ← txMetas block (S i) txs;
      Some ((compositeKey transactionMetaKey (hash_String (GetHash tx)), Some metaBytes) :: rest)
  end.

Definition prepareTransactions (batcher : batch) (block : Block) : option (batch * string) :=
  writes ← txMetas block 0 (b_Transactions block);
  ts ← marshal (b_Transactions block);
  Some (batcher ++ writes, ts).

(** The block that is stored has no transactions; it is signed when it has no signature. *)
Definition sign_block (block : Block) : option Block :=
  match b_Signature block with
  | Some _ => Some block
  | None => signed ← PrivKey_Sign (b_BlockHash block); Some (with_b_Signature block (Some signed))
  end.

Definition prepareBlock (batcher : batch) (block : Block) : option (batch * string) :=
  block ← sign_block block;
  bs ← marshal (with_b_Transactions block []);
  let height := bh_Number (b_Header block) in
  data ← marshal (GetHash <$> b_Transactions block);
  let hash := hash_String (b_BlockHash block) in
  Some (batcher ++ [(compositeKey blockTxSetKey (fmt_d height), Some data);
                    (compositeKey blockHashKey hash, Some (fmt_d height));
                    (compositeKey blockHeightKey (fmt_d height), Some hash)], bs).

Definition persistChainMeta (batcher : batch) (meta : ChainMeta) : option batch :=
  data ← marshal meta;
  Some (batcher ++ [(chainMetaKey, Some data)]).

(** What is written: the indices, the block of the file, and the new meta data; [None] is an error. *)
Definition preparePersist l (block : Block) (receipts : list Receipt) (interchainMeta : InterchainMeta) :
    option (batch * FileBlock * ChainMeta) :=
  rs ← prepareReceipts receipts;
  '(batcher, ts) ← prepareTransactions [] block;
  '(batcher, b) ← prepareBlock batcher block;
  im ← marshal interchainMeta;
  let count := getInterchainTxCount interchainMeta in
  let meta := MkChainMeta (bh_Number (b_Header block)) (Some (b_BlockHash block)) (count +u cm_InterchainTxCount (chainMeta l)) in
  batcher ← persistChainMeta batcher meta;
  Some (batcher, MkFileBlock b rs ts im, meta).

(** The outer [None] is the panic of an append that is refused, the inner one an error. *)
Definition PersistExecutionResult l (block : Block) (receipts : list Receipt) (interchainMeta : InterchainMeta) :
    option (option ChainLedgerImpl) :=
  match preparePersist l block receipts interchainMeta with
  | None => Some None
  | Some (batcher, fb, meta) =>
      file ← bf_AppendBlock (cm_Height (chainMeta l)) (b_BlockHash block) fb (bf l);
      Some (Some (UpdateChainMeta (MkChainLedger (st_Commit (blockchainStore l) batcher) file (chainMeta l)) meta))
  end.

(** ** Removing blocks *)

(** The ledger with the file truncated, and the deletions and the number of messages of the block; [None] is the
error. *)
Definition removeChainDataOnBlock l (batch : batch) height : ChainLedgerImpl * option (Storage.batch * Z) :=
  match (block ← GetBlock l height false; interchainMeta ← GetInterchainMeta l height;
         file ← bf_TruncateBlocks (u64 (height - 1)) (bf l); Some (block, interchainMeta, file)) with
  | None => (l, None)
  | Some (block, interchainMeta, file) =>
      (MkChainLedger (blockchainStore l) file (chainMeta l),
       Some (batch ++ [(compositeKey blockTxSetKey (fmt_d height), None);
                       (compositeKey blockHashKey (hash_String (b_BlockHash block)), None);
                       (compositeKey interchainMetaKey (fmt_d height), None)]
                   ++ ((λ tx, (compositeKey transactionMetaKey (hash_String (GetHash tx)), None)) <$> b_Transactions block),
             getInterchainTxCount interchainMeta))
  end.

(** The loop from block [i] down, [n] blocks. *)
Fixpoint removeBlocks (n : nat) l (batch : batch) (count : Z) (i : Z) : ChainLedgerImpl * option (Storage.batch * Z) :=
  match n with
  | 0 => (l, Some (batch, count))
  | S n =>
      match removeChainDataOnBlock l batch i with
      | (l, None) => (l, None)
      | (l, Some (batch, c)) => removeBlocks n l batch (u64 (count - c)) (u64 (i - 1))
      end
  end.

Inductive chainError := ErrorHigherNumber | ErrorGetBlock.

(** Errors leave the blocks that have been removed from the file removed. *)
Definition RollbackBlockChain l height : ChainLedgerImpl * option chainError :=
  let meta := GetChainMeta l in
  if decide (cm_Height meta < height)%Z then (l, Some ErrorHigherNumber)
  else if decide (cm_Height meta = height) then (l, None)
  else
    match removeBlocks (Z.to_nat (cm_Height meta - height)) l [] (cm_InterchainTxCount meta) (cm_Height meta) with
    | (l, None) => (l, Some ErrorGetBlock)
    | (l, Some (batch, count)) =>
        if decide (height = 0)%Z
        then
          let batch := batch ++ [(chainMetaKey, None)] in
          (MkChainLedger (st_Commit (blockchainStore l) batch) (bf l) (MkChainMeta 0 None 0), None)
        else
          match (block ← GetBlock l height false;
                 let meta := MkChainMeta (bh_Number (b_Header block)) (Some (b_BlockHash block)) count in
                 batch ← persistChainMeta batch meta; Some (batch, meta)) with
          | None => (l, Some ErrorGetBlock)
          | Some (batch, meta) => (MkChainLedger (st_Commit (blockchainStore l) batch) (bf l) meta, None)
          end
    end.
End chain.
