(* ===== verification/ChainLedgerProps.v ===== *)
(** * The chain ledger is a list of blocks

[PersistExecutionResult] appends to the list, [RollbackBlockChain] truncates it, and the queries look blocks,
transactions, receipts and messages up in it. *)
From Stdlib Require Import Ascii.
From S2P Require Import Prelude Storage Account StateLedger Contract TransactionManager Interchain Executor Transactions.
From S2P Require Import Blocks TxExecutor ChainLedger.

(** ** The specification *)

(** A block with its signature and transactions, its receipts, and the messages it carries. *)
Record entry := MkEntry { en_block : Block; en_receipts : list Receipt; en_meta : InterchainMeta }.

Definition en_number (e : entry) : Z := bh_Number (b_Header (en_block e)).
Definition en_hash (e : entry) : string := b_BlockHash (en_block e).
Definition en_txs (e : entry) : list Transaction := b_Transactions (en_block e).
Definition en_hashes (e : entry) : list string := GetHash <$> en_txs e.

Section spec.
Context `{StorageLib, BlockFileLib, ChainLib, GoRange}.
Implicit Types (l : ChainLedgerImpl) (chain : list entry) (e : entry) (h : Z).

Definition chain_sum chain : Z := foldr (λ e c, getInterchainTxCount (en_meta e) + c)%Z 0%Z chain.
Definition chain_count chain : Z := u64 (chain_sum chain).

(** A value is in a place when its encoding is. *)
Definition holds {A} `{Encoding A} (place : option string) (a : A) : Prop := ∃ d, place = Some d ∧ unmarshal d = Some a.

Definition txset_key h : string := compositeKey blockTxSetKey (fmt_d h).
Definition hash_key (hash : string) : string := compositeKey blockHashKey (hash_String hash).
Definition height_key h : string := compositeKey blockHeightKey (fmt_d h).
Definition imeta_key h : string := compositeKey interchainMetaKey (fmt_d h).
Definition txmeta_key (hash : string) : string := compositeKey transactionMetaKey (hash_String hash).

(** The file and the store have the block at height [h]. *)
Record stored_file (f : blockfile) h e : Prop := {
  sf_body : holds (bf_Get BodiesTable h f) (with_b_Transactions (en_block e) []);
  sf_txs : holds (bf_Get TXsTable h f) (en_txs e);
  sf_receipts : holds (bf_Get ReceiptTable h f) (en_receipts e);
  sf_meta : holds (bf_Get InterchainTable h f) (en_meta e) }.

Record stored_index (s : storage) h e : Prop := {
  si_set : holds (st_Get s (txset_key h)) (en_hashes e);
  si_hash : st_Get s (hash_key (en_hash e)) = Some (fmt_d h);
  si_height : st_Get s (height_key h) = Some (hash_String (en_hash e));
  si_txs i hash : en_hashes e !! i = Some hash →
    holds (st_Get s (txmeta_key hash)) (MkTransactionMeta h (en_hash e) (Z.of_nat i)) }.

(** The meta data of a list of blocks. *)
Definition is_meta chain (m : ChainMeta) : Prop :=
  cm_Height m = Z.of_nat (length chain) ∧ cm_InterchainTxCount m = chain_count chain ∧
  match last chain with Some e => cm_BlockHash m = Some (en_hash e) | None => True end.

Record represents chain l : Prop := {
  rp_meta : is_meta chain (chainMeta l);
  rp_load : ∃ m, loadChainMeta (blockchainStore l) = Some m ∧ is_meta chain m;
  rp_blocks : bf_blocks (bf l) = Z.of_nat (length chain);
  rp_file i e : chain !! i = Some e → stored_file (bf l) (Z.of_nat i + 1) e;
  rp_index i e : chain !! i = Some e → stored_index (blockchainStore l) (Z.of_nat i + 1) e;
  rp_number i e : chain !! i = Some e → en_number e = (Z.of_nat i + 1)%Z;
  rp_hashes : NoDup (en_hash <$> chain);
  rp_txs : NoDup (chain ≫= en_hashes);
  rp_small : (Z.of_nat (length chain) < 2 ^ 63)%Z }.

(** ** Encodings and keys *)

Lemma holds_marshal {A} `{Codec A} (a : A) : ∃ d, marshal a = Some d ∧ holds (Some d) a.
Proof. destruct (codec_ok a) as (d & E1 & E2). exists d. split; [done|]. by exists d. Qed.

Lemma fmt_d_key_inj p h1 h2 : compositeKey p (fmt_d h1) = compositeKey p (fmt_d h2) → h1 = h2.
Proof. unfold compositeKey. intros E. apply fmt_d_inj. by apply (inj (String.append p)) in E. Qed.

Lemma hash_key_inj p x1 x2 : compositeKey p (hash_String x1) = compositeKey p (hash_String x2) → x1 = x2.
Proof. unfold compositeKey. intros E. apply hash_String_inj. by apply (inj (String.append p)) in E. Qed.

(** ** Looking up *)

Lemma holds_bind {A B} `{Encoding A} place (a : A) (f : A → option B) : holds place a → (d ← place; x ← unmarshal d; f x) = f a.
Proof. intros (d & -> & E). cbn. by rewrite E. Qed.

Lemma holds_get {A} `{Encoding A} place (a : A) : holds place a → (d ← place; unmarshal d) = Some a.
Proof. intros (d & -> & E). exact E. Qed.

Lemma represents_GetBlock chain l i e :
  represents chain l → chain !! i = Some e → GetBlock l (Z.of_nat i + 1) true = Some (en_block e).
Proof.
  intros R He. destruct (rp_file _ _ R i e He) as [Hb Ht _ _]. unfold GetBlock.
  rewrite (holds_bind _ _ _ Hb), (holds_get _ _ Ht). by destruct e as [[] ? ?].
Qed.

Lemma represents_GetBlock_hashes chain l i e :
  represents chain l → chain !! i = Some e →
  GetBlock l (Z.of_nat i + 1) false = Some (with_b_Transactions (en_block e) (hash_only <$> en_hashes e)).
Proof.
  intros R He. destruct (rp_file _ _ R i e He) as [Hb _ _ _]. unfold GetBlock.
  rewrite (holds_bind _ _ _ Hb), (holds_bind _ _ _ (si_set _ _ _ (rp_index _ _ R i e He))). done.
Qed.

(** The height and the index of a transaction of the list. *)
Lemma represents_meta chain l i e j hash :
  represents chain l → chain !! i = Some e → en_hashes e !! j = Some hash →
  GetTransactionMeta l hash = Some (MkTransactionMeta (Z.of_nat i + 1) (en_hash e) (Z.of_nat j)).
Proof. intros R He Hj. apply holds_get. by apply (si_txs _ _ _ (rp_index _ _ R i e He)). Qed.

(** C22: The queries look blocks up in the list: by height and by hash, the messages and the number of transactions
of a block, and each transaction and its receipt by the hash of the transaction. *)
Theorem chain_queries chain l i e :
  represents chain l → chain !! i = Some e →
  GetBlock l (Z.of_nat i + 1) true = Some (en_block e) ∧
  GetBlockByHash l (en_hash e) true = Some (en_block e) ∧
  GetBlockHash l (Z.of_nat i + 1) = NewHash (hash_String (en_hash e)) ∧
  GetInterchainMeta l (Z.of_nat i + 1) = Some (en_meta e) ∧
  GetTransactionCount l (Z.of_nat i + 1) = Some (Z.of_nat (length (en_txs e))) ∧
  (∀ j tx, en_txs e !! j = Some tx → GetTransaction l (GetHash tx) = Some (Some tx)) ∧
  (∀ j tx rc, en_txs e !! j = Some tx → en_receipts e !! j = Some rc → GetReceipt l (GetHash tx) = Some (Some rc)).
Proof.
  intros R He. pose proof (rp_index _ _ R i e He) as Hi. pose proof (rp_file _ _ R i e He) as Hf.
  pose proof (lookup_lt_Some _ _ _ He) as Hlt. pose proof (rp_small _ _ R) as Hsm.
  pose proof (represents_GetBlock _ _ _ _ R He) as Hb.
  assert (∀ j tx, en_txs e !! j = Some tx → en_hashes e !! j = Some (GetHash tx)) as Hh.
  { intros j tx Hj. unfold en_hashes. by rewrite list_lookup_fmap, Hj. }
  split_and!.
  - done.
  - unfold GetBlockByHash. change (compositeKey blockHashKey (hash_String (en_hash e))) with (hash_key (en_hash e)).
    rewrite (si_hash _ _ _ Hi). cbn [mbind option_bind]. rewrite Atoi_fmt_d by (unfold is_i64; lia). cbn [mbind option_bind].
    by rewrite u64_small by (unfold is_u64; lia).
  - unfold GetBlockHash. change (compositeKey blockHeightKey (fmt_d (Z.of_nat i + 1))) with (height_key (Z.of_nat i + 1)).
    by rewrite (si_height _ _ _ Hi).
  - apply holds_get. apply Hf.
  - unfold GetTransactionCount. rewrite (holds_bind _ _ _ (si_set _ _ _ Hi)). do 2 f_equal. apply length_fmap.
  - intros j tx Hj. unfold GetTransaction. rewrite (represents_meta _ _ _ _ _ _ R He (Hh _ _ Hj)).
    cbn [tm_BlockHeight]. rewrite (holds_get _ _ (sf_txs _ _ _ Hf)). cbn [at_index tm_Index]. by rewrite Nat2Z.id, Hj.
  - intros j tx rc Hj Hr. unfold GetReceipt. rewrite (represents_meta _ _ _ _ _ _ R He (Hh _ _ Hj)).
    cbn [tm_BlockHeight]. rewrite (holds_get _ _ (sf_receipts _ _ _ Hf)). cbn [at_index tm_Index]. by rewrite Nat2Z.id, Hr.
Qed.

(** ** Writing the index *)

Definition index_keys h e : list string :=
  txset_key h :: hash_key (en_hash e) :: height_key h :: (txmeta_key <$> en_hashes e).

Lemma st_Get_untouched (s : storage) (b : batch) k : k ∉ b.*1 → st_Get (st_Commit s b) k = st_Get s k.
Proof.
  intros Hk. rewrite st_Get_Commit, batch_lookup_None; [done|]. intros v Hv. apply Hk. apply list_elem_of_fmap. by exists (k, v).
Qed.

Lemma st_Get_written (s : storage) (b : batch) k v : NoDup b.*1 → (k, v) ∈ b → st_Get (st_Commit s b) k = v.
Proof. intros Hn Hk. by rewrite st_Get_Commit, (batch_lookup_NoDup _ _ _ Hn Hk). Qed.

(** Writes to other keys leave the index of a block. *)
Lemma stored_index_commit (s : storage) (b : batch) h e :
  stored_index s h e → (∀ k, k ∈ index_keys h e → k ∉ b.*1) → stored_index (st_Commit s b) h e.
Proof.
  intros [Hs Hh Hg Ht] Hk. split.
  - rewrite st_Get_untouched by (apply Hk; unfold index_keys; set_solver). done.
  - rewrite st_Get_untouched by (apply Hk; unfold index_keys; set_solver). done.
  - rewrite st_Get_untouched by (apply Hk; unfold index_keys; set_solver). done.
  - intros i hash Hi. rewrite st_Get_untouched; [by apply Ht|]. apply Hk. unfold index_keys. rewrite !elem_of_cons. do 3 right.
    apply list_elem_of_fmap. exists hash. split; [done|]. by eapply list_elem_of_lookup_2.
Qed.

(** The keys of different blocks differ. *)
Lemma index_keys_disjoint h1 e1 h2 e2 k :
  h1 ≠ h2 → en_hash e1 ≠ en_hash e2 → (∀ x, x ∈ en_hashes e1 → x ∉ en_hashes e2) →
  k ∈ index_keys h1 e1 → k ∉ imeta_key h2 :: index_keys h2 e2.
Proof.
  intros Hh He Hx. unfold index_keys. rewrite !elem_of_cons.
  intros [->|[->|[->|(x & -> & Hin)%list_elem_of_fmap]]]; intros [E|[E|[E|[E|(y & E & Hin')%list_elem_of_fmap]]]];
    try discriminate E.
  - by apply Hh, (fmt_d_key_inj blockTxSetKey).
  - by apply He, (hash_key_inj blockHashKey).
  - by apply Hh, (fmt_d_key_inj blockHeightKey).
  - apply (hash_key_inj transactionMetaKey) in E as ->. by apply (Hx y).
Qed.

Lemma meta_not_index h e : chainMetaKey ∉ imeta_key h :: index_keys h e.
Proof.
  unfold index_keys. rewrite !elem_of_cons. intros [E|[E|[E|[E|(y & E & _)%list_elem_of_fmap]]]]; discriminate E.
Qed.

Lemma index_keys_NoDup h e : NoDup (en_hashes e) → NoDup (index_keys h e).
Proof.
  intros Hn. unfold index_keys. repeat (apply NoDup_cons; split).
  - rewrite !elem_of_cons. intros [E|[E|(y & E & _)%list_elem_of_fmap]]; discriminate E.
  - rewrite !elem_of_cons. intros [E|(y & E & _)%list_elem_of_fmap]; discriminate E.
  - intros (y & E & _)%list_elem_of_fmap; discriminate E.
  - apply NoDup_fmap_2_strong; [|done]. intros x y _ _. apply (hash_key_inj transactionMetaKey).
Qed.

Lemma txMetas_spec block i txs :
  ∃ writes, txMetas block i txs = Some writes ∧ writes.*1 = txmeta_key <$> (GetHash <$> txs) ∧
    ∀ j tx, txs !! j = Some tx → ∃ d, (txmeta_key (GetHash tx), Some d) ∈ writes ∧
      unmarshal d = Some (MkTransactionMeta (bh_Number (b_Header block)) (b_BlockHash block) (Z.of_nat (i + j))).
Proof.
  revert i. induction txs as [|tx txs IH]; intros i; cbn [txMetas]; [by exists []|].
  destruct (codec_ok (MkTransactionMeta (bh_Number (b_Header block)) (b_BlockHash block) (Z.of_nat i))) as (d & E1 & E2).
  rewrite E1. destruct (IH (S i)) as (writes & E & Hk & Hw). rewrite E. cbn [mbind option_bind]. eexists. split; [reflexivity|].
  split; [cbn; by rewrite Hk|]. intros [|j] tx' Hj.
  - injection Hj as ->. exists d. split; [by left|]. by rewrite Nat.add_0_r.
  - destruct (Hw j tx' Hj) as (d' & Hin & Ed'). exists d'. split; [by right|]. by rewrite <-Nat.add_succ_comm.
Qed.

(** ** Appending *)

Lemma sign_block_same block b' :
  sign_block block = Some b' → b_Header b' = b_Header block ∧ b_Transactions b' = b_Transactions block ∧ b_BlockHash b' = b_BlockHash block.
Proof.
  unfold sign_block. destruct (b_Signature block); [by intros [= <-]|].
  destruct (PrivKey_Sign _); [|done]. by intros [= <-].
Qed.

Lemma preparePersist_spec l block e :
  sign_block block = Some (en_block e) → NoDup (en_hashes e) →
  let meta := MkChainMeta (en_number e) (Some (en_hash e)) (getInterchainTxCount (en_meta e) +u cm_InterchainTxCount (chainMeta l)) in
  ∃ b fb, preparePersist l block (en_receipts e) (en_meta e) = Some (b, fb, meta) ∧
    (∀ k, k ∈ b.*1 → k = chainMetaKey ∨ k ∈ index_keys (en_number e) e) ∧
    (∀ s, stored_index (st_Commit s b) (en_number e) e ∧ holds (st_Get (st_Commit s b) chainMetaKey) meta) ∧
    holds (Some (fb_body fb)) (with_b_Transactions (en_block e) []) ∧ holds (Some (fb_txs fb)) (en_txs e) ∧
    holds (Some (fb_receipts fb)) (en_receipts e) ∧ holds (Some (fb_interchain fb)) (en_meta e).
Proof.
  intros Hsign Hn meta. destruct (sign_block_same _ _ Hsign) as (Eh & Et & Eb).
  destruct (holds_marshal (en_receipts e)) as (rs & Er & Hr). destruct (holds_marshal (en_txs e)) as (ts & Ets & Hts).
  destruct (holds_marshal (with_b_Transactions (en_block e) [])) as (bs & Ebs & Hbs).
  destruct (holds_marshal (en_hashes e)) as (data & Ed & Hd). destruct (holds_marshal (en_meta e)) as (im & Eim & Him).
  destruct (holds_marshal meta) as (md & Emd & Hmd). destruct (txMetas_spec block 0 (en_txs e)) as (writes & Ew & Hk & Hw).
  rewrite <-Eh, <-Eb in Hw. set (tail := [(txset_key (en_number e), Some data); (hash_key (en_hash e), Some (fmt_d (en_number e)));
    (height_key (en_number e), Some (hash_String (en_hash e)))] : batch).
  exists (writes ++ tail ++ [(chainMetaKey, Some md)]), (MkFileBlock bs rs ts im).
  split.
  { unfold preparePersist, prepareReceipts, prepareTransactions, prepareBlock, persistChainMeta. rewrite Er, Hsign. cbn [mbind option_bind].
    rewrite <-Et. change (b_Transactions (en_block e)) with (en_txs e). rewrite Ew. cbn [mbind option_bind]. rewrite Ets. cbn [mbind option_bind].
    rewrite Ebs. cbn [mbind option_bind]. change (GetHash <$> en_txs e) with (en_hashes e). rewrite Ed. cbn [mbind option_bind].
    rewrite Eim. cbn [mbind option_bind]. rewrite <-Eh, <-Eb. fold meta. change (MkChainMeta _ _ _) with meta. rewrite Emd. cbn [mbind option_bind].
    by rewrite (assoc_L (++)). }
  set (b := writes ++ tail ++ [(chainMetaKey, Some md)]).
  assert (b.*1 ≡ₚ chainMetaKey :: index_keys (en_number e) e) as Hp.
  { unfold b, tail. rewrite !fmap_app, Hk. unfold index_keys. cbn [fmap list_fmap fst app]. fold (en_hashes e).
    rewrite (comm (++) (txmeta_key <$> _)). cbn. solve_Permutation. }
  assert (NoDup b.*1) as Hnd.
  { rewrite Hp. apply NoDup_cons. split; [|by apply index_keys_NoDup].
    intros Hin. apply (meta_not_index (en_number e) e). by right. }
  assert (∀ k v, (k, v) ∈ tail ++ [(chainMetaKey, Some md)] → ∀ s, st_Get (st_Commit s b) k = v) as Hget.
  { intros k v Hin s. apply st_Get_written; [done|]. unfold b. apply elem_of_app. by right. }
  split_and!; [|intros s; split|done..].
  - intros k. rewrite Hp, elem_of_cons. done.
  - split.
    + rewrite (Hget _ (Some data)) by (unfold tail; set_solver). done.
    + apply Hget. unfold tail. set_solver.
    + apply Hget. unfold tail. set_solver.
    + intros i hash Hi. unfold en_hashes in Hi. rewrite list_lookup_fmap in Hi.
      destruct (en_txs e !! i) as [tx|] eqn:Etx; [|done]. injection Hi as <-. destruct (Hw i tx Etx) as (d & Hin & Edd).
      exists d. split; [|done]. apply st_Get_written; [done|]. unfold b. apply elem_of_app. by left.
  - rewrite (Hget _ (Some md)) by set_solver. done.
Qed.

Lemma chain_sum_app c1 c2 : chain_sum (c1 ++ c2) = (chain_sum c1 + chain_sum c2)%Z.
Proof. unfold chain_sum. induction c1 as [|e c1 IH]; cbn; [done|]. rewrite IH. lia. Qed.

Lemma u64_add_r a b : u64 (a + u64 b) = u64 (a + b).
Proof. unfold u64. by rewrite Zplus_mod_idemp_r. Qed.

(** A block that can follow: the next number, hashes that have not been seen. *)
Record follows chain e : Prop := {
  fo_number : en_number e = (Z.of_nat (length chain) + 1)%Z;
  fo_hash : en_hash e ∉ en_hash <$> chain;
  fo_txs : NoDup (en_hashes e);
  fo_fresh x : x ∈ en_hashes e → x ∉ chain ≫= en_hashes;
  fo_small : (Z.of_nat (length chain) + 1 < 2 ^ 63)%Z }.

Lemma is_meta_snoc chain e m :
  is_meta chain m → en_number e = (Z.of_nat (length chain) + 1)%Z →
  is_meta (chain ++ [e]) (MkChainMeta (en_number e) (Some (en_hash e)) (getInterchainTxCount (en_meta e) +u cm_InterchainTxCount m)).
Proof.
  intros (Hh & Hc & _) He. split_and!.
  - cbn. rewrite He, length_app. cbn. lia.
  - cbn. rewrite Hc. unfold chain_count. rewrite u64_add_r, chain_sum_app. f_equal. cbn. lia.
  - by rewrite last_snoc.
Qed.

Lemma chain_snoc_lookup chain e i e' :
  (chain ++ [e]) !! i = Some e' → (chain !! i = Some e' ∧ i < length chain) ∨ (i = length chain ∧ e' = e).
Proof.
  intros [Hi|[Hlen Hi]]%lookup_app_Some.
  - left. split; [done|]. by eapply lookup_lt_Some.
  - right. destruct (i - length chain) as [|k] eqn:Ek; [|by destruct k]. injection Hi as <-. split; [lia|done].
Qed.

Lemma stored_file_old (f f' : blockfile) n h e :
  (∀ t k, (k ≤ n)%Z → bf_Get t k f' = bf_Get t k f) → (h ≤ n)%Z → stored_file f h e → stored_file f' h e.
Proof. intros Hf Hh [Hb Ht Hr Hm]. split; rewrite Hf by done; done. Qed.

Lemma persist_represents chain l block e :
  represents chain l → sign_block block = Some (en_block e) → follows chain e →
  ∃ l', PersistExecutionResult l block (en_receipts e) (en_meta e) = Some (Some l') ∧ represents (chain ++ [e]) l'.
Proof.
  intros R Hsign [Hnum Hhash Htxs Hfresh Hsmall].
  destruct (preparePersist_spec l block e Hsign Htxs) as (b & fb & E & Hk & Hb & Hbody & Htx & Hrs & Him). cbv zeta in E.
  destruct (rp_meta _ _ R) as (Hht & Hcnt & Hlast).
  destruct (bf_append_ok (cm_Height (chainMeta l)) (b_BlockHash block) fb (bf l)) as (f' & Ef & Hblocks & Hnew & Hold).
  { rewrite (rp_blocks _ _ R), Hht. done. }
  unfold PersistExecutionResult. rewrite E, Ef. cbn [mbind option_bind]. eexists. split; [reflexivity|].
  rewrite Hht in Hblocks, Hnew, Hold. split; cbn [UpdateChainMeta chainMeta blockchainStore bf].
  - by apply is_meta_snoc; [apply R|].
  - eexists. split; [|by apply is_meta_snoc; [apply (rp_meta _ _ R)|]]. unfold loadChainMeta.
    destruct (Hb (blockchainStore l)) as [_ (d & Ed & Eu)]. by rewrite Ed.
  - rewrite Hblocks, length_app. cbn. lia.
  - intros i e' [[Hi Hlt]|[-> ->]]%chain_snoc_lookup.
    + eapply stored_file_old; [exact Hold|lia|by apply (rp_file _ _ R)].
    + split; rewrite Hnew; done.
  - intros i e' [[Hi Hlt]|[-> ->]]%chain_snoc_lookup; [|rewrite <-Hnum; by apply Hb].
    apply stored_index_commit; [by apply (rp_index _ _ R)|]. intros k Hin [->|Hin']%Hk.
    + apply (meta_not_index (Z.of_nat i + 1) e'). by right.
    + apply (index_keys_disjoint (Z.of_nat i + 1) e' (en_number e) e k); [lia| | |done|by right].
      * intros Heq. apply Hhash. rewrite <-Heq. apply list_elem_of_fmap. exists e'. split; [done|by eapply list_elem_of_lookup_2].
      * intros x Hx Hx'. apply (Hfresh x Hx'). apply list_elem_of_bind. exists e'. split; [done|by eapply list_elem_of_lookup_2].
  - intros i e' [[Hi Hlt]|[-> ->]]%chain_snoc_lookup; [by apply (rp_number _ _ R)|done].
  - rewrite fmap_app. apply NoDup_app. split_and!; [apply R| |by apply NoDup_singleton].
    intros x Hx ->%list_elem_of_singleton. by apply Hhash.
  - rewrite bind_app. cbn. rewrite app_nil_r. apply NoDup_app. split_and!; [apply R| |done].
    intros x Hx Hx'. by apply (Hfresh x).
  - rewrite length_app. cbn. lia.
Qed.

(** C18: [PersistExecutionResult] appends a block that can follow: it succeeds, and the ledger, its store, its file
and its meta data (height, hash, and the number of messages modulo 2^64) then represent the longer list. *)
Theorem PersistExecutionResult_append chain l block e :
  represents chain l → sign_block block = Some (en_block e) → follows chain e →
  ∃ l', PersistExecutionResult l block (en_receipts e) (en_meta e) = Some (Some l') ∧ represents (chain ++ [e]) l'.
Proof. apply persist_represents. Qed.

(** ** Removing *)

(** A block that is no longer there: it is found neither by height nor by hash, and its transactions and receipts
are not found. (Its hash stays in the index by height.) *)
Record forgotten l h e : Prop := {
  fg_block full : GetBlock l h full = None;
  fg_by_hash full : GetBlockByHash l (en_hash e) full = None;
  fg_meta : GetInterchainMeta l h = None;
  fg_count : GetTransactionCount l h = None;
  fg_txs hash : hash ∈ en_hashes e →
    GetTransactionMeta l hash = None ∧ GetTransaction l hash = Some None ∧ GetReceipt l hash = Some None }.

Definition removed_keys h e : list string := txset_key h :: hash_key (en_hash e) :: (txmeta_key <$> en_hashes e).

(** A batch of deletions. *)
Definition deletes (dels : batch) : Prop := ∀ k v, (k, v) ∈ dels → v = None.

Lemma st_Get_deleted (s : storage) dels tail k :
  deletes dels → k ∈ dels.*1 → k ≠ chainMetaKey → st_Get (st_Commit s (dels ++ [(chainMetaKey, tail)])) k = None.
Proof.
  intros Hd (kv & -> & Hin)%list_elem_of_fmap Hk. rewrite st_Get_snoc, decide_False, st_Get_Commit by done.
  destruct (batch_lookup dels kv.1) as [v|] eqn:E; [by apply batch_lookup_Some, Hd in E as ->|].
  exfalso. destruct kv as [k v]. cbn in *. clear Hk. induction dels as [|[k' v'] dels IH] using rev_ind; [by apply elem_of_nil in Hin|].
  rewrite batch_lookup_snoc in E. case_decide; [done|]. apply elem_of_app in Hin as [Hin|[= -> ->]%list_elem_of_singleton]; [|done].
  apply IH; [|done|done]. intros k1 v1 Hin1. apply (Hd k1). apply elem_of_app. by left.
Qed.

Lemma forgotten_deleted l1 meta dels tail h e :
  (bf_blocks (bf l1) < h)%Z → deletes dels → (∀ k, k ∈ removed_keys h e → k ∈ dels.*1) →
  forgotten (MkChainLedger (st_Commit (blockchainStore l1) (dels ++ [(chainMetaKey, tail)])) (bf l1) meta) h e.
Proof.
  intros Hh Hd Hk.
  assert (∀ t, bf_Get t h (bf l1) = None) as Hf.
  { intros t. destruct (bf_Get t h (bf l1)) eqn:E; [|done]. assert (1 ≤ h ≤ bf_blocks (bf l1))%Z; [|lia]. by apply (bf_get_range t). }
  assert (∀ k, k ∈ removed_keys h e → k ≠ chainMetaKey) as Hm.
  { intros k Hin ->. apply (meta_not_index h e). unfold removed_keys in Hin. unfold index_keys. set_solver. }
  assert (∀ k, k ∈ removed_keys h e → st_Get (st_Commit (blockchainStore l1) (dels ++ [(chainMetaKey, tail)])) k = None) as Hg.
  { intros k Hin. apply st_Get_deleted; [done|by apply Hk|by apply Hm]. }
  split.
  - intros full. unfold GetBlock. cbn [bf]. by rewrite (Hf BodiesTable).
  - intros full. unfold GetBlockByHash. cbn [blockchainStore]. fold (hash_key (en_hash e)). rewrite Hg; [done|]. unfold removed_keys. set_solver.
  - unfold GetInterchainMeta. cbn [bf]. by rewrite Hf.
  - unfold GetTransactionCount. cbn [blockchainStore]. fold (txset_key h). rewrite Hg; [done|]. unfold removed_keys. set_solver.
  - intros hash Hin. assert (GetTransactionMeta (MkChainLedger (st_Commit (blockchainStore l1) (dels ++ [(chainMetaKey, tail)])) (bf l1) meta) hash = None) as E.
    { unfold GetTransactionMeta. cbn [blockchainStore]. fold (txmeta_key hash). rewrite Hg; [done|].
      unfold removed_keys. do 2 right. by apply list_elem_of_fmap_2. }
    unfold GetTransaction, GetReceipt. by rewrite E.
Qed.

(** While blocks are removed: the file has the first [m] blocks, the store still has the indices of all. *)
Record removing chain (m : nat) l : Prop := {
  rm_blocks : bf_blocks (bf l) = Z.of_nat m;
  rm_file i e : chain !! i = Some e → i < m → stored_file (bf l) (Z.of_nat i + 1) e;
  rm_index i e : chain !! i = Some e → stored_index (blockchainStore l) (Z.of_nat i + 1) e }.

Lemma removing_GetBlock chain m l i e :
  removing chain m l → chain !! i = Some e → i < m →
  GetBlock l (Z.of_nat i + 1) false = Some (with_b_Transactions (en_block e) (hash_only <$> en_hashes e)).
Proof.
  intros [_ Hf Hi] He Hlt. unfold GetBlock.
  rewrite (holds_bind _ _ _ (sf_body _ _ _ (Hf i e He Hlt))), (holds_bind _ _ _ (si_set _ _ _ (Hi i e He))). done.
Qed.

Lemma removeChainDataOnBlock_spec chain k l b e :
  removing chain (S k) l → chain !! k = Some e → (Z.of_nat (S k) < 2 ^ 63)%Z →
  ∃ l' dels, removeChainDataOnBlock l b (Z.of_nat k + 1) = (l', Some (b ++ dels, getInterchainTxCount (en_meta e))) ∧
    removing chain k l' ∧ blockchainStore l' = blockchainStore l ∧ chainMeta l' = chainMeta l ∧
    (∀ x, x ∈ dels.*1 → x ∈ imeta_key (Z.of_nat k + 1) :: index_keys (Z.of_nat k + 1) e) ∧
    deletes dels ∧ (∀ x, x ∈ removed_keys (Z.of_nat k + 1) e → x ∈ dels.*1).
Proof.
  intros Hrm He Hsm. unfold removeChainDataOnBlock. rewrite (removing_GetBlock _ _ _ _ _ Hrm He) by lia.
  destruct Hrm as [Hbl Hf Hi]. unfold GetInterchainMeta. cbn [mbind option_bind].
  assert (k < S k) as Hlt by lia. pose proof (holds_get _ _ (sf_meta _ _ _ (Hf k e He Hlt))) as Em. cbn [mbind option_bind] in Em.
  rewrite Em. rewrite u64_small by (unfold is_u64; lia). rewrite (Z.add_simpl_r (Z.of_nat k) 1).
  destruct (bf_truncate_ok (Z.of_nat k) (bf l)) as (f' & Ef & Hbl' & Hold); [lia|]. rewrite Ef. cbn [mbind option_bind].
  eexists _, _. split; [reflexivity|]. split_and!; [|done|done|..].
  - split; [done| |done]. intros i e' Hi' Hi2. eapply stored_file_old; [exact Hold|lia|]. apply Hf; [done|lia].
  - intros x. rewrite fmap_app, <-list_fmap_compose, elem_of_app. unfold index_keys. rewrite !elem_of_cons.
    cbn [fmap list_fmap fst with_b_Transactions b_Transactions b_BlockHash]. intros [Hx|Hx].
    + set_solver.
    + do 4 right. cbn in Hx. rewrite <-list_fmap_compose in Hx. exact Hx.
  - intros x v. rewrite elem_of_app, !elem_of_cons, elem_of_nil. intros [[[= _ ->]|[[= _ ->]|[[= _ ->]|[]]]]|Hx]; [done..|].
    by apply list_elem_of_fmap in Hx as (tx & [= _ ->] & _).
  - intros x. unfold removed_keys. rewrite fmap_app, elem_of_app, !elem_of_cons. cbn.
    intros [->|[->|Hx]]; [left; set_solver..|right]. rewrite <-!list_fmap_compose. exact Hx.
Qed.

Lemma u64_idem z : u64 (u64 z) = u64 z.
Proof. apply u64_small, u64_range. Qed.

Lemma u64_sub a b c : u64 (u64 (a - b) - c) = u64 (a - b - c).
Proof. unfold u64. by rewrite Zminus_mod_idemp_l. Qed.

Lemma removeBlocks_spec chain n m l b count :
  n ≤ m → m ≤ length chain → (Z.of_nat (length chain) < 2 ^ 63)%Z → removing chain m l → is_u64 count →
  ∃ l' dels, removeBlocks n l b count (Z.of_nat m) = (l', Some (b ++ dels, u64 (count - chain_sum (drop (m - n) (take m chain))))) ∧
    removing chain (m - n) l' ∧ blockchainStore l' = blockchainStore l ∧
    (∀ x, x ∈ dels.*1 → ∃ i e, chain !! i = Some e ∧ m - n ≤ i ∧ x ∈ imeta_key (Z.of_nat i + 1) :: index_keys (Z.of_nat i + 1) e) ∧
    deletes dels ∧ (∀ i e x, chain !! i = Some e → m - n ≤ i < m → x ∈ removed_keys (Z.of_nat i + 1) e → x ∈ dels.*1).
Proof.
  revert m l b count. induction n as [|n IH]; intros m l b count Hn Hm Hsm Hrm Hc; cbn [removeBlocks].
  - exists l, []. rewrite Nat.sub_0_r, drop_ge by (rewrite length_take; lia). cbn [chain_sum foldr].
    rewrite Z.sub_0_r, u64_small, app_nil_r by done. split_and!; [done|done|done|cbn; set_solver|intros x v ?%elem_of_nil; done|intros; lia].
  - destruct m as [|k]; [lia|]. destruct (lookup_lt_is_Some_2 chain k) as [e He]; [lia|].
    replace (Z.of_nat (S k)) with (Z.of_nat k + 1)%Z by lia.
    destruct (removeChainDataOnBlock_spec chain k l b e Hrm He) as (l1 & d1 & E1 & Hrm1 & Hst1 & _ & Hd1 & Hn1 & Hg1); [lia|]. rewrite E1.
    rewrite (u64_small (Z.of_nat k + 1 - 1)) by (unfold is_u64; lia). rewrite Z.add_simpl_r.
    destruct (IH k l1 (b ++ d1) (u64 (count - getInterchainTxCount (en_meta e)))) as (l2 & d2 & E2 & Hrm2 & Hst2 & Hd2 & Hn2 & Hg2);
      [lia|lia|done|done|apply u64_range|].
    exists l2, (d1 ++ d2). split_and!; [|by replace (S k - S n) with (k - n) by lia|congruence|..].
    + assert (chain_sum (drop (S k - S n) (take (S k) chain)) =
              getInterchainTxCount (en_meta e) + chain_sum (drop (k - n) (take k chain)))%Z as ->.
      { replace (S k - S n) with (k - n) by lia. rewrite (take_S_r _ _ _ He), drop_app_le by (rewrite length_take; lia).
        rewrite chain_sum_app. cbn. lia. }
      by rewrite E2, (assoc_L (++)), u64_sub, Z.sub_add_distr.
    + intros x. rewrite fmap_app, elem_of_app. intros [Hx|Hx].
      * exists k, e. split_and!; [done|lia|by apply Hd1].
      * destruct (Hd2 x Hx) as (i & e' & Hi & Hle & Hin). exists i, e'. split_and!; [done|lia|done].
    + intros x v [Hx|Hx]%elem_of_app; [by eapply Hn1|by eapply Hn2].
    + intros i e' x Hi Hle Hx. rewrite fmap_app, elem_of_app. destruct (decide (i = k)) as [->|Hne].
      * left. apply Hg1. congruence.
      * right. apply (Hg2 i e'); [done|lia|done].
Qed.

Lemma NoDup_bind_disjoint {A B} (f : A → list B) (xs : list A) i j a b x :
  NoDup (xs ≫= f) → xs !! i = Some a → xs !! j = Some b → i < j → x ∈ f a → x ∉ f b.
Proof.
  revert i j. induction xs as [|y xs IH]; intros i j; [done|]. cbn. intros (Hn1 & Hd & Hn2)%NoDup_app Hi Hj Hlt Ha Hb.
  destruct j as [|j]; [lia|]. destruct i as [|i].
  - injection Hi as ->. apply (Hd x Ha). apply list_elem_of_bind. exists b. split; [done|by eapply list_elem_of_lookup_2].
  - by eapply (IH i j Hn2 Hi Hj ltac:(lia) Ha).
Qed.

(** The keys of a block that stays are not those of a block that goes. *)
Lemma represents_keys chain l i e j e' k :
  represents chain l → chain !! i = Some e → chain !! j = Some e' → i < j →
  k ∈ index_keys (Z.of_nat i + 1) e → k ∉ imeta_key (Z.of_nat j + 1) :: index_keys (Z.of_nat j + 1) e'.
Proof.
  intros R Hi Hj Hlt. apply index_keys_disjoint; [lia| |].
  - intros Heq. assert (i = j); [|lia]. eapply (NoDup_lookup _ _ _ (en_hash e)); [apply R| |]; rewrite list_lookup_fmap.
    + by rewrite Hi.
    + by rewrite Hj, Heq.
  - intros x. by apply (NoDup_bind_disjoint en_hashes chain i j); [apply R|..].
Qed.

(** The ledger after the removal: [tail] is the last write of the batch, to the meta data. *)
Lemma represents_take chain l k l1 dels meta tail :
  represents chain l → k < length chain → removing chain k l1 → blockchainStore l1 = blockchainStore l →
  (∀ x, x ∈ dels.*1 → ∃ i e, chain !! i = Some e ∧ k ≤ i ∧ x ∈ imeta_key (Z.of_nat i + 1) :: index_keys (Z.of_nat i + 1) e) →
  is_meta (take k chain) meta → (∃ m, match tail with Some d => unmarshal d | None => Some (MkChainMeta 0 (Some zeroHash) 0) end = Some m ∧
    is_meta (take k chain) m) →
  represents (take k chain) (MkChainLedger (st_Commit (blockchainStore l1) (dels ++ [(chainMetaKey, tail)])) (bf l1) meta).
Proof.
  intros R Hk [Hbl Hf Hi] Hst Hd Hm (m & Em & Hm').
  assert (length (take k chain) = k) as Hlen by (rewrite length_take; lia).
  split; cbn [chainMeta blockchainStore bf].
  - done.
  - exists m. split; [|done]. unfold loadChainMeta. by rewrite st_Get_snoc, decide_True by done.
  - by rewrite Hbl, Hlen.
  - intros i e [He Hlt]%lookup_take_Some. by apply Hf.
  - intros i e [He Hlt]%lookup_take_Some. apply stored_index_commit; [by apply Hi|].
    intros x Hx. rewrite fmap_app, elem_of_app. intros [Hin|Hin].
    + destruct (Hd x Hin) as (j & e' & Hj & Hle & Hin'). by apply (represents_keys chain l i e j e' x R He Hj ltac:(lia) Hx).
    + apply list_elem_of_singleton in Hin as ->. apply (meta_not_index (Z.of_nat i + 1) e). by right.
  - intros i e [He Hlt]%lookup_take_Some. by apply (rp_number _ _ R).
  - rewrite fmap_take. eapply sublist_NoDup; [apply R|apply sublist_take].
  - pose proof (rp_txs _ _ R) as Hn. rewrite <-(take_drop k chain), bind_app in Hn. by apply NoDup_app in Hn as (? & _ & _).
  - pose proof (rp_small _ _ R). rewrite Hlen. lia.
Qed.

Lemma rollback_represents chain l k :
  represents chain l → k ≤ length chain →
  ∃ l', RollbackBlockChain l (Z.of_nat k) = (l', None) ∧ represents (take k chain) l' ∧
    ∀ i e, chain !! i = Some e → k ≤ i → forgotten l' (Z.of_nat i + 1) e.
Proof.
  intros R Hk. destruct (rp_meta _ _ R) as (Hht & Hcnt & _). unfold RollbackBlockChain, GetChainMeta. rewrite Hht, Hcnt.
  rewrite decide_False by lia. case_decide as Heq.
  { exists l. split; [done|]. assert (k = length chain) as -> by lia. rewrite firstn_all. split; [done|].
    intros i e He%lookup_lt_Some. lia. }
  assert (k < length chain) as Hlt by lia.
  destruct (removeBlocks_spec chain (length chain - k) (length chain) l [] (chain_count chain)) as (l1 & dels & E & Hrm & Hst & Hd & Hn & Hg);
    [lia|lia|apply R|by split; [apply R|intros; by apply (rp_file _ _ R)|apply R]|apply u64_range|].
  replace (length chain - (length chain - k)) with k in * by lia. rewrite firstn_all in E.
  assert (∀ meta tail i e, chain !! i = Some e → k ≤ i →
    forgotten (MkChainLedger (st_Commit (blockchainStore l1) (dels ++ [(chainMetaKey, tail)])) (bf l1) meta) (Z.of_nat i + 1) e) as Hfg.
  { intros meta tail i e He Hi. pose proof (lookup_lt_Some _ _ _ He). apply forgotten_deleted; [rewrite (rm_blocks _ _ _ Hrm); lia|done|].
    intros x Hx. by apply (Hg i e). }
  replace (Z.to_nat (Z.of_nat (length chain) - Z.of_nat k)) with (length chain - k) by lia. rewrite E. cbn [app].
  case_decide as Hz.
  - eexists. split; [reflexivity|]. split; [|apply Hfg]. apply (represents_take chain l k l1 dels _ None R Hlt Hrm Hst Hd).
    + assert (k = 0) as -> by lia. by split_and!.
    + assert (k = 0) as -> by lia. eexists. split; [reflexivity|]. by split_and!.
  - destruct k as [|k]; [lia|]. destruct (lookup_lt_is_Some_2 chain k) as [e He]; [lia|].
    replace (Z.of_nat (S k)) with (Z.of_nat k + 1)%Z by lia.
    rewrite (removing_GetBlock _ _ _ _ _ Hrm He) by lia. cbn [mbind option_bind with_b_Transactions b_Header b_BlockHash].
    set (meta := MkChainMeta _ _ _). unfold persistChainMeta. destruct (codec_ok meta) as (d & E1 & E2). rewrite E1. cbn [mbind option_bind].
    assert (is_meta (take (S k) chain) meta) as Hm.
    { rewrite (take_S_r _ _ _ He). split_and!.
      - cbn. change (bh_Number (b_Header (en_block e))) with (en_number e). rewrite (rp_number _ _ R _ _ He), length_app, length_take. cbn. lia.
      - cbn. unfold chain_count. rewrite <-(take_drop (S k) chain) at 1. rewrite (take_S_r _ _ _ He), chain_sum_app.
        unfold u64. rewrite Zminus_mod_idemp_l. f_equal. lia.
      - by rewrite last_snoc. }
    eexists. split; [reflexivity|]. split; [|apply Hfg]. apply (represents_take chain l (S k) l1 dels meta (Some d) R Hlt Hrm Hst Hd Hm).
    by exists meta.
Qed.

(** C19: The chain ledger implements a list of blocks: going back to a height that is not above the current one
succeeds and leaves the first blocks of the list; the removed blocks are found neither by height nor by hash any more,
their messages and numbers of transactions are gone, and their transactions, receipts and transaction data are not
found by hash. Two things are not covered: the hash of a removed block by its height, which stays, and the block hash
in the meta data of an empty chain ([rollback_keeps_hashes]). *)
Theorem RollbackBlockChain_truncate chain l k :
  represents chain l → k ≤ length chain →
  ∃ l', RollbackBlockChain l (Z.of_nat k) = (l', None) ∧ represents (take k chain) l' ∧
    ∀ i e, chain !! i = Some e → k ≤ i → forgotten l' (Z.of_nat i + 1) e.
Proof. apply rollback_represents. Qed.

(** A ledger that is opened again represents the same list. *)
Theorem NewChainLedgerImpl_reopen chain l :
  represents chain l → ∃ l', NewChainLedgerImpl (blockchainStore l) (bf l) = Some l' ∧ represents chain l'.
Proof.
  intros R. destruct (rp_load _ _ R) as (m & E & Hm). unfold NewChainLedgerImpl. rewrite E. cbn [mbind option_bind].
  eexists. split; [reflexivity|]. destruct R. by split.
Qed.
End spec.
