(* ===== verification/ChainSample.v ===== *)
(** * Concrete instances for the chain ledger

A file of blocks as a list, and encodings for blocks, receipts and meta data. *)
From Stdlib Require Import Ascii.
From S2P Require Import Prelude Storage Account StateLedger Contract TransactionManager Interchain CrossChainSample.
From S2P Require Import Executor Transactions ExecutorSample Blocks TxExecutor ChainLedger ChainLedgerProps.

(** ** Encodings *)

Global Instance Event_eq_dec : EqDecision Event.
Proof. solve_decision. Defined.
Global Program Instance Event_countable : Countable Event :=
  inj_countable' (λ e, (ev_type e, ev_data e, ev_TxHash e)) (λ '(a, b, c), MkEvent a b c) _.
Next Obligation. by intros []. Qed.

Global Instance EvmLog_eq_dec : EqDecision EvmLog.
Proof. solve_decision. Defined.
Global Program Instance EvmLog_countable : Countable EvmLog :=
  inj_countable' (λ e, (el_address e, el_topics e, el_data e, el_txHash e, el_txIndex e, el_blockHash e, el_index e))
    (λ '(a, b, c, d, e, f, g), MkEvmLog a b c d e f g) _.
Next Obligation. by intros []. Qed.

Global Instance Receipt_eq_dec : EqDecision Receipt.
Proof. solve_decision. Defined.
Global Program Instance Receipt_countable : Countable Receipt :=
  inj_countable' (λ r, (rc_TxHash r, rc_Success r, rc_Ret r, rc_GasUsed r, rc_BeginFailure r, rc_EvmLogs r, rc_Events r, rc_ContractAddress r))
    (λ '(a, b, c, d, e, f, g, h), MkReceipt a b c d e f g h) _.
Next Obligation. by intros []. Qed.

Global Instance BxhTransaction_eq_dec : EqDecision BxhTransaction.
Proof. solve_decision. Defined.
Global Program Instance BxhTransaction_countable : Countable BxhTransaction :=
  inj_countable' (λ t, (tx_From t, tx_To t, tx_Nonce t, tx_Hash t, tx_TimeStamp t, tx_IBTP t, tx_Payload t, tx_Extra t))
    (λ '(a, b, c, d, e, f, g, h), MkBxhTransaction a b c d e f g h) _.
Next Obligation. by intros []. Qed.

Global Instance EthTransaction_eq_dec : EqDecision EthTransaction.
Proof. solve_decision. Defined.
Global Program Instance EthTransaction_countable : Countable EthTransaction :=
  inj_countable' (λ t, (et_From t, et_To t, et_Nonce t, et_Hash t, et_TimeStamp t, et_Data t))
    (λ '(a, b, c, d, e, f), MkEthTransaction a b c d e f) _.
Next Obligation. by intros []. Qed.

Definition tx_parts (t : Transaction) : BxhTransaction + (EthTransaction + string * Z * string) :=
  match t with BxhTx t => inl t | EthTx t => inr (inl t) | UnknownTx a b c => inr (inr (a, b, c)) end.
Definition tx_of_parts (p : BxhTransaction + (EthTransaction + string * Z * string)) : Transaction :=
  match p with inl t => BxhTx t | inr (inl t) => EthTx t | inr (inr (a, b, c)) => UnknownTx a b c end.
Global Instance Transaction_eq_dec : EqDecision Transaction.
Proof. solve_decision. Defined.
Global Program Instance Transaction_countable : Countable Transaction := inj_countable' tx_parts tx_of_parts _.
Next Obligation. by intros []. Qed.

Global Instance BlockHeader_eq_dec : EqDecision BlockHeader.
Proof. solve_decision. Defined.
Global Program Instance BlockHeader_countable : Countable BlockHeader :=
  inj_countable' (λ b, (bh_Number b, bh_Timestamp b, bh_ParentHash b, bh_StateRoot b, bh_TxRoot b, bh_ReceiptRoot b, bh_TimeoutRoot b))
    (λ '(a, b, c, d, e, f, g), MkBlockHeader a b c d e f g) _.
Next Obligation. by intros []. Qed.

Global Instance Block_eq_dec : EqDecision Block.
Proof. solve_decision. Defined.
Global Program Instance Block_countable : Countable Block :=
  inj_countable' (λ b, (b_Header b, b_Transactions b, b_BlockHash b, b_Signature b, b_Extra b))
    (λ '(a, b, c, d, e), MkBlock a b c d e) _.
Next Obligation. by intros []. Qed.

Global Instance ChainMeta_eq_dec : EqDecision ChainMeta.
Proof. solve_decision. Defined.
Global Program Instance ChainMeta_countable : Countable ChainMeta :=
  inj_countable' (λ m, (cm_Height m, cm_BlockHash m, cm_InterchainTxCount m)) (λ '(a, b, c), MkChainMeta a b c) _.
Next Obligation. by intros []. Qed.

Global Instance TransactionMeta_eq_dec : EqDecision TransactionMeta.
Proof. solve_decision. Defined.
Global Program Instance TransactionMeta_countable : Countable TransactionMeta :=
  inj_countable' (λ m, (tm_BlockHeight m, tm_BlockHash m, tm_Index m)) (λ '(a, b, c), MkTransactionMeta a b c) _.
Next Obligation. by intros []. Qed.

Global Instance VerifiedIndex_eq_dec : EqDecision VerifiedIndex.
Proof. solve_decision. Defined.
Global Program Instance VerifiedIndex_countable : Countable VerifiedIndex :=
  inj_countable' (λ v, (vi_Index v, vi_Valid v, vi_IsBatch v)) (λ '(a, b, c), MkVerifiedIndex a b c) _.
Next Obligation. by intros []. Qed.

Global Instance InterchainMeta_eq_dec : EqDecision InterchainMeta.
Proof. solve_decision. Defined.
Global Program Instance InterchainMeta_countable : Countable InterchainMeta :=
  inj_countable' (λ m, (im_Counter m, im_TimeoutCounter m, im_TimeoutL2Roots m, im_MultiTxCounter m))
    (λ '(a, b, c, d), MkInterchainMeta a b c d) _.
Next Obligation. by intros []. Qed.

(** ** Libraries *)

(** The file as the list of its blocks. *)
Definition file_by_list : BlockFileLib.
Proof.
  refine {| blockfile := list FileBlock; bf_blocks f := Z.of_nat (length f);
            bf_Get t k f := if decide (k < 1)%Z then None else fb_table t <$> f !! Z.to_nat (k - 1);
            bf_AppendBlock n _ b f := if decide (Z.of_nat (length f) = n) then Some (f ++ [b]) else None;
            bf_TruncateBlocks n f := Some (take (Z.to_nat n) f) |}.
  - intros t k f [d Hd]. case_decide; [done|]. destruct (f !! Z.to_nat (k - 1)) as [b|] eqn:E; [|done].
    apply lookup_lt_Some in E. lia.
  - intros n _ b f <-. rewrite decide_True by done. eexists. split; [done|]. split; [rewrite length_app; cbn; lia|]. split.
    + intros t. rewrite decide_False by lia. replace (Z.to_nat _) with (length f) by lia.
      rewrite lookup_app_r, Nat.sub_diag by lia. done.
    + intros t k Hk. case_decide; [done|]. rewrite lookup_app_l by lia. done.
  - intros n _ b f Hn. by rewrite decide_False.
  - intros n f Hn. eexists. split; [done|]. split; [rewrite length_take; lia|]. intros t k Hk. case_decide; [done|].
    rewrite lookup_take_lt by lia. done.
Defined.

Definition hex_digit (n : N) : ascii := ascii_of_N (if (n <? 10)%N then 48 + n else 87 + n).
Fixpoint hex (s : string) : string :=
  match s with
  | EmptyString => EmptyString
  | String c s => String (hex_digit (N_of_ascii c / 16)) (String (hex_digit (N_of_ascii c mod 16)) (hex s))
  end.

(** The text of a hash is hexadecimal; bytes that are too long for a hash are cut from the left. *)
Fixpoint last_bytes (n : nat) (s : string) : string :=
  if decide (String.length s ≤ n) then s else match s with EmptyString => s | String _ s => last_bytes n s end.

Definition nibble (c : ascii) : N := let n := N_of_ascii c in if (n <? 58)%N then n - 48 else n - 87.
Fixpoint unhex (s : string) : string :=
  match s with
  | String a (String b s) => String (ascii_of_N (16 * nibble a + nibble b)) (unhex s)
  | _ => EmptyString
  end.

Lemma unhex_hex s : unhex (hex s) = s.
Proof.
  induction s as [|c s IH]; [done|]. cbn [hex unhex]. rewrite IH. f_equal. clear. by destruct c as [[] [] [] [] [] [] [] []].
Qed.

Definition chain_lib : ChainLib.
Proof.
  refine {| block_codec := codec_by_encode Block; txs_codec := codec_by_encode (list Transaction);
            receipts_codec := codec_by_encode (list Receipt); chainmeta_codec := codec_by_encode ChainMeta;
            txmeta_codec := codec_by_encode TransactionMeta; interchainmeta_codec := codec_by_encode InterchainMeta;
            hashes_codec := codec_by_encode (list string);
            hash_String s := "0x" +:+ hex s; NewHash := last_bytes 32; PrivKey_Sign s := Some ("signed " +:+ s) |}.
  intros h1 h2 E. apply string_app_inj in E. by rewrite <-(unhex_hex h1), E, unhex_hex.
Defined.

Module ChainSample.
Local Existing Instance storage_by_map.
Local Existing Instance file_by_list.
Local Existing Instance chain_lib.
Local Existing Instance range_by_encoding.

Definition empty : ChainLedgerImpl := MkChainLedger (∅ : gmap string string) ([] : list FileBlock) (MkChainMeta 0 (Some zeroHash) 0).

Lemma empty_represents : represents [] empty.
Proof. split; try done; [by eexists|apply NoDup_nil_2|apply NoDup_nil_2]. Qed.

Definition block1 : Block :=
  MkBlock (MkBlockHeader 1 0 "" "" "" "" "") [UnknownTx "alice" 0 "t1"; UnknownTx "bob" 0 "t2"] "hash of the first block 32 bytes" None None.
Definition receipts1 : list Receipt := [MkReceipt "t1" true None 0 false [] [] None; MkReceipt "t2" false None 0 false [] [] None].
Definition meta1 : InterchainMeta := MkInterchainMeta {["b" := [MkVerifiedIndex 1 true false]]} ∅ [] ∅.

Definition entry1 : entry := MkEntry (with_b_Signature block1 (Some "signed hash of the first block 32 bytes")) receipts1 meta1.

Definition after (r : option (option ChainLedgerImpl)) : ChainLedgerImpl := match r with Some (Some l) => l | _ => empty end.
Definition l1 : ChainLedgerImpl := after (PersistExecutionResult empty block1 receipts1 meta1).

Lemma follows1 : follows [] entry1.
Proof.
  split; [reflexivity|set_solver|apply (bool_decide_unpack _); vm_compute; exact I|set_solver|reflexivity].
Qed.

Lemma PersistExecutionResult_append_witness : represents [entry1] l1.
Proof.
  destruct (PersistExecutionResult_append [] empty block1 entry1 empty_represents eq_refl follows1) as (l' & E & R).
  unfold l1. change receipts1 with (en_receipts entry1). change meta1 with (en_meta entry1). rewrite E. exact R.
Defined.

Lemma l1_represents : represents [entry1] l1.
Proof.
  destruct (persist_represents [] empty block1 entry1 empty_represents eq_refl follows1) as (l' & E & R).
  unfold l1. change receipts1 with (en_receipts entry1). change meta1 with (en_meta entry1). by rewrite E.
Qed.

Lemma chain_queries_witness :
  GetBlock l1 1 true = Some (en_block entry1) ∧ GetTransaction l1 "t2" = Some (Some (UnknownTx "bob" 0 "t2")) ∧
  GetReceipt l1 "t2" = Some (Some (MkReceipt "t2" false None 0 false [] [] None)).
Proof.
  destruct (chain_queries [entry1] l1 0 entry1 l1_represents eq_refl) as (Hb & _ & _ & _ & _ & Ht & Hr).
  split; [exact Hb|]. split; [exact (Ht 1 (UnknownTx "bob" 0 "t2") eq_refl)|].
  exact (Hr 1 (UnknownTx "bob" 0 "t2") _ eq_refl eq_refl).
Defined.

Lemma RollbackBlockChain_truncate_witness : ∃ l', RollbackBlockChain l1 0 = (l', None) ∧ represents [] l' ∧ forgotten l' 1 entry1.
Proof.
  destruct (RollbackBlockChain_truncate [entry1] l1 0 l1_represents) as (l' & E & Hr & Hf); [cbn; lia|].
  exists l'. split; [exact E|]. split; [exact Hr|exact (Hf 0 entry1 eq_refl (le_n 0))].
Defined.

(** The hash of a block by its height is not the hash of the block: the store has the text of the hash, of which the
last 32 characters are taken for the bytes of a hash. *)
Theorem GetBlockHash_wrong : GetBlockHash l1 1 ≠ b_BlockHash block1.
Proof. intros E. vm_compute in E. discriminate E. Qed.

(** Going back leaves the hashes of the removed blocks in the index by height; and the meta data of an empty chain
has no hash at all, while that of a new ledger has the zero hash. *)
Theorem rollback_keeps_hashes :
  let l := (RollbackBlockChain l1 0).1 in
  GetBlock l 1 true = None ∧ GetBlockHash l 1 = GetBlockHash l1 1 ∧ GetBlockHash l1 1 ≠ zeroHash ∧
  cm_BlockHash (chainMeta l) = None ∧ option_map (λ l', cm_BlockHash (chainMeta l')) (NewChainLedgerImpl (blockchainStore l) (bf l)) = Some (Some zeroHash).
Proof.
  intros l. split; [vm_compute; reflexivity|]. split; [vm_compute; reflexivity|].
  split; [intros E; vm_compute in E; discriminate E|]. split; vm_compute; reflexivity.
Qed.
End ChainSample.
