(* ===== verification/Role.v ===== *)
(** * Roles and permissions: [role.go], [common.go], and strategies of [internal/repo]

Administrators are roles with a status that proposals move through a state machine. This file has
their data and queries, the check of permissions that all governance contracts share
([common.go]), and the evaluation of voting strategies ([internal/repo/repo.go]). The methods of the
role contract that open proposals and carry out their results are in [RoleManager.v]. *)
From Stdlib Require Import Ascii.
From S2P Require Import Prelude Storage Account StateLedger Contract TransactionManager.

(** ** Packages *)

(** [bitxhub-core/governance]: events and states of governed objects. The results of proposals are
used as events. *)
Class GovernanceLib := {
  EventRegister : string; EventUpdate : string; EventFreeze : string; EventActivate : string;
  EventBind : string; EventUnbind : string; EventLogout : string; EventPause : string;
  EventUnpause : string; EventCLear : string; EventApprove : string; EventReject : string;
  GovernanceUnavailable : string; GovernanceRegisting : string; GovernanceAvailable : string;
  GovernanceUpdating : string; GovernanceFreezing : string; GovernanceActivating : string;
  GovernanceFrozen : string; GovernanceLogouting : string; GovernanceForbidden : string;
  GovernanceBinding : string;
  events_NoDup :
    NoDup [EventRegister; EventUpdate; EventFreeze; EventActivate; EventBind; EventUnbind; EventLogout;
           EventPause; EventUnpause; EventCLear; EventApprove; EventReject];
  statuses_NoDup :
    NoDup [GovernanceUnavailable; GovernanceRegisting; GovernanceAvailable; GovernanceUpdating;
           GovernanceFreezing; GovernanceActivating; GovernanceFrozen; GovernanceLogouting;
           GovernanceForbidden; GovernanceBinding];
  statuses_ascii :
    Forall is_ascii [GovernanceUnavailable; GovernanceRegisting; GovernanceAvailable; GovernanceUpdating;
           GovernanceFreezing; GovernanceActivating; GovernanceFrozen; GovernanceLogouting;
           GovernanceForbidden; GovernanceBinding];
  EventApprove_value : EventApprove = "approve";
  EventReject_value : EventReject = "reject"
}.

Lemma available_ascii `{GovernanceLib} : is_ascii GovernanceAvailable.
Proof. pose proof statuses_ascii as Ha. rewrite Forall_forall in Ha. apply Ha. rewrite !elem_of_cons. tauto. Qed.

(** [govaluate]: evaluating an expression in the variables [a], [r] and [t]; [None] is an error of the
expression or of its evaluation, the inner [None] a value that is not a boolean. *)
Class EvalLib := { Evaluate : string → Z → Z → Z → option (option bool) }.

(** Addresses of the contracts that take part in governance. *)
Class GovAddrLib `{ConstantLib} := {
  GovernanceContractAddr : string;
  RoleContractAddr : string;
  RuleManagerContractAddr : string;
  NodeManagerContractAddr : string;
  DappMgrContractAddr : string;
  ProposalStrategyMgrContractAddr : string;
  ServiceRegistryContractAddr : string;
  gov_addrs_NoDup :
    NoDup [AppchainMgrContractAddr; ServiceMgrContractAddr; GovernanceContractAddr; RoleContractAddr;
           RuleManagerContractAddr; NodeManagerContractAddr; DappMgrContractAddr;
           ProposalStrategyMgrContractAddr; ServiceRegistryContractAddr];
  gov_addrs_interchain : InterchainContractAddr ≠ GovernanceContractAddr;
  (** the addresses are hexadecimal text *)
  interchain_ascii : is_ascii InterchainContractAddr;
  gov_addrs_ascii :
    Forall is_ascii [AppchainMgrContractAddr; ServiceMgrContractAddr; GovernanceContractAddr; RoleContractAddr;
           RuleManagerContractAddr; NodeManagerContractAddr; DappMgrContractAddr;
           ProposalStrategyMgrContractAddr; ServiceRegistryContractAddr]
}.

(** [iancoleman/orderedmap] as the contracts use it, as a set of keys in the order of their insertion. *)
Record OrderedMap := MkOrderedMap { om_Keys : list string }.

Definition om_New : OrderedMap := MkOrderedMap [].
Definition om_Set (m : OrderedMap) (k : string) : OrderedMap :=
  MkOrderedMap (if decide (k ∈ om_Keys m) then om_Keys m else om_Keys m ++ [k]).
Definition om_Delete (m : OrderedMap) (k : string) : OrderedMap := MkOrderedMap (filter (.≠ k) (om_Keys m)).

(** ** Roles *)

Definition GovernanceAdmin : string := "governanceAdmin".
Definition SuperGovernanceAdmin : string := "superGovernanceAdmin".
Definition AuditAdmin : string := "auditAdmin".
Definition AppchainAdmin : string := "appchainAdmin".
Definition NoRole : string := "none".

Definition PermissionSelf : string := "PermissionSelf".
Definition PermissionAdmin : string := "PermissionAdmin".
Definition PermissionSpecific : string := "PermissionSpecific".

Definition SuperAdminWeight : Z := 2.
Definition NormalAdminWeight : Z := 1.

(** The field [FSM] is left out: [setFSM] sets it before each use. *)
Record Role := MkRole {
  rl_ID : string;
  rl_RoleType : string;
  rl_Weight : Z;
  rl_NodeAccount : string;
  rl_AppchainID : string;
  rl_Status : string }.

Definition with_rl_Status (r : Role) v :=
  MkRole (rl_ID r) (rl_RoleType r) (rl_Weight r) (rl_NodeAccount r) (rl_AppchainID r) v.
Definition with_rl_NodeAccount (r : Role) v :=
  MkRole (rl_ID r) (rl_RoleType r) (rl_Weight r) v (rl_AppchainID r) (rl_Status r).

Definition Role_text (r : Role) : list string :=
  [rl_ID r; rl_RoleType r; rl_NodeAccount r; rl_AppchainID r; rl_Status r].

Definition RoleKey (id : string) : string := "role-" +:+ id.
Definition RoleTypeKey (typ : string) : string := "type-" +:+ typ.
Definition RoleAppchainAdminKey (appchainID : string) : string := "appchain-" +:+ appchainID.
Definition OccupyAccountKey (addr : string) : string := "occupy-account-" +:+ addr.

(** JSON of the data that the governance contracts share. *)
Class GovJsonLib := {
  ids_codec :: JsonCodec OrderedMap om_Keys;
  addrs_codec :: JsonCodec (list string) (λ l, l);
  role_codec :: JsonCodec Role Role_text;
  roles_codec :: JsonCodec (list Role) (λ l, l ≫= Role_text)
}.

Definition TRUE : string := "true".
Definition FormatBool (b : bool) : string := if b then TRUE else "false".

Section role_states.
Context `{GovernanceLib}.

Definition roleStateMap (event : string) : list string :=
  if decide (event = EventRegister) then [GovernanceUnavailable]
  else if decide (event = EventFreeze) then [GovernanceAvailable]
  else if decide (event = EventActivate) then [GovernanceFrozen]
  else if decide (event = EventLogout)
  then [GovernanceAvailable; GovernanceFreezing; GovernanceActivating; GovernanceFrozen; GovernanceBinding]
  else if decide (event = EventBind) then [GovernanceFrozen]
  else if decide (event = EventPause) then [GovernanceAvailable; GovernanceRegisting; GovernanceBinding]
  else if decide (event = EventUnpause) then [GovernanceRegisting; GovernanceBinding]
  else [].

Definition roleAvailableMap : list string := [GovernanceAvailable; GovernanceFreezing].

Definition IsAvailable (role : Role) : bool := bool_decide (rl_Status role ∈ roleAvailableMap).

(** The transitions of [setFSM]. *)
Definition role_events (lastStatus : string) : list EventDesc :=
  [ MkEventDesc EventRegister [GovernanceUnavailable] GovernanceRegisting;
    MkEventDesc EventApprove [GovernanceRegisting] GovernanceAvailable;
    MkEventDesc EventReject [GovernanceRegisting] lastStatus;
    MkEventDesc EventFreeze [GovernanceAvailable; GovernanceActivating; GovernanceLogouting] GovernanceFreezing;
    MkEventDesc EventApprove [GovernanceFreezing] GovernanceFrozen;
    MkEventDesc EventReject [GovernanceFreezing] lastStatus;
    MkEventDesc EventActivate [GovernanceFrozen; GovernanceFreezing; GovernanceLogouting] GovernanceActivating;
    MkEventDesc EventApprove [GovernanceActivating] GovernanceAvailable;
    MkEventDesc EventReject [GovernanceActivating] lastStatus;
    MkEventDesc EventLogout
      [GovernanceAvailable; GovernanceFreezing; GovernanceFrozen; GovernanceActivating; GovernanceBinding] GovernanceLogouting;
    MkEventDesc EventApprove [GovernanceLogouting] GovernanceForbidden;
    MkEventDesc EventReject [GovernanceLogouting] lastStatus;
    MkEventDesc EventBind [GovernanceFrozen] GovernanceBinding;
    MkEventDesc EventApprove [GovernanceBinding] GovernanceAvailable;
    MkEventDesc EventReject [GovernanceBinding] GovernanceFrozen;
    MkEventDesc EventPause [GovernanceAvailable; GovernanceBinding] GovernanceFrozen;
    MkEventDesc EventPause [GovernanceRegisting] GovernanceUnavailable ].

(** [setFSM] followed by the event: the role with its new status. *)
Definition role_Event `{FsmLib} (role : Role) (lastStatus trigger : string) : option Role :=
  with_rl_Status role <$> fsm_Event (role_events lastStatus) (rl_Status role) trigger.
End role_states.

(** ** Queries of the role contract *)

Section role_queries.
Context `{GovernanceLib, GovJsonLib}.
Context (ctx : Context).

Definition getRole (addr : string) : prog string :=
  role ← GetObject (A := Role) ctx (RoleKey addr);
  mret match role with
       | None => NoRole
       | Some role =>
           if decide (rl_RoleType role = GovernanceAdmin)
           then if decide (rl_Weight role = SuperAdminWeight) then SuperGovernanceAdmin else GovernanceAdmin
           else if decide (rl_RoleType role = AuditAdmin) then AuditAdmin
           else if decide (rl_RoleType role = AppchainAdmin) then AppchainAdmin
           else NoRole
       end.

Definition GetRole : prog Response := res ← getRole (ctx_Caller ctx); mret (Success (Some res)).
Definition GetRoleByAddr (addr : string) : prog Response := res ← getRole addr; mret (Success (Some res)).

Definition GetRoleInfoById (roleId : string) : prog Response :=
  role ← GetObject (A := Role) ctx (RoleKey roleId);
  mret match role with
       | None => Error "RoleNonexistentRoleCode" [roleId]
       | Some role =>
           match marshal role with
           | None => Error "RoleInternalErrCode" []
           | Some data => Success (Some data)
           end
       end.

(** The roles with the ids, in their order; [None] is the error for an id without a role. *)
Fixpoint rolesOf (ids : list string) : prog (option (list Role)) :=
  match ids with
  | [] => mret (Some [])
  | id :: ids =>
      role ← GetObject (A := Role) ctx (RoleKey id);
      match role with
      | None => mret None
      | Some role => roles ← rolesOf ids; mret (cons role <$> roles)
      end
  end.

Definition getRolesByType (roleType : string) : prog (result (list Role)) :=
  if decide (roleType ∉ [GovernanceAdmin; AuditAdmin; AppchainAdmin])
  then mret (inr (MkBxhError "RoleIllegalRoleTypeCode" [roleType]))
  else
    ids ← GetObject (A := OrderedMap) ctx (RoleTypeKey roleType);
    match ids with
    | None => mret (inl [])
    | Some ids =>
        roles ← rolesOf (om_Keys ids);
        mret match roles with
             | None => inr (MkBxhError "RoleInternalErrCode" [roleType])
             | Some roles => inl roles
             end
    end.

Definition GetRolesByType (roleType : string) : prog Response :=
  roles ← getRolesByType roleType;
  mret match roles with
       | inr berr => Error (be_Code berr) (be_Args berr)
       | inl roles =>
           match marshal roles with
           | None => Error "RoleInternalErrCode" []
           | Some data => Success (Some data)
           end
       end.

Definition GetAppchainAdmin (appchainID : string) : prog Response :=
  ids ← GetObject (A := OrderedMap) ctx (RoleAppchainAdminKey appchainID);
  match ids with
  | None => mret (Error "RoleNoAppchainAdminCode" [appchainID])
  | Some ids =>
      roles ← rolesOf (om_Keys ids);
      mret match roles with
           | None => Error "RoleInternalErrCode" []
           | Some roles =>
               match marshal roles with
               | None => Error "RoleInternalErrCode" []
               | Some data => Success (Some data)
               end
           end
  end.

Definition isAdmin (roleId roleType : string) : prog bool :=
  role ← GetObject (A := Role) ctx (RoleKey roleId);
  mret match role with
       | None => false
       | Some role =>
           bool_decide (roleType = rl_RoleType role) ||
           (bool_decide (roleType = SuperGovernanceAdmin) && bool_decide (rl_RoleType role = GovernanceAdmin) &&
            bool_decide (rl_Weight role = SuperAdminWeight))
       end.

Definition IsAnyAdmin (roleId roleType : string) : prog Response :=
  b ← isAdmin roleId roleType; mret (Success (Some (FormatBool b))).

Definition isAvailableAdmin (roleId roleType : string) : prog bool :=
  role ← GetObject (A := Role) ctx (RoleKey roleId);
  mret match role with
       | None => false
       | Some role =>
           (bool_decide (roleType = rl_RoleType role) && IsAvailable role) ||
           (bool_decide (roleType = SuperGovernanceAdmin) && bool_decide (rl_RoleType role = GovernanceAdmin) &&
            bool_decide (rl_Weight role = SuperAdminWeight) && IsAvailable role)
       end.

Definition IsAnyAvailableAdmin (roleId roleType : string) : prog Response :=
  b ← isAvailableAdmin roleId roleType; mret (Success (Some (FormatBool b))).

Definition IsAppchainAdmin (roleId appchainId : string) : prog Response :=
  role ← GetObject (A := Role) ctx (RoleKey roleId);
  mret match role with
       | None => Success (Some "0")
       | Some role =>
           if decide (AppchainAdmin = rl_RoleType role ∧ appchainId = rl_AppchainID role)
           then Success (Some "1") else Success (Some "0")
       end.

Definition GetRoleWeight (roleId : string) : prog Response :=
  role ← GetObject (A := Role) ctx (RoleKey roleId);
  mret match role with
       | None => Error "RoleNonexistentRoleCode" [roleId]
       | Some role =>
           if decide (rl_RoleType role ≠ GovernanceAdmin) then Error "RoleNotGovernanceAdminCode" [roleId]
           else Success (Some (fmt_d (rl_Weight role)))
       end.
End role_queries.

(** ** Permissions *)

Section permissions.
Context `{GovernanceLib, GovJsonLib, ConstantLib, !GovAddrLib}.
Context (ctx : Context).

(** Every error is [false]: the callers only put its text into their answer. *)
Fixpoint checkPermission (permissions : list string) (regulatedAddr regulatorAddr : string)
    (specificAddrsData : option string) : prog bool :=
  match permissions with
  | [] => mret false
  | permission :: permissions =>
      if decide (permission = PermissionSelf)
      then if decide (regulatedAddr = regulatorAddr) then mret true
           else checkPermission permissions regulatedAddr regulatorAddr specificAddrsData
      else if decide (permission = PermissionAdmin)
      then
        res ← CrossInvoke ctx RoleContractAddr (λ ctx, IsAnyAvailableAdmin ctx regulatorAddr GovernanceAdmin);
        match res with
        | Error _ _ => mret false
        | Success data =>
            if decide (data = Some TRUE) then mret true
            else checkPermission permissions regulatedAddr regulatorAddr specificAddrsData
        end
      else if decide (permission = PermissionSpecific)
      then
        match specificAddrsData ≫= unmarshal with
        | None => mret false
        | Some specificAddrs =>
            if decide (regulatorAddr ∈ (specificAddrs : list string)) then mret true
            else checkPermission permissions regulatedAddr regulatorAddr specificAddrsData
        end
      else mret false
  end.

(** The check of the methods that only some contracts may call: the addresses are marshalled and
[checkPermission] compares the current caller with them. [Some] is the answer that refuses. *)
Definition checkSpecific (internalCode permissionCode : string) (specificAddrs : list string) : prog (option Response) :=
  match marshal specificAddrs with
  | None => mret (Some (Error internalCode []))
  | Some addrsData =>
      ok ← checkPermission [PermissionSpecific] EmptyString (ctx_CurrentCaller ctx) (Some addrsData);
      mret (if (ok : bool) then None else Some (Error permissionCode [ctx_CurrentCaller ctx]))
  end.
End permissions.

(** ** Strategies *)

Definition AppchainMgr : string := "appchain_mgr".
Definition RuleMgr : string := "rule_mgr".
Definition NodeMgr : string := "node_mgr".
Definition ServiceMgr : string := "service_mgr".
Definition RoleMgr : string := "role_mgr".
Definition ProposalStrategyMgr : string := "proposal_strategy_mgr".
Definition DappMgr : string := "dapp_mgr".
Definition BnsMgr : string := "bns_mgr".
Definition AllMgr : string := "all_mgr".

Definition SimpleMajority : string := "SimpleMajority".
Definition ZeroPermissionStrategy : string := "ZeroPermission".
Definition DefaultSimpleMajorityExpression : string := "a > 0.5 * t".

Definition CheckManageModule (moduleTyp : string) : bool :=
  bool_decide (moduleTyp ∈ [AppchainMgr; RoleMgr; RuleMgr; DappMgr; ProposalStrategyMgr; NodeMgr; ServiceMgr; BnsMgr]).

Section strategies.
Context `{EvalLib}.

(** The pair says whether the vote is over and whether it has passed. [mret None] is an error; the
second value of the expression is used as a boolean without a check. *)
Definition MakeStrategyDecision (expressionStr : string) (approve reject total availableNum : Z) :
    prog (option (bool * bool)) :=
  match Evaluate expressionStr approve reject total with
  | None | Some None => mret None
  | Some (Some true) => mret (Some (true, true))
  | Some (Some false) =>
      match Evaluate expressionStr (u64 (availableNum - reject)) reject total with
      | None => mret None
      | Some None => Panic
      | Some (Some true) => mret (Some (false, false))
      | Some (Some false) => mret (Some (true, false))
      end
  end.

(** The loop of [getCurThresholdApproveNum]; [None] is its error. The counter does not wrap unless
[total] is the largest number. *)
Fixpoint threshold_loop (fuel : nat) (strategyExp : string) (cur reject total availableNum : Z) : prog (option Z) :=
  match fuel with
  | O => Panic
  | S fuel =>
      if decide (total < cur)%Z then mret None
      else
        r ← MakeStrategyDecision strategyExp cur reject total availableNum;
        match r with
        | None => mret None
        | Some (_, true) => mret (Some cur)
        | Some (_, false) => threshold_loop fuel strategyExp (cur +u 1) reject total availableNum
        end
  end.

Definition getCurThresholdApproveNum (strategyExp : string) (approve reject total availableNum : Z) : prog (option Z) :=
  threshold_loop (S (Z.to_nat (total + 1 - approve))) strategyExp approve reject total availableNum.

(** [CheckStrategyExpression]: some number of approvals passes; a value that is not a boolean panics. *)
Fixpoint expression_loop (expressionStr : string) (n : nat) (i adminsNum : Z) : prog bool :=
  match n with
  | O => mret false
  | S n =>
      match Evaluate expressionStr i 0 adminsNum with
      | None => mret false
      | Some None => Panic
      | Some (Some true) => mret true
      | Some (Some false) => expression_loop expressionStr n (i + 1) adminsNum
      end
  end.

Definition CheckStrategyExpression (expressionStr : string) (adminsNum : Z) : prog bool :=
  expression_loop expressionStr (Z.to_nat (adminsNum + 1)) 0 adminsNum.

Definition CheckStrategyType (typ extra : string) (adminsNum : Z) : prog bool :=
  if decide (typ ≠ SimpleMajority ∧ typ ≠ ZeroPermissionStrategy) then mret false
  else if decide (typ ≠ ZeroPermissionStrategy) then CheckStrategyExpression extra adminsNum
  else mret true.

Definition CheckStrategyInfo (typ module extra : string) (adminsNum : Z) : prog bool :=
  ok ← CheckStrategyType typ extra adminsNum;
  mret (if (ok : bool) then CheckManageModule module else false).
End strategies.
