(* ===== verification/ProofPool.v ===== *)
(** * The proofs of messages between chains: [src/pkg/proof/proof_pool.go]

A message is accepted with a proof: for a chain of this relay chain the rule of the chain decides, for another
relay chain more than (n - 1)/3 of its n validators, rounded down, have to have signed. The signed bytes are those of
[EncodePackedAndHash] in [src/pkg/utils/utils.go]. *)
From Stdlib Require Import Ascii.
From S2P Require Import Prelude Storage Account StateLedger Contract TransactionManager Interchain Role.

(** ** Bytes *)

(** [binary.BigEndian.PutUint64] *)
Fixpoint be_bytes (n : nat) (i : Z) : string :=
  match n with
  | 0 => EmptyString
  | S n => be_bytes n (Z.shiftr i 8) +:+ String (ascii_of_N (Z.to_N (Z.land i 255))) EmptyString
  end.

Definition uint64ToBytesInBigEndian (i : Z) : string := be_bytes 8 i.

(** ** Data *)

Record bxhValidators := MkBxhValidators { Addresses : list string }.

(** [pb.BxhProof] *)
Record BxhProof := MkBxhProof { bp_TxStatus : TransactionStatus; bp_MultiSign : list string }.

(** Packages: chains and their rules as the registries store them, the encodings, hashes and signatures, and the
engine that runs the rule of a chain. *)
Class ProofLib := {
  ProofChain : Type;
  pc_TrustRoot : ProofChain → option string;
  proofchain_encoding :: Encoding ProofChain;
  ProofRule : Type;
  pr_Address : ProofRule → string;
  pr_Status : ProofRule → string;
  proofrules_encoding :: Encoding (list ProofRule);
  AppchainKey : string → string;
  RuleKey : string → string;
  validators_encoding :: Encoding bxhValidators;
  bxhproof_encoding :: Encoding BxhProof;
  payload_Hash : string → option string;
  type_number : IBTP_Type → Z;
  Sum256 : string → string;
  Keccak256 : string → string;
  Ecrecover : string → string → option string;
  PublicKey : Type;
  UnmarshalPublicKey : string → option PublicKey;
  pk_Address : PublicKey → option string;
  (** address, chain, proof, message, trust root *)
  ve_Validate : string → string → string → string → string → prog (bool * Z * option string)
}.

Section pool.
Context `{TxPbLib, ConstantLib, FsmLib, GoRange, PbLib, GovernanceLib, !GovAddrLib, ProofLib}.

(** The bytes that are signed, before they are hashed. *)
Definition encodePacked (ibtp : IBTP) (txStatus : TransactionStatus) : option string :=
  hash ← payload_Hash (ib_Payload ibtp);
  Some (ib_From ibtp +:+ ib_To ibtp +:+ uint64ToBytesInBigEndian (ib_Index ibtp) +:+
        uint64ToBytesInBigEndian (u64 (type_number (ib_Type ibtp))) +:+ hash +:+
        uint64ToBytesInBigEndian (u64 (status_number txStatus))).

Definition EncodePackedAndHash (ibtp : IBTP) (txStatus : TransactionStatus) : option string :=
  Keccak256 <$> encodePacked ibtp txStatus.

Definition recoverSignAddress (sig digest : string) : option string :=
  pubKeyBytes ← Ecrecover digest sig;
  pubkey ← UnmarshalPublicKey pubKeyBytes;
  pk_Address pubkey.

(** [(ok, gasUsed, err)] *)
Local Notation CheckResult := (bool * Z * option string)%type.

Definition ProofError : string := "proof verify failed".
Definition AppchainNotAvailable : string := "appchain not available".
Definition NoBindRule : string := "appchain didn't register rule".
Definition internalError : string := "internal server error".

(** The loop over the signatures: [m] are the validators that have not been counted. *)
Fixpoint countSigns (hash : string) (threshold : Z) (m : gset string) (counter : Z) (signs : list string) : bool :=
  match signs with
  | [] => false
  | sign :: signs =>
      match recoverSignAddress sign hash with
      | None => countSigns hash threshold m counter signs
      | Some val =>
          if decide (val ∈ m)
          then if decide (threshold < counter + 1)%Z then true
               else countSigns hash threshold (m ∖ {[val]}) (counter + 1) signs
          else countSigns hash threshold m counter signs
      end
  end.

Definition verifyMultiSign (app : ProofChain) (ibtp : IBTP) (proof : string) : CheckResult :=
  match pc_TrustRoot app with
  | None => (false, 0%Z, Some (internalError +:+ ": empty validators in relay chain"))
  | Some root =>
      match unmarshal root with
      | None => (false, 0%Z, Some (ProofError +:+ ": unmarshal trustRoot error"))
      | Some validators =>
          let m : gset string := list_to_set (Addresses validators) in
          match unmarshal proof with
          | None => (false, 0%Z, Some "unmarshal proof error")
          | Some bxhProof =>
              let threshold := Z.quot (Z.of_nat (length (Addresses validators)) - 1) 3 in
              match EncodePackedAndHash ibtp (bp_TxStatus bxhProof) with
              | None => (false, 0%Z, Some (ProofError +:+ ": EncodePackedAndHash error"))
              | Some hash =>
                  if countSigns hash threshold m 0 (bp_MultiSign bxhProof) then (true, 0%Z, None)
                  else (false, 0%Z, Some (ProofError +:+ ": multi signs verify fail"))
              end
          end
      end
  end.

(** ** Chains and rules in the ledger *)

Definition getAppchain (chainID : string) : prog (ProofChain + string) :=
  OpGetState AppchainMgrContractAddr (AppchainKey chainID) (λ data,
    mret match data with
         | None => inr (AppchainNotAvailable +:+ ": cannot get registered appchain")
         | Some data => match unmarshal data with
                        | None => inr (internalError +:+ ": unmarshal appchain data fail")
                        | Some app => inl app
                        end
         end).

(** The address of the first rule of the chain that is available. *)
Definition getValidateAddress (chainID : string) : prog (string + string) :=
  OpGetState RuleManagerContractAddr (RuleKey chainID) (λ data,
    mret match data with
         | None => inr NoBindRule
         | Some data =>
             match unmarshal data with
             | None => inr "unmarshal rules error"
             | Some rules =>
                 match list_find (λ r, pr_Status r = GovernanceAvailable) rules with
                 | Some (_, r) => inl (pr_Address r)
                 | None => inr NoBindRule
                 end
             end
         end).

(** [bitxhubID] is the id of this relay chain. *)
Definition verifyProof (bitxhubID : string) (ibtp : IBTP) (proof : option string) : prog CheckResult :=
  match proof with
  | None => mret (false, 0%Z, Some (ProofError +:+ ": empty proof"))
  | Some proof =>
      if decide (ib_Proof ibtp ≠ Some (Sum256 proof))
      then mret (false, 0%Z, Some (ProofError +:+ ": proof hash is not correct"))
      else
        let id := if decide (Category ibtp = IBTP_REQUEST) then ib_From ibtp else ib_To ibtp in
        let bxhID := bxh_of id in
        let chainID := chain_of id in
        if decide (bxhID ≠ bitxhubID)
        then
          app ← getAppchain bxhID;
          mret match app with
               | inr err => (false, 0%Z, Some ("get appchain failed: " +:+ err))
               | inl app => verifyMultiSign app ibtp proof
               end
        else
          app ← getAppchain chainID;
          match app with
          | inr err => mret (false, 0%Z, Some ("get appchain failed: " +:+ err))
          | inl app =>
              validateAddr ← getValidateAddress chainID;
              match validateAddr with
              | inr err => mret (false, 0%Z, Some ("get validate address failed: " +:+ err))
              | inl validateAddr =>
                  match marshal ibtp with
                  | None => mret (false, 0%Z, Some "marshal ibtp")
                  | Some ibtpBytes =>
                      '(ok, gasUsed, err) ← ve_Validate validateAddr chainID proof ibtpBytes (default EmptyString (pc_TrustRoot app));
                      mret match err with
                           | Some err => (false, gasUsed, Some (ProofError +:+ ": " +:+ err))
                           | None => (ok, gasUsed, None)
                           end
                  end
              end
          end
  end.

(** The message and the proof of a transaction; a transaction without a message passes. *)
Definition CheckProof (bitxhubID : string) (ibtp : option IBTP) (extra : option string) : prog CheckResult :=
  match ibtp with
  | None => mret (true, 0%Z, None)
  | Some ibtp =>
      '(ok, gasUsed, err) ← verifyProof bitxhubID ibtp extra;
      mret match err with
           | Some err => (false, gasUsed, Some ("ibtp " +:+ ProofError +:+ " : " +:+ err))
           | None => (ok, gasUsed, None)
           end
  end.
End pool.
