(* ===== verification/ProofTheorems.v ===== *)
(** * Theorems about proofs

The check of proofs in parallel is the serial one, and a message of another relay chain is accepted when more
than (n - 1)/3, rounded down, of the n validators of that chain have signed it. *)
From Stdlib Require Import Ascii.
From S2P Require Import Prelude Storage Account StateLedger Contract TransactionManager Interchain Role.
From S2P Require Import Executor Transactions ProofPool Blocks.

(** ** Checking in groups *)

Lemma groupInvalid_app start r1 r2 :
  groupInvalid start (r1 ++ r2) =
  (l1 ← groupInvalid start r1; l2 ← groupInvalid (start + length r1) r2; Some (l1 ++ l2)).
Proof.
  revert start. induction r1 as [|[[ok gas] err] r1 IH]; intros start; cbn [app groupInvalid length].
  - rewrite Nat.add_0_r. cbn. by destruct (groupInvalid start r2).
  - rewrite IH, <-Nat.add_succ_comm. destruct ok; [done|]. destruct err as [err|]; [|done]. cbn.
    destruct (groupInvalid (S start) r1) as [l1|]; [|done]. cbn. by destruct (groupInvalid _ r2).
Qed.

Lemma groupInvalid_range start r l : groupInvalid start r = Some l → Forall (λ i, start ≤ i) l.*1 ∧ NoDup l.*1.
Proof.
  revert start l. induction r as [|[[ok gas] err] r IH]; intros start l; cbn [groupInvalid].
  - intros [= <-]. by repeat constructor.
  - destruct ok.
    + intros [Hl Hn]%IH. split; [|done]. eapply Forall_impl; [exact Hl|]. cbn. lia.
    + destruct err as [err|]; [|done]. cbn. destruct (groupInvalid (S start) r) as [l1|] eqn:E; [|done]. intros [= <-].
      destruct (IH _ _ E) as [Hl Hn]. cbn. split.
      * constructor; [done|]. eapply Forall_impl; [exact Hl|]. cbn. lia.
      * constructor; [|done]. intros Hin. rewrite Forall_forall in Hl. specialize (Hl _ Hin). lia.
Qed.

Section mapM.
Context {A B : Type} (f : A → option B).

Lemma mapM_snoc l x : mapM f (l ++ [x]) = (ys ← mapM f l; y ← f x; Some (ys ++ [y])).
Proof.
  induction l as [|z l IH]; cbn; [by destruct (f x)|]. destruct (f z) as [y|]; [|done]. cbn. rewrite IH. destruct (mapM f l) as [ys|]; [|done]. cbn. by destruct (f x).
Qed.

Lemma mapM_perm l1 l2 :
  l1 ≡ₚ l2 → (mapM f l1 = None ∧ mapM f l2 = None) ∨ ∃ k1 k2, mapM f l1 = Some k1 ∧ mapM f l2 = Some k2 ∧ k1 ≡ₚ k2.
Proof.
  induction 1 as [|x l1 l2 _ [[E1 E2]|(k1 & k2 & E1 & E2 & Hk)]|x y l|l1 l2 l3 _ IH1 _ IH2].
  - right. by exists [], [].
  - left. cbn. rewrite E1, E2. by destruct (f x).
  - cbn. rewrite E1, E2. destruct (f x) as [z|]; [right|by left]. exists (z :: k1), (z :: k2). split_and!; [done|done|by constructor].
  - cbn. destruct (f x) as [zx|], (f y) as [zy|], (mapM f l) as [k|] eqn:E; cbn; rewrite ?E; cbn; try (by left).
    right. exists (zy :: zx :: k), (zx :: zy :: k). split_and!; [done|done|constructor].
  - destruct IH1 as [[E1 E2]|(k1 & k2 & E1 & E2 & Hk)], IH2 as [[E2' E3]|(k2' & k3 & E2' & E3 & Hk')]; [by left|congruence..|].
    right. rewrite E2 in E2'. injection E2' as <-. exists k1, k3. split_and!; [done|done|by etrans].
Qed.

Lemma concat_perm (k1 k2 : list (list B)) : k1 ≡ₚ k2 → concat k1 ≡ₚ concat k2.
Proof.
  induction 1 as [|x k1 k2 _ IH|x y k|k1 k2 k3 _ IH1 _ IH2]; cbn; [done|by rewrite IH| |by etrans].
  by rewrite !(assoc_L (++)), (comm (++) y x).
Qed.
End mapM.

(** The groups before the last one. *)
Lemma groups_prefix groups len results k :
  k ≤ groups - 1 → k * len ≤ length results →
  (l ← mapM (groupCheck groups len results) (seq 0 k); Some (concat l)) = groupInvalid 0 (take (k * len) results).
Proof.
  induction k as [|k IH]; intros Hk Hle; [done|].
  assert (take (S k * len) results = take (k * len) results ++ take len (drop (k * len) results)) as ->.
  { rewrite take_take_drop. f_equal. lia. }
  rewrite seq_S, mapM_snoc, groupInvalid_app, <-IH by lia. cbn [Nat.add].
  rewrite length_take_le by lia.
  assert (groupCheck groups len results k = groupInvalid (k * len) (take len (drop (k * len) results))) as ->
    by (unfold groupCheck; by rewrite decide_False by lia).
  destruct (mapM _ (seq 0 k)) as [l|]; [|done]. clear IH. cbn. destruct (groupInvalid (k * len) _) as [l2|]; [|done]. cbn.
  rewrite concat_app. cbn. by rewrite app_nil_r.
Qed.

(** All groups together check every result once. *)
Lemma groups_all groups len results :
  0 < groups → (groups - 1) * len ≤ length results →
  (l ← mapM (groupCheck groups len results) (seq 0 groups); Some (concat l)) = groupInvalid 0 results.
Proof.
  intros Hg Hle. destruct groups as [|g]; [lia|]. rewrite seq_S, mapM_snoc. cbn [Nat.add].
  transitivity (groupInvalid 0 (take (g * len) results ++ drop (g * len) results)); [|by rewrite take_drop].
  rewrite groupInvalid_app, <-(groups_prefix (S g) len results g) by lia.
  rewrite length_take_le by lia.
  assert (groupCheck (S g) len results g = groupInvalid (g * len) (drop (g * len) results)) as ->
    by (unfold groupCheck; by rewrite decide_True by lia).
  destruct (mapM _ (seq 0 g)) as [l|]; [|done]. cbn. destruct (groupInvalid (g * len) _) as [l2|]; [|done]. cbn.
  rewrite concat_app. cbn. by rewrite app_nil_r.
Qed.

Lemma insert_all_map (l : list (nat * string)) (m : gmap nat string) :
  NoDup l.*1 → foldl (λ m '(i, err), <[i := err]> m) m l = list_to_map l ∪ m.
Proof.
  revert m. induction l as [|[i err] l IH]; intros m Hn; cbn; [by rewrite (left_id_L ∅ _)|].
  apply NoDup_cons in Hn as [Hi Hn]. rewrite IH by done. rewrite <-insert_union_l, insert_union_r; [done|].
  by apply not_elem_of_list_to_map_1.
Qed.

(** C21: The check of the proofs of a block in groups that run at the same time is the check one after the other:
whatever the order in which the groups come to the lock, the transactions that are not valid and their errors are
the same, and a result without an error panics in both. *)
Theorem verifyProofs_parallel order results bw :
  length results = length (b_Transactions (bw_block bw)) →
  order ≡ₚ seq 0 (groupNum "parallel" (length results)) →
  verifyProofs "parallel" order results bw = verifyProofs "serial" [0] results bw.
Proof.
  intros Hlen Hord. unfold verifyProofs. rewrite <-Hlen. case_decide; [done|]. destruct (b_Extra (bw_block bw)); [done|].
  case_decide as Hn; [done|].
  assert (groupNum "serial" (length results) = 1) as -> by (unfold groupNum; change (configGroup "serial") with 1; case_decide; lia).
  assert (0 < groupNum "parallel" (length results)) as Hg by (unfold groupNum; change (configGroup "parallel") with 5; case_decide; lia).
  set (g := groupNum "parallel" (length results)) in *. rewrite decide_False by lia. rewrite (decide_False (P := 1 = 0)) by lia.
  assert ((g - 1) * (length results / g) ≤ length results) as Hle.
  { pose proof (Nat.Div0.mul_div_le (length results) g). nia. }
  pose proof (groups_all g _ results Hg Hle) as Hall.
  pose proof (groups_all 1 (length results / 1) results ltac:(lia) ltac:(lia)) as Hone. cbn [seq] in Hone.
  destruct (mapM (groupCheck 1 _ results) [0]) as [l1|]; cbn in Hone |- *.
  - destruct (mapM_perm (groupCheck g (length results / g) results) _ _ Hord) as [[E1 E2]|(k1 & k2 & E1 & E2 & Hk)];
      rewrite E2 in Hall; cbn in Hall; [congruence|]. rewrite E1. cbn. do 2 f_equal.
    rewrite <-Hall in Hone. injection Hone as Hcat. destruct (groupInvalid_range _ _ _ (eq_sym Hall)) as [_ Hnd].
    pose proof (concat_perm _ _ Hk) as Hp. rewrite Hcat, !insert_all_map; [|done|by rewrite Hp].
    f_equal. apply list_to_map_proper; [by rewrite Hp|done].
  - destruct (mapM_perm (groupCheck g (length results / g) results) _ _ Hord) as [[E1 E2]|(k1 & k2 & E1 & E2 & Hk)];
      rewrite E2 in Hall; cbn in Hall; [by rewrite E1|congruence].
Qed.

(** Seven results in five groups, of which the last one has three. *)
Lemma verifyProofs_parallel_witness :
  let tx := UnknownTx "a" 0 "h" in
  let bw := MkBlockWrapper (MkBlock (MkBlockHeader 2 0 "" "" "" "" "") [tx; tx; tx; tx; tx; tx; tx] "" None None) ∅ in
  let results := [(true, 0%Z, None); (false, 0%Z, Some "e1"); (true, 0%Z, None); (true, 0%Z, None); (true, 0%Z, None);
                  (false, 0%Z, Some "e5"); (false, 0%Z, Some "e6")] in
  verifyProofs "parallel" [3; 1; 0; 4; 2] results bw = verifyProofs "serial" [0] results bw ∧
  bw_invalidTx <$> verifyProofs "serial" [0] results bw = Some {[1 := "e1"; 5 := "e5"; 6 := "e6"]}.
Proof.
  intros tx bw results. split; [|reflexivity]. apply (verifyProofs_parallel [3; 1; 0; 4; 2] results bw); [reflexivity|].
  apply (bool_decide_unpack _). vm_compute. exact I.
Defined.

(** A result that is not ok and has no error stops the node: the error of it is used without a look at it. *)
Theorem rejected_without_error_panics :
  verifyProofs "serial" [0] [(false, 0%Z, None)]
    (MkBlockWrapper (MkBlock (MkBlockHeader 2 0 "" "" "" "" "") [UnknownTx "a" 0 "h"] "" None None) ∅) = None.
Proof. reflexivity. Qed.

(** The number of groups is 0 for a type of proofs that is neither of the two. *)
Theorem unknown_proof_type_panics :
  verifyProofs "paralel" [] [(true, 0%Z, None)]
    (MkBlockWrapper (MkBlock (MkBlockHeader 2 0 "" "" "" "" "") [UnknownTx "a" 0 "h"] "" None None) ∅) = None.
Proof. reflexivity. Qed.

(** ** Signatures of a relay chain *)

Section signatures.
Context `{TxPbLib, ConstantLib, FsmLib, GoRange, PbLib, GovernanceLib, !GovAddrLib, ProofLib}.

(** Those who have signed. *)
Definition signers (hash : string) (signs : list string) : gset string :=
  list_to_set (omap (λ sign, recoverSignAddress sign hash) signs).

Lemma countSigns_spec hash threshold m counter signs :
  (counter ≤ threshold)%Z →
  countSigns hash threshold m counter signs = true ↔ (threshold < counter + Z.of_nat (size (m ∩ signers hash signs)))%Z.
Proof.
  revert m counter. induction signs as [|sign signs IH]; intros m counter Hc; cbn [countSigns].
  - unfold signers. cbn. rewrite (right_absorb_L ∅ (∩)), size_empty. split; [done|lia].
  - unfold signers. cbn [omap list_omap]. fold (signers hash signs).
    destruct (recoverSignAddress sign hash) as [val|] eqn:E; [|by apply IH]. cbn [list_to_set].
    change (list_to_set (omap _ signs)) with (signers hash signs).
    destruct (decide (val ∈ m)) as [Hin|Hin].
    + assert (m ∩ ({[val]} ∪ signers hash signs) = {[val]} ∪ (m ∖ {[val]}) ∩ signers hash signs) as ->.
      { apply set_eq. intros x. rewrite !elem_of_union, !elem_of_intersection, elem_of_difference, !elem_of_union, elem_of_singleton.
        destruct (decide (x = val)); naive_solver. }
      rewrite size_union by set_solver. rewrite size_singleton.
      destruct (decide (threshold < counter + 1)%Z); [split; [lia|done]|]. rewrite IH by lia. lia.
    + assert (m ∩ ({[val]} ∪ signers hash signs) = m ∩ signers hash signs) as -> by set_solver. by apply IH.
Qed.

(** C20: A message of another relay chain is accepted exactly when the trust root of that chain and the proof can be
read, the message can be encoded, and more than (n - 1) / 3 of its n validators, rounded toward zero, are among the
different signers of the message and its status: 1 of 3, 2 of 4, 2 of 6, 3 of 7. For n divisible by 3 that is one
third and not more. *)
Theorem verifyMultiSign_quorum app ibtp proof :
  (verifyMultiSign app ibtp proof).1.1 = true ↔
  ∃ root validators bxhProof hash, pc_TrustRoot app = Some root ∧ unmarshal root = Some validators ∧
    unmarshal proof = Some bxhProof ∧ EncodePackedAndHash ibtp (bp_TxStatus bxhProof) = Some hash ∧
    (Z.quot (Z.of_nat (length (Addresses validators)) - 1) 3 <
     Z.of_nat (size (list_to_set (Addresses validators) ∩ signers hash (bp_MultiSign bxhProof))))%Z.
Proof.
  assert (∀ n, 0 ≤ Z.quot (Z.of_nat n - 1) 3)%Z as Hq.
  { intros [|n]; [done|]. apply Z.quot_pos; lia. }
  unfold verifyMultiSign. split.
  - destruct (pc_TrustRoot app) as [root|]; [|done]. destruct (unmarshal root) as [validators|] eqn:Ev; [|done].
    destruct (unmarshal proof) as [bp|] eqn:Ep; [|done]. destruct (EncodePackedAndHash _ _) as [hash|] eqn:Eh; [|done].
    destruct (countSigns _ _ _ _ _) eqn:Ec; [|done]. intros _. apply countSigns_spec in Ec; [|apply Hq].
    exists root, validators, bp, hash. done.
  - intros (root & validators & bp & hash & -> & -> & -> & -> & Hlt).
    rewrite (proj2 (countSigns_spec hash _ _ 0 _ (Hq _))); [done|lia].
Qed.

(** The bytes that are signed do not tell where the sender ends and the receiver begins: a proof for the message of
service s to the relay chain 12 is a proof for the message of service s1 to the relay chain 2. *)
Theorem multisign_ambiguous app proof index type timeout group extra payload hash :
  verifyMultiSign app (MkIBTP "1:a:s" "12:b:t" index type timeout group extra payload hash) proof =
  verifyMultiSign app (MkIBTP "1:a:s1" "2:b:t" index type timeout group extra payload hash) proof.
Proof. reflexivity. Qed.
End signatures.
