(* ===== verification/Pipeline.v ===== *)
(** * Executing a block: [processExecuteEvent] and [rollbackBlocks] of [src/internal/executor/handle.go],
[PersistBlockData] and [Rollback] of [src/internal/ledger/ledger.go]

The parts come together: proofs are checked, transactions applied, timeouts filed, the roots of the header computed,
and the state and the block written. A panic of the node is [None]. *)
From Stdlib Require Import Ascii.
From S2P Require Import Prelude Storage Account StateLedger Contract TransactionManager Interchain Role Executor Transactions.
From S2P Require Import ProofPool Blocks TxExecutor ChainLedger.

(** Merkle trees ([None] is an error of the library), and the hashes of headers and receipts. *)
Class MerkleLib := {
  MerkleRoot : list string → option string;
  header_Hash : BlockHeader → string;
  receipt_Hash : Receipt → string
}.

(** The block as [setTimeoutList] looks at it. *)
Definition timeout_tx (tx : Transaction) : BlockTx :=
  MkBlockTx (GetHash tx) (match tx with EthTx _ => true | _ => false end) (GetIBTP tx).

Definition GetExtra (tx : Transaction) : option string := match tx with BxhTx tx => tx_Extra tx | _ => None end.

Section pipeline.
Context `{StorageLib, LruLib, AddressLib, InnerAccountLib, AccessListLib, BlockFileLib, ChainLib, MerkleLib}.
Context `{BvmLib, TxPbLib, ConstantLib, PbLib, ServiceLib, !PeerContracts, !EventLib, GoRange, FsmLib, HashLib}.
Context `{GovernanceLib, !GovAddrLib, ProofLib, Encoding BlockJournal}.
Context (contracts : string → option BoltContract).
Context (XVM_New : Context → bool) (XVM_Run : Context → string → Z → prog VmResult).
(** The virtual machine of Ethereum for a block. *)
Context (EVM : BlockHeader → EthTransaction → Z → LM (string + ExecutionResult)).
Context (ErrExecutionReverted : string) (CreateAddress : string → Z → string) (zeroAddress : string).
Context (EqualFold : string → string → bool).
(** The configuration: its height is not used. *)
Context (be : BlockExecutor) (ProofType : string).

(** The executor with its two ledgers. *)
Record Node := MkNode {
  n_state : SimpleLedger; n_chain : ChainLedgerImpl; currentHeight : Z; currentBlockHash : option string; n_out : ExecOut }.

Definition be_at (height : Z) : BlockExecutor :=
  MkBlockExecutor (be_config be) (be_EnableAudit be) (be_supportParallel be) (be_gasLimit be) height.

(** ** Writing and going back *)

(** The two ledgers are written at the same time; both have to succeed. *)
Definition PersistBlockData (n : Node) (block : Block) (receipts : list Receipt) (accounts : gmap string SimpleAccount)
    (meta : InterchainMeta) : option Node :=
  '(err, state) ← Commit (bh_Number (b_Header block)) accounts (bh_StateRoot (b_Header block)) (n_state n);
  match err with
  | Some _ => None
  | None =>
      chain ← PersistExecutionResult (n_chain n) block receipts meta;
      chain ← chain;
      Some (MkNode state chain (currentHeight n) (currentBlockHash n) (n_out n))
  end.

(** The error of either ledger is an error. *)
Definition Rollback (n : Node) (height : Z) : option (bool * Node) :=
  '(err, state) ← RollbackState height (n_state n);
  let n := MkNode state (n_chain n) (currentHeight n) (currentBlockHash n) (n_out n) in
  match err with
  | Some _ => Some (false, n)
  | None =>
      let '(chain, err) := RollbackBlockChain (n_chain n) height in
      Some (bool_decide (err = None), MkNode (n_state n) chain (currentHeight n) (currentBlockHash n) (n_out n))
  end.

(** Opening both ledgers: the state goes back to the height of the chain. [None] is a panic, the inner [None] an error. *)
Definition New (store : storage) (ldb : storage) (file : blockfile) (accountCache : option AccountCache) (o : ExecOut) :
    option (option Node) :=
  match NewChainLedgerImpl store file with
  | None => Some None
  | Some chain =>
      state ← NewSimpleLedger ldb accountCache;
      match state with
      | None => Some None
      | Some state =>
          let meta := GetChainMeta chain in
          '(ok, n) ← Rollback (MkNode state chain (cm_Height meta) (cm_BlockHash meta) o) (cm_Height meta);
          Some (if (ok : bool) then Some n else None)
      end
  end.

(** A block that is not the next one: [Some None] is the block that has been executed already; otherwise the node
goes back to the block before it. Every other error stops the node. *)
Definition rollbackBlocks (n : Node) (newBlock : Block) : option (option Node) :=
  let height := bh_Number (b_Header newBlock) in
  oldBlock ← GetBlock (n_chain n) height false;
  if decide (hash_String (b_BlockHash oldBlock) = hash_String (header_Hash (b_Header newBlock))) then Some None
  else
    lastChecked ← GetBlock (n_chain n) (u64 (height - 1)) false;
    '(ok, n) ← Rollback n (u64 (bh_Number (b_Header oldBlock) - 1));
    if (ok : bool)
    then Some (Some (MkNode (n_state n) (n_chain n) (bh_Number (b_Header lastChecked)) (Some (b_BlockHash lastChecked)) (n_out n)))
    else None.

(** ** Roots *)

Definition calcMerkleRoot (contents : list string) : option string :=
  match contents with [] => Some zeroHash | _ => MerkleRoot contents end.

Definition buildTxMerkleTree (txs : list Transaction) : option string := calcMerkleRoot (GetHash <$> txs).
Definition calcReceiptMerkleRoot (receipts : list Receipt) : option string := calcMerkleRoot (receipt_Hash <$> receipts).
Definition calcTimeoutL2Root (list : list string) : option string := MerkleRoot (Sum256 <$> list).

(** The roots of the lists of messages that time out, in ascending order, and their root. *)
Definition timeoutRoots (timeoutIBTPsMap : gmap string (list string)) : option (list string * string) :=
  roots ← mapM (λ kv : string * list string, calcTimeoutL2Root kv.2) (go_range timeoutIBTPsMap);
  let roots := sort_Strings roots in
  root ← calcMerkleRoot roots;
  Some (roots, root).

(** ** The block *)

(** The results of [CheckProof] for the transactions. *)
Fixpoint checkProofs (bitxhubID : string) (txs : list Transaction) : LM (list CheckResult) :=
  match txs with
  | [] => mret []
  | tx :: txs =>
      result ← run_ledger (CheckProof bitxhubID (GetIBTP tx) (GetExtra tx));
      results ← checkProofs bitxhubID txs;
      mret (result :: results)
  end.

(** What the transactions of the block and its timeouts do to the state: the receipts, the root of the timeouts, the
messages of the block, the accounts that have changed and the root of the state. Errors of [setTimeoutList],
[getTimeoutIBTPsMap] and [setTimeoutRollback] are only logged. *)
Definition executeBlock (height : Z) (block : Block) (invalidTx : gmap nat string) (o : ExecOut) :
    LM (list Receipt * ExecOut * string * InterchainMeta * gmap string SimpleAccount * string) :=
  let bxhId := fmt_d (ec_ChainID (be_config be)) in
  _ ← PrepareBlock (Some (b_BlockHash block)) (bh_Number (b_Header block));
  '(receipts, o) ← ApplyTransactions contracts XVM_New XVM_Run (EVM (b_Header block)) ErrExecutionReverted CreateAddress
                     zeroAddress EqualFold (be_at height) (b_Transactions block) invalidTx o;
  let '(invalidTxHashMap, recordFailTxHashMap) := filterValidTx receipts in
  _ ← run_ledger (setTimeoutList (bh_Number (b_Header block)) (timeout_tx <$> b_Transactions block)
                    invalidTxHashMap recordFailTxHashMap bxhId);
  timeoutIBTPsMap ← run_ledger (getTimeoutIBTPsMap (be_config be) (bh_Number (b_Header block)));
  let timeoutIBTPsMap := default ∅ timeoutIBTPsMap in
  match timeoutRoots timeoutIBTPsMap with
  | None => lm_panic
  | Some (timeoutL2Roots, timeoutRoot) =>
      multiTxIBTPsMap ← run_ledger (getMultiTxIBTPsMap (height +u 1));
      match multiTxIBTPsMap with
      | None => lm_panic
      | Some multiTxCounter =>
          _ ← run_ledger (setTimeoutRollback (bh_Number (b_Header block)));
          '(accounts, journalHash) ← FlushDirtyData;
          let meta := MkInterchainMeta (interchainCounter (eo_txs o)) timeoutIBTPsMap timeoutL2Roots multiTxCounter in
          mret (receipts, o, timeoutRoot, meta, accounts, journalHash)
      end
  end.

(** The block with its header completed. *)
Definition sealBlock (n : Node) (block : Block) (txRoot receiptRoot timeoutRoot stateRoot : string) : Block :=
  let h := b_Header block in
  let h := MkBlockHeader (bh_Number h) (bh_Timestamp h) (default EmptyString (currentBlockHash n)) stateRoot txRoot receiptRoot timeoutRoot in
  MkBlock h (b_Transactions block) (header_Hash h) (b_Signature block) (b_Extra block).

(** The first block and blocks with an extra field are not checked. *)
Definition provesBlock (block : Block) : bool :=
  bool_decide (bh_Number (b_Header block) ≠ 1%Z ∧ b_Extra block = None).

(** [order] is the order in which the routines that check proofs come to their lock. *)
Definition executeNext (order : list nat) (n : Node) (bw : BlockWrapper) : option Node :=
  '(results, state) ← (if provesBlock (bw_block bw)
                       then checkProofs (fmt_d (ec_ChainID (be_config be))) (b_Transactions (bw_block bw))
                       else mret []) (n_state n);
  bw ← verifyProofs ProofType order results bw;
  let block := bw_block bw in
  if decide (length (ec_admins (be_config be)) = 0) then None
  else
    '(receipts, o, timeoutRoot, meta, accounts, journalHash, state) ←
      executeBlock (currentHeight n) block (bw_invalidTx bw) (n_out n) state;
    txRoot ← buildTxMerkleTree (b_Transactions block);
    receiptRoot ← calcReceiptMerkleRoot receipts;
    let block := sealBlock n block txRoot receiptRoot timeoutRoot journalHash in
    n ← PersistBlockData (MkNode state (n_chain n) (currentHeight n) (currentBlockHash n) o) block receipts accounts meta;
    '(_, state) ← Clear (n_state n);
    Some (MkNode state (n_chain n) (bh_Number (b_Header block)) (Some (b_BlockHash block)) (n_out n)).

Definition processExecuteEvent (order : list nat) (n : Node) (bw : BlockWrapper) : option Node :=
  if decide (bh_Number (b_Header (bw_block bw)) = currentHeight n +u 1) then executeNext order n bw
  else
    n' ← rollbackBlocks n (bw_block bw);
    match n' with
    | None => Some n
    | Some n => executeNext order n bw
    end.

(** Transactions that are only looked at: after each one the ledger is cleared. [None] is the error for a missing
block. *)
Fixpoint applyReadonly (height : Z) (header : BlockHeader) (i : nat) (txs : list Transaction) (cache : gmap string Service) :
    LM (list Receipt) :=
  match txs with
  | [] => mret []
  | tx :: txs =>
      receipt ← applyTransaction contracts XVM_New XVM_Run (EVM header) ErrExecutionReverted CreateAddress zeroAddress
                  EqualFold (be_at height) (Z.of_nat i) tx EmptyString cache;
      _ ← Clear;
      receipts ← applyReadonly height header (S i) txs cache;
      mret (receipt :: receipts)
  end.

Definition ApplyReadonlyTransactions (n : Node) (txs : list Transaction) : option (option (list Receipt) * Node) :=
  let meta := GetChainMeta (n_chain n) in
  match GetBlock (n_chain n) (cm_Height meta) false with
  | None => Some (None, n)
  | Some block =>
      if decide (length (ec_admins (be_config be)) = 0) then None
      else
        '(receipts, state) ← (_ ← PrepareBlock (cm_BlockHash meta) (cm_Height meta);
                              applyReadonly (currentHeight n) (b_Header block) 0 txs (serviceCache (n_out n))) (n_state n);
        Some (Some receipts, MkNode state (n_chain n) (currentHeight n) (currentBlockHash n) (n_out n))
  end.
End pipeline.
