(* ===== verification/PipelineProps.v ===== *)
(** * Theorems about the execution of blocks

The two ledgers of a node go together: their heights agree, blocks are linked by their hashes, and every block
carries one receipt for each transaction. *)
From Stdlib Require Import Ascii.
From S2P Require Import Prelude Storage Account StateLedger Contract TransactionManager Interchain Role Executor Transactions.
From S2P Require Import ProofPool Blocks TxExecutor ChainLedger ChainLedgerProps Pipeline.

(** ** Heights of the state *)

Section heights.
Context `{StorageLib, LruLib, AddressLib, InnerAccountLib, AccessListLib, GoRange, HashLib, Encoding BlockJournal}.
Implicit Types (l : SimpleLedger).

Lemma Commit_height height accs root l l' : Commit height accs root l = Some (None, l') → maxJnlHeight l' = height.
Proof.
  unfold Commit. destruct (foldl _ _ _) as [ws|]; [|done]. cbn [mbind option_bind].
  destruct (blockJournals l !! root) as [j|]; [|done]. destruct (marshal j) as [data|]; [|done].
  destruct (if decide (minJnlHeight l = 0)%Z then _ else _) as [ws' lo]. intros E.
  apply LM_bind_inv in E as ([] & l1 & E1 & E). apply LM_bind_inv in E as ([] & l2 & E2 & E).
  apply LM_bind_inv in E as (err & l3 & E3 & E). injection E2 as <-.
  assert (maxJnlHeight l3 = height) as Hh.
  { revert E3. case_decide; [|by intros [= _ <-]]. unfold removeJournalsBeforeBlock, mbind, LM_bind, lm_get, ldb_Commit, lm_modify.
    repeat case_decide; intros [= _ <-]; done. }
  destruct err; [discriminate E|]. apply LM_bind_inv in E as ([] & l4 & E4 & E). injection E4 as <-. by injection E as <-.
Qed.

Lemma RollbackState_height height l l' : RollbackState height l = Some (None, l') → maxJnlHeight l' = height.
Proof.
  unfold RollbackState. intros E. apply LM_bind_inv in E as (lo & l1 & E1 & E). apply LM_bind_inv in E as (hi & l2 & E2 & E).
  injection E1 as <- <-. injection E2 as <- <-. revert E. case_decide; [by intros [=]|].
  destruct (bool_decide (height < minJnlHeight l)%Z && _); [by intros [=]|]. case_decide as Heq; [intros E; injection E as <-; exact Heq|]. intros E.
  apply LM_bind_inv in E as (_ & l3 & _ & E). apply LM_bind_inv in E as (_ & l4 & _ & E). revert E.
  unfold rollbackStore. destruct (StateLedger.rollbackBlocks _ _ _) as [[complete ldb]|]; [|done]. cbn [mbind option_bind].
  destruct complete; [|done]. case_decide; [|by intros [= <-]].
  destruct (getBlockJournal ldb height) as [[j|]|]; cbn; [|done..]. by intros [= <-].
Qed.
End heights.

(** ** The node *)

Section node.
Context `{StorageLib, LruLib, AddressLib, InnerAccountLib, AccessListLib, BlockFileLib, ChainLib, MerkleLib}.
Context `{BvmLib, TxPbLib, ConstantLib, PbLib, ServiceLib, !PeerContracts, !EventLib, GoRange, FsmLib, HashLib}.
Context `{GovernanceLib, !GovAddrLib, ProofLib, Encoding BlockJournal}.
Context (contracts : string → option BoltContract).
Context (XVM_New : Context → bool) (XVM_Run : Context → string → Z → prog VmResult).
Context (EVM : BlockHeader → EthTransaction → Z → LM (string + ExecutionResult)).
Context (ErrExecutionReverted : string) (CreateAddress : string → Z → string) (zeroAddress : string).
Context (EqualFold : string → string → bool).
Context (be : BlockExecutor) (ProofType : string).
Implicit Types (n : Node) (chain : list entry) (e : entry).

Local Notation executeBlock := (executeBlock contracts XVM_New XVM_Run EVM ErrExecutionReverted CreateAddress zeroAddress EqualFold be).
Local Notation executeNext := (executeNext contracts XVM_New XVM_Run EVM ErrExecutionReverted CreateAddress zeroAddress EqualFold be ProofType).
Local Notation processExecuteEvent :=
  (processExecuteEvent contracts XVM_New XVM_Run EVM ErrExecutionReverted CreateAddress zeroAddress EqualFold be ProofType).

(** An entry that the executor has made: its hash is that of its header, and it has a receipt for each transaction. *)
Record sealed e : Prop := {
  se_hash : en_hash e = header_Hash (b_Header (en_block e));
  se_receipts : rc_TxHash <$> en_receipts e = en_hashes e }.

(** The hash that a block on top of [chain] points to. *)
Definition tip (genesis : string) chain : string := match last chain with Some e => en_hash e | None => genesis end.

(** Every block points to the one before it. *)
Definition linked (genesis : string) chain : Prop :=
  ∀ i e, chain !! i = Some e → bh_ParentHash (b_Header (en_block e)) = tip genesis (take i chain).

Record node_ok (genesis : string) chain n : Prop := {
  nk_chain : represents chain (n_chain n);
  nk_height : currentHeight n = Z.of_nat (length chain);
  nk_hash : default EmptyString (currentBlockHash n) = tip genesis chain;
  nk_state : maxJnlHeight (n_state n) = Z.of_nat (length chain);
  nk_sealed : Forall sealed chain;
  nk_linked : linked genesis chain }.

Lemma linked_snoc genesis chain e :
  linked genesis chain → bh_ParentHash (b_Header (en_block e)) = tip genesis chain → linked genesis (chain ++ [e]).
Proof.
  intros Hl He i e' [[Hi Hlt]|[-> ->]]%chain_snoc_lookup.
  - rewrite take_app_le by lia. by apply Hl.
  - by rewrite take_app_length.
Qed.

Lemma linked_take genesis chain k : linked genesis chain → linked genesis (take k chain).
Proof. intros Hl i e [Hi Hlt]%lookup_take_Some. rewrite take_take, Nat.min_l by lia. by apply Hl. Qed.

(** The receipts of an executed block. *)
Lemma executeBlock_receipts height block invalid o l rcs o' root meta accs jh l' :
  executeBlock height block invalid o l = Some ((rcs, o', root, meta, accs, jh), l') →
  rc_TxHash <$> rcs = GetHash <$> b_Transactions block.
Proof.
  unfold Pipeline.executeBlock. cbv zeta. intros E. apply LM_bind_inv in E as (_ & l1 & _ & E).
  apply LM_bind_inv in E as ([rcs1 o1] & l2 & Ea & E).
  destruct (applyTxs_spec _ _ _ _ _ _ _ _ _ _ _ _ _ _ _ _ _ Ea) as [Hh _].
  destruct (filterValidTx rcs1) as [m1 m2]. apply LM_bind_inv in E as (_ & l3 & _ & E). apply LM_bind_inv in E as (m & l4 & _ & E).
  destruct (timeoutRoots _) as [[rs r]|]; [|done]. apply LM_bind_inv in E as (mm & l5 & _ & E). destruct mm; [|done].
  apply LM_bind_inv in E as (_ & l6 & _ & E). apply LM_bind_inv in E as ([accs' jh'] & l7 & _ & E).
  injection E as <- <- <- <- <- <- <-. done.
Qed.

Lemma verifyProofs_block order results bw bw' :
  verifyProofs ProofType order results bw = Some bw' →
  b_Header (bw_block bw') = b_Header (bw_block bw) ∧ b_Transactions (bw_block bw') = b_Transactions (bw_block bw).
Proof.
  unfold verifyProofs. case_decide; [by intros [= <-]|]. destruct (b_Extra _); [by intros [= <-]|].
  case_decide; [by intros [= <-]|]. case_decide; [done|]. destruct (mapM _ _); [|done]. by intros [= <-].
Qed.

Lemma PersistBlockData_ok n block rcs accs meta n' chain :
  PersistBlockData n block rcs accs meta = Some n' → represents chain (n_chain n) → follows chain (MkEntry block rcs meta) →
  ∃ e, represents (chain ++ [e]) (n_chain n') ∧ maxJnlHeight (n_state n') = bh_Number (b_Header block) ∧
    b_Header (en_block e) = b_Header block ∧ en_hash e = b_BlockHash block ∧ en_txs e = b_Transactions block ∧ en_receipts e = rcs.
Proof.
  unfold PersistBlockData. destruct (Commit _ _ _ _) as [[[err|] state]|] eqn:Ec; [done| |done]. cbn [mbind option_bind].
  apply Commit_height in Ec. intros E R [Fn Fh Ft Ff Fs].
  destruct (sign_block block) as [b'|] eqn:Es.
  - destruct (sign_block_same _ _ Es) as (Eh & Et & Eb). set (e := MkEntry b' rcs meta).
    assert (en_hashes e = GetHash <$> b_Transactions block) as Ehs by (unfold en_hashes, en_txs; cbn; by rewrite Et).
    destruct (persist_represents chain (n_chain n) block e R Es) as (chain' & Ep & R').
    { unfold en_number, en_hash in *. cbn in *. split; unfold en_number, en_hash; cbn; rewrite ?Ehs, ?Eh, ?Eb; done. }
    cbn [en_receipts en_meta e] in Ep. rewrite Ep in E. cbn [mbind option_bind] in E. injection E as <-. exists e. split_and!; done.
  - assert (PersistExecutionResult (n_chain n) block rcs meta = Some None) as Ep; [|by rewrite Ep in E].
    unfold PersistExecutionResult, preparePersist, prepareBlock. destruct (prepareReceipts rcs); [|done]. cbn [mbind option_bind].
    destruct (prepareTransactions [] block) as [[b ts]|]; [|done]. cbn [mbind option_bind]. by rewrite Es.
Qed.

(** A node that is started again has the blocks that were written, and its state has the height of the chain, also
when the state had been written and the block had not. *)
Theorem New_ok chain l ldb cache o n :
  represents chain l → New (blockchainStore l) ldb (bf l) cache o = Some (Some n) →
  represents chain (n_chain n) ∧ currentHeight n = Z.of_nat (length chain) ∧ maxJnlHeight (n_state n) = Z.of_nat (length chain).
Proof.
  intros R. unfold New. destruct (rp_load _ _ R) as (m & Em & Hm). unfold NewChainLedgerImpl. rewrite Em. cbn [mbind option_bind].
  set (l' := MkChainLedger (blockchainStore l) (bf l) m). assert (represents chain l') as R' by (destruct R; by split).
  intros (st & _ & E)%bind_Some. destruct st as [state|]; [|done]. apply bind_Some in E as ([ok n1] & Er & E).
  destruct ok; [|done]. injection E as ->. unfold Rollback in Er. apply bind_Some in Er as ([err state'] & Es & Er).
  destruct err; [discriminate Er|]. apply RollbackState_height in Es. cbn [n_chain] in Er.
  destruct Hm as (Hh & Hc & Hl). unfold RollbackBlockChain in Er. cbn [GetChainMeta chainMeta l'] in Er, Es.
  rewrite decide_False, decide_True in Er by lia. injection Er as <-. cbn [n_chain n_state currentHeight].
  split_and!; [done|done|]. by rewrite Es.
Qed.

Section hashes.
(** Headers have different hashes. *)
Context (header_Hash_inj : ∀ h1 h2, header_Hash h1 = header_Hash h2 → h1 = h2).

Lemma fresh_hash chain h :
  Forall sealed chain → (∀ e, e ∈ chain → b_Header (en_block e) ≠ h) → header_Hash h ∉ en_hash <$> chain.
Proof.
  intros Hs Hne (e & He & Hin)%list_elem_of_fmap. rewrite Forall_forall in Hs. rewrite (se_hash _ (Hs e Hin)) in He.
  apply (Hne e Hin). symmetry. by apply header_Hash_inj.
Qed.

Lemma executeNext_ok genesis chain order n bw n' :
  node_ok genesis chain n → bh_Number (b_Header (bw_block bw)) = (Z.of_nat (length chain) + 1)%Z →
  NoDup (GetHash <$> b_Transactions (bw_block bw)) →
  (∀ x, x ∈ GetHash <$> b_Transactions (bw_block bw) → x ∉ chain ≫= en_hashes) → (Z.of_nat (length chain) + 1 < 2 ^ 63)%Z →
  executeNext order n bw = Some n' → ∃ e, node_ok genesis (chain ++ [e]) n' ∧ en_txs e = b_Transactions (bw_block bw).
Proof.
  intros [R Hht Hh Hst Hse Hli] Hnum Hnd Hfr Hsm. unfold Pipeline.executeNext.
  intros ([results state] & _ & E)%bind_Some. apply bind_Some in E as (bw' & Ev & E). revert E.
  destruct (verifyProofs_block _ _ _ _ Ev) as [Eh Et]. rewrite <-Eh in Hnum. rewrite <-Et in Hnd, Hfr |- *. clear Ev Eh Et.
  set (block := bw_block bw') in *. case_decide; [done|].
  destruct (executeBlock _ _ _ _ _) as [[[[[[[rcs o] root] meta] accs] jh] state']|] eqn:Ee; [|done]. cbn [mbind option_bind].
  pose proof (executeBlock_receipts _ _ _ _ _ _ _ _ _ _ _ _ Ee) as Hrc.
  destruct (buildTxMerkleTree _) as [txRoot|]; [|done]. cbn [mbind option_bind].
  destruct (calcReceiptMerkleRoot _) as [rcRoot|]; [|done]. cbn [mbind option_bind].
  set (sealed_block := sealBlock n block txRoot rcRoot root jh).
  destruct (PersistBlockData _ _ _ _ _) as [n1|] eqn:Ep; [|done]. cbn [mbind option_bind]. intros [= <-].
  destruct (PersistBlockData_ok _ _ _ _ _ _ chain Ep R) as (e & R' & Hst' & Eh & Eha & Et & Er).
  { split; [done| |done|done|done]. apply fresh_hash; [done|]. intros e' Hin Heq.
    apply list_elem_of_lookup in Hin as [i Hi]. pose proof (rp_number _ _ R i e' Hi) as Hn. unfold en_number in Hn. rewrite Heq in Hn.
    cbn in Hn. apply lookup_lt_Some in Hi. lia. }
  exists e. split; [|done]. split; cbn [n_chain n_state currentHeight currentBlockHash].
  - done.
  - cbn. rewrite Hnum, length_app. cbn. lia.
  - unfold tip. rewrite last_snoc. cbn. by rewrite Eha.
  - rewrite length_app. cbn. rewrite Hst'. cbn. lia.
  - apply Forall_app. split; [done|]. repeat constructor; [by rewrite Eha, Eh|]. rewrite Er, Hrc. unfold en_hashes. by rewrite Et.
  - apply linked_snoc; [done|]. by rewrite Eh.
Qed.

(** A block that the file has is a block of the list. *)
Lemma GetBlock_inside chain l h b :
  represents chain l → GetBlock l h false = Some b →
  ∃ i e, h = (Z.of_nat i + 1)%Z ∧ chain !! i = Some e ∧ b_Header b = b_Header (en_block e) ∧ b_BlockHash b = en_hash e.
Proof.
  intros R E. assert (1 ≤ h ≤ Z.of_nat (length chain))%Z as Hh.
  { rewrite <-(rp_blocks _ _ R). apply (bf_get_range BodiesTable). unfold GetBlock in E.
    destruct (bf_Get BodiesTable h (bf l)); [by eexists|done]. }
  destruct (lookup_lt_is_Some_2 chain (Z.to_nat (h - 1))) as [e He]; [lia|]. exists (Z.to_nat (h - 1)), e.
  assert (h = Z.of_nat (Z.to_nat (h - 1)) + 1)%Z as Hi by lia. split_and!; [done|done|..];
    rewrite Hi, (represents_GetBlock_hashes _ _ _ _ R He) in E; by injection E as <-.
Qed.

Lemma tip_take genesis chain i e : chain !! i = Some e → tip genesis (take (S i) chain) = en_hash e.
Proof. intros He. unfold tip. by rewrite (take_S_r _ _ _ He), last_snoc. Qed.

Lemma rollbackBlocks_ok genesis chain n block n' :
  node_ok genesis chain n → rollbackBlocks n block = Some (Some n') →
  ∃ k, bh_Number (b_Header block) = (Z.of_nat k + 1)%Z ∧ k ≤ length chain ∧ node_ok genesis (take k chain) n'.
Proof.
  intros [R Hht Hh Hst Hse Hli]. unfold rollbackBlocks. cbv zeta. intros (old & Eo & E)%bind_Some. revert E.
  case_decide; [done|]. intros (lc & El & E)%bind_Some.
  destruct (GetBlock_inside _ _ _ _ R Eo) as (i & e & Hi & He & Eh & _).
  pose proof (lookup_lt_Some _ _ _ He) as Hlt. pose proof (rp_small _ _ R) as Hsm.
  rewrite Hi, u64_small in El by (unfold is_u64; lia).
  destruct (GetBlock_inside _ _ _ _ R El) as (j & e2 & Hj & He2 & Eh2 & Eb2). assert (i = S j) as -> by lia.
  rewrite Eh in E. change (bh_Number (b_Header (en_block e))) with (en_number e) in E. rewrite (rp_number _ _ R _ _ He) in E.
  rewrite u64_small, Z.add_simpl_r in E by (unfold is_u64; lia). apply bind_Some in E as ([ok n1] & Er & E).
  destruct ok; [|done]. injection E as <-. exists (S j). split_and!; [done|lia|].
  unfold Rollback in Er. apply bind_Some in Er as ([err state] & Es & Er). destruct err; [discriminate Er|].
  apply RollbackState_height in Es. destruct (rollback_represents chain (n_chain n) (S j) R) as (c' & Ec & R' & _); [lia|].
  cbn [n_chain] in Er. rewrite Ec in Er. injection Er as <-.
  assert (length (take (S j) chain) = S j) as Hlen by (rewrite length_take; lia).
  split; cbn [n_chain n_state currentHeight currentBlockHash].
  - done.
  - rewrite Hlen, Eh2. change (bh_Number (b_Header (en_block e2))) with (en_number e2). rewrite (rp_number _ _ R _ _ He2). lia.
  - cbn. by rewrite Eb2, (tip_take _ _ _ _ He2).
  - by rewrite Hlen.
  - by apply Forall_take.
  - by apply linked_take.
Qed.

(** C2: Executing a block keeps the node consistent: the heights of the state, of the chain and of the executor
agree, every block has the hash of its header, points to the one before it, and has one receipt for each of its
transactions. The block is either known already, or it is put on top of the blocks below its number, after the others
have been removed from both ledgers. *)
Theorem processExecuteEvent_ok genesis chain order n bw n' :
  node_ok genesis chain n → is_u64 (bh_Number (b_Header (bw_block bw))) →
  NoDup (GetHash <$> b_Transactions (bw_block bw)) →
  (∀ x, x ∈ GetHash <$> b_Transactions (bw_block bw) →
        x ∉ take (Z.to_nat (bh_Number (b_Header (bw_block bw)) - 1)) chain ≫= en_hashes) →
  (Z.of_nat (length chain) + 1 < 2 ^ 63)%Z →
  processExecuteEvent order n bw = Some n' →
  n' = n ∨ ∃ k e, bh_Number (b_Header (bw_block bw)) = (Z.of_nat k + 1)%Z ∧ k ≤ length chain ∧
    en_txs e = b_Transactions (bw_block bw) ∧ node_ok genesis (take k chain ++ [e]) n'.
Proof.
  intros Hok Hu Hnd Hfr Hsm. unfold Pipeline.processExecuteEvent. pose proof (nk_height _ _ _ Hok) as Hht.
  case_decide as Hn.
  - rewrite Hht, u64_small in Hn by (unfold is_u64; lia). rewrite Hn in Hfr. rewrite take_ge in Hfr by lia. intros E. right.
    destruct (executeNext_ok genesis chain order n bw n' Hok Hn Hnd Hfr Hsm E) as (e & Hok' & Het).
    exists (length chain), e. rewrite firstn_all. split_and!; done.
  - intros (r & Er & E)%bind_Some. destruct r as [n1|]; [|left; by injection E]. right.
    destruct (rollbackBlocks_ok _ _ _ _ _ Hok Er) as (k & Hk & Hle & Hok1).
    assert (length (take k chain) = k) as Hlen by (rewrite length_take; lia).
    rewrite Hk in Hfr. replace (Z.to_nat (Z.of_nat k + 1 - 1)) with k in Hfr by lia.
    destruct (executeNext_ok genesis (take k chain) order n1 bw n' Hok1) as (e & Hok' & Het);
      [by rewrite Hlen|done|done|rewrite Hlen; lia|done|]. exists k, e. split_and!; done.
Qed.
End hashes.
End node.
