(* ===== verification/Governance.v ===== *)
(** * Proposals and votes: [src/internal/executor/contracts/governance.go]

Changes of roles, chains, services, nodes, rules, applications, names and strategies are proposals
that the governance administrators vote on. The contract keeps each proposal under [proposal-<id>],
and the ids of the proposals of a sponsor, about an object, of a type and in a status in ordered
maps. A strategy decides when a vote is over; the result is carried out by the [Manage] method of
the contract that is responsible for the object, which is a parameter here: [RoleManager.v] and
[Strategy.v] have two of them. *)
From Stdlib Require Import Ascii.
From S2P Require Import Prelude Storage Account StateLedger Contract TransactionManager Role.

(** ** Data *)

Definition PROPOSED : string := "proposed".
Definition APPROVED : string := "approve".
Definition REJECTED : string := "reject".
Definition PAUSED : string := "pause".

Definition BallotApprove : string := "approve".
Definition BallotReject : string := "reject".

Definition NormalReason : string := "end of normal voting".
Definition ZeroPermissionReason : string := "zero permission reason".
Definition WithdrawnReason : string := "withdrawn by the proposal sponsor".
Definition PriorityReason : string := "forced shut down by a high-priority proposal".
Definition ElectorateReason : string := "not enough valid electorate".
Definition ClearReason : string := "the proposal was cleared".

(** [pb.Ballot] *)
Record Ballot := MkBallot {
  bl_VoterAddr : string; bl_Approve : string; bl_Num : Z; bl_Reason : string; bl_VoteTime : Z }.

Record Proposal := MkProposal {
  p_Id : string;
  p_Typ : string;
  p_Status : string;
  p_ObjId : string;
  p_ObjLastStatus : string;
  p_BallotMap : gmap string Ballot;
  p_ApproveNum : Z;
  p_AgainstNum : Z;
  p_ElectorateList : list Role;
  p_InitialElectorateNum : Z;
  p_AvailableElectorateNum : Z;
  p_ThresholdApproveNum : Z;
  p_EventType : string;
  p_EndReason : string;
  p_LockProposalId : string;
  p_IsSpecial : bool;
  p_IsSuperAdminVoted : bool;
  p_SubmitReason : string;
  p_WithdrawReason : string;
  p_StrategyType : string;
  p_StrategyExpression : string;
  p_CreateTime : Z;
  p_Extra : option string }.

Definition with_p_Status (p : Proposal) v :=
  MkProposal (p_Id p) (p_Typ p) v (p_ObjId p) (p_ObjLastStatus p) (p_BallotMap p) (p_ApproveNum p) (p_AgainstNum p)
    (p_ElectorateList p) (p_InitialElectorateNum p) (p_AvailableElectorateNum p) (p_ThresholdApproveNum p)
    (p_EventType p) (p_EndReason p) (p_LockProposalId p) (p_IsSpecial p) (p_IsSuperAdminVoted p) (p_SubmitReason p)
    (p_WithdrawReason p) (p_StrategyType p) (p_StrategyExpression p) (p_CreateTime p) (p_Extra p).
Definition with_p_EndReason (p : Proposal) v :=
  MkProposal (p_Id p) (p_Typ p) (p_Status p) (p_ObjId p) (p_ObjLastStatus p) (p_BallotMap p) (p_ApproveNum p) (p_AgainstNum p)
    (p_ElectorateList p) (p_InitialElectorateNum p) (p_AvailableElectorateNum p) (p_ThresholdApproveNum p)
    (p_EventType p) v (p_LockProposalId p) (p_IsSpecial p) (p_IsSuperAdminVoted p) (p_SubmitReason p)
    (p_WithdrawReason p) (p_StrategyType p) (p_StrategyExpression p) (p_CreateTime p) (p_Extra p).
Definition with_p_WithdrawReason (p : Proposal) v :=
  MkProposal (p_Id p) (p_Typ p) (p_Status p) (p_ObjId p) (p_ObjLastStatus p) (p_BallotMap p) (p_ApproveNum p) (p_AgainstNum p)
    (p_ElectorateList p) (p_InitialElectorateNum p) (p_AvailableElectorateNum p) (p_ThresholdApproveNum p)
    (p_EventType p) (p_EndReason p) (p_LockProposalId p) (p_IsSpecial p) (p_IsSuperAdminVoted p) (p_SubmitReason p)
    v (p_StrategyType p) (p_StrategyExpression p) (p_CreateTime p) (p_Extra p).
(** The fields that a vote changes. *)
Definition with_p_votes (p : Proposal) ballots approve against super :=
  MkProposal (p_Id p) (p_Typ p) (p_Status p) (p_ObjId p) (p_ObjLastStatus p) ballots approve against
    (p_ElectorateList p) (p_InitialElectorateNum p) (p_AvailableElectorateNum p) (p_ThresholdApproveNum p)
    (p_EventType p) (p_EndReason p) (p_LockProposalId p) (p_IsSpecial p) super (p_SubmitReason p)
    (p_WithdrawReason p) (p_StrategyType p) (p_StrategyExpression p) (p_CreateTime p) (p_Extra p).
(** The numbers of the electorate and of the approvals that are needed. *)
Definition with_p_nums (p : Proposal) available threshold :=
  MkProposal (p_Id p) (p_Typ p) (p_Status p) (p_ObjId p) (p_ObjLastStatus p) (p_BallotMap p) (p_ApproveNum p) (p_AgainstNum p)
    (p_ElectorateList p) (p_InitialElectorateNum p) available threshold
    (p_EventType p) (p_EndReason p) (p_LockProposalId p) (p_IsSpecial p) (p_IsSuperAdminVoted p) (p_SubmitReason p)
    (p_WithdrawReason p) (p_StrategyType p) (p_StrategyExpression p) (p_CreateTime p) (p_Extra p).

(** The text of a proposal that JSON has to keep. *)
Definition Proposal_text (p : Proposal) : list string :=
  [p_Id p; p_Typ p; p_Status p; p_ObjId p; p_ObjLastStatus p; p_EventType p; p_EndReason p; p_LockProposalId p;
   p_SubmitReason p; p_WithdrawReason p; p_StrategyType p; p_StrategyExpression p] ++
  (p_ElectorateList p ≫= Role_text) ++
  (map_to_list (p_BallotMap p) ≫= λ '(k, b), [k; bl_VoterAddr b; bl_Approve b; bl_Reason b]).

Record ProposalStrategy := MkStrategy { ps_Module : string; ps_Typ : string; ps_Extra : string; ps_Status : string }.

Definition Strategy_text (s : ProposalStrategy) : list string := [ps_Module s; ps_Typ s; ps_Extra s; ps_Status s].

(** [governance.GovernanceResult] *)
Record GovernanceResult := MkGovernanceResult { gr_ProposalID : string; gr_Extra : option string }.

Class ProposalJsonLib := {
  proposal_codec :: JsonCodec Proposal Proposal_text;
  proposals_codec :: JsonCodec (list Proposal) (λ l, l ≫= Proposal_text);
  strategy_codec :: JsonCodec ProposalStrategy Strategy_text;
  ballot_encoding :: Encoding Ballot;
  ballots_encoding :: Encoding (gmap string Ballot);
  result_codec :: JsonCodec GovernanceResult (λ r, [gr_ProposalID r]);
  gov_audit_codec :: JsonCodec AuditRelatedObjInfo (λ a, au_RelatedChainIDList a ++ au_RelatedNodeIDList a ++ [au_AuditObj a]);
  Event_AUDIT_PROPOSAL : Z
}.

(** ** Keys *)

Definition ProposalKey (id : string) : string := "proposal-" +:+ id.
Definition ProposalFromKey (id : string) : string := "from-" +:+ id.
Definition ProposalObjKey (id : string) : string := "obj-" +:+ id.
Definition ProposalTypKey (typ : string) : string := "type-" +:+ typ.
Definition ProposalStatusKey (status : string) : string := "status-" +:+ status.
Definition ProposalStrategyKey (ps : string) : string := "strategy-" +:+ ps.

Definition checkProposalStatus (ps : string) : bool := bool_decide (ps ∈ [PROPOSED; APPROVED; REJECTED; PAUSED]).

Section constants.
Context `{GovernanceLib}.

(** An event that is not in the table has priority 0. *)
Definition priority (event : string) : Z :=
  if decide (event = EventRegister) then 1
  else if decide (event = EventUpdate) then 2
  else if decide (event = EventFreeze) then 2
  else if decide (event = EventActivate) then 1
  else if decide (event = EventBind) then 1
  else if decide (event = EventUnbind) then 1
  else if decide (event = EventLogout) then 3
  else if decide (event = EventPause) then 3
  else if decide (event = EventUnpause) then 1
  else if decide (event = EventCLear) then 3
  else 0.

Definition SpecialProposalEventType : list string := [EventFreeze; EventActivate; EventLogout].
Definition SpecialProposalProposalType : list string := [RoleMgr; ProposalStrategyMgr].

Definition isSpecialProposal (typ eventType : string) : bool :=
  bool_decide (typ ∈ SpecialProposalProposalType) || bool_decide (eventType ∈ SpecialProposalEventType).

Definition defaultStrategy (module : string) : ProposalStrategy :=
  MkStrategy module SimpleMajority DefaultSimpleMajorityExpression GovernanceAvailable.
End constants.

(** ** The contract *)

Section contract.
Context `{GovernanceLib, GovJsonLib, ProposalJsonLib, EvalLib, ConstantLib, !GovAddrLib, GoRange}.

(** The contract at an address carries out the result of a proposal: the event of the proposal, the event
that follows, the status of the object before, its id, and the data of the proposal. *)
Context (Manage : string → string → string → string → string → option string → Context → prog Response).

(** [GetProposalStrategy] of the strategy contract. *)
Definition GetProposalStrategy (ctx : Context) (pt : string) : prog Response :=
  if negb (CheckManageModule pt) then mret (Error "ProposalStrategyIllegalProposalTypeCode" [pt])
  else
    ps ← GetObject (A := ProposalStrategy) ctx (ProposalStrategyKey pt);
    mret match marshal (default (defaultStrategy pt) ps) with
         | None => Error "ProposalStrategyInternalErrCode" []
         | Some pData => Success (Some pData)
         end.

Context (ctx : Context).

(** *** Storing proposals *)

(** The id is entered in the ordered map at [key]. *)
Definition addId (key id : string) : prog () :=
  proMap ← GetObject (A := OrderedMap) ctx key;
  SetObject ctx key (om_Set (default om_New proMap) id).

Definition addProposal (p : Proposal) : prog () :=
  _ ← AddObject ctx (ProposalKey (p_Id p)) p;
  let from := default EmptyString (head (str_split dash (p_Id p))) in
  _ ← addId (ProposalFromKey from) (p_Id p);
  _ ← addId (ProposalObjKey (p_ObjId p)) (p_Id p);
  _ ← addId (ProposalTypKey (p_Typ p)) (p_Id p);
  addId (ProposalStatusKey (p_Status p)) (p_Id p).

(** Returns the proposal with its new status. *)
Definition changeProposalStatus (p : Proposal) (newStatus : string) : prog Proposal :=
  lastStatusMap ← GetObject (A := OrderedMap) ctx (ProposalStatusKey (p_Status p));
  _ ← SetObject ctx (ProposalStatusKey (p_Status p)) (om_Delete (default om_New lastStatusMap) (p_Id p));
  _ ← addId (ProposalStatusKey newStatus) (p_Id p);
  let p := with_p_Status p newStatus in
  _ ← SetObject ctx (ProposalKey (p_Id p)) p;
  mret p.

(** The proposals with the ids, in their order; [None] is the error for an id without a proposal. *)
Fixpoint proposalsOf (ids : list string) : prog (option (list Proposal)) :=
  match ids with
  | [] => mret (Some [])
  | id :: ids =>
      p ← GetObject (A := Proposal) ctx (ProposalKey id);
      match p with
      | None => mret None
      | Some p => ps ← proposalsOf ids; mret (cons p <$> ps)
      end
  end.

Definition proposalsAt (key : string) : prog (option (list Proposal)) :=
  idMap ← GetObject (A := OrderedMap) ctx key;
  match idMap with
  | None => mret (Some [])
  | Some idMap => proposalsOf (om_Keys idMap)
  end.

Definition getProposalsByObjId (objId : string) : prog (option (list Proposal)) := proposalsAt (ProposalObjKey objId).
Definition getProposalsByFrom (from : string) : prog (option (list Proposal)) := proposalsAt (ProposalFromKey from).
Definition getProposalsByType (typ : string) : prog (option (list Proposal)) := proposalsAt (ProposalTypKey typ).
Definition getProposalsByStatus (status : string) : prog (option (list Proposal)) := proposalsAt (ProposalStatusKey status).

Definition getProposalsByObjStatus (objID status : string) : prog (option (list Proposal)) :=
  proposals ← getProposalsByObjId objID;
  mret (ps ← (proposals : option (list Proposal)); Some (filter (λ p, p_Status p = status) ps)).

(** [None] is an error, the inner [None] no proposal. *)
Definition getHightestPriorityPausedProposalByObjId (objID : string) : prog (option (option Proposal)) :=
  pauseProposals ← getProposalsByObjStatus objID PAUSED;
  mret match pauseProposals with
       | None => None
       | Some [] => Some None
       | Some (p :: ps) =>
           Some (Some (foldl (λ retP p, if decide (priority (p_EventType retP) < priority (p_EventType p))%Z then p else retP) p ps))
       end.

(** [None] is the error. *)
Definition postAuditProposalEvent (proposalID : string) : prog (option ()) :=
  data ← Get ctx (ProposalKey proposalID);
  match data with
  | None => mret None
  | Some proposalData =>
      match unmarshal proposalData with
      | None => mret None
      | Some proposal =>
          let chain := default EmptyString (head (str_split colon (p_ObjId proposal))) in
          let auditInfo :=
            if decide (p_Typ proposal = AppchainMgr) then MkAudit proposalData [p_ObjId proposal] []
            else if decide (p_Typ proposal = RuleMgr) then MkAudit proposalData [chain] []
            else if decide (p_Typ proposal = ServiceMgr) then MkAudit proposalData [chain] []
            else if decide (p_Typ proposal = NodeMgr) then MkAudit proposalData [] [p_ObjId proposal]
            else MkAudit proposalData [] [] in
          _ ← postEvent ctx Event_AUDIT_PROPOSAL auditInfo;
          mret (Some tt)
      end
  end.

(** The event when audit is enabled, then the answer. *)
Definition audited (id : string) (res : Response) : prog Response :=
  if ctx_EnableAudit ctx
  then ok ← postAuditProposalEvent id;
       mret match ok with Some _ => res | None => Error "GovernanceInternalErrCode" [id] end
  else mret res.

(** *** Results of proposals *)

Definition manageObj (proposalTyp eventType nextEventType objLastStatus objId : string) (extra : option string) :
    prog (option ()) :=
  let address :=
    if decide (proposalTyp = RoleMgr) then RoleContractAddr
    else if decide (proposalTyp = ServiceMgr) then ServiceMgrContractAddr
    else if decide (proposalTyp = NodeMgr) then NodeManagerContractAddr
    else if decide (proposalTyp = RuleMgr) then RuleManagerContractAddr
    else if decide (proposalTyp = DappMgr) then DappMgrContractAddr
    else if decide (proposalTyp = ProposalStrategyMgr) then ProposalStrategyMgrContractAddr
    else if decide (proposalTyp = BnsMgr) then ServiceRegistryContractAddr
    else AppchainMgrContractAddr in
  res ← CrossInvoke ctx address (Manage address eventType nextEventType objLastStatus objId extra);
  mret (if resp_Ok res then Some tt else None).

(** The event that follows; [None] is the error. *)
Definition unlockLowPriorityProposal (lockedProposalId : string) (restore : bool) (notRestoreReason : string) :
    prog (option string) :=
  lockP ← GetObject (A := Proposal) ctx (ProposalKey lockedProposalId);
  match lockP with
  | None => mret None
  | Some lockP =>
      if negb restore
      then _ ← changeProposalStatus (with_p_EndReason lockP notRestoreReason) REJECTED; mret (Some EmptyString)
      else _ ← changeProposalStatus lockP PROPOSED; mret (Some (p_EventType lockP))
  end.

Definition handleResult (p : Proposal) : prog (option ()) :=
  nextEventType ←
    (if decide (p_LockProposalId p ≠ EmptyString)
     then
       if decide (p_Status p = APPROVED)
       then ok ← unlockLowPriorityProposal (p_LockProposalId p) false (PriorityReason +:+ "(" +:+ p_Id p +:+ ")");
            mret ((λ _, p_Status p) <$> ok)
       else unlockLowPriorityProposal (p_LockProposalId p) true EmptyString
     else mret (Some (p_Status p)));
  match nextEventType with
  | None => mret None
  | Some nextEventType =>
      manageObj (p_Typ p) (p_EventType p) nextEventType (p_ObjLastStatus p) (p_ObjId p) (p_Extra p)
  end.

(** *** Submitting *)

(** The available administrators; [None] is an error. *)
Definition getElectorate : prog (option (list Role)) :=
  res ← CrossInvoke ctx RoleContractAddr (λ ctx, GetRolesByType ctx GovernanceAdmin);
  mret match res with
       | Error _ _ => None
       | Success data => admins ← data ≫= unmarshal; Some (filter IsAvailable (admins : list Role))
       end.

(** Expression, type and threshold of the strategy of a module. *)
Definition getStrategyInfo (module : string) (electorateNum : Z) : prog (option (string * string * Z)) :=
  if negb (CheckManageModule module) then mret None
  else
    res ← CrossInvoke ctx ProposalStrategyMgrContractAddr (λ ctx, GetProposalStrategy ctx module);
    let ps := match res with
              | Error _ _ => Some (defaultStrategy module)
              | Success data => data ≫= unmarshal
              end in
    match ps with
    | None => mret None
    | Some ps =>
        if decide (ps_Typ ps = ZeroPermissionStrategy) then mret (Some (ps_Extra ps, ps_Typ ps, 0%Z))
        else
          threshold ← getCurThresholdApproveNum (ps_Extra ps) 0 0 electorateNum electorateNum;
          mret match threshold with None => None | Some n => Some (ps_Extra ps, ps_Typ ps, n) end
    end.

(** The loop of [lockLowPriorityProposal]: the first proposal in the list that is proposed and has a lower
priority is paused. *)
Fixpoint lockFirst (eventTyp : string) (proposals : list Proposal) : prog (option string) :=
  match proposals with
  | [] => mret (Some EmptyString)
  | p :: ps =>
      if decide (p_Status p = PROPOSED ∧ (priority (p_EventType p) < priority eventTyp)%Z)
      then
        _ ← changeProposalStatus p PAUSED;
        if ctx_EnableAudit ctx
        then ok ← postAuditProposalEvent (p_Id p); mret ((λ _, p_Id p) <$> ok)
        else mret (Some (p_Id p))
      else lockFirst eventTyp ps
  end.

(** The id of the proposal that was locked, empty if there is none; [None] is an error. *)
Definition lockLowPriorityProposal (objId eventTyp : string) : prog (option string) :=
  proposals ← getProposalsByObjId objId;
  match proposals with
  | None => mret None
  | Some proposals => lockFirst eventTyp proposals
  end.

Definition internalErr : Response := Error "GovernanceInternalErrCode" [].

Definition SubmitProposal (from eventTyp typ objId objLastStatus reason : string) (extra : option string) : prog Response :=
  denied ← checkSpecific ctx "GovernanceInternalErrCode" "GovernanceNoPermissionCode"
    [AppchainMgrContractAddr; RuleManagerContractAddr; NodeManagerContractAddr; RoleContractAddr; DappMgrContractAddr;
     ServiceMgrContractAddr; GovernanceContractAddr; ProposalStrategyMgrContractAddr; ServiceRegistryContractAddr];
  match denied with Some res => mret res | None =>
  ret ← getProposalsByFrom from;
  match ret with None => mret internalErr | Some ret =>
  electorateList ← getElectorate;
  match electorateList with None => mret internalErr | Some electorateList =>
  let electorateNum := Z.of_nat (length electorateList) in
  info ← getStrategyInfo typ electorateNum;
  match info with None => mret internalErr | Some (expression, strategyTyp, thresholdApproveNum) =>
  lockPId ← lockLowPriorityProposal objId eventTyp;
  match lockPId with None => mret internalErr | Some lockPId =>
  let p := MkProposal (from +:+ "-" +:+ fmt_d (Z.of_nat (length ret))) typ PROPOSED objId objLastStatus ∅ 0 0 electorateList
             electorateNum electorateNum thresholdApproveNum eventTyp EmptyString lockPId
             (isSpecialProposal typ eventTyp) false reason EmptyString strategyTyp expression (ctx_TxTimeStamp ctx) extra in
  _ ← addProposal p;
  audited (p_Id p) (Success (Some (p_Id p)))
  end end end end end.

Definition nonexistent (id : string) : Response := Error "GovernanceNonexistentProposalCode" [id].

Definition ZeroPermission (id : string) : prog Response :=
  p ← GetObject (A := Proposal) ctx (ProposalKey id);
  match p with
  | None => mret (nonexistent id)
  | Some p =>
      if decide (p_StrategyType p = ZeroPermissionStrategy)
      then
        p ← changeProposalStatus (with_p_EndReason p ZeroPermissionReason) APPROVED;
        ok ← handleResult p;
        match ok with
        | None => mret internalErr
        | Some _ => audited (p_Id p) (Success None)
        end
      else mret (Success None)
  end.

(** *** Ending *)

Definition endProposal (id endReason : string) (extra : option string) : prog (result Proposal) :=
  p ← GetObject (A := Proposal) ctx (ProposalKey id);
  match p with
  | None => mret (inr (MkBxhError "GovernanceNonexistentProposalCode" [id]))
  | Some p =>
      if decide (p_Status p = APPROVED ∨ p_Status p = REJECTED)
      then mret (inr (MkBxhError "GovernanceEndEndedProposalCode" [id; p_Status p]))
      else
        let p := with_p_EndReason p endReason in
        let p := if decide (endReason = WithdrawnReason)
                 then with_p_WithdrawReason p (default EmptyString extra) else p in
        p ← changeProposalStatus p REJECTED;
        mret (inl p)
  end.

(** The part of an id before the first dash; an id without a dash panics. *)
Definition sponsor (id : string) : option string :=
  match str_split dash id with
  | from :: _ :: _ => Some from
  | _ => None
  end.

Definition WithdrawProposal (id reason : string) : prog Response :=
  match sponsor id with
  | None => Panic
  | Some from =>
      ok ← checkPermission ctx [PermissionSelf] from (ctx_CurrentCaller ctx) None;
      if negb ok then mret (Error "GovernanceNoPermissionCode" [ctx_CurrentCaller ctx])
      else
        r ← endProposal id WithdrawnReason (Some reason);
        match r with
        | inr berr => mret (Error (be_Code berr) (be_Args berr))
        | inl p =>
            ok ← handleResult p;
            match ok with
            | None => mret internalErr
            | Some _ => audited id (Success None)
            end
        end
  end.

(** The loop of [EndObjProposal]; [Some] is the error that it returns. *)
Fixpoint endAll (endReason : string) (extra : option string) (proposals : list Proposal) : prog (option Response) :=
  match proposals with
  | [] => mret None
  | p :: ps =>
      if decide (p_Status p = PAUSED ∨ p_Status p = PROPOSED)
      then
        r ← endProposal (p_Id p) endReason extra;
        match r with
        | inr berr => mret (Some (Error (be_Code berr) (be_Args berr)))
        | inl _ =>
            res ← audited (p_Id p) (Success None);
            if resp_Ok res then endAll endReason extra ps else mret (Some res)
        end
      else endAll endReason extra ps
  end.

Definition EndObjProposal (objId endReason : string) (extra : option string) : prog Response :=
  denied ← checkSpecific ctx "GovernanceInternalErrCode" "GovernanceNoPermissionCode"
    [RuleManagerContractAddr; RoleContractAddr; ServiceMgrContractAddr];
  match denied with Some res => mret res | None =>
  proposals ← getProposalsByObjId objId;
  match proposals with None => mret internalErr | Some proposals =>
  err ← endAll endReason extra proposals;
  mret (default (Success None) err)
  end end.

(** *** Voting *)

(** The proposal with the ballot of [e] and the threshold that follows from it. *)
Definition castVote (p : Proposal) (e : Role) (addr approve reason : string) : prog (Response * Proposal) :=
  if decide (is_Some (p_BallotMap p !! addr)) then mret (Error "GovernanceAdminRepeatVoteCode" [addr], p)
  else
    let ballot := MkBallot addr approve (rl_Weight e) reason (ctx_TxTimeStamp ctx) in
    let super := if decide (SuperAdminWeight = rl_Weight e) then true else p_IsSuperAdminVoted p in
    let ballots := <[addr := ballot]> (p_BallotMap p) in
    let counted := if decide (approve = BallotApprove) then Some (p_ApproveNum p +u 1, p_AgainstNum p)
                   else if decide (approve = BallotReject) then Some (p_ApproveNum p, p_AgainstNum p +u 1)
                   else None in
    match counted with
    | None => mret (Error "GovernanceIllegalVoteInfoCode" [approve], p)
    | Some (approveNum, againstNum) =>
        let p := with_p_votes p ballots approveNum againstNum super in
        threshold ← getCurThresholdApproveNum (p_StrategyExpression p) (p_ApproveNum p) (p_AgainstNum p)
                      (p_InitialElectorateNum p) (p_AvailableElectorateNum p);
        match threshold with
        | None => mret (internalErr, p)
        | Some threshold =>
            let p := with_p_nums p (p_AvailableElectorateNum p) threshold in
            _ ← SetObject ctx (ProposalKey (p_Id p)) p;
            mret (Success None, p)
        end
    end.

(** The answer, and the proposal as it is afterwards. *)
Definition setVote (p : Proposal) (addr approve reason : string) : prog (Response * Proposal) :=
  if decide (p_Status p ≠ PROPOSED) then mret (Error "GovernanceVoteEndProposalCode" [p_Status p], p)
  else
    match list_find (λ e, addr = rl_ID e) (p_ElectorateList p) with
    | None => mret (Error "GovernanceAdminNoVotePermissonCode" [addr; p_Id p], p)
    | Some (_, e) => castVote p e addr approve reason
    end.

(** The vote is over: the new status of the proposal. *)
Definition closeProposal (p : Proposal) (endReason : string) (isApprove : bool) : prog Proposal :=
  changeProposalStatus (with_p_EndReason p endReason) (if isApprove then APPROVED else REJECTED).

(** [None] is an error; the boolean tells whether the vote is over. *)
Definition countVote (p : Proposal) : prog (option (bool * Proposal)) :=
  if p_IsSpecial p && negb (p_IsSuperAdminVoted p) then mret (Some (false, p))
  else
    decision ← MakeStrategyDecision (p_StrategyExpression p) (p_ApproveNum p) (p_AgainstNum p)
                 (p_InitialElectorateNum p) (p_AvailableElectorateNum p);
    match decision with
    | None => mret None
    | Some (false, _) => mret (Some (false, p))
    | Some (true, isApprove) => p ← closeProposal p NormalReason isApprove; mret (Some (true, p))
    end.

Definition Vote (id approve reason : string) : prog Response :=
  let addr := ctx_Caller ctx in
  res ← CrossInvoke ctx RoleContractAddr (λ ctx, IsAnyAvailableAdmin ctx addr GovernanceAdmin);
  match res with
  | Error _ _ => mret internalErr
  | Success data =>
      if decide (data ≠ Some TRUE) then mret (Error "GovernanceUnavailableAdminVoteCode" [addr])
      else
        p ← GetObject (A := Proposal) ctx (ProposalKey id);
        match p with
        | None => mret (nonexistent id)
        | Some p =>
            '(res, p) ← setVote p addr approve reason;
            if negb (resp_Ok res) then mret res
            else
              counted ← countVote p;
              match counted with
              | None => mret internalErr
              | Some (false, _) => audited id (Success None)
              | Some (true, p) =>
                  ok ← handleResult p;
                  match ok with
                  | None => mret internalErr
                  | Some _ => audited id (Success None)
                  end
              end
        end
  end.

(** *** Priorities *)

Definition lockers : list string := [ServiceMgrContractAddr; RoleContractAddr; RuleManagerContractAddr].

Definition LockLowPriorityProposal (objId eventTyp : string) : prog Response :=
  denied ← checkSpecific ctx "GovernanceInternalErrCode" "GovernanceNoPermissionCode" lockers;
  match denied with Some res => mret res | None =>
  locked ← lockLowPriorityProposal objId eventTyp;
  mret match locked with None => internalErr | Some lockedProId => Success (Some lockedProId) end
  end.

Definition UnLockLowPriorityProposal (objId eventTyp : string) : prog Response :=
  denied ← checkSpecific ctx "GovernanceInternalErrCode" "GovernanceNoPermissionCode" lockers;
  match denied with Some res => mret res | None =>
  locked ← getHightestPriorityPausedProposalByObjId objId;
  match locked with
  | None => mret internalErr
  | Some None => mret (Success None)
  | Some (Some lockedProposal) =>
      nextEventType ← unlockLowPriorityProposal (p_Id lockedProposal) true EmptyString;
      match nextEventType with
      | None => mret internalErr
      | Some nextEventType =>
          ok ← manageObj (p_Typ lockedProposal) eventTyp nextEventType EmptyString (p_ObjId lockedProposal) None;
          match ok with
          | None => mret internalErr
          | Some _ => audited (p_Id lockedProposal) (Success None)
          end
      end
  end end.

(** *** The electorate *)

Definition UpdateAvailableElectorateNum (id : string) (num : Z) : prog Response :=
  denied ← checkSpecific ctx "GovernanceInternalErrCode" "GovernanceNoPermissionCode" [RoleContractAddr];
  match denied with Some res => mret res | None =>
  p ← GetObject (A := Proposal) ctx (ProposalKey id);
  match p with None => mret (nonexistent id) | Some p =>
  let done := Success (Some (fmt_d (i64 num))) in
  if decide (p_StrategyType p = ZeroPermissionStrategy) then mret done
  else
    threshold ← getCurThresholdApproveNum (p_StrategyExpression p) (p_ApproveNum p) (p_AgainstNum p)
                  (p_InitialElectorateNum p) num;
    match threshold with None => mret internalErr | Some threshold =>
    let p := with_p_nums p num threshold in
    decision ← MakeStrategyDecision (p_StrategyExpression p) (p_ApproveNum p) (p_AgainstNum p)
                 (p_InitialElectorateNum p) (p_AvailableElectorateNum p);
    match decision with
    | None => mret internalErr
    | Some (true, isApprove) =>
        p ← closeProposal p ElectorateReason isApprove;
        ok ← handleResult p;
        match ok with
        | None => mret internalErr
        | Some _ => audited id done
        end
    | Some (false, _) =>
        _ ← SetObject ctx (ProposalKey (p_Id p)) p;
        audited id done
    end end
  end end.

(** *** Queries *)

(** The method on the proposal with the id. *)
Definition withProposal (id : string) (f : Proposal → prog Response) : prog Response :=
  p ← GetObject (A := Proposal) ctx (ProposalKey id);
  match p with None => mret (nonexistent id) | Some p => f p end.

(** The JSON of a value. *)
Definition answer {A} `{Encoding A} (v : A) : Response :=
  match marshal v with None => internalErr | Some data => Success (Some data) end.

Definition answerAll (proposals : option (list Proposal)) : Response :=
  match proposals with None => internalErr | Some ps => answer ps end.

Definition GetBallot (voterAddr proposalId : string) : prog Response :=
  withProposal proposalId (λ p,
    mret match p_BallotMap p !! voterAddr with
         | None => Error "GovernanceNotVoteAdminCode" [voterAddr]
         | Some ballot => answer ballot
         end).

Definition GetProposal (id : string) : prog Response := withProposal id (λ p, mret (answer p)).

Definition GetProposalsByObjId (objId : string) : prog Response := ps ← getProposalsByObjId objId; mret (answerAll ps).
Definition GetProposalsByFrom (from : string) : prog Response := ps ← getProposalsByFrom from; mret (answerAll ps).

Definition GetProposalsByTyp (typ : string) : prog Response :=
  if negb (CheckManageModule typ) then mret (Error "GovernanceIllegalProposalTypeCode" [typ])
  else ps ← getProposalsByType typ; mret (answerAll ps).

Definition GetProposalsByStatus (status : string) : prog Response :=
  if negb (checkProposalStatus status) then mret (Error "GovernanceIllegalProposalStatusCode" [status])
  else ps ← getProposalsByStatus status; mret (answerAll ps).

Definition GetNotClosedProposals : prog Response :=
  ret ← getProposalsByStatus PROPOSED;
  match ret with None => mret internalErr | Some ret =>
  ret2 ← getProposalsByStatus PAUSED;
  mret match ret2 with None => internalErr | Some ret2 => answer (ret ++ ret2) end
  end.

Definition ballotsOf (approve : string) (p : Proposal) : gmap string Ballot :=
  filter (λ '(_, b), bl_Approve b = approve) (p_BallotMap p).

Definition GetApprove (id : string) : prog Response := withProposal id (λ p, mret (answer (ballotsOf BallotApprove p))).
Definition GetAgainst (id : string) : prog Response := withProposal id (λ p, mret (answer (ballotsOf BallotReject p))).
Definition GetVoted (id : string) : prog Response := withProposal id (λ p, mret (answer (p_BallotMap p))).

Definition number (n : Z) : Response := Success (Some (fmt_d (i64 n))).

Definition GetApproveNum (id : string) : prog Response := withProposal id (λ p, mret (number (p_ApproveNum p))).
Definition GetAgainstNum (id : string) : prog Response := withProposal id (λ p, mret (number (p_AgainstNum p))).
Definition GetPrimaryElectorateNum (id : string) : prog Response :=
  withProposal id (λ p, mret (number (p_InitialElectorateNum p))).
Definition GetAvailableElectorateNum (id : string) : prog Response :=
  withProposal id (λ p, mret (number (p_AvailableElectorateNum p))).
Definition GetVotedNum (id : string) : prog Response :=
  withProposal id (λ p, mret (number (Z.of_nat (size (p_BallotMap p))))).

Definition getGovernanceRet (proposalID : string) (extra : option string) : Response :=
  answer (MkGovernanceResult proposalID extra).
End contract.
