(* ===== verification/GovernanceProps.v ===== *)
(** * Lemmas about governance

The strategies as functions of the number of votes, and the state of the governance contract: what
it stores, the steps that change it, and the invariant that they keep. *)
From Stdlib Require Import Ascii.
From S2P Require Import Prelude Storage Account StateLedger Contract TransactionManager Role Governance.

Lemma size_list_to_set_le (l : list string) : size (list_to_set (C := gset string) l) ≤ length l.
Proof.
  induction l as [|x l IH]; [done|]. cbn [list_to_set length]. rewrite size_union_alt, size_singleton.
  pose proof (subseteq_size (list_to_set l ∖ {[x]}) (list_to_set (C := gset string) l)) as Hs.
  assert (size (list_to_set l ∖ {[x]} : gset string) ≤ size (list_to_set (C := gset string) l)); [apply Hs; set_solver|lia].
Qed.

(** ** Strategies *)

Section strategy_facts.
Context `{EvalLib}.
Implicit Types (e : string) (a r t av : Z).

(** The expression gives a boolean whatever the votes are. *)
Definition decides e t : Prop := ∀ a r, ∃ b, Evaluate e a r t = Some (Some b).

Definition passes e a r t : Prop := Evaluate e a r t = Some (Some true).

(** More approvals and fewer rejections help. *)
Definition monotone e t : Prop :=
  ∀ a a' r r', (a ≤ a')%Z → (r' ≤ r)%Z → passes e a r t → passes e a' r' t.

Lemma decision_true e a r t av :
  passes e a r t → MakeStrategyDecision e a r t av = mret (Some (true, true)).
Proof. unfold passes, MakeStrategyDecision. by intros ->. Qed.

(** The decision on an expression that always gives a boolean. *)
Lemma decision_cases e a r t av :
  decides e t →
  (passes e a r t ∧ MakeStrategyDecision e a r t av = mret (Some (true, true))) ∨
  (¬ passes e a r t ∧ passes e (u64 (av - r)) r t ∧ MakeStrategyDecision e a r t av = mret (Some (false, false))) ∨
  (¬ passes e a r t ∧ ¬ passes e (u64 (av - r)) r t ∧ MakeStrategyDecision e a r t av = mret (Some (true, false))).
Proof.
  intros Hd. unfold passes, MakeStrategyDecision. destruct (Hd a r) as [[] ->]; [by left|right].
  destruct (Hd (u64 (av - r)) r) as [[] ->]; [left|right]; by split_and!.
Qed.

Lemma decision_not e a r t av :
  decides e t → ¬ passes e a r t → ∃ b, MakeStrategyDecision e a r t av = mret (Some (b, false)).
Proof. intros Hd Hp. destruct (decision_cases e a r t av Hd) as [[? _]|[(_ & _ & ->)|(_ & _ & ->)]]; [done|eauto..]. Qed.

Lemma threshold_loop_spec e r t av n cur :
  decides e t → (0 ≤ cur)%Z → (t < 2 ^ 64 - 1)%Z → n = S (Z.to_nat (t + 1 - cur)) →
  ∃ res, threshold_loop n e cur r t av = mret res ∧
    match res with
    | Some m => (cur ≤ m ≤ t)%Z ∧ passes e m r t ∧ ∀ a, (cur ≤ a < m)%Z → ¬ passes e a r t
    | None => ∀ a, (cur ≤ a ≤ t)%Z → ¬ passes e a r t
    end.
Proof.
  intros Hd. revert cur. induction n as [|n IH]; intros cur Hcur Ht Hn; [done|]. cbn [threshold_loop].
  case_decide as Hlt; [exists None; split; [done|]; lia|]. destruct (Hd cur r) as [[] Hp].
  - rewrite (decision_true _ _ _ _ _ Hp). exists (Some cur). split; [done|]. split_and!; [lia|lia|done|lia].
  - assert (¬ passes e cur r t) as Hnp by (unfold passes; congruence).
    destruct (decision_not e cur r t av Hd Hnp) as [b ->]. cbn. simp_u64.
    destruct (IH (cur + 1)%Z) as (res & -> & Hres); [lia..|]. exists res. split; [done|]. destruct res as [m|].
    + destruct Hres as (? & ? & Hmin). split_and!; [lia|lia|done|]. intros a Ha.
      destruct (decide (a = cur)) as [->|]; [done|]. apply Hmin. lia.
    + intros a Ha. destruct (decide (a = cur)) as [->|]; [done|]. apply Hres. lia.
Qed.
End strategy_facts.

(** ** The state of the contract *)

Section state.
Context `{GovernanceLib, GovJsonLib, ProposalJsonLib, EvalLib, ConstantLib, !GovAddrLib, GoRange}.
Implicit Types (w : world) (p : Proposal) (id k : string).

Definition gov_get w k : option string := w_state w GovernanceContractAddr k.
Definition gov_prop w id : option Proposal := d ← gov_get w (ProposalKey id); unmarshal d.
Definition gov_ids w k : list string := om_Keys (default om_New (d ← gov_get w k; unmarshal d)).

Definition sponsor_of id : string := default EmptyString (head (str_split dash id)).

(** The keys do not meet. *)
Lemma ProposalKey_inj a b : ProposalKey a = ProposalKey b → a = b.
Proof. by intros [=]. Qed.

Definition statuses : list string := [PROPOSED; APPROVED; REJECTED; PAUSED].

(** A stored proposal: the votes are those of members of the electorate, each of them has one, and
they are counted. *)
Record proposal_ok id p : Prop := {
  po_id : p_Id p = id;
  po_status : p_Status p ∈ statuses;
  po_ballots v b : p_BallotMap p !! v = Some b →
    bl_VoterAddr b = v ∧ bl_Approve b ∈ [BallotApprove; BallotReject] ∧ v ∈ rl_ID <$> p_ElectorateList p;
  po_approve : p_ApproveNum p = Z.of_nat (size (ballotsOf BallotApprove p));
  po_against : p_AgainstNum p = Z.of_nat (size (ballotsOf BallotReject p));
  po_initial : p_InitialElectorateNum p = Z.of_nat (length (p_ElectorateList p));
  po_few : (p_InitialElectorateNum p < 2 ^ 63)%Z;
  po_super : p_IsSuperAdminVoted p = true → ∃ v b, p_BallotMap p !! v = Some b ∧ bl_Num b = SuperAdminWeight;
  po_ascii : Forall is_ascii (Proposal_text p) }.

(** The ordered maps [I] list the proposals [P]. *)
Record gov_ok (P : string → option Proposal) (I : string → list string) : Prop := {
  gi_prop id p : P id = Some p → proposal_ok id p;
  gi_status s id : id ∈ I (ProposalStatusKey s) ↔ ∃ p, P id = Some p ∧ p_Status p = s;
  gi_obj o id : id ∈ I (ProposalObjKey o) ↔ ∃ p, P id = Some p ∧ p_ObjId p = o;
  gi_typ t id : id ∈ I (ProposalTypKey t) ↔ ∃ p, P id = Some p ∧ p_Typ p = t;
  gi_from f id : id ∈ I (ProposalFromKey f) ↔ is_Some (P id) ∧ sponsor_of id = f;
  (** the ids of a sponsor are numbered *)
  gi_numbers f : I (ProposalFromKey f) =
    (λ i, f +:+ "-" +:+ fmt_d (Z.of_nat i)) <$> seq 0 (length (I (ProposalFromKey f))) }.

Definition gov_inv w : Prop := gov_ok (gov_prop w) (gov_ids w).

(** ** Changes of a proposal *)

(** What happens to a stored proposal, its status aside. *)
Inductive proposal_step p : Proposal → Prop :=
| pt_refl : proposal_step p p
| pt_reason r : is_ascii r → proposal_step p (with_p_EndReason p r)
| pt_withdraw r : is_ascii r → proposal_step p (with_p_WithdrawReason p r)
| pt_nums available threshold : proposal_step p (with_p_nums p available threshold)
| pt_vote e approve against b super :
    e ∈ p_ElectorateList p → p_BallotMap p !! rl_ID e = None →
    bl_VoterAddr b = rl_ID e → bl_Num b = rl_Weight e → is_ascii (bl_Reason b) →
    super = (if decide (SuperAdminWeight = rl_Weight e) then true else p_IsSuperAdminVoted p) →
    (bl_Approve b = BallotApprove ∧ approve = p_ApproveNum p +u 1 ∧ against = p_AgainstNum p) ∨
    (bl_Approve b = BallotReject ∧ approve = p_ApproveNum p ∧ against = p_AgainstNum p +u 1) →
    proposal_step p (with_p_votes p (<[rl_ID e := b]> (p_BallotMap p)) approve against super).

(** The parts that never change. *)
Lemma proposal_step_fixed p p' :
  proposal_step p p' → p_Id p' = p_Id p ∧ p_Status p' = p_Status p ∧ p_ObjId p' = p_ObjId p ∧ p_Typ p' = p_Typ p ∧
    p_ElectorateList p' = p_ElectorateList p.
Proof. by intros []. Qed.

Lemma ballots_bound id p : proposal_ok id p → (Z.of_nat (size (p_BallotMap p)) ≤ p_InitialElectorateNum p)%Z.
Proof.
  intros Hok. rewrite (po_initial _ _ Hok). apply inj_le. rewrite <-size_dom.
  transitivity (size (list_to_set (C := gset string) (rl_ID <$> p_ElectorateList p))).
  - apply subseteq_size. intros v [b Hb]%elem_of_dom. apply elem_of_list_to_set. by apply (po_ballots _ _ Hok v b).
  - rewrite <-(length_fmap rl_ID). apply size_list_to_set_le.
Qed.

Lemma ballotsOf_insert p p' v b x :
  p_BallotMap p' = <[v := b]> (p_BallotMap p) → p_BallotMap p !! v = None →
  size (ballotsOf x p') = if decide (bl_Approve b = x) then S (size (ballotsOf x p)) else size (ballotsOf x p).
Proof.
  intros Hp Hv. unfold ballotsOf. rewrite Hp. case_decide as Hx.
  - rewrite map_filter_insert_True by done. apply map_size_insert_None.
    apply map_lookup_filter_None. by left.
  - rewrite map_filter_insert_False by done. by rewrite delete_id.
Qed.

Lemma ballotsOf_size x p : size (ballotsOf x p) ≤ size (p_BallotMap p).
Proof. apply map_size_filter. Qed.

(** The text of the ballots. *)
Lemma ballots_text p :
  Forall is_ascii (map_to_list (p_BallotMap p) ≫= λ '(k, b), [k; bl_VoterAddr b; bl_Approve b; bl_Reason b]) ↔
  ∀ v b, p_BallotMap p !! v = Some b → is_ascii v ∧ is_ascii (bl_VoterAddr b) ∧ is_ascii (bl_Approve b) ∧ is_ascii (bl_Reason b).
Proof.
  rewrite Forall_forall. split.
  - intros Hall v b Hb%elem_of_map_to_list. repeat split; apply Hall; apply list_elem_of_bind; exists (v, b); (split; [|done]); set_solver.
  - intros Hall x ([v b] & Hx & Hb%elem_of_map_to_list)%list_elem_of_bind. destruct (Hall v b Hb) as (? & ? & ? & ?).
    repeat (apply elem_of_cons in Hx as [->|Hx]; [done|]). by apply elem_of_nil in Hx.
Qed.

Lemma electorate_ascii p e : Forall is_ascii (Proposal_text p) → e ∈ p_ElectorateList p → is_ascii (rl_ID e).
Proof.
  unfold Proposal_text. rewrite !Forall_app. intros (_ & Hl & _) He. rewrite Forall_forall in Hl. apply Hl.
  apply list_elem_of_bind. exists e. split; [|done]. unfold Role_text. set_solver.
Qed.

Lemma vote_ok id p e approve against b super :
  proposal_ok id p → e ∈ p_ElectorateList p → p_BallotMap p !! rl_ID e = None →
  bl_VoterAddr b = rl_ID e → bl_Num b = rl_Weight e → is_ascii (bl_Reason b) →
  super = (if decide (SuperAdminWeight = rl_Weight e) then true else p_IsSuperAdminVoted p) →
  (bl_Approve b = BallotApprove ∧ approve = p_ApproveNum p +u 1 ∧ against = p_AgainstNum p) ∨
  (bl_Approve b = BallotReject ∧ approve = p_ApproveNum p ∧ against = p_AgainstNum p +u 1) →
  proposal_ok id (with_p_votes p (<[rl_ID e := b]> (p_BallotMap p)) approve against super).
Proof.
  intros Hok He Hv Hb Hn Hr Hs Hc. pose proof (ballots_bound id p Hok) as Hbound. pose proof (po_few _ _ Hok) as Hfew.
  pose proof (ballotsOf_size BallotApprove p) as Ha. pose proof (ballotsOf_size BallotReject p) as Hg.
  destruct Hok as [O1 O2 O3 O4 O5 O6 O7 O8 O9]. set (p' := with_p_votes _ _ _ _ _).
  pose proof (ballotsOf_insert p p' (rl_ID e) b BallotApprove eq_refl Hv) as Hia.
  pose proof (ballotsOf_insert p p' (rl_ID e) b BallotReject eq_refl Hv) as Hig.
  split; try done.
  - intros v b'. cbn. rewrite lookup_insert_Some. intros [[<- <-]|[_ Hl]]; [|by apply O3]. split_and!; [done|set_solver|].
    by apply list_elem_of_fmap_2.
  - rewrite Hia. cbn. destruct Hc as [(-> & -> & _)|(-> & -> & _)]; [rewrite decide_True by done|by rewrite decide_False by done].
    rewrite O4. simp_u64. lia.
  - rewrite Hig. cbn. destruct Hc as [(-> & _ & ->)|(-> & _ & ->)]; [by rewrite decide_False by done|rewrite decide_True by done].
    rewrite O5. simp_u64. lia.
  - cbn. intros Hsv. rewrite Hs in Hsv. destruct (decide (SuperAdminWeight = rl_Weight e)) as [Hw|Hw].
    + exists (rl_ID e), b. rewrite lookup_insert_eq. split; [done|]. congruence.
    + destruct (O8 Hsv) as (v & b' & Hl & Hn'). exists v, b'. split; [|done]. rewrite lookup_insert_ne; [done|].
      intros <-. congruence.
  - pose proof (electorate_ascii p e O9 He) as Hid. unfold Proposal_text in O9 |- *. rewrite !Forall_app in O9 |- *.
    destruct O9 as (T1 & T2 & T3). split_and!; [done|done|]. apply ballots_text. rewrite ballots_text in T3.
    intros v b'. cbn. rewrite lookup_insert_Some. intros [[<- <-]|[_ Hl]]; [|by apply T3].
    rewrite Hb. split_and!; [done|done| |done]. destruct Hc as [(-> & _)|(-> & _)]; vm_compute; exact I.
Qed.

Lemma text_split p :
  Forall is_ascii (Proposal_text p) ↔
  (is_ascii (p_Id p) ∧ is_ascii (p_Typ p) ∧ is_ascii (p_Status p) ∧ is_ascii (p_ObjId p) ∧ is_ascii (p_ObjLastStatus p) ∧
   is_ascii (p_EventType p) ∧ is_ascii (p_EndReason p) ∧ is_ascii (p_LockProposalId p) ∧ is_ascii (p_SubmitReason p) ∧
   is_ascii (p_WithdrawReason p) ∧ is_ascii (p_StrategyType p) ∧ is_ascii (p_StrategyExpression p)) ∧
  Forall is_ascii (p_ElectorateList p ≫= Role_text) ∧
  Forall is_ascii (map_to_list (p_BallotMap p) ≫= λ '(k, b), [k; bl_VoterAddr b; bl_Approve b; bl_Reason b]).
Proof. unfold Proposal_text. rewrite !Forall_app, !Forall_cons, Forall_nil. tauto. Qed.

Lemma proposal_step_ok id p p' : proposal_ok id p → proposal_step p p' → proposal_ok id p'.
Proof.
  intros Hok [|r Hr|r Hr|av th|e approve against b super]; [done|..|by apply vote_ok]; destruct Hok as [O1 O2 O3 O4 O5 O6 O7 O8 O9];
    (split; try done); rewrite text_split in *; destruct O9 as [T1 T2]; (split; [|exact T2]); cbn; by split_and!; try apply T1.
Qed.

Lemma status_ok id p s : proposal_ok id p → s ∈ statuses → proposal_ok id (with_p_Status p s).
Proof.
  intros [O1 O2 O3 O4 O5 O6 O7 O8 O9] Hs. assert (is_ascii s) as Ha.
  { unfold statuses in Hs. repeat (apply elem_of_cons in Hs as [->|Hs]; [vm_compute; exact I|]). by apply elem_of_nil in Hs. }
  split; try done. rewrite text_split in *. destruct O9 as [T1 T2]. split; [|exact T2]. cbn. by split_and!; try apply T1.
Qed.
End state.
