(* ===== verification/GovernanceSteps.v ===== *)
(** * The steps of the governance contract

What the operations that store proposals do to the proposals and to the ordered maps, the steps that
the contract is made of, and that each step keeps the invariant of [GovernanceProps.v]. *)
From Stdlib Require Import Ascii.
From S2P Require Import Prelude Storage Account StateLedger Contract TransactionManager Role Governance GovernanceProps.

Section steps.
Context `{GovernanceLib, GovJsonLib, ProposalJsonLib, EvalLib, ConstantLib, !GovAddrLib, GoRange}.
Implicit Types (w : world) (p : Proposal) (id k : string).

(** ** Writing *)

Definition index_key k : Prop :=
  ∃ x, k = ProposalFromKey x ∨ k = ProposalObjKey x ∨ k = ProposalTypKey x ∨ k = ProposalStatusKey x.

Lemma index_key_ne k id : index_key k → ProposalKey id ≠ k.
Proof. by intros (x & [->|[->|[->| ->]]]). Qed.

Lemma from_key x : index_key (ProposalFromKey x).
Proof. exists x. auto. Qed.
Lemma obj_key x : index_key (ProposalObjKey x).
Proof. exists x. auto. Qed.
Lemma typ_key x : index_key (ProposalTypKey x).
Proof. exists x. auto. Qed.
Lemma status_key x : index_key (ProposalStatusKey x).
Proof. exists x. auto 6. Qed.

(** [ids] with [id], in the order of insertion. *)
Definition with_id (ids : list string) id : list string := if decide (id ∈ ids) then ids else ids ++ [id].

Lemma elem_of_with_id ids id i : i ∈ with_id ids id ↔ i ∈ ids ∨ i = id.
Proof. unfold with_id. case_decide; [naive_solver|]. rewrite elem_of_app, list_elem_of_singleton. done. Qed.

(** The proposals and the ordered maps of the contract. *)
Record stores w (P : string → option Proposal) (I : string → list string) : Prop := {
  ws_prop id : gov_prop w id = P id;
  ws_ids k : index_key k → gov_ids w k = I k }.

Definition ids_ascii (I : string → list string) : Prop := ∀ k id, index_key k → id ∈ I k → is_ascii id.

Lemma stores_self w : stores w (gov_prop w) (gov_ids w).
Proof. done. Qed.

Lemma gov_get_set w k v k' :
  gov_get (w_setState w GovernanceContractAddr k v) k' = if decide (k' = k) then v else gov_get w k'.
Proof. unfold gov_get. cbn. case_decide as E; [subst; apply upd2_eq|apply upd2_ne; by right]. Qed.

Lemma stores_prop w P I p d :
  stores w P I → marshal p = Some d → Forall is_ascii (Proposal_text p) →
  stores (w_setState w GovernanceContractAddr (ProposalKey (p_Id p)) (Some d)) (upd P (p_Id p) (Some p)) I.
Proof.
  intros [SP SI] Hd Ha. split.
  - intros id. unfold gov_prop. rewrite gov_get_set. case_decide as E.
    + apply ProposalKey_inj in E as ->. rewrite upd_eq. cbn. by apply json_ok.
    + rewrite upd_ne by congruence. apply SP.
  - intros k Hk. unfold gov_ids. rewrite gov_get_set, decide_False; [by apply SI|].
    intros ->. by apply (index_key_ne _ (p_Id p) Hk).
Qed.

Lemma stores_ids w P I key m d :
  stores w P I → index_key key → marshal m = Some d → Forall is_ascii (om_Keys m) →
  stores (w_setState w GovernanceContractAddr key (Some d)) P (upd I key (om_Keys m)).
Proof.
  intros [SP SI] Hkey Hd Ha. split.
  - intros id. unfold gov_prop. rewrite gov_get_set, decide_False by (by apply index_key_ne). apply SP.
  - intros k Hk. unfold gov_ids. rewrite gov_get_set. case_decide as E; [subst; rewrite upd_eq|rewrite upd_ne by done; by apply SI].
    cbn. by rewrite (json_ok m d Ha Hd).
Qed.

Lemma ids_ascii_upd I key l : ids_ascii I → Forall is_ascii l → ids_ascii (upd I key l).
Proof.
  intros Ha Hl k id Hk. destruct (decide (k = key)) as [->|].
  - rewrite upd_eq. rewrite Forall_forall in Hl. apply Hl.
  - rewrite upd_ne by done. by apply Ha.
Qed.

Section ops.
Context (ctx : Context) (Hctx : ctx_Callee ctx = GovernanceContractAddr).

Lemma SetObject_stores w P I p :
  stores w P I → Forall is_ascii (Proposal_text p) →
  ∃ w', exec (SetObject ctx (ProposalKey (p_Id p)) p) w = (Some tt, w') ∧ stores w' (upd P (p_Id p) (Some p)) I.
Proof.
  intros Hs Ha. destruct (json_marshals p) as [d Hd]. rewrite (exec_SetObject _ _ _ _ _ Hd), Hctx. eexists.
  split; [done|]. by apply stores_prop.
Qed.

Lemma AddObject_stores w P I p :
  stores w P I → Forall is_ascii (Proposal_text p) →
  ∃ w', exec (AddObject ctx (ProposalKey (p_Id p)) p) w = (Some tt, w') ∧ stores w' (upd P (p_Id p) (Some p)) I.
Proof.
  intros Hs Ha. destruct (json_marshals p) as [d Hd]. rewrite (exec_AddObject _ _ _ _ _ Hd), Hctx. eexists.
  split; [done|]. by apply stores_prop.
Qed.

Lemma with_id_ascii I key id : index_key key → ids_ascii I → is_ascii id → Forall is_ascii (with_id (I key) id).
Proof. intros Hk Ha Hid. rewrite Forall_forall. intros i [Hi| ->]%elem_of_with_id; [by apply (Ha key)|done]. Qed.

Lemma addId_stores w P I key id :
  stores w P I → index_key key → ids_ascii I → is_ascii id →
  ∃ w', exec (addId ctx key id) w = (Some tt, w') ∧ stores w' P (upd I key (with_id (I key) id)).
Proof.
  intros Hs Hkey Ha Hid. unfold addId. rewrite exec_bind, exec_GetObject, Hctx. fold (gov_get w key).
  set (m := om_Set _ id). destruct (json_marshals m) as [d Hd]. rewrite (exec_SetObject _ _ _ _ _ Hd), Hctx. eexists.
  split; [done|]. assert (om_Keys m = with_id (I key) id) as Hm by (by rewrite <-(ws_ids _ _ _ Hs key Hkey)).
  rewrite <-Hm. apply stores_ids; [done..|]. rewrite Hm. by apply with_id_ascii.
Qed.

Lemma deleteId_stores w P I key id :
  stores w P I → index_key key → ids_ascii I →
  ∃ w', exec (SetObject ctx key (om_Delete (default om_New (d ← gov_get w key; unmarshal d)) id)) w = (Some tt, w') ∧
    stores w' P (upd I key (filter (.≠ id) (I key))).
Proof.
  intros Hs Hkey Ha. set (m := om_Delete _ id). destruct (json_marshals m) as [d Hd].
  rewrite (exec_SetObject _ _ _ _ _ Hd), Hctx. eexists. split; [done|].
  assert (om_Keys m = filter (.≠ id) (I key)) as Hm by (by rewrite <-(ws_ids _ _ _ Hs key Hkey)).
  rewrite <-Hm. apply stores_ids; [done..|]. rewrite Hm, Forall_forall. intros i [_ Hi]%list_elem_of_filter. by apply (Ha key).
Qed.

(** ** A proposal changes its status *)

Definition moved (I : string → list string) (s s' id : string) : string → list string :=
  let I1 := upd I (ProposalStatusKey s) (filter (.≠ id) (I (ProposalStatusKey s))) in
  upd I1 (ProposalStatusKey s') (with_id (I1 (ProposalStatusKey s')) id).

Lemma changeProposalStatus_stores w P I p s :
  stores w P I → ids_ascii I → Forall is_ascii (Proposal_text (with_p_Status p s)) →
  ∃ w', exec (changeProposalStatus ctx p s) w = (Some (with_p_Status p s), w') ∧
    stores w' (upd P (p_Id p) (Some (with_p_Status p s))) (moved I (p_Status p) s (p_Id p)).
Proof.
  intros Hs Ha Ht. unfold changeProposalStatus. rewrite exec_bind, exec_GetObject, Hctx.
  fold (gov_get w (ProposalStatusKey (p_Status p))). cbn [fst snd].
  destruct (deleteId_stores w P I (ProposalStatusKey (p_Status p)) (p_Id p) Hs (status_key _) Ha) as (w1 & E1 & S1).
  rewrite exec_bind, E1. cbn [fst snd].
  assert (is_ascii (p_Id p)) as Hid by (by apply text_split in Ht as [(? & _) _]).
  edestruct (addId_stores w1) as (w2 & E2 & S2); [exact S1|apply (status_key s)| |exact Hid|].
  { apply ids_ascii_upd; [done|]. rewrite Forall_forall. intros i [_ Hi]%list_elem_of_filter.
    by apply (Ha (ProposalStatusKey (p_Status p))); [apply status_key|]. }
  rewrite exec_bind, E2. cbn [fst snd].
  destruct (SetObject_stores w2 _ _ (with_p_Status p s) S2 Ht) as (w3 & E3 & S3).
  rewrite exec_bind, E3. eexists. split; [done|]. exact S3.
Qed.

(** ** A proposal is submitted *)

Definition submitted (I : string → list string) p : string → list string :=
  let add I k := upd I k (with_id (I k) (p_Id p)) in
  add (add (add (add I (ProposalFromKey (sponsor_of (p_Id p)))) (ProposalObjKey (p_ObjId p))) (ProposalTypKey (p_Typ p)))
    (ProposalStatusKey (p_Status p)).

Lemma addProposal_stores w P I p :
  stores w P I → ids_ascii I → Forall is_ascii (Proposal_text p) →
  ∃ w', exec (addProposal ctx p) w = (Some tt, w') ∧ stores w' (upd P (p_Id p) (Some p)) (submitted I p).
Proof.
  intros Hs Ha Ht. unfold addProposal. assert (is_ascii (p_Id p)) as Hid by (by apply text_split in Ht as [(? & _) _]).
  destruct (AddObject_stores w P I p Hs Ht) as (w1 & E1 & S1). rewrite exec_bind, E1. cbv zeta. fold (sponsor_of (p_Id p)).
  assert (∀ w P I key, stores w P I → index_key key → ids_ascii I →
    ∃ w', exec (addId ctx key (p_Id p)) w = (Some tt, w') ∧ stores w' P (upd I key (with_id (I key) (p_Id p))) ∧
      ids_ascii (upd I key (with_id (I key) (p_Id p)))) as Hadd.
  { intros w' P' I' key S Hk A. destruct (addId_stores w' P' I' key (p_Id p) S Hk A Hid) as (w'' & E & S').
    exists w''. split_and!; [done|done|]. apply ids_ascii_upd; [done|]. by apply with_id_ascii. }
  destruct (Hadd w1 _ _ _ S1 (from_key (sponsor_of (p_Id p))) Ha) as (w2 & E2 & S2 & A2). rewrite exec_bind, E2.
  destruct (Hadd w2 _ _ _ S2 (obj_key (p_ObjId p)) A2) as (w3 & E3 & S3 & A3). rewrite exec_bind, E3.
  destruct (Hadd w3 _ _ _ S3 (typ_key (p_Typ p)) A3) as (w4 & E4 & S4 & A4). rewrite exec_bind, E4.
  destruct (Hadd w4 _ _ _ S4 (status_key (p_Status p)) A4) as (w5 & E5 & S5 & A5). rewrite E5. by eexists.
Qed.
End ops.

(** ** The invariant *)

Lemma gov_ok_inv w P I : stores w P I → gov_ok P I → gov_inv w.
Proof.
  intros [SP SI] [G1 G2 G3 G4 G5 G6]. split; intros *.
  - rewrite SP. apply G1.
  - rewrite SI, SP by apply status_key. apply G2.
  - rewrite SI, SP by apply obj_key. apply G3.
  - rewrite SI, SP by apply typ_key. apply G4.
  - rewrite SI, SP by apply from_key. apply G5.
  - rewrite SI by apply from_key. apply G6.
Qed.

Lemma gov_ok_ascii P I : gov_ok P I → ids_ascii I.
Proof.
  intros [G1 G2 G3 G4 G5 G6] k id (x & Hk) Hin. assert (is_Some (P id)) as [p Hp].
  { destruct Hk as [->|[->|[->| ->]]]; [apply G5 in Hin as [? _]|apply G3 in Hin as (? & ? & _)|apply G4 in Hin as (? & ? & _)|
      apply G2 in Hin as (? & ? & _)]; eauto. }
  pose proof (G1 _ _ Hp) as Hok. pose proof (po_ascii _ _ Hok) as Ht. apply text_split in Ht as [(Hid & _) _].
  by rewrite (po_id _ _ Hok) in Hid.
Qed.

(** A stored proposal is replaced by one with the same field. *)
Lemma upd_field (P : string → option Proposal) id p p' (f : Proposal → string) x i :
  P id = Some p → f p' = f p → (∃ q, upd P id (Some p') i = Some q ∧ f q = x) ↔ ∃ q, P i = Some q ∧ f q = x.
Proof.
  intros Hp Hf. destruct (decide (i = id)) as [->|]; [rewrite upd_eq, Hp|by rewrite upd_ne by done].
  split; intros (q & [= <-] & Hq); eexists; (split; [done|]); congruence.
Qed.

Lemma upd_is_Some (P : string → option Proposal) id p p' i :
  P id = Some p → is_Some (upd P id (Some p') i) ↔ is_Some (P i).
Proof. intros Hp. destruct (decide (i = id)) as [->|]; [rewrite upd_eq, Hp|by rewrite upd_ne by done]. split; by eexists. Qed.

Lemma upd_ok (P : string → option Proposal) id p' i q :
  (∀ i q, P i = Some q → proposal_ok i q) → proposal_ok id p' → upd P id (Some p') i = Some q → proposal_ok i q.
Proof.
  intros HP Hok. destruct (decide (i = id)) as [->|]; [rewrite upd_eq; by intros [= <-]|rewrite upd_ne by done; apply HP].
Qed.

(** A stored proposal is replaced; its status, object and type stay. *)
Lemma gov_ok_put P I id p p' :
  gov_ok P I → P id = Some p → proposal_ok id p' → p_Status p' = p_Status p → p_ObjId p' = p_ObjId p → p_Typ p' = p_Typ p →
  gov_ok (upd P id (Some p')) I.
Proof.
  intros [G1 G2 G3 G4 G5 G6] Hp Hok Hs Ho Ht. split.
  - intros i q. by apply upd_ok.
  - intros x i. rewrite (upd_field P id p) by done. apply G2.
  - intros x i. rewrite (upd_field P id p) by done. apply G3.
  - intros x i. rewrite (upd_field P id p) by done. apply G4.
  - intros f i. rewrite (upd_is_Some P id p) by done. apply G5.
  - done.
Qed.

Lemma StatusKey_inj a b : ProposalStatusKey a = ProposalStatusKey b → a = b.
Proof. by intros [=]. Qed.

Lemma moved_other I s s' id k : (∀ x, k ≠ ProposalStatusKey x) → moved I s s' id k = I k.
Proof. intros Hk. unfold moved. by rewrite !upd_ne. Qed.

Lemma elem_of_moved I s s' id x i :
  (∀ x, id ∈ I (ProposalStatusKey x) → x = s) →
  i ∈ moved I s s' id (ProposalStatusKey x) ↔ (i ≠ id ∧ i ∈ I (ProposalStatusKey x)) ∨ (i = id ∧ x = s').
Proof.
  intros Honly. unfold moved. set (I1 := upd I (ProposalStatusKey s) _).
  assert (∀ y, i ∈ I1 (ProposalStatusKey y) ↔ i ≠ id ∧ i ∈ I (ProposalStatusKey y)) as HI1.
  { intros y. unfold I1. destruct (decide (y = s)) as [->|].
    - rewrite upd_eq. by rewrite list_elem_of_filter.
    - rewrite upd_ne by (by intros ?%StatusKey_inj). split; [|tauto]. intros Hi. split; [|done]. intros ->. auto. }
  destruct (decide (x = s')) as [->|].
  - rewrite upd_eq, elem_of_with_id, HI1. naive_solver.
  - rewrite upd_ne by (by intros ?%StatusKey_inj). rewrite HI1. naive_solver.
Qed.

Lemma gov_ok_moved P I id p p' s :
  gov_ok P I → P id = Some p → proposal_ok id (with_p_Status p' s) → p_ObjId p' = p_ObjId p → p_Typ p' = p_Typ p →
  gov_ok (upd P id (Some (with_p_Status p' s))) (moved I (p_Status p) s id).
Proof.
  intros [G1 G2 G3 G4 G5 G6] Hp Hok Ho Ht. split.
  - intros i q. by apply upd_ok.
  - intros x i. rewrite elem_of_moved by (intros y Hy; apply G2 in Hy as (q & ? & <-); congruence).
    rewrite G2. destruct (decide (i = id)) as [->|].
    + rewrite upd_eq. split; [intros [[? _]|[_ ->]]; [done|eauto]|]. intros (q & [= <-] & <-). by right.
    + rewrite upd_ne by done. split; [intros [[_ ?]|[? _]]; done|]. intros ?. by left.
  - intros x i. rewrite moved_other, (upd_field P id p) by done. apply G3.
  - intros x i. rewrite moved_other, (upd_field P id p) by done. apply G4.
  - intros f i. rewrite moved_other, (upd_is_Some P id p) by done. apply G5.
  - intros f. rewrite moved_other by done. apply G6.
Qed.

(** A proposal is added. *)
Lemma sponsor_numbered f n : str_contains dash f = false → sponsor_of (f +:+ "-" +:+ fmt_d n) = f.
Proof. intros Hf. unfold sponsor_of. change ("-" +:+ fmt_d n) with (String dash (fmt_d n)). by rewrite str_split_app. Qed.

Lemma numbered_inj f n m : f +:+ "-" +:+ fmt_d n = f +:+ "-" +:+ fmt_d m → n = m.
Proof. intros Heq. apply string_app_inj, string_app_inj in Heq. by apply fmt_d_inj. Qed.

Lemma number_fresh P I f :
  gov_ok P I → str_contains dash f = false → P (f +:+ "-" +:+ fmt_d (Z.of_nat (length (I (ProposalFromKey f))))) = None.
Proof.
  intros [_ _ _ _ G5 G6] Hf. apply eq_None_not_Some. intros Hs. set (id := f +:+ _) in *.
  assert (id ∈ I (ProposalFromKey f)) as Hin by (apply G5; split; [done|by apply sponsor_numbered]).
  rewrite G6 in Hin. apply list_elem_of_fmap in Hin as (i & Heq%numbered_inj & Hi%elem_of_seq). lia.
Qed.

Lemma submitted_lookup I p k :
  submitted I p k =
  if decide (k = ProposalFromKey (sponsor_of (p_Id p)) ∨ k = ProposalObjKey (p_ObjId p) ∨ k = ProposalTypKey (p_Typ p) ∨
             k = ProposalStatusKey (p_Status p)) then with_id (I k) (p_Id p) else I k.
Proof.
  unfold submitted. case_decide as Hk.
  - destruct Hk as [->|[->|[->| ->]]]; cbv zeta; by repeat (rewrite upd_eq || rewrite upd_ne by done).
  - rewrite !upd_ne by tauto. done.
Qed.

Lemma gov_ok_submitted P I p f :
  gov_ok P I → str_contains dash f = false →
  p_Id p = f +:+ "-" +:+ fmt_d (Z.of_nat (length (I (ProposalFromKey f)))) → proposal_ok (p_Id p) p →
  gov_ok (upd P (p_Id p) (Some p)) (submitted I p).
Proof.
  intros HG Hf Hid Hok. pose proof (number_fresh P I f HG Hf) as Hfresh. rewrite <-Hid in Hfresh.
  assert (sponsor_of (p_Id p) = f) as Hsp by (rewrite Hid; by apply sponsor_numbered).
  destruct HG as [G1 G2 G3 G4 G5 G6].
  assert (∀ (g : Proposal → string) (K : string → string) x i,
    (∀ x y, K x = K y → x = y) → (∀ x i, i ∈ I (K x) ↔ ∃ q, P i = Some q ∧ g q = x) →
    submitted I p (K x) = (if decide (x = g p) then with_id (I (K x)) (p_Id p) else I (K x)) →
    i ∈ submitted I p (K x) ↔ ∃ q, upd P (p_Id p) (Some p) i = Some q ∧ g q = x) as Hfield.
  { intros g K x i HK HI ->. destruct (decide (i = p_Id p)) as [->|Hne].
    - rewrite upd_eq. case_decide as Hx; [rewrite elem_of_with_id|].
      + split; [eauto|by right].
      + rewrite HI. split; [intros (q & ? & _); congruence|]. intros (q & [= <-] & ?). by destruct Hx.
    - rewrite upd_ne by done. rewrite <-HI. case_decide; [|done]. rewrite elem_of_with_id. tauto. }
  split.
  - intros i q. by apply upd_ok.
  - intros x i. apply (Hfield p_Status ProposalStatusKey); [by intros ?? [=]|done|]. rewrite submitted_lookup.
    repeat case_decide; try done; naive_solver.
  - intros x i. apply (Hfield p_ObjId ProposalObjKey); [by intros ?? [=]|done|]. rewrite submitted_lookup.
    repeat case_decide; try done; naive_solver.
  - intros x i. apply (Hfield p_Typ ProposalTypKey); [by intros ?? [=]|done|]. rewrite submitted_lookup.
    repeat case_decide; try done; naive_solver.
  - intros x i. rewrite submitted_lookup, Hsp. destruct (decide (i = p_Id p)) as [->|Hne].
    + rewrite upd_eq, Hsp. case_decide as Hx; [rewrite elem_of_with_id|].
      * split; [|by right]. intros _. split; [by eexists|]. naive_solver.
      * rewrite G5. split; [intros [[? ?] _]; congruence|]. intros [_ ->]. tauto.
    + rewrite upd_ne by done. rewrite <-G5. case_decide; [|done]. rewrite elem_of_with_id. tauto.
  - intros x. rewrite submitted_lookup, Hsp. case_decide as Hx; [|apply G6]. assert (x = f) as -> by naive_solver.
    unfold with_id. rewrite decide_False.
    + rewrite length_app, Nat.add_1_r, seq_S, fmap_app, <-G6. cbn. by rewrite <-Hid.
    + rewrite G5. intros [[? ?] _]. congruence.
Qed.

(** ** Steps *)

(** The contract changes its state by replacing a proposal, by changing the status of one and by adding
one; other contracts leave its state alone. *)
Inductive gov_step w w' : Prop :=
| gs_foreign : (∀ k, gov_get w' k = gov_get w k) → gov_step w w'
| gs_put ctx p p' :
    ctx_Callee ctx = GovernanceContractAddr → gov_prop w (p_Id p) = Some p → rtc proposal_step p p' →
    exec (SetObject ctx (ProposalKey (p_Id p')) p') w = (Some tt, w') → gov_step w w'
| gs_status ctx p p' s :
    ctx_Callee ctx = GovernanceContractAddr → gov_prop w (p_Id p) = Some p → rtc proposal_step p p' → s ∈ statuses →
    exec (changeProposalStatus ctx p' s) w = (Some (with_p_Status p' s), w') → gov_step w w'
| gs_submit ctx f p :
    ctx_Callee ctx = GovernanceContractAddr → str_contains dash f = false →
    p_Id p = f +:+ "-" +:+ fmt_d (Z.of_nat (length (gov_ids w (ProposalFromKey f)))) → proposal_ok (p_Id p) p →
    exec (addProposal ctx p) w = (Some tt, w') → gov_step w w'.

Lemma proposal_steps_ok id p p' :
  proposal_ok id p → rtc proposal_step p p' →
  proposal_ok id p' ∧ p_Id p' = p_Id p ∧ p_Status p' = p_Status p ∧ p_ObjId p' = p_ObjId p ∧ p_Typ p' = p_Typ p.
Proof.
  intros Hok Hs. induction Hs as [p|p p1 p' H1' _ IH]; [done|].
  destruct (proposal_step_fixed _ _ H1') as (E1 & E2 & E3 & E4 & _).
  destruct (IH (proposal_step_ok _ _ _ Hok H1')) as (? & -> & -> & -> & ->). split_and!; congruence.
Qed.

Lemma same_gov w w' : (∀ k, gov_get w' k = gov_get w k) → stores w' (gov_prop w) (gov_ids w).
Proof. intros Hg. split; intros; unfold gov_prop, gov_ids; by rewrite Hg. Qed.

Lemma gov_step_inv w w' : gov_step w w' → gov_inv w → gov_inv w'.
Proof.
  intros Hstep Hinv. pose proof (gov_ok_ascii _ _ Hinv) as Ha. destruct Hstep as
    [Hg|ctx p p' Hctx Hp Hs Hrun|ctx p p' s Hctx Hp Hs Hst Hrun|ctx f p Hctx Hf Hid Hok Hrun].
  - by apply (gov_ok_inv w' _ _ (same_gov w w' Hg)).
  - destruct (proposal_steps_ok _ _ _ (gi_prop _ _ Hinv _ _ Hp) Hs) as (Hok & Hid & ? & ? & ?).
    destruct (SetObject_stores ctx Hctx w _ _ p' (stores_self w) (po_ascii _ _ Hok)) as (w1 & E & S).
    rewrite Hrun in E. injection E as <-. eapply gov_ok_inv; [exact S|]. rewrite Hid. by apply (gov_ok_put _ _ _ p).
  - destruct (proposal_steps_ok _ _ _ (gi_prop _ _ Hinv _ _ Hp) Hs) as (Hok & Hid & Hstat & ? & ?).
    pose proof (status_ok _ _ s Hok Hst) as Hok'.
    destruct (changeProposalStatus_stores ctx Hctx w _ _ p' s (stores_self w) Ha (po_ascii _ _ Hok')) as (w1 & E & S).
    rewrite Hrun in E. injection E as <-. eapply gov_ok_inv; [exact S|]. rewrite Hid, Hstat. by apply gov_ok_moved.
  - destruct (addProposal_stores ctx Hctx w _ _ p (stores_self w) Ha (po_ascii _ _ Hok)) as (w1 & E & S).
    rewrite Hrun in E. injection E as <-. eapply gov_ok_inv; [exact S|]. by apply (gov_ok_submitted _ _ _ f).
Qed.

Lemma gov_steps_inv w w' : rtc gov_step w w' → gov_inv w → gov_inv w'.
Proof. induction 1; eauto using gov_step_inv. Qed.

(** ** Computations made of steps *)

(** From a state with [Pre], [m] makes steps, and [Post] holds when it returns. *)
Definition reaches {A} (Pre : world → Prop) (m : prog A) (Post : A → world → Prop) : Prop :=
  ∀ w, gov_inv w → Pre w →
    rtc gov_step w (exec m w).2 ∧ ∀ a, (exec m w).1 = Some a → Post a (exec m w).2.

Lemma reaches_bind {A B} Pre (m : prog A) (f : A → prog B) Mid Post :
  reaches Pre m Mid → (∀ a, reaches (Mid a) (f a) Post) → reaches Pre (m ≫= f) Post.
Proof.
  intros Hm Hf w Hinv Hpre. destruct (Hm w Hinv Hpre) as [Hs Hmid]. rewrite exec_bind.
  destruct (exec m w) as [[a|] w1]; cbn in *; [|by split].
  destruct (Hf a w1 (gov_steps_inv _ _ Hs Hinv) (Hmid a eq_refl)) as [Hs' Hpost]. split; [by etrans|done].
Qed.

Lemma reaches_weaken {A} (Pre Pre' : world → Prop) (m : prog A) (Post Post' : A → world → Prop) :
  reaches Pre' m Post' → (∀ w, Pre w → Pre' w) → (∀ a w, Post' a w → Post a w) → reaches Pre m Post.
Proof. intros Hm Hpre Hpost w Hinv Hw. destruct (Hm w Hinv (Hpre w Hw)). split; eauto. Qed.

Lemma reaches_ret {A} Pre (a : A) Post : (∀ w, Pre w → Post a w) → reaches Pre (mret a) Post.
Proof. intros Hp w _ Hw. cbn. split; [done|]. intros ? [= <-]. auto. Qed.

Lemma reaches_panic {A} Pre (Post : A → world → Prop) : reaches Pre Panic Post.
Proof. intros w _ _. by split. Qed.

(** What depends on the state of the contract only. *)
Definition stable (P : world → Prop) : Prop := ∀ w w', (∀ k, gov_get w' k = gov_get w k) → P w → P w'.

Lemma reaches_foreign {A} Pre (m : prog A) :
  writes_only (λ a _, a ≠ GovernanceContractAddr) m → stable Pre → reaches Pre m (λ _, Pre).
Proof.
  intros Hm Hst w _ Hw. assert (∀ k, gov_get (exec m w).2 k = gov_get w k) as Hg.
  { intros k. apply (writes_only_frame _ m w _ _ Hm). by intros []. }
  split; [by apply rtc_once, gs_foreign|]. intros a _. by apply (Hst w).
Qed.
End steps.
