(* ===== verification/GovernanceTheorems.v ===== *)
(** * Theorems about governance

The methods of the governance contract are made of the steps of [GovernanceSteps.v], so the
invariant holds in every state that they reach; strategies decide soundly; votes are counted once. *)
From Stdlib Require Import Ascii.
From S2P Require Import Prelude Storage Account StateLedger Contract TransactionManager Role Governance.
From S2P Require Import GovernanceProps GovernanceSteps.

(** The contracts that carry out results: they change the state of the governance contract only through
its own operations. *)
Class ManageLib `{GovernanceLib, GovJsonLib, ProposalJsonLib, ConstantLib, !GovAddrLib} := {
  Manage : string → string → string → string → string → option string → Context → prog Response;
  Manage_steps address ev next last objId extra ctx w :
    ctx_Callee ctx = address → address ≠ GovernanceContractAddr → gov_inv w →
    rtc gov_step w (exec (Manage address ev next last objId extra ctx) w).2
}.

Section theorems.
Context `{GovernanceLib, GovJsonLib, ProposalJsonLib, EvalLib, ConstantLib, !GovAddrLib, GoRange}.
Implicit Types (w : world) (p : Proposal) (id k : string).

(** ** The parts of the methods *)

Section methods.
Context (ctx : Context) (Hctx : ctx_Callee ctx = GovernanceContractAddr).

(** What does not depend on the proposals and their statuses. *)
Definition kept (R : world → Prop) : Prop :=
  ∀ w w', (∀ f, gov_ids w' (ProposalFromKey f) = gov_ids w (ProposalFromKey f)) → R w → R w'.

Lemma kept_stable R : kept R → stable R.
Proof. intros Hk w w' Hg. apply Hk. intros f. apply (same_gov w w' Hg). apply from_key. Qed.

Lemma kept_fact (F : Prop) : kept (λ _, F).
Proof. by intros w w' _ HF. Qed.

Lemma statuses_all : PROPOSED ∈ statuses ∧ APPROVED ∈ statuses ∧ REJECTED ∈ statuses ∧ PAUSED ∈ statuses.
Proof. unfold statuses. rewrite !elem_of_cons. tauto. Qed.

Definition stored p w : Prop := gov_prop w (p_Id p) = Some p.

Lemma stable_and (P Q : world → Prop) : stable P → stable Q → stable (λ w, P w ∧ Q w).
Proof. intros HP HQ w w' Hg [? ?]. split; eauto. Qed.

Lemma stable_stored p : stable (stored p).
Proof. intros w w' Hg. unfold stored, gov_prop. by rewrite Hg. Qed.

Lemma reaches_GetObject (R : world → Prop) id :
  reaches R (GetObject (A := Proposal) ctx (ProposalKey id))
    (λ r w, R w ∧ match r with Some p => stored p w ∧ p_Id p = id ∧ proposal_ok id p | None => True end).
Proof.
  intros w Hinv HR. rewrite exec_GetObject, Hctx. fold (gov_get w (ProposalKey id)). cbn. split; [done|].
  intros r [= <-]. split; [done|]. destruct (d ← gov_get w (ProposalKey id); unmarshal d) as [p|] eqn:E; [|done].
  pose proof (gi_prop _ _ Hinv id p E) as Hok. unfold stored. rewrite (po_id _ _ Hok). done.
Qed.

Lemma changeProposalStatus_reaches R p p' s :
  kept R → rtc proposal_step p p' → s ∈ statuses →
  reaches (λ w, stored p w ∧ R w) (changeProposalStatus ctx p' s)
    (λ q w, R w ∧ q = with_p_Status p' s ∧ stored q w).
Proof.
  intros HR Hs Hst w Hinv [Hp HRw]. pose proof (gi_prop _ _ Hinv _ _ Hp) as Hok0.
  destruct (proposal_steps_ok _ _ _ Hok0 Hs) as (Hok & Hid & _). pose proof (status_ok _ _ s Hok Hst) as Hok'.
  destruct (changeProposalStatus_stores ctx Hctx w _ _ p' s (stores_self w) (gov_ok_ascii _ _ Hinv) (po_ascii _ _ Hok'))
    as (w' & E & S).
  rewrite E. cbn. split; [by eapply rtc_once, gs_status|]. intros q [= <-]. split_and!; [|done|].
  - apply (HR w); [|done]. intros f. rewrite (ws_ids _ _ _ S) by apply from_key. by apply moved_other.
  - unfold stored. rewrite (ws_prop _ _ _ S). cbn. by rewrite upd_eq.
Qed.

Lemma put_reaches R p p' :
  kept R → rtc proposal_step p p' →
  reaches (λ w, stored p w ∧ R w) (SetObject ctx (ProposalKey (p_Id p')) p') (λ _ w, R w ∧ stored p' w).
Proof.
  intros HR Hs w Hinv [Hp HRw]. destruct (proposal_steps_ok _ _ _ (gi_prop _ _ Hinv _ _ Hp) Hs) as (Hok & _).
  destruct (SetObject_stores ctx Hctx w _ _ p' (stores_self w) (po_ascii _ _ Hok)) as (w' & E & S). rewrite E. cbn.
  split; [by eapply rtc_once, gs_put|]. intros _ _. split.
  - apply (HR w); [|done]. intros f. apply (ws_ids _ _ _ S). apply from_key.
  - unfold stored. by rewrite (ws_prop _ _ _ S), upd_eq.
Qed.

(** Queries of other contracts and events. *)
Lemma writes_nothing {A} (m : prog A) : writes_only (λ _ _, False) m → writes_only (λ a _, a ≠ GovernanceContractAddr) m.
Proof. by apply writes_only_weaken. Qed.

Lemma rolesOf_reads ctx' ids : writes_only (λ _ _, False) (rolesOf ctx' ids).
Proof.
  induction ids as [|id ids IH]; [done|]. cbn [rolesOf]. apply writes_only_bind; [apply GetObject_writes|].
  intros [r|]; [|done]. by apply writes_only_bind.
Qed.

Lemma getElectorate_reads : writes_only (λ _ _, False) (getElectorate ctx).
Proof.
  unfold getElectorate. apply writes_only_bind; [|done]. apply writes_only_CrossInvoke. unfold GetRolesByType, getRolesByType.
  apply writes_only_bind; [|by intros [|]; repeat case_match]. rewrite decide_False by (cbn; set_solver).
  apply writes_only_bind; [apply GetObject_writes|]. intros [m|]; [|done]. apply writes_only_bind; [apply rolesOf_reads|done].
Qed.

Lemma MakeStrategyDecision_reads e a r t av : writes_only (λ _ _, False) (MakeStrategyDecision e a r t av).
Proof. unfold MakeStrategyDecision. by repeat case_match. Qed.

Lemma threshold_reads e a r t av : writes_only (λ _ _, False) (getCurThresholdApproveNum e a r t av).
Proof.
  unfold getCurThresholdApproveNum. generalize (S (Z.to_nat (t + 1 - a))). intros n. revert a.
  induction n as [|n IH]; intros a; [done|]. cbn [threshold_loop]. case_decide; [done|].
  apply writes_only_bind; [apply MakeStrategyDecision_reads|]. intros [[b []]|]; [done|apply IH|done].
Qed.

Lemma getStrategyInfo_reads m n : writes_only (λ _ _, False) (getStrategyInfo ctx m n).
Proof.
  unfold getStrategyInfo. destruct (negb _); [done|]. apply writes_only_bind.
  - apply writes_only_CrossInvoke. unfold GetProposalStrategy. destruct (negb _); [done|].
    apply writes_only_bind; [apply GetObject_writes|]. intros o. by repeat case_match.
  - intros r. cbv zeta. case_match; [|done]. case_decide; [done|]. apply writes_only_bind; [apply threshold_reads|].
    intros o. by case_match.
Qed.

Lemma isAvailable_reads a : writes_only (λ _ _, False) (CrossInvoke ctx RoleContractAddr (λ ctx, IsAnyAvailableAdmin ctx a GovernanceAdmin)).
Proof. by apply writes_only_CrossInvoke. Qed.

Lemma postAudit_reads id : writes_only (λ _ _, False) (postAuditProposalEvent ctx id).
Proof.
  unfold postAuditProposalEvent. apply writes_only_bind; [apply Get_writes|]. intros [d|]; [|done]. case_match; [|done].
  cbv zeta. apply writes_only_bind; [apply postEvent_writes|done].
Qed.

Lemma checkSpecific_reads c1 c2 l : writes_only (λ _ _, False) (checkSpecific ctx c1 c2 l).
Proof.
  unfold checkSpecific. case_match; [|done]. apply writes_only_bind; [|done]. cbn [checkPermission].
  rewrite decide_False, decide_False, decide_True by done. by repeat case_match.
Qed.

Lemma reaches_read {A} (m : prog A) R : writes_only (λ _ _, False) m → stable R → reaches R m (λ _, R).
Proof. intros Hm. apply reaches_foreign. by apply writes_nothing. Qed.

Lemma audited_reaches R id res : stable R → reaches R (audited ctx id res) (λ _, R).
Proof.
  intros HR. unfold audited. destruct (ctx_EnableAudit ctx); [|by apply reaches_ret].
  eapply reaches_bind; [by apply reaches_read; [apply postAudit_reads|]|]. intros o. by apply reaches_ret.
Qed.

(** A list of stored proposals. *)
Lemma proposalsOf_stored ids R :
  reaches R (proposalsOf ctx ids) (λ r w, R w ∧ match r with Some ps => Forall (λ p, stored p w) ps ∧ length ps = length ids | None => True end).
Proof.
  intros w Hinv HR. induction ids as [|id ids IH].
  { cbn. split; [done|]. intros r [= <-]. split; [done|]. by split. }
  cbn [proposalsOf]. rewrite exec_bind. destruct (reaches_GetObject R id w Hinv HR) as [_ Hget].
  rewrite exec_GetObject in *. cbn [fst snd] in *. destruct (d ← w_state w (ctx_Callee ctx) (ProposalKey id); unmarshal d) as [p|].
  2:{ cbn. split; [done|]. by intros r [= <-]. }
  destruct (Hget _ eq_refl) as (_ & Hp & _). rewrite exec_bind.
  assert ((exec (proposalsOf ctx ids) w).2 = w) as Hw.
  { clear. induction ids as [|id ids IH]; [done|]. cbn [proposalsOf]. rewrite exec_bind, exec_GetObject. cbn [fst snd].
    case_match; [|done]. rewrite exec_bind. destruct (exec (proposalsOf ctx ids) w) as [[r|] w1]; cbn in *; by subst. }
  destruct (exec (proposalsOf ctx ids) w) as [[r|] w1]; cbn in *; subst w1; [|by split]. destruct IH as [_ IH].
  destruct (IH r eq_refl) as [_ Hr]. split; [done|]. intros ? [= <-]. split; [done|].
  destruct r as [ps|]; [|done]. cbn. destruct Hr as [? ->]. split; [by constructor|done].
Qed.

Lemma proposalsAt_stored key R :
  reaches R (proposalsAt ctx key) (λ r w, R w ∧ match r with
    Some ps => Forall (λ p, stored p w) ps ∧ length ps = length (gov_ids w key) | None => True end).
Proof.
  unfold proposalsAt. intros w Hinv HR. rewrite exec_bind, exec_GetObject, Hctx. fold (gov_get w key). cbn [fst snd].
  destruct (d ← gov_get w key; unmarshal d) as [m|] eqn:E.
  - destruct (proposalsOf_stored (om_Keys m) (λ w', R w' ∧ gov_ids w' key = om_Keys m) w Hinv) as [Hs Hr].
    { split; [done|]. unfold gov_ids. by rewrite E. }
    split; [done|]. intros r Hr'. destruct (Hr r Hr') as [[? Hk] ?]. by rewrite Hk.
  - cbn. split; [done|]. intros r [= <-]. split; [done|]. split; [constructor|]. unfold gov_ids. by rewrite E.
Qed.

Lemma lockFirst_reaches R eventTyp ps :
  kept R → reaches (λ w, R w ∧ Forall (λ p, stored p w) ps) (lockFirst ctx eventTyp ps)
    (λ r w, R w ∧ match r with Some id => id = EmptyString ∨ ∃ p, p ∈ ps ∧ id = p_Id p | None => True end).
Proof.
  intros HR. induction ps as [|p ps IH]; [apply reaches_ret; naive_solver|]. cbn [lockFirst]. case_decide.
  - eapply reaches_bind; [eapply reaches_weaken; [apply (changeProposalStatus_reaches R p p PAUSED HR (rtc_refl _ _)); apply statuses_all| |]|].
    + intros w [? Hall]. split; [|done]. by apply Forall_cons in Hall as [? _].
    + intros q w Hq. exact Hq.
    + intros q. destruct (ctx_EnableAudit ctx); [|apply reaches_ret; intros w (? & _); split; [done|right; set_solver]].
      eapply reaches_bind; [eapply reaches_weaken; [apply (reaches_read _ R); [apply postAudit_reads|by apply kept_stable]| |]|].
      * by intros w (? & _).
      * intros o w Hw. exact Hw.
      * intros [[]|]; apply reaches_ret; intros w Hw; (split; [done|]); [right; set_solver|done].
  - eapply reaches_weaken; [exact IH| |].
    + intros w [? Hall]. by apply Forall_cons in Hall as [_ ?].
    + intros [id|] w [? Hid]; (split; [done|]); [|done]. destruct Hid as [->|(q & Hq & ->)]; [by left|right]. set_solver.
Qed.

(** ** The methods *)

Context `{!ManageLib}.
Definition safe {A} (Pre : world → Prop) (m : prog A) : Prop := reaches Pre m (λ _ _, True).

Lemma safe_weaken {A} (Pre : world → Prop) (m : prog A) Post : reaches Pre m Post → safe Pre m.
Proof. intros Hm. by eapply reaches_weaken. Qed.

(** A fact that does not depend on the state. *)
Lemma safe_fact {A} (F : Prop) (m : prog A) : (F → safe (λ _, True) m) → safe (λ _, F) m.
Proof. intros Hm w Hinv HF. by apply Hm. Qed.

Lemma safe_ret {A} Pre (a : A) : safe Pre (mret a).
Proof. by apply reaches_ret. Qed.

Lemma safe_pre {A} (Pre Pre' : world → Prop) (m : prog A) : (∀ w, Pre w → Pre' w) → safe Pre' m → safe Pre m.
Proof. intros Hp Hm. by eapply reaches_weaken. Qed.

(** A computation that reads, then one that is safe. *)
Lemma safe_read {A B} Pre (m : prog A) (f : A → prog B) :
  writes_only (λ _ _, False) m → stable Pre → (∀ a, safe Pre (f a)) → safe Pre (m ≫= f).
Proof. intros Hm Hst Hf. eapply reaches_bind; [by apply reaches_read|exact Hf]. Qed.

Lemma safe_denied c1 c2 l (m : prog Response) Pre :
  stable Pre → safe Pre m →
  safe Pre (denied ← checkSpecific ctx c1 c2 l; match denied with Some res => mret res | None => m end).
Proof. intros Hst Hm. apply safe_read; [apply checkSpecific_reads|done|]. intros [res|]; [apply safe_ret|done]. Qed.

Lemma stable_True : stable (λ _, True).
Proof. done. Qed.

Lemma audited_safe Pre id res : safe Pre (audited ctx id res).
Proof. eapply safe_pre; [by intros; exact I|]. by apply (safe_weaken _ _ _ (audited_reaches _ id res stable_True)). Qed.

Lemma manageObj_safe Pre typ ev next last objId extra : safe Pre (manageObj Manage ctx typ ev next last objId extra).
Proof.
  unfold manageObj. set (address := if decide (typ = RoleMgr) then _ else _).
  assert (address ≠ GovernanceContractAddr) as Hne.
  { pose proof gov_addrs_NoDup as Hnd. apply NoDup_cons in Hnd as [N1 Hnd]. apply NoDup_cons in Hnd as [N2 Hnd].
    apply NoDup_cons in Hnd as [N3 _]. rewrite !elem_of_cons in N1, N2, N3.
    unfold address. repeat case_decide; intros Heq; rewrite Heq in *; tauto. }
  eapply reaches_bind with (Mid := λ _ _, True); [|intros r; by apply reaches_ret]. intros w Hinv _. rewrite exec_CrossInvoke.
  pose proof (Manage_steps address ev next last objId extra (cross_context ctx address) w eq_refl Hne Hinv) as Hs.
  destruct (exec (Manage _ _ _ _ _ _ _) w) as [r w']. split; [exact Hs|done].
Qed.

Lemma change_safe p p' s : rtc proposal_step p p' → s ∈ statuses → safe (stored p) (changeProposalStatus ctx p' s).
Proof.
  intros Hs Hst. eapply safe_pre; [|by apply (safe_weaken _ _ _ (changeProposalStatus_reaches _ p p' s (kept_fact True) Hs Hst))].
  by intros w Hw.
Qed.

Lemma unlock_safe Pre lid restore reason : is_ascii reason → safe Pre (unlockLowPriorityProposal ctx lid restore reason).
Proof.
  intros Hr. unfold unlockLowPriorityProposal. eapply reaches_bind; [apply (reaches_GetObject Pre lid)|].
  intros [p|]; [|apply safe_ret]. eapply safe_pre; [intros w (_ & Hp & _); exact Hp|]. destruct restore; cbn [negb].
  - eapply reaches_bind; [apply (change_safe p p); [done|apply statuses_all]|]. intros q. apply safe_ret.
  - eapply reaches_bind; [apply (change_safe p _); [by apply rtc_once, pt_reason|apply statuses_all]|]. intros q. apply safe_ret.
Qed.

Lemma handleResult_safe Pre p : is_ascii (p_Id p) → safe Pre (handleResult Manage ctx p).
Proof.
  intros Hid%Is_true_true. unfold handleResult.
  assert (is_ascii (PriorityReason +:+ "(" +:+ p_Id p +:+ ")")) as Hr.
  { rewrite !is_ascii_app, Hid. vm_compute. exact I. }
  eapply reaches_bind with (Mid := λ _ _, True).
  - case_decide; [|by apply reaches_ret]. case_decide; [|by apply unlock_safe].
    eapply reaches_bind; [by apply unlock_safe|]. intros o. by apply reaches_ret.
  - intros [ev|]; [apply manageObj_safe|apply safe_ret].
Qed.

Lemma ended_safe p id res : is_ascii (p_Id p) → safe (λ _, True)
  (ok ← handleResult Manage ctx p; match ok with None => mret internalErr | Some _ => audited ctx id res end).
Proof. intros Hid. eapply reaches_bind; [by apply handleResult_safe|]. intros [[]|]; [apply audited_safe|apply safe_ret]. Qed.

(** The status of a stored proposal changes; the id that it keeps is ASCII. *)
Lemma change_known p p' s :
  rtc proposal_step p p' → s ∈ statuses →
  reaches (stored p) (changeProposalStatus ctx p' s) (λ q w, stored q w ∧ p_Id q = p_Id p ∧ is_ascii (p_Id q)).
Proof.
  intros Hs Hst w Hinv Hp. pose proof (gi_prop _ _ Hinv _ _ Hp) as Hok.
  destruct (proposal_steps_ok _ _ _ Hok Hs) as (Hok' & Hid & _).
  destruct (changeProposalStatus_reaches _ p p' s (kept_fact True) Hs Hst w Hinv (conj Hp I)) as [Hsteps Hq].
  split; [done|]. intros q Hr. destruct (Hq q Hr) as (_ & -> & Hq'). split_and!; [done|done|]. cbn.
  by apply po_ascii, text_split in Hok' as [(? & _) _].
Qed.

Lemma ZeroPermission_safe id : safe (λ _, True) (ZeroPermission Manage ctx id).
Proof.
  unfold ZeroPermission. eapply reaches_bind; [apply (reaches_GetObject _ id)|]. intros [p|]; [|apply safe_ret].
  case_decide; [|apply safe_ret]. eapply safe_pre; [intros w (_ & Hp & _); exact Hp|]. eapply reaches_bind.
  - apply (change_known p (with_p_EndReason p ZeroPermissionReason)); [|apply statuses_all].
    apply rtc_once, pt_reason. vm_compute. exact I.
  - intros q. eapply safe_pre; [intros w (_ & _ & Hq); exact Hq|]. apply safe_fact. intros Hq. by apply (ended_safe q).
Qed.

Definition ended_ok (r : result Proposal) : Prop := match r with inl p => Is_true (is_ascii (p_Id p)) | inr _ => True end.

Lemma endProposal_reaches id reason extra :
  is_ascii reason → is_ascii (default EmptyString extra) →
  reaches (λ _, True) (endProposal ctx id reason extra)
    (λ r _, ended_ok r).
Proof.
  intros Hr Hx. unfold endProposal. eapply reaches_bind; [apply (reaches_GetObject _ id)|]. intros [p|]; [|by apply reaches_ret].
  case_decide; [by apply reaches_ret|]. cbv zeta.
  eapply reaches_weaken with (Pre' := stored p) (Post' := λ r _, ended_ok r);
    [|by intros w (_ & Hp & _)|done].
  eapply reaches_bind; [apply (change_known p _); [|apply statuses_all]|].
  - case_decide; [|by apply rtc_once, pt_reason]. eapply rtc_l; [by apply (pt_reason p reason)|]. by apply rtc_once, pt_withdraw.
  - intros q. apply reaches_ret. by intros w (_ & _ & ?).
Qed.

Lemma endProposal_safe Pre id reason extra :
  is_ascii reason → is_ascii (default EmptyString extra) → safe Pre (endProposal ctx id reason extra).
Proof. intros Hr Hx. eapply safe_pre; [by intros; exact I|]. by eapply safe_weaken, endProposal_reaches. Qed.

Lemma WithdrawProposal_safe id reason : is_ascii reason → safe (λ _, True) (WithdrawProposal Manage ctx id reason).
Proof.
  intros Hr. unfold WithdrawProposal. destruct (sponsor id) as [f|]; [|apply reaches_panic].
  apply safe_read; [|done|].
  - cbn [checkPermission]. rewrite decide_True by done. by case_decide.
  - intros []; cbn [negb]; [|apply safe_ret].
    eapply reaches_bind; [apply endProposal_reaches; [vm_compute; exact I|exact Hr]|]. intros [p|e]; [|apply safe_ret].
    apply safe_fact. intros Hq. by apply ended_safe.
Qed.

Lemma endAll_safe reason extra ps :
  is_ascii reason → is_ascii (default EmptyString extra) → safe (λ _, True) (endAll ctx reason extra ps).
Proof.
  intros Hr Hx. induction ps as [|p ps IH]; [apply safe_ret|]. cbn [endAll]. case_decide; [|exact IH].
  eapply reaches_bind; [by apply endProposal_safe|]. intros [q|e]; [|apply safe_ret].
  eapply reaches_bind; [apply audited_safe|]. intros r. destruct (resp_Ok r); [exact IH|apply safe_ret].
Qed.

Lemma EndObjProposal_safe objId reason extra :
  is_ascii reason → is_ascii (default EmptyString extra) → safe (λ _, True) (EndObjProposal ctx objId reason extra).
Proof.
  intros Hr Hx. unfold EndObjProposal. apply safe_denied; [done|].
  eapply reaches_bind; [eapply safe_weaken, (proposalsAt_stored _ (λ _, True))|]. intros [ps|]; [|apply safe_ret].
  eapply reaches_bind; [by apply endAll_safe|]. intros r. apply safe_ret.
Qed.

(** *** Votes *)

Lemma setVote_reaches p addr approve reason :
  is_ascii reason →
  reaches (stored p) (setVote ctx p addr approve reason) (λ r w, resp_Ok r.1 → stored r.2 w ∧ p_Id r.2 = p_Id p).
Proof.
  intros Hr. unfold setVote. case_decide; [by apply reaches_ret|].
  destruct (list_find _ _) as [[i e]|] eqn:Ef; [|by apply reaches_ret]. apply list_find_Some in Ef as (He & -> & _).
  apply list_elem_of_lookup_2 in He. unfold castVote. case_decide as Hb; [by apply reaches_ret|].
  rewrite <-eq_None_not_Some in Hb. cbv zeta. set (b := MkBallot _ _ _ _ _). set (super := if decide (SuperAdminWeight = _) then true else _).
  assert (∀ an ag, ((approve = BallotApprove ∧ an = p_ApproveNum p +u 1 ∧ ag = p_AgainstNum p) ∨
                    (approve = BallotReject ∧ an = p_ApproveNum p ∧ ag = p_AgainstNum p +u 1)) →
    reaches (stored p)
      (threshold ← getCurThresholdApproveNum (p_StrategyExpression p) an ag (p_InitialElectorateNum p) (p_AvailableElectorateNum p);
       match threshold with
       | None => mret (internalErr, with_p_votes p (<[rl_ID e := b]> (p_BallotMap p)) an ag super)
       | Some threshold =>
           let q := with_p_nums (with_p_votes p (<[rl_ID e := b]> (p_BallotMap p)) an ag super) (p_AvailableElectorateNum p) threshold in
           _ ← SetObject ctx (ProposalKey (p_Id q)) q; mret (Success None, q)
       end) (λ r w, resp_Ok r.1 → stored r.2 w ∧ p_Id r.2 = p_Id p)) as Hcast.
  { intros an ag Hc. eapply reaches_bind; [apply reaches_read; [apply threshold_reads|apply stable_stored]|].
    intros [t|]; [|by apply reaches_ret]. cbv zeta. set (q := with_p_nums _ _ _).
    assert (rtc proposal_step p q) as Hq.
    { eapply rtc_l; [|apply rtc_once, pt_nums]. by apply (pt_vote p e an ag b super). }
    eapply reaches_bind; [eapply reaches_weaken; [apply (put_reaches (λ _, True) p q (kept_fact True) Hq)|by intros w Hw|]|].
    - intros u w Hw. exact Hw.
    - intros u. apply reaches_ret. intros w [_ Hw] _. by split. }
  repeat case_decide; [apply Hcast; auto|apply Hcast; auto|by apply reaches_ret].
Qed.

Lemma closeProposal_known p p' reason b :
  rtc proposal_step p p' → is_ascii reason →
  reaches (stored p) (closeProposal ctx p' reason b) (λ q w, stored q w ∧ p_Id q = p_Id p ∧ is_ascii (p_Id q)).
Proof.
  intros Hs Hr. unfold closeProposal. apply (change_known p); [|destruct b; apply statuses_all].
  eapply rtc_r; [exact Hs|]. by apply pt_reason.
Qed.

Lemma countVote_reaches p :
  reaches (stored p) (countVote ctx p)
    (λ r _, match r with Some (true, q) => Is_true (is_ascii (p_Id q)) | _ => True end).
Proof.
  unfold countVote. destruct (p_IsSpecial p && _); [by apply reaches_ret|].
  eapply reaches_bind; [apply reaches_read; [apply MakeStrategyDecision_reads|apply stable_stored]|].
  intros [[[] b]|]; [|by apply reaches_ret..].
  eapply reaches_bind; [apply (closeProposal_known p p); [done|vm_compute; exact I]|]. intros q. apply reaches_ret.
  by intros w (_ & _ & ?).
Qed.

Lemma Vote_safe id approve reason : is_ascii reason → safe (λ _, True) (Vote Manage ctx id approve reason).
Proof.
  intros Hr. unfold Vote. cbv zeta. apply safe_read; [apply isAvailable_reads|done|]. intros [data|c l]; [|apply safe_ret].
  case_decide; [apply safe_ret|]. eapply reaches_bind; [apply (reaches_GetObject _ id)|]. intros [p|]; [|apply safe_ret].
  eapply safe_pre; [intros w (_ & Hp & _); exact Hp|]. eapply reaches_bind; [by apply setVote_reaches|]. intros [res q].
  destruct (resp_Ok res) eqn:Eok; cbn [negb]; [|apply safe_ret]. eapply safe_pre with (Pre' := stored q).
  { intros w Hq. apply Hq. cbn. by rewrite Eok. }
  eapply reaches_bind; [apply countVote_reaches|]. intros [[[] q']|]; [|apply audited_safe|apply safe_ret].
  apply safe_fact. intros Hq. by apply ended_safe.
Qed.

(** *** Priorities and the electorate *)

Lemma lockLowPriorityProposal_reaches R objId ev :
  kept R → reaches R (lockLowPriorityProposal ctx objId ev)
    (λ r w, R w ∧ match r with Some id => Is_true (is_ascii id) | None => True end).
Proof.
  intros HR w Hinv HRw. unfold lockLowPriorityProposal. revert w Hinv HRw.
  change (reaches R (proposals ← getProposalsByObjId ctx objId;
    match proposals with None => mret None | Some proposals => lockFirst ctx ev proposals end)
    (λ r w, R w ∧ match r with Some id => Is_true (is_ascii id) | None => True end)).
  eapply reaches_bind; [apply (proposalsAt_stored _ R)|]. intros [ps|]; [|apply reaches_ret; by intros w [? _]].
  intros w Hinv [HRw [Hall _]]. assert (Forall (λ p, is_ascii (p_Id p)) ps) as Hids.
  { eapply Forall_impl; [exact Hall|]. intros p Hp. pose proof (gi_prop _ _ Hinv _ _ Hp) as Hok.
    by apply po_ascii, text_split in Hok as [(? & _) _]. }
  destruct (lockFirst_reaches R ev ps HR w Hinv (conj HRw Hall)) as [Hs Hpost]. split; [done|]. intros r Hr.
  destruct (Hpost r Hr) as [? Hid]. split; [done|]. destruct r as [id|]; [|done].
  destruct Hid as [->|(p & Hp & ->)]; [done|]. rewrite Forall_forall in Hids. by apply Hids.
Qed.

Lemma LockLowPriorityProposal_safe objId ev : safe (λ _, True) (LockLowPriorityProposal ctx objId ev).
Proof.
  apply safe_denied; [done|]. eapply reaches_bind; [apply (lockLowPriorityProposal_reaches (λ _, True)), kept_fact|].
  intros [id|]; by apply reaches_ret.
Qed.

Lemma UnLockLowPriorityProposal_safe objId ev : safe (λ _, True) (UnLockLowPriorityProposal Manage ctx objId ev).
Proof.
  apply safe_denied; [done|]. eapply reaches_bind with (Mid := λ _ _, True).
  - unfold getHightestPriorityPausedProposalByObjId, getProposalsByObjStatus. eapply reaches_bind with (Mid := λ _ _, True).
    + eapply reaches_bind; [eapply safe_weaken, (proposalsAt_stored _ (λ _, True))|]. intros r. by apply reaches_ret.
    + intros r. by apply reaches_ret.
  - intros [[p|]|]; [|apply safe_ret..]. eapply reaches_bind; [by apply unlock_safe|]. intros [next|]; [|apply safe_ret].
    eapply reaches_bind; [apply manageObj_safe|]. intros [[]|]; [apply audited_safe|apply safe_ret].
Qed.

Lemma UpdateAvailableElectorateNum_safe id num : safe (λ _, True) (UpdateAvailableElectorateNum Manage ctx id num).
Proof.
  apply safe_denied; [done|]. eapply reaches_bind; [apply (reaches_GetObject _ id)|]. intros [p|]; [|apply safe_ret].
  eapply safe_pre; [intros w (_ & Hp & _); exact Hp|]. cbv zeta. case_decide; [apply safe_ret|].
  apply safe_read; [apply threshold_reads|apply stable_stored|]. intros [t|]; [|apply safe_ret].
  set (q := with_p_nums p num t). assert (rtc proposal_step p q) as Hq by apply rtc_once, pt_nums.
  apply safe_read; [apply MakeStrategyDecision_reads|apply stable_stored|]. intros [[[] b]|]; [..|apply safe_ret].
  - eapply reaches_bind; [apply (closeProposal_known p q); [done|vm_compute; exact I]|]. intros q'.
    eapply safe_pre; [intros w (_ & _ & Hid); exact Hid|]. apply safe_fact. intros Hid. by apply ended_safe.
  - eapply reaches_bind; [eapply reaches_weaken; [apply (put_reaches (λ _, True) p q (kept_fact True) Hq)|by intros w Hw|]|].
    + intros u w Hw. exact Hw.
    + intros u. apply audited_safe.
Qed.

(** *** Submitting *)

(** What the role and the strategy contract have stored is ASCII, and there are not too many
administrators to count. *)
Record peers_ok w : Prop := {
  pk_roles k d (r : Role) : w_state w RoleContractAddr k = Some d → unmarshal d = Some r → Forall is_ascii (Role_text r);
  pk_few d (m : OrderedMap) : w_state w RoleContractAddr (RoleTypeKey GovernanceAdmin) = Some d → unmarshal d = Some m →
    (Z.of_nat (length (om_Keys m)) < 2 ^ 63)%Z;
  pk_strategies k d (s : ProposalStrategy) : w_state w ProposalStrategyMgrContractAddr k = Some d → unmarshal d = Some s →
    Forall is_ascii (Strategy_text s) }.

Lemma exec_rolesOf ctx' ids w :
  ∃ r, exec (rolesOf ctx' ids) w = (Some r, w) ∧
    match r with
    | Some l => length l = length ids ∧ ∀ x, x ∈ l → ∃ k d, w_state w (ctx_Callee ctx') k = Some d ∧ unmarshal d = Some x
    | None => True
    end.
Proof.
  induction ids as [|id ids (r & E & Hr)]; [exists (Some []); split; [done|]; split; [done|]; by intros x ?%elem_of_nil|].
  cbn [rolesOf]. rewrite exec_bind, exec_GetObject. destruct (w_state w (ctx_Callee ctx') (RoleKey id)) as [d|] eqn:Ed; [|by exists None].
  cbn [mbind option_bind]. destruct (unmarshal d) as [x|] eqn:Ex; [|by exists None]. rewrite exec_bind, E.
  exists (cons x <$> r). split; [done|]. destruct r as [l|]; [|done]. cbn. destruct Hr as [-> Hl]. split; [done|].
  intros y [->|Hy]%elem_of_cons; [eauto|by apply Hl].
Qed.

Lemma roles_roundtrip (l : list Role) :
  Forall is_ascii (l ≫= Role_text) → ∃ e, marshal l = Some e ∧ unmarshal e = Some l.
Proof. intros Ha. destruct (json_marshals l) as [e He]. exists e. split; [done|]. by apply json_ok. Qed.

Lemma exec_getElectorate w :
  peers_ok w →
  ∃ r, exec (getElectorate ctx) w = (Some r, w) ∧
    match r with Some l => Forall is_ascii (l ≫= Role_text) ∧ (Z.of_nat (length l) < 2 ^ 63)%Z | None => True end.
Proof.
  intros Hw. unfold getElectorate. rewrite exec_bind, exec_CrossInvoke.
  unfold GetRolesByType, getRolesByType. rewrite decide_False by (rewrite !elem_of_cons; tauto).
  rewrite !exec_bind, exec_GetObject. cbn [ctx_Callee cross_context].
  destruct (w_state w RoleContractAddr (RoleTypeKey GovernanceAdmin)) as [d|] eqn:Ed; cbn [mbind option_bind].
  2:{ destruct (roles_roundtrip []) as (e & He & Hu); [constructor|]. cbn. rewrite He. cbn. rewrite Hu.
      eexists. split; [done|]. cbn. split; [constructor|lia]. }
  destruct (unmarshal d) as [m|] eqn:Em.
  2:{ destruct (roles_roundtrip []) as (e & He & Hu); [constructor|]. cbn. rewrite He. cbn. rewrite Hu.
      eexists. split; [done|]. cbn. split; [constructor|lia]. }
  rewrite exec_bind. destruct (exec_rolesOf (cross_context ctx RoleContractAddr) (om_Keys m) w) as (r & -> & Hr).
  destruct r as [l|]; [|cbn; by exists None]. destruct Hr as [Hlen Hl].
  assert (Forall is_ascii (l ≫= Role_text)) as Ha.
  { rewrite Forall_forall. intros x (r & Hx & Hr)%list_elem_of_bind. destruct (Hl r Hr) as (k & e & Hk & He).
    pose proof (pk_roles _ Hw k e r Hk He) as Hall. rewrite Forall_forall in Hall. by apply Hall. }
  destruct (roles_roundtrip l Ha) as (e & He & Hu). cbn. rewrite He. cbn. rewrite Hu. cbn.
  eexists. split; [done|]. pose proof (length_filter (λ r, IsAvailable r) l) as Hle.
  pose proof (pk_few _ Hw d m Ed Em). split; [|lia].
  rewrite Forall_forall in Ha |- *. intros x (r & Hx & [_ Hr]%list_elem_of_filter)%list_elem_of_bind.
  apply Ha. apply list_elem_of_bind. eauto.
Qed.

Lemma strategy_roundtrip (ps : ProposalStrategy) :
  Forall is_ascii (Strategy_text ps) → ∃ e, marshal ps = Some e ∧ unmarshal e = Some ps.
Proof. intros Ha. destruct (json_marshals ps) as [e He]. exists e. split; [done|]. by apply json_ok. Qed.

(** A computation that leaves the state alone. *)
Lemma exec_pure_bind {A B} (m : prog A) (f : A → prog B) w :
  (exec m w).2 = w → exec (m ≫= f) w = match (exec m w).1 with Some a => exec (f a) w | None => (None, w) end.
Proof. intros Hm. rewrite exec_bind. destruct (exec m w) as [[a|] w']; cbn in *; by subst. Qed.

(** Computations without a write and without an event. *)
Lemma exec_threshold e a r t av w : (exec (getCurThresholdApproveNum e a r t av) w).2 = w.
Proof.
  unfold getCurThresholdApproveNum. generalize (S (Z.to_nat (t + 1 - a))). intros n. revert a.
  induction n as [|n IH]; intros a; [done|]. cbn [threshold_loop]. case_decide; [done|]. rewrite exec_bind.
  unfold MakeStrategyDecision. repeat case_match; simplify_eq/=; try done; apply IH.
Qed.

Lemma CheckManageModule_ascii m : CheckManageModule m = true → is_ascii m.
Proof.
  intros Hm%bool_decide_eq_true. repeat (apply elem_of_cons in Hm as [->|Hm]; [vm_compute; exact I|]). by apply elem_of_nil in Hm.
Qed.

Lemma default_ascii m : is_ascii m → Forall is_ascii (Strategy_text (defaultStrategy m)).
Proof. intros Hm. repeat constructor; cbn; [done|vm_compute; exact I..|apply available_ascii]. Qed.

Lemma exec_getStrategyInfo w m n :
  peers_ok w →
  (exec (getStrategyInfo ctx m n) w).2 = w ∧
  ∀ e t (th : Z), (exec (getStrategyInfo ctx m n) w).1 = Some (Some (e, t, th)) → is_ascii m ∧ is_ascii e ∧ is_ascii t.
Proof.
  intros Hw. unfold getStrategyInfo. destruct (CheckManageModule m) eqn:Em; cbn [negb]; [|done].
  pose proof (CheckManageModule_ascii m Em) as Hm. rewrite exec_bind, exec_CrossInvoke. unfold GetProposalStrategy.
  rewrite Em. cbn [negb]. rewrite exec_bind, exec_GetObject. cbn [ctx_Callee cross_context].
  set (ps := default (defaultStrategy m) _).
  assert (Forall is_ascii (Strategy_text ps)) as Ha.
  { subst ps. destruct (w_state w ProposalStrategyMgrContractAddr (ProposalStrategyKey m)) as [d|] eqn:Ed; cbn.
    - destruct (unmarshal d) as [ps|] eqn:Eu; [by apply (pk_strategies _ Hw (ProposalStrategyKey m) d)|by apply default_ascii].
    - by apply default_ascii. }
  destruct (strategy_roundtrip ps Ha) as (e & He & Hu). rewrite He. cbn [exec mret prog_mret]. cbn [mbind option_bind]. rewrite Hu.
  unfold Strategy_text in Ha. rewrite !Forall_cons in Ha. cbn beta in Ha. destruct Ha as (_ & Ht & Hx & _).
  case_decide; [cbn; split; [done|]; by intros ??? [= <- <- <-]|]. rewrite exec_pure_bind by apply exec_threshold.
  destruct (exec (getCurThresholdApproveNum _ _ _ _ _) w).1 as [o|]; [|by split].
  split; [done|]. intros ???. destruct o; [|done]. by intros [= <- <- <-].
Qed.

(** The arguments of a submission. *)
Record submission_ok (from eventTyp typ objId objLastStatus reason : string) : Prop := {
  so_dash : str_contains dash from = false;
  so_from : is_ascii from; so_event : is_ascii eventTyp; so_obj : is_ascii objId;
  so_last : is_ascii objLastStatus; so_reason : is_ascii reason }.

Lemma fmt_d_ascii n : (0 ≤ n)%Z → is_ascii (fmt_d n).
Proof.
  intros Hn. assert (∀ s, (∀ c, is_digit c = false → str_contains c s = false) → is_ascii s) as Hs.
  { induction s as [|c s IH]; [done|]. intros Hc. cbn. destruct (is_digit c) eqn:Ed.
    - apply andb_True. split; [|apply IH; intros d Hd; apply Hc in Hd; cbn in Hd; by apply orb_false_iff in Hd as [_ ?]].
      apply bool_decide_spec. apply bool_decide_eq_true in Ed. lia.
    - specialize (Hc c Ed). cbn in Hc. by rewrite bool_decide_true in Hc. }
  apply Hs. intros c Hc. by apply fmt_d_no_char.
Qed.

Lemma addProposal_safe f p :
  str_contains dash f = false → proposal_ok (p_Id p) p →
  safe (λ w, p_Id p = f +:+ "-" +:+ fmt_d (Z.of_nat (length (gov_ids w (ProposalFromKey f))))) (addProposal ctx p).
Proof.
  intros Hf Hok w Hinv Hid.
  destruct (addProposal_stores ctx Hctx w _ _ p (stores_self w) (gov_ok_ascii _ _ Hinv) (po_ascii _ _ Hok)) as (w' & E & _).
  rewrite E. split; [|done]. by eapply rtc_once, gs_submit.
Qed.

Lemma exec_checkSpecific c1 c2 l w : (exec (checkSpecific ctx c1 c2 l) w).2 = w.
Proof.
  unfold checkSpecific. case_match; [|done]. cbn [checkPermission]. rewrite decide_False, decide_False, decide_True by done.
  by repeat case_match.
Qed.

(** The end of a submission: a proposal is locked and the new one is added. *)
Lemma submit_safe from eventTyp typ objId objLastStatus reason extra n l e t th :
  submission_ok from eventTyp typ objId objLastStatus reason →
  Forall is_ascii (l ≫= Role_text) → (Z.of_nat (length l) < 2 ^ 63)%Z → is_ascii typ → is_ascii e → is_ascii t →
  safe (λ w, n = length (gov_ids w (ProposalFromKey from)))
    (lockPId ← lockLowPriorityProposal ctx objId eventTyp;
     match lockPId with None => mret internalErr | Some lockPId =>
     let p := MkProposal (from +:+ "-" +:+ fmt_d (Z.of_nat n)) typ PROPOSED objId objLastStatus ∅ 0 0 l
                (Z.of_nat (length l)) (Z.of_nat (length l)) th eventTyp EmptyString lockPId
                (isSpecialProposal typ eventTyp) false reason EmptyString t e (ctx_TxTimeStamp ctx) extra in
     _ ← addProposal ctx p; audited ctx (p_Id p) (Success (Some (p_Id p)))
     end).
Proof.
  intros [Hdash Hfrom Hev Hobj Hlast Hreason] Hl Hfew Htyp He Ht.
  eapply reaches_bind; [apply (lockLowPriorityProposal_reaches (λ w, n = length (gov_ids w (ProposalFromKey from))))|].
  { intros w w' Hf ->. by rewrite Hf. }
  intros [lid|]; [|apply safe_ret]. cbv zeta. set (p := MkProposal _ _ _ _ _ _ _ _ _ _ _ _ _ _ _ _ _ _ _ _ _ _ _).
  intros w Hinv [Hn Hlid]. assert (proposal_ok (p_Id p) p) as Hok.
  { split; try done; [apply statuses_all|]. apply text_split. cbn.
    split_and!; try done.
    rewrite !is_ascii_app, (Is_true_true_1 _ Hfrom), (Is_true_true_1 _ (fmt_d_ascii (Z.of_nat n) ltac:(lia))). done. }
  revert w Hinv Hn Hlid. cut (safe (λ w, n = length (gov_ids w (ProposalFromKey from)))
    (_ ← addProposal ctx p; audited ctx (p_Id p) (Success (Some (p_Id p))))).
  { intros Hcut w Hinv Hn _. by apply Hcut. }
  eapply reaches_bind; [|intros u; apply audited_safe].
  eapply safe_pre; [|by apply (addProposal_safe from p)]. by intros w ->.
Qed.

Lemma exec_proposalsAt key w : (exec (proposalsAt ctx key) w).2 = w.
Proof.
  unfold proposalsAt. rewrite exec_bind, exec_GetObject. destruct (mbind _ _) as [m|]; [|done].
  induction (om_Keys m) as [|id ids IH]; [done|]. cbn [proposalsOf]. rewrite exec_bind, exec_GetObject.
  destruct (mbind _ _) as [p|]; [|done]. rewrite exec_pure_bind by exact IH. by case_match.
Qed.

Lemma SubmitProposal_safe from eventTyp typ objId objLastStatus reason extra :
  submission_ok from eventTyp typ objId objLastStatus reason →
  safe peers_ok (SubmitProposal ctx from eventTyp typ objId objLastStatus reason extra).
Proof.
  intros Hargs w Hinv Hw. unfold SubmitProposal.
  rewrite exec_pure_bind by apply exec_checkSpecific. destruct (exec (checkSpecific _ _ _ _) w).1 as [[res|]|]; [by split| |by split].
  destruct (proposalsAt_stored (ProposalFromKey from) (λ _, True) w Hinv I) as [_ Hret].
  rewrite exec_pure_bind by apply exec_proposalsAt. rewrite exec_proposalsAt in Hret. unfold getProposalsByFrom.
  destruct (exec (proposalsAt _ _) w).1 as [[ret|]|]; [|by split..]. destruct (Hret _ eq_refl) as [_ [_ Hlen]].
  rewrite exec_bind. destruct (exec_getElectorate w Hw) as (r & -> & Hr). destruct r as [l|]; [|by split].
  destruct Hr as [Hl Hfew]. cbv zeta. destruct (exec_getStrategyInfo w typ (Z.of_nat (length l)) Hw) as [Hsame Hinfo].
  rewrite exec_pure_bind by exact Hsame. destruct (exec (getStrategyInfo _ _ _) w).1 as [[[[e t] th]|]|]; [|by split..].
  destruct (Hinfo e t th eq_refl) as (Htyp & He & Ht). by apply submit_safe.
Qed.
End methods.
End theorems.
