(* ===== verification/GovernanceClaims.v ===== *)
(** * Claims about governance

The states that the governance contract reaches and their invariant, what a strategy decides, and
what a vote does. *)
From Stdlib Require Import Ascii.
From S2P Require Import Prelude Storage Account StateLedger Contract TransactionManager Role Governance.
From S2P Require Import GovernanceProps GovernanceSteps GovernanceTheorems.

(** ** Strategies *)

Section strategies.
Context `{EvalLib}.
Implicit Types (e : string) (a r t av : Z).

(** The number of approvals that a proposal still waits for is computed in every case: the search ends, and
it finds the least number from the current approvals up to the size of the electorate with which the
expression passes, or reports that there is none. *)
Theorem threshold_least e a r t av w :
  decides e t → (0 ≤ a)%Z → (t < 2 ^ 64 - 1)%Z →
  ∃ res, exec (getCurThresholdApproveNum e a r t av) w = (Some res, w) ∧
    match res with
    | Some m => (a ≤ m ≤ t)%Z ∧ passes e m r t ∧ ∀ a', (a ≤ a' < m)%Z → ¬ passes e a' r t
    | None => ∀ a', (a ≤ a' ≤ t)%Z → ¬ passes e a' r t
    end.
Proof.
  intros Hd Ha Ht. destruct (threshold_loop_spec e r t av _ a Hd Ha Ht eq_refl) as (res & E & Hres).
  exists res. unfold getCurThresholdApproveNum. by rewrite E.
Qed.

(** C24: For an expression that can be evaluated and that more approvals and fewer rejections can only help
([monotone]), and as long as there are not more rejections than available electors: a decision is made; when it is to
approve, the expression passes, also with more approvals; when it is to reject, the rest of the available electors
could not pass the proposal; when it is left open, the proposal has not passed and passes if all other available
electors approve. With more rejections than available electors the subtraction wraps around and this is false
([wrapped_electorate_open]). *)
Theorem decision_sound e a r t av w :
  decides e t → monotone e t → (0 ≤ r ≤ av)%Z → (av < 2 ^ 64)%Z →
  ∃ over approved, exec (MakeStrategyDecision e a r t av) w = (Some (Some (over, approved)), w) ∧
    (approved = true → over = true ∧ ∀ a', (a ≤ a')%Z → passes e a' r t) ∧
    (over = true → approved = false → ∀ a' r', (r ≤ r')%Z → (a' + r' ≤ av)%Z → ¬ passes e a' r' t) ∧
    (over = false → ¬ passes e a r t ∧ passes e (av - r) r t).
Proof.
  intros Hd Hm Hr Hav. assert (u64 (av - r) = av - r)%Z as Hu by (apply u64_small; unfold is_u64; lia).
  destruct (decision_cases e a r t av Hd) as [[Hp ->]|[(Hp & Hq & ->)|(Hp & Hq & ->)]]; rewrite ?Hu in *;
    (eexists _, _; split; [done|]; split_and!; try done).
  - intros _. split; [done|]. intros a' Ha'. by apply (Hm a a' r r).
  - intros _ _ a' r' Hr' Hsum Hp'. apply Hq. apply (Hm a' (av - r)%Z r' r); [lia|lia|done].
Qed.

(** When electors have been removed until fewer are left than have voted against a proposal, the number of
votes that could still be cast wraps around: it becomes larger than the electorate, and the proposal
is left open although the remaining electors cannot pass it. *)
Theorem wrapped_electorate_open e a r t av w :
  decides e t → monotone e t → ¬ passes e a r t → (0 ≤ av < r)%Z → (r < 2 ^ 63)%Z →
  passes e (2 ^ 63) r t →
  exec (MakeStrategyDecision e a r t av) w = (Some (Some (false, false)), w).
Proof.
  intros Hd Hm Hn Hav Hr Hp. destruct (decision_cases e a r t av Hd) as [[? _]|[(_ & _ & ->)|(_ & Hq & _)]]; [done|done|].
  destruct Hq. apply (Hm (2 ^ 63)%Z _ r r); [|lia|done].
  unfold u64. rewrite <-(Z.mod_unique (av - r) (2 ^ 64) (-1) (av - r + 2 ^ 64)); lia.
Qed.
End strategies.

(** ** The contract *)

Section contract.
Context `{GovernanceLib, GovJsonLib, ProposalJsonLib, EvalLib, ConstantLib, !GovAddrLib, GoRange, !ManageLib}.
Implicit Types (w : world) (p : Proposal) (id k : string).

(** The methods that change the state of the contract. *)
Inductive gov_call : Type :=
| CallSubmit (from eventTyp typ objId objLastStatus reason : string) (extra : option string)
| CallZero (id : string)
| CallWithdraw (id reason : string)
| CallEndObj (objId reason : string) (extra : option string)
| CallVote (id approve reason : string)
| CallLock (objId eventTyp : string)
| CallUnlock (objId eventTyp : string)
| CallUpdate (id : string) (num : Z).

Definition run_call (ctx : Context) (c : gov_call) : prog Response :=
  match c with
  | CallSubmit from eventTyp typ objId objLastStatus reason extra =>
      SubmitProposal ctx from eventTyp typ objId objLastStatus reason extra
  | CallZero id => ZeroPermission Manage ctx id
  | CallWithdraw id reason => WithdrawProposal Manage ctx id reason
  | CallEndObj objId reason extra => EndObjProposal ctx objId reason extra
  | CallVote id approve reason => Vote Manage ctx id approve reason
  | CallLock objId eventTyp => LockLowPriorityProposal ctx objId eventTyp
  | CallUnlock objId eventTyp => UnLockLowPriorityProposal Manage ctx objId eventTyp
  | CallUpdate id num => UpdateAvailableElectorateNum Manage ctx id num
  end.

(** JSON keeps the text of the arguments; a sponsor is an address, without a dash. *)
Definition call_ok w (c : gov_call) : Prop :=
  match c with
  | CallSubmit from eventTyp typ objId objLastStatus reason _ =>
      submission_ok from eventTyp typ objId objLastStatus reason ∧ peers_ok w
  | CallWithdraw _ reason | CallVote _ _ reason => Is_true (is_ascii reason)
  | CallEndObj _ reason extra => Is_true (is_ascii reason) ∧ Is_true (is_ascii (default EmptyString extra))
  | CallZero _ | CallLock _ _ | CallUnlock _ _ | CallUpdate _ _ => True
  end.

(** The states after some calls, whatever they answered and whoever made them, and whatever other contracts did
in between. *)
Inductive gov_reachable : world → Prop :=
| gr_genesis w : (∀ k, gov_get w k = None) → gov_reachable w
| gr_call w ctx c :
    gov_reachable w → ctx_Callee ctx = GovernanceContractAddr → call_ok w c → gov_reachable (exec (run_call ctx c) w).2
| gr_other w w' : gov_reachable w → (∀ k, gov_get w' k = gov_get w k) → gov_reachable w'.

Lemma genesis_inv w : (∀ k, gov_get w k = None) → gov_inv w.
Proof.
  intros Hw. assert (∀ id, gov_prop w id = None) as HP by (intros; unfold gov_prop; by rewrite Hw).
  assert (∀ k, gov_ids w k = []) as HI by (intros; unfold gov_ids; by rewrite Hw).
  split; intros *; rewrite ?HI, ?HP; try done; (split; [by intros ?%elem_of_nil|]).
  1-3: by intros (p & ? & _). intros [[? ?] _]. congruence.
Qed.

Lemma run_call_steps w ctx c :
  gov_inv w → ctx_Callee ctx = GovernanceContractAddr → call_ok w c → rtc gov_step w (exec (run_call ctx c) w).2.
Proof.
  intros Hinv Hctx Hc. destruct c; cbn [run_call call_ok] in *.
  - destruct Hc. by apply SubmitProposal_safe.
  - by apply ZeroPermission_safe.
  - by apply WithdrawProposal_safe.
  - destruct Hc. by apply EndObjProposal_safe.
  - by apply Vote_safe.
  - by apply LockLowPriorityProposal_safe.
  - by apply UnLockLowPriorityProposal_safe.
  - by apply UpdateAvailableElectorateNum_safe.
Qed.

Lemma gov_reachable_inv w : gov_reachable w → gov_inv w.
Proof.
  induction 1 as [w Hw|w ctx c _ IH Hctx Hc|w w' _ IH Hw]; [by apply genesis_inv| |].
  - eapply gov_steps_inv; [by apply run_call_steps|done].
  - eapply gov_step_inv; [by apply gs_foreign|done].
Qed.

(** C7: In every state that the governance contract reaches: the ordered maps by sponsor, object, type and
status list exactly the stored proposals they should, so that a proposal is in one status only; the
proposals of a sponsor are numbered from 0 without a gap, so that no submission takes the id of
another; and in each proposal, every ballot is of a member of the electorate, approves or
rejects, and is counted once. *)
Theorem governance_invariant w :
  gov_reachable w →
  (∀ s id, id ∈ gov_ids w (ProposalStatusKey s) ↔ ∃ p, gov_prop w id = Some p ∧ p_Status p = s) ∧
  (∀ o id, id ∈ gov_ids w (ProposalObjKey o) ↔ ∃ p, gov_prop w id = Some p ∧ p_ObjId p = o) ∧
  (∀ t id, id ∈ gov_ids w (ProposalTypKey t) ↔ ∃ p, gov_prop w id = Some p ∧ p_Typ p = t) ∧
  (∀ f id, id ∈ gov_ids w (ProposalFromKey f) ↔ is_Some (gov_prop w id) ∧ sponsor_of id = f) ∧
  (∀ f, gov_ids w (ProposalFromKey f) =
    (λ i, f +:+ "-" +:+ fmt_d (Z.of_nat i)) <$> seq 0 (length (gov_ids w (ProposalFromKey f)))) ∧
  (∀ id p, gov_prop w id = Some p →
    p_Id p = id ∧ p_Status p ∈ [PROPOSED; APPROVED; REJECTED; PAUSED] ∧
    p_ApproveNum p = Z.of_nat (size (ballotsOf BallotApprove p)) ∧
    p_AgainstNum p = Z.of_nat (size (ballotsOf BallotReject p)) ∧
    ∀ v b, p_BallotMap p !! v = Some b →
      bl_VoterAddr b = v ∧ bl_Approve b ∈ [BallotApprove; BallotReject] ∧ v ∈ rl_ID <$> p_ElectorateList p).
Proof.
  intros [G1 G2 G3 G4 G5 G6]%gov_reachable_inv. split_and!; [done..|]. intros id p Hp%G1.
  split_and!; [apply (po_id _ _ Hp)|apply (po_status _ _ Hp)|apply (po_approve _ _ Hp)|apply (po_against _ _ Hp)|
    apply (po_ballots _ _ Hp)].
Qed.

Lemma ballots_split id p :
  proposal_ok id p → size (p_BallotMap p) = size (ballotsOf BallotApprove p) + size (ballotsOf BallotReject p).
Proof.
  intros Hok. unfold ballotsOf. rewrite <-map_size_disj_union; [f_equal|].
  - apply map_eq. intros v. rewrite lookup_union. destruct (p_BallotMap p !! v) as [b|] eqn:Eb.
    + destruct (po_ballots _ _ Hok v b Eb) as (_ & Hb & _). rewrite !elem_of_cons in Hb.
      destruct Hb as [Hb|[Hb|Hb%elem_of_nil]]; [| |done].
      * rewrite (map_lookup_filter_Some_2 _ _ v b) by done. by destruct (filter _ _ !! v).
      * rewrite (map_lookup_filter_Some_2 (λ '(_, b), bl_Approve b = BallotReject) _ v b) by done.
        rewrite (proj2 (map_lookup_filter_None _ _ _)); [done|]. right. intros b'. rewrite Eb. intros [= <-]. cbn. by rewrite Hb.
    + rewrite !(proj2 (map_lookup_filter_None _ _ _)); [done|by left..].
  - apply map_disjoint_spec. intros v b1 b2 [Hb1 E1]%map_lookup_filter_Some [Hb2 E2]%map_lookup_filter_Some.
    rewrite Hb1 in Hb2. injection Hb2 as ->. by rewrite E1 in E2.
Qed.

(** C38: The counters of a proposal never overflow: approvals and rejections together are the number of ballots,
which is at most the size of the electorate at the submission. *)
Theorem votes_bounded w id p :
  gov_reachable w → gov_prop w id = Some p →
  (0 ≤ p_ApproveNum p)%Z ∧ (0 ≤ p_AgainstNum p)%Z ∧
  (p_ApproveNum p + p_AgainstNum p = Z.of_nat (size (p_BallotMap p)))%Z ∧
  (Z.of_nat (size (p_BallotMap p)) ≤ Z.of_nat (length (p_ElectorateList p)) < 2 ^ 63)%Z.
Proof.
  intros Hw Hp. pose proof (gov_reachable_inv w Hw) as Hinv.
  pose proof (gi_prop _ _ Hinv _ _ Hp) as Hok. pose proof (ballots_bound _ _ Hok). pose proof (ballots_split _ _ Hok).
  pose proof (po_few _ _ Hok). rewrite (po_approve _ _ Hok), (po_against _ _ Hok), (po_initial _ _ Hok) in *. lia.
Qed.
(** *** Votes *)

Definition available_admin w (addr : string) : bool :=
  match (d ← w_state w RoleContractAddr (RoleKey addr); unmarshal d) : option Role with
  | None => false
  | Some role => bool_decide (GovernanceAdmin = rl_RoleType role) && IsAvailable role
  end.

Lemma exec_available ctx addr w :
  exec (CrossInvoke ctx RoleContractAddr (λ ctx, IsAnyAvailableAdmin ctx addr GovernanceAdmin)) w =
    (Some (Success (Some (FormatBool (available_admin w addr)))), w).
Proof.
  rewrite exec_CrossInvoke. unfold IsAnyAvailableAdmin, isAvailableAdmin, available_admin. cbn.
  destruct (w_state w RoleContractAddr (RoleKey addr)) as [d|]; cbn; [|done].
  destruct (unmarshal d) as [role|]; [|done]. by rewrite orb_false_r.
Qed.

(** The votes that are refused, with the answers. *)
Inductive vote_refusal w id (addr approve : string) : Response → Prop :=
| vr_unavailable :
    available_admin w addr = false → vote_refusal w id addr approve (Error "GovernanceUnavailableAdminVoteCode" [addr])
| vr_nonexistent :
    available_admin w addr = true → gov_prop w id = None → vote_refusal w id addr approve (nonexistent id)
| vr_closed p :
    available_admin w addr = true → gov_prop w id = Some p → p_Status p ≠ PROPOSED →
    vote_refusal w id addr approve (Error "GovernanceVoteEndProposalCode" [p_Status p])
| vr_stranger p :
    available_admin w addr = true → gov_prop w id = Some p → p_Status p = PROPOSED → addr ∉ rl_ID <$> p_ElectorateList p →
    vote_refusal w id addr approve (Error "GovernanceAdminNoVotePermissonCode" [addr; p_Id p])
| vr_repeated p :
    available_admin w addr = true → gov_prop w id = Some p → p_Status p = PROPOSED → addr ∈ rl_ID <$> p_ElectorateList p →
    is_Some (p_BallotMap p !! addr) →
    vote_refusal w id addr approve (Error "GovernanceAdminRepeatVoteCode" [addr])
| vr_illegal p :
    available_admin w addr = true → gov_prop w id = Some p → p_Status p = PROPOSED → addr ∈ rl_ID <$> p_ElectorateList p →
    p_BallotMap p !! addr = None → approve ∉ [BallotApprove; BallotReject] →
    vote_refusal w id addr approve (Error "GovernanceIllegalVoteInfoCode" [approve]).

Lemma find_elector (l : list Role) addr :
  addr ∈ rl_ID <$> l → ∃ i e, list_find (λ e, addr = rl_ID e) l = Some (i, e) ∧ e ∈ l ∧ rl_ID e = addr.
Proof.
  intros (e & -> & He)%list_elem_of_fmap. destruct (list_find_elem_of (λ e', rl_ID e = rl_ID e') l e He eq_refl) as [[i e'] Hf].
  exists i, e'. split; [done|]. apply list_find_Some in Hf as (Hl & -> & _). split; [|done]. by eapply list_elem_of_lookup_2.
Qed.

Lemma find_no_elector (l : list Role) addr : addr ∉ rl_ID <$> l → list_find (λ e, addr = rl_ID e) l = None.
Proof. intros Ha. apply list_find_None, Forall_forall. intros e He ->. apply Ha. by apply list_elem_of_fmap_2. Qed.

(** C39: A vote is refused, with the answer for the reason and without any effect, when the voter is not an
available administrator, when the proposal does not exist or is not open, and when the voter does not
belong to its electorate, has voted already or neither approves nor rejects. *)
Theorem Vote_refused ctx w id approve reason res :
  ctx_Callee ctx = GovernanceContractAddr → vote_refusal w id (ctx_Caller ctx) approve res →
  exec (Vote Manage ctx id approve reason) w = (Some res, w).
Proof.
  intros Hctx Hr. unfold Vote. cbv zeta. rewrite exec_bind, exec_available.
  assert (∀ b, available_admin w (ctx_Caller ctx) = b → Some (FormatBool (available_admin w (ctx_Caller ctx))) = Some (FormatBool b)) as Hb
    by (by intros b ->).
  destruct Hr as [Ha|Ha Hp|p Ha Hp Hs|p Ha Hp Hs Hin|p Ha Hp Hs Hin Hv|p Ha Hp Hs Hin Hv Hn]; rewrite (Hb _ Ha); clear Hb.
  all: [> by rewrite decide_True by done | rewrite decide_False by (intros []; done); rewrite exec_bind, exec_GetObject, Hctx;
    fold (gov_get w (ProposalKey id)); unfold gov_prop in Hp; rewrite Hp ..].
  - done.
  - unfold setVote. rewrite exec_bind, decide_True by done. done.
  - unfold setVote. rewrite exec_bind, decide_False by (intros []; done). by rewrite find_no_elector.
  - unfold setVote. rewrite exec_bind, decide_False by (intros []; done).
    destruct (find_elector _ _ Hin) as (i & e & -> & _). unfold castVote. by rewrite decide_True.
  - unfold setVote. rewrite exec_bind, decide_False by (intros []; done).
    destruct (find_elector _ _ Hin) as (i & e & -> & _). unfold castVote. rewrite decide_False by (rewrite Hv; by intros []).
    rewrite !elem_of_cons in Hn. rewrite decide_False, decide_False by tauto. done.
Qed.
(** The proposal with one more vote. *)
Definition voted p (e : Role) (approve reason : string) (time : Z) : Proposal :=
  with_p_votes p (<[rl_ID e := MkBallot (rl_ID e) approve (rl_Weight e) reason time]> (p_BallotMap p))
    (if decide (approve = BallotApprove) then p_ApproveNum p + 1 else p_ApproveNum p)%Z
    (if decide (approve = BallotReject) then p_AgainstNum p + 1 else p_AgainstNum p)%Z
    (bool_decide (rl_Weight e = SuperAdminWeight) || p_IsSuperAdminVoted p).

(** The expression of the proposal passes with some number of votes of the electorate. *)
Definition can_pass p : Prop :=
  ∃ a, (p_ApproveNum p ≤ a ≤ p_InitialElectorateNum p)%Z ∧
    passes (p_StrategyExpression p) a (p_AgainstNum p) (p_InitialElectorateNum p).

Definition has_passed p : Prop :=
  passes (p_StrategyExpression p) (p_ApproveNum p) (p_AgainstNum p) (p_InitialElectorateNum p).

Global Instance has_passed_dec p : Decision (has_passed p).
Proof. unfold has_passed, passes. apply _. Defined.

(** The vote goes on: an administrator with the highest weight has to vote first, or the rest of the electorate can
still pass the proposal. *)
Definition stays_open p : Prop :=
  (p_IsSpecial p = true ∧ p_IsSuperAdminVoted p = false) ∨
  (¬ has_passed p ∧ passes (p_StrategyExpression p) (u64 (p_AvailableElectorateNum p - p_AgainstNum p))
                      (p_AgainstNum p) (p_InitialElectorateNum p)).

(** An elector who has not voted yet casts a vote on an open proposal. *)
Record vote_ready w id p (e : Role) (approve reason : string) : Prop := {
  vd_available : available_admin w (rl_ID e) = true;
  vd_stored : gov_prop w id = Some p;
  vd_open : p_Status p = PROPOSED;
  vd_elector : ∃ i, list_find (λ e', rl_ID e = rl_ID e') (p_ElectorateList p) = Some (i, e);
  vd_first : p_BallotMap p !! rl_ID e = None;
  vd_approve : approve ∈ [BallotApprove; BallotReject];
  vd_reason : is_ascii reason;
  vd_decides : decides (p_StrategyExpression p) (p_InitialElectorateNum p) }.

(** The proposal with the vote, before the number of approvals it waits for is computed. *)
Lemma setVote_voted ctx w id p e approve reason :
  gov_inv w → vote_ready w id p e approve reason →
  let q := voted p e approve reason (ctx_TxTimeStamp ctx) in
  setVote ctx p (rl_ID e) approve reason =
    (threshold ← getCurThresholdApproveNum (p_StrategyExpression q) (p_ApproveNum q) (p_AgainstNum q)
                   (p_InitialElectorateNum q) (p_AvailableElectorateNum q);
     match threshold with
     | None => mret (internalErr, q)
     | Some threshold =>
         let p := with_p_nums q (p_AvailableElectorateNum q) threshold in
         _ ← SetObject ctx (ProposalKey (p_Id p)) p;
         mret (Success None, p)
     end) ∧
  proposal_step p q ∧ (0 ≤ p_ApproveNum q)%Z ∧ (p_InitialElectorateNum q < 2 ^ 64 - 1)%Z.
Proof.
  intros Hinv [_ Hp Hs (i & Hf) Hv Ha Hr Hd] q0. pose proof (gi_prop _ _ Hinv _ _ Hp) as Hok.
  unfold setVote. rewrite decide_False, Hf by (intros []; done). unfold castVote. rewrite decide_False by (rewrite Hv; by intros []).
  cbv zeta. set (b := MkBallot _ _ _ _ _). set (super := if decide (SuperAdminWeight = _) then true else _).
  pose proof (ballots_bound _ _ Hok) as Hbound. pose proof (ballots_split _ _ Hok) as Hsplit. pose proof (po_few _ _ Hok) as Hfew.
  assert (p_ApproveNum p +u 1 = p_ApproveNum p + 1 ∧ p_AgainstNum p +u 1 = p_AgainstNum p + 1)%Z as [Hu1 Hu2].
  { rewrite (po_approve _ _ Hok), (po_against _ _ Hok). split; apply u64_small; unfold is_u64; lia. }
  assert ((if decide (approve = BallotApprove) then Some (p_ApproveNum p +u 1, p_AgainstNum p)
           else if decide (approve = BallotReject) then Some (p_ApproveNum p, p_AgainstNum p +u 1) else None) =
          Some (p_ApproveNum q0, p_AgainstNum q0)) as ->.
  { rewrite Hu1, Hu2. unfold q0, voted, with_p_votes. cbn. rewrite !elem_of_cons in Ha.
    destruct Ha as [->|[->|Hx%elem_of_nil]]; [done|done|done]. }
  assert (with_p_votes p (<[rl_ID e := b]> (p_BallotMap p)) (p_ApproveNum q0) (p_AgainstNum q0) super = q0) as Hq0.
  { unfold q0, voted, with_p_votes, super. cbn. f_equal. destruct (decide (SuperAdminWeight = rl_Weight e)) as [Hw|Hw];
      [by rewrite bool_decide_true|by rewrite bool_decide_false by congruence]. }
  rewrite Hq0. split; [done|]. split; [|split].
  - rewrite <-Hq0. apply (pt_vote p e _ _ b super); try done.
    + apply list_find_Some in Hf as (Hl & _). by eapply list_elem_of_lookup_2.
    + rewrite !elem_of_cons in Ha. destruct Ha as [->|[->|Hx%elem_of_nil]]; [left|right|done]; by rewrite ?Hu1, ?Hu2.
  - unfold q0. cbn. rewrite (po_approve _ _ Hok). case_decide; lia.
  - cbn. lia.
Qed.

Lemma setVote_counts ctx w id p e approve reason :
  ctx_Callee ctx = GovernanceContractAddr → gov_inv w → vote_ready w id p e approve reason →
  can_pass (voted p e approve reason (ctx_TxTimeStamp ctx)) →
  ∃ th w1, let q := with_p_nums (voted p e approve reason (ctx_TxTimeStamp ctx)) (p_AvailableElectorateNum p) th in
    exec (setVote ctx p (rl_ID e) approve reason) w = (Some (Success None, q), w1) ∧ gov_inv w1 ∧
    gov_prop w1 id = Some q ∧ ∀ id', id' ≠ id → gov_prop w1 id' = gov_prop w id'.
Proof.
  intros Hctx Hinv Hready Hcan. pose proof (vd_stored _ _ _ _ _ _ Hready) as Hp. pose proof (gi_prop _ _ Hinv _ _ Hp) as Hok.
  destruct (setVote_voted ctx w id p e approve reason Hinv Hready) as (-> & Hstep & Hpos & Hfew).
  set (q0 := voted p e approve reason (ctx_TxTimeStamp ctx)) in *.
  destruct (threshold_loop_spec (p_StrategyExpression q0) (p_AgainstNum q0) (p_InitialElectorateNum q0) (p_AvailableElectorateNum q0)
    _ (p_ApproveNum q0) (vd_decides _ _ _ _ _ _ Hready) Hpos Hfew eq_refl) as (res & E & Hres).
  unfold getCurThresholdApproveNum. rewrite E. destruct res as [th|].
  2:{ destruct Hcan as (a & Hrange & Hpass). by destruct (Hres a Hrange). }
  exists th. assert (rtc proposal_step p (with_p_nums q0 (p_AvailableElectorateNum p) th)) as Hsteps
    by (eapply rtc_l; [exact Hstep|apply rtc_once, pt_nums]).
  set (q := with_p_nums q0 _ th) in *. destruct (proposal_steps_ok _ _ _ Hok Hsteps) as (Hokq & Hid & _).
  destruct (SetObject_stores ctx Hctx w _ _ q (stores_self w) (po_ascii _ _ Hokq)) as (w1 & E1 & S1).
  exists w1. cbv zeta. cbn [mbind prog_mbind prog_bind mret prog_mret]. change (p_AvailableElectorateNum q0) with (p_AvailableElectorateNum p).
  fold q. rewrite exec_bind, E1. pose proof (po_id _ _ Hokq) as Hidq. split_and!; [done| | |].
  - eapply gov_step_inv; [|exact Hinv]. eapply gs_put; [exact Hctx| |exact Hsteps|exact E1]. by rewrite <-Hid, Hidq.
  - rewrite (ws_prop _ _ _ S1), Hidq. by rewrite upd_eq.
  - intros id' Hne. rewrite (ws_prop _ _ _ S1), Hidq. by rewrite upd_ne.
Qed.

(** When no number of approvals could pass the expression, the vote is not stored. *)
Lemma setVote_unpassable ctx w id p e approve reason :
  gov_inv w → vote_ready w id p e approve reason → ¬ can_pass (voted p e approve reason (ctx_TxTimeStamp ctx)) →
  exec (setVote ctx p (rl_ID e) approve reason) w = (Some (internalErr, voted p e approve reason (ctx_TxTimeStamp ctx)), w).
Proof.
  intros Hinv Hready Hcan. destruct (setVote_voted ctx w id p e approve reason Hinv Hready) as (-> & _ & Hpos & Hfew).
  set (q0 := voted p e approve reason (ctx_TxTimeStamp ctx)) in *.
  destruct (threshold_loop_spec (p_StrategyExpression q0) (p_AgainstNum q0) (p_InitialElectorateNum q0) (p_AvailableElectorateNum q0)
    _ (p_ApproveNum q0) (vd_decides _ _ _ _ _ _ Hready) Hpos Hfew eq_refl) as (res & E & Hres).
  unfold getCurThresholdApproveNum. rewrite E. destruct res as [th|]; [|done].
  destruct Hcan. exists th. by destruct Hres as (? & ? & _).
Qed.

(** The event of the audit. *)
Lemma audited_ok ctx w id p res :
  ctx_Callee ctx = GovernanceContractAddr → gov_prop w id = Some p →
  ∃ w', exec (audited ctx id res) w = (Some res, w') ∧ ∀ a k, w_state w' a k = w_state w a k.
Proof.
  intros Hctx Hp. unfold audited. destruct (ctx_EnableAudit ctx); [|by exists w].
  unfold postAuditProposalEvent. rewrite !exec_bind, exec_Get, Hctx. fold (gov_get w (ProposalKey id)).
  unfold gov_prop in Hp. destruct (gov_get w (ProposalKey id)) as [d|]; [|done]. cbn [mbind option_bind] in Hp. rewrite Hp.
  cbv zeta. rewrite exec_bind. unfold postEvent. set (info := if decide _ then _ else _).
  destruct (json_marshals info) as [dd ->]. by eexists.
Qed.

(** What follows once the vote is stored. *)
Lemma exec_Vote_ready ctx w id p e approve reason q w1 :
  ctx_Callee ctx = GovernanceContractAddr → ctx_Caller ctx = rl_ID e → vote_ready w id p e approve reason →
  exec (setVote ctx p (rl_ID e) approve reason) w = (Some (Success None, q), w1) →
  exec (Vote Manage ctx id approve reason) w =
  exec (counted ← countVote ctx q;
        match counted with
        | None => mret internalErr
        | Some (false, _) => audited ctx id (Success None)
        | Some (true, p) =>
            ok ← handleResult Manage ctx p;
            match ok with None => mret internalErr | Some _ => audited ctx id (Success None) end
        end) w1.
Proof.
  intros Hctx Hcaller Hready E. unfold Vote. cbv zeta.
  rewrite Hcaller, exec_bind, exec_available, (vd_available _ _ _ _ _ _ Hready).
  rewrite decide_False by (intros []; done). rewrite exec_bind, exec_GetObject, Hctx.
  fold (gov_get w (ProposalKey id)). fold (gov_prop w id). by rewrite (vd_stored _ _ _ _ _ _ Hready), exec_bind, E.
Qed.

(** The vote of an elector while the result is not certain. *)
Lemma Vote_counted ctx w id p e approve reason :
  ctx_Callee ctx = GovernanceContractAddr → ctx_Caller ctx = rl_ID e → gov_reachable w →
  vote_ready w id p e approve reason →
  let q := voted p e approve reason (ctx_TxTimeStamp ctx) in
  can_pass q → stays_open q →
  ∃ th w', exec (Vote Manage ctx id approve reason) w = (Some (Success None), w') ∧
    gov_prop w' id = Some (with_p_nums q (p_AvailableElectorateNum p) th) ∧
    ∀ id', id' ≠ id → gov_prop w' id' = gov_prop w id'.
Proof.
  intros Hctx Hcaller Hw Hready q Hcan Hopen. pose proof (gov_reachable_inv w Hw) as Hinv.
  destruct (setVote_counts ctx w id p e approve reason Hctx Hinv Hready Hcan) as (th & w1 & E & Hinv1 & Hq & Hother). fold q in E, Hq.
  exists th. destruct (audited_ok ctx w1 id _ (Success None) Hctx Hq) as (w' & Ew & Hsame). exists w'.
  assert (∀ i, gov_prop w' i = gov_prop w1 i) as Hprop by (intros; unfold gov_prop, gov_get; by rewrite Hsame).
  split_and!; [|by rewrite Hprop|intros; rewrite Hprop; by apply Hother].
  rewrite (exec_Vote_ready _ _ _ _ _ _ _ _ _ Hctx Hcaller Hready E), exec_bind. unfold countVote. set (q1 := with_p_nums _ _ th) in *.
  destruct Hopen as [[Hsp Hsu]|[Hn Hpass]].
  - change (p_IsSpecial q1) with (p_IsSpecial q). change (p_IsSuperAdminVoted q1) with (p_IsSuperAdminVoted q).
    rewrite Hsp, Hsu. done.
  - destruct (p_IsSpecial q1 && _); [done|]. rewrite exec_bind.
    destruct (decision_cases (p_StrategyExpression q1) (p_ApproveNum q1) (p_AgainstNum q1) (p_InitialElectorateNum q1)
      (p_AvailableElectorateNum q1) (vd_decides _ _ _ _ _ _ Hready)) as [[? _]|[(_ & _ & ->)|(_ & ? & _)]]; done.
Qed.

(** A vote that makes the result certain closes the proposal before the result is carried out: it is
approved if its expression passes and rejected otherwise, and the contract that is responsible
for the object is called once with that result. *)
Lemma Vote_closes ctx w id p e approve reason :
  ctx_Callee ctx = GovernanceContractAddr → ctx_Caller ctx = rl_ID e → gov_reachable w →
  vote_ready w id p e approve reason →
  let q := voted p e approve reason (ctx_TxTimeStamp ctx) in
  can_pass q → ¬ stays_open q →
  ∃ th w1,
    let q1 := with_p_Status (with_p_EndReason (with_p_nums q (p_AvailableElectorateNum p) th) NormalReason)
                (if decide (has_passed q) then APPROVED else REJECTED) in
    gov_prop w1 id = Some q1 ∧ (∀ id', id' ≠ id → gov_prop w1 id' = gov_prop w id') ∧
    exec (Vote Manage ctx id approve reason) w =
      exec (ok ← handleResult Manage ctx q1;
            match ok with None => mret internalErr | Some _ => audited ctx id (Success None) end) w1.
Proof.
  intros Hctx Hcaller Hw Hready q Hcan Hopen. pose proof (gov_reachable_inv w Hw) as Hinv.
  destruct (setVote_counts ctx w id p e approve reason Hctx Hinv Hready Hcan) as (th & w0 & E & Hinv1 & Hq & Hother). fold q in E, Hq.
  exists th. set (q0 := with_p_nums q _ th) in *. set (s := if decide (has_passed q) then APPROVED else REJECTED).
  pose proof (gi_prop _ _ Hinv1 _ _ Hq) as Hok0. assert (is_ascii NormalReason) as Hna by (vm_compute; exact I).
  pose proof (proposal_step_ok _ _ _ Hok0 (pt_reason q0 NormalReason Hna)) as Hok1.
  assert (s ∈ statuses) as Hss by (unfold s; case_decide; apply statuses_all).
  destruct (changeProposalStatus_stores ctx Hctx w0 _ _ (with_p_EndReason q0 NormalReason) s (stores_self w0)
    (gov_ok_ascii _ _ Hinv1) (po_ascii _ _ (status_ok _ _ s Hok1 Hss))) as (w1 & E1 & S1).
  exists w1. cbv zeta. pose proof (po_id _ _ Hok1) as Hid. split_and!.
  - by rewrite (ws_prop _ _ _ S1), Hid, upd_eq.
  - intros id' Hne. rewrite (ws_prop _ _ _ S1), Hid, upd_ne by done. by apply Hother.
  - rewrite (exec_Vote_ready _ _ _ _ _ _ _ _ _ Hctx Hcaller Hready E), exec_bind. unfold countVote. fold q0.
    assert (p_IsSpecial q0 && negb (p_IsSuperAdminVoted q0) = false) as ->.
    { destruct (p_IsSpecial q0) eqn:E2, (p_IsSuperAdminVoted q0) eqn:E3; try done. destruct Hopen. by left. }
    rewrite exec_bind. assert (∃ b, b = bool_decide (has_passed q) ∧ MakeStrategyDecision (p_StrategyExpression q0) (p_ApproveNum q0)
      (p_AgainstNum q0) (p_InitialElectorateNum q0) (p_AvailableElectorateNum q0) = mret (Some (true, b))) as (b & Hb & ->).
    { destruct (decision_cases (p_StrategyExpression q0) (p_ApproveNum q0) (p_AgainstNum q0) (p_InitialElectorateNum q0)
        (p_AvailableElectorateNum q0) (vd_decides _ _ _ _ _ _ Hready)) as [[Hpass ->]|[(Hn & Hpass & _)|(Hn & Hpass & ->)]].
      - exists true. split; [|done]. symmetry. by apply bool_decide_true.
      - destruct Hopen. by right.
      - exists false. split; [|done]. symmetry. by apply bool_decide_false. }
    cbn [exec mret prog_mret]. rewrite exec_bind. unfold closeProposal.
    assert ((if b then APPROVED else REJECTED) = s) as -> by (unfold s; rewrite Hb; by repeat case_decide || case_bool_decide).
    by rewrite E1.
Qed.

(** C23: What the first vote of an available elector on an open proposal does in a reachable state of the governance
contract, with an ASCII reason and an expression that can be evaluated ([vote_ready]). If with this vote no number of
approvals from the current one up to the electorate would pass the expression, the vote is refused with an internal
error and nothing changes. Otherwise the vote is stored with weight, reason and time and counted, nothing else of the
proposal but its threshold and no other proposal changes; and if the result is still open ([stays_open], which
compares modulo 2^64) that is all, else the proposal is first stored as approved, if its expression passes, or
rejected, and then the result is carried out (handleResult) in that state. *)
Theorem Vote_effect ctx w id p e approve reason :
  ctx_Callee ctx = GovernanceContractAddr → ctx_Caller ctx = rl_ID e → gov_reachable w →
  vote_ready w id p e approve reason →
  let q := voted p e approve reason (ctx_TxTimeStamp ctx) in
  (¬ can_pass q → exec (Vote Manage ctx id approve reason) w = (Some internalErr, w)) ∧
  (can_pass q → stays_open q →
   ∃ th w', exec (Vote Manage ctx id approve reason) w = (Some (Success None), w') ∧
     gov_prop w' id = Some (with_p_nums q (p_AvailableElectorateNum p) th) ∧
     ∀ id', id' ≠ id → gov_prop w' id' = gov_prop w id') ∧
  (can_pass q → ¬ stays_open q →
   ∃ th w1,
     let q1 := with_p_Status (with_p_EndReason (with_p_nums q (p_AvailableElectorateNum p) th) NormalReason)
                 (if decide (has_passed q) then APPROVED else REJECTED) in
     gov_prop w1 id = Some q1 ∧ (∀ id', id' ≠ id → gov_prop w1 id' = gov_prop w id') ∧
     exec (Vote Manage ctx id approve reason) w =
       exec (ok ← handleResult Manage ctx q1;
             match ok with None => mret internalErr | Some _ => audited ctx id (Success None) end) w1).
Proof.
  intros Hctx Hcaller Hw Hready q. split; [|split; [by apply Vote_counted|by apply Vote_closes]].
  intros Hcan. pose proof (gov_reachable_inv w Hw) as Hinv. unfold Vote. cbv zeta.
  rewrite Hcaller, exec_bind, exec_available, (vd_available _ _ _ _ _ _ Hready).
  rewrite decide_False by (intros []; done). rewrite exec_bind, exec_GetObject, Hctx.
  fold (gov_get w (ProposalKey id)). fold (gov_prop w id). rewrite (vd_stored _ _ _ _ _ _ Hready), exec_bind.
  by rewrite (setVote_unpassable ctx w id p e approve reason Hinv Hready Hcan).
Qed.

(** [ZeroPermission], which the managers call after submitting a proposal that needs no votes, looks neither at its caller nor
at the status of the proposal: anybody can have such a proposal approved and carried out again, also when it has been
rejected or withdrawn. *)
Theorem ZeroPermission_unguarded ctx w id p :
  ctx_Callee ctx = GovernanceContractAddr → gov_reachable w → gov_prop w id = Some p →
  p_StrategyType p = ZeroPermissionStrategy →
  let p1 := with_p_Status (with_p_EndReason p ZeroPermissionReason) APPROVED in
  ∃ w1, gov_prop w1 id = Some p1 ∧
    exec (ZeroPermission Manage ctx id) w =
      exec (ok ← handleResult Manage ctx p1;
            match ok with None => mret internalErr | Some _ => audited ctx (p_Id p1) (Success None) end) w1.
Proof.
  intros Hctx Hw Hp Hst p1. pose proof (gov_reachable_inv w Hw) as Hinv. pose proof (gi_prop _ _ Hinv _ _ Hp) as Hok0.
  assert (is_ascii ZeroPermissionReason) as Hna by (vm_compute; exact I).
  pose proof (proposal_step_ok _ _ _ Hok0 (pt_reason p ZeroPermissionReason Hna)) as Hok1.
  assert (APPROVED ∈ statuses) as Hss by apply statuses_all.
  destruct (changeProposalStatus_stores ctx Hctx w _ _ (with_p_EndReason p ZeroPermissionReason) APPROVED (stores_self w)
    (gov_ok_ascii _ _ Hinv) (po_ascii _ _ (status_ok _ _ APPROVED Hok1 Hss))) as (w1 & E1 & S1).
  exists w1. pose proof (po_id _ _ Hok1) as Hid. split; [by rewrite (ws_prop _ _ _ S1), Hid, upd_eq|].
  unfold ZeroPermission. rewrite exec_bind, exec_GetObject, Hctx. fold (gov_get w (ProposalKey id)). fold (gov_prop w id).
  rewrite Hp, decide_True by done. by rewrite exec_bind, E1.
Qed.
End contract.
