(* ===== verification/Strategy.v ===== *)
(** * Voting strategies: [src/internal/executor/contracts/proposal_strategy.go]

The strategy contract keeps one strategy for each kind of governed object. A strategy is changed by
a proposal; when administrators join or leave, strategies that can no longer pass anything fall
back to the simple majority. [GetProposalStrategy] is in [Governance.v]. *)
From Stdlib Require Import Ascii.
From S2P Require Import Prelude Storage Account StateLedger Contract TransactionManager Role Governance.

Definition with_ps_Status (s : ProposalStrategy) v := MkStrategy (ps_Module s) (ps_Typ s) (ps_Extra s) v.

(** The values of an [UpdateInfo] are strings here. *)
Record UpdateInfo := MkUpdateInfo { ui_OldInfo : string; ui_NewInfo : string; ui_IsEdit : bool }.
Record UpdateStrategyInfo := MkUpdateStrategyInfo { us_Typ : UpdateInfo; us_Extra : UpdateInfo }.

Definition UpdateInfo_text (i : UpdateInfo) : list string := [ui_OldInfo i; ui_NewInfo i].
Definition UpdateStrategyInfo_text (i : UpdateStrategyInfo) : list string :=
  UpdateInfo_text (us_Typ i) ++ UpdateInfo_text (us_Extra i).

Class StrategyJsonLib := {
  strategies_codec :: JsonCodec (list ProposalStrategy) (λ l, l ≫= Strategy_text);
  update_codec :: JsonCodec (gmap string UpdateStrategyInfo)
    (λ m, map_to_list m ≫= λ '(k, i), k :: UpdateStrategyInfo_text i)
}.

(** [strings.Replace] of every space by nothing. *)
Fixpoint no_spaces (s : string) : string :=
  match s with
  | EmptyString => EmptyString
  | String c s => if decide (c = " "%char) then no_spaces s else String c (no_spaces s)
  end.

Definition mgrs : list string := [AppchainMgr; NodeMgr; DappMgr; RoleMgr; RuleMgr; ServiceMgr; ProposalStrategyMgr].

Section contract.
Context `{GovernanceLib, GovJsonLib, ProposalJsonLib, StrategyJsonLib, EvalLib, FsmLib, ConstantLib, !GovAddrLib, GoRange}.

(** The results of proposals, for [ZeroPermission]. *)
Context (Manage : string → string → string → string → string → option string → Context → prog Response).

Definition strategyStateMap (event : string) : list string :=
  if decide (event = EventUpdate) then [GovernanceAvailable] else [].

(** The transitions of [setFSM]. *)
Definition strategy_events (lastStatus : string) : list EventDesc :=
  [ MkEventDesc EventRegister [GovernanceUnavailable] GovernanceRegisting;
    MkEventDesc EventApprove [GovernanceRegisting] GovernanceAvailable;
    MkEventDesc EventReject [GovernanceRegisting] lastStatus;
    MkEventDesc EventUpdate [GovernanceAvailable] GovernanceUpdating;
    MkEventDesc EventApprove [GovernanceUpdating] GovernanceAvailable;
    MkEventDesc EventReject [GovernanceUpdating] GovernanceAvailable ].

Context (ctx : Context).

(** The boolean is [false] for an error. *)
Definition strategy_changeStatus (pt trigger lastStatus : string) : prog bool :=
  ps ← GetObject (A := ProposalStrategy) ctx (ProposalStrategyKey pt);
  match ps with
  | None => mret false
  | Some ps =>
      match fsm_Event (strategy_events lastStatus) (ps_Status ps) trigger with
      | None => mret false
      | Some status => _ ← SetObject ctx (ProposalStrategyKey pt) (with_ps_Status ps status); mret true
      end
  end.

(** Changes the status of each; [false] is the error of the first that fails. *)
Fixpoint changeStatuses (pts : list string) (trigger lastStatus : string) : prog bool :=
  match pts with
  | [] => mret true
  | pt :: pts =>
      ok ← strategy_changeStatus pt trigger lastStatus;
      if (ok : bool) then changeStatuses pts trigger lastStatus else mret false
  end.

Definition strategyErr : Response := Error "ProposalStrategyInternalErrCode" [].

(** The number of available administrators; [None] is an error. *)
Definition availableAdmins : prog (option Z) :=
  res ← CrossInvoke ctx RoleContractAddr (λ ctx, GetRolesByType ctx GovernanceAdmin);
  mret match res with
       | Error _ _ => None
       | Success data => roles ← data ≫= unmarshal; Some (Z.of_nat (length (filter IsAvailable (roles : list Role))))
       end.

(** A strategy with the changes, or the default if it could not pass anything. *)
Definition updateStrategy (availableNum : Z) (mgr : string) (mInfo : UpdateStrategyInfo) : prog (option ()) :=
  ps ← GetObject (A := ProposalStrategy) ctx (ProposalStrategyKey mgr);
  match ps with
  | None => mret None
  | Some ps =>
      let typ := if ui_IsEdit (us_Typ mInfo) then ui_NewInfo (us_Typ mInfo) else ps_Typ ps in
      let extra := if ui_IsEdit (us_Extra mInfo) then ui_NewInfo (us_Extra mInfo) else ps_Extra ps in
      let ps := MkStrategy (ps_Module ps) typ extra (ps_Status ps) in
      if decide (ps_Typ ps = ZeroPermissionStrategy)
      then _ ← SetObject ctx (ProposalStrategyKey mgr) ps; mret (Some tt)
      else
        threshold ← getCurThresholdApproveNum (ps_Extra ps) 0 0 availableNum availableNum;
        _ ← SetObject ctx (ProposalStrategyKey mgr) (match threshold with None => defaultStrategy mgr | Some _ => ps end);
        mret (Some tt)
  end.

Fixpoint updateStrategies (availableNum : Z) (infos : list (string * UpdateStrategyInfo)) : prog Response :=
  match infos with
  | [] => mret (Success None)
  | (mgr, mInfo) :: infos =>
      ok ← updateStrategy availableNum mgr mInfo;
      match ok with
      | None => mret strategyErr
      | Some _ => updateStrategies availableNum infos
      end
  end.

Definition strategy_Manage (eventTyp proposalResult lastStatus objId : string) (extra : option string) : prog Response :=
  denied ← checkSpecific ctx "ProposalStrategyInternalErrCode" "ProposalStrategyNoPermissionCode" [GovernanceContractAddr];
  match denied with Some res => mret res | None =>
  ok ← changeStatuses (if decide (objId ≠ AllMgr) then [objId] else mgrs) proposalResult lastStatus;
  if negb ok then mret strategyErr
  else if decide (proposalResult = APPROVED ∧ eventTyp = EventUpdate)
  then
    match extra ≫= unmarshal with
    | None => mret strategyErr
    | Some infos =>
        num ← availableAdmins;
        match num with
        | None => mret strategyErr
        | Some availableNum => updateStrategies availableNum (go_range (infos : gmap string UpdateStrategyInfo))
        end
    end
  else mret (Success None)
  end.

Definition strategy_governancePre (module event : string) : prog (result ProposalStrategy) :=
  ps ← GetObject (A := ProposalStrategy) ctx (ProposalStrategyKey module);
  let ps := default (defaultStrategy module) ps in
  mret (if decide (ps_Status ps ∈ strategyStateMap event) then inl ps
        else inr (MkBxhError "ProposalStrategyStatusErrorCode" [module; ps_Status ps; event])).

Definition updateInfoOf (strategy : ProposalStrategy) (typ strategyExtra : string) : UpdateStrategyInfo :=
  MkUpdateStrategyInfo
    (MkUpdateInfo (ps_Typ strategy) typ (bool_decide (ps_Typ strategy ≠ typ)))
    (MkUpdateInfo (no_spaces (ps_Extra strategy)) (no_spaces strategyExtra)
       (bool_decide (no_spaces (ps_Extra strategy) ≠ no_spaces strategyExtra))).

Definition isEdit (info : UpdateStrategyInfo) : bool := ui_IsEdit (us_Typ info) || ui_IsEdit (us_Extra info).

(** [SubmitProposal] of the governance contract. *)
Definition submit (event typ objId lastStatus reason : string) (extra : option string) : prog Response :=
  CrossInvoke ctx GovernanceContractAddr
    (λ gctx, SubmitProposal gctx (ctx_Caller ctx) event typ objId lastStatus reason extra).

(** [ZeroPermission] of the governance contract; its answer is not looked at. *)
Definition zeroPermission (id : string) : prog () :=
  _ ← CrossInvoke ctx GovernanceContractAddr (λ gctx, ZeroPermission Manage gctx id); mret tt.

Definition noPermission (code : string) : Response := Error code [ctx_CurrentCaller ctx].

Definition UpdateProposalStrategy (module typ strategyExtra reason : string) : prog Response :=
  ok ← checkPermission ctx [PermissionAdmin] module (ctx_CurrentCaller ctx) None;
  if negb ok then mret (noPermission "ProposalStrategyNoPermissionCode")
  else
  strategy ← strategy_governancePre module EventUpdate;
  match strategy with inr bxhErr => mret (Error (be_Code bxhErr) (be_Args bxhErr)) | inl strategy =>
  let info := updateInfoOf strategy typ strategyExtra in
  if negb (isEdit info) then mret (Error "ProposalStrategyNotUpdateCode" [])
  else
  num ← availableAdmins;
  match num with None => mret strategyErr | Some availableAdminNum =>
  good ← CheckStrategyInfo typ module strategyExtra availableAdminNum;
  if negb good then mret (Error "ProposalStrategyIllegalProposalStrategyInfoCode" [])
  else
  match marshal ({[module := info]} : gmap string UpdateStrategyInfo) with None => mret strategyErr | Some extra =>
  res ← submit EventUpdate ProposalStrategyMgr module (ps_Status strategy) reason (Some extra);
  match res with Error _ _ => mret strategyErr | Success id =>
  let id := default EmptyString id in
  _ ← strategy_changeStatus module EventUpdate (ps_Status strategy);
  _ ← zeroPermission id;
  mret (getGovernanceRet id (Some module))
  end end end end.

(** The changes of each module, or the error of a module that is being updated. *)
Fixpoint allInfos (modules : list string) (typ strategyExtra : string) : prog (result (gmap string UpdateStrategyInfo)) :=
  match modules with
  | [] => mret (inl ∅)
  | module :: modules =>
      strategy ← strategy_governancePre module EventUpdate;
      match strategy with
      | inr bxhErr => mret (inr bxhErr)
      | inl strategy =>
          infos ← allInfos modules typ strategyExtra;
          mret match infos with
               | inl infos => inl (<[module := updateInfoOf strategy typ strategyExtra]> infos)
               | inr bxhErr => inr bxhErr
               end
      end
  end.

Definition UpdateAllProposalStrategy (typ strategyExtra reason : string) : prog Response :=
  ok ← checkPermission ctx [PermissionAdmin] AllMgr (ctx_CurrentCaller ctx) None;
  if negb ok then mret (noPermission "ProposalStrategyNoPermissionCode")
  else
  infos ← allInfos mgrs typ strategyExtra;
  match infos with inr bxhErr => mret (Error (be_Code bxhErr) (be_Args bxhErr)) | inl infos =>
  if negb (existsb (λ '(_, info), isEdit info) (go_range infos)) then mret (Error "ProposalStrategyNotUpdateCode" [])
  else
  num ← availableAdmins;
  match num with None => mret strategyErr | Some availableAdminNum =>
  good ← CheckStrategyType typ strategyExtra availableAdminNum;
  if negb good then mret (Error "ProposalStrategyIllegalProposalStrategyInfoCode" [])
  else
  match marshal infos with None => mret strategyErr | Some extra =>
  res ← submit EventUpdate ProposalStrategyMgr AllMgr GovernanceAvailable reason (Some extra);
  match res with Error _ _ => mret strategyErr | Success id =>
  let id := default EmptyString id in
  _ ← prog_iter (λ mgr, _ ← strategy_changeStatus mgr EventUpdate GovernanceAvailable; mret tt) mgrs;
  _ ← zeroPermission id;
  mret (getGovernanceRet id (Some AllMgr))
  end end end end.

(** One round of the loop of [UpdateProposalStrategyByRolesChange]. *)
Definition resetStrategy (availableNum : Z) (module : string) : prog () :=
  strategy ← GetObject (A := ProposalStrategy) ctx (ProposalStrategyKey module);
  match strategy with
  | None => mret tt
  | Some strategy =>
      if decide (ps_Status strategy = GovernanceUpdating ∨ ps_Typ strategy = ZeroPermissionStrategy) then mret tt
      else
        threshold ← getCurThresholdApproveNum (ps_Extra strategy) 0 0 availableNum availableNum;
        match threshold with
        | None => SetObject ctx (ProposalStrategyKey module) (defaultStrategy module)
        | Some _ => mret tt
        end
  end.

Definition UpdateProposalStrategyByRolesChange (availableNum : Z) : prog Response :=
  denied ← checkSpecific ctx "ProposalStrategyInternalErrCode" "ProposalStrategyNoPermissionCode" [RoleContractAddr];
  match denied with Some res => mret res | None =>
  _ ← prog_iter (resetStrategy availableNum) mgrs;
  mret (Success None)
  end.

Fixpoint strategiesOf (modules : list string) : prog (list ProposalStrategy) :=
  match modules with
  | [] => mret []
  | module :: modules =>
      ps ← GetObject (A := ProposalStrategy) ctx (ProposalStrategyKey module);
      ret ← strategiesOf modules;
      mret (default (defaultStrategy module) ps :: ret)
  end.

Definition GetAllProposalStrategy : prog Response :=
  ret ← strategiesOf mgrs;
  mret match marshal ret with None => strategyErr | Some data => Success (Some data) end.
End contract.
