(* ===== verification/Registry.v ===== *)
(** * What the registries share: [src/internal/executor/contracts]

The contracts that register nodes, chains, rules, services and applications have the same shape: their
objects have a status that proposals move through a state machine, names are taken before a proposal is
opened and are given back by its result, and permissions are looked up in the role contract. This file has
what they share: 64-bit floating point numbers, sets of texts, changes ([UpdateMapInfo] of
[governance.go]), loops that stop at an error, and the checks of addresses. *)
From Stdlib Require Import Ascii SpecFloat.
From S2P Require Import Prelude Storage Account StateLedger Contract TransactionManager Role Governance Strategy.

(** ** [float64]

IEEE 754 with 53 bits of precision, as the Standard Library specifies it; products and sums are
rounded one by one. *)

Notation f64 := spec_float (only parsing).

Definition f64_of_Z (z : Z) : f64 := binary_normalize 53 1024 z 0 false.
Definition f64_add (x y : f64) : f64 := SFadd 53 1024 x y.
Definition f64_sub (x y : f64) : f64 := SFsub 53 1024 x y.
Definition f64_mul (x y : f64) : f64 := SFmul 53 1024 x y.
Definition f64_div (x y : f64) : f64 := SFdiv 53 1024 x y.
(** Comparisons with NaN are false. *)
Definition f64_lt (x y : f64) : bool := SFltb x y.
Definition f64_eq (x y : f64) : bool := SFeqb x y.

(** Numbers that JSON can write. *)
Definition f64_finite (x : f64) : bool :=
  match x with S754_zero _ | S754_finite _ _ _ => true | S754_infinity _ | S754_nan => false end.

Global Instance spec_float_eq_dec : EqDecision spec_float.
Proof. solve_decision. Defined.

(** ** Sets of texts: [map[string]struct{}] *)

Notation strset := (gmap string ()) (only parsing).

Definition strset_of (l : list string) : strset := foldl (λ m k, <[k := tt]> m) ∅ l.

(** The set of a text with commas; an empty text is the empty set. *)
Definition strset_split (s : string) : strset :=
  if decide (s = EmptyString) then ∅ else strset_of (str_split comma s).

(** Whether two sets differ, as the contracts find out: by their sizes, then by the members of the first. *)
Definition strset_changed `{GoRange} (a b : strset) : bool :=
  if decide (size a ≠ size b) then true
  else existsb (λ k, bool_decide (b !! k = None)) (go_keys a).

Record UpdateMapInfo := MkUpdateMapInfo { um_OldInfo : strset; um_NewInfo : strset; um_IsEdit : bool }.

(** ** Strings *)

(** [strings.Trim] with a space. *)
Fixpoint trim_left (s : string) : string :=
  match s with
  | EmptyString => EmptyString
  | String c s' => if decide (c = " "%char) then trim_left s' else s
  end.
Definition str_Trim (s : string) : string := String.rev (trim_left (String.rev (trim_left s))).

(** ** Loops *)

(** A loop that returns at the first error. *)
Fixpoint prog_find {A B} (f : A → prog (option B)) (l : list A) : prog (option B) :=
  match l with
  | [] => mret None
  | x :: l =>
      r ← f x;
      match r with Some e => mret (Some e) | None => prog_find f l end
  end.

(** [sort.Sort]: a permutation in order. *)
Class GoSort := {
  go_sort {A} : (A → A → bool) → list A → list A;
  go_sort_perm {A} (less : A → A → bool) l : go_sort less l ≡ₚ l;
  go_sort_sorted {A} (less : A → A → bool) l :
    (∀ x y, less x y = true → less y x = false) → (∀ x y z, less y x = false → less z y = false → less z x = false) →
    StronglySorted (λ x y, less y x = false) (go_sort less l)
}.

(** ** Checks *)

Section checks.
Context `{GovernanceLib, GovJsonLib, ConstantLib, !GovAddrLib, HashLib}.
Context (ctx : Context).

(** A method that only some contracts may call: the addresses are marshalled, and the contract's own
[checkPermission] compares the current caller with them. [Some] is the answer that refuses. *)
Definition onlyFrom (check : list string → string → string → option string → prog bool)
    (internalCode permissionCode objId : string) (specificAddrs : list string) : prog (option Response) :=
  match marshal specificAddrs with
  | None => mret (Some (Error internalCode []))
  | Some addrsData =>
      ok ← check [PermissionSpecific] objId (ctx_CurrentCaller ctx) (Some addrsData);
      mret (if (ok : bool) then None else Some (noPermission ctx permissionCode))
  end.

(** The permission that only looks at a list of addresses. *)
Definition isSpecific (regulatorAddr : string) (specificAddrsData : option string) : option bool :=
  (λ l : list string, bool_decide (regulatorAddr ∈ l)) <$> (specificAddrsData ≫= unmarshal).

(** Whether there is a contract at an address: [CodeHash] of its account. *)
Definition hasCode (addr : string) : prog bool :=
  OpGetCodeHash addr (λ h,
    mret match h with None => false | Some _ => negb (bytes_Equal h (Some (Keccak256 EmptyString))) end).
End checks.

(** ** The managers of [bitxhub-core]

Nodes, chains, services and rules are kept by packages of [bitxhub-core], which the contracts
extend. Each has the operations of [governance.Governance] on the state of the contract: a check that an
event is possible, the state machine, and queries; an interface value that is nil is [None]. Only
[ChangeStatus] writes, and only the state of the contract that runs it. *)
Class RegistryPkg (O : Type) := {
  rg_GovernancePre : Context → string → string → option string → prog (result (option O));
  rg_ChangeStatus : Context → string → string → string → option string → prog bool;
  rg_QueryById : Context → string → option string → prog (option O);
  rg_All : Context → option string → prog (option (list O));
  rg_CountAvailable : Context → option string → prog (bool * option string);
  rg_CountAll : Context → option string → prog (bool * option string);
  rg_GovernancePre_pure ctx id ev extra : reads_only (rg_GovernancePre ctx id ev extra);
  rg_QueryById_pure ctx id extra : reads_only (rg_QueryById ctx id extra);
  rg_All_pure ctx extra : reads_only (rg_All ctx extra);
  rg_CountAvailable_pure ctx extra : reads_only (rg_CountAvailable ctx extra);
  rg_CountAll_pure ctx extra : reads_only (rg_CountAll ctx extra);
  rg_ChangeStatus_own ctx id trigger last extra :
    writes_only (λ a _, a = ctx_Callee ctx) (rg_ChangeStatus ctx id trigger last extra)
}.
Section reads.
Context {Obj : Type} `{RegistryPkg Obj}.
Lemma rg_GovernancePre_reads ctx id ev extra : writes_only (λ _ _, False) (rg_GovernancePre (O := Obj) ctx id ev extra).
Proof. apply reads_only_writes, rg_GovernancePre_pure. Qed.
Lemma rg_QueryById_reads ctx id extra : writes_only (λ _ _, False) (rg_QueryById (O := Obj) ctx id extra).
Proof. apply reads_only_writes, rg_QueryById_pure. Qed.
Lemma rg_All_reads ctx extra : writes_only (λ _ _, False) (rg_All (O := Obj) ctx extra).
Proof. apply reads_only_writes, rg_All_pure. Qed.
Lemma rg_CountAvailable_reads ctx extra : writes_only (λ _ _, False) (rg_CountAvailable (O := Obj) ctx extra).
Proof. apply reads_only_writes, rg_CountAvailable_pure. Qed.
Lemma rg_CountAll_reads ctx extra : writes_only (λ _ _, False) (rg_CountAll (O := Obj) ctx extra).
Proof. apply reads_only_writes, rg_CountAll_pure. Qed.
End reads.
#[export] Hint Resolve rg_GovernancePre_reads rg_QueryById_reads rg_All_reads rg_CountAvailable_reads rg_CountAll_reads
  rg_ChangeStatus_own : writes.
#[export] Hint Resolve rg_GovernancePre_pure rg_QueryById_pure rg_All_pure rg_CountAvailable_pure rg_CountAll_pure : reads.

(** [boltvm.ResponseWrapper] *)
Definition ResponseWrapper (code : string) (r : bool * option string) : Response :=
  if r.1 then Success r.2 else Error code [].

(** The events and states of [bitxhub-core/governance] that only some registries have. *)
Class BindLib `{GovernanceLib} := { GovernanceBindable : string }.
