(* ===== verification/Nodes.v ===== *)
(** * Nodes and their administrators: [src/internal/executor/contracts/node_manager.go]

The package [node-mgr] keeps the nodes. A node for audit is bound to an administrator: the role
contract asks the node contract to bind and release it. This file has the data of nodes and what the role
contract asks; the methods that open proposals about nodes and carry out their results are in
[NodeManager.v]. *)
From Stdlib Require Import Ascii.
From S2P Require Import Prelude Storage Account StateLedger Contract TransactionManager Role Governance Strategy Registry.

(** [nodemgr.Node] without its state machine. *)
Record Node := MkNode {
  nd_Account : string;
  nd_NodeType : string;
  nd_Pid : string;
  nd_VPNodeId : Z;
  nd_Primary : bool;
  nd_Name : string;
  nd_Permissions : strset;
  nd_AuditAdminAddr : string;
  nd_Status : string }.

Definition with_nd_Status (n : Node) v :=
  MkNode (nd_Account n) (nd_NodeType n) (nd_Pid n) (nd_VPNodeId n) (nd_Primary n) (nd_Name n) (nd_Permissions n)
    (nd_AuditAdminAddr n) v.

Record UpdateNodeInfo := MkUpdateNode { un_NodeName : UpdateInfo; un_Permission : UpdateMapInfo }.

(** [events.NodeEvent] *)
Record NodeEvent := MkNodeEvent { ne_NodeId : Z; ne_NodeEventType : string }.

Definition UpdateNode_text (u : UpdateNodeInfo) : list string :=
  UpdateInfo_text (un_NodeName u) ++ (map_to_list (um_OldInfo (un_Permission u))).*1 ++
  (map_to_list (um_NewInfo (un_Permission u))).*1.

(** The package [node-mgr]. *)
Class NodePkg := {
  node_pkg :: RegistryPkg Node;
  nm_Register : Context → Node → prog ();
  nm_RegisterPre : Context → Node → prog ();
  nm_Update : Context → Node → prog bool;
  nm_Bind : Context → string → string → prog bool;
  nm_GetAccountByName : Context → string → prog (option string);
  nm_GetAccountByPid : Context → string → prog (option string);
  nm_GetAccountByVpId : Context → string → prog (option string);
  nd_IsAvailable : Node → bool;
  NodeKey : string → string;
  NodeOccupyNameKey : string → string;
  NodeOccupyPidKey : string → string;
  VPNode : string;
  NVPNode : string;
  nm_Register_own ctx n : writes_only (λ a _, a = ctx_Callee ctx) (nm_Register ctx n);
  nm_RegisterPre_own ctx n : writes_only (λ a _, a = ctx_Callee ctx) (nm_RegisterPre ctx n);
  nm_Update_own ctx n : writes_only (λ a _, a = ctx_Callee ctx) (nm_Update ctx n);
  nm_Bind_own ctx n r : writes_only (λ a _, a = ctx_Callee ctx) (nm_Bind ctx n r);
  nm_GetAccountByName_reads ctx n : writes_only (λ _ _, False) (nm_GetAccountByName ctx n);
  nm_GetAccountByPid_reads ctx n : writes_only (λ _ _, False) (nm_GetAccountByPid ctx n);
  nm_GetAccountByVpId_reads ctx n : writes_only (λ _ _, False) (nm_GetAccountByVpId ctx n);
  node_types : VPNode ≠ NVPNode;
  node_encoding :: Encoding Node;
  nodes_encoding :: Encoding (list Node);
  node_event_encoding :: Encoding NodeEvent;
  update_node_codec :: JsonCodec UpdateNodeInfo UpdateNode_text;
  Event_AUDIT_NODE : Z;
  Event_NODEMGR : Z
}.
#[export] Hint Resolve nm_Register_own nm_RegisterPre_own nm_Update_own nm_Bind_own nm_GetAccountByName_reads
  nm_GetAccountByPid_reads nm_GetAccountByVpId_reads : writes.

Section contract.
Context `{GovernanceLib, GovJsonLib, ProposalJsonLib, ConstantLib, !GovAddrLib, !NodePkg}.
Context (ctx : Context).

Definition nodeErr : Response := Error "NodeInternalErrCode" [].
Definition nonexistentNode (id : string) : Response := Error "NodeNonexistentNodeCode" [id].

(** The administrator of a node may act on it. *)
Fixpoint node_checkPermission (permissions : list string) (nodeAccount regulatorAddr : string)
    (specificAddrsData : option string) : prog bool :=
  match permissions with
  | [] => mret false
  | permission :: permissions =>
      if decide (permission = PermissionSelf)
      then
        node ← rg_QueryById (O := Node) ctx nodeAccount None;
        match node with
        | None => mret false
        | Some nodeInfo =>
            if decide (regulatorAddr = nd_AuditAdminAddr nodeInfo) then mret true
            else node_checkPermission permissions nodeAccount regulatorAddr specificAddrsData
        end
      else if decide (permission = PermissionAdmin)
      then
        res ← CrossInvoke ctx RoleContractAddr (λ ctx, IsAnyAvailableAdmin ctx regulatorAddr GovernanceAdmin);
        match res with
        | Error _ _ => mret false
        | Success data =>
            if decide (data = Some TRUE) then mret true
            else node_checkPermission permissions nodeAccount regulatorAddr specificAddrsData
        end
      else if decide (permission = PermissionSpecific)
      then
        match isSpecific regulatorAddr specificAddrsData with
        | None => mret false
        | Some true => mret true
        | Some false => node_checkPermission permissions nodeAccount regulatorAddr specificAddrsData
        end
      else mret false
  end.

Definition node_onlyFrom (objId : string) (addrs : list string) : prog (option Response) :=
  onlyFrom ctx node_checkPermission "NodeInternalErrCode" "NodeNoPermissionCode" objId addrs.

(** [None] is the error. *)
Definition postAuditNodeEvent (nodeAccount : string) : prog (option ()) :=
  data ← Get ctx (NodeKey nodeAccount);
  match data with
  | None => mret None
  | Some nodeData => _ ← postEvent ctx Event_AUDIT_NODE (MkAudit nodeData [] [nodeAccount]); mret (Some tt)
  end.

Definition node_audited (nodeAccount : string) (res : Response) : prog Response :=
  if ctx_EnableAudit ctx
  then ok ← postAuditNodeEvent nodeAccount; mret match ok with Some _ => res | None => nodeErr end
  else mret res.

(** ** Binding *)

Definition BindNode (nodeAccount auditAdminAddr : string) : prog Response :=
  denied ← node_onlyFrom nodeAccount [RoleContractAddr];
  match denied with Some res => mret res | None =>
  pre ← rg_GovernancePre (O := Node) ctx nodeAccount EventBind None;
  match pre with inr be => mret (Error (be_Code be) (be_Args be)) | inl None => Panic | inl (Some node) =>
  if decide (nd_NodeType node = VPNode) then mret (Error "NodeBindVPNodeCode" [nodeAccount])
  else
  ok ← nm_Bind ctx nodeAccount auditAdminAddr;
  if negb ok then mret nodeErr
  else
  ok ← rg_ChangeStatus (O := Node) ctx nodeAccount EventBind (nd_Status node) None;
  if negb ok then mret nodeErr else node_audited nodeAccount (getGovernanceRet EmptyString None)
  end end.

Definition ManageBindNode (nodeAccount auditAdminAddr resultEvent : string) : prog Response :=
  denied ← node_onlyFrom nodeAccount [RoleContractAddr];
  match denied with Some res => mret res | None =>
  ok ← rg_ChangeStatus (O := Node) ctx nodeAccount resultEvent GovernanceAvailable None;
  if negb ok then mret nodeErr
  else
  ok ← (if decide (resultEvent = EventReject) then nm_Bind ctx nodeAccount EmptyString else mret true);
  if negb ok then mret nodeErr else node_audited nodeAccount (getGovernanceRet EmptyString None)
  end.

Definition unbindNode (nodeAccount : string) : prog Response :=
  pre ← rg_GovernancePre (O := Node) ctx nodeAccount EventUnbind None;
  match pre with inr _ => mret (Success None) | inl None => Panic | inl (Some node) =>
  if decide (nd_NodeType node = VPNode) then mret (Error "NodeUnbindVPNodeCode" [nodeAccount])
  else
  ok ← rg_ChangeStatus (O := Node) ctx nodeAccount EventUnbind (nd_Status node) None;
  if negb ok then mret nodeErr else node_audited nodeAccount (getGovernanceRet EmptyString None)
  end.

Definition UnbindNode (nodeAccount : string) : prog Response :=
  denied ← node_onlyFrom nodeAccount [RoleContractAddr];
  match denied with Some res => mret res | None => unbindNode nodeAccount end.

(** ** Queries *)

Definition answerNode (node : Node) : Response :=
  match marshal node with Some data => Success (Some data) | None => nodeErr end.

Definition GetNode (nodeAccount : string) : prog Response :=
  node ← rg_QueryById (O := Node) ctx nodeAccount None;
  mret match node with None => nonexistentNode nodeAccount | Some node => answerNode node end.

(** The number after the largest id of a validating node that is available; [int] wraps around. *)
Definition getNextVpID : prog (option Z) :=
  nodes ← rg_All (O := Node) ctx None;
  mret ((λ l : list Node,
           i64 (foldl (λ maxId node, if nd_IsAvailable node && bool_decide (nd_NodeType node = VPNode)
                                         && bool_decide (i64 (nd_VPNodeId node) > maxId)%Z
                                     then i64 (nd_VPNodeId node) else maxId) 0%Z l + 1)) <$> (nodes : option (list Node))).

Definition GetNextVpID : prog Response :=
  n ← getNextVpID; mret match n with None => nodeErr | Some n => Success (Some (fmt_d n)) end.

Definition CountAvailableNodes (nodeType : string) : prog Response :=
  r ← rg_CountAvailable (O := Node) ctx (Some nodeType); mret (ResponseWrapper "NodeInternalErrCode" r).
Definition CountNodes (nodeType : string) : prog Response :=
  r ← rg_CountAll (O := Node) ctx (Some nodeType); mret (ResponseWrapper "NodeInternalErrCode" r).

Definition Nodes : prog Response :=
  nodes ← rg_All (O := Node) ctx None;
  mret match nodes ≫= marshal with Some data => Success (Some data) | None => nodeErr end.

Definition node_IsAvailable (nodeAccount : string) : prog Response :=
  node ← rg_QueryById (O := Node) ctx nodeAccount None;
  mret (Success (Some (FormatBool match node with None => false | Some node => nd_IsAvailable node end))).

(** A node by one of the indices. *)
Definition nodeAt (what : string) (account : option string) : prog Response :=
  match account with None => mret (nonexistentNode what) | Some nodeAccount =>
  node ← rg_QueryById (O := Node) ctx nodeAccount None;
  mret match node with None => nodeErr | Some node => answerNode node end
  end.

Definition GetNvpNodeByName (nodeName : string) : prog Response :=
  account ← nm_GetAccountByName ctx nodeName; nodeAt nodeName account.
Definition GetVpNodeByPid (nodePid : string) : prog Response :=
  account ← nm_GetAccountByPid ctx nodePid; nodeAt nodePid account.
Definition GetVpNodeByVpId (nodeVpId : string) : prog Response :=
  account ← nm_GetAccountByVpId ctx nodeVpId; nodeAt nodeVpId account.

(** ** Which keys are written *)

Lemma own_reads {A} P (m : prog A) : writes_only (λ _ _, False) m → writes_only P m.
Proof. by apply writes_only_weaken. Qed.

Lemma node_onlyFrom_reads P id l : writes_only P (node_onlyFrom id l).
Proof.
  unfold node_onlyFrom, onlyFrom. destruct (marshal l); [|done]. apply writes_only_bind; [|by intros []].
  cbn [node_checkPermission]. rewrite decide_False, decide_False, decide_True by done. by destruct (isSpecific _ _) as [[]|].
Qed.

Lemma node_audited_writes P id r : writes_only P (node_audited id r).
Proof.
  unfold node_audited, postAuditNodeEvent. destruct (ctx_EnableAudit ctx); [|done]. apply writes_only_bind; [|done].
  apply writes_only_bind; [apply Get_writes|]. intros [d|]; [|done]. apply writes_only_bind; [apply postEvent_writes|done].
Qed.

Local Notation own := (λ a (_ : string), a = ctx_Callee ctx).
Local Hint Resolve node_onlyFrom_reads node_audited_writes own_reads : writes.

Lemma GetNode_own n : writes_only own (GetNode n).
Proof. unfold GetNode. solve_writes. Qed.
Lemma BindNode_own n r : writes_only own (BindNode n r).
Proof. unfold BindNode. solve_writes. Qed.
Lemma ManageBindNode_own n r s : writes_only own (ManageBindNode n r s).
Proof. unfold ManageBindNode. solve_writes. Qed.
Lemma unbindNode_own n : writes_only own (unbindNode n).
Proof. unfold unbindNode. solve_writes. Qed.
Local Hint Resolve unbindNode_own : writes.
Lemma UnbindNode_own n : writes_only own (UnbindNode n).
Proof. unfold UnbindNode. solve_writes. Qed.
End contract.
