(* ===== verification/RoleManager.v ===== *)
(** * The role contract: [src/internal/executor/contracts/role.go]

Registration, freezing, activation, logout and binding of administrators by proposals, the results of
these proposals ([Manage]), and the accounts that are taken. The data and the queries are in
[Role.v]; the nodes of administrators are in the node contract ([Nodes.v]). *)
From Stdlib Require Import Ascii.
From S2P Require Import Prelude Storage Account StateLedger Contract TransactionManager Role Governance Strategy Registry Nodes.

(** Addresses in [bitxhub-kit/types], JSON of texts, and the kind of event. *)
Class RoleLib := {
  HexDecodeString : string → bool;
  NewAddressByStr : string → string;
  text_codec :: JsonCodec string (λ s, [s]);
  Event_AUDIT_ROLE : Z
}.

Definition GenesisBalance : string := "genesis_balance".

Section contract.
Context `{GovernanceLib, GovJsonLib, ProposalJsonLib, StrategyJsonLib, EvalLib, FsmLib, ConstantLib, !GovAddrLib, GoRange, !RoleLib, !NodePkg, QueryLib}.

Context (Manage : string → string → string → string → string → option string → Context → prog Response).
Context (ctx : Context).

Definition roleErr : Response := Error "RoleInternalErrCode" [].

(** *** Checks *)

(** [inl None]: there is no such role, and the event registers it. *)
Definition role_governancePre (roleId event : string) : prog (result (option Role)) :=
  role ← GetObject (A := Role) ctx (RoleKey roleId);
  mret match role with
       | None =>
           if decide (event = EventRegister) then inl None else inr (MkBxhError "RoleNonexistentRoleCode" [roleId])
       | Some role =>
           if decide (rl_Status role ∈ roleStateMap event) then inl (Some role)
           else inr (MkBxhError "RoleStatusErrorCode" [roleId; rl_Status role; event])
       end.

Definition role_changeStatus (roleId trigger lastStatus : string) : prog bool :=
  role ← GetObject (A := Role) ctx (RoleKey roleId);
  match role with
  | None => mret false
  | Some role =>
      match role_Event role lastStatus trigger with
      | None => mret false
      | Some role => _ ← SetObject ctx (RoleKey roleId) role; mret true
      end
  end.

(** Administrators are looked up in the contract itself. *)
Fixpoint role_checkPermission (permissions : list string) (roleId regulatorAddr : string)
    (specificAddrsData : option string) : prog bool :=
  match permissions with
  | [] => mret false
  | permission :: permissions =>
      if decide (permission = PermissionSelf)
      then if decide (regulatorAddr = roleId) then mret true
           else role_checkPermission permissions roleId regulatorAddr specificAddrsData
      else if decide (permission = PermissionAdmin)
      then
        b ← isAvailableAdmin ctx regulatorAddr GovernanceAdmin;
        if (b : bool) then mret true else role_checkPermission permissions roleId regulatorAddr specificAddrsData
      else if decide (permission = PermissionSpecific)
      then
        match specificAddrsData ≫= unmarshal with
        | None => mret false
        | Some specificAddrs =>
            if decide (regulatorAddr ∈ (specificAddrs : list string)) then mret true
            else role_checkPermission permissions roleId regulatorAddr specificAddrsData
        end
      else mret false
  end.

(** As [checkSpecific], with the contract's own check. *)
Definition role_checkSpecific (specificAddrs : list string) : prog (option Response) :=
  match marshal specificAddrs with
  | None => mret (Some roleErr)
  | Some addrsData =>
      ok ← role_checkPermission [PermissionSpecific] EmptyString (ctx_CurrentCaller ctx) (Some addrsData);
      mret (if (ok : bool) then None else Some (Error "RoleNoPermissionCode" [ctx_CurrentCaller ctx]))
  end.

(** *** Accounts that are taken *)

Definition occupyAccount (addr roleType : string) : prog () := SetObject ctx (OccupyAccountKey addr) roleType.
Definition freeAccount (addr : string) : prog () := Delete ctx (OccupyAccountKey addr).
Definition checkOccupiedAccount (addr : string) : prog (option string) := GetObject (A := string) ctx (OccupyAccountKey addr).

Definition OccupyAccount (addrs roleType : string) : prog Response :=
  denied ← role_checkSpecific [AppchainMgrContractAddr; NodeManagerContractAddr];
  match denied with Some res => mret res | None =>
  _ ← prog_iter (λ addr, occupyAccount addr roleType) (str_split comma addrs);
  mret (Success None)
  end.

Definition FreeAccount (addrs : string) : prog Response :=
  denied ← role_checkSpecific [AppchainMgrContractAddr; NodeManagerContractAddr];
  match denied with Some res => mret res | None =>
  _ ← prog_iter freeAccount (str_split comma addrs);
  mret (Success None)
  end.

Definition CheckOccupiedAccount (account : string) : prog Response :=
  roleType ← checkOccupiedAccount account;
  mret match roleType with
       | Some roleType => Error "RoleDuplicateAccountCode" [account; roleType]
       | None => Success None
       end.

Definition checkRoleInfo (role : Role) : prog Response :=
  if negb (HexDecodeString (rl_ID role)) then mret (Error "RoleIllegalRoleIDCode" [rl_ID role])
  else
    taken ← checkOccupiedAccount (rl_ID role);
    match taken with
    | Some roleType => mret (Error "RoleDuplicateAccountCode" [rl_ID role; roleType])
    | None =>
        if decide (rl_RoleType role = GovernanceAdmin) then mret (Success None)
        else if decide (rl_RoleType role = AuditAdmin)
        then
          res ← CrossInvoke ctx NodeManagerContractAddr (λ nctx, GetNode nctx (rl_NodeAccount role));
          mret match res with
               | Error _ _ => Error "RoleNonexistentNodeCode" [rl_NodeAccount role]
               | Success data =>
                   match data ≫= unmarshal with
                   | None => roleErr
                   | Some node =>
                       if decide (NVPNode ≠ nd_NodeType node) then Error "RoleWrongNodeCode" [rl_NodeAccount role]
                       else if decide (GovernanceAvailable ≠ nd_Status node)
                       then Error "RoleWrongStatusNodeCode" [rl_NodeAccount role; nd_Status node]
                       else Success None
                   end
               end
        else mret (Error "RoleIllegalRoleIDCode" [rl_RoleType role])
    end.

(** *** Registration *)

Definition registerPre (roleInfo : Role) : prog () :=
  _ ← SetObject ctx (RoleKey (rl_ID roleInfo)) roleInfo;
  occupyAccount (rl_ID roleInfo) (rl_RoleType roleInfo).

(** [AddBalance] of an account of the ledger. *)
Definition account_AddBalance (addr : string) (amount : Z) : prog () :=
  if decide (amount = 0)%Z then mret tt
  else OpGetBalance addr (λ balance, OpSetBalance addr (balance + amount) (mret tt)).

(** [None] is the error; a balance that is not a number panics. *)
Definition register (roleInfo : Role) : prog (option ()) :=
  roleIdMap ← GetObject (A := OrderedMap) ctx (RoleTypeKey (rl_RoleType roleInfo));
  _ ← SetObject ctx (RoleTypeKey (rl_RoleType roleInfo)) (om_Set (default om_New roleIdMap) (rl_ID roleInfo));
  if decide (rl_RoleType roleInfo = GovernanceAdmin ∨ rl_RoleType roleInfo = AuditAdmin)
  then
    gb ← Get ctx GenesisBalance;
    match gb with
    | None => mret None
    | Some gb =>
        match big_SetString gb with
        | None => Panic
        | Some balance => _ ← account_AddBalance (NewAddressByStr (rl_ID roleInfo)) balance; mret (Some tt)
        end
    end
  else mret None.

(** [None] is the error. *)
Definition postAuditRoleEvent (roleId : string) : prog (option ()) :=
  data ← Get ctx (RoleKey roleId);
  match data with
  | None => mret None
  | Some roleData =>
      match unmarshal roleData with
      | None => mret None
      | Some role =>
          let chains := if decide (rl_RoleType role = AppchainAdmin) then [rl_AppchainID role] else [] in
          let nodes := if decide (rl_RoleType role = AuditAdmin) then [rl_NodeAccount role] else [] in
          _ ← postEvent ctx Event_AUDIT_ROLE (MkAudit roleData chains nodes);
          mret (Some tt)
      end
  end.

Definition role_audited (roleId : string) (res : Response) : prog Response :=
  if ctx_EnableAudit ctx
  then ok ← postAuditRoleEvent roleId; mret match ok with Some _ => res | None => roleErr end
  else mret res.

(** *** Open proposals and strategies follow the administrators *)

(** The change of the number of electors; numbers wrap around. *)
Definition electorate_change (eventTyp : string) (num : Z) : Z :=
  if decide (eventTyp = EventFreeze ∨ eventTyp = EventLogout) then u64 (num - 1)
  else if decide (eventTyp = EventActivate ∨ eventTyp = EventReject) then num +u 1
  else num.

(** The loop over the proposals; [None] is the error. *)
Fixpoint updateElectorates (roleId eventTyp : string) (proposals : list Proposal) : prog (option ()) :=
  match proposals with
  | [] => mret (Some tt)
  | p :: ps =>
      if decide (roleId ∈ rl_ID <$> p_ElectorateList p)
      then
        res ← CrossInvoke ctx GovernanceContractAddr (λ gctx, UpdateAvailableElectorateNum Manage gctx (p_Id p)
                (electorate_change eventTyp (p_AvailableElectorateNum p)));
        if resp_Ok res then updateElectorates roleId eventTyp ps else mret None
      else updateElectorates roleId eventTyp ps
  end.

Definition updateRoleRelatedProposalInfo (roleId eventTyp : string) : prog (option ()) :=
  res ← CrossInvoke ctx GovernanceContractAddr GetNotClosedProposals;
  match res with
  | Error _ _ => mret None
  | Success data =>
      match data ≫= unmarshal with
      | None => mret None
      | Some proposals => updateElectorates roleId eventTyp proposals
      end
  end.

Definition role_updateStrategyInfo : prog (option BxhError) :=
  roles ← getRolesByType ctx GovernanceAdmin;
  match roles with
  | inr berr => mret (Some berr)
  | inl roles =>
      res ← CrossInvoke ctx ProposalStrategyMgrContractAddr
              (λ sctx, UpdateProposalStrategyByRolesChange sctx (Z.of_nat (length (filter IsAvailable roles))));
      mret (if resp_Ok res then None else Some (MkBxhError "RoleInternalErrCode" []))
  end.

(** The two together. *)
Definition updateElectorate (roleId eventTyp : string) : prog Response :=
  ok ← updateRoleRelatedProposalInfo roleId eventTyp;
  match ok with None => mret roleErr | Some _ =>
  berr ← role_updateStrategyInfo;
  mret match berr with Some berr => Error (be_Code berr) (be_Args berr) | None => Success None end
  end.

(** *** Results of proposals *)

Definition handleGovernanceAdmin (eventTyp proposalResult objId : string) (role : Role) : prog Response :=
  if decide (eventTyp = EventRegister)
  then
    if decide (proposalResult = APPROVED)
    then
      ok ← register role;
      match ok with None => mret roleErr | Some _ =>
      berr ← role_updateStrategyInfo;
      mret match berr with Some berr => Error (be_Code berr) (be_Args berr) | None => Success None end
      end
    else _ ← freeAccount (rl_ID role); mret (Success None)
  else if decide (eventTyp = EventFreeze ∨ eventTyp = EventActivate)
  then if decide (proposalResult = APPROVED) then updateElectorate objId eventTyp else mret (Success None)
  else if decide (eventTyp = EventLogout ∧ proposalResult = REJECTED ∧ IsAvailable role = true)
  then updateElectorate objId EventReject
  else mret (Success None).

(** The governance contract ends the proposals about an object. *)
Definition endObjProposals (objId : string) : prog Response :=
  CrossInvoke ctx GovernanceContractAddr (λ gctx, EndObjProposal gctx objId ClearReason None).

Definition pauseAuditAdmin (roleId : string) : prog Response :=
  pre ← role_governancePre roleId EventPause;
  match pre with
  | inr _ => mret (Success None)
  | inl None => Panic
  | inl (Some role) =>
      ok ← role_changeStatus roleId EventPause (rl_Status role);
      if negb ok then mret roleErr
      else
        res ← endObjProposals roleId;
        if resp_Ok res then role_audited roleId (getGovernanceRet EmptyString None) else mret roleErr
  end.

Definition restoreAuditAdmin (roleId : string) : prog Response :=
  pre ← role_governancePre roleId EventUnpause;
  match pre with
  | inr _ => mret (Success None)
  | inl None => Panic
  | inl (Some role) =>
      res ← CrossInvoke ctx GovernanceContractAddr (λ gctx, UnLockLowPriorityProposal Manage gctx (rl_ID role) EventUnpause);
      if resp_Ok res then role_audited roleId (getGovernanceRet EmptyString None) else mret roleErr
  end.

(** The result of a proposal to log an administrator for audit out. *)
Definition handleAuditLogout (proposalResult : string) (role : Role) : prog Response :=
  if decide (proposalResult = APPROVED)
  then
    res ← endObjProposals (rl_ID role);
    if negb (resp_Ok res) then mret roleErr
    else
      res ← CrossInvoke ctx NodeManagerContractAddr (λ nctx, UnbindNode nctx (rl_NodeAccount role));
      mret (if resp_Ok res then Success None else roleErr)
  else if decide (rl_NodeAccount role = EmptyString) then mret (Success None)
  else
    res ← CrossInvoke ctx NodeManagerContractAddr (λ nctx, GetNode nctx (rl_NodeAccount role));
    match res with
    | Error _ _ => mret roleErr
    | Success data =>
        match data ≫= unmarshal with
        | None => mret roleErr
        | Some node =>
            res ← (if decide (nd_Status node = GovernanceForbidden) then pauseAuditAdmin (rl_ID role)
                   else if decide (nd_Status node = GovernanceBinding) then restoreAuditAdmin (rl_ID role)
                   else mret (Success None));
            mret (if resp_Ok res then Success None else res)
        end
    end.

Definition bindResult (proposalResult objId : string) (role : Role) : prog Response :=
  res ← CrossInvoke ctx NodeManagerContractAddr (λ nctx, ManageBindNode nctx (rl_NodeAccount role) objId proposalResult);
  mret (if resp_Ok res then Success None else roleErr).

Definition handleAuditAdmin (eventTyp proposalResult objId : string) (role : Role) : prog Response :=
  if decide (eventTyp = EventRegister)
  then
    if decide (proposalResult = APPROVED)
    then
      ok ← register role;
      match ok with None => mret roleErr | Some _ => bindResult proposalResult objId role end
    else _ ← freeAccount (rl_ID role); bindResult proposalResult objId role
  else if decide (eventTyp = EventBind) then bindResult proposalResult objId role
  else if decide (eventTyp = EventLogout) then handleAuditLogout proposalResult role
  else mret (Success None).

Definition role_Manage (eventTyp proposalResult lastStatus objId : string) (_ : option string) : prog Response :=
  denied ← role_checkSpecific [GovernanceContractAddr];
  match denied with Some res => mret res | None =>
  if decide (eventTyp = EventUnpause) then mret (Success None)
  else
  ok ← role_changeStatus objId proposalResult lastStatus;
  if negb ok then mret roleErr
  else
  role ← GetObject (A := Role) ctx (RoleKey objId);
  match role with None => mret roleErr | Some role =>
  res ← (if decide (rl_RoleType role = GovernanceAdmin) then handleGovernanceAdmin eventTyp proposalResult objId role
         else if decide (rl_RoleType role = AuditAdmin) then handleAuditAdmin eventTyp proposalResult objId role
         else mret (Success None));
  if resp_Ok res then role_audited objId (Success None) else mret res
  end end.

(** *** Opening proposals *)

Definition RegisterRole (roleId roleType nodeAccount reason : string) : prog Response :=
  ok ← role_checkPermission [PermissionAdmin] roleId (ctx_CurrentCaller ctx) None;
  if negb ok then mret (noPermission ctx "RoleNoPermissionCode")
  else
  let role := MkRole roleId roleType NormalAdminWeight nodeAccount EmptyString GovernanceUnavailable in
  checked ← checkRoleInfo role;
  if negb (resp_Ok checked) then mret checked
  else
  pre ← role_governancePre roleId EventRegister;
  match pre with inr bxhErr => mret (Error (be_Code bxhErr) (be_Args bxhErr)) | inl _ =>
  _ ← registerPre role;
  res ← submit ctx EventRegister RoleMgr (rl_ID role) (rl_Status role) reason None;
  match res with Error _ _ => mret roleErr | Success id =>
  let id := default EmptyString id in
  ok ← role_changeStatus (rl_ID role) EventRegister (rl_Status role);
  if negb ok then mret roleErr
  else
  bound ← (if decide (AuditAdmin = roleType)
           then CrossInvoke ctx NodeManagerContractAddr (λ nctx, BindNode nctx nodeAccount (rl_ID role))
           else mret (Success None));
  if negb (resp_Ok bound) then mret bound
  else
  _ ← zeroPermission Manage ctx id;
  role_audited roleId (getGovernanceRet id (Some (rl_ID role)))
  end end.

(** What [basicGovernance] does for each type of role: [inl] is the error it answers, [inr] the role. *)
Definition governable (role : Role) (roleId event : string) (extra : option string) : prog (Response + Role) :=
  if decide (rl_RoleType role = AppchainAdmin) then mret (inl (Error "RoleNonsupportAppchainAdminCode" [roleId; event]))
  else if decide (rl_RoleType role = AuditAdmin)
  then
    if decide (event = EventFreeze ∨ event = EventActivate)
    then mret (inl (Error "RoleNonsupportAuditAdminCode" [roleId; event]))
    else if decide (event = EventBind)
    then
      let role := with_rl_NodeAccount role (default EmptyString extra) in
      _ ← SetObject ctx (RoleKey roleId) role;
      mret (inr role)
    else mret (inr role)
  else if decide (rl_RoleType role = GovernanceAdmin)
  then
    if decide (event = EventBind) then mret (inl (Error "RoleNonsupportGovernanceAdminCode" [roleId; event]))
    else if decide (rl_Weight role = SuperAdminWeight) then mret (inl (Error "RoleNonsupportSuperAdminCode" [roleId; event]))
    else mret (inr role)
  else mret (inr role).

Definition basicGovernance (roleId reason : string) (permissions : list string) (event : string) (extra : option string) :
    prog Response :=
  ok ← role_checkPermission permissions roleId (ctx_CurrentCaller ctx) None;
  if negb ok then mret (noPermission ctx "RoleNoPermissionCode")
  else
  pre ← role_governancePre roleId event;
  match pre with inr bxhErr => mret (Error (be_Code bxhErr) (be_Args bxhErr)) | inl None => Panic | inl (Some role) =>
  g ← governable role roleId event extra;
  match g with inl res => mret res | inr role =>
  res ← submit ctx event RoleMgr roleId (rl_Status role) reason extra;
  match res with Error _ _ => mret roleErr | Success id =>
  ok ← role_changeStatus roleId event (rl_Status role);
  if negb ok then mret roleErr
  else role_audited roleId (getGovernanceRet (default EmptyString id) None)
  end end end.

(** The proposal in the answer is carried out if it needs no vote. *)
Definition finishGovernance (res : Response) : prog Response :=
  match (match res with Success data => data ≫= unmarshal | Error _ _ => None end) with
  | None => mret roleErr
  | Some gr => _ ← zeroPermission Manage ctx (gr_ProposalID gr); mret res
  end.

Definition FreezeRole (roleId reason : string) : prog Response :=
  if decide (roleId = ctx_CurrentCaller ctx) then mret (noPermission ctx "RoleNoPermissionCode")
  else
    res ← basicGovernance roleId reason [PermissionAdmin] EventFreeze None;
    if negb (resp_Ok res) then mret res else finishGovernance res.

Definition ActivateRole (roleId reason : string) : prog Response :=
  res ← basicGovernance roleId reason [PermissionAdmin; PermissionSelf] EventActivate None;
  if negb (resp_Ok res) then mret res else finishGovernance res.

Definition LogoutRole (roleId reason : string) : prog Response :=
  governanceRes ← basicGovernance roleId reason [PermissionAdmin; PermissionSelf] EventLogout None;
  if negb (resp_Ok governanceRes) then mret governanceRes
  else
  role ← GetObject (A := Role) ctx (RoleKey roleId);
  match role with None => mret roleErr | Some role =>
  res ← (if decide (rl_RoleType role = GovernanceAdmin ∧ IsAvailable role = true)
         then updateElectorate roleId EventLogout else mret (Success None));
  if negb (resp_Ok res) then mret res else finishGovernance governanceRes
  end.

Definition BindRole (roleId nodeAccount reason : string) : prog Response :=
  governanceRes ← basicGovernance roleId reason [PermissionAdmin] EventBind (Some nodeAccount);
  if negb (resp_Ok governanceRes) then mret governanceRes
  else
  role ← GetObject (A := Role) ctx (RoleKey roleId);
  match role with None => mret roleErr | Some role =>
  res ← CrossInvoke ctx NodeManagerContractAddr (λ nctx, BindNode nctx (rl_NodeAccount role) (rl_ID role));
  if negb (resp_Ok res) then mret roleErr else finishGovernance governanceRes
  end.

(** *** Administrators of application chains *)

Definition updateAppchainAdmin (appchainID : string) (adminAddrs : list string) : prog () :=
  all ← GetObject (A := OrderedMap) ctx (RoleTypeKey AppchainAdmin);
  the ← GetObject (A := OrderedMap) ctx (RoleAppchainAdminKey appchainID);
  let all := default om_New all in
  let the := default om_New the in
  _ ← prog_iter (λ addr, Delete ctx (RoleKey addr)) (om_Keys the);
  _ ← prog_iter (λ addr, SetObject ctx (RoleKey addr)
                           (MkRole addr AppchainAdmin 0 EmptyString appchainID GovernanceAvailable)) adminAddrs;
  _ ← SetObject ctx (RoleTypeKey AppchainAdmin) (foldl om_Set all adminAddrs);
  SetObject ctx (RoleAppchainAdminKey appchainID) (foldl om_Set the adminAddrs).

Fixpoint audit_roles (addrs : list string) : prog Response :=
  match addrs with
  | [] => mret (Success None)
  | addr :: addrs =>
      ok ← postAuditRoleEvent addr;
      match ok with None => mret roleErr | Some _ => audit_roles addrs end
  end.

Definition UpdateAppchainAdmin (appchainID adminAddrs : string) : prog Response :=
  denied ← role_checkSpecific [AppchainMgrContractAddr];
  match denied with Some res => mret res | None =>
  _ ← updateAppchainAdmin appchainID (str_split comma adminAddrs);
  if ctx_EnableAudit ctx then audit_roles (str_split comma adminAddrs) else mret (Success None)
  end.
(** *** Administrators by their node *)

Fixpoint decodeAll {A} `{Encoding A} (values : list (option string)) : option (list A) :=
  match values with
  | [] => Some []
  | data :: values => v ← data ≫= unmarshal; l ← decodeAll values; Some (v :: l)
  end.

Definition RolePrefix : string := "role".

Definition role_getAll : prog (option (list Role)) :=
  values ← stub_Query ctx RolePrefix; mret (decodeAll values).

Definition GetAllRoles : prog Response :=
  roles ← role_getAll;
  mret match roles ≫= marshal with Some data => Success (Some data) | None => roleErr end.

Definition boundTo (nodeId : string) (role : Role) : Prop :=
  rl_Status role ∈ [GovernanceRegisting; GovernanceAvailable; GovernanceBinding] ∧ rl_NodeAccount role = nodeId.

Definition getBindRoleByNodeID (nodeId : string) : prog (option Role) :=
  roles ← role_getAll;
  mret (roles ≫= λ roles : list Role, snd <$> list_find (boundTo nodeId) roles).

(** The method of an administrator that the node contract asks for. *)
Definition forBoundRole (nodeId : string) (f : Role → prog Response) : prog Response :=
  denied ← role_checkSpecific [NodeManagerContractAddr];
  match denied with Some res => mret res | None =>
  role ← getBindRoleByNodeID nodeId;
  match role with None => mret roleErr | Some role => f role end
  end.

Definition PauseAuditAdmin (nodeId : string) : prog Response := forBoundRole nodeId (λ role, pauseAuditAdmin (rl_ID role)).

Definition PauseAuditAdminBinding (nodeId : string) : prog Response :=
  forBoundRole nodeId (λ role,
    res ← CrossInvoke ctx GovernanceContractAddr (λ gctx, LockLowPriorityProposal gctx (rl_ID role) EventPause);
    if resp_Ok res then role_audited (rl_ID role) (getGovernanceRet EmptyString None) else mret roleErr).

Definition RestoreAuditAdminBinding (nodeId : string) : prog Response :=
  forBoundRole nodeId (λ role, restoreAuditAdmin (rl_ID role)).
End contract.
