(* ===== verification/Names.v ===== *)
(** * Names of services: [service_registry.go] and [service_resolver.go]

The registry sells the names of the first level for a time, and gives out names below them by proposals; the
resolver keeps what a name stands for and which names a service has. Both contracts call each other: the
registry stores the data of a new name at its resolver, and the resolver asks the registry who owns a name.

Their methods have value receivers, so each call works on its own copy of the contract. A map that can be nil
is an [option]; storing in a nil map panics. [GetObject] into a variable whose result is not looked at leaves in
the variable what was decoded before the error: [Leftover] is that value. *)
From Stdlib Require Import Ascii.
From S2P Require Import Prelude Storage Account StateLedger Contract TransactionManager Interchain Role ProofPool Governance Strategy Registry Nodes RoleManager.

(** ** Data *)

Definition RootDomain : string := "hub".
Definition PriceLenLevel : string := "priceLevel".
Definition BitxhubTokenPrice : string := "tokenPrice".
Definition Level1Domain : string := "level1Domain".
Definition ResolverMap : string := "resolverMap".
Definition PreRegister : string := "preRegister".
Definition PermissionController : string := "permissionController".
Definition GRACEPERIOD : Z := 90 * 24 * 60 * 60.
Definition SecondTime : Z := 1000000000.
Definition LevelZero : Z := 0.
Definition LevelOne : Z := 1.
Definition LevelTwo : Z := 2.
Definition RegisteredDomain : Z := 1.
Definition ReviewedDomain : Z := 0.
Definition ReverseMap : string := "reverseMap".

Record Price := MkPrice { pr_base : Z; pr_premium : Z }.

Record PriceLevel := MkPriceLevel {
  Price1Letter : Z; Price2Letter : Z; Price3Letter : Z; Price4Letter : Z; Price5Letter : Z }.

Record ServDomainRec := MkDomainRec {
  sd_Owner : string;
  sd_Resolver : string;
  sd_SubDomain : option (gmap string bool);
  sd_SubDomainInReview : option (gmap string bool);
  sd_Parent : string }.

Definition no_rec : ServDomainRec := MkDomainRec EmptyString EmptyString None None EmptyString.

Definition with_sd_Owner (r : ServDomainRec) v :=
  MkDomainRec v (sd_Resolver r) (sd_SubDomain r) (sd_SubDomainInReview r) (sd_Parent r).
Definition with_sd_Resolver (r : ServDomainRec) v :=
  MkDomainRec (sd_Owner r) v (sd_SubDomain r) (sd_SubDomainInReview r) (sd_Parent r).
Definition with_sd_subs (r : ServDomainRec) subs review :=
  MkDomainRec (sd_Owner r) (sd_Resolver r) subs review (sd_Parent r).
Definition with_sd_Parent (r : ServDomainRec) v :=
  MkDomainRec (sd_Owner r) (sd_Resolver r) (sd_SubDomain r) (sd_SubDomainInReview r) v.

Record SubDomainProposalData := MkSubDomainData {
  sp_ParentName : string; sp_ParentOwner : string; sp_SonName : string; sp_Onwer : string; sp_Resolver : string;
  sp_ServiceName : string }.

Record ServDomain := MkServDomain { dm_Name : string; dm_Level : Z; dm_Status : Z; dm_ParentName : string }.

Record ServDomainData := MkDomainData {
  dd_Addr : option (gmap Z string); dd_ServiceName : string; dd_Des : string; dd_Dids : option (list string) }.

(** What [GetObject] leaves in a fresh variable when the text cannot be decoded. *)
Class Leftover (A : Type) := { leftover : string → A }.

(** The texts in a record that JSON has to keep. *)
Definition Rec_text (r : ServDomainRec) : list string :=
  [sd_Owner r; sd_Resolver r; sd_Parent r] ++
  (map_to_list (default ∅ (sd_SubDomain r))).*1 ++ (map_to_list (default ∅ (sd_SubDomainInReview r))).*1.
Definition Data_text (d : ServDomainData) : list string :=
  [dd_ServiceName d; dd_Des d] ++ (map_to_list (default ∅ (dd_Addr d))).*2 ++ default [] (dd_Dids d).
Definition ProposalData_text (d : SubDomainProposalData) : list string :=
  [sp_ParentName d; sp_ParentOwner d; sp_SonName d; sp_Onwer d; sp_Resolver d; sp_ServiceName d].

(** The address of the resolver, the texts of the constants, and JSON. *)
Class NameLib `{GovAddrLib} := {
  ServiceResolverContractAddr : string;
  resolver_addr_new :
    ServiceResolverContractAddr ∉ [GovernanceContractAddr; RoleContractAddr; ServiceRegistryContractAddr];
  (** [string(constant.X)] *)
  ServiceRegistryText : string;
  ServiceResolverText : string;
  rec_codec :: JsonCodec ServDomainRec Rec_text;
  rec_leftover :: Leftover ServDomainRec;
  price_codec :: JsonCodec PriceLevel (λ _, []);
  number_codec :: JsonCodec Z (λ _, []);
  expiry_codec :: JsonCodec (gmap string Z) (λ m, (map_to_list m).*1);
  expiry_leftover :: Leftover (gmap string Z);
  flags_codec :: JsonCodec (gmap string bool) (λ m, (map_to_list m).*1);
  flags_leftover :: Leftover (gmap string bool);
  permissions_codec ::
    JsonCodec (gmap string (gmap string bool)) (λ m, map_to_list m ≫= λ '(k, f), k :: (map_to_list f).*1);
  subdomain_codec :: JsonCodec SubDomainProposalData ProposalData_text;
  domains_codec :: JsonCodec (list ServDomain) (λ l, l ≫= λ d, [dm_Name d; dm_ParentName d]);
  names_codec :: JsonCodec (option (list string)) (λ l, default [] l);
  data_codec :: JsonCodec ServDomainData Data_text;
  reverse_codec ::
    JsonCodec (gmap string (option (list string))) (λ m, map_to_list m ≫= λ '(k, l), k :: default [] l);
  reverse_leftover :: Leftover (gmap string (option (list string)))
}.

(** ** Plain functions *)

Definition bnsErr : Response := Error "BnsErrCode" [].

Definition generateSubDomain (parentName sonName : string) : string := sonName +:+ "." +:+ parentName.

Definition is_hex_digit (c : ascii) : bool :=
  let n := nat_of_ascii c in
  bool_decide ((48 ≤ n ≤ 57) ∨ (97 ≤ n ≤ 102) ∨ (65 ≤ n ≤ 70)).

(** The regular expression [^0x[0-9a-fA-F]{40}$]. *)
Definition checkBxhAddress (address : string) : bool :=
  match address with
  | String c0 (String c1 digits) =>
      bool_decide (c0 = "0"%char) && bool_decide (c1 = "x"%char) && bool_decide (String.length digits = 40) &&
      forallb is_hex_digit (String.list_ascii_of_string digits)
  | _ => false
  end.

(** Reading a map that can be nil, and at keys that are not there. *)
Definition flag (m : option (gmap string bool)) (k : string) : bool := default false (default ∅ m !! k).

(** [amount * 1e8 / tokenPrice]; [None] is the panic of the division. *)
Definition attoCYNToWei (amount tokenPrice : Z) : option Z :=
  if decide (tokenPrice = 0)%Z then None else Some (u64 (amount * 100000000) / tokenPrice)%Z.

Definition premium (name : string) (expires duration : Z) : Z := 0.

Fixpoint isContain (items : list string) (item : string) : bool :=
  match items with
  | [] => false
  | eachItem :: items => if decide (eachItem = item) then true else isContain items item
  end.

(** The list without the first occurrence. *)
Fixpoint without_first (name : string) (l : list string) : list string :=
  match l with
  | [] => []
  | v :: l => if decide (v = name) then l else v :: without_first name l
  end.

(** The order of [GetAllDomains]. *)
Definition domain_less (x y : ServDomain) : bool :=
  if decide (dm_ParentName x ≠ dm_ParentName y) then String.ltb (dm_ParentName x) (dm_ParentName y)
  else String.ltb (dm_Name x) (dm_Name y).

Section contracts.
Context `{GovernanceLib, GovJsonLib, ProposalJsonLib, StrategyJsonLib, EvalLib, FsmLib, ConstantLib, !GovAddrLib, GoRange, !RoleLib, GoSort}.
Context `{!NameLib}.

(** ** The registry: queries *)

Section registry_queries.
Context (ctx : Context).

(** [GetObject] into a variable with a value. *)
Definition GetInto {A} `{Encoding A} `{Leftover A} (fresh : A) (key : string) : prog A :=
  data ← Get ctx key;
  mret match data with
       | None => fresh
       | Some data => match unmarshal data with Some a => a | None => leftover data end
       end.

Definition now : Z := u64 (Z.quot (ctx_TxTimeStamp ctx) SecondTime).

Definition checkNameAvailable (name : string) : prog bool := Has ctx name.

Definition getLevel1Domain : prog (gmap string Z) := GetInto ∅ Level1Domain.

Definition checkResolverAddress (resolver : string) : prog bool :=
  resolverMap ← GetObject (A := gmap string bool) ctx ResolverMap;
  mret match resolverMap with None => false | Some m => default false (m !! resolver) end.

Definition registry_authorised (name : string) : prog bool :=
  servDomainRec ← GetObject (A := ServDomainRec) ctx name;
  match servDomainRec with
  | None => mret false
  | Some servDomainRec =>
      permissionController ← GetObject (A := gmap string (gmap string bool)) ctx PermissionController;
      mret match permissionController with
           | None => false
           | Some m =>
               bool_decide (sd_Owner servDomainRec = ctx_Caller ctx) ||
               flag (m !! ctx_CurrentCaller ctx) ServiceRegistryText
           end
  end.

(** A registered name, answered from its record. *)
Definition fromRecord (name : string) (answer : ServDomainRec → string) : prog Response :=
  if decide (name = EmptyString) then mret bnsErr
  else
  ok ← checkNameAvailable name;
  if negb ok then mret bnsErr
  else
  r ← GetObject (A := ServDomainRec) ctx name;
  mret match r with None => bnsErr | Some r => Success (Some (answer r)) end.

Definition bns_Owner (name : string) : prog Response := fromRecord name sd_Owner.
Definition bns_Resolver (name : string) : prog Response := fromRecord name sd_Resolver.

Definition RecordExists (name : string) : prog Response :=
  if decide (name = EmptyString) then mret bnsErr
  else ok ← Has ctx name; mret (Success (Some (FormatBool ok))).

Definition IsApproved (account operator : string) : prog Response :=
  permissionController ← GetObject (A := gmap string (gmap string bool)) ctx PermissionController;
  mret match permissionController with
       | None => Success (Some (FormatBool false))
       | Some m => Success (Some (FormatBool (flag (m !! account) operator)))
       end.

Definition GetPriceLevel : prog Response :=
  priceLevel ← GetObject (A := PriceLevel) ctx PriceLenLevel;
  mret match priceLevel with
       | None => bnsErr
       | Some p => match marshal p with None => bnsErr | Some d => Success (Some d) end
       end.

Definition GetTokenPrice : prog Response :=
  tokenPrice ← GetObject (A := Z) ctx BitxhubTokenPrice;
  mret match tokenPrice with None => bnsErr | Some p => Success (Some (uint64ToBytesInBigEndian p)) end.

Definition GetDomainExpires (name : string) : prog Response :=
  if decide (name = EmptyString) then mret bnsErr
  else
  expires ← getLevel1Domain;
  let e := default 0%Z (expires !! name) in
  mret (if decide (e = 0)%Z then bnsErr else Success (Some (uint64ToBytesInBigEndian e))).

(** The names that are set in a map, in the order in which it is gone through. *)
Definition flagged (m : option (gmap string bool)) : list string := filter (λ k, flag m k) (go_keys (default ∅ m)).

(** A sorted slice; a slice to which nothing was appended is nil. *)
Definition sorted_names (l : list string) : option (list string) :=
  match l with [] => None | _ => Some (go_sort String.ltb l) end.

Definition GetSubDomain (name : string) : prog Response :=
  subDomains ←
    (if decide (name = RootDomain)
     then servDomain ← GetObject (A := gmap string Z) ctx Level1Domain; mret (go_keys <$> servDomain)
     else r ← GetObject (A := ServDomainRec) ctx name; mret ((λ r, flagged (sd_SubDomain r)) <$> r));
  mret match subDomains with
       | None => bnsErr
       | Some l => match marshal (sorted_names l) with None => bnsErr | Some d => Success (Some d) end
       end.

(** The domains below a domain of the first level; [None] is the error. *)
Definition domainsOf (firstDomain : string) : prog (option (list ServDomain)) :=
  r ← GetObject (A := ServDomainRec) ctx firstDomain;
  mret match r with
       | None => None
       | Some r =>
           Some (MkServDomain firstDomain LevelOne RegisteredDomain RootDomain ::
             ((λ d, MkServDomain d LevelTwo RegisteredDomain firstDomain) <$> flagged (sd_SubDomain r)) ++
             ((λ d, MkServDomain d LevelTwo ReviewedDomain firstDomain) <$> flagged (sd_SubDomainInReview r)))
       end.

Fixpoint domainsOfAll (firstDomains : list string) : prog (option (list ServDomain)) :=
  match firstDomains with
  | [] => mret (Some [])
  | firstDomain :: rest =>
      ds ← domainsOf firstDomain;
      match ds with
      | None => mret None
      | Some ds => more ← domainsOfAll rest; mret (app ds <$> more)
      end
  end.

Definition GetAllDomains : prog Response :=
  servDomain ← GetObject (A := gmap string Z) ctx Level1Domain;
  rest ← match servDomain with None => mret (Some []) | Some m => domainsOfAll (go_keys m) end;
  mret match rest with
       | None => bnsErr
       | Some rest =>
           let res := go_sort domain_less (MkServDomain RootDomain LevelZero RegisteredDomain EmptyString :: rest) in
           match marshal res with None => bnsErr | Some d => Success (Some d) end
       end.

(** [None] is the error; a division by zero panics. *)
Definition getPrice (name : string) (expires duration : Z) : prog (option Price) :=
  priceLevel ← GetObject (A := PriceLevel) ctx PriceLenLevel;
  match priceLevel with
  | None => mret None
  | Some priceLevel =>
      tokenPrice ← GetObject (A := Z) ctx BitxhubTokenPrice;
      match tokenPrice with
      | None => mret None
      | Some tokenPrice =>
          let nameLen := String.length name in
          let letter :=
            if decide (5 ≤ nameLen) then Price5Letter priceLevel
            else if decide (nameLen = 4) then Price4Letter priceLevel
            else if decide (nameLen = 3) then Price3Letter priceLevel
            else if decide (nameLen = 2) then Price2Letter priceLevel
            else Price1Letter priceLevel in
          match attoCYNToWei (u64 (letter * duration)) tokenPrice,
                attoCYNToWei (premium name expires duration) tokenPrice with
          | Some base, Some extra => mret (Some (MkPrice base extra))
          | _, _ => Panic
          end
      end
  end.

(** ** The registry: records *)

Definition setRecord (name owner resolver parent : string) : prog () :=
  r ← GetInto no_rec name;
  SetObject ctx name (with_sd_Parent (with_sd_Resolver (with_sd_Owner r owner) resolver) parent).

Definition setResolver (name resolver : string) : prog () :=
  r ← GetInto no_rec name; SetObject ctx name (with_sd_Resolver r resolver).

Definition setSubDomainOwner (parentName sonName owner : string) : prog string :=
  let sonDomain := generateSubDomain parentName sonName in
  p ← GetInto no_rec parentName;
  let subs := default ∅ (sd_SubDomain p) in
  let review := default ∅ (sd_SubDomainInReview p) in
  _ ← SetObject ctx parentName (with_sd_subs p (Some (<[sonDomain := true]> subs)) (Some (<[sonDomain := false]> review)));
  s ← GetInto no_rec sonDomain;
  _ ← SetObject ctx sonDomain (with_sd_Parent (with_sd_Owner s owner) parentName);
  mret sonDomain.

Definition setSubRecord (parentName sonName owner resolver : string) : prog string :=
  sonDomain ← setSubDomainOwner parentName sonName owner;
  _ ← setResolver sonDomain resolver;
  mret sonDomain.

(** The flag of a name in the map of running registrations. *)
Definition setPreRegister (parentName : string) (v : bool) (preRegister : gmap string bool) : prog () :=
  SetObject ctx PreRegister (<[parentName := v]> preRegister).
End registry_queries.

(** ** The resolver *)

Section resolver.
Context (ctx : Context).

Definition resolver_authorised (name : string) : prog bool :=
  res ← CrossInvoke ctx ServiceRegistryContractAddr (λ c, bns_Owner c name);
  match res with
  | Error _ _ => mret false
  | Success owner =>
      res ← CrossInvoke ctx ServiceRegistryContractAddr (λ c, IsApproved c (ctx_CurrentCaller ctx) ServiceResolverText);
      mret match res with
           | Error _ _ => false
           | Success isApprove =>
               match ParseBool (default EmptyString isApprove) with
               | None => false
               | Some isApprove => bool_decide (default EmptyString owner = ctx_Caller ctx) || isApprove
               end
           end
  end.

Definition checkDomainAvaliable (name : string) : prog bool :=
  res ← CrossInvoke ctx ServiceRegistryContractAddr (λ c, bns_Owner c name); mret (resp_Ok res).

(** [None] is the error. *)
Definition getDataByDomain (name : string) : prog (option ServDomainData) := GetObject (A := ServDomainData) ctx name.

Definition setReverseName (serviceName name : string) : prog () :=
  reverseName ← GetInto ctx (∅ : gmap string (option (list string))) ReverseMap;
  let arr := default None (reverseName !! serviceName) in
  let arr := if isContain (default [] arr) name then arr else Some (default [] arr ++ [name]) in
  SetObject ctx ReverseMap (<[serviceName := arr]> reverseName).

Definition removeReverse (name serviceName : string) : prog () :=
  reverseName ← GetInto ctx (∅ : gmap string (option (list string))) ReverseMap;
  let arr := default None (reverseName !! serviceName) in
  let arr := if isContain (default [] arr) name then Some (without_first name (default [] arr)) else arr in
  SetObject ctx ReverseMap (<[serviceName := arr]> reverseName).

Definition SetServDomainData (name : string) (coinTyp : Z) (addr serviceName des dids : string) : prog Response :=
  ok ← resolver_authorised name;
  if negb ok then mret bnsErr
  else
  _ ← SetObject ctx name (MkDomainData (Some {[coinTyp := addr]}) serviceName des (Some (str_split comma dids)));
  mret (Success None).

Definition GetServDomainData (name : string) : prog Response :=
  ok ← checkDomainAvaliable name;
  if negb ok then mret bnsErr
  else
  d ← getDataByDomain name;
  mret match d with
       | None => bnsErr
       | Some d => match marshal d with None => bnsErr | Some d => Success (Some d) end
       end.

(** A change of the data of a name by somebody who may change it. *)
Definition changeData (name : string) (change : ServDomainData → prog ()) : prog Response :=
  ok ← resolver_authorised name;
  if negb ok then mret bnsErr
  else
  d ← getDataByDomain name;
  match d with None => mret bnsErr | Some d => _ ← change d; mret (Success None) end.

Definition SetAddr (name : string) (coinTyp : Z) (addr : string) : prog Response :=
  changeData name (λ d,
    match dd_Addr d with
    | None => Panic
    | Some m =>
        SetObject ctx name (MkDomainData (Some (<[coinTyp := addr]> m)) (dd_ServiceName d) (dd_Des d) (dd_Dids d))
    end).

Definition SetServiceName (name serviceName : string) (reverse : Z) : prog Response :=
  changeData name (λ d,
    let originName := dd_ServiceName d in
    _ ← (if decide (originName = EmptyString) then mret tt else removeReverse name originName);
    _ ← SetObject ctx name (MkDomainData (dd_Addr d) serviceName (dd_Des d) (dd_Dids d));
    if decide (reverse = 1%Z ∧ serviceName ≠ EmptyString) then setReverseName serviceName name else mret tt).

Definition SetServiceDes (name des : string) : prog Response :=
  changeData name (λ d, SetObject ctx name (MkDomainData (dd_Addr d) (dd_ServiceName d) des (dd_Dids d))).

Definition SetDids (name dids : string) : prog Response :=
  changeData name (λ d,
    SetObject ctx name (MkDomainData (dd_Addr d) (dd_ServiceName d) (dd_Des d) (Some (str_split comma dids)))).

Definition SetReverse (serviceName name : string) : prog Response :=
  ok ← resolver_authorised name;
  if negb ok then mret bnsErr else _ ← setReverseName serviceName name; mret (Success None).

Definition GetReverseName (serviceName : string) : prog Response :=
  reverseName ← GetObject (A := gmap string (option (list string))) ctx ReverseMap;
  mret match reverseName with
       | None => bnsErr
       | Some m => match marshal (default None (m !! serviceName)) with None => bnsErr | Some d => Success (Some d) end
       end.

Definition GetServiceName (name : string) : prog Response :=
  ok ← checkDomainAvaliable name;
  if negb ok then mret bnsErr
  else d ← getDataByDomain name; mret match d with None => bnsErr | Some d => Success (Some (dd_ServiceName d)) end.

Definition DeleteServDomainData (name : string) : prog Response :=
  ok ← resolver_authorised name;
  if negb ok then mret bnsErr
  else if decide (length (str_split "." name) ≠ 3) then mret bnsErr
  else
  d ← getDataByDomain name;
  match d with
  | None => mret bnsErr
  | Some d => _ ← Delete ctx name; _ ← removeReverse name (dd_ServiceName d); mret (Success None)
  end.
End resolver.

(** ** The registry: operations *)

(** A method of a resolver that is called at an address. Only the resolver has these methods: at other addresses
there is no contract, or one without the method. *)
Definition at_resolver (address : string) (method : Context → prog Response) : Context → prog Response :=
  if decide (address = ServiceResolverContractAddr) then method else λ _, mret (Error EmptyString []).

Section registry.
Context (ctx : Context).

Definition resolver_call (resolver : string) (method : Context → prog Response) : prog Response :=
  let address := NewAddressByStr resolver in CrossInvoke ctx address (at_resolver address method).

(** [GetBalance().Uint64()] and [SubBalance] of the account of the caller. *)
Definition account_Balance (addr : string) : prog Z := OpGetBalance addr (λ b, mret (u64 b)).
Definition account_SubBalance (addr : string) (amount : Z) : prog () :=
  if decide (amount = 0)%Z then mret tt
  else OpGetBalance addr (λ balance, OpSetBalance addr (balance - amount) (mret tt)).

Definition bns_Register (name : string) (duration : Z) (resolver : string) : prog Response :=
  if decide (name = EmptyString) then mret bnsErr
  else
  let owner := ctx_Caller ctx in
  if negb (checkBxhAddress owner) then mret bnsErr
  else
  known ← (if decide (resolver = EmptyString) then mret false else checkResolverAddress ctx resolver);
  if negb known then mret bnsErr
  else if decide (duration = 0)%Z then mret bnsErr
  else
  balance ← account_Balance (NewAddressByStr owner);
  level1Domain ← getLevel1Domain ctx;
  let registerName := generateSubDomain RootDomain name in
  if decide ((default 0 (level1Domain !! registerName) +u GRACEPERIOD > now ctx)%Z ∨
             ((now ctx +u duration) +u GRACEPERIOD < now ctx +u GRACEPERIOD)%Z)
  then mret bnsErr
  else
  price ← getPrice ctx name (default 0%Z (level1Domain !! name)) duration;
  match price with
  | None => mret bnsErr
  | Some price =>
      let registerCost := pr_premium price +u pr_base price in
      if decide (balance < registerCost)%Z then mret bnsErr
      else
      _ ← setSubDomainOwner ctx RootDomain name owner;
      _ ← setRecord ctx registerName owner resolver RootDomain;
      _ ← SetObject ctx Level1Domain (<[registerName := now ctx +u duration]> level1Domain);
      res ← resolver_call resolver (λ c, SetServDomainData c registerName 1 owner EmptyString EmptyString EmptyString);
      if negb (resp_Ok res) then mret bnsErr
      else
      _ ← account_SubBalance (NewAddressByStr owner) registerCost;
      mret (Success None)
  end.

Definition Renew (name : string) (duration : Z) : prog Response :=
  if decide (name = EmptyString) then mret bnsErr
  else if decide (duration = 0)%Z then mret bnsErr
  else
  ok ← checkNameAvailable ctx name;
  if negb ok then mret bnsErr
  else
  balance ← account_Balance (NewAddressByStr (ctx_Caller ctx));
  level1Domain ← getLevel1Domain ctx;
  let expires := default 0%Z (level1Domain !! name) in
  if decide ((expires +u GRACEPERIOD < now ctx)%Z ∨ ((now ctx +u duration) +u GRACEPERIOD < now ctx +u GRACEPERIOD)%Z)
  then mret bnsErr
  else
  price ← getPrice ctx name expires duration;
  match price with
  | None => mret bnsErr
  | Some price =>
      let registerCost := pr_premium price +u pr_base price in
      if decide (balance < registerCost)%Z then mret bnsErr
      else
      _ ← SetObject ctx Level1Domain (<[name := expires +u duration]> level1Domain);
      _ ← account_SubBalance (NewAddressByStr (ctx_Caller ctx)) registerCost;
      mret (Success None)
  end.

Definition AllocateSubDomain (parentName sonName owner resolver serviceName : string) : prog Response :=
  if decide (parentName = EmptyString) then mret bnsErr
  else if decide (sonName = EmptyString) then mret bnsErr
  else
  ok ← checkNameAvailable ctx parentName;
  if negb ok then mret bnsErr
  else if negb (checkBxhAddress owner) then mret bnsErr
  else
  known ← (if decide (resolver = EmptyString) then mret false else checkResolverAddress ctx resolver);
  if negb known then mret bnsErr
  else
  mine ← registry_authorised ctx parentName;
  if negb mine then mret bnsErr
  else
  let sonDomain := generateSubDomain parentName sonName in
  parentDomainRec ← GetObject (A := ServDomainRec) ctx parentName;
  match parentDomainRec with
  | None => mret bnsErr
  | Some p =>
      let review := default ∅ (sd_SubDomainInReview p) in
      _ ← SetObject ctx parentName (with_sd_subs p (sd_SubDomain p) (Some (<[sonDomain := true]> review)));
      preRegister ← GetInto ctx (∅ : gmap string bool) PreRegister;
      if default false (preRegister !! parentName) then mret bnsErr
      else
      match marshal (MkSubDomainData parentName (ctx_Caller ctx) sonName owner resolver serviceName) with
      | None => mret bnsErr
      | Some data =>
          res ← submit ctx EventRegister BnsMgr (generateSubDomain parentName sonName) EmptyString EmptyString (Some data);
          match res with
          | Error _ args => mret (Error "BnsErrCode" args)
          | Success id =>
              _ ← setPreRegister ctx parentName true preRegister;
              mret (getGovernanceRet (default EmptyString id) (Some data))
          end
      end
  end.

(** [false] is the error. *)
Definition bns_manageRegisterApprove (extra : option string) : prog bool :=
  match unmarshal (A := SubDomainProposalData) (default EmptyString extra) with
  | None => mret false
  | Some d =>
      sonDomain ← setSubRecord ctx (sp_ParentName d) (sp_SonName d) (sp_Onwer d) (sp_Resolver d);
      res ← resolver_call (sp_Resolver d)
              (λ c, SetServDomainData c sonDomain 1 (sp_Onwer d) (sp_ServiceName d) EmptyString EmptyString);
      if negb (resp_Ok res) then mret false
      else
      preRegister ← GetInto ctx (∅ : gmap string bool) PreRegister;
      _ ← setPreRegister ctx (sp_ParentName d) false preRegister;
      mret true
  end.

Definition bns_manageRegisterReject (extra : option string) : prog bool :=
  match unmarshal (A := SubDomainProposalData) (default EmptyString extra) with
  | None => mret false
  | Some d =>
      parentDomainRec ← GetObject (A := ServDomainRec) ctx (sp_ParentName d);
      match parentDomainRec with
      | None => mret false
      | Some p =>
          let sonDomain := generateSubDomain (sp_ParentName d) (sp_SonName d) in
          let subs := default ∅ (sd_SubDomain p) in
          let review := default ∅ (sd_SubDomainInReview p) in
          _ ← SetObject ctx (sp_ParentName d) (with_sd_subs p (Some subs) (Some (<[sonDomain := false]> review)));
          preRegister ← GetInto ctx (∅ : gmap string bool) PreRegister;
          _ ← setPreRegister ctx (sp_ParentName d) false preRegister;
          mret true
      end
  end.

Definition bns_Manage (eventTyp proposalResult lastStatus objId : string) (extra : option string) : prog Response :=
  if decide (eventTyp = EventRegister)
  then
    ok ← (if decide (proposalResult = APPROVED) then bns_manageRegisterApprove extra else bns_manageRegisterReject extra);
    mret (if ok : bool then Success None else bnsErr)
  else mret (Success None).

Definition DeleteSecondDomain (name : string) : prog Response :=
  if decide (name = EmptyString) then mret bnsErr
  else if decide (length (str_split "." name) ≠ 3) then mret bnsErr
  else
  ok ← checkNameAvailable ctx name;
  if negb ok then mret bnsErr
  else
  mine ← registry_authorised ctx name;
  if negb mine then mret bnsErr
  else
  r ← GetObject (A := ServDomainRec) ctx name;
  match r with None => mret bnsErr | Some r =>
  p ← GetObject (A := ServDomainRec) ctx (sd_Parent r);
  match p with None => mret bnsErr | Some p =>
  match sd_SubDomain p with
  | None => Panic
  | Some subs =>
      _ ← SetObject ctx (sd_Parent r) (with_sd_subs p (Some (<[name := false]> subs)) (sd_SubDomainInReview p));
      res ← resolver_call (sd_Resolver r) (λ c, DeleteServDomainData c name);
      if negb (resp_Ok res) then mret bnsErr else _ ← Delete ctx name; mret (Success None)
  end end end.

Definition bns_isAdmin (addr : string) : prog bool :=
  res ← CrossInvoke ctx RoleContractAddr (λ c, IsAnyAvailableAdmin c addr GovernanceAdmin);
  mret match res with Error _ _ => false | Success r => negb (bool_decide (default EmptyString r = "false")) end.

Definition SetPriceLevel (p1 p2 p3 p4 p5 : Z) : prog Response :=
  ok ← bns_isAdmin (ctx_Caller ctx);
  if negb ok then mret (Error "GovernanceInternalErrCode" [])
  else _ ← SetObject ctx PriceLenLevel (MkPriceLevel p1 p2 p3 p4 p5); mret (Success None).

Definition SetTokenPrice (tokenPrice : Z) : prog Response :=
  if decide (tokenPrice = 0)%Z then mret bnsErr
  else
  ok ← bns_isAdmin (ctx_Caller ctx);
  if negb ok then mret (Error "GovernanceInternalErrCode" [])
  else _ ← SetObject ctx BitxhubTokenPrice tokenPrice; mret (Success None).
End registry.
End contracts.
