(* ===== verification/Dapp.v ===== *)
(** * Applications: [src/internal/executor/contracts/dapp_manager.go]

Owners register applications with a name and the addresses of their contracts, change them, and hand
them over; administrators freeze and activate them. Each change is a proposal: the contract takes names
and addresses, submits the proposal, and [Manage] carries out its result. *)
From Stdlib Require Import Ascii SpecFloat.
From S2P Require Import Prelude Storage Account StateLedger Contract TransactionManager Role Governance Strategy RoleManager Registry.

(** ** Data *)

Definition DappPrefix : string := "dapp".
Definition DappOwnerPrefix : string := "owner-dapp".
Definition DappNamePrefix : string := "name-dapp".
Definition DappOccupyNamePrefix : string := "occupy-dapp-name".
Definition DappOccupyContractPrefix : string := "occupy-dapp-contract".

Definition DappTool : string := "tool".
Definition DappApplication : string := "application".
Definition DappGame : string := "game".
Definition DappOthers : string := "others".

(** [governance.EvaluationRecord] and [pb.TransferRecord] *)
Record EvaluationRecord := MkEvaluation { ev_Addr : string; ev_Score : f64; ev_Desc : string; ev_CreateTime : Z }.
Record TransferRecord := MkTransfer {
  tr_From : string; tr_To : string; tr_Reason : string; tr_Confirm : bool; tr_CreateTime : Z }.

(** The field [FSM] is left out: [setFSM] sets it before each use. *)
Record Dapp := MkDapp {
  da_DappID : string;
  da_Name : string;
  da_Type : string;
  da_Desc : string;
  da_Url : string;
  da_ContractAddr : strset;
  da_Permission : strset;
  da_OwnerAddr : string;
  da_CreateTime : Z;
  da_Score : f64;
  da_EvaluationRecords : gmap string EvaluationRecord;
  da_TransferRecords : list TransferRecord;
  da_Status : string }.

Definition with_da_Status (d : Dapp) v :=
  MkDapp (da_DappID d) (da_Name d) (da_Type d) (da_Desc d) (da_Url d) (da_ContractAddr d) (da_Permission d) (da_OwnerAddr d)
    (da_CreateTime d) (da_Score d) (da_EvaluationRecords d) (da_TransferRecords d) v.
Definition with_da_CreateTime (d : Dapp) v :=
  MkDapp (da_DappID d) (da_Name d) (da_Type d) (da_Desc d) (da_Url d) (da_ContractAddr d) (da_Permission d) (da_OwnerAddr d)
    v (da_Score d) (da_EvaluationRecords d) (da_TransferRecords d) (da_Status d).
Definition with_da_owner (d : Dapp) owner records :=
  MkDapp (da_DappID d) (da_Name d) (da_Type d) (da_Desc d) (da_Url d) (da_ContractAddr d) (da_Permission d) owner
    (da_CreateTime d) (da_Score d) (da_EvaluationRecords d) records (da_Status d).
Definition with_da_evaluation (d : Dapp) score records :=
  MkDapp (da_DappID d) (da_Name d) (da_Type d) (da_Desc d) (da_Url d) (da_ContractAddr d) (da_Permission d) (da_OwnerAddr d)
    (da_CreateTime d) score records (da_TransferRecords d) (da_Status d).
Definition with_da_info (d : Dapp) name desc url contracts permission :=
  MkDapp (da_DappID d) name (da_Type d) desc url contracts permission (da_OwnerAddr d)
    (da_CreateTime d) (da_Score d) (da_EvaluationRecords d) (da_TransferRecords d) (da_Status d).

Record UpdateDappInfo := MkUpdateDapp {
  ud_DappName : UpdateInfo;
  ud_Desc : UpdateInfo;
  ud_Url : UpdateInfo;
  ud_ContractAddr : UpdateMapInfo;
  ud_Permission : UpdateMapInfo }.

Definition DappKey (id : string) : string := DappPrefix +:+ "-" +:+ id.
Definition OwnerKey (addr : string) : string := DappOwnerPrefix +:+ "-" +:+ addr.
Definition DappNameKey (name : string) : string := DappNamePrefix +:+ "-" +:+ name.
Definition DappOccupyNameKey (name : string) : string := DappOccupyNamePrefix +:+ "-" +:+ name.
Definition DappOccupyContractKey (addr : string) : string := DappOccupyContractPrefix +:+ "-" +:+ addr.

(** The texts and the numbers of an application. *)
Definition Dapp_text (d : Dapp) : list string :=
  [da_DappID d; da_Name d; da_Type d; da_Desc d; da_Url d; da_OwnerAddr d; da_Status d] ++
  (map_to_list (da_ContractAddr d)).*1 ++ (map_to_list (da_Permission d)).*1 ++
  (map_to_list (da_EvaluationRecords d) ≫= λ '(k, r), [k; ev_Addr r; ev_Desc r]) ++
  (da_TransferRecords d ≫= λ r, [tr_From r; tr_To r; tr_Reason r]).
Definition Dapp_numbers (d : Dapp) : list f64 :=
  da_Score d :: (map_to_list (da_EvaluationRecords d)).*2 ≫= λ r, [ev_Score r].
Definition UpdateDapp_text (u : UpdateDappInfo) : list string :=
  UpdateInfo_text (ud_DappName u) ++ UpdateInfo_text (ud_Desc u) ++ UpdateInfo_text (ud_Url u) ++
  (map_to_list (um_OldInfo (ud_ContractAddr u))).*1 ++ (map_to_list (um_NewInfo (ud_ContractAddr u))).*1 ++
  (map_to_list (um_OldInfo (ud_Permission u))).*1 ++ (map_to_list (um_NewInfo (ud_Permission u))).*1.

(** Events and states of [bitxhub-core/governance] for applications; JSON and protobuf. Numbers that are not finite
cannot be written as JSON. *)
Class DappLib `{GovernanceLib} := {
  EventTransfer : string;
  GovernanceTransferring : string;
  GovernanceTransferred : string;
  EventTransfer_new :
    EventTransfer ∉ [EventRegister; EventUpdate; EventFreeze; EventActivate; EventBind; EventUnbind; EventLogout;
                     EventPause; EventUnpause; EventCLear; EventApprove; EventReject];
  transfer_states :
    NoDup [GovernanceTransferring; GovernanceTransferred; GovernanceUnavailable; GovernanceRegisting;
           GovernanceAvailable; GovernanceUpdating; GovernanceFreezing; GovernanceActivating; GovernanceFrozen;
           GovernanceLogouting; GovernanceForbidden; GovernanceBinding];
  dapp_encoding :: Encoding Dapp;
  dapp_marshals d : Forall f64_finite (Dapp_numbers d) ↔ is_Some (marshal d);
  dapp_json d s : Forall is_ascii (Dapp_text d) → marshal d = Some s → unmarshal s = Some d;
  dapps_encoding :: Encoding (list Dapp);
  dappset_codec :: JsonCodec (gmap string ()) (λ m, (map_to_list m).*1);
  update_dapp_codec :: JsonCodec UpdateDappInfo UpdateDapp_text;
  transfer_codec :: Codec TransferRecord;
  Event_AUDIT_DAPP : Z
}.

Section states.
Context `{DappLib}.

Definition dappStateMap (event : string) : list string :=
  if decide (event = EventRegister) then [GovernanceUnavailable]
  else if decide (event = EventUpdate) then [GovernanceAvailable; GovernanceFrozen; GovernanceTransferring]
  else if decide (event = EventFreeze) then [GovernanceAvailable; GovernanceTransferring]
  else if decide (event = EventActivate) then [GovernanceFrozen]
  else if decide (event = EventTransfer) then [GovernanceAvailable]
  else [].

Definition dappAvailableMap : list string := [GovernanceAvailable; GovernanceFreezing; GovernanceTransferring].

Definition da_IsAvailable (d : Dapp) : bool := bool_decide (da_Status d ∈ dappAvailableMap).

Definition dapp_events (lastStatus : string) : list EventDesc :=
  [ MkEventDesc EventRegister [GovernanceUnavailable] GovernanceRegisting;
    MkEventDesc EventApprove [GovernanceRegisting] GovernanceAvailable;
    MkEventDesc EventReject [GovernanceRegisting] lastStatus;
    MkEventDesc EventUpdate [GovernanceAvailable; GovernanceTransferring; GovernanceFrozen] GovernanceUpdating;
    MkEventDesc EventApprove [GovernanceUpdating] GovernanceAvailable;
    MkEventDesc EventReject [GovernanceUpdating] GovernanceFrozen;
    MkEventDesc EventFreeze [GovernanceAvailable; GovernanceTransferring] GovernanceFreezing;
    MkEventDesc EventApprove [GovernanceFreezing] GovernanceFrozen;
    MkEventDesc EventReject [GovernanceFreezing] lastStatus;
    MkEventDesc EventActivate [GovernanceFrozen; GovernanceFreezing] GovernanceActivating;
    MkEventDesc EventApprove [GovernanceActivating] GovernanceAvailable;
    MkEventDesc EventReject [GovernanceActivating] lastStatus;
    MkEventDesc EventTransfer [GovernanceAvailable; GovernanceFreezing; GovernanceUpdating] GovernanceTransferring;
    MkEventDesc EventApprove [GovernanceTransferring] GovernanceAvailable;
    MkEventDesc EventReject [GovernanceTransferring] lastStatus ].

(** [setFSM] followed by the event. *)
Definition dapp_Event `{FsmLib} (d : Dapp) (lastStatus trigger : string) : option Dapp :=
  with_da_Status d <$> fsm_Event (dapp_events lastStatus) (da_Status d) trigger.
End states.

Section contract.
Context `{GovernanceLib, GovJsonLib, ProposalJsonLib, StrategyJsonLib, EvalLib, FsmLib, ConstantLib, !GovAddrLib, GoRange, !RoleLib, HashLib}.
Context `{!DappLib, GoSort, QueryLib}.

Context (Manage : string → string → string → string → string → option string → Context → prog Response).
Context (ctx : Context).

Definition dappErr : Response := Error "DappInternalErrCode" [].
Definition nonexistentDapp (id : string) : Response := Error "DappNonexistentDappCode" [id].

(** *** Checks *)

(** [inl None]: there is no such application, and the event registers it. *)
Definition dapp_governancePre (dappID event : string) : prog (result (option Dapp)) :=
  dapp ← GetObject (A := Dapp) ctx (DappKey dappID);
  mret match dapp with
       | None =>
           if decide (event = EventRegister) then inl None else inr (MkBxhError "DappNonexistentDappCode" [dappID])
       | Some dapp =>
           if decide (da_Status dapp ∈ dappStateMap event) then inl (Some dapp)
           else inr (MkBxhError "DappStatusErrorCode" [dappID; da_Status dapp; event])
       end.

Definition dapp_changeStatus (dappID trigger lastStatus : string) : prog bool :=
  dapp ← GetObject (A := Dapp) ctx (DappKey dappID);
  match dapp with
  | None => mret false
  | Some dapp =>
      match dapp_Event dapp lastStatus trigger with
      | None => mret false
      | Some dapp => _ ← SetObject ctx (DappKey dappID) dapp; mret true
      end
  end.

Fixpoint dapp_checkPermission (permissions : list string) (ownerAddr regulatorAddr : string)
    (specificAddrsData : option string) : prog bool :=
  match permissions with
  | [] => mret false
  | permission :: permissions =>
      if decide (permission = PermissionSelf)
      then if decide (ownerAddr = regulatorAddr) then mret true
           else dapp_checkPermission permissions ownerAddr regulatorAddr specificAddrsData
      else if decide (permission = PermissionAdmin)
      then
        if decide (ownerAddr = regulatorAddr)
        then dapp_checkPermission permissions ownerAddr regulatorAddr specificAddrsData
        else
          res ← CrossInvoke ctx RoleContractAddr (λ ctx, IsAnyAvailableAdmin ctx regulatorAddr GovernanceAdmin);
          match res with
          | Error _ _ => mret false
          | Success data =>
              if decide (data = Some TRUE) then mret true
              else dapp_checkPermission permissions ownerAddr regulatorAddr specificAddrsData
          end
      else if decide (permission = PermissionSpecific)
      then
        match isSpecific regulatorAddr specificAddrsData with
        | None => mret false
        | Some true => mret true
        | Some false => dapp_checkPermission permissions ownerAddr regulatorAddr specificAddrsData
        end
      else mret false
  end.

(** *** Names and addresses that are taken *)

Definition occupyDappName (name dappID : string) : prog () := SetObject ctx (DappOccupyNameKey name) dappID.
Definition freeDappName (name : string) : prog () := Delete ctx (DappOccupyNameKey name).
Definition dapp_isOccupiedName (name : string) : prog (option string) := GetObject (A := string) ctx (DappOccupyNameKey name).

Definition occupyContractAddr (addrs : strset) (dappID : string) : prog () :=
  prog_iter (λ addr, SetObject ctx (DappOccupyContractKey addr) dappID) (go_keys addrs).
Definition freeContractAddr (addrs : strset) : prog () :=
  prog_iter (λ addr, Delete ctx (DappOccupyContractKey addr)) (go_keys addrs).
Definition isOccupiedContractAddr (addr : string) : prog (option string) :=
  GetObject (A := string) ctx (DappOccupyContractKey addr).

(** *** Storing *)

Definition addToOwner (ownerAddr dappID : string) : prog () :=
  dappMap ← GetObject (A := gmap string ()) ctx (OwnerKey ownerAddr);
  SetObject ctx (OwnerKey ownerAddr) (<[dappID := tt]> (default ∅ dappMap)).

Definition dapp_registerPre (dapp : Dapp) : prog () := SetObject ctx (DappKey (da_DappID dapp)) dapp.

Definition dapp_register (dapp : Dapp) : prog () :=
  _ ← SetObject ctx (DappKey (da_DappID dapp)) dapp;
  _ ← SetObject ctx (DappNameKey (da_Name dapp)) (da_DappID dapp);
  addToOwner (da_OwnerAddr dapp) (da_DappID dapp).

(** [None] is the error. When the name changes, the index of the old name is written again. *)
Definition dapp_update (updateInfo : Dapp) : prog (option ()) :=
  dapp ← GetObject (A := Dapp) ctx (DappKey (da_DappID updateInfo));
  match dapp with
  | None => mret None
  | Some dapp =>
      let oldName := da_Name dapp in
      let dapp := with_da_info dapp (da_Name updateInfo) (da_Desc updateInfo) (da_Url updateInfo)
                    (da_ContractAddr updateInfo) (da_Permission updateInfo) in
      _ ← SetObject ctx (DappKey (da_DappID dapp)) dapp;
      if decide (oldName = da_Name dapp) then mret (Some tt)
      else
        _ ← Delete ctx (DappNameKey oldName);
        _ ← SetObject ctx (DappNameKey oldName) (da_DappID dapp);
        mret (Some tt)
  end.

Definition dapp_transfer (dapp : Dapp) (transRec : TransferRecord) : prog () :=
  let dapp := with_da_owner dapp (tr_To transRec) (da_TransferRecords dapp ++ [transRec]) in
  _ ← SetObject ctx (DappKey (da_DappID dapp)) dapp;
  addToOwner (da_OwnerAddr dapp) (da_DappID dapp).

(** [None] is the error. *)
Definition postAuditDappEvent (dappID : string) : prog (option ()) :=
  data ← Get ctx (DappKey dappID);
  match data with
  | None => mret None
  | Some dappData => _ ← postEvent ctx Event_AUDIT_DAPP (MkAudit dappData [] []); mret (Some tt)
  end.

Definition dapp_audited (dappID : string) (res : Response) : prog Response :=
  if ctx_EnableAudit ctx
  then ok ← postAuditDappEvent dappID; mret match ok with Some _ => res | None => dappErr end
  else mret res.

(** *** Results of proposals *)

(** [None]: carry on. *)
Definition dapp_approve (eventTyp objId : string) (extra : option string) : prog (option Response) :=
  if decide (eventTyp = EventRegister)
  then
    dapp ← GetObject (A := Dapp) ctx (DappKey objId);
    match dapp with
    | None => mret (Some dappErr)
    | Some dapp => _ ← dapp_register (with_da_CreateTime dapp (ctx_TxTimeStamp ctx)); mret None
    end
  else if decide (eventTyp = EventUpdate)
  then
    match extra ≫= unmarshal with
    | None => mret (Some dappErr)
    | Some updateInfo =>
        _ ← (if ui_IsEdit (ud_DappName updateInfo) then freeDappName (ui_OldInfo (ud_DappName updateInfo)) else mret tt);
        _ ← (if um_IsEdit (ud_ContractAddr updateInfo)
             then _ ← freeContractAddr (um_OldInfo (ud_ContractAddr updateInfo));
                  occupyContractAddr (um_NewInfo (ud_ContractAddr updateInfo)) objId
             else mret tt);
        ok ← dapp_update (MkDapp objId (ui_NewInfo (ud_DappName updateInfo)) EmptyString (ui_NewInfo (ud_Desc updateInfo))
               (ui_NewInfo (ud_Url updateInfo)) (um_NewInfo (ud_ContractAddr updateInfo)) (um_NewInfo (ud_Permission updateInfo))
               EmptyString 0 (S754_zero false) ∅ [] EmptyString);
        mret match ok with Some _ => None | None => Some dappErr end
    end
  else if decide (eventTyp = EventTransfer)
  then
    match extra ≫= unmarshal with
    | None => mret (Some dappErr)
    | Some transRec =>
        let transRec := MkTransfer (tr_From transRec) (tr_To transRec) (tr_Reason transRec) (tr_Confirm transRec) (ctx_TxTimeStamp ctx) in
        dapp ← GetObject (A := Dapp) ctx (DappKey objId);
        match dapp with
        | None => mret (Some dappErr)
        | Some dapp => _ ← dapp_transfer dapp transRec; mret None
        end
    end
  else mret None.

Definition dapp_reject (eventTyp objId : string) (extra : option string) : prog (option Response) :=
  if decide (eventTyp = EventRegister)
  then
    dapp ← GetObject (A := Dapp) ctx (DappKey objId);
    match dapp with
    | None => mret (Some dappErr)
    | Some dapp => _ ← freeDappName (da_Name dapp); _ ← freeContractAddr (da_ContractAddr dapp); mret None
    end
  else if decide (eventTyp = EventUpdate)
  then
    match extra ≫= unmarshal with
    | None => mret (Some dappErr)
    | Some updateInfo =>
        _ ← (if ui_IsEdit (ud_DappName updateInfo) then freeDappName (ui_NewInfo (ud_DappName updateInfo)) else mret tt);
        _ ← (if um_IsEdit (ud_ContractAddr updateInfo)
             then _ ← freeContractAddr (um_NewInfo (ud_ContractAddr updateInfo));
                  occupyContractAddr (um_OldInfo (ud_ContractAddr updateInfo)) objId
             else mret tt);
        mret None
    end
  else mret None.

Definition dapp_Manage (eventTyp proposalResult lastStatus objId : string) (extra : option string) : prog Response :=
  denied ← onlyFrom ctx dapp_checkPermission "DappInternalErrCode" "DappNoPermissionCode" objId [GovernanceContractAddr];
  match denied with Some res => mret res | None =>
  ok ← dapp_changeStatus objId proposalResult lastStatus;
  if negb ok then mret dappErr
  else
  failed ← (if decide (proposalResult = APPROVED) then dapp_approve eventTyp objId extra else dapp_reject eventTyp objId extra);
  match failed with Some res => mret res | None => dapp_audited objId (Success None) end
  end.

(** *** Opening proposals *)

Definition packageDappInfo (dappID name typ desc url conAddrs permits ownerAddr : string) (score : f64) (createTime : Z)
    (evaluationRecord : gmap string EvaluationRecord) (transferRecord : list TransferRecord) (status : string) : prog Dapp :=
  dappID ← (if decide (dappID = EmptyString)
            then
              dappMap ← GetObject (A := gmap string ()) ctx (OwnerKey ownerAddr);
              mret (ownerAddr +:+ "-" +:+ match dappMap with None => "0" | Some m => fmt_d (Z.of_nat (size m)) end)
            else mret dappID);
  mret (MkDapp dappID name typ desc url (strset_split conAddrs) (strset_split permits) ownerAddr createTime score
          evaluationRecord transferRecord status).

(** The loop over the contracts of an application. *)
Definition checkContractAddr (dapp : Dapp) (isRegister : bool) (addr : string) : prog (option Response) :=
  if negb (HexDecodeString addr) then mret (Some (Error "DappIllegalContractAddrCode" [addr]))
  else
    taken ← isOccupiedContractAddr addr;
    match (match taken with
           | Some dappID =>
               if isRegister then Some (Error "DappDuplicateContractRegisterCode" [addr; dappID])
               else if decide (dappID ≠ da_DappID dapp) then Some (Error "DappDuplicateContractUpdateCode" [addr; dappID])
               else None
           | None => None
           end) with
    | Some res => mret (Some res)
    | None =>
        code ← hasCode (NewAddressByStr addr);
        mret (if (code : bool) then None else Some (Error "DappNonexistentContractCode" [addr]))
    end.

Definition checkDappInfo (dapp : Dapp) (isRegister : bool) : prog Response :=
  if decide (str_Trim (da_Url dapp) = EmptyString) then mret (Error "DappEmptyUrlCode" [])
  else if decide (da_Name dapp = EmptyString) then mret (Error "DappEmptyNameCode" [])
  else
  taken ← dapp_isOccupiedName (da_Name dapp);
  match (match taken with
         | Some dappID =>
             if isRegister || bool_decide (dappID ≠ da_DappID dapp)
             then Some (Error "DappDuplicateNameCode" [da_Name dapp; dappID]) else None
         | None => None
         end) with
  | Some res => mret res
  | None =>
      if decide (da_Type dapp ∉ [DappTool; DappApplication; DappGame; DappOthers])
      then mret (Error "DappIllegalTypeCode" [da_Type dapp])
      else
      bad ← prog_find (checkContractAddr dapp isRegister) (go_keys (da_ContractAddr dapp));
      match bad with Some res => mret res | None =>
      mret match filter (λ p, HexDecodeString p = false) (go_keys (da_Permission dapp)) with
           | p :: _ => Error "DappIllegalPermissionCode" [p]
           | [] => Success None
           end
      end
  end.

Definition RegisterDapp (name typ desc url conAddrs permits reason : string) : prog Response :=
  dapp ← packageDappInfo EmptyString name typ desc url conAddrs permits (ctx_Caller ctx) (S754_zero false) (ctx_TxTimeStamp ctx)
           ∅ [] GovernanceRegisting;
  checked ← checkDappInfo dapp true;
  if negb (resp_Ok checked) then mret checked
  else
  pre ← dapp_governancePre (da_DappID dapp) EventRegister;
  match pre with inr be => mret (Error (be_Code be) (be_Args be)) | inl _ =>
  _ ← occupyDappName (da_Name dapp) (da_DappID dapp);
  _ ← occupyContractAddr (da_ContractAddr dapp) (da_DappID dapp);
  res ← submit ctx EventRegister DappMgr (da_DappID dapp) GovernanceUnavailable reason None;
  match res with Error _ _ => mret dappErr | Success id =>
  let id := default EmptyString id in
  _ ← dapp_registerPre dapp;
  _ ← zeroPermission Manage ctx id;
  dapp_audited (da_DappID dapp) (getGovernanceRet id (Some (da_DappID dapp)))
  end end.

Definition updateDappInfoOf (oldDapp newDapp : Dapp) : UpdateDappInfo :=
  let change f := MkUpdateInfo (f oldDapp) (f newDapp) (bool_decide (f oldDapp ≠ f newDapp)) in
  MkUpdateDapp (change da_Name) (change da_Desc) (change da_Url)
    (MkUpdateMapInfo (da_ContractAddr oldDapp) (da_ContractAddr newDapp)
       (strset_changed (da_ContractAddr oldDapp) (da_ContractAddr newDapp)))
    (MkUpdateMapInfo (da_Permission oldDapp) (da_Permission newDapp)
       (strset_changed (da_Permission oldDapp) (da_Permission newDapp))).

Definition UpdateDapp (id name desc url conAddrs permits reason : string) : prog Response :=
  pre ← dapp_governancePre id EventUpdate;
  match pre with inr be => mret (Error (be_Code be) (be_Args be)) | inl None => Panic | inl (Some oldDapp) =>
  ok ← dapp_checkPermission [PermissionSelf] (da_OwnerAddr oldDapp) (ctx_CurrentCaller ctx) None;
  if negb ok then mret (noPermission ctx "DappNoPermissionCode")
  else
  newDapp ← packageDappInfo id name (da_Type oldDapp) desc url conAddrs permits (da_OwnerAddr oldDapp) (da_Score oldDapp)
              (da_CreateTime oldDapp) (da_EvaluationRecords oldDapp) (da_TransferRecords oldDapp) (da_Status oldDapp);
  checked ← checkDappInfo newDapp false;
  if negb (resp_Ok checked) then mret checked
  else
  let info := updateDappInfoOf oldDapp newDapp in
  let updateName := ui_IsEdit (ud_DappName info) in
  let updateContract := um_IsEdit (ud_ContractAddr info) in
  if negb updateName && negb (ui_IsEdit (ud_Url info)) && negb updateContract && negb (um_IsEdit (ud_Permission info))
  then
    ok ← dapp_update newDapp;
    match ok with None => mret dappErr | Some _ => dapp_audited id (getGovernanceRet EmptyString None) end
  else
  _ ← (if updateName then occupyDappName (da_Name newDapp) id else mret tt);
  _ ← (if updateContract then occupyContractAddr (da_ContractAddr newDapp) id else mret tt);
  match marshal info with None => mret dappErr | Some updateDappData =>
  res ← submit ctx EventUpdate DappMgr id (da_Status oldDapp) reason (Some updateDappData);
  match res with Error _ _ => mret dappErr | Success pid =>
  let pid := default EmptyString pid in
  ok ← dapp_changeStatus id EventUpdate (da_Status oldDapp);
  if negb ok then mret dappErr
  else
  _ ← zeroPermission Manage ctx pid;
  dapp_audited id (getGovernanceRet pid None)
  end end end.

Definition dapp_basicGovernance (id reason : string) (permissions : list string) (event : string) (extra : option string) :
    prog Response :=
  pre ← dapp_governancePre id event;
  match pre with inr be => mret (Error (be_Code be) (be_Args be)) | inl None => Panic | inl (Some dapp) =>
  ok ← dapp_checkPermission permissions (da_OwnerAddr dapp) (ctx_CurrentCaller ctx) None;
  if negb ok then mret (noPermission ctx "DappNoPermissionCode")
  else
  res ← submit ctx event DappMgr id (da_Status dapp) reason extra;
  match res with Error _ _ => mret dappErr | Success pid =>
  let pid := default EmptyString pid in
  ok ← dapp_changeStatus id event (da_Status dapp);
  if negb ok then mret dappErr
  else
  _ ← zeroPermission Manage ctx pid;
  dapp_audited id (getGovernanceRet pid None)
  end end.

Definition FreezeDapp (id reason : string) : prog Response :=
  dapp_basicGovernance id reason [PermissionAdmin] EventFreeze None.

Definition ActivateDapp (id reason : string) : prog Response :=
  dapp_basicGovernance id reason [PermissionSelf; PermissionAdmin] EventActivate None.

Definition TransferDapp (id newOwnerAddr reason : string) : prog Response :=
  if negb (HexDecodeString newOwnerAddr) then mret (Error "DappIllegalTransferAddrCode" [newOwnerAddr])
  else if decide (newOwnerAddr = ctx_Caller ctx) then mret (Error "DappTransferToSelfCode" [newOwnerAddr])
  else
  match marshal (MkTransfer (ctx_Caller ctx) newOwnerAddr reason false 0) with
  | None => mret dappErr
  | Some extra => dapp_basicGovernance id reason [PermissionSelf] EventTransfer (Some extra)
  end.

(** *** Without proposals *)

(** The last record is confirmed. *)
Definition confirmLast (records : list TransferRecord) : list TransferRecord :=
  match reverse records with
  | [] => []
  | r :: rs => reverse (MkTransfer (tr_From r) (tr_To r) (tr_Reason r) true (tr_CreateTime r) :: rs)
  end.

Definition ConfirmTransfer (id : string) : prog Response :=
  dapp ← GetObject (A := Dapp) ctx (DappKey id);
  match dapp with None => mret (nonexistentDapp id) | Some dapp =>
  ok ← dapp_checkPermission [PermissionSelf] (da_OwnerAddr dapp) (ctx_CurrentCaller ctx) None;
  if negb ok then mret (noPermission ctx "DappNoPermissionCode")
  else
  _ ← (match last (da_TransferRecords dapp) with
       | Some r => if tr_Confirm r then mret tt
                   else SetObject ctx (DappKey id) (with_da_owner dapp (da_OwnerAddr dapp) (confirmLast (da_TransferRecords dapp)))
       | None => mret tt
       end);
  dapp_audited id (getGovernanceRet EmptyString None)
  end.

(** The mean of [num] scores and a new one. *)
Definition meanScore (num : Z) (old score : f64) : f64 :=
  let n := f64_of_Z num in
  let n1 := f64_add n (f64_of_Z 1) in
  f64_add (f64_mul (f64_div n n1) old) (f64_mul (f64_div (f64_of_Z 1) n1) score).

Definition EvaluateDapp (id desc : string) (score : f64) : prog Response :=
  if f64_lt score (f64_of_Z 0) || f64_lt (f64_of_Z 5) score then mret (Error "DappIllegalEvaluateScoreCode" [])
  else
  dapp ← GetObject (A := Dapp) ctx (DappKey id);
  match dapp with None => mret (nonexistentDapp id) | Some dapp =>
  if decide (is_Some (da_EvaluationRecords dapp !! ctx_Caller ctx))
  then mret (Error "DappRepeatEvaluateCode" [ctx_Caller ctx; id])
  else
  let evaRec := MkEvaluation (ctx_Caller ctx) score desc (ctx_TxTimeStamp ctx) in
  _ ← SetObject ctx (DappKey id)
        (with_da_evaluation dapp (meanScore (Z.of_nat (size (da_EvaluationRecords dapp))) (da_Score dapp) score)
           (<[ctx_Caller ctx := evaRec]> (da_EvaluationRecords dapp)));
  dapp_audited id (getGovernanceRet EmptyString None)
  end.

(** *** Queries *)

Definition answerDapp (dapp : Dapp) : Response :=
  match marshal dapp with Some data => Success (Some data) | None => dappErr end.

Definition GetDapp (id : string) : prog Response :=
  dapp ← GetObject (A := Dapp) ctx (DappKey id);
  mret match dapp with None => nonexistentDapp id | Some dapp => answerDapp dapp end.

Definition GetDappByName (name : string) : prog Response :=
  id ← GetObject (A := string) ctx (DappNameKey name);
  match id with None => mret (nonexistentDapp name) | Some id =>
  dapp ← GetObject (A := Dapp) ctx (DappKey id);
  mret match dapp with None => dappErr | Some dapp => answerDapp dapp end
  end.

Definition dapp_less (x y : Dapp) : bool := bool_decide (da_CreateTime x > da_CreateTime y)%Z.

Definition dapp_getAll : prog (option (list Dapp)) :=
  values ← stub_Query ctx DappPrefix; mret (go_sort dapp_less <$> decodeAll values).

Definition answerDapps (f : list Dapp → list Dapp) : prog Response :=
  all ← dapp_getAll;
  mret match (all : option (list Dapp)) ≫= λ l, marshal (f l) with Some data => Success (Some data) | None => dappErr end.

Definition GetAllDapps : prog Response := answerDapps (λ l, l).
Definition GetPermissionDapps (caller : string) : prog Response :=
  answerDapps (filter (λ d, da_Permission d !! caller = None)).
Definition GetPermissionAvailableDapps (caller : string) : prog Response :=
  answerDapps (filter (λ d, da_Permission d !! caller = None ∧ da_IsAvailable d = true)).

(** The loop of [getOwnerAll]: the applications that the owner has, and those that he has handed over. *)
Fixpoint ownerDapps (ownerAddr : string) (ids : list string) : prog (option (list Dapp * list Dapp)) :=
  match ids with
  | [] => mret (Some ([], []))
  | id :: ids =>
      dapp ← GetObject (A := Dapp) ctx (DappKey id);
      match dapp with None => mret None | Some dapp =>
      rest ← ownerDapps ownerAddr ids;
      mret ((λ '(own, gone), if decide (da_OwnerAddr dapp ≠ ownerAddr)
                             then (own, with_da_Status dapp GovernanceTransferred :: gone)
                             else (dapp :: own, gone)) <$> (rest : option (list Dapp * list Dapp)))
      end
  end.

Definition getOwnerAll (ownerAddr : string) : prog (option (list Dapp)) :=
  dappMap ← GetObject (A := gmap string ()) ctx (OwnerKey ownerAddr);
  all ← ownerDapps ownerAddr (go_keys (default ∅ dappMap));
  mret ((λ '(own, gone), go_sort dapp_less own ++ go_sort dapp_less gone) <$> (all : option (list Dapp * list Dapp))).

Definition GetDappsByOwner (ownerAddr : string) : prog Response :=
  ret ← getOwnerAll ownerAddr;
  mret match ret ≫= marshal with Some data => Success (Some data) | None => dappErr end.

Definition dapp_isAvailable (dappID : string) : prog bool :=
  dapp ← GetObject (A := Dapp) ctx (DappKey dappID);
  mret match dapp with None => false | Some dapp => da_IsAvailable dapp end.

Definition dapp_IsAvailable (dappID : string) : prog Response :=
  b ← dapp_isAvailable dappID; mret (Success (Some (FormatBool b))).
End contract.
