(* ===== verification/Appchain.v ===== *)
(** * Chains and rules: their data, and the queries of [appchain_manager.go]

The packages [appchain-mgr] and [rule-mgr] keep the chains and the rules that check proofs. This file has
their interfaces, the part of the chain contract that others ask ([appchain_manager.go]), and the check of
an address of a rule ([CheckRuleAddress] of [rule_manager.go]). *)
From Stdlib Require Import Ascii.
From S2P Require Import Prelude Storage Account StateLedger Contract TransactionManager Role Governance Strategy RoleManager Registry.

(** [appchainMgr.Appchain] without its state machine. *)
Record Appchain := MkAppchain {
  ac_ID : string;
  ac_ChainName : string;
  ac_ChainType : string;
  ac_TrustRoot : option string;
  ac_Broker : option string;
  ac_Desc : string;
  ac_Version : Z;
  ac_Status : string;
  ac_DID : string;
  ac_PubKey : option string }.

(** [ruleMgr.Rule] *)
Record Rule := MkRule {
  ru_Address : string;
  ru_RuleUrl : string;
  ru_ChainID : string;
  ru_Master : bool;
  ru_BuiltIn : bool;
  ru_CreateTime : Z;
  ru_Status : string }.

(** [appchainMgr.FabricBroker] *)
Record FabricBroker := MkFabricBroker { fb_ChannelID : string; fb_ChaincodeID : string; fb_BrokerVersion : string }.

Definition Appchain_text (c : Appchain) : list string :=
  [ac_ID c; ac_ChainName c; ac_ChainType c; ac_Desc c; ac_Status c; ac_DID c].
Definition Rule_text (r : Rule) : list string := [ru_Address r; ru_RuleUrl r; ru_ChainID r; ru_Status r].

(** The package [appchain-mgr]: beside the operations of every registry, the keys of what the contract itself
stores, and operations that write the state of the contract only. *)
Class AppchainPkg := {
  appchain_pkg :: RegistryPkg Appchain;
  am_Register : Context → Appchain → prog ();
  am_Update : Context → Appchain → prog bool;
  am_GetChainIdByName : Context → string → prog (option string);
  am_IsAvailable : Appchain → bool;
  am_IsBitXHub : Appchain → bool;
  AppchainKey : string → string;
  AppchainOccupyNameKey : string → string;
  ChainOccupyIdPrefix : string;
  RelaychainType : string;
  AppAdminsChainKey : string → string;
  AppchainAdminKey : string → string;
  FabricType : string;
  am_Register_own ctx c : writes_only (λ a _, a = ctx_Callee ctx) (am_Register ctx c);
  am_Update_own ctx c : writes_only (λ a _, a = ctx_Callee ctx) (am_Update ctx c);
  am_GetChainIdByName_reads ctx n : writes_only (λ _ _, False) (am_GetChainIdByName ctx n);
  appchain_codec :: JsonCodec Appchain Appchain_text;
  appchains_encoding :: Encoding (list Appchain);
  fabric_encoding :: Encoding FabricBroker;
  Event_AUDIT_APPCHAIN : Z
}.
#[export] Hint Resolve am_Register_own am_Update_own am_GetChainIdByName_reads : writes.

(** The package [rule-mgr], and the built-in rules of [bitxhub-core/validator]. *)
Class RulePkg := {
  rule_pkg :: RegistryPkg Rule;
  rm_Register : Context → string → string → string → Z → bool → prog ();
  rm_GetMaster : Context → string → prog (option Rule);
  rm_HasMaster : Context → string → prog bool;
  rm_IsAvailable : Context → string → string → prog bool;
  rm_AllRules : Context → prog (option (list Rule));
  ru_GetChainRuleID : Rule → string;
  IsDefault : string → string → bool;
  RuleKey : string → string;
  HappyRuleAddr : string;
  FabricRuleAddr : string;
  SimFabricRuleAddr : string;
  ChainTypeFabric1_4_3 : string;
  ChainTypeFabric1_4_4 : string;
  rm_Register_own ctx chain addr url time def : writes_only (λ a _, a = ctx_Callee ctx) (rm_Register ctx chain addr url time def);
  rm_GetMaster_reads ctx chain : writes_only (λ _ _, False) (rm_GetMaster ctx chain);
  rm_HasMaster_reads ctx chain : writes_only (λ _ _, False) (rm_HasMaster ctx chain);
  rm_IsAvailable_reads ctx chain addr : writes_only (λ _ _, False) (rm_IsAvailable ctx chain addr);
  rm_AllRules_reads ctx : writes_only (λ _ _, False) (rm_AllRules ctx);
  rule_codec :: JsonCodec Rule Rule_text;
  rules_encoding :: Encoding (list Rule);
  Event_AUDIT_RULE : Z
}.
#[export] Hint Resolve rm_Register_own rm_GetMaster_reads rm_HasMaster_reads rm_IsAvailable_reads rm_AllRules_reads : writes.

(** ** Queries about chains *)

Section queries.
Context `{GovJsonLib, ConstantLib, !GovAddrLib, !RoleLib, !AppchainPkg}.
Context (ctx : Context).

Definition chainErr : Response := Error "AppchainInternalErrCode" [].
Definition nonexistentChain (id : string) : Response := Error "AppchainNonexistentChainCode" [id].

(** An object as an answer. *)
Definition answerOr {A} `{Encoding A} (err : Response) (v : A) : Response :=
  match marshal v with Some data => Success (Some data) | None => err end.

Definition CountAvailableAppchains : prog Response :=
  r ← rg_CountAvailable (O := Appchain) ctx None; mret (ResponseWrapper "AppchainInternalErrCode" r).

Definition CountAppchains : prog Response :=
  r ← rg_CountAll (O := Appchain) ctx None; mret (ResponseWrapper "AppchainInternalErrCode" r).

Definition Appchains : prog Response :=
  chains ← rg_All (O := Appchain) ctx None;
  mret match chains with None => chainErr | Some chains => answerOr chainErr chains end.

Definition GetAppchain (id : string) : prog Response :=
  chain ← rg_QueryById (O := Appchain) ctx id None;
  mret match chain with None => nonexistentChain id | Some chain => answerOr chainErr chain end.

Definition GetAppchainByName (name : string) : prog Response :=
  id ← am_GetChainIdByName ctx name;
  match id with None => mret (nonexistentChain name) | Some id =>
  chain ← rg_QueryById (O := Appchain) ctx id None;
  mret match chain with None => chainErr | Some chain => answerOr chainErr chain end
  end.

Definition getAdminAddrByChainId (chainId : string) : prog (list string) :=
  addrs ← GetObject (A := list string) ctx (AppAdminsChainKey chainId); mret (default [] addrs).

Definition GetAdminByChainId (chainId : string) : prog Response :=
  addrs ← getAdminAddrByChainId chainId; mret (answerOr chainErr addrs).

Definition GetPubKeyByChainID (id : string) : prog Response :=
  chain ← rg_QueryById (O := Appchain) ctx id None;
  mret match chain with None => nonexistentChain id | Some chain => Success (ac_PubKey chain) end.

Definition am_IsAvailableChain (chainID : string) : prog Response :=
  chain ← rg_QueryById (O := Appchain) ctx chainID None;
  mret match chain with None => nonexistentChain chainID | Some chain => Success (Some (FormatBool (am_IsAvailable chain))) end.

Definition IsAvailableBitxhub (chainID : string) : prog Response :=
  chain ← rg_QueryById (O := Appchain) ctx chainID None;
  mret match chain with
       | None => nonexistentChain chainID
       | Some chain => Success (Some (FormatBool (am_IsAvailable chain && am_IsBitXHub chain)))
       end.

Definition GetBitXHubChainIDs : prog Response :=
  ids ← GetObject (A := OrderedMap) ctx RelaychainType;
  mret (answerOr chainErr (om_Keys (default om_New ids))).
End queries.

(** ** Addresses of rules *)

Section rules.
Context `{ConstantLib, !GovAddrLib, !RoleLib, !RulePkg, HashLib}.

Definition CheckRuleAddress (addr chainType : string) : prog Response :=
  if IsDefault addr chainType then mret (Success None)
  else if negb (HexDecodeString addr) then mret (Error "RuleIllegalRuleAddrCode" [addr])
  else
    code ← hasCode (NewAddressByStr addr);
    mret (if (code : bool) then Success None else Error "RuleNonexistentRuleCode" [addr]).
End rules.
