(* ===== verification/Service.v ===== *)
(** * Services: [src/internal/executor/contracts/service_manager.go]

The administrators of a chain register the services that take part in cross-chain calls. The package
[service-mgr] keeps the services; the contract checks permissions and names, opens proposals, carries out
their results, pauses and clears the services of a chain, and records evaluations and calls. *)
From Stdlib Require Import Ascii SpecFloat.
From S2P Require Import Prelude Storage Account StateLedger Contract TransactionManager Interchain Role Governance Strategy RoleManager.
From S2P Require Import Registry Dapp Appchain.

(** [governance.InvokeRecord] *)
Record InvokeRecord := MkInvoke { iv_Addr : string; iv_Succeed : Z; iv_Failure : Z }.

(** [servicemgr.Service] without its state machine. *)
Record ServiceInfo := MkServiceInfo {
  si_ChainID : string;
  si_ServiceID : string;
  si_Name : string;
  si_Type : string;
  si_Intro : string;
  si_Ordered : bool;
  si_Permission : strset;
  si_Details : string;
  si_CreateTime : Z;
  si_Score : f64;
  si_EvaluationRecords : gmap string EvaluationRecord;
  si_InvokeCount : Z;
  si_InvokeSuccessRate : f64;
  si_InvokeRecords : gmap string InvokeRecord;
  si_Status : string }.

Definition with_si_evaluation (s : ServiceInfo) score records :=
  MkServiceInfo (si_ChainID s) (si_ServiceID s) (si_Name s) (si_Type s) (si_Intro s) (si_Ordered s) (si_Permission s)
    (si_Details s) (si_CreateTime s) score records (si_InvokeCount s) (si_InvokeSuccessRate s) (si_InvokeRecords s) (si_Status s).
Definition with_si_invoke (s : ServiceInfo) count rate records :=
  MkServiceInfo (si_ChainID s) (si_ServiceID s) (si_Name s) (si_Type s) (si_Intro s) (si_Ordered s) (si_Permission s)
    (si_Details s) (si_CreateTime s) (si_Score s) (si_EvaluationRecords s) count rate records (si_Status s).

Record UpdateServiceInfo := MkUpdateService {
  us_ServiceName : UpdateInfo; us_Intro : UpdateInfo; us_Details : UpdateInfo; us_Permission : UpdateMapInfo }.

Definition UpdateService_text (u : UpdateServiceInfo) : list string :=
  UpdateInfo_text (us_ServiceName u) ++ UpdateInfo_text (us_Intro u) ++ UpdateInfo_text (us_Details u) ++
  (map_to_list (um_OldInfo (us_Permission u))).*1 ++ (map_to_list (um_NewInfo (us_Permission u))).*1.

(** The package [service-mgr]. *)
Class ServicePkg := {
  service_pkg :: RegistryPkg ServiceInfo;
  sm_Register : Context → ServiceInfo → prog ();
  sm_RegisterPre : Context → ServiceInfo → prog ();
  sm_Update : Context → ServiceInfo → prog bool;
  (** the chain, the service, its name, type and introduction, whether it is ordered, permits, details, time and status *)
  sm_PackageServiceInfo :
    string → string → string → string → string → bool → string → string → Z → string → option ServiceInfo;
  sm_GetIDListByChainID : Context → string → prog (option (list string));
  sm_GetIDListByType : Context → string → prog (option (list string));
  sm_GetServiceIDByName : Context → string → prog (option string);
  si_IsAvailable : ServiceInfo → bool;
  ServiceKey : string → string;
  ServiceOccupyNameKey : string → string;
  ServiceCallContract : string;
  ServiceDepositCertificate : string;
  ServiceDataMigration : string;
  sm_Register_own ctx s : writes_only (λ a _, a = ctx_Callee ctx) (sm_Register ctx s);
  sm_RegisterPre_own ctx s : writes_only (λ a _, a = ctx_Callee ctx) (sm_RegisterPre ctx s);
  sm_Update_own ctx s : writes_only (λ a _, a = ctx_Callee ctx) (sm_Update ctx s);
  sm_GetIDListByChainID_reads ctx id : writes_only (λ _ _, False) (sm_GetIDListByChainID ctx id);
  sm_GetIDListByType_reads ctx t : writes_only (λ _ _, False) (sm_GetIDListByType ctx t);
  sm_GetServiceIDByName_reads ctx n : writes_only (λ _ _, False) (sm_GetServiceIDByName ctx n);
  service_json :: Encoding ServiceInfo;
  services_json :: Encoding (list ServiceInfo);
  update_service_codec :: JsonCodec UpdateServiceInfo UpdateService_text;
  Event_AUDIT_SERVICE : Z;
  Event_SERVICE : Z
}.
#[export] Hint Resolve sm_Register_own sm_RegisterPre_own sm_Update_own sm_GetIDListByChainID_reads
  sm_GetIDListByType_reads sm_GetServiceIDByName_reads : writes.

Section contract.
Context `{TxPbLib, PbLib}.
Context `{GovernanceLib, GovJsonLib, ProposalJsonLib, StrategyJsonLib, EvalLib, ConstantLib, !GovAddrLib, GoRange, !RoleLib}.
Context `{!AppchainPkg, !ServicePkg}.

Context (Manage : string → string → string → string → string → option string → Context → prog Response).
Context (ctx : Context).

Definition serviceErr : Response := Error "ServiceInternalErrCode" [].
Definition nonexistentService (id : string) : Response := Error "ServiceNonexistentServiceCode" [id].

(** *** Permissions *)

(** The administrators of the chain are looked up in the role contract. *)
Definition isChainAdmin (chainID regulatorAddr : string) : prog (option bool) :=
  res ← CrossInvoke ctx RoleContractAddr (λ rctx, GetAppchainAdmin rctx chainID);
  mret match res with
       | Error _ _ => None
       | Success data =>
           (λ roles : list Role, bool_decide (regulatorAddr ∈ rl_ID <$> roles)) <$> (data ≫= unmarshal)
       end.

Fixpoint chain_checkPermission (permissions : list string) (chainID regulatorAddr : string)
    (specificAddrsData : option string) : prog bool :=
  match permissions with
  | [] => mret false
  | permission :: permissions =>
      if decide (permission = PermissionSelf)
      then
        b ← isChainAdmin chainID regulatorAddr;
        match b with
        | None => mret false
        | Some true => mret true
        | Some false => chain_checkPermission permissions chainID regulatorAddr specificAddrsData
        end
      else if decide (permission = PermissionAdmin)
      then
        res ← CrossInvoke ctx RoleContractAddr (λ ctx, IsAnyAvailableAdmin ctx regulatorAddr GovernanceAdmin);
        match res with
        | Error _ _ => mret false
        | Success data =>
            if decide (data = Some TRUE) then mret true
            else chain_checkPermission permissions chainID regulatorAddr specificAddrsData
        end
      else if decide (permission = PermissionSpecific)
      then
        match isSpecific regulatorAddr specificAddrsData with
        | None => mret false
        | Some true => mret true
        | Some false => chain_checkPermission permissions chainID regulatorAddr specificAddrsData
        end
      else mret false
  end.

Definition service_onlyFrom (objId : string) (addrs : list string) : prog (option Response) :=
  onlyFrom ctx chain_checkPermission "ServiceInternalErrCode" "ServiceNoPermissionCode" objId addrs.

(** *** Names that are taken *)

Definition occupyServiceName (name chainServiceID : string) : prog () := SetObject ctx (ServiceOccupyNameKey name) chainServiceID.
Definition freeServiceName (name : string) : prog () := Delete ctx (ServiceOccupyNameKey name).
Definition service_isOccupiedName (name : string) : prog (option string) :=
  GetObject (A := string) ctx (ServiceOccupyNameKey name).

(** *** Events; [None] is the error *)

Definition postAuditServiceEvent (chainServiceID : string) : prog (option ()) :=
  data ← Get ctx (ServiceKey chainServiceID);
  match data with
  | None => mret None
  | Some serviceData =>
      _ ← @postEvent ctx _ (json_encoding (JsonCodec := gov_audit_codec)) Event_AUDIT_SERVICE
            (MkAudit serviceData (take 1 (str_split colon chainServiceID)) []);
      mret (Some tt)
  end.

Definition postServiceEvent (chainServiceID : string) : prog (option ()) :=
  service ← GetObject (A := ServiceInfo) ctx (ServiceKey chainServiceID);
  match service with
  | None => mret None
  | Some service => _ ← postEvent ctx Event_SERVICE service; mret (Some tt)
  end.

(** The end of the methods that change a service. *)
Definition service_posted (chainServiceID : string) (res : Response) : prog Response :=
  ok ← (if ctx_EnableAudit ctx then postAuditServiceEvent chainServiceID else mret (Some tt));
  match ok with None => mret serviceErr | Some _ =>
  ok ← postServiceEvent chainServiceID;
  mret match ok with None => serviceErr | Some _ => res end
  end.

(** *** Pausing and clearing; [None] is the error *)

(** The event, if it is possible in the state of the service. *)
Definition service_move (chainServiceID event : string) : prog bool :=
  pre ← rg_GovernancePre (O := ServiceInfo) ctx chainServiceID event None;
  match pre with
  | inr _ => mret true
  | inl _ => rg_ChangeStatus (O := ServiceInfo) ctx chainServiceID event EmptyString None
  end.

Definition pauseService (chainServiceID : string) : prog (option ()) :=
  ok ← service_move chainServiceID EventPause;
  if negb ok then mret None
  else
    res ← CrossInvoke ctx GovernanceContractAddr (λ gctx, LockLowPriorityProposal gctx chainServiceID EventPause);
    mret (if resp_Ok res then Some tt else None).

Definition unPauseService (chainServiceID : string) : prog (option ()) :=
  ok ← service_move chainServiceID EventUnpause;
  if negb ok then mret None
  else
    res ← CrossInvoke ctx GovernanceContractAddr (λ gctx, UnLockLowPriorityProposal Manage gctx chainServiceID EventUnpause);
    mret (if resp_Ok res then Some tt else None).

Definition clearService (chainServiceID : string) : prog (option ()) :=
  ok ← service_move chainServiceID EventCLear;
  if negb ok then mret None
  else
    res ← CrossInvoke ctx GovernanceContractAddr (λ gctx, EndObjProposal gctx chainServiceID ClearReason None);
    mret (if resp_Ok res then Some tt else None).

(** The loops over the services of a chain. *)
Fixpoint forServices (change : string → prog (option ())) (idList : list string) : prog Response :=
  match idList with
  | [] => mret (getGovernanceRet EmptyString None)
  | id :: idList =>
      ok ← change id;
      match ok with None => mret serviceErr | Some _ =>
      res ← service_posted id (Success None);
      if resp_Ok res then forServices change idList else mret res
      end
  end.

Definition chainServices (change : string → prog (option ())) (chainID : string) : prog Response :=
  denied ← service_onlyFrom chainID [AppchainMgrContractAddr];
  match denied with Some res => mret res | None =>
  idList ← sm_GetIDListByChainID ctx chainID;
  match idList with
  | None => mret (getGovernanceRet EmptyString None)
  | Some idList => forServices change idList
  end end.

Definition PauseChainService (chainID : string) : prog Response := chainServices pauseService chainID.
Definition UnPauseChainService (chainID : string) : prog Response := chainServices unPauseService chainID.
Definition ClearChainService (chainID : string) : prog Response := chainServices clearService chainID.

(** *** Results of proposals *)

Definition chainOf (chainServiceID : string) : string := default EmptyString (head (str_split colon chainServiceID)).

(** A service whose chain is not available is paused. *)
Definition pauseIfUnavailable (objId : string) : prog (option Response) :=
  res ← CrossInvoke ctx AppchainMgrContractAddr (λ actx, am_IsAvailableChain actx (chainOf objId));
  match res with
  | Error _ _ => mret (Some serviceErr)
  | Success data =>
      if decide (data = Some (FormatBool false))
      then ok ← pauseService objId; mret match ok with None => Some serviceErr | Some _ => None end
      else mret None
  end.

(** [None]: carry on. *)
Definition service_approve (eventTyp objId : string) (extra : option string) : prog (option Response) :=
  if decide (eventTyp = EventRegister)
  then
    service ← rg_QueryById (O := ServiceInfo) ctx objId None;
    match service with None => mret (Some serviceErr) | Some serviceInfo =>
    _ ← sm_Register ctx serviceInfo;
    res ← CrossInvoke ctx InterchainContractAddr (λ ictx, Register ictx objId);
    if negb (resp_Ok res) then mret (Some serviceErr) else pauseIfUnavailable objId
    end
  else if decide (eventTyp = EventUpdate)
  then
    match extra ≫= unmarshal with None => mret (Some serviceErr) | Some updateInfo =>
    match str_split colon objId with
    | chainID :: serviceID :: _ =>
        ok ← sm_Update ctx (MkServiceInfo chainID serviceID (ui_NewInfo (us_ServiceName updateInfo)) EmptyString
               (ui_NewInfo (us_Intro updateInfo)) false (um_NewInfo (us_Permission updateInfo)) (ui_NewInfo (us_Details updateInfo))
               0 (S754_zero false) ∅ 0 (S754_zero false) ∅ EmptyString);
        if negb ok then mret (Some serviceErr)
        else
        _ ← (if ui_IsEdit (us_ServiceName updateInfo) then freeServiceName (ui_OldInfo (us_ServiceName updateInfo)) else mret tt);
        mret None
    | _ => Panic
    end end
  else if decide (eventTyp = EventLogout)
  then ok ← clearService objId; mret match ok with None => Some serviceErr | Some _ => None end
  else mret None.

Definition service_reject (eventTyp objId : string) (extra : option string) : prog (option Response) :=
  if decide (eventTyp = EventRegister)
  then
    service ← rg_QueryById (O := ServiceInfo) ctx objId None;
    match service with None => mret (Some serviceErr) | Some serviceInfo =>
    _ ← freeServiceName (si_Name serviceInfo); mret None
    end
  else if decide (eventTyp = EventUpdate)
  then
    match extra ≫= unmarshal with None => mret (Some serviceErr) | Some updateInfo =>
    _ ← (if ui_IsEdit (us_ServiceName updateInfo) then freeServiceName (ui_NewInfo (us_ServiceName updateInfo)) else mret tt);
    mret None
    end
  else if decide (eventTyp = EventLogout) then pauseIfUnavailable objId
  else mret None.

Definition service_Manage (eventTyp proposalResult lastStatus objId : string) (extra : option string) : prog Response :=
  denied ← service_onlyFrom objId [GovernanceContractAddr];
  match denied with Some res => mret res | None =>
  ok ← rg_ChangeStatus (O := ServiceInfo) ctx objId proposalResult lastStatus None;
  if negb ok then mret serviceErr
  else
  failed ← (if decide (proposalResult = APPROVED) then service_approve eventTyp objId extra else service_reject eventTyp objId extra);
  match failed with Some res => mret res | None => service_posted objId (Success None) end
  end.

(** *** Opening proposals *)

(** [None]: the chain is available. *)
Definition checkAppchain (chainID : string) : prog (option ()) :=
  res ← CrossInvoke ctx AppchainMgrContractAddr (λ actx, am_IsAvailableChain actx chainID);
  mret match res with
       | Error _ _ => None
       | Success data => if decide (data = Some (FormatBool false)) then None else Some tt
       end.

Fixpoint all_digits (s : string) : bool :=
  match s with EmptyString => true | String c s => is_digit c && all_digits s end.

(** [None]: the service may be named in a permission. *)
Definition checkPermissionService (fullServiceID : string) : prog (option Response) :=
  match str_split colon fullServiceID with
  | [bxhID; chainID; serviceID] =>
      if decide (bxhID = EmptyString) then mret (Some (Error "ServiceIllegalPermissionFormatCode" [fullServiceID]))
      else if negb (all_digits bxhID) then mret (Some (Error "ServiceIllegalPermissionFormatCode" [fullServiceID]))
      else if decide (chainID = EmptyString ∨ serviceID = EmptyString)
      then mret (Some (Error "ServiceIllegalPermissionFormatCode" [fullServiceID]))
      else
      res ← CrossInvoke ctx InterchainContractAddr (λ ictx, GetBitXHubID ictx);
      match res with Error _ _ => mret (Some serviceErr) | Success data =>
      if decide (bxhID = default EmptyString data)
      then
        service ← rg_QueryById (O := ServiceInfo) ctx (chainID +:+ ":" +:+ serviceID) None;
        mret match service with
             | None => Some (Error "ServiceNonexistentPermissionServiceCode" [fullServiceID; default EmptyString data])
             | Some s => if decide (si_Status s = GovernanceForbidden)
                         then Some (Error "ServiceLogoutedPermissionServiceCode" [fullServiceID]) else None
             end
      else mret None
      end
  | _ => mret (Some (Error "ServiceIllegalPermissionFormatCode" [fullServiceID]))
  end.

Definition checkServiceInfo (service : ServiceInfo) (isRegister : bool) : prog Response :=
  if decide (si_Name service = EmptyString) then mret (Error "ServiceEmptyNameCode" [])
  else
  taken ← service_isOccupiedName (si_Name service);
  match (match taken with
         | Some serviceID =>
             if isRegister || bool_decide (serviceID ≠ si_ChainID service +:+ ":" +:+ si_ServiceID service)
             then Some (Error "ServiceDuplicateNameCode" [si_Name service; serviceID]) else None
         | None => None
         end) with
  | Some res => mret res
  | None =>
      if decide (si_Type service ∉ [ServiceCallContract; ServiceDepositCertificate; ServiceDataMigration])
      then mret (Error "ServiceIllegalTypeCode" [si_Type service])
      else
      bad ← prog_find checkPermissionService (go_keys (si_Permission service));
      mret (default (Success None) bad)
  end.

Definition RegisterService (chainID serviceID name typ intro : string) (ordered : Z) (permits details reason : string) : prog Response :=
  ok ← chain_checkPermission [PermissionSelf] chainID (ctx_CurrentCaller ctx) None;
  if negb ok then mret (noPermission ctx "ServiceNoPermissionCode")
  else
  let chainServiceID := chainID +:+ ":" +:+ serviceID in
  pre ← rg_GovernancePre (O := ServiceInfo) ctx chainServiceID EventRegister None;
  match pre with inr be => mret (Error (be_Code be) (be_Args be)) | inl _ =>
  available ← checkAppchain chainID;
  match available with None => mret (Error "ServiceUnavailableChainCode" [chainID; chainServiceID]) | Some _ =>
  match sm_PackageServiceInfo chainID serviceID name typ intro (bool_decide (ordered = 1%Z)) permits details
          (ctx_TxTimeStamp ctx) GovernanceRegisting with
  | None => mret serviceErr
  | Some service =>
      checked ← checkServiceInfo service true;
      if negb (resp_Ok checked) then mret checked
      else
      _ ← occupyServiceName name chainServiceID;
      res ← submit ctx EventRegister ServiceMgr chainServiceID GovernanceUnavailable reason None;
      match res with Error _ _ => mret serviceErr | Success pid =>
      let pid := default EmptyString pid in
      _ ← sm_RegisterPre ctx service;
      _ ← zeroPermission Manage ctx pid;
      service_posted chainServiceID (getGovernanceRet pid (Some chainServiceID))
      end
  end end end.

Definition updateServiceInfoOf (old new : ServiceInfo) : UpdateServiceInfo :=
  let change f := MkUpdateInfo (f old) (f new) (bool_decide (f old ≠ f new)) in
  MkUpdateService (change si_Name) (change si_Intro) (change si_Details)
    (MkUpdateMapInfo (si_Permission old) (si_Permission new) (strset_changed (si_Permission new) (si_Permission old))).

Definition UpdateService (chainServiceID name intro permits details reason : string) : prog Response :=
  pre ← rg_GovernancePre (O := ServiceInfo) ctx chainServiceID EventUpdate None;
  match pre with inr be => mret (Error (be_Code be) (be_Args be)) | inl None => Panic | inl (Some old) =>
  ok ← chain_checkPermission [PermissionSelf] (si_ChainID old) (ctx_CurrentCaller ctx) None;
  if negb ok then mret (noPermission ctx "ServiceNoPermissionCode")
  else
  match sm_PackageServiceInfo (si_ChainID old) (si_ServiceID old) name (si_Type old) intro (si_Ordered old) permits details
          (si_CreateTime old) (si_Status old) with
  | None => mret serviceErr
  | Some new =>
      checked ← checkServiceInfo new false;
      if negb (resp_Ok checked) then mret checked
      else if decide (si_Name new = si_Name old ∧ si_Details new = si_Details old)
      then
        ok ← sm_Update ctx new;
        if negb ok then mret serviceErr else service_posted chainServiceID (getGovernanceRet EmptyString None)
      else
      _ ← (if decide (si_Name new ≠ si_Name old) then occupyServiceName name chainServiceID else mret tt);
      match marshal (updateServiceInfoOf old new) with None => mret serviceErr | Some data =>
      res ← submit ctx EventUpdate ServiceMgr chainServiceID (si_Status old) reason (Some data);
      match res with Error _ _ => mret serviceErr | Success pid =>
      let pid := default EmptyString pid in
      ok ← rg_ChangeStatus (O := ServiceInfo) ctx chainServiceID EventUpdate (si_Status old) None;
      if negb ok then mret serviceErr
      else
      _ ← zeroPermission Manage ctx pid;
      service_posted chainServiceID (getGovernanceRet pid None)
      end end
  end end.

Definition service_basicGovernance (chainServiceID reason : string) (permissions : list string) (event : string)
    (extra : option string) : prog Response :=
  pre ← rg_GovernancePre (O := ServiceInfo) ctx chainServiceID event None;
  match pre with inr be => mret (Error (be_Code be) (be_Args be)) | inl None => Panic | inl (Some service) =>
  ok ← chain_checkPermission permissions (si_ChainID service) (ctx_CurrentCaller ctx) None;
  if negb ok then mret (noPermission ctx "ServiceNoPermissionCode")
  else
  res ← submit ctx event ServiceMgr chainServiceID (si_Status service) reason extra;
  match res with Error _ _ => mret serviceErr | Success pid =>
  let pid := default EmptyString pid in
  ok ← rg_ChangeStatus (O := ServiceInfo) ctx chainServiceID event (si_Status service) None;
  if negb ok then mret serviceErr
  else
  _ ← zeroPermission Manage ctx pid;
  service_posted chainServiceID (getGovernanceRet pid None)
  end end.

Definition FreezeService (chainServiceID reason : string) : prog Response :=
  service_basicGovernance chainServiceID reason [PermissionAdmin] EventFreeze None.
Definition ActivateService (chainServiceID reason : string) : prog Response :=
  service_basicGovernance chainServiceID reason [PermissionSelf; PermissionAdmin] EventActivate None.
Definition LogoutService (chainServiceID reason : string) : prog Response :=
  service_basicGovernance chainServiceID reason [PermissionSelf] EventLogout None.

(** *** Evaluations and calls *)

Definition EvaluateService (chainServiceID desc : string) (score : f64) : prog Response :=
  if f64_lt score (f64_of_Z 0) || f64_lt (f64_of_Z 5) score then mret (Error "ServiceIllegalEvaluateScoreCode" [])
  else
  service ← GetObject (A := ServiceInfo) ctx (ServiceKey chainServiceID);
  match service with None => mret (nonexistentService chainServiceID) | Some service =>
  if decide (is_Some (si_EvaluationRecords service !! ctx_Caller ctx))
  then mret (Error "ServiceRepeatEvaluateCode" [ctx_Caller ctx; chainServiceID])
  else
  let evaRec := MkEvaluation (ctx_Caller ctx) score desc (ctx_TxTimeStamp ctx) in
  _ ← SetObject ctx (ServiceKey chainServiceID)
        (with_si_evaluation service (meanScore (Z.of_nat (size (si_EvaluationRecords service))) (si_Score service) score)
           (<[ctx_Caller ctx := evaRec]> (si_EvaluationRecords service)));
  service_posted chainServiceID (getGovernanceRet EmptyString None)
  end.

(** The rate of successful calls after the call number [num]. *)
Definition invokeRate (num : Z) (rate : f64) (result : bool) : f64 :=
  let n := f64_of_Z num in
  let n1 := f64_add n (f64_of_Z 1) in
  if result then f64_add (f64_mul (f64_div n n1) rate) (f64_div (f64_of_Z 1) n1)
  else if f64_eq rate (f64_of_Z 0) then rate
  else f64_sub (f64_mul (f64_div n n1) rate) (f64_div (f64_of_Z 1) n1).

Definition invoked (from : string) (result : bool) (rec : option InvokeRecord) : InvokeRecord :=
  match rec with
  | Some rec => if result then MkInvoke (iv_Addr rec) (iv_Succeed rec +u 1) (iv_Failure rec)
                else MkInvoke (iv_Addr rec) (iv_Succeed rec) (iv_Failure rec +u 1)
  | None => if result then MkInvoke from 1 0 else MkInvoke from 0 1
  end.

Definition RecordInvokeService (fullServiceID fromFullServiceID : string) (result : bool) : prog Response :=
  match str_split colon fullServiceID, str_split colon fromFullServiceID with
  | _ :: toChain :: toService :: _, _ :: fromChain :: fromService :: _ =>
      let chainServiceID := toChain +:+ ":" +:+ toService in
      let fromChainServiceID := fromChain +:+ ":" +:+ fromService in
      denied ← service_onlyFrom EmptyString [InterchainContractAddr];
      match denied with Some res => mret res | None =>
      service ← GetObject (A := ServiceInfo) ctx (ServiceKey chainServiceID);
      match service with None => mret (nonexistentService chainServiceID) | Some service =>
      let rec := invoked fromChainServiceID result (si_InvokeRecords service !! fromChainServiceID) in
      let count := si_InvokeCount service +u 1 in
      _ ← SetObject ctx (ServiceKey chainServiceID)
            (with_si_invoke service count (invokeRate count (si_InvokeSuccessRate service) result)
               (<[fromChainServiceID := rec]> (si_InvokeRecords service)));
      service_posted chainServiceID (Success None)
      end end
  | _, _ => Panic
  end.

(** *** Queries *)

Definition GetServiceInfo (id : string) : prog Response :=
  service ← rg_QueryById (O := ServiceInfo) ctx id None;
  mret match service with None => nonexistentService id | Some s => answerOr serviceErr s end.

Definition GetServiceByName (name : string) : prog Response :=
  id ← sm_GetServiceIDByName ctx name;
  match id with None => mret (nonexistentService name) | Some id =>
  service ← rg_QueryById (O := ServiceInfo) ctx id None;
  mret match service with None => serviceErr | Some s => answerOr serviceErr s end
  end.

Definition GetAllServices : prog Response :=
  services ← rg_All (O := ServiceInfo) ctx None;
  mret match services with None => serviceErr | Some l => answerOr serviceErr l end.

Definition GetPermissionServices (chainServiceId : string) : prog Response :=
  services ← rg_All (O := ServiceInfo) ctx None;
  mret match services with
       | None => serviceErr
       | Some l => answerOr serviceErr (filter (λ s : ServiceInfo, si_Permission s !! chainServiceId = None) l)
       end.

Fixpoint servicesOf (idList : list string) : prog (option (list ServiceInfo)) :=
  match idList with
  | [] => mret (Some [])
  | id :: idList =>
      service ← rg_QueryById (O := ServiceInfo) ctx id None;
      match service with None => mret None | Some s =>
      rest ← servicesOf idList; mret (cons s <$> (rest : option (list ServiceInfo)))
      end
  end.

Definition servicesAnswer (idList : option (list string)) : prog Response :=
  match idList with None => mret serviceErr | Some idList =>
  l ← servicesOf idList; mret match l with None => serviceErr | Some l => answerOr serviceErr l end
  end.

Definition GetServicesByAppchainID (chainID : string) : prog Response :=
  idList ← sm_GetIDListByChainID ctx chainID; servicesAnswer idList.
Definition GetServicesByType (typ : string) : prog Response :=
  idList ← sm_GetIDListByType ctx typ; servicesAnswer idList.

Definition service_IsAvailable (id : string) : prog Response :=
  service ← rg_QueryById (O := ServiceInfo) ctx id None;
  mret match service with None => nonexistentService id | Some s => Success (Some (FormatBool (si_IsAvailable s))) end.
End contract.
