(* ===== verification/Rule.v ===== *)
(** * Rules: [src/internal/executor/contracts/rule_manager.go]

Each chain has rules that check the proofs of its messages, one of which is the master rule. This file
has the methods that do not change the state of the chain: registration, logout, clearing and queries.
The change of the master rule, which pauses the chain, is in [RuleManager.v]. *)
From Stdlib Require Import Ascii.
From S2P Require Import Prelude Storage Account StateLedger Contract TransactionManager Interchain Role Governance Strategy RoleManager.
From S2P Require Import Registry Dapp Appchain Service.

Section contract.
Context `{GovernanceLib, GovJsonLib, ProposalJsonLib, StrategyJsonLib, EvalLib, ConstantLib, !GovAddrLib, GoRange, !RoleLib}.
Context `{!AppchainPkg, !RulePkg, HashLib, !BindLib}.
Context (ctx : Context).

Definition ruleErr : Response := Error "RuleInternalErrCode" [].

(** Permissions are those of services: the administrators of the chain are looked up in the role contract. *)
Definition rule_onlyFrom (objId : string) (addrs : list string) : prog (option Response) :=
  onlyFrom ctx (chain_checkPermission ctx) "RuleInternalErrCode" "RuleNoPermissionCode" objId addrs.

(** [None] is the error. *)
Definition postAuditRuleEvent (chainID : string) : prog (option ()) :=
  data ← Get ctx (RuleKey chainID);
  match data with
  | None => mret None
  | Some rulesData => _ ← postEvent ctx Event_AUDIT_RULE (MkAudit rulesData [chainID] []); mret (Some tt)
  end.

Definition rule_audited (chainID : string) (res : Response) : prog Response :=
  if ctx_EnableAudit ctx
  then ok ← postAuditRuleEvent chainID; mret match ok with Some _ => res | None => ruleErr end
  else mret res.

(** The chain of a rule, from the chain contract; [inr] is the answer that refuses. *)
Definition ruleChain (chainID : string) : prog (Appchain + Response) :=
  res ← CrossInvoke ctx AppchainMgrContractAddr (λ actx, GetAppchain actx chainID);
  mret match res with
       | Error _ _ => inr (Error "RuleNonexistentChainCode" [chainID])
       | Success data => match data ≫= unmarshal with None => inr ruleErr | Some chain => inl chain end
       end.

Definition RegisterRule (chainID ruleAddress ruleUrl : string) : prog Response :=
  ok ← chain_checkPermission ctx [PermissionSelf] chainID (ctx_CurrentCaller ctx) None;
  if negb ok then mret (noPermission ctx "RuleNoPermissionCode")
  else
  chain ← ruleChain chainID;
  match chain with inr res => mret res | inl appchainInfo =>
  if decide (ac_Status appchainInfo = GovernanceForbidden) then mret (Error "RuleAppchainForbiddenCode" [ac_ID appchainInfo])
  else
  checked ← CheckRuleAddress ruleAddress (ac_ChainType appchainInfo);
  if negb (resp_Ok checked) then mret checked
  else
  pre ← rg_GovernancePre (O := Rule) ctx ruleAddress EventRegister (Some chainID);
  match pre with inr be => mret (Error (be_Code be) (be_Args be)) | inl _ =>
  if IsDefault ruleAddress (ac_ChainType appchainInfo) then mret (Error "RuleRegisterDefaultCode" [ruleAddress])
  else
  _ ← rm_Register ctx chainID ruleAddress ruleUrl (ctx_TxTimeStamp ctx) false;
  rule_audited chainID (getGovernanceRet EmptyString None)
  end end.

Definition registerDefaultRule (chainID chainType : string) : prog () :=
  _ ← rm_Register ctx chainID HappyRuleAddr EmptyString (ctx_TxTimeStamp ctx) true;
  if decide (chainType = ChainTypeFabric1_4_3 ∨ chainType = ChainTypeFabric1_4_4)
  then
    _ ← rm_Register ctx chainID FabricRuleAddr EmptyString (ctx_TxTimeStamp ctx) true;
    rm_Register ctx chainID SimFabricRuleAddr EmptyString (ctx_TxTimeStamp ctx) true
  else mret tt.

Definition RegisterRuleFirst (chainID chainType ruleAddress ruleUrl : string) : prog Response :=
  denied ← rule_onlyFrom chainID [AppchainMgrContractAddr];
  match denied with Some res => mret res | None =>
  _ ← registerDefaultRule chainID chainType;
  _ ← (if IsDefault ruleAddress chainType then mret tt
       else rm_Register ctx chainID ruleAddress ruleUrl (ctx_TxTimeStamp ctx) false);
  ok ← rg_ChangeStatus (O := Rule) ctx ruleAddress EventBind GovernanceBindable (Some chainID);
  if negb ok then mret ruleErr else rule_audited chainID (Success None)
  end.

Definition LogoutRule (chainID ruleAddress : string) : prog Response :=
  ok ← chain_checkPermission ctx [PermissionSelf] chainID (ctx_CurrentCaller ctx) None;
  if negb ok then mret (noPermission ctx "RuleNoPermissionCode")
  else
  chain ← ruleChain chainID;
  match chain with inr res => mret res | inl appchainInfo =>
  if decide (ac_Status appchainInfo = GovernanceForbidden) then mret (Error "RuleAppchainForbiddenCode" [ac_ID appchainInfo])
  else
  pre ← rg_GovernancePre (O := Rule) ctx ruleAddress EventLogout (Some chainID);
  match pre with inr be => mret (Error (be_Code be) (be_Args be)) | inl None => Panic | inl (Some rule) =>
  if IsDefault ruleAddress (ac_ChainType appchainInfo) then mret (Error "RuleLogoutDefaultCode" [ruleAddress])
  else
  ok ← rg_ChangeStatus (O := Rule) ctx ruleAddress EventLogout (ru_Status rule) (Some chainID);
  if negb ok then mret ruleErr else rule_audited chainID (getGovernanceRet EmptyString None)
  end end.

(** The loop over the rules of a chain: the id of the last rule that is being bound, or [None] for an error. *)
Fixpoint clearRules (chainID : string) (rules : list Rule) (bindingChainRuleID : string) : prog (option string) :=
  match rules with
  | [] => mret (Some bindingChainRuleID)
  | r :: rules =>
      let binding := if decide (ru_Status r = GovernanceBinding) then ru_GetChainRuleID r else bindingChainRuleID in
      ok ← rg_ChangeStatus (O := Rule) ctx (ru_Address r) EventCLear (ru_Status r) (Some chainID);
      if negb ok then mret None else clearRules chainID rules binding
  end.

Definition ClearRule (chainID : string) : prog Response :=
  denied ← rule_onlyFrom EmptyString [AppchainMgrContractAddr];
  match denied with Some res => mret res | None =>
  rules ← rg_All (O := Rule) ctx (Some chainID);
  match rules with None => mret ruleErr | Some rules =>
  binding ← clearRules chainID rules EmptyString;
  match binding with None => mret ruleErr | Some bindingChainRuleID =>
  res ← CrossInvoke ctx GovernanceContractAddr (λ gctx, EndObjProposal gctx bindingChainRuleID ClearReason None);
  if negb (resp_Ok res) then mret ruleErr else rule_audited chainID (Success None)
  end end end.

(** ** Queries *)

Definition GetAllRules : prog Response :=
  rules ← rm_AllRules ctx; mret match rules with None => ruleErr | Some l => answerOr ruleErr l end.

Definition CountAvailableRules (chainID : string) : prog Response :=
  r ← rg_CountAvailable (O := Rule) ctx (Some chainID); mret (ResponseWrapper "RuleInternalErrCode" r).
Definition CountRules (chainID : string) : prog Response :=
  r ← rg_CountAll (O := Rule) ctx (Some chainID); mret (ResponseWrapper "RuleInternalErrCode" r).

Definition Rules (chainID : string) : prog Response :=
  rules ← rg_All (O := Rule) ctx (Some chainID); mret match rules with None => ruleErr | Some l => answerOr ruleErr l end.

Definition GetRuleByAddr (chainID ruleAddr : string) : prog Response :=
  rule ← rg_QueryById (O := Rule) ctx ruleAddr (Some chainID);
  mret match rule with None => ruleErr | Some r => answerOr ruleErr r end.

Definition GetMasterRule (chainID : string) : prog Response :=
  rule ← rm_GetMaster ctx chainID; mret match rule with None => ruleErr | Some r => answerOr ruleErr r end.

Definition HasMasterRule (chainID : string) : prog Response :=
  b ← rm_HasMaster ctx chainID; mret (ResponseWrapper "RuleInternalErrCode" (b, None)).

Definition IsAvailableRule (chainID ruleAddress : string) : prog Response :=
  b ← rm_IsAvailable ctx chainID ruleAddress; mret (ResponseWrapper "RuleInternalErrCode" (b, None)).
End contract.
