(* ===== verification/AppchainManager.v ===== *)
(** * Chains: [src/internal/executor/contracts/appchain_manager.go]

Registration, change, freezing, activation and logout of chains by proposals, and the results of these
proposals: the administrators of a chain are recorded, its first rules are registered, and its services are
paused, released or cleared with it. The queries are in [Appchain.v]. *)
From Stdlib Require Import Ascii.
From S2P Require Import Prelude Storage Account StateLedger Contract TransactionManager Interchain Role Governance Strategy RoleManager.
From S2P Require Import Registry Dapp Appchain Service Rule.

Record RegisterAppchainInfo := MkRegisterAppchain { ra_ChainInfo : Appchain; ra_MasterRule : Rule; ra_AdminAddrs : string }.

(** Values that may be nil. *)
Record UpdateBytesInfo := MkUpdateBytes { ub_OldInfo : option string; ub_NewInfo : option string; ub_IsEdit : bool }.

Record UpdateAppchainInfo := MkUpdateAppchain {
  ua_Name : UpdateInfo; ua_Desc : UpdateInfo; ua_TrustRoot : UpdateBytesInfo; ua_AdminAddrs : UpdateInfo }.

(** *** Base 64, the standard encoding of [encoding/base64] *)

Definition b64_char (n : N) : ascii :=
  match String.get (N.to_nat n) "ABCDEFGHIJKLMNOPQRSTUVWXYZabcdefghijklmnopqrstuvwxyz0123456789+/" with
  | Some c => c
  | None => "="%char
  end.

(** The four characters of up to three bytes. *)
Definition b64_group (a : ascii) (b c : option ascii) : string :=
  let x := N_of_ascii a in
  let y := default 0%N (N_of_ascii <$> b) in
  let z := default 0%N (N_of_ascii <$> c) in
  String (b64_char (x / 4)) (String (b64_char ((x mod 4) * 16 + y / 16))
    (String (match b with Some _ => b64_char ((y mod 16) * 4 + z / 64) | None => "="%char end)
      (String (match c with Some _ => b64_char (z mod 64) | None => "="%char end) EmptyString))).

Fixpoint base64 (s : string) : string :=
  match s with
  | EmptyString => EmptyString
  | String a EmptyString => b64_group a None None
  | String a (String b EmptyString) => b64_group a (Some b) None
  | String a (String b (String c s)) => b64_group a (Some b) (Some c) +:+ base64 s
  end.

(** JSON writes a slice of bytes as text in base 64. A field of any type reads it back as that text. *)
Definition json_bytes (i : UpdateBytesInfo) : UpdateBytesInfo :=
  MkUpdateBytes (base64 <$> ub_OldInfo i) (base64 <$> ub_NewInfo i) (ub_IsEdit i).

Class AppchainJsonLib := {
  register_chain_codec :: JsonCodec RegisterAppchainInfo
    (λ r, Appchain_text (ra_ChainInfo r) ++ Rule_text (ra_MasterRule r) ++ [ra_AdminAddrs r]);
  update_chain_encoding :: Encoding UpdateAppchainInfo;
  update_chain_marshals (u : UpdateAppchainInfo) : is_Some (marshal u);
  update_chain_json u s :
    Forall is_ascii (UpdateInfo_text (ua_Name u) ++ UpdateInfo_text (ua_Desc u) ++ UpdateInfo_text (ua_AdminAddrs u)) →
    marshal u = Some s →
    unmarshal s = Some (MkUpdateAppchain (ua_Name u) (ua_Desc u) (json_bytes (ua_TrustRoot u)) (ua_AdminAddrs u))
}.

(** [strings.Contains] *)
Fixpoint str_Contains (s sub : string) : bool :=
  String.prefix sub s || match s with EmptyString => false | String _ s => str_Contains s sub end.

(** [strings.ToLower] on ASCII. *)
Definition ascii_lower (c : ascii) : ascii :=
  if bool_decide (65 ≤ nat_of_ascii c ≤ 90) then ascii_of_nat (nat_of_ascii c + 32) else c.
Fixpoint str_ToLower (s : string) : string :=
  match s with EmptyString => EmptyString | String c s => String (ascii_lower c) (str_ToLower s) end.

Section contract.
Context `{GovernanceLib, GovJsonLib, ProposalJsonLib, StrategyJsonLib, EvalLib, FsmLib, ConstantLib, !GovAddrLib, GoRange, !RoleLib}.
Context `{!AppchainPkg, !RulePkg, !ServicePkg, HashLib, !BindLib, AppchainJsonLib}.

Context (Manage : string → string → string → string → string → option string → Context → prog Response).
Context (ctx : Context).

(** *** Permissions *)

Definition getChainIdByAdmin (addr : string) : prog (option string) := GetObject (A := string) ctx (AppchainAdminKey addr).

Fixpoint appchain_checkPermission (permissions : list string) (appchainID regulatorAddr : string)
    (specificAddrsData : option string) : prog bool :=
  match permissions with
  | [] => mret false
  | permission :: permissions =>
      if decide (permission = PermissionSelf)
      then
        id ← getChainIdByAdmin regulatorAddr;
        if decide (id = Some appchainID) then mret true
        else appchain_checkPermission permissions appchainID regulatorAddr specificAddrsData
      else if decide (permission = PermissionAdmin)
      then
        res ← CrossInvoke ctx RoleContractAddr (λ ctx, IsAnyAvailableAdmin ctx regulatorAddr GovernanceAdmin);
        match res with
        | Error _ _ => mret false
        | Success data =>
            if decide (data = Some TRUE) then mret true
            else appchain_checkPermission permissions appchainID regulatorAddr specificAddrsData
        end
      else if decide (permission = PermissionSpecific)
      then
        match isSpecific regulatorAddr specificAddrsData with
        | None => mret false
        | Some true => mret true
        | Some false => appchain_checkPermission permissions appchainID regulatorAddr specificAddrsData
        end
      else mret false
  end.

Definition chain_onlyFrom (objId : string) (addrs : list string) : prog (option Response) :=
  onlyFrom ctx appchain_checkPermission "AppchainInternalErrCode" "AppchainNoPermissionCode" objId addrs.

(** *** Ids and names that are taken, relay chains, administrators *)

Definition occupyChainID (chainID : string) : prog () :=
  ids ← GetObject (A := OrderedMap) ctx ChainOccupyIdPrefix;
  SetObject ctx ChainOccupyIdPrefix (om_Set (default om_New ids) chainID).
Definition freeChainID (chainID : string) : prog () :=
  ids ← GetObject (A := OrderedMap) ctx ChainOccupyIdPrefix;
  SetObject ctx ChainOccupyIdPrefix (om_Delete (default om_New ids) chainID).
Definition isOccupiedId (chainID : string) : prog bool :=
  ids ← GetObject (A := OrderedMap) ctx ChainOccupyIdPrefix;
  mret match ids with None => false | Some ids => bool_decide (chainID ∈ om_Keys ids) end.

Definition occupyChainName (name chainID : string) : prog () := SetObject ctx (AppchainOccupyNameKey name) chainID.
Definition freeChainName (name : string) : prog () := Delete ctx (AppchainOccupyNameKey name).
Definition chain_isOccupiedName (name : string) : prog (option string) :=
  GetObject (A := string) ctx (AppchainOccupyNameKey name).

Definition registerRelayChain (chainID : string) : prog () :=
  ids ← GetObject (A := OrderedMap) ctx RelaychainType;
  SetObject ctx RelaychainType (om_Set (default om_New ids) chainID).

Definition recordChainAdmins (chainID : string) (addrs : list string) : prog () :=
  _ ← SetObject ctx (AppAdminsChainKey chainID) addrs;
  prog_iter (λ addr, SetObject ctx (AppchainAdminKey addr) chainID) addrs.

(** [None] is the error. *)
Definition postAuditAppchainEvent (appchainID : string) : prog (option ()) :=
  data ← Get ctx (AppchainKey appchainID);
  match data with
  | None => mret None
  | Some chainData => _ ← postEvent ctx Event_AUDIT_APPCHAIN (MkAudit chainData [appchainID] []); mret (Some tt)
  end.

Definition chain_audited (appchainID : string) (res : Response) : prog Response :=
  if ctx_EnableAudit ctx
  then ok ← postAuditAppchainEvent appchainID; mret match ok with Some _ => res | None => chainErr end
  else mret res.

(** *** Calls of other contracts *)

Definition services (method : Context → string → prog Response) (chainID : string) : prog Response :=
  CrossInvoke ctx ServiceMgrContractAddr (λ sctx, method sctx chainID).

Definition freeAccounts (addrs : string) : prog Response := CrossInvoke ctx RoleContractAddr (λ rctx, FreeAccount rctx addrs).
Definition occupyAccounts (addrs : string) : prog Response :=
  CrossInvoke ctx RoleContractAddr (λ rctx, OccupyAccount rctx addrs AppchainAdmin).
Definition updateAdmins (chainID addrs : string) : prog Response :=
  CrossInvoke ctx RoleContractAddr (λ rctx, UpdateAppchainAdmin rctx chainID addrs).

(** An error of another contract, which is the answer. *)
Definition failure (res : Response) : option Response := if resp_Ok res then None else Some res.
Definition failureAs (err res : Response) : option Response := if resp_Ok res then None else Some err.

(** *** Results of proposals; [None]: carry on *)

Definition manageRegisterApprove (registerInfoData : option string) : prog (option Response) :=
  match registerInfoData ≫= unmarshal with None => mret (Some chainErr) | Some registerInfo =>
  let id := ac_ID (ra_ChainInfo registerInfo) in
  _ ← am_Register ctx (ra_ChainInfo registerInfo);
  _ ← recordChainAdmins id (str_split comma (ra_AdminAddrs registerInfo));
  _ ← (if am_IsBitXHub (ra_ChainInfo registerInfo) then registerRelayChain id else mret tt);
  res ← updateAdmins id (ra_AdminAddrs registerInfo);
  if negb (resp_Ok res) then mret (Some chainErr)
  else
  res ← CrossInvoke ctx RuleManagerContractAddr
          (λ rctx, RegisterRuleFirst rctx id (ac_ChainType (ra_ChainInfo registerInfo))
                     (ru_Address (ra_MasterRule registerInfo)) (ru_RuleUrl (ra_MasterRule registerInfo)));
  mret (failureAs chainErr res)
  end.

Definition manageRegisterReject (registerInfoData : option string) : prog (option Response) :=
  match registerInfoData ≫= unmarshal with None => mret (Some chainErr) | Some registerInfo =>
  _ ← freeChainID (ac_ID (ra_ChainInfo registerInfo));
  _ ← freeChainName (ac_ChainName (ra_ChainInfo registerInfo));
  res ← freeAccounts (ra_AdminAddrs registerInfo);
  mret (failureAs chainErr res)
  end.

(** The administrators of a chain are replaced. *)
Definition replaceAdmins (appchainId old new : string) : prog (option Response) :=
  res ← freeAccounts old;
  if negb (resp_Ok res) then mret (Some chainErr)
  else
  _ ← recordChainAdmins appchainId (str_split comma new);
  res ← updateAdmins appchainId new;
  mret (failureAs chainErr res).

Definition manageUpdateApprove (appchainId : string) (updateInfoData : option string) : prog (option Response) :=
  match updateInfoData ≫= unmarshal with None => mret (Some chainErr) | Some updateInfo =>
  ok ← am_Update ctx (MkAppchain appchainId (ui_NewInfo (ua_Name updateInfo)) EmptyString
         (Some (default EmptyString (ub_NewInfo (ua_TrustRoot updateInfo)))) None (ui_NewInfo (ua_Desc updateInfo)) 0 EmptyString EmptyString None);
  if negb ok then mret (Some chainErr)
  else
  _ ← (if ui_IsEdit (ua_Name updateInfo) then freeChainName (ui_OldInfo (ua_Name updateInfo)) else mret tt);
  failed ← (if ui_IsEdit (ua_AdminAddrs updateInfo)
            then replaceAdmins appchainId (ui_OldInfo (ua_AdminAddrs updateInfo)) (ui_NewInfo (ua_AdminAddrs updateInfo))
            else mret None);
  match failed with Some res => mret (Some res) | None =>
  res ← services (UnPauseChainService Manage) appchainId;
  mret (failureAs chainErr res)
  end end.

Definition manageUpdateReject (updateInfoData : option string) : prog (option Response) :=
  match updateInfoData ≫= unmarshal with None => mret (Some chainErr) | Some updateInfo =>
  _ ← (if ui_IsEdit (ua_Name updateInfo) then freeChainName (ui_NewInfo (ua_Name updateInfo)) else mret tt);
  if ui_IsEdit (ua_AdminAddrs updateInfo)
  then res ← freeAccounts (ui_NewInfo (ua_AdminAddrs updateInfo)); mret (failureAs chainErr res)
  else mret None
  end.

Definition chain_approve (eventTyp objId : string) (extra : option string) : prog (option Response) :=
  if decide (eventTyp = EventRegister) then manageRegisterApprove extra
  else if decide (eventTyp = EventUpdate) then manageUpdateApprove objId extra
  else if decide (eventTyp = EventFreeze) then res ← services PauseChainService objId; mret (failure res)
  else if decide (eventTyp = EventActivate) then res ← services (UnPauseChainService Manage) objId; mret (failure res)
  else if decide (eventTyp = EventLogout)
  then
    res ← services ClearChainService objId;
    if negb (resp_Ok res) then mret (Some res)
    else res ← CrossInvoke ctx RuleManagerContractAddr (λ rctx, ClearRule rctx objId); mret (failure res)
  else mret None.

Definition chain_reject (eventTyp objId : string) (extra : option string) : prog (option Response) :=
  if decide (eventTyp = EventRegister) then manageRegisterReject extra
  else if decide (eventTyp = EventUpdate) then manageUpdateReject extra
  else if decide (eventTyp = EventLogout) then res ← services (UnPauseChainService Manage) objId; mret (failure res)
  else mret None.

Definition chain_Manage (eventTyp proposalResult lastStatus objId : string) (extra : option string) : prog Response :=
  denied ← chain_onlyFrom objId [GovernanceContractAddr];
  match denied with Some res => mret res | None =>
  ok ← (if decide (eventTyp = EventRegister) then mret true
        else rg_ChangeStatus (O := Appchain) ctx objId proposalResult lastStatus None);
  if negb ok then mret chainErr
  else
  failed ← (if decide (proposalResult = APPROVED) then chain_approve eventTyp objId extra else chain_reject eventTyp objId extra);
  match failed with Some res => mret res | None =>
  if decide (eventTyp = EventRegister ∧ proposalResult = REJECTED) then mret (Success None)
  else chain_audited objId (Success None)
  end end.

(** *** Opening proposals *)

(** An address of an administrator; [None]: it may be used. *)
Definition checkAdminAddr (addr : string) : prog (option Response) :=
  if negb (HexDecodeString addr) then mret (Some (Error "AppchainIllegalAdminAddrCode" [addr]))
  else
    res ← CrossInvoke ctx RoleContractAddr (λ rctx, CheckOccupiedAccount rctx addr);
    mret (failureAs (Error "AppchainDuplicateAdminCode" [addr]) res).

Definition brokerBad (chainType broker : string) : option Response :=
  if decide (broker = EmptyString) then Some (Error "AppchainNilBrokerCode" [])
  else if str_Contains (str_ToLower chainType) FabricType
  then
    match unmarshal broker with
    | None => Some (Error "AppchainIllegalFabricBrokerCode" [broker])
    | Some b =>
        if decide (fb_BrokerVersion b = EmptyString ∨ fb_ChaincodeID b = EmptyString ∨ fb_ChannelID b = EmptyString)
        then Some (Error "AppchainIllegalFabricBrokerCode" [broker]) else None
    end
  else None.

(** The checks of a registration; [None]: all is well. *)
Definition checkRegister (chainID chainName chainType broker masterRuleAddr masterRuleUrl adminAddrs : string) :
    prog (option Response) :=
  if decide (chainID = EmptyString) then mret (Some (Error "AppchainEmptyChainIDCode" []))
  else
  taken ← isOccupiedId chainID;
  if (taken : bool) then mret (Some (Error "AppchainDuplicateChainIDCode" [chainID]))
  else
  match brokerBad chainType broker with Some res => mret (Some res) | None =>
  if decide (chainName = EmptyString) then mret (Some (Error "AppchainEmptyChainNameCode" []))
  else
  taken ← chain_isOccupiedName chainName;
  match taken with Some id => mret (Some (Error "AppchainDuplicateChainNameCode" [chainName; id])) | None =>
  if negb (str_Contains adminAddrs (ctx_Caller ctx)) then mret (Some (Error "AppchainIncompleteAdminListCode" [ctx_Caller ctx]))
  else
  bad ← prog_find checkAdminAddr (str_split comma adminAddrs);
  match bad with Some res => mret (Some res) | None =>
  checked ← CheckRuleAddress masterRuleAddr chainType;
  if negb (resp_Ok checked) then mret (Some checked)
  else if negb (IsDefault masterRuleAddr chainType) && bool_decide (str_Trim masterRuleUrl = EmptyString)
  then mret (Some (Error "AppchainEmptyRuleUrlCode" []))
  else mret None
  end end end.

Definition RegisterAppchain (chainID chainName : string) (pubKey : option string) (chainType : string) (trustRoot : option string)
    (broker desc masterRuleAddr masterRuleUrl adminAddrs reason : string) : prog Response :=
  bad ← checkRegister chainID chainName chainType broker masterRuleAddr masterRuleUrl adminAddrs;
  match bad with Some res => mret res | None =>
  _ ← occupyChainID chainID;
  _ ← occupyChainName chainName chainID;
  res ← occupyAccounts adminAddrs;
  if negb (resp_Ok res) then mret chainErr
  else
  let registerInfo := MkRegisterAppchain
    (MkAppchain chainID chainName chainType trustRoot (Some broker) desc 0 GovernanceAvailable
       ("did:bitxhub:" +:+ chainID +:+ ":.") pubKey)
    (MkRule masterRuleAddr masterRuleUrl EmptyString true false 0 GovernanceAvailable) adminAddrs in
  match marshal registerInfo with None => mret chainErr | Some registerInfoData =>
  res ← submit ctx EventRegister AppchainMgr chainID EmptyString reason (Some registerInfoData);
  match res with Error _ _ => mret chainErr | Success pid =>
  let pid := default EmptyString pid in
  _ ← zeroPermission Manage ctx pid;
  mret (getGovernanceRet pid None)
  end end end.

(** What is to change: the name, the administrators, the trust root, the old and the new administrators. *)
Definition checkInfo (chainInfo : Appchain) (name adminAddrs id : string) (trustRoot : option string) :
    prog (bool * bool * bool * list string * list string + Response) :=
  if decide (name = EmptyString) then mret (inr (Error "AppchainEmptyChainNameCode" []))
  else
  taken ← (if decide (name = ac_ChainName chainInfo) then mret None else chain_isOccupiedName name);
  match taken with Some chainID => mret (inr (Error "AppchainDuplicateChainNameCode" [name; chainID])) | None =>
  if negb (str_Contains adminAddrs (ctx_Caller ctx)) then mret (inr (Error "AppchainIncompleteAdminListCode" [ctx_Caller ctx]))
  else
  oldAdminList ← getAdminAddrByChainId ctx id;
  let oldAdminMap := strset_of oldAdminList in
  let newAdminList := str_split comma adminAddrs in
  let newAdminMap := strset_of newAdminList in
  let updateAdmin := bool_decide (length oldAdminList ≠ size newAdminMap) ||
                     existsb (λ a, bool_decide (newAdminMap !! a = None)) oldAdminList in
  bad ← (if updateAdmin
         then prog_find checkAdminAddr (filter (λ a, oldAdminMap !! a = None) (go_keys newAdminMap))
         else mret None);
  match bad with Some res => mret (inr res) | None =>
  mret (inl (bool_decide (name ≠ ac_ChainName chainInfo), updateAdmin, negb (bytes_Equal trustRoot (ac_TrustRoot chainInfo)),
             oldAdminList, newAdminList))
  end end.

(** The master rule of the chain has to be available; [None]: it is. *)
Definition ruleReady (id event : string) : prog (option Response) :=
  res ← CrossInvoke ctx RuleManagerContractAddr (λ rctx, GetMasterRule rctx id);
  mret match res with
       | Error _ _ => Some chainErr
       | Success data =>
           match data ≫= unmarshal with
           | None => Some chainErr
           | Some rule =>
               if decide (ru_Status rule = GovernanceAvailable) then None
               else Some (Error "AppchainRuleUpdatingCode" [ru_Address rule; event; id])
           end
       end.

Definition submitProposal (updateAppchainInfo : UpdateAppchainInfo) (chainInfo : Appchain) (event id reason : string) : prog Response :=
  match marshal updateAppchainInfo with None => mret chainErr | Some data =>
  res ← submit ctx event AppchainMgr id (ac_Status chainInfo) reason (Some data);
  mret (if resp_Ok res then res else chainErr)
  end.

Definition resp_text (res : Response) : string :=
  match res with Success data => default EmptyString data | Error _ _ => EmptyString end.

Definition UpdateAppchain (id name desc : string) (trustRoot : option string) (adminAddrs reason : string) : prog Response :=
  ok ← appchain_checkPermission [PermissionSelf] id (ctx_CurrentCaller ctx) None;
  if negb ok then mret (noPermission ctx "AppchainNoPermissionCode")
  else
  pre ← rg_GovernancePre (O := Appchain) ctx id EventUpdate None;
  match pre with inr be => mret (Error (be_Code be) (be_Args be)) | inl None => Panic | inl (Some chainInfo) =>
  info ← checkInfo chainInfo name adminAddrs id trustRoot;
  match info with inr res => mret res | inl (updateName, updateAdmin, updateTrustRoot, oldAdminList, newAdminList) =>
  if negb updateName && negb updateAdmin && negb updateTrustRoot
  then
    ok ← am_Update ctx (MkAppchain id name EmptyString trustRoot None desc 0 EmptyString EmptyString None);
    if negb ok then mret chainErr else chain_audited id (getGovernanceRet EmptyString None)
  else
  bad ← ruleReady id EventUpdate;
  match bad with Some res => mret res | None =>
  _ ← (if updateName : bool then occupyChainName name id else mret tt);
  occupied ← (if updateAdmin : bool then occupyAccounts adminAddrs else mret (Success None));
  if negb (resp_Ok occupied) then mret chainErr
  else
  res ← submitProposal
          (MkUpdateAppchain (MkUpdateInfo (ac_ChainName chainInfo) name updateName)
             (MkUpdateInfo (ac_Desc chainInfo) desc (negb (bool_decide (desc = ac_Desc chainInfo))))
             (MkUpdateBytes (ac_TrustRoot chainInfo) trustRoot updateTrustRoot)
             (MkUpdateInfo (str_join comma oldAdminList) (str_join comma newAdminList) updateAdmin))
          chainInfo EventUpdate id reason;
  if negb (resp_Ok res) then mret res
  else
  ok ← rg_ChangeStatus (O := Appchain) ctx id EventUpdate (ac_Status chainInfo) None;
  if negb ok then mret chainErr
  else
  paused ← services PauseChainService id;
  if negb (resp_Ok paused) then mret paused
  else
  _ ← zeroPermission Manage ctx (resp_text res);
  chain_audited id (getGovernanceRet (resp_text res) None)
  end end end.

Definition chain_basicGovernance (id reason : string) (permissions : list string) (event : string) : prog Response :=
  ok ← appchain_checkPermission permissions id (ctx_CurrentCaller ctx) None;
  if negb ok then mret (noPermission ctx "AppchainNoPermissionCode")
  else
  pre ← rg_GovernancePre (O := Appchain) ctx id event None;
  match pre with inr be => mret (Error (be_Code be) (be_Args be)) | inl None => Panic | inl (Some chainInfo) =>
  res ← submit ctx event AppchainMgr id (ac_Status chainInfo) reason None;
  match res with Error _ _ => mret chainErr | Success pid =>
  ok ← rg_ChangeStatus (O := Appchain) ctx id event (ac_Status chainInfo) None;
  if negb ok then mret chainErr
  else chain_audited id (getGovernanceRet (default EmptyString pid) None)
  end end.

(** The proposal in the answer is carried out if it needs no vote. *)
Definition chain_finish (res : Response) : prog Response :=
  match (match res with Success data => data ≫= unmarshal | Error _ _ => None end) with
  | None => mret chainErr
  | Some gr => _ ← zeroPermission Manage ctx (gr_ProposalID gr); mret res
  end.

Definition FreezeAppchain (id reason : string) : prog Response :=
  res ← chain_basicGovernance id reason [PermissionAdmin] EventFreeze;
  if negb (resp_Ok res) then mret res else chain_finish res.

Definition ActivateAppchain (id reason : string) : prog Response :=
  bad ← ruleReady id EventActivate;
  match bad with Some res => mret res | None =>
  res ← chain_basicGovernance id reason [PermissionSelf; PermissionAdmin] EventActivate;
  if negb (resp_Ok res) then mret res else chain_finish res
  end.

Definition LogoutAppchain (id reason : string) : prog Response :=
  governanceRes ← chain_basicGovernance id reason [PermissionSelf] EventLogout;
  if negb (resp_Ok governanceRes) then mret governanceRes
  else
  paused ← services PauseChainService id;
  if negb (resp_Ok paused) then mret paused else chain_finish governanceRes.

(** *** Pausing by the rule contract *)

Definition PauseAppchain (id : string) : prog Response :=
  denied ← chain_onlyFrom id [RuleManagerContractAddr];
  match denied with Some res => mret res | None =>
  pre ← rg_GovernancePre (O := Appchain) ctx id EventPause None;
  match pre with inr be => mret (Error (be_Code be) (be_Args be)) | inl None => Panic | inl (Some chainInfo) =>
  failed ← (if decide (ac_Status chainInfo = GovernanceAvailable)
            then
              ok ← rg_ChangeStatus (O := Appchain) ctx id EventPause (ac_Status chainInfo) None;
              if negb ok then mret (Some chainErr)
              else res ← services PauseChainService id; mret (failure res)
            else mret None);
  match failed with Some res => mret res | None =>
  match marshal chainInfo with
  | None => mret chainErr
  | Some chainData => chain_audited id (Success (Some chainData))
  end end end end.

Definition UnPauseAppchain (id lastStatus : string) : prog Response :=
  denied ← chain_onlyFrom id [RuleManagerContractAddr];
  match denied with Some res => mret res | None =>
  pre ← rg_GovernancePre (O := Appchain) ctx id EventUnpause None;
  match pre with inr be => mret (Error (be_Code be) (be_Args be)) | inl _ =>
  failed ← (if decide (GovernanceFrozen = lastStatus) then mret None
            else
              ok ← rg_ChangeStatus (O := Appchain) ctx id EventUnpause lastStatus None;
              if negb ok then mret (Some chainErr)
              else if decide (GovernanceAvailable = lastStatus)
              then res ← services (UnPauseChainService Manage) id; mret (failure res)
              else mret None);
  match failed with Some res => mret res | None => chain_audited id (Success None) end
  end end.
End contract.
