(* ===== verification/RuleManager.v ===== *)
(** * The master rule of a chain: [src/internal/executor/contracts/rule_manager.go]

The master rule is changed by a proposal: while it is open the chain is paused, and its approval releases
the chain. *)
From Stdlib Require Import Ascii.
From S2P Require Import Prelude Storage Account StateLedger Contract TransactionManager Interchain Role Governance Strategy RoleManager.
From S2P Require Import Registry Dapp Appchain Service Rule AppchainManager.

Record UpdateMasterRuleInfo := MkUpdateMaster { um_OldRule : Rule; um_NewRule : Rule; um_AppchainInfo : Appchain }.

Class RuleJsonLib := {
  update_master_codec :: JsonCodec UpdateMasterRuleInfo
    (λ u, Rule_text (um_OldRule u) ++ Rule_text (um_NewRule u) ++ Appchain_text (um_AppchainInfo u))
}.

Section contract.
Context `{GovernanceLib, GovJsonLib, ProposalJsonLib, StrategyJsonLib, EvalLib, FsmLib, ConstantLib, !GovAddrLib, GoRange, !RoleLib}.
Context `{!AppchainPkg, !RulePkg, !ServicePkg, HashLib, !BindLib, AppchainJsonLib, RuleJsonLib}.

Context (Manage : string → string → string → string → string → option string → Context → prog Response).
Context (ctx : Context).

Definition rule_Manage (eventTyp proposalResult lastStatus chainRuleID : string) (extra : option string) : prog Response :=
  denied ← rule_onlyFrom ctx EmptyString [GovernanceContractAddr];
  match denied with Some res => mret res | None =>
  failed ← (if decide (eventTyp = EventUpdate)
            then
              match extra ≫= unmarshal with None => mret (Some ruleErr) | Some info =>
              ok ← rg_ChangeStatus (O := Rule) ctx (ru_Address (um_OldRule info)) proposalResult (ru_Status (um_OldRule info))
                     (Some (ru_ChainID (um_OldRule info)));
              if negb ok then mret (Some ruleErr)
              else
              ok ← rg_ChangeStatus (O := Rule) ctx (ru_Address (um_NewRule info)) proposalResult lastStatus
                     (Some (ru_ChainID (um_NewRule info)));
              if negb ok then mret (Some ruleErr)
              else if decide (proposalResult = APPROVED)
              then
                res ← CrossInvoke ctx AppchainMgrContractAddr
                        (λ actx, UnPauseAppchain Manage actx (ac_ID (um_AppchainInfo info)) (ac_Status (um_AppchainInfo info)));
                mret (failureAs ruleErr res)
              else mret None
              end
            else mret None);
  match failed with Some res => mret res | None => rule_audited ctx (chainOf chainRuleID) (Success None) end
  end.

Definition UpdateMasterRule (chainID newMasterRuleAddress reason : string) : prog Response :=
  ok ← chain_checkPermission ctx [PermissionSelf] chainID (ctx_CurrentCaller ctx) None;
  if negb ok then mret (noPermission ctx "RuleNoPermissionCode")
  else
  chain ← ruleChain ctx chainID;
  match chain with inr res => mret res | inl appchainInfo =>
  if decide (ac_Status appchainInfo ∉ [GovernanceAvailable; GovernanceFrozen])
  then mret (Error "RuleAppchainStatusErrorCode" [ac_ID appchainInfo; ac_Status appchainInfo])
  else
  checked ← CheckRuleAddress newMasterRuleAddress (ac_ChainType appchainInfo);
  if negb (resp_Ok checked) then mret checked
  else
  pre ← rg_GovernancePre (O := Rule) ctx newMasterRuleAddress EventUpdate (Some chainID);
  match pre with inr be => mret (Error (be_Code be) (be_Args be)) | inl None => Panic | inl (Some newRule) =>
  paused ← CrossInvoke ctx AppchainMgrContractAddr (λ actx, PauseAppchain actx chainID);
  if negb (resp_Ok paused) then mret ruleErr
  else
  masterRule ← rm_GetMaster ctx chainID;
  match masterRule with None => mret ruleErr | Some masterRule =>
  match marshal (MkUpdateMaster masterRule newRule appchainInfo) with None => mret ruleErr | Some infoData =>
  res ← submit ctx EventUpdate RuleMgr (ru_GetChainRuleID newRule) (ru_Status newRule) reason (Some infoData);
  match res with Error _ _ => mret ruleErr | Success pid =>
  let pid := default EmptyString pid in
  ok ← rg_ChangeStatus (O := Rule) ctx (ru_Address newRule) EventUpdate (ru_Status newRule) (Some chainID);
  if negb ok then mret ruleErr
  else
  ok ← rg_ChangeStatus (O := Rule) ctx (ru_Address masterRule) EventUnbind (ru_Status masterRule) (Some chainID);
  if negb ok then mret ruleErr
  else
  _ ← zeroPermission Manage ctx pid;
  rule_audited ctx chainID (getGovernanceRet pid None)
  end end end end end.
End contract.
