(* ===== verification/NodeManager.v ===== *)
(** * Nodes: [src/internal/executor/contracts/node_manager.go]

Registration, change and logout of nodes by proposals, and the results of these proposals. Nodes for
audit ([NVPNode]) have a name and an administrator, validating nodes ([VPNode]) a peer id and a number; only
one validating node at a time is registered or logged out. The data and the binding are in [Nodes.v]. *)
From Stdlib Require Import Ascii.
From S2P Require Import Prelude Storage Account StateLedger Contract TransactionManager Interchain Transactions Role Governance Strategy.
From S2P Require Import Registry Nodes RoleManager Appchain.

Definition MinimumVPNode : Z := 4.

(** [NodeAccount] of [role.go]: the kind of account that nodes occupy. *)
Definition NodeAccount : string := "nodeAccount".

Section contract.
Context `{GovernanceLib, GovJsonLib, ProposalJsonLib, StrategyJsonLib, EvalLib, FsmLib, ConstantLib, !GovAddrLib, GoRange, !RoleLib, !NodePkg, QueryLib}.
Context `{!AppchainPkg}.

Context (Manage : string → string → string → string → string → option string → Context → prog Response).
Context (ctx : Context).

(** *** Names and peer ids that are taken *)

Definition occupyNodeName (name nodeAccount : string) : prog () := SetObject ctx (NodeOccupyNameKey name) nodeAccount.
Definition freeNodeName (name : string) : prog () := Delete ctx (NodeOccupyNameKey name).
Definition node_isOccupiedName (name : string) : prog (option string) := GetObject (A := string) ctx (NodeOccupyNameKey name).
Definition occupyNodePid (pid nodeAccount : string) : prog () := SetObject ctx (NodeOccupyPidKey pid) nodeAccount.
Definition freeNodePid (pid : string) : prog () := Delete ctx (NodeOccupyPidKey pid).
Definition isOccupiedPid (pid : string) : prog (option string) := GetObject (A := string) ctx (NodeOccupyPidKey pid).

Definition hasVpNodeGoverned : prog bool :=
  nodes ← rg_All (O := Node) ctx None;
  mret match nodes with
       | None => false
       | Some nodes =>
           existsb (λ node, bool_decide (nd_NodeType node ≠ NVPNode ∧
                              (nd_Status node = GovernanceRegisting ∨ nd_Status node = GovernanceLogouting))) nodes
       end.

(** *** Checks *)

(** [None]: the chain of a permission exists. *)
Definition checkNodePermission (p : string) : prog (option Response) :=
  res ← CrossInvoke ctx AppchainMgrContractAddr (λ actx, GetAppchain actx p);
  mret (if resp_Ok res then None else Some (Error "NodeIllegalPermissionCode" [p])).

Definition checkNodeInfo (node : Node) (isRegister : bool) : prog Response :=
  if negb (HexDecodeString (nd_Account node)) then mret (Error "NodeIllegalAccountCode" [nd_Account node])
  else
  free ← (if isRegister then CrossInvoke ctx RoleContractAddr (λ rctx, CheckOccupiedAccount rctx (nd_Account node))
          else mret (Success None));
  if negb (resp_Ok free) then mret (Error "NodeDuplicateAccountCode" [nd_Account node])
  else if decide (nd_NodeType node = VPNode)
  then
    nextVpID ← getNextVpID ctx;
    match nextVpID with None => mret nodeErr | Some nextVpID =>
    if decide (i64 (nd_VPNodeId node) < nextVpID)%Z
    then mret (Error "NodeIllegalVpIdCode" [fmt_d (nd_VPNodeId node); fmt_d nextVpID])
    else if decide (nd_Pid node = EmptyString) then mret (Error "NodeEmptyPidCode" [])
    else
    taken ← isOccupiedPid (nd_Pid node);
    mret match taken with
         | Some nodeAccount => Error "NodeDuplicatePidCode" [nd_Pid node; nodeAccount]
         | None => Success None
         end
    end
  else if decide (nd_NodeType node = NVPNode)
  then
    if decide (nd_Name node = EmptyString) then mret (Error "NodeEmptyNameCode" [])
    else
    taken ← node_isOccupiedName (nd_Name node);
    match (match taken with
           | Some nodeAccount =>
               if isRegister || bool_decide (nodeAccount ≠ nd_Account node)
               then Some (Error "NodeDuplicateNameCode" [nd_Name node; nodeAccount]) else None
           | None => None
           end) with
    | Some res => mret res
    | None =>
        if decide (size (nd_Permissions node) = 0) then mret (Error "NodeEmptyPermissionCode" [])
        else bad ← prog_find checkNodePermission (go_keys (nd_Permissions node)); mret (default (Success None) bad)
    end
  else mret (Error "NodeIllegalNodeTypeCode" [nd_NodeType node]).

(** *** Results of proposals *)

Definition postNodeEvent (nodeInfo : Node) (eventTyp : string) : prog () :=
  postEvent ctx Event_NODEMGR (MkNodeEvent (nd_VPNodeId nodeInfo) eventTyp).

(** A node whose administrator is not available is released. *)
Definition unbindIfUnavailable (nodeInfo : Node) : prog Response :=
  if decide (nd_NodeType nodeInfo = NVPNode ∧ nd_AuditAdminAddr nodeInfo ≠ EmptyString)
  then
    res ← CrossInvoke ctx RoleContractAddr (λ rctx, IsAnyAvailableAdmin rctx (nd_AuditAdminAddr nodeInfo) AuditAdmin);
    match res with Error _ _ => mret nodeErr | Success data =>
    if decide (data = Some (FormatBool false))
    then res ← unbindNode ctx (nd_Account nodeInfo); mret (if resp_Ok res then Success None else res)
    else mret (Success None)
    end
  else mret (Success None).

Definition processApproveProposal (eventTyp : string) (nodeInfo : Node) (objId : string) (extra : option string) : prog Response :=
  if decide (eventTyp = EventRegister)
  then
    _ ← nm_Register ctx nodeInfo;
    _ ← (if decide (nd_NodeType nodeInfo = VPNode) then postNodeEvent nodeInfo eventTyp else mret tt);
    mret (Success None)
  else if decide (eventTyp = EventUpdate)
  then
    match extra ≫= unmarshal with None => mret nodeErr | Some updateInfo =>
    ok ← nm_Update ctx (MkNode objId EmptyString EmptyString 0 false (ui_NewInfo (un_NodeName updateInfo))
           (um_NewInfo (un_Permission updateInfo)) EmptyString EmptyString);
    if negb ok then mret nodeErr
    else
    _ ← (if ui_IsEdit (un_NodeName updateInfo) then freeNodeName (ui_OldInfo (un_NodeName updateInfo)) else mret tt);
    unbindIfUnavailable nodeInfo
    end
  else if decide (eventTyp = EventLogout)
  then
    if decide (nd_NodeType nodeInfo = VPNode) then _ ← postNodeEvent nodeInfo eventTyp; mret (Success None)
    else if decide (nd_NodeType nodeInfo = NVPNode)
    then _ ← CrossInvoke ctx RoleContractAddr (λ rctx, PauseAuditAdmin rctx objId); mret (Success None)
    else mret (Success None)
  else mret (Success None).

(** The proposal to log an audit node out was rejected. *)
Definition rejectLogout (nodeInfo : Node) : prog Response :=
  if decide (nd_NodeType nodeInfo = NVPNode ∧ nd_AuditAdminAddr nodeInfo ≠ EmptyString)
  then
    res ← CrossInvoke ctx RoleContractAddr (λ rctx, GetRoleInfoById rctx (nd_AuditAdminAddr nodeInfo));
    match res with Error _ _ => mret nodeErr | Success data =>
    match data ≫= unmarshal with None => mret nodeErr | Some role =>
    if decide (rl_Status role = GovernanceForbidden)
    then res ← unbindNode ctx (nd_Account nodeInfo); mret (if resp_Ok res then Success None else res)
    else if decide (rl_Status role = GovernanceBinding ∨ rl_Status role = GovernanceRegisting)
    then
      res ← CrossInvoke ctx RoleContractAddr (λ rctx, RestoreAuditAdminBinding Manage rctx (nd_Account nodeInfo));
      mret (if resp_Ok res then Success None else nodeErr)
    else mret (Success None)
    end end
  else mret (Success None).

Definition processRejectProposal (eventTyp : string) (nodeInfo : Node) (extra : option string) : prog Response :=
  if decide (eventTyp = EventRegister)
  then
    res ← CrossInvoke ctx RoleContractAddr (λ rctx, FreeAccount rctx (nd_Account nodeInfo));
    if negb (resp_Ok res) then mret nodeErr
    else
    _ ← (if decide (nd_NodeType nodeInfo = VPNode) then freeNodePid (nd_Pid nodeInfo)
         else if decide (nd_NodeType nodeInfo = NVPNode) then freeNodeName (nd_Name nodeInfo) else mret tt);
    mret (Success None)
  else if decide (eventTyp = EventUpdate)
  then
    match extra ≫= unmarshal with None => mret nodeErr | Some updateInfo =>
    _ ← (if ui_IsEdit (un_NodeName updateInfo) then freeNodeName (ui_NewInfo (un_NodeName updateInfo)) else mret tt);
    unbindIfUnavailable nodeInfo
    end
  else if decide (eventTyp = EventLogout) then rejectLogout nodeInfo
  else mret (Success None).

Definition node_Manage (eventTyp proposalResult lastStatus objId : string) (extra : option string) : prog Response :=
  denied ← node_onlyFrom ctx objId [GovernanceContractAddr];
  match denied with Some res => mret res | None =>
  ok ← rg_ChangeStatus (O := Node) ctx objId proposalResult lastStatus None;
  if negb ok then mret nodeErr
  else
  node ← rg_QueryById (O := Node) ctx objId None;
  match node with None => mret nodeErr | Some nodeInfo =>
  res ← (if decide (proposalResult = APPROVED) then processApproveProposal eventTyp nodeInfo objId extra
         else processRejectProposal eventTyp nodeInfo extra);
  if negb (resp_Ok res) then mret res else node_audited ctx objId (Success None)
  end end.

(** *** Opening proposals *)

Definition RegisterNode (nodeAccount nodeType nodePid : string) (nodeVpId : Z) (nodeName permitStr reason : string) : prog Response :=
  ok ← node_checkPermission ctx [PermissionAdmin] nodeAccount (ctx_CurrentCaller ctx) None;
  if negb ok then mret (noPermission ctx "NodeNoPermissionCode")
  else
  governed ← (if decide (nodeType = VPNode) then hasVpNodeGoverned else mret false);
  if (governed : bool) then mret (Error "NodeVPBeingGovernedCode" [])
  else
  let node := MkNode nodeAccount nodeType nodePid (if decide (nodeType = NVPNode) then 0 else nodeVpId) false nodeName
                (strset_split permitStr) EmptyString GovernanceUnavailable in
  checked ← checkNodeInfo node true;
  if negb (resp_Ok checked) then mret checked
  else
  pre ← rg_GovernancePre (O := Node) ctx nodeAccount EventRegister None;
  match pre with inr be => mret (Error (be_Code be) (be_Args be)) | inl _ =>
  occupied ← CrossInvoke ctx RoleContractAddr (λ rctx, OccupyAccount rctx nodeAccount NodeAccount);
  if negb (resp_Ok occupied) then mret nodeErr
  else
  _ ← (if decide (nodeType = VPNode) then occupyNodePid nodePid nodeAccount
       else if decide (nodeType = NVPNode) then occupyNodeName nodeName nodeAccount else mret tt);
  res ← submit ctx EventRegister NodeMgr nodeAccount (nd_Status node) reason None;
  match res with Error _ _ => mret nodeErr | Success pid =>
  let pid := default EmptyString pid in
  _ ← nm_RegisterPre ctx (with_nd_Status node GovernanceRegisting);
  _ ← zeroPermission Manage ctx pid;
  node_audited ctx nodeAccount (getGovernanceRet pid (Some nodeAccount))
  end end.

(** Whether a validating node may be logged out; [None]: it may. *)
Definition checkLogoutVP (node : Node) : prog (option Response) :=
  governed ← hasVpNodeGoverned;
  if (governed : bool) then mret (Some (Error "NodeVPBeingGovernedCode" []))
  else if nd_Primary node then mret (Some (Error "NodeLogoutPrimaryNodeCode" [nd_Account node]))
  else
  '(ok, data) ← rg_CountAvailable (O := Node) ctx (Some VPNode);
  if negb ok then mret (Some nodeErr)
  else
  match Atoi (default EmptyString data) with
  | None => mret (Some nodeErr)
  | Some vpNum =>
      if decide (vpNum ≤ MinimumVPNode)%Z then mret (Some (Error "NodeLogoutTooFewNodeCode" [default EmptyString data]))
      else mret None
  end.

Definition LogoutNode (nodeAccount reason : string) : prog Response :=
  ok ← node_checkPermission ctx [PermissionAdmin] nodeAccount (ctx_CurrentCaller ctx) None;
  if negb ok then mret (noPermission ctx "NodeNoPermissionCode")
  else
  pre ← rg_GovernancePre (O := Node) ctx nodeAccount EventLogout None;
  match pre with inr be => mret (Error (be_Code be) (be_Args be)) | inl None => Panic | inl (Some node) =>
  bad ← (if decide (nd_NodeType node = VPNode) then checkLogoutVP node else mret None);
  match bad with Some res => mret res | None =>
  res ← submit ctx EventLogout NodeMgr (nd_Account node) (nd_Status node) reason None;
  match res with Error _ _ => mret nodeErr | Success pid =>
  let pid := default EmptyString pid in
  ok ← rg_ChangeStatus (O := Node) ctx nodeAccount EventLogout (nd_Status node) None;
  if negb ok then mret nodeErr
  else
  paused ← (if decide (nd_Status node = GovernanceBinding)
            then CrossInvoke ctx RoleContractAddr (λ rctx, PauseAuditAdminBinding rctx nodeAccount) else mret (Success None));
  if negb (resp_Ok paused) then mret nodeErr
  else
  _ ← zeroPermission Manage ctx pid;
  node_audited ctx nodeAccount (getGovernanceRet pid None)
  end end end.

Definition updateNodeInfoOf (node newNode : Node) : UpdateNodeInfo :=
  MkUpdateNode (MkUpdateInfo (nd_Name node) (nd_Name newNode) (bool_decide (nd_Name node ≠ nd_Name newNode)))
    (MkUpdateMapInfo (nd_Permissions node) (nd_Permissions newNode)
       (strset_changed (nd_Permissions newNode) (nd_Permissions node))).

Definition UpdateNode (nodeAccount nodeName permitStr reason : string) : prog Response :=
  ok ← node_checkPermission ctx [PermissionAdmin; PermissionSelf] nodeAccount (ctx_CurrentCaller ctx) None;
  if negb ok then mret (noPermission ctx "NodeNoPermissionCode")
  else
  pre ← rg_GovernancePre (O := Node) ctx nodeAccount EventUpdate None;
  match pre with inr be => mret (Error (be_Code be) (be_Args be)) | inl None => Panic | inl (Some node) =>
  if decide (nd_NodeType node = VPNode) then mret (Error "NodeUpdateVPNodeCode" [nodeAccount])
  else
  let newNode := MkNode (nd_Account node) (nd_NodeType node) EmptyString 0 false nodeName (strset_split permitStr) EmptyString EmptyString in
  checked ← checkNodeInfo newNode false;
  if negb (resp_Ok checked) then mret checked
  else
  let info := updateNodeInfoOf node newNode in
  match marshal info with None => mret nodeErr | Some data =>
  _ ← (if ui_IsEdit (un_NodeName info) then occupyNodeName nodeName nodeAccount else mret tt);
  if negb (ui_IsEdit (un_NodeName info)) && negb (um_IsEdit (un_Permission info))
  then mret (getGovernanceRet EmptyString None)
  else
  res ← submit ctx EventUpdate NodeMgr (nd_Account node) (nd_Status node) reason (Some data);
  match res with Error _ _ => mret nodeErr | Success pid =>
  let pid := default EmptyString pid in
  ok ← rg_ChangeStatus (O := Node) ctx nodeAccount EventUpdate (nd_Status node) None;
  if negb ok then mret nodeErr
  else
  _ ← zeroPermission Manage ctx pid;
  node_audited ctx nodeAccount (getGovernanceRet pid None)
  end end end.
End contract.
