(* ===== verification/RoleSteps.v ===== *)
(** * The role and the strategy contract change proposals through the governance contract only

The results of proposals are carried out by contracts that call the governance contract again. This
file shows that the [Manage] methods of the role and the strategy contract are made of the steps of
[GovernanceSteps.v], to any depth of calls, which is what the theorems about the governance contract
ask of them. *)
From Stdlib Require Import Ascii.
From S2P Require Import Prelude Storage Account StateLedger Contract TransactionManager Role Governance Strategy Registry Nodes RoleManager.
From S2P Require Import GovernanceProps GovernanceSteps GovernanceTheorems.

(** ** Computations that change proposals through the governance contract only

The theorems about proposals hold for whatever carries out results, as long as it changes the state of the
governance contract by the steps of [GovernanceSteps.v] only ([safe]). These are the lemmas with which the methods of
the other contracts are seen to be of this kind, as hints of [safe], and the tactic [safe_auto]. *)

Section steps.
Context `{GovernanceLib, GovJsonLib, ProposalJsonLib, EvalLib, ConstantLib, !GovAddrLib, GoRange}.
Implicit Types (w : world).

Ltac gov_ne :=
  pose proof gov_addrs_NoDup as Hnd; intros E; rewrite E in Hnd;
  repeat (apply NoDup_cons in Hnd as [? Hnd]); rewrite !elem_of_cons in *; tauto.

Lemma gov_ne_role : RoleContractAddr ≠ GovernanceContractAddr.
Proof. gov_ne. Qed.
Lemma gov_ne_strategy : ProposalStrategyMgrContractAddr ≠ GovernanceContractAddr.
Proof. gov_ne. Qed.
Lemma gov_ne_node : NodeManagerContractAddr ≠ GovernanceContractAddr.
Proof. gov_ne. Qed.
Lemma gov_ne_rule : RuleManagerContractAddr ≠ GovernanceContractAddr.
Proof. gov_ne. Qed.
Lemma gov_ne_dapp : DappMgrContractAddr ≠ GovernanceContractAddr.
Proof. gov_ne. Qed.
Lemma gov_ne_chain : AppchainMgrContractAddr ≠ GovernanceContractAddr.
Proof. gov_ne. Qed.
Lemma gov_ne_service : ServiceMgrContractAddr ≠ GovernanceContractAddr.
Proof. gov_ne. Qed.

(** A computation that does not write to the governance contract. *)
Definition foreign {A} (m : prog A) : Prop := writes_only (λ a _, a ≠ GovernanceContractAddr) m.

Lemma foreign_reads {A} (m : prog A) : writes_only (λ _ _, False) m → foreign m.
Proof. by apply writes_only_weaken. Qed.

Lemma foreign_safe {A} (m : prog A) : foreign m → safe (λ _, True) m.
Proof. intros Hm. apply (safe_weaken _ _ (λ _ _, True)). by apply reaches_foreign. Qed.

Lemma safe_bind {A B} (m : prog A) (f : A → prog B) :
  safe (λ _, True) m → (∀ a, safe (λ _, True) (f a)) → safe (λ _, True) (m ≫= f).
Proof. intros Hm Hf. eapply reaches_bind; [exact Hm|exact Hf]. Qed.

Lemma safe_cross ctx address method :
  safe (λ _, True) (method (cross_context ctx address)) → safe (λ _, True) (CrossInvoke ctx address method).
Proof.
  intros Hm w Hinv _. rewrite exec_CrossInvoke. destruct (Hm w Hinv I) as [Hs _].
  destruct (exec (method (cross_context ctx address)) w) as [r w']. by split.
Qed.

Section contracts.
Context (ctx : Context) (Hctx : ctx_Callee ctx ≠ GovernanceContractAddr).

Lemma safe_GetObject {A} `{Encoding A} k : safe (λ _, True) (GetObject (A := A) ctx k).
Proof. apply foreign_safe, foreign_reads, GetObject_writes. Qed.
Lemma safe_Get k : safe (λ _, True) (Get ctx k).
Proof. apply foreign_safe, foreign_reads, Get_writes. Qed.
Lemma safe_SetObject {A} `{Encoding A} k (v : A) : safe (λ _, True) (SetObject ctx k v).
Proof. by apply foreign_safe, SetObject_writes. Qed.
Lemma safe_Delete k : safe (λ _, True) (Delete ctx k).
Proof. apply foreign_safe. by cbn. Qed.
Lemma safe_postEvent {A} `{Encoding A} t (v : A) : safe (λ _, True) (postEvent ctx t v).
Proof. apply foreign_safe, foreign_reads, postEvent_writes. Qed.
Lemma safe_iter {A} (f : A → prog ()) l : (∀ x, safe (λ _, True) (f x)) → safe (λ _, True) (prog_iter f l).
Proof. intros Hf. induction l as [|x l IH]; cbn [prog_iter]; [apply safe_ret|]. by apply safe_bind. Qed.
Lemma safe_query `{QueryLib} prefix : safe (λ _, True) (stub_Query ctx prefix).
Proof. apply foreign_safe, foreign_reads, stub_Query_reads. Qed.
Lemma safe_specific c1 c2 l : safe (λ _, True) (checkSpecific ctx c1 c2 l).
Proof. by apply foreign_safe, foreign_reads, checkSpecific_reads. Qed.
Lemma safe_threshold e a r t av : safe (λ _, True) (getCurThresholdApproveNum e a r t av).
Proof. apply foreign_safe, foreign_reads, threshold_reads. Qed.
Lemma safe_rolesOf ids : safe (λ _, True) (rolesOf ctx ids).
Proof. apply foreign_safe, foreign_reads, rolesOf_reads. Qed.

End contracts.
End steps.

(** Goes through a program; the leaves are the lemmas of [safe]. *)
Ltac safe_auto :=
  repeat match goal with
         | |- safe _ (_ ≫= _) => apply safe_bind
         | |- ∀ _, safe _ _ => intro
         | |- safe _ (mret _) => apply safe_ret
         | |- safe _ Panic => apply reaches_panic
         | |- safe _ (match ?x with _ => _ end) => destruct x
         | |- safe _ (let _ := _ in _) => cbv zeta
         | |- safe _ _ => solve [eauto with safe]
         end.

#[export] Hint Resolve gov_ne_role gov_ne_strategy gov_ne_node gov_ne_rule gov_ne_dapp gov_ne_chain gov_ne_service
  gov_addrs_interchain : safe.
#[export] Hint Resolve safe_GetObject safe_Get safe_SetObject safe_Delete safe_postEvent safe_iter safe_query safe_specific
  safe_threshold safe_rolesOf : safe.

(** ** The role and the strategy contract *)

Section steps.
Context `{GovernanceLib, GovJsonLib, ProposalJsonLib, StrategyJsonLib, EvalLib, FsmLib, ConstantLib, !GovAddrLib, GoRange, !RoleLib, !NodePkg, QueryLib}.
Implicit Types (w : world).

Section contracts.
Context (ctx : Context) (Hctx : ctx_Callee ctx ≠ GovernanceContractAddr).

(** *** The strategy contract *)

Lemma GetRolesByType_reads ctx' t : writes_only (λ _ _, False) (GetRolesByType ctx' t).
Proof.
  unfold GetRolesByType, getRolesByType. apply writes_only_bind; [|by intros [|]; repeat case_match]. case_decide; [done|].
  apply writes_only_bind; [apply GetObject_writes|]. intros [m|]; [|done]. apply writes_only_bind; [apply rolesOf_reads|done].
Qed.

Lemma safe_availableAdmins : safe (λ _, True) (availableAdmins ctx).
Proof.
  unfold availableAdmins. safe_auto. apply safe_cross, foreign_safe, foreign_reads, GetRolesByType_reads.
Qed.

Lemma safe_changeStatuses pts trigger last : safe (λ _, True) (changeStatuses ctx pts trigger last).
Proof. induction pts as [|pt pts IH]; cbn [changeStatuses]; unfold strategy_changeStatus; safe_auto. Qed.

Lemma safe_updateStrategies n infos : safe (λ _, True) (updateStrategies ctx n infos).
Proof. induction infos as [|[mgr i] infos IH]; cbn [updateStrategies]; unfold updateStrategy; safe_auto. Qed.

#[local] Hint Resolve safe_availableAdmins safe_changeStatuses safe_updateStrategies : safe.

Lemma safe_strategy_Manage ev next last objId extra : safe (λ _, True) (strategy_Manage ctx ev next last objId extra).
Proof. unfold strategy_Manage. safe_auto. Qed.

Lemma safe_RolesChange n : safe (λ _, True) (UpdateProposalStrategyByRolesChange ctx n).
Proof. unfold UpdateProposalStrategyByRolesChange. safe_auto. apply safe_iter. intros m. unfold resetStrategy. safe_auto. Qed.

End contracts.

(** *** The role contract *)

Section role.
Context {Mlib : ManageLib}.
Context (ctx : Context) (Hctx : ctx_Callee ctx ≠ GovernanceContractAddr).

Lemma safe_node m :
  writes_only (λ a _, a = NodeManagerContractAddr) (m (cross_context ctx NodeManagerContractAddr)) →
  safe (λ _, True) (CrossInvoke ctx NodeManagerContractAddr m).
Proof.
  intros Hm. apply safe_cross, foreign_safe. eapply writes_only_weaken; [|exact Hm]. intros a _ ->. apply gov_ne_node.
Qed.
Lemma safe_GetNode n : safe (λ _, True) (CrossInvoke ctx NodeManagerContractAddr (λ nctx, GetNode nctx n)).
Proof. apply safe_node. exact (GetNode_own (cross_context ctx NodeManagerContractAddr) n). Qed.
Lemma safe_BindNode n r : safe (λ _, True) (CrossInvoke ctx NodeManagerContractAddr (λ nctx, BindNode nctx n r)).
Proof. apply safe_node. exact (BindNode_own (cross_context ctx NodeManagerContractAddr) n r). Qed.
Lemma safe_ManageBindNode n r s : safe (λ _, True) (CrossInvoke ctx NodeManagerContractAddr (λ nctx, ManageBindNode nctx n r s)).
Proof. apply safe_node. exact (ManageBindNode_own (cross_context ctx NodeManagerContractAddr) n r s). Qed.
Lemma safe_UnbindNode n : safe (λ _, True) (CrossInvoke ctx NodeManagerContractAddr (λ nctx, UnbindNode nctx n)).
Proof. apply safe_node. exact (UnbindNode_own (cross_context ctx NodeManagerContractAddr) n). Qed.
#[local] Hint Resolve safe_GetNode safe_BindNode safe_ManageBindNode safe_UnbindNode : safe.

Lemma safe_getRole_types t : safe (λ _, True) (getRolesByType ctx t).
Proof. unfold getRolesByType. safe_auto. Qed.

Lemma safe_role_changeStatus id trigger last : safe (λ _, True) (role_changeStatus ctx id trigger last).
Proof. unfold role_changeStatus. safe_auto. Qed.

Lemma safe_role_pre id ev : safe (λ _, True) (role_governancePre ctx id ev).
Proof. unfold role_governancePre. safe_auto. Qed.

Lemma safe_role_specific l : safe (λ _, True) (role_checkSpecific ctx l).
Proof.
  unfold role_checkSpecific. destruct (marshal l) as [d|]; [|safe_auto]. apply safe_bind; [|safe_auto]. cbn [role_checkPermission].
  rewrite decide_False, decide_False, decide_True by done. safe_auto.
Qed.

Lemma safe_role_audited id res : safe (λ _, True) (role_audited ctx id res).
Proof. unfold role_audited, postAuditRoleEvent. safe_auto. Qed.

Lemma safe_register r : safe (λ _, True) (register ctx r).
Proof.
  unfold register, account_AddBalance. safe_auto. all: by apply foreign_safe.
Qed.

Lemma safe_endObj id : safe (λ _, True) (endObjProposals ctx id).
Proof. apply safe_cross, EndObjProposal_safe; [done|vm_compute; exact I..]. Qed.

Lemma NotClosed_reads : writes_only (λ _ _, False) (GetNotClosedProposals (cross_context ctx GovernanceContractAddr)).
Proof.
  assert (∀ c k, writes_only (λ _ _, False) (proposalsAt c k)) as Hat.
  { intros c k. unfold proposalsAt. apply writes_only_bind; [apply GetObject_writes|]. intros [m|]; [|done].
    induction (om_Keys m) as [|id ids IH]; [done|]. cbn [proposalsOf]. apply writes_only_bind; [apply GetObject_writes|].
    intros [p|]; [|done]. by apply writes_only_bind. }
  unfold GetNotClosedProposals. apply writes_only_bind; [apply Hat|]. intros [ps|]; [|done].
  apply writes_only_bind; [apply Hat|]. by intros [qs|].
Qed.

Lemma safe_updateElectorates id ev ps : safe (λ _, True) (updateElectorates Manage ctx id ev ps).
Proof.
  induction ps as [|p ps IH]; cbn [updateElectorates]; [apply safe_ret|]. case_decide; [|done]. apply safe_bind.
  - by apply safe_cross, UpdateAvailableElectorateNum_safe.
  - intros r. destruct (resp_Ok r); [done|apply safe_ret].
Qed.

#[local] Hint Resolve safe_getRole_types safe_role_changeStatus safe_role_pre safe_role_specific safe_role_audited
  safe_register safe_endObj safe_updateElectorates : safe.

Lemma safe_updateStrategyInfo : safe (λ _, True) (role_updateStrategyInfo ctx).
Proof. unfold role_updateStrategyInfo. safe_auto. apply safe_cross, safe_RolesChange, gov_ne_strategy. Qed.

Lemma safe_updateElectorate id ev : safe (λ _, True) (updateElectorate Manage ctx id ev).
Proof.
  unfold updateElectorate, updateRoleRelatedProposalInfo. pose proof safe_updateStrategyInfo. safe_auto.
  apply safe_cross, foreign_safe, foreign_reads, NotClosed_reads.
Qed.
#[local] Hint Resolve safe_updateStrategyInfo safe_updateElectorate : safe.

Lemma safe_handleGovernanceAdmin ev next objId r : safe (λ _, True) (handleGovernanceAdmin Manage ctx ev next objId r).
Proof. unfold handleGovernanceAdmin, freeAccount. safe_auto. Qed.

Lemma safe_handleAuditAdmin ev next objId r : safe (λ _, True) (handleAuditAdmin Manage ctx ev next objId r).
Proof.
  assert (∀ id, safe (λ _, True) (CrossInvoke ctx GovernanceContractAddr (λ gctx, UnLockLowPriorityProposal Manage gctx id EventUnpause))) as Hu.
  { intros id. by apply safe_cross, UnLockLowPriorityProposal_safe. }
  unfold handleAuditAdmin, bindResult, handleAuditLogout, pauseAuditAdmin, restoreAuditAdmin, freeAccount. safe_auto.
Qed.
#[local] Hint Resolve safe_handleGovernanceAdmin safe_handleAuditAdmin : safe.

Lemma safe_role_Manage ev next last objId extra : safe (λ _, True) (role_Manage Manage ctx ev next last objId extra).
Proof. unfold role_Manage. safe_auto. Qed.
End role.

(** ** Calls to any depth *)

(** The contracts other than the role and the strategy contract are those of [M]; calls that are nested deeper than
[depth] fail. *)
Fixpoint Manage_to (M : ManageLib) (depth : nat) (address ev next last objId : string) (extra : option string) (ctx : Context) :
    prog Response :=
  match depth with
  | O => Panic
  | S depth =>
      if decide (address = RoleContractAddr) then role_Manage (Manage_to M depth) ctx ev next last objId extra
      else if decide (address = ProposalStrategyMgrContractAddr) then strategy_Manage ctx ev next last objId extra
      else @Manage _ _ _ _ _ M address ev next last objId extra ctx
  end.

Lemma Manage_to_steps M depth address ev next last objId extra ctx w :
  ctx_Callee ctx = address → address ≠ GovernanceContractAddr → gov_inv w →
  rtc gov_step w (exec (Manage_to M depth address ev next last objId extra ctx) w).2.
Proof.
  revert address ev next last objId extra ctx w. induction depth as [|depth IH]; [done|].
  intros address ev next last objId extra ctx w Hctx Hne Hinv. cbn [Manage_to]. repeat case_decide.
  - pose (M' := {| Manage := Manage_to M depth; Manage_steps := IH |}).
    apply (safe_role_Manage (Mlib := M')); [by rewrite Hctx|done|done].
  - apply safe_strategy_Manage; [by rewrite Hctx|done|done].
  - by apply Manage_steps.
Qed.

(** The interface that the governance contract asks for. *)
Definition manage_to (M : ManageLib) (depth : nat) : ManageLib :=
  {| Manage := Manage_to M depth; Manage_steps := Manage_to_steps M depth |}.
End steps.
