(* ===== verification/NamesTheorems.v ===== *)
(** * Theorems about names

What a registration does and when it succeeds; who can change the owner of a name and the data of a name; lists of
names that do not depend on the order in which maps are gone through; prices that wrap around. *)
From Stdlib Require Import Ascii.
From S2P Require Import Prelude Btree Storage Account StateLedger Contract TransactionManager Interchain Role ProofPool Governance GovernanceProps GovernanceSteps GovernanceTheorems Strategy Registry Nodes RoleManager Names.

(** ** Text *)

Lemma is_hex_ascii s : forallb is_hex_digit (String.list_ascii_of_string s) = true → is_ascii s.
Proof.
  induction s as [|c s IH]; [done|]. cbn [String.list_ascii_of_string forallb is_ascii]. intros [Hc Hs]%andb_true_iff.
  unfold is_hex_digit in Hc. apply bool_decide_eq_true in Hc. rewrite bool_decide_true by lia. by apply IH.
Qed.

Lemma checkBxhAddress_ascii a : checkBxhAddress a = true → is_ascii a.
Proof.
  unfold checkBxhAddress. destruct a as [|c0 [|c1 a]]; [done|done|].
  rewrite !andb_true_iff, !bool_decide_eq_true. intros [[[-> ->] _] Hs]. apply is_hex_ascii in Hs. cbn [is_ascii]. by destruct (is_ascii a).
Qed.

Lemma generateSubDomain_dotted p s : str_contains "." (generateSubDomain p s) = true.
Proof. unfold generateSubDomain. rewrite !str_contains_app. cbn. by rewrite orb_true_r. Qed.

(** The names of domains have dots, the keys of the contract have none. *)
Lemma dotted_ne k k' : str_contains "." k = true → str_contains "." k' = false → k ≠ k'.
Proof. intros Hk Hk' ->. congruence. Qed.

Lemma string_length_app a b : String.length (a +:+ b) = String.length a + String.length b.
Proof. induction a as [|c a IH]; [done|]. change (S (String.length (a +:+ b)) = S (String.length a) + String.length b). by rewrite IH. Qed.

Lemma ParseBool_FormatBool b : ParseBool (FormatBool b) = Some b.
Proof. by destruct b. Qed.

(** ** Stored values *)

Definition json_text {A} `{Encoding A} (a : A) : string := default EmptyString (marshal a).

Lemma exec_SetObject_json {A text} `{JsonCodec A text} ctx k (a : A) w :
  exec (SetObject ctx k a) w = (Some tt, w_setState w (ctx_Callee ctx) k (Some (json_text a))).
Proof. destruct (json_marshals a) as [s Hs]. rewrite (exec_SetObject ctx k a s w Hs). unfold json_text. by rewrite Hs. Qed.

Lemma json_text_ok {A text} `{JsonCodec A text} (a : A) : Forall is_ascii (text a) → unmarshal (json_text a) = Some a.
Proof. intros Ha. destruct (json_marshals a) as [s Hs]. unfold json_text. rewrite Hs. by apply (json_ok a). Qed.

(** An object at an address. *)
Definition stored {A} `{Encoding A} (w : world) (addr key : string) : option A := w_state w addr key ≫= unmarshal.

Lemma exec_read {A} `{Encoding A} ctx key w : exec (GetObject (A := A) ctx key) w = (Some (stored w (ctx_Callee ctx) key), w).
Proof. done. Qed.

Lemma stored_set {A} `{Encoding A} w addr key v addr' key' :
  stored (w_setState w addr key v) addr' key' =
  if decide (addr' = addr ∧ key' = key) then v ≫= unmarshal else stored w addr' key'.
Proof.
  unfold stored. cbn. unfold upd2, upd. destruct (decide (addr' = addr)) as [->|]; [|by rewrite decide_False by naive_solver].
  destruct (decide (key' = key)) as [->|]; [by rewrite decide_True|]. by rewrite decide_False by naive_solver.
Qed.

Lemma state_set w addr key v addr' key' :
  w_state (w_setState w addr key v) addr' key' = if decide (addr' = addr ∧ key' = key) then v else w_state w addr' key'.
Proof.
  cbn. unfold upd2, upd. destruct (decide (addr' = addr)) as [->|]; [|by rewrite decide_False by naive_solver].
  destruct (decide (key' = key)) as [->|]; [by rewrite decide_True|]. by rewrite decide_False by naive_solver.
Qed.

(** What a variable holds after [GetObject]. *)
Definition held {A} `{Encoding A} `{Leftover A} (fresh : A) (v : option string) : A :=
  match v with None => fresh | Some d => match unmarshal d with Some a => a | None => leftover d end end.

Lemma exec_GetInto {A} `{Encoding A} `{Leftover A} ctx (fresh : A) key w :
  exec (GetInto ctx fresh key) w = (Some (held fresh (w_state w (ctx_Callee ctx) key)), w).
Proof. done. Qed.

Lemma held_json {A text} `{JsonCodec A text} `{Leftover A} (fresh a : A) :
  Forall is_ascii (text a) → held fresh (Some (json_text a)) = a.
Proof. intros Ha. cbn. by rewrite json_text_ok. Qed.

(** Flags in maps. *)
Lemma text_insert {V} (m : gmap string V) k v :
  is_ascii k → Forall is_ascii (map_to_list m).*1 → Forall is_ascii (map_to_list (<[k := v]> m)).*1.
Proof.
  intros Hk Hm. rewrite Forall_forall in Hm |- *. intros x Hx.
  apply list_elem_of_fmap in Hx as ([k' v'] & -> & Hx%elem_of_map_to_list). cbn.
  apply lookup_insert_Some in Hx as [[<- _]|[_ Hx]]; [done|]. apply Hm, list_elem_of_fmap. exists (k', v').
  by rewrite elem_of_map_to_list.
Qed.

Section names.
Context `{GovernanceLib, GovJsonLib, ProposalJsonLib, StrategyJsonLib, EvalLib, FsmLib, ConstantLib, !GovAddrLib, GoRange, !RoleLib, GoSort}.
Context `{!NameLib}.
Implicit Types (w : world).

Notation registry := ServiceRegistryContractAddr.
Notation resolver_addr := ServiceResolverContractAddr.

(** The state of the registry. *)
Definition rec_of w (name : string) : option ServDomainRec := stored w registry name.
Definition expiries w : gmap string Z := held ∅ (w_state w registry Level1Domain).
Definition expiry w (name : string) : Z := default 0%Z (expiries w !! name).
(** The record of a name as [setRecord] and the like find it. *)
Definition rec_or_new w (name : string) : ServDomainRec := held no_rec (w_state w registry name).

Lemma resolver_ne : resolver_addr ≠ registry.
Proof. pose proof resolver_addr_new as Hn. rewrite !not_elem_of_cons in Hn. by destruct Hn as (_ & _ & ? & _). Qed.

(** *** Who may change the data of a name *)

Definition approved w (account operator : string) : bool :=
  match stored (A := gmap string (gmap string bool)) w registry PermissionController with
  | None => false
  | Some m => flag (m !! account) operator
  end.

Lemma exec_IsApproved ctx account operator w :
  ctx_Callee ctx = registry →
  exec (IsApproved ctx account operator) w = (Some (Success (Some (FormatBool (approved w account operator)))), w).
Proof.
  intros Hc. unfold IsApproved. rewrite exec_bind, exec_read, Hc. unfold approved. by destruct (stored _ _ _).
Qed.

Lemma exec_fromRecord ctx name answer w :
  ctx_Callee ctx = registry → name ≠ EmptyString →
  exec (fromRecord ctx name answer) w =
  (Some match rec_of w name with Some r => Success (Some (answer r)) | None => bnsErr end, w).
Proof.
  intros Hc Hn. unfold fromRecord, checkNameAvailable, rec_of, stored. rewrite decide_False by done. rewrite exec_bind. cbn.
  rewrite Hc. destruct (w_state w registry name) as [d|] eqn:E; cbn; [|done]. cbn. rewrite ?E. cbn. by destruct (unmarshal d).
Qed.

(** Whether the caller may change the data of a name: he owns it, or the calling contract is approved. *)
Definition controls ctx w (name : string) : bool :=
  match rec_of w name with
  | None => false
  | Some r => bool_decide (sd_Owner r = ctx_Caller ctx) || approved w (ctx_CurrentCaller ctx) ServiceResolverText
  end.

Lemma exec_resolver_authorised ctx name w :
  name ≠ EmptyString → exec (resolver_authorised ctx name) w = (Some (controls ctx w name), w).
Proof.
  intros Hn. unfold resolver_authorised, controls. rewrite exec_bind, exec_CrossInvoke. unfold bns_Owner.
  rewrite exec_fromRecord by done. destruct (rec_of w name) as [r|]; [|done]. cbn [exec].
  rewrite exec_bind, exec_CrossInvoke, exec_IsApproved by done. cbn. by rewrite ParseBool_FormatBool.
Qed.

Lemma exec_resolver_authorised_empty ctx w : exec (resolver_authorised ctx EmptyString) w = (Some false, w).
Proof. done. Qed.

(** *** Records *)

Lemma exec_setSubDomainOwner ctx p s owner w :
  ctx_Callee ctx = registry →
  let son := generateSubDomain p s in
  let pr := rec_or_new w p in
  let w1 := w_setState w registry p (Some (json_text
    (with_sd_subs pr (Some (<[son := true]> (default ∅ (sd_SubDomain pr)))) (Some (<[son := false]> (default ∅ (sd_SubDomainInReview pr))))))) in
  exec (setSubDomainOwner ctx p s owner) w =
  (Some son, w_setState w1 registry son (Some (json_text (with_sd_Parent (with_sd_Owner (rec_or_new w1 son) owner) p)))).
Proof.
  intros Hc son pr w1. unfold setSubDomainOwner. rewrite exec_bind, exec_GetInto, exec_bind, exec_SetObject_json.
  rewrite exec_bind, exec_GetInto, exec_bind, exec_SetObject_json, Hc. done.
Qed.

Lemma exec_setRecord ctx name owner resolver parent w :
  ctx_Callee ctx = registry →
  exec (setRecord ctx name owner resolver parent) w =
  (Some tt, w_setState w registry name (Some (json_text
    (with_sd_Parent (with_sd_Resolver (with_sd_Owner (rec_or_new w name) owner) resolver) parent)))).
Proof. intros Hc. unfold setRecord. by rewrite exec_bind, exec_GetInto, exec_SetObject_json, Hc. Qed.

(** Texts of records. *)
Definition rec_ascii (r : ServDomainRec) : Prop := Forall is_ascii (Rec_text r).

Lemma rec_ascii_iff r :
  rec_ascii r ↔ is_ascii (sd_Owner r) ∧ is_ascii (sd_Resolver r) ∧ is_ascii (sd_Parent r) ∧
    Forall is_ascii (map_to_list (default ∅ (sd_SubDomain r))).*1 ∧
    Forall is_ascii (map_to_list (default ∅ (sd_SubDomainInReview r))).*1.
Proof. unfold rec_ascii, Rec_text. rewrite !Forall_app, !Forall_cons, Forall_nil. naive_solver. Qed.

(** *** Registration *)

(** When a registration succeeds. *)
Record may_register ctx w (name : string) (duration : Z) (resolver : string) (cost : Z) : Prop := {
  mr_name : name ≠ EmptyString;
  mr_caller : checkBxhAddress (ctx_Caller ctx) = true;
  mr_known : ∃ m, stored (A := gmap string bool) w registry ResolverMap = Some m ∧ m !! resolver = Some true;
  mr_resolver : resolver ≠ EmptyString ∧ NewAddressByStr resolver = resolver_addr;
  mr_duration : duration ≠ 0%Z;
  mr_free : (expiry w (generateSubDomain RootDomain name) +u GRACEPERIOD ≤ now ctx)%Z;
  mr_fits : (now ctx +u GRACEPERIOD ≤ (now ctx +u duration) +u GRACEPERIOD)%Z;
  mr_price : ∃ p, (exec (getPrice ctx name (expiry w name) duration) w).1 = Some (Some p) ∧ cost = pr_premium p +u pr_base p;
  mr_pays : (cost ≤ u64 (w_balance w (NewAddressByStr (ctx_Caller ctx))))%Z }.

Lemma getPrice_reads ctx name e d : reads_only (getPrice ctx name e d).
Proof. unfold getPrice. solve_reads. Qed.

(** The world after a registration. *)
Definition hub_after w (full : string) : ServDomainRec :=
  let pr := rec_or_new w RootDomain in
  with_sd_subs pr (Some (<[full := true]> (default ∅ (sd_SubDomain pr)))) (Some (<[full := false]> (default ∅ (sd_SubDomainInReview pr)))).
Definition rec_after w (full owner resolver : string) : ServDomainRec :=
  with_sd_Parent (with_sd_Resolver (with_sd_Owner (rec_or_new w full) owner) resolver) RootDomain.
Definition data_after (owner : string) : ServDomainData :=
  MkDomainData (Some {[1%Z := owner]}) EmptyString EmptyString (Some [EmptyString]).

Lemma exec_SetServDomainData ctx name coin addr sn des dids w :
  name ≠ EmptyString →
  exec (SetServDomainData ctx name coin addr sn des dids) w =
  if controls ctx w name
  then (Some (Success None), w_setState w (ctx_Callee ctx) name
          (Some (json_text (MkDomainData (Some {[coin := addr]}) sn des (Some (str_split comma dids))))))
  else (Some bnsErr, w).
Proof.
  intros Hn. unfold SetServDomainData. rewrite exec_bind, exec_resolver_authorised by done.
  destruct (controls ctx w name); [|done]. cbn [negb]. by rewrite exec_bind, exec_SetObject_json.
Qed.

Lemma exec_account_SubBalance addr amount w :
  exec (account_SubBalance addr amount) w =
  (Some tt, if decide (amount = 0)%Z then w else w_setBalance w addr (w_balance w addr - amount)).
Proof. unfold account_SubBalance. by case_decide. Qed.

(** The world after a registration: the record of the root domain, the record of the name, its expiry, its data at the
resolver, and the price. *)
Definition registered ctx w (name : string) (duration : Z) (resolver : string) (cost : Z) : world :=
  let full := generateSubDomain RootDomain name in
  let owner := ctx_Caller ctx in
  let w1 := w_setState w registry RootDomain (Some (json_text (hub_after w full))) in
  let w2 := w_setState w1 registry full (Some (json_text (with_sd_Parent (with_sd_Owner (rec_or_new w full) owner) RootDomain))) in
  let w3 := w_setState w2 registry full (Some (json_text (rec_after w full owner resolver))) in
  let w4 := w_setState w3 registry Level1Domain (Some (json_text (<[full := now ctx +u duration]> (expiries w)))) in
  let w5 := w_setState w4 resolver_addr full (Some (json_text (data_after owner))) in
  let payer := NewAddressByStr owner in
  if decide (cost = 0)%Z then w5 else w_setBalance w5 payer (w_balance w5 payer - cost).

Lemma generateSubDomain_ne p s : generateSubDomain p s ≠ p.
Proof.
  intros E. apply (f_equal String.length) in E. unfold generateSubDomain in E. rewrite !string_length_app in E. cbn in E. lia.
Qed.
Lemma full_ne_hub name : generateSubDomain RootDomain name ≠ RootDomain.
Proof. apply dotted_ne; [apply generateSubDomain_dotted|done]. Qed.
Lemma full_ne_level name : generateSubDomain RootDomain name ≠ Level1Domain.
Proof. apply dotted_ne; [apply generateSubDomain_dotted|done]. Qed.
Lemma full_ne_empty p s : generateSubDomain p s ≠ EmptyString.
Proof. apply dotted_ne; [apply generateSubDomain_dotted|done]. Qed.

Ltac other_key := rewrite decide_False by (intros [? ?]; done).

Lemma rec_or_new_set w k v k' :
  rec_or_new (w_setState w registry k v) k' = if decide (k' = k) then held no_rec v else rec_or_new w k'.
Proof. unfold rec_or_new. rewrite state_set. destruct (decide (k' = k)) as [->|]; [by rewrite decide_True|]. by rewrite decide_False by naive_solver. Qed.

Lemma exec_Register ctx name duration resolver cost w :
  ctx_Callee ctx = registry → is_ascii name → is_ascii resolver →
  rec_ascii (rec_or_new w (generateSubDomain RootDomain name)) →
  may_register ctx w name duration resolver cost →
  exec (bns_Register ctx name duration resolver) w = (Some (Success None), registered ctx w name duration resolver cost).
Proof.
  intros Hc Hname Hres Hrec [Hn Hcaller (m & Hm & Hmr) [Hr Hra] Hd Hfree Hfits (p & Hp & ->) Hpays].
  unfold bns_Register. rewrite decide_False by done. rewrite Hcaller. cbn [negb]. rewrite (decide_False (P := resolver = _)) by done.
  rewrite exec_bind. unfold checkResolverAddress. rewrite exec_bind, exec_read, Hc, Hm. cbn [exec mret prog_mret].
  rewrite Hmr. cbn [default from_option negb id]. rewrite (decide_False (P := duration = _)) by done. rewrite exec_bind. cbn [account_Balance exec].
  unfold mret at 1, prog_mret. cbn [exec]. rewrite exec_bind. unfold getLevel1Domain. rewrite exec_GetInto, Hc. fold (expiries w).
  cbv zeta. fold (expiry w (generateSubDomain RootDomain name)) (expiry w name).
  rewrite decide_False by lia. rewrite exec_bind. destruct (exec (getPrice _ _ _ _) w) as [q w0] eqn:Eq. cbn in Hp. subst q.
  apply reads_only_run in Eq as ->; [|apply getPrice_reads]. rewrite decide_False by lia.
  rewrite exec_bind, exec_setSubDomainOwner, exec_bind, exec_setRecord, exec_bind, exec_SetObject_json by done.
  set (full := generateSubDomain RootDomain name) in *. cbv zeta.
  pose proof (full_ne_hub name : full ≠ RootDomain) as Hh. pose proof (full_ne_level name : full ≠ Level1Domain) as Hl.
  pose proof (checkBxhAddress_ascii _ Hcaller) as Hca. apply rec_ascii_iff in Hrec as (Ho & Hres' & Hpar & Hsub & Hrev).
  rewrite !rec_or_new_set, !(decide_False (P := full = RootDomain)) by done. rewrite !(decide_True (P := full = full)) by done.
  rewrite held_json by (apply rec_ascii_iff; cbn; done). rewrite Hc.
  match goal with |- exec _ ?w4 = _ => set (w4' := w4) end.
  assert (rec_of w4' full = Some (rec_after w full (ctx_Caller ctx) resolver)) as Hrec4.
  { unfold rec_of, w4'. rewrite stored_set, decide_False by naive_solver. rewrite stored_set, decide_True by done. cbn.
    apply (json_text_ok (text := Rec_text)). apply rec_ascii_iff. cbn. done. }
  unfold resolver_call. rewrite Hra. cbv zeta. rewrite exec_bind, exec_CrossInvoke. unfold at_resolver. rewrite decide_True by done.
  rewrite exec_SetServDomainData by apply full_ne_empty. unfold controls. rewrite Hrec4. cbn [sd_Owner rec_after with_sd_Parent with_sd_Resolver with_sd_Owner ctx_Caller cross_context].
  rewrite bool_decide_true by done. cbn [orb resp_Ok negb ctx_Callee].
  rewrite exec_bind, exec_account_SubBalance. unfold registered. fold full. done.
Qed.

Lemma Register_success ctx name duration resolver w r w' :
  ctx_Callee ctx = registry →
  exec (bns_Register ctx name duration resolver) w = (Some (Success r), w') →
  ∃ cost, may_register ctx w name duration resolver cost.
Proof.
  intros Hc. unfold bns_Register. intros E. case_decide as Hn; [done|]. destruct (checkBxhAddress _) eqn:Hcaller; [|done]. cbn [negb] in E.
  destruct (decide (resolver = EmptyString)) as [|Hr]; [done|]. rewrite exec_bind in E. unfold checkResolverAddress in E. rewrite exec_bind, exec_read, Hc in E.
  destruct (stored w registry ResolverMap) as [m|] eqn:Hm; [|done]. cbn [exec mret prog_mret] in E.
  destruct (m !! resolver) as [[]|] eqn:Hmr; try done. cbn [default from_option negb id] in E. case_decide as Hd; [done|].
  rewrite exec_bind in E. cbn [account_Balance exec] in E. unfold mret at 1, prog_mret in E. cbn [exec] in E.
  rewrite exec_bind in E. unfold getLevel1Domain in E. rewrite exec_GetInto, Hc in E. fold (expiries w) in E. cbv zeta in E.
  fold (expiry w (generateSubDomain RootDomain name)) (expiry w name) in E. case_decide as Hf; [done|].
  step E as p w1 E1. pose proof E1 as Hp. apply reads_only_run in E1 as ->; [|apply getPrice_reads].
  destruct p as [p|]; [|done]. case_decide as Hpay; [done|].
  exists (pr_premium p +u pr_base p). assert (NewAddressByStr resolver = resolver_addr) as Hra.
  { step E as x1 w1 E1. step E as x2 w2 E2. step E as x3 w3 E3. step E as x4 w4 E4. unfold resolver_call, at_resolver in E4.
    cbv zeta in E4. destruct (decide (NewAddressByStr resolver = resolver_addr)) as [|Hne]; [done|].
    rewrite exec_CrossInvoke in E4. cbn in E4. injection E4 as <- <-. done. }
  split; eauto; try lia. exists p. by rewrite Hp.
Qed.

Lemma registered_state ctx w name duration resolver cost a k :
  let full := generateSubDomain RootDomain name in
  w_state (registered ctx w name duration resolver cost) a k =
    if decide (a = resolver_addr ∧ k = full) then Some (json_text (data_after (ctx_Caller ctx)))
    else if decide (a = registry ∧ k = Level1Domain) then Some (json_text (<[full := now ctx +u duration]> (expiries w)))
    else if decide (a = registry ∧ k = full) then Some (json_text (rec_after w full (ctx_Caller ctx) resolver))
    else if decide (a = registry ∧ k = RootDomain) then Some (json_text (hub_after w full))
    else w_state w a k.
Proof.
  cbv zeta. unfold registered. cbv zeta. destruct (decide (cost = 0)%Z); cbn [w_state w_setBalance]; rewrite !state_set; repeat case_decide; done.
Qed.

(** C25: Registering a name succeeds exactly when the name is not empty, the caller has an address, the resolver is
listed and is the resolver contract, the time is neither zero nor such that now plus time wraps around, the expiry of
the name plus the grace period, modulo 2^64, is not after the time of the transaction, prices and token price are
stored so that the price can be computed (modulo 2^64), and the price is at most the balance modulo 2^64
([may_register]; so a balance of 2^64 does not suffice, [rich_caller_refused]). Then the caller owns the name until
now plus time, the root domain and the resolver have it, exactly the price is paid, and no other state, expiry or
balance changes. Names and stored records are ASCII. *)
Theorem name_registration ctx name duration resolver w :
  let full := generateSubDomain RootDomain name in
  ctx_Callee ctx = registry → is_ascii name → is_ascii resolver →
  rec_ascii (rec_or_new w full) → rec_ascii (rec_or_new w RootDomain) → Forall is_ascii (map_to_list (expiries w)).*1 →
  (∀ r w', exec (bns_Register ctx name duration resolver) w = (Some (Success r), w') →
     ∃ cost, may_register ctx w name duration resolver cost) ∧
  (∀ cost, may_register ctx w name duration resolver cost →
     ∃ w', exec (bns_Register ctx name duration resolver) w = (Some (Success None), w') ∧
       rec_of w' full = Some (rec_after w full (ctx_Caller ctx) resolver) ∧
       rec_of w' RootDomain = Some (hub_after w full) ∧
       expiries w' = <[full := now ctx +u duration]> (expiries w) ∧
       stored w' resolver_addr full = Some (data_after (ctx_Caller ctx)) ∧
       w_balance w' (NewAddressByStr (ctx_Caller ctx)) = (w_balance w (NewAddressByStr (ctx_Caller ctx)) - cost)%Z ∧
       (∀ a, a ≠ NewAddressByStr (ctx_Caller ctx) → w_balance w' a = w_balance w a) ∧
       (∀ a k, (a, k) ∉ [(registry, full); (registry, RootDomain); (registry, Level1Domain); (resolver_addr, full)] →
          w_state w' a k = w_state w a k)).
Proof.
  intros full Hc Hname Hres Hrec Hhub Hexp. split; [intros r w'; by apply Register_success|].
  intros cost Hmay. pose proof (checkBxhAddress_ascii _ (mr_caller _ _ _ _ _ _ Hmay)) as Hca.
  pose proof (full_ne_hub name : full ≠ RootDomain) as Hh. pose proof (full_ne_level name : full ≠ Level1Domain) as Hl.
  pose proof resolver_ne as Hrr.
  assert (is_ascii full) as Hfa.
  { unfold full, generateSubDomain. rewrite !is_ascii_app. by destruct (is_ascii name). }
  eexists. split; [by apply exec_Register|].
  unfold rec_of, expiries, stored. rewrite !registered_state. fold full.
  repeat first [rewrite (decide_True (P := _ ∧ _)) by done | rewrite (decide_False (P := _ ∧ _)) by (intros [? ?]; done)].
  cbn [mbind option_bind]. apply rec_ascii_iff in Hrec as (Ho & Hr' & Hp & Hs & Hv). apply rec_ascii_iff in Hhub as (Ho2 & Hr2 & Hp2 & Hs2 & Hv2).
  split_and!.
  - apply (json_text_ok (text := Rec_text)), rec_ascii_iff. done.
  - apply (json_text_ok (text := Rec_text)), rec_ascii_iff. cbn. split_and!; try done; by apply text_insert.
  - apply (held_json (text := λ m : gmap string Z, (map_to_list m).*1)). by apply text_insert.
  - apply (json_text_ok (text := Data_text)). unfold Data_text, data_after. cbn.
    rewrite map_to_list_singleton. cbn. by repeat (apply Forall_cons; split; [done|]).
  - unfold registered. cbv zeta. case_decide; cbn [w_balance w_setBalance w_setState]; [lia|]. by rewrite upd_eq.
  - intros a Ha. unfold registered. cbv zeta. case_decide; [done|]. cbn [w_balance w_setBalance w_setState]. by rewrite upd_ne.
  - intros a k Hak. rewrite registered_state. fold full. rewrite !not_elem_of_cons in Hak. destruct Hak as (N1 & N2 & N3 & N4 & _).
    rewrite !decide_False; [done|intros [-> ->]; done..].
Qed.

(** *** What the registry calls *)

Lemma reads_any {A} P (p : prog A) : writes_only (λ _ _, False) p → writes_only P p.
Proof. by apply writes_only_weaken. Qed.

Lemma proposalsOf_reads ctx ids : writes_only (λ _ _, False) (proposalsOf ctx ids).
Proof. induction ids as [|id ids IH]; [done|]. cbn [proposalsOf]. solve_writes. Qed.

Lemma proposalsAt_reads P ctx k : writes_only P (proposalsAt ctx k).
Proof. apply reads_any. unfold proposalsAt. solve_writes. apply proposalsOf_reads. Qed.

(** The governance contract writes its own state when a proposal is submitted. *)
Lemma SubmitProposal_own ctx from ev typ id last reason extra :
  ctx_Callee ctx = GovernanceContractAddr →
  writes_only (λ a _, a = ctx_Callee ctx) (SubmitProposal ctx from ev typ id last reason extra).
Proof.
  intros Hctx.
  assert (∀ key i, writes_only (λ a _, a = ctx_Callee ctx) (addId ctx key i)) as Hadd.
  { intros key i. unfold addId. solve_writes. }
  assert (∀ p st, writes_only (λ a _, a = ctx_Callee ctx) (changeProposalStatus ctx p st)) as Hch.
  { intros p st. unfold changeProposalStatus. solve_writes. }
  assert (∀ i, writes_only (λ a _, a = ctx_Callee ctx) (postAuditProposalEvent ctx i)) as Hpost.
  { intros i. apply reads_any, postAudit_reads. }
  assert (∀ ps, writes_only (λ a _, a = ctx_Callee ctx) (lockFirst ctx ev ps)) as Hlock.
  { induction ps as [|p ps IH]; [done|]. cbn [lockFirst]. solve_writes. }
  unfold SubmitProposal, audited, addProposal, lockLowPriorityProposal, getProposalsByObjId, getProposalsByFrom.
  solve_writes; try apply proposalsAt_reads;
    apply reads_any; first [apply checkSpecific_reads|by apply getElectorate_reads|apply getStrategyInfo_reads].
Qed.

Lemma submit_writes P ctx ev typ id last reason extra :
  (∀ k, P GovernanceContractAddr k) → writes_only P (submit ctx ev typ id last reason extra).
Proof.
  intros HP. apply writes_only_CrossInvoke. eapply writes_only_weaken; [|by apply SubmitProposal_own]. by intros a k ->.
Qed.

(** A program that writes other keys keeps the record of a name. *)
Lemma keeps_rec {A} (p : prog A) w k : writes_only (λ a x, a ≠ registry ∨ x ≠ k) p → rec_of (exec p w).2 k = rec_of w k.
Proof. intros Hp. unfold rec_of, stored. rewrite (writes_only_frame _ p w registry k Hp); [done|]. tauto. Qed.

Lemma bns_reads P ctx name : writes_only P (bns_Owner ctx name).
Proof. unfold bns_Owner, fromRecord, checkNameAvailable, Has. solve_writes. all: by cbn. Qed.

Lemma resolver_authorised_writes P ctx name : writes_only P (resolver_authorised ctx name).
Proof.
  unfold resolver_authorised. solve_writes; apply writes_only_CrossInvoke; [apply bns_reads|].
  unfold IsApproved. solve_writes.
Qed.

(** The resolver writes its own state. *)
Lemma resolver_call_writes P ctx resolver m :
  (∀ c, ctx_Callee c = resolver_addr → writes_only P (m c)) → writes_only P (resolver_call ctx resolver m).
Proof.
  intros Hm. unfold resolver_call, at_resolver. apply writes_only_CrossInvoke. case_decide as Ha; [|done]. by apply Hm.
Qed.

(** *** Calls *)

(** The methods of the registry that change its state, except [Manage], which carries out proposals. *)
Inductive names_call :=
| CRegister (name : string) (duration : Z) (resolver : string)
| CRenew (name : string) (duration : Z)
| CAllocate (parentName sonName owner resolver serviceName : string)
| CDelete (name : string)
| CSetPriceLevel (p1 p2 p3 p4 p5 : Z)
| CSetTokenPrice (tokenPrice : Z).

Definition run_names ctx (c : names_call) : prog Response :=
  match c with
  | CRegister name duration resolver => bns_Register ctx name duration resolver
  | CRenew name duration => Renew ctx name duration
  | CAllocate p s o r sn => AllocateSubDomain ctx p s o r sn
  | CDelete name => DeleteSecondDomain ctx name
  | CSetPriceLevel p1 p2 p3 p4 p5 => SetPriceLevel ctx p1 p2 p3 p4 p5
  | CSetTokenPrice p => SetTokenPrice ctx p
  end.

Definition owner_of w (name : string) : option string := sd_Owner <$> rec_of w name.

Lemma price_any P ctx name e d : writes_only P (getPrice ctx name e d).
Proof. apply reads_only_writes, getPrice_reads. Qed.
Lemma level1_any P ctx : writes_only P (getLevel1Domain ctx).
Proof. done. Qed.
Lemma balance_any P a : writes_only P (account_Balance a).
Proof. done. Qed.
Lemma sub_any P a z : writes_only P (account_SubBalance a z).
Proof. unfold account_SubBalance. by case_decide. Qed.
Lemma Has_any P ctx k : writes_only P (checkNameAvailable ctx k).
Proof. done. Qed.
Lemma known_any P ctx r : writes_only P (checkResolverAddress ctx r).
Proof. unfold checkResolverAddress. solve_writes. Qed.
Lemma into_any {A} `{Encoding A} `{Leftover A} P ctx (a : A) k : writes_only P (GetInto ctx a k).
Proof. done. Qed.
Lemma authorised_any P ctx k : writes_only P (registry_authorised ctx k).
Proof. unfold registry_authorised. solve_writes. Qed.
Lemma admin_any P ctx a : writes_only P (bns_isAdmin ctx a).
Proof. unfold bns_isAdmin. solve_writes. apply reads_any, isAvailable_reads. Qed.
#[local] Hint Resolve price_any level1_any balance_any sub_any Has_any known_any into_any authorised_any admin_any
  resolver_authorised_writes : writes.

Lemma governance_ne : GovernanceContractAddr ≠ registry.
Proof.
  pose proof gov_addrs_NoDup as Hn. repeat (apply NoDup_cons in Hn as [? Hn]). intros E.
  match goal with Hx : GovernanceContractAddr ∉ _ |- _ => apply Hx end. rewrite E. set_solver.
Qed.

Section owners.
Context (ctx : Context) (Hc : ctx_Callee ctx = registry).
Context (k : string) (Hk : str_contains "." k = true).

(** Keys of the registry that are no names. *)
Lemma config_key key : str_contains "." key = false → ctx_Callee ctx ≠ registry ∨ key ≠ k.
Proof. intros Hkey. right. intros ->. congruence. Qed.

Lemma set_config {A} `{Encoding A} key (v : A) :
  str_contains "." key = false → writes_only (λ a x, a ≠ registry ∨ x ≠ k) (SetObject ctx key v).
Proof. intros Hkey. apply SetObject_writes, config_key, Hkey. Qed.

Lemma set_other {A} `{Encoding A} key (v : A) : key ≠ k → writes_only (λ a x, a ≠ registry ∨ x ≠ k) (SetObject ctx key v).
Proof. intros Hkey. apply SetObject_writes. by right. Qed.

Lemma data_writes c name coin addr sn des dids :
  ctx_Callee c = resolver_addr → writes_only (λ a x, a ≠ registry ∨ x ≠ k) (SetServDomainData c name coin addr sn des dids).
Proof. intros Hca. unfold SetServDomainData. solve_writes. apply SetObject_writes. rewrite Hca. left. apply resolver_ne. Qed.

Lemma delete_data_writes c name :
  ctx_Callee c = resolver_addr → writes_only (λ a x, a ≠ registry ∨ x ≠ k) (DeleteServDomainData c name).
Proof.
  intros Hca. unfold DeleteServDomainData, removeReverse, getDataByDomain, Delete. solve_writes.
  - cbn. rewrite Hca. split; [left; apply resolver_ne|done].
  - apply SetObject_writes. rewrite Hca. left. apply resolver_ne.
Qed.

Lemma Renew_keeps name duration w : rec_of (exec (Renew ctx name duration) w).2 k = rec_of w k.
Proof. apply keeps_rec. unfold Renew. solve_writes. by apply set_config. Qed.

Lemma SetPriceLevel_keeps p1 p2 p3 p4 p5 w : rec_of (exec (SetPriceLevel ctx p1 p2 p3 p4 p5) w).2 k = rec_of w k.
Proof. apply keeps_rec. unfold SetPriceLevel. solve_writes. by apply set_config. Qed.

Lemma SetTokenPrice_keeps p w : rec_of (exec (SetTokenPrice ctx p) w).2 k = rec_of w k.
Proof. apply keeps_rec. unfold SetTokenPrice. solve_writes. by apply set_config. Qed.

Lemma Register_keeps_other name duration resolver w :
  generateSubDomain RootDomain name ≠ k → rec_of (exec (bns_Register ctx name duration resolver) w).2 k = rec_of w k.
Proof.
  intros Hne. apply keeps_rec. unfold bns_Register, setSubDomainOwner, setRecord.
  solve_writes; first [by apply set_config | by apply set_other | apply resolver_call_writes; intros c; apply data_writes].
Qed.

(** The checks of a registration come before it writes. *)
Lemma Register_guarded name duration resolver w :
  (exec (bns_Register ctx name duration resolver) w).2 = w ∨
  (expiry w (generateSubDomain RootDomain name) +u GRACEPERIOD ≤ now ctx)%Z.
Proof.
  unfold bns_Register. case_decide; [by left|]. destruct (checkBxhAddress _); [|by left]. cbn [negb].
  destruct (decide (resolver = EmptyString)); [by left|]. rewrite exec_bind. unfold checkResolverAddress.
  rewrite exec_bind, exec_read. destruct (stored _ _ _) as [m|]; [|by left]. cbn [exec mret prog_mret].
  destruct (default false _); [|by left]. cbn [negb]. case_decide; [by left|].
  rewrite exec_bind. cbn [account_Balance exec]. unfold mret at 1, prog_mret. cbn [exec].
  rewrite exec_bind. unfold getLevel1Domain. rewrite exec_GetInto, Hc. fold (expiries w). cbv zeta.
  fold (expiry w (generateSubDomain RootDomain name)). case_decide as Hf; [by left|]. right. lia.
Qed.

Lemma rec_of_set w key v :
  rec_of (w_setState w registry key v) k = if decide (k = key) then v ≫= unmarshal else rec_of w k.
Proof.
  unfold rec_of. rewrite stored_set. destruct (decide (k = key)); [by rewrite decide_True|].
  by rewrite decide_False by (intros [_ ?]; done).
Qed.

(** Storing the record of a name with other domains below it keeps its owner. *)
Lemma owner_with_subs w key r subs review :
  rec_of w key = Some r → rec_ascii (with_sd_subs r subs review) →
  owner_of (w_setState w registry key (Some (json_text (with_sd_subs r subs review)))) k = owner_of w k.
Proof.
  intros Hr Ha. unfold owner_of. rewrite rec_of_set. case_decide as Hkk; [|done]. subst key.
  cbn [mbind option_bind]. rewrite (json_text_ok (text := Rec_text)) by done. by rewrite Hr.
Qed.

Lemma Allocate_keeps p s o r sn w :
  (∀ pr, rec_of w p = Some pr → rec_ascii pr) → is_ascii p → is_ascii s →
  owner_of (exec (AllocateSubDomain ctx p s o r sn) w).2 k = owner_of w k.
Proof.
  intros Hasc Hp Hs. unfold AllocateSubDomain. case_decide; [done|]. case_decide; [done|]. rewrite exec_bind.
  destruct (exec (checkNameAvailable ctx p) w) as [ok w0] eqn:E0. apply reads_only_run in E0 as E1; [|done]. subst w0.
  destruct ok as [[]|]; [|done|done]. cbn [negb]. destruct (checkBxhAddress o); [|done]. cbn [negb].
  destruct (decide (r = EmptyString)); [done|]. rewrite exec_bind. destruct (exec (checkResolverAddress ctx r) w) as [ok w0] eqn:E2.
  apply reads_only_run in E2 as ->; [|unfold checkResolverAddress; solve_reads]. destruct ok as [[]|]; [|done|done]. cbn [negb].
  rewrite exec_bind. destruct (exec (registry_authorised ctx p) w) as [ok w0] eqn:E3.
  apply reads_only_run in E3 as ->; [|unfold registry_authorised; solve_reads]. destruct ok as [[]|]; [|done|done]. cbn [negb].
  rewrite exec_bind, exec_read, Hc. fold (rec_of w p). destruct (rec_of w p) as [pr|] eqn:Epr; [|done].
  rewrite exec_bind, exec_SetObject_json, Hc.
  set (son := generateSubDomain p s). match goal with |- context [w_setState w registry p ?v] => set (w1 := w_setState w registry p v) end.
  assert (owner_of w1 k = owner_of w k) as <-.
  { apply owner_with_subs; [done|]. specialize (Hasc pr eq_refl). apply rec_ascii_iff in Hasc as (Ho & Hr & Hpa & Hsu & Hre).
    apply rec_ascii_iff. cbn. split_and!; try done. apply text_insert; [|done].
    unfold son, generateSubDomain. rewrite !is_ascii_app. by destruct (is_ascii s). }
  unfold owner_of. f_equal. apply keeps_rec. unfold setPreRegister.
  solve_writes; first [by apply set_config | apply submit_writes; intros k'; left; apply governance_ne].
Qed.

(** Deleting a name: only its owner or an approved contract can, and other names keep their owners. *)
Lemma Delete_keeps name w :
  (∀ x r, rec_of w x = Some r → rec_ascii r) → is_ascii name →
  owner_of (exec (DeleteSecondDomain ctx name) w).2 k = owner_of w k ∨
  k = name ∧ (owner_of w k = Some (ctx_Caller ctx) ∨ approved w (ctx_CurrentCaller ctx) ServiceRegistryText = true).
Proof.
  intros Hasc Hname. unfold DeleteSecondDomain. case_decide; [by left|]. case_decide; [by left|]. rewrite exec_bind.
  destruct (exec (checkNameAvailable ctx name) w) as [ok w0] eqn:E0. apply reads_only_run in E0 as E1; [|done]. subst w0.
  destruct ok as [[]|]; [|by left|by left]. cbn [negb]. rewrite exec_bind.
  destruct (exec (registry_authorised ctx name) w) as [ok w0] eqn:E3. pose proof E3 as Hau.
  apply reads_only_run in E3 as ->; [|unfold registry_authorised; solve_reads]. destruct ok as [[]|]; [|by left|by left]. cbn [negb].
  rewrite exec_bind, exec_read, Hc. fold (rec_of w name). destruct (rec_of w name) as [r|] eqn:Er; [|by left].
  rewrite exec_bind, exec_read, Hc. fold (rec_of w (sd_Parent r)). destruct (rec_of w (sd_Parent r)) as [p|] eqn:Ep; [|by left].
  destruct (sd_SubDomain p) as [subs|] eqn:Esub; [|by left]. rewrite exec_bind, exec_SetObject_json, Hc.
  match goal with |- context [w_setState w registry (sd_Parent r) ?v] => set (w1 := w_setState w registry (sd_Parent r) v) end.
  assert (owner_of w1 k = owner_of w k) as Hw1.
  { apply owner_with_subs; [done|]. specialize (Hasc _ p Ep). apply rec_ascii_iff in Hasc as (Ho & Hr & Hpa & Hsu & Hre).
    apply rec_ascii_iff. cbn. rewrite Esub in Hsu. split_and!; try done. by apply text_insert. }
  destruct (decide (k = name)) as [->|Hne].
  - right. split; [done|]. unfold owner_of. rewrite Er. cbn. unfold registry_authorised in Hau.
    rewrite exec_bind, exec_read, Hc in Hau. fold (rec_of w name) in Hau. rewrite Er, exec_bind, exec_read, Hc in Hau.
    unfold approved. destruct (stored w registry PermissionController) as [m|]; [|done]. injection Hau as Hau.
    apply orb_true_iff in Hau as [Hau%bool_decide_eq_true|Hau]; [left; by rewrite Hau|by right].
  - left. rewrite <-Hw1. unfold owner_of. f_equal. apply keeps_rec. unfold Delete.
    solve_writes; first [apply resolver_call_writes; intros c; by apply delete_data_writes | cbn; rewrite Hc; naive_solver].
Qed.
End owners.

(** C26: Whatever call of Register, Renew, AllocateSubDomain, DeleteSecondDomain, SetPriceLevel or SetTokenPrice
somebody makes, the owner of a registered name stays the same, unless the name is registered again when its stored
expiry plus the grace period, modulo 2^64, is not after the time of the transaction, or its owner or an approved
contract deletes it. Manage, which anybody can call too, is not among these calls ([anyone_takes_names]); names of the
second level have no expiry, which counts as 0, so that anybody can register them away ([second_level_taken]); and a
renewal can set the expiry to 0 ([renewal_ends_name]). Records and arguments are ASCII. *)
Theorem name_owner_kept ctx c w k o :
  ctx_Callee ctx = registry → str_contains "." k = true → (∀ x r, rec_of w x = Some r → rec_ascii r) →
  match c with
  | CAllocate p s _ _ _ => is_ascii p ∧ is_ascii s
  | CDelete name => is_ascii name
  | _ => True
  end →
  owner_of w k = Some o →
  owner_of (exec (run_names ctx c) w).2 k = Some o ∨
  (∃ name duration resolver, c = CRegister name duration resolver ∧ k = generateSubDomain RootDomain name ∧
     (expiry w k +u GRACEPERIOD ≤ now ctx)%Z) ∨
  (c = CDelete k ∧ (o = ctx_Caller ctx ∨ approved w (ctx_CurrentCaller ctx) ServiceRegistryText = true)).
Proof.
  intros Hc Hk Hasc Hargs Ho. assert (∀ w', rec_of w' k = rec_of w k → owner_of w' k = Some o) as Hkeep.
  { intros w' E. unfold owner_of in *. by rewrite E. }
  destruct c as [name d r|name d|p s ow r sn|name|p1 p2 p3 p4 p5|p]; cbn [run_names].
  - destruct (decide (generateSubDomain RootDomain name = k)) as [<-|Hne]; [|left; apply Hkeep; by apply Register_keeps_other].
    destruct (Register_guarded ctx Hc name d r w) as [E|Hg]; [left; by rewrite E|]. right; left. eauto 10.
  - left. apply Hkeep. by apply Renew_keeps.
  - left. rewrite Allocate_keeps; [done|done|done|naive_solver..].
  - destruct (Delete_keeps ctx Hc k Hk name w Hasc Hargs) as [E|[-> Hd]]; [left; by rewrite E|]. right; right. naive_solver.
  - left. apply Hkeep. by apply SetPriceLevel_keeps.
  - left. apply Hkeep. by apply SetTokenPrice_keeps.
Qed.

(** *** The resolver *)

(** The methods of the resolver that change its state. *)
Inductive resolver_op :=
| RSetServDomainData (coinTyp : Z) (addr serviceName des dids : string)
| RSetAddr (coinTyp : Z) (addr : string)
| RSetServiceName (serviceName : string) (reverse : Z)
| RSetServiceDes (des : string)
| RSetDids (dids : string)
| RSetReverse (serviceName : string)
| RDelete.

Definition run_resolver ctx (name : string) (c : resolver_op) : prog Response :=
  match c with
  | RSetServDomainData coinTyp addr serviceName des dids => SetServDomainData ctx name coinTyp addr serviceName des dids
  | RSetAddr coinTyp addr => SetAddr ctx name coinTyp addr
  | RSetServiceName serviceName reverse => SetServiceName ctx name serviceName reverse
  | RSetServiceDes des => SetServiceDes ctx name des
  | RSetDids dids => SetDids ctx name dids
  | RSetReverse serviceName => SetReverse ctx serviceName name
  | RDelete => DeleteServDomainData ctx name
  end.

(** All methods start with the same check. *)
Lemma run_resolver_refused ctx name c w :
  name = EmptyString ∨ controls ctx w name = false → exec (run_resolver ctx name c) w = (Some bnsErr, w).
Proof.
  intros Hno. assert (exec (resolver_authorised ctx name) w = (Some false, w)) as E.
  { destruct Hno as [->|Hno]; [apply exec_resolver_authorised_empty|].
    destruct (decide (name = EmptyString)) as [->|]; [apply exec_resolver_authorised_empty|].
    by rewrite exec_resolver_authorised, Hno. }
  destruct c; cbn [run_resolver]; unfold SetServDomainData, SetAddr, SetServiceName, SetServiceDes, SetDids, SetReverse,
    DeleteServDomainData, changeData; by rewrite exec_bind, E.
Qed.

Lemma run_resolver_writes ctx name c :
  writes_only (λ a k, a = ctx_Callee ctx ∧ (k = name ∨ k = ReverseMap)) (run_resolver ctx name c).
Proof.
  destruct c; cbn [run_resolver]; unfold SetServDomainData, SetAddr, SetServiceName, SetServiceDes, SetDids, SetReverse,
    DeleteServDomainData, changeData, getDataByDomain, setReverseName, removeReverse, Delete; solve_writes;
    first [apply SetObject_writes; by auto | cbn; by auto].
Qed.

(** The data of a name and the names of services are changed only by somebody who controls the name: every method of the
resolver that changes state answers with an error, and changes nothing, unless the caller is the owner whom the registry
records or the calling contract is approved; and a call for one name changes only the data of that name and the map from
services to names. *)
Theorem resolver_guarded ctx name c w :
  (name = EmptyString ∨ controls ctx w name = false → exec (run_resolver ctx name c) w = (Some bnsErr, w)) ∧
  (∀ a k, (a, k) ∉ [(ctx_Callee ctx, name); (ctx_Callee ctx, ReverseMap)] →
     w_state (exec (run_resolver ctx name c) w).2 a k = w_state w a k).
Proof.
  split; [apply run_resolver_refused|]. intros a k Hak. apply (writes_only_frame _ _ _ _ _ (run_resolver_writes ctx name c)).
  rewrite !not_elem_of_cons in Hak. intros [-> [->| ->]]; naive_solver.
Qed.

(** *** Prices *)

(** The price of a name is computed modulo [2^64]: a time of [2^56] seconds, or a multiple of it, costs nothing, whatever
the length of the name, the prices and the price of the token are. *)
Theorem long_names_free ctx name expires n w (level : PriceLevel) (token : Z) :
  ctx_Callee ctx = registry → stored w registry PriceLenLevel = Some level → stored w registry BitxhubTokenPrice = Some token →
  token ≠ 0%Z → exec (getPrice ctx name expires (n * 2 ^ 56)) w = (Some (Some (MkPrice 0 0)), w).
Proof.
  intros Hc Hl Ht Hz. assert (∀ p, u64 (u64 (p * (n * 2 ^ 56)) * 100000000) = 0%Z) as Hfree.
  { intros p. unfold u64. rewrite Zmult_mod_idemp_l. replace (p * (n * 2 ^ 56) * 100000000)%Z with (p * n * 390625 * 2 ^ 64)%Z by ring.
    apply Z.mod_mul. lia. }
  unfold getPrice. rewrite exec_bind, exec_read, Hc, Hl, exec_bind, exec_read, Hc, Ht. cbv zeta. unfold attoCYNToWei, premium.
  rewrite !decide_False by done. rewrite Hfree. by rewrite !Zdiv_0_l.
Qed.

(** *** Renewal *)

Lemma exec_Renew ctx name duration w p :
  ctx_Callee ctx = registry → name ≠ EmptyString → duration ≠ 0%Z → is_Some (w_state w registry name) →
  (now ctx ≤ expiry w name +u GRACEPERIOD)%Z → (now ctx +u GRACEPERIOD ≤ (now ctx +u duration) +u GRACEPERIOD)%Z →
  (exec (getPrice ctx name (expiry w name) duration) w).1 = Some (Some p) →
  (pr_premium p +u pr_base p ≤ u64 (w_balance w (NewAddressByStr (ctx_Caller ctx))))%Z →
  ∃ w', exec (Renew ctx name duration) w = (Some (Success None), w') ∧
    w_state w' registry Level1Domain = Some (json_text (<[name := expiry w name +u duration]> (expiries w))).
Proof.
  intros Hc Hn Hd [v Hv] Hgrace Hfits Hp Hpay. unfold Renew. rewrite decide_False, decide_False by done. rewrite exec_bind.
  unfold checkNameAvailable, Has. cbn [exec]. rewrite Hc, Hv. cbn [exec]. rewrite bool_decide_true by (by eexists). cbn [negb].
  rewrite exec_bind. cbn [account_Balance exec]. unfold mret at 1, prog_mret. cbn [exec].
  rewrite exec_bind. unfold getLevel1Domain. rewrite exec_GetInto, Hc. fold (expiries w). cbv zeta. fold (expiry w name).
  rewrite decide_False by lia. rewrite exec_bind. destruct (exec (getPrice _ _ _ _) w) as [q w0] eqn:Eq. cbn in Hp. subst q.
  apply reads_only_run in Eq as ->; [|apply getPrice_reads]. rewrite decide_False by lia.
  rewrite exec_bind, exec_SetObject_json, exec_bind, exec_account_SubBalance, Hc. eexists. split; [done|].
  case_decide; cbn [w_state w_setBalance]; by rewrite state_set, decide_True.
Qed.

(** Anybody can renew a name, and the new expiry wraps around: with the right time it becomes zero, and the name can be
registered by somebody else. *)
Theorem renewal_ends_name ctx name w p :
  ctx_Callee ctx = registry → name ≠ EmptyString → is_Some (w_state w registry name) →
  Forall is_ascii (map_to_list (expiries w)).*1 → is_ascii name →
  (now ctx + GRACEPERIOD < expiry w name < 2 ^ 64 - GRACEPERIOD)%Z →
  (exec (getPrice ctx name (expiry w name) (2 ^ 64 - expiry w name)) w).1 = Some (Some p) →
  (pr_premium p +u pr_base p ≤ u64 (w_balance w (NewAddressByStr (ctx_Caller ctx))))%Z →
  ∃ w', exec (Renew ctx name (2 ^ 64 - expiry w name)) w = (Some (Success None), w') ∧ expiry w' name = 0%Z.
Proof.
  intros Hc Hn Hv Hasc Hname He Hp Hpay. assert (0 ≤ now ctx)%Z as Hnow by apply (u64_range _).
  assert (now ctx < 2 ^ 64)%Z as Hnow2 by apply (u64_range _). unfold GRACEPERIOD in *.
  destruct (exec_Renew ctx name (2 ^ 64 - expiry w name) w p) as (w' & E & Hw'); try done; unfold GRACEPERIOD.
  - lia.
  - rewrite u64_small by (unfold is_u64; lia). lia.
  - rewrite !u64_small by (unfold is_u64; repeat rewrite u64_small by (unfold is_u64; lia); lia). lia.
  - exists w'. split; [done|]. unfold expiry at 1, expiries. rewrite Hw', (held_json (text := λ m : gmap string Z, (map_to_list m).*1)).
    + rewrite lookup_insert_eq. cbn. unfold u64. replace (expiry w name + (2 ^ 64 - expiry w name))%Z with (2 ^ 64)%Z by lia. done.
    + by apply text_insert.
Qed.

(** *** Results of proposals *)

(** [Manage] does not look at who calls it: anybody can become the owner of any name, registered or not. *)
Theorem anyone_takes_names ctx d w last obj :
  ctx_Callee ctx = registry → Forall is_ascii (ProposalData_text d) → NewAddressByStr (sp_Resolver d) = resolver_addr →
  sp_Onwer d = ctx_Caller ctx → rec_ascii (rec_or_new w (generateSubDomain (sp_ParentName d) (sp_SonName d))) →
  ∃ w', exec (bns_Manage ctx EventRegister APPROVED last obj (Some (json_text d))) w = (Some (Success None), w') ∧
    owner_of w' (generateSubDomain (sp_ParentName d) (sp_SonName d)) = Some (ctx_Caller ctx).
Proof.
  intros Hc Hd Hr Hown Hrec. set (son := generateSubDomain (sp_ParentName d) (sp_SonName d)) in *.
  assert (son ≠ sp_ParentName d) as Hne by apply generateSubDomain_ne.
  unfold ProposalData_text in Hd. rewrite !Forall_cons in Hd. destruct Hd as (Hpa & Hpo & Hso & Hon & Hre & Hse & _).
  apply rec_ascii_iff in Hrec as (Ho & Hres' & Hpar & Hsub & Hrev).
  unfold bns_Manage. rewrite !decide_True by done. rewrite exec_bind. unfold bns_manageRegisterApprove. cbn [default from_option id].
  rewrite (json_text_ok (text := ProposalData_text)) by (by repeat (apply Forall_cons; split; [done|])).
  rewrite exec_bind. unfold setSubRecord. rewrite exec_bind, exec_setSubDomainOwner by done. cbv zeta. fold son.
  rewrite exec_bind. unfold setResolver. rewrite exec_bind, exec_GetInto, exec_SetObject_json, Hc.
  match goal with |- context [held no_rec (w_state ?x registry son)] => fold (rec_or_new x son) end.
  rewrite !rec_or_new_set, !(decide_False (P := son = sp_ParentName d)) by done. rewrite !(decide_True (P := son = son)) by done.
  rewrite held_json by (apply rec_ascii_iff; cbn; done).
  match goal with |- context [w_setState (w_setState ?x registry son ?v1) registry son ?v2] => set (w3 := w_setState (w_setState x registry son v1) registry son v2) end.
  assert (rec_of w3 son = Some (with_sd_Resolver (with_sd_Parent (with_sd_Owner (rec_or_new w son) (sp_Onwer d)) (sp_ParentName d)) (sp_Resolver d))) as Hrec3.
  { unfold rec_of, w3. rewrite stored_set, decide_True by done. apply (json_text_ok (text := Rec_text)), rec_ascii_iff. done. }
  cbn [exec mret prog_mret]. rewrite exec_bind. unfold resolver_call. rewrite Hr. cbv zeta. rewrite exec_CrossInvoke. unfold at_resolver.
  rewrite decide_True by done. rewrite exec_SetServDomainData by apply full_ne_empty. unfold controls. rewrite Hrec3. cbn [sd_Owner with_sd_Resolver with_sd_Parent with_sd_Owner].
  rewrite bool_decide_true by done. cbn [orb resp_Ok negb]. rewrite exec_bind, exec_GetInto, exec_bind. unfold setPreRegister.
  rewrite exec_SetObject_json. cbn [exec mret prog_mret]. eexists. split; [done|].
  unfold owner_of, rec_of. rewrite Hc, stored_set, decide_False, stored_set, decide_False.
  - fold (rec_of w3 son). rewrite Hrec3. cbn. by rewrite Hown.
  - intros [E _]. by apply resolver_ne.
  - intros [_ E]. by apply (dotted_ne son PreRegister); [apply generateSubDomain_dotted|done|].
Qed.
End names.

(** ** Lists of names do not depend on the order of maps

[GetSubDomain] and [GetAllDomains] collect names by going through maps, in an order that Go does not fix, and sort
them so that all nodes answer alike. *)

Lemma string_ltb_asym x y : String.ltb x y = true → String.ltb y x = false.
Proof.
  intros Hxy. destruct (String.ltb y x) eqn:E; [|done]. pose proof (string_ltb_trans _ _ _ Hxy E) as Hxx.
  by rewrite string_ltb_irrefl in Hxx.
Qed.

Lemma string_nlt_trans x y z : String.ltb y x = false → String.ltb z y = false → String.ltb z x = false.
Proof.
  intros Hyx Hzy. destruct (String.ltb z x) eqn:Hzx; [|done]. destruct (String.ltb x y) eqn:Hxy.
  - by rewrite (string_ltb_trans _ _ _ Hzx Hxy) in Hzy.
  - pose proof (string_ltb_total _ _ Hxy Hyx) as ->. congruence.
Qed.

Lemma domain_less_alt x y :
  domain_less x y = if decide (dm_ParentName x = dm_ParentName y) then String.ltb (dm_Name x) (dm_Name y)
                    else String.ltb (dm_ParentName x) (dm_ParentName y).
Proof. unfold domain_less. destruct (decide (dm_ParentName x = dm_ParentName y)); [by rewrite decide_False by tauto|by rewrite decide_True]. Qed.

Lemma domain_less_asym x y : domain_less x y = true → domain_less y x = false.
Proof. rewrite !domain_less_alt. repeat case_decide; try congruence; apply string_ltb_asym. Qed.

Lemma domain_less_nlt_trans x y z : domain_less y x = false → domain_less z y = false → domain_less z x = false.
Proof.
  rewrite !domain_less_alt. intros Hyx Hzy.
  destruct (decide (dm_ParentName z = dm_ParentName x)) as [Dzx|Dzx], (decide (dm_ParentName y = dm_ParentName x)) as [Dyx|Dyx],
    (decide (dm_ParentName z = dm_ParentName y)) as [Dzy|Dzy]; try congruence.
  - by apply (string_nlt_trans _ (dm_Name y)).
  - rewrite Dzx in Hzy. pose proof (string_ltb_total _ _ Hzy Hyx). congruence.
  - by apply (string_nlt_trans _ (dm_ParentName y)).
Qed.

Lemma domain_less_total x y :
  domain_less x y = false → domain_less y x = false → dm_ParentName x = dm_ParentName y ∧ dm_Name x = dm_Name y.
Proof.
  rewrite !domain_less_alt. intros Hxy Hyx. case_decide as D1; case_decide as D2; try congruence.
  - split; [done|]. by apply string_ltb_total.
  - by destruct D1; apply string_ltb_total.
Qed.

(** Sorting lists with the same elements gives the same list, whatever the algorithm is. *)
Lemma sort_unique {A} (S1 S2 : GoSort) (less : A → A → bool) l1 l2 :
  (∀ x y, less x y = true → less y x = false) → (∀ x y z, less y x = false → less z y = false → less z x = false) →
  (∀ x y, x ∈ l1 → y ∈ l1 → less x y = false → less y x = false → x = y) →
  l1 ≡ₚ l2 → @go_sort S1 _ less l1 = @go_sort S2 _ less l2.
Proof.
  intros Hasym Htrans Hanti Hp. apply (StronglySorted_unique_strong (λ x y, less y x = false)).
  - intros x y Hx Hy Hyx Hxy. apply Hanti; [by rewrite go_sort_perm in Hx| |done|done].
    rewrite go_sort_perm in Hy. by rewrite Hp.
  - by apply go_sort_sorted.
  - by apply go_sort_sorted.
  - by rewrite !go_sort_perm.
Qed.

Lemma go_keys_perm (R1 R2 : GoRange) {K V} `{Countable K} (m : gmap K V) : @go_keys R1 _ _ _ _ m ≡ₚ @go_keys R2 _ _ _ _ m.
Proof. unfold go_keys. by rewrite !go_range_perm. Qed.

Lemma flagged_perm (R1 R2 : GoRange) m : @flagged R1 m ≡ₚ @flagged R2 m.
Proof. unfold flagged. by rewrite (go_keys_perm R1 R2). Qed.

Lemma elem_of_flagged {R : GoRange} m k : k ∈ flagged m ↔ flag m k = true.
Proof.
  unfold flagged. rewrite list_elem_of_filter, elem_of_go_keys, Is_true_true. split; [by intros [? _]|].
  intros Hf. split; [done|]. unfold flag in Hf. destruct (default ∅ m !! k) eqn:E; [by eexists|].
  done.
Qed.

Lemma bind_pointwise {A B} (f g : A → list B) l : (∀ x, f x ≡ₚ g x) → l ≫= f ≡ₚ l ≫= g.
Proof. intros Hfg. induction l as [|x l IH]; [done|]. cbn. by rewrite Hfg, IH. Qed.

Section order.
Context `{ConstantLib, !GovAddrLib, !NameLib}.
Context (R1 R2 : GoRange) (S1 S2 : GoSort).
Notation registry := ServiceRegistryContractAddr.
Context (ctx : Context) (Hc : ctx_Callee ctx = registry) (w : world).

Definition domains_below {R : GoRange} (first : string) (r : ServDomainRec) : list ServDomain :=
  MkServDomain first LevelOne RegisteredDomain RootDomain ::
    ((λ d, MkServDomain d LevelTwo RegisteredDomain first) <$> flagged (sd_SubDomain r)) ++
    ((λ d, MkServDomain d LevelTwo ReviewedDomain first) <$> flagged (sd_SubDomainInReview r)).

Lemma domains_below_perm first r : @domains_below R1 first r ≡ₚ @domains_below R2 first r.
Proof. unfold domains_below. by rewrite (flagged_perm R1 R2 (sd_SubDomain r)), (flagged_perm R1 R2 (sd_SubDomainInReview r)). Qed.

(** All records, or the error. *)
Lemma exec_domainsOfAll {R : GoRange} l :
  exec (domainsOfAll ctx l) w =
  (Some (if decide (Forall (λ k, is_Some (rec_of w k)) l)
         then Some (l ≫= λ k, domains_below k (default no_rec (rec_of w k))) else None), w).
Proof.
  induction l as [|k l IH]; [done|]. cbn [domainsOfAll]. rewrite exec_bind. unfold domainsOf. rewrite exec_bind, exec_read, Hc.
  fold (rec_of w k). destruct (rec_of w k) as [r|] eqn:E; cbn [exec mret prog_mret].
  - rewrite exec_bind, IH. destruct (decide (Forall (λ k, is_Some (rec_of w k)) l)) as [Hl|Hl].
    + rewrite decide_True by (apply Forall_cons; split; [by rewrite E|done]). cbn. by rewrite E.
    + rewrite decide_False by (rewrite Forall_cons; tauto). done.
  - rewrite decide_False; [done|]. rewrite Forall_cons, E. intros [[] _]. done.
Qed.

Lemma elem_of_all {R : GoRange} l d :
  d ∈ (l ≫= λ k, domains_below k (default no_rec (rec_of w k))) ↔
  ∃ k, k ∈ l ∧ (d = MkServDomain k LevelOne RegisteredDomain RootDomain ∨
    (∃ s, d = MkServDomain s LevelTwo RegisteredDomain k ∧ flag (sd_SubDomain (default no_rec (rec_of w k))) s = true) ∨
    (∃ s, d = MkServDomain s LevelTwo ReviewedDomain k ∧ flag (sd_SubDomainInReview (default no_rec (rec_of w k))) s = true)).
Proof.
  rewrite list_elem_of_bind. split.
  - intros (k & Hd & Hk). exists k. split; [done|]. unfold domains_below in Hd.
    rewrite elem_of_cons, elem_of_app, !list_elem_of_fmap in Hd. setoid_rewrite elem_of_flagged in Hd. naive_solver.
  - intros (k & Hk & Hd). exists k. split; [|done]. unfold domains_below.
    rewrite elem_of_cons, elem_of_app, !list_elem_of_fmap. setoid_rewrite elem_of_flagged. naive_solver.
Qed.

(** C33: The list of all domains is the same on all nodes: it depends neither on the order in which a node goes through its
maps nor on the sorting algorithm, as long as the root domain and the empty name are not names of the first level and no
domain is both registered and in review. *)
Theorem all_domains_same (names : gmap string Z) :
  stored w registry Level1Domain = Some names → names !! RootDomain = None → names !! EmptyString = None →
  (∀ k r s, is_Some (names !! k) → rec_of w k = Some r →
     ¬ (flag (sd_SubDomain r) s = true ∧ flag (sd_SubDomainInReview r) s = true)) →
  exec (@GetAllDomains _ _ R1 S1 _ ctx) w = exec (@GetAllDomains _ _ R2 S2 _ ctx) w.
Proof.
  intros Hn Hroot Hempty Hone. unfold GetAllDomains. rewrite !exec_bind, !exec_read, Hc, Hn, !exec_bind, !exec_domainsOfAll.
  pose proof (go_keys_perm R1 R2 names) as Hp.
  destruct (decide (Forall (λ k, is_Some (rec_of w k)) (@go_keys R1 _ _ _ _ names))) as [Hl|Hl].
  2: { rewrite decide_False; [done|]. by rewrite <-Hp. }
  rewrite decide_True by (by rewrite <-Hp). cbn [exec mret prog_mret].
  f_equal. f_equal. rewrite (sort_unique S1 S2 domain_less _
    (MkServDomain RootDomain LevelZero RegisteredDomain EmptyString ::
       (@go_keys R2 _ _ _ _ names ≫= λ k, @domains_below R2 k (default no_rec (rec_of w k))))); [done| | | |].
  - apply domain_less_asym.
  - apply domain_less_nlt_trans.
  - intros x y Hx Hy Hxy Hyx. destruct (domain_less_total _ _ Hxy Hyx) as [Ep En].
    apply elem_of_cons in Hx, Hy. rewrite !elem_of_all in Hx, Hy. setoid_rewrite elem_of_go_keys in Hx. setoid_rewrite elem_of_go_keys in Hy.
    assert (∀ k s, is_Some (names !! k) → flag (sd_SubDomain (default no_rec (rec_of w k))) s = true →
      flag (sd_SubDomainInReview (default no_rec (rec_of w k))) s = true → False) as Hone'.
    { intros k s Hk Ha Hb. destruct (rec_of w k) as [r|] eqn:Er; [by apply (Hone k r s)|]. done. }
    destruct Hx as [->|(k & Hk & [->|[(s & -> & Hs)|(s & -> & Hs)]])], Hy as [->|(k' & Hk' & [->|[(s' & -> & Hs')|(s' & -> & Hs')]])];
      cbn [dm_ParentName dm_Name] in Ep, En; subst; try reflexivity; try discriminate; exfalso;
      first [ by match goal with Hx : is_Some (names !! EmptyString) |- _ => rewrite Hempty in Hx; destruct Hx end
            | by match goal with Hx : is_Some (names !! RootDomain) |- _ => rewrite Hroot in Hx; destruct Hx end
            | by eapply Hone' ].
  - constructor. rewrite Hp. apply bind_pointwise. intros k. apply domains_below_perm.
Qed.
End order.
