(* ===== verification/RegistrySteps.v ===== *)
(** * The registries change proposals through the governance contract only

The contracts for nodes, chains, rules, services, applications and names carry out the results of proposals, and
call each other and the governance contract while doing so. This file shows that their [Manage] methods are
made of the steps of [GovernanceSteps.v], to any depth of calls, so that the theorems about the governance
contract hold with all of them ([manage_all]). *)
From Stdlib Require Import Ascii.
From S2P Require Import Prelude Storage Account StateLedger Contract TransactionManager Interchain Transactions Role Governance Strategy.
From S2P Require Import Registry Nodes RoleManager Names NamesTheorems Dapp Appchain Service Rule AppchainManager RuleManager NodeManager.
From S2P Require Import GovernanceProps GovernanceSteps GovernanceTheorems RoleSteps.

Section steps.
Context `{TxPbLib, PbLib}.
Context `{GovernanceLib, GovJsonLib, ProposalJsonLib, StrategyJsonLib, EvalLib, FsmLib, ConstantLib, !GovAddrLib, GoRange, !RoleLib, !NodePkg, QueryLib}.
Context `{!AppchainPkg, !RulePkg, !ServicePkg, HashLib, !BindLib, AppchainJsonLib, RuleJsonLib, !DappLib, GoSort, !NameLib}.
Implicit Types (w : world).

(** ** What the packages do *)

Section packages.
Context (ctx : Context) (Hctx : ctx_Callee ctx ≠ GovernanceContractAddr).

Lemma safe_own {A} (m : prog A) : writes_only (λ a _, a = ctx_Callee ctx) m → safe (λ _, True) m.
Proof. intros Hm. apply foreign_safe. eapply writes_only_weaken; [|exact Hm]. by intros a _ ->. Qed.

Lemma safe_reads {A} (m : prog A) : writes_only (λ _ _, False) m → safe (λ _, True) m.
Proof. intros Hm. by apply foreign_safe, foreign_reads. Qed.

Lemma safe_ChangeStatus {O} `{RegistryPkg O} id trigger last extra :
  safe (λ _, True) (rg_ChangeStatus (O := O) ctx id trigger last extra).
Proof. apply safe_own, rg_ChangeStatus_own. Qed.
Lemma safe_GovernancePre {O} `{RegistryPkg O} id ev extra : safe (λ _, True) (rg_GovernancePre (O := O) ctx id ev extra).
Proof. apply safe_reads, rg_GovernancePre_reads. Qed.
Lemma safe_QueryById {O} `{RegistryPkg O} id extra : safe (λ _, True) (rg_QueryById (O := O) ctx id extra).
Proof. apply safe_reads, rg_QueryById_reads. Qed.
Lemma safe_All {O} `{RegistryPkg O} extra : safe (λ _, True) (rg_All (O := O) ctx extra).
Proof. apply safe_reads, rg_All_reads. Qed.

Lemma safe_find {A B} (f : A → prog (option B)) l : (∀ x, safe (λ _, True) (f x)) → safe (λ _, True) (prog_find f l).
Proof.
  intros Hf. induction l as [|x l IH]; cbn [prog_find]; [apply safe_ret|]. apply safe_bind; [done|].
  intros [b|]; [apply safe_ret|exact IH].
Qed.

(** The check of a method that only some contracts may call reads nothing. *)
Lemma onlyFrom_reads check c1 c2 id l :
  (∀ d, writes_only (λ _ _, False) (check [PermissionSpecific] id (ctx_CurrentCaller ctx) d)) →
  safe (λ _, True) (onlyFrom ctx check c1 c2 id l).
Proof.
  intros Hc. unfold onlyFrom. destruct (marshal l) as [d|]; [|apply safe_ret]. apply safe_bind; [by apply safe_reads|].
  intros b. apply safe_ret.
Qed.
End packages.

#[local] Hint Resolve safe_ChangeStatus safe_GovernancePre safe_QueryById safe_All safe_find : safe.

(** ** What other contracts are asked *)

Section asked.
Context (ctx : Context) (Hctx : ctx_Callee ctx ≠ GovernanceContractAddr).

#[local] Hint Resolve safe_role_specific : safe.

Lemma safe_FreeAccount addrs : safe (λ _, True) (FreeAccount ctx addrs).
Proof. unfold FreeAccount, freeAccount. safe_auto. Qed.
Lemma safe_UpdateAppchainAdmin id addrs : safe (λ _, True) (UpdateAppchainAdmin ctx id addrs).
Proof.
  assert (∀ l, safe (λ _, True) (audit_roles ctx l)) as Ha.
  { intros l. induction l as [|a l IH]; cbn [audit_roles]; unfold postAuditRoleEvent; safe_auto. }
  unfold UpdateAppchainAdmin, updateAppchainAdmin. safe_auto.
Qed.
Lemma safe_IsAnyAvailableAdmin id t : safe (λ _, True) (IsAnyAvailableAdmin ctx id t).
Proof. unfold IsAnyAvailableAdmin, isAvailableAdmin. safe_auto. Qed.
Lemma safe_GetRoleInfoById id : safe (λ _, True) (GetRoleInfoById ctx id).
Proof. unfold GetRoleInfoById. safe_auto. Qed.
Lemma safe_IsAvailableChain id : safe (λ _, True) (am_IsAvailableChain ctx id).
Proof. unfold am_IsAvailableChain. safe_auto. Qed.
Lemma safe_Register id : safe (λ _, True) (Interchain.Register ctx id).
Proof.
  unfold Interchain.Register, getBitXHubID, getInterchain, setInterchain, postAuditInterchainEvent, parseChainService.
  safe_auto. by apply (safe_own ctx).
Qed.

(** *** Rules *)

Lemma safe_rule_onlyFrom id l : safe (λ _, True) (rule_onlyFrom ctx id l).
Proof.
  apply onlyFrom_reads. intros d. cbn [chain_checkPermission].
  rewrite decide_False, decide_False, decide_True by done. by destruct (isSpecific _ _) as [[]|].
Qed.
Lemma safe_rule_audited id r : safe (λ _, True) (rule_audited ctx id r).
Proof. unfold rule_audited, postAuditRuleEvent. safe_auto. Qed.
Lemma safe_rm_Register chain addr url t def : safe (λ _, True) (rm_Register ctx chain addr url t def).
Proof. apply (safe_own ctx); [done|]. apply rm_Register_own. Qed.
#[local] Hint Resolve safe_rule_onlyFrom safe_rule_audited safe_rm_Register : safe.

Lemma safe_RegisterRuleFirst chain typ addr url : safe (λ _, True) (RegisterRuleFirst ctx chain typ addr url).
Proof. unfold RegisterRuleFirst, registerDefaultRule. safe_auto. Qed.

Lemma safe_EndObj objId :
  safe (λ _, True) (CrossInvoke ctx GovernanceContractAddr (λ gctx, EndObjProposal gctx objId ClearReason None)).
Proof. apply safe_cross, EndObjProposal_safe; [done|vm_compute; exact I..]. Qed.

Lemma safe_ClearRule chain : safe (λ _, True) (ClearRule ctx chain).
Proof.
  assert (∀ rules b, safe (λ _, True) (clearRules ctx chain rules b)) as Hc.
  { intros rules. induction rules as [|r rules IH]; intros b; cbn [clearRules]; safe_auto. }
  pose proof safe_EndObj as He. unfold ClearRule. safe_auto.
Qed.
End asked.
#[local] Hint Resolve safe_FreeAccount safe_UpdateAppchainAdmin safe_IsAnyAvailableAdmin safe_GetRoleInfoById
  safe_IsAvailableChain safe_Register safe_rule_onlyFrom safe_rule_audited safe_rm_Register safe_RegisterRuleFirst
  safe_EndObj safe_ClearRule : safe.

Lemma safe_call ctx address method :
  address ≠ GovernanceContractAddr →
  (∀ c, ctx_Callee c ≠ GovernanceContractAddr → safe (λ _, True) (method c)) →
  safe (λ _, True) (CrossInvoke ctx address method).
Proof. intros Ha Hm. by apply safe_cross, Hm. Qed.
#[local] Hint Resolve safe_call : safe.

(** ** Results of proposals *)

Section contracts.
Context {Mlib : ManageLib}.
Context (ctx : Context) (Hctx : ctx_Callee ctx ≠ GovernanceContractAddr).

(** *** Applications *)

Lemma safe_dapp_onlyFrom c1 c2 id l : safe (λ _, True) (onlyFrom ctx (dapp_checkPermission ctx) c1 c2 id l).
Proof.
  apply onlyFrom_reads. intros d. cbn [dapp_checkPermission].
  rewrite decide_False, decide_False, decide_True by done. by destruct (isSpecific _ _) as [[]|].
Qed.
#[local] Hint Resolve safe_dapp_onlyFrom : safe.

Lemma safe_dapp_Manage ev next last objId extra : safe (λ _, True) (dapp_Manage ctx ev next last objId extra).
Proof.
  unfold dapp_Manage, dapp_changeStatus, dapp_approve, dapp_reject, dapp_register, dapp_update, dapp_transfer, addToOwner,
    occupyContractAddr, freeContractAddr, freeDappName, dapp_audited, postAuditDappEvent. safe_auto.
Qed.

(** *** Services *)

Lemma safe_service_onlyFrom id l : safe (λ _, True) (service_onlyFrom ctx id l).
Proof.
  apply onlyFrom_reads. intros d. cbn [chain_checkPermission].
  rewrite decide_False, decide_False, decide_True by done. by destruct (isSpecific _ _) as [[]|].
Qed.

Lemma safe_service_posted id r : safe (λ _, True) (service_posted ctx id r).
Proof. unfold service_posted, postAuditServiceEvent, postServiceEvent. safe_auto. Qed.

Lemma safe_Lock id ev : safe (λ _, True) (CrossInvoke ctx GovernanceContractAddr (λ gctx, LockLowPriorityProposal gctx id ev)).
Proof. by apply safe_cross, LockLowPriorityProposal_safe. Qed.

Lemma safe_Unlock id ev :
  safe (λ _, True) (CrossInvoke ctx GovernanceContractAddr (λ gctx, UnLockLowPriorityProposal Manage gctx id ev)).
Proof. by apply safe_cross, UnLockLowPriorityProposal_safe. Qed.
#[local] Hint Resolve safe_service_onlyFrom safe_service_posted safe_Lock safe_Unlock : safe.

Lemma safe_pauseService id : safe (λ _, True) (pauseService ctx id).
Proof. unfold pauseService, service_move. safe_auto. Qed.
Lemma safe_unPauseService id : safe (λ _, True) (unPauseService Manage ctx id).
Proof. unfold unPauseService, service_move. safe_auto. Qed.
Lemma safe_clearService id : safe (λ _, True) (clearService ctx id).
Proof. unfold clearService, service_move. safe_auto. Qed.
#[local] Hint Resolve safe_pauseService safe_unPauseService safe_clearService : safe.

Lemma safe_chainServices change id :
  (∀ s, safe (λ _, True) (change s)) → safe (λ _, True) (chainServices ctx change id).
Proof.
  intros Hc. assert (∀ l, safe (λ _, True) (forServices ctx change l)) as Hf.
  { intros l. induction l as [|s l IH]; cbn [forServices]; safe_auto. }
  assert (∀ chain, safe (λ _, True) (sm_GetIDListByChainID ctx chain)) by (intros; apply safe_reads, sm_GetIDListByChainID_reads).
  unfold chainServices. safe_auto.
Qed.

Lemma safe_pauseIfUnavailable id : safe (λ _, True) (pauseIfUnavailable ctx id).
Proof. unfold pauseIfUnavailable. safe_auto. Qed.
#[local] Hint Resolve safe_pauseIfUnavailable : safe.

Lemma safe_service_Manage ev next last objId extra : safe (λ _, True) (service_Manage ctx ev next last objId extra).
Proof.
  assert (∀ s, safe (λ _, True) (sm_Register ctx s)) by (intros; apply (safe_own ctx); [done|apply sm_Register_own]).
  assert (∀ s, safe (λ _, True) (sm_Update ctx s)) by (intros; apply (safe_own ctx); [done|apply sm_Update_own]).
  unfold service_Manage, service_approve, service_reject, freeServiceName. safe_auto.
Qed.
End contracts.
#[local] Hint Resolve safe_service_onlyFrom safe_service_posted safe_Lock safe_Unlock safe_pauseService safe_unPauseService
  safe_clearService : safe.

Section chains.
Context {Mlib : ManageLib}.

Lemma safe_PauseChainService ctx id : ctx_Callee ctx ≠ GovernanceContractAddr → safe (λ _, True) (PauseChainService ctx id).
Proof. intros. apply safe_chainServices. intros s. by apply safe_pauseService. Qed.
Lemma safe_UnPauseChainService ctx id : ctx_Callee ctx ≠ GovernanceContractAddr → safe (λ _, True) (UnPauseChainService Manage ctx id).
Proof. intros. apply safe_chainServices. intros s. by apply safe_unPauseService. Qed.
Lemma safe_ClearChainService ctx id : ctx_Callee ctx ≠ GovernanceContractAddr → safe (λ _, True) (ClearChainService ctx id).
Proof. intros. apply safe_chainServices. intros s. by apply safe_clearService. Qed.
#[local] Hint Resolve safe_PauseChainService safe_UnPauseChainService safe_ClearChainService : safe.

Context (ctx : Context) (Hctx : ctx_Callee ctx ≠ GovernanceContractAddr).

Lemma safe_chain_onlyFrom id l : safe (λ _, True) (chain_onlyFrom ctx id l).
Proof.
  apply onlyFrom_reads. intros d. cbn [appchain_checkPermission].
  rewrite decide_False, decide_False, decide_True by done. by destruct (isSpecific _ _) as [[]|].
Qed.
Lemma safe_chain_audited id r : safe (λ _, True) (chain_audited ctx id r).
Proof. unfold chain_audited, postAuditAppchainEvent. safe_auto. Qed.
#[local] Hint Resolve safe_chain_onlyFrom safe_chain_audited : safe.

Lemma safe_chain_Manage ev next last objId extra : safe (λ _, True) (chain_Manage Manage ctx ev next last objId extra).
Proof.
  assert (∀ s, safe (λ _, True) (am_Register ctx s)) by (intros; apply (safe_own ctx); [done|apply am_Register_own]).
  assert (∀ s, safe (λ _, True) (am_Update ctx s)) by (intros; apply (safe_own ctx); [done|apply am_Update_own]).
  unfold chain_Manage, chain_approve, chain_reject, manageRegisterApprove, manageRegisterReject, manageUpdateApprove,
    manageUpdateReject, replaceAdmins, recordChainAdmins, registerRelayChain, freeChainID, freeChainName, services,
    freeAccounts, updateAdmins. safe_auto.
Qed.

Lemma safe_UnPauseAppchain id last : safe (λ _, True) (UnPauseAppchain Manage ctx id last).
Proof. unfold UnPauseAppchain, services. safe_auto. Qed.
End chains.
#[local] Hint Resolve safe_UnPauseAppchain : safe.

Section nodes.
Context {Mlib : ManageLib}.
Context (ctx : Context) (Hctx : ctx_Callee ctx ≠ GovernanceContractAddr).

Lemma safe_rule_Manage ev next last objId extra : safe (λ _, True) (rule_Manage Manage ctx ev next last objId extra).
Proof. unfold rule_Manage. safe_auto. Qed.

Lemma safe_node_onlyFrom id l : safe (λ _, True) (node_onlyFrom ctx id l).
Proof. apply safe_reads, node_onlyFrom_reads. Qed.
Lemma safe_unbindNode id : safe (λ _, True) (unbindNode ctx id).
Proof. apply (safe_own ctx); [done|]. apply unbindNode_own. Qed.
Lemma safe_node_audited id r : safe (λ _, True) (node_audited ctx id r).
Proof. apply safe_reads, node_audited_writes. Qed.
#[local] Hint Resolve safe_role_specific safe_role_changeStatus safe_role_pre safe_role_audited safe_endObj : safe.

Lemma safe_forBoundRole c id f :
  ctx_Callee c ≠ GovernanceContractAddr → (∀ r, safe (λ _, True) (f r)) → safe (λ _, True) (forBoundRole c id f).
Proof. intros Hc Hf. unfold forBoundRole, getBindRoleByNodeID, role_getAll. safe_auto. Qed.

Lemma safe_PauseAuditAdmin c id : ctx_Callee c ≠ GovernanceContractAddr → safe (λ _, True) (PauseAuditAdmin c id).
Proof. intros Hc. apply safe_forBoundRole; [done|]. intros r. unfold pauseAuditAdmin. safe_auto. Qed.
Lemma safe_RestoreBinding c id : ctx_Callee c ≠ GovernanceContractAddr → safe (λ _, True) (RestoreAuditAdminBinding Manage c id).
Proof. intros Hc. apply safe_forBoundRole; [done|]. intros r. unfold restoreAuditAdmin. safe_auto. Qed.
#[local] Hint Resolve safe_node_onlyFrom safe_unbindNode safe_node_audited safe_PauseAuditAdmin safe_RestoreBinding : safe.

Lemma safe_node_Manage ev next last objId extra : safe (λ _, True) (node_Manage Manage ctx ev next last objId extra).
Proof.
  assert (∀ s, safe (λ _, True) (nm_Register ctx s)) by (intros; apply (safe_own ctx); [done|apply nm_Register_own]).
  assert (∀ s, safe (λ _, True) (nm_Update ctx s)) by (intros; apply (safe_own ctx); [done|apply nm_Update_own]).
  unfold node_Manage, processApproveProposal, processRejectProposal, rejectLogout, unbindIfUnavailable, postNodeEvent,
    freeNodeName, freeNodePid. safe_auto.
Qed.
End nodes.

(** *** Names *)

Lemma safe_bns_Manage ctx ev next last objId extra :
  ctx_Callee ctx ≠ GovernanceContractAddr → safe (λ _, True) (bns_Manage ctx ev next last objId extra).
Proof.
  intros Hctx. apply foreign_safe. unfold foreign.
  assert (∀ A (E : Encoding A) k (v : A), writes_only (λ a _, a ≠ GovernanceContractAddr) (SetObject ctx k v)) as Hset.
  { intros A E k v. by apply SetObject_writes. }
  assert (∀ resolver name coin addr sn des dids,
    writes_only (λ a _, a ≠ GovernanceContractAddr)
      (resolver_call ctx resolver (λ c, SetServDomainData c name coin addr sn des dids))) as Hdata.
  { intros. apply resolver_call_writes. intros c Hc. eapply writes_only_weaken; [|apply (run_resolver_writes c name (RSetServDomainData _ _ _ _ _))].
    intros a k [-> _]. rewrite Hc. pose proof resolver_addr_new as Hn. rewrite not_elem_of_cons in Hn. tauto. }
  unfold bns_Manage, bns_manageRegisterApprove, bns_manageRegisterReject, setSubRecord, setSubDomainOwner, setResolver, setPreRegister.
  solve_writes; first [apply Hset|apply Hdata|apply into_any].
Qed.

(** ** Calls to any depth *)

(** The contracts of the registries; the remaining contracts are those of [M]. Calls that are nested deeper than [depth]
fail. *)
Fixpoint Manage_all (M : ManageLib) (depth : nat) (address ev next last objId : string) (extra : option string) (ctx : Context) :
    prog Response :=
  match depth with
  | O => Panic
  | S depth =>
      if decide (address = RoleContractAddr) then role_Manage (Manage_all M depth) ctx ev next last objId extra
      else if decide (address = ProposalStrategyMgrContractAddr) then strategy_Manage ctx ev next last objId extra
      else if decide (address = NodeManagerContractAddr) then node_Manage (Manage_all M depth) ctx ev next last objId extra
      else if decide (address = AppchainMgrContractAddr) then chain_Manage (Manage_all M depth) ctx ev next last objId extra
      else if decide (address = RuleManagerContractAddr) then rule_Manage (Manage_all M depth) ctx ev next last objId extra
      else if decide (address = ServiceMgrContractAddr) then service_Manage ctx ev next last objId extra
      else if decide (address = DappMgrContractAddr) then dapp_Manage ctx ev next last objId extra
      else if decide (address = ServiceRegistryContractAddr) then bns_Manage ctx ev next last objId extra
      else @Manage _ _ _ _ _ M address ev next last objId extra ctx
  end.

Lemma Manage_all_steps M depth address ev next last objId extra ctx w :
  ctx_Callee ctx = address → address ≠ GovernanceContractAddr → gov_inv w →
  rtc gov_step w (exec (Manage_all M depth address ev next last objId extra ctx) w).2.
Proof.
  revert address ev next last objId extra ctx w. induction depth as [|depth IH]; [done|].
  intros address ev next last objId extra ctx w Hctx Hne Hinv. cbn [Manage_all].
  pose (M' := {| Manage := Manage_all M depth; Manage_steps := IH |}). rewrite <-Hctx in Hne.
  repeat case_decide.
  - by apply (safe_role_Manage (Mlib := M')).
  - by apply safe_strategy_Manage.
  - by apply (safe_node_Manage (Mlib := M')).
  - by apply (safe_chain_Manage (Mlib := M')).
  - by apply (safe_rule_Manage (Mlib := M')).
  - by apply safe_service_Manage.
  - by apply safe_dapp_Manage.
  - by apply safe_bns_Manage.
  - apply Manage_steps; [done|by rewrite <-Hctx|done].
Qed.

(** The interface that the governance contract asks for, implemented by all registries. *)
Definition manage_all (M : ManageLib) (depth : nat) : ManageLib :=
  {| Manage := Manage_all M depth; Manage_steps := Manage_all_steps M depth |}.

(** C13: The contracts that carry out the results of proposals - for administrators, strategies, nodes, chains, rules,
services, applications and names, which call each other and the governance contract again, to any depth - change the
state of the governance contract only by its own steps (a proposal is added, moves to another status, or is
stored with a ballot, a reason or a number of electors), so its invariant still holds when they return, fail or
panic. *)
Theorem registries_keep_proposals M depth address ev next last objId extra ctx w :
  ctx_Callee ctx = address → address ≠ GovernanceContractAddr → gov_inv w →
  rtc gov_step w (exec (Manage_all M depth address ev next last objId extra ctx) w).2 ∧
  gov_inv (exec (Manage_all M depth address ev next last objId extra ctx) w).2.
Proof.
  intros Hctx Hne Hinv. pose proof (Manage_all_steps M depth address ev next last objId extra ctx w Hctx Hne Hinv) as Hs.
  split; [done|]. by eapply gov_steps_inv.
Qed.
End steps.
