(* ===== verification/RoleTheorems.v ===== *)
(** * Theorems about administrators and strategies

Who may carry out results, which administrators cannot be governed, what a change of the
administrators of a chain does to the queries, and that every strategy can still pass a proposal
when the administrators have changed. *)
From Stdlib Require Import Ascii.
From S2P Require Import Prelude Storage Account StateLedger Contract TransactionManager Role Governance Strategy Registry Nodes RoleManager.
From S2P Require Import GovernanceProps GovernanceSteps GovernanceTheorems.

(** ** The state machine of administrators

It accepts what the checks before a proposal accept, and a rejected proposal restores the status. *)

(** Distinct events and statuses, as hypotheses. *)
Ltac distinct :=
  pose proof events_NoDup as Hev; pose proof statuses_NoDup as Hst;
  repeat match goal with
         | H : NoDup (_ :: _) |- _ => apply NoDup_cons in H as [? H]
         | H : _ ∉ _ :: _ |- _ => apply not_elem_of_cons in H as [? H]
         | H : _ ∉ [] |- _ => clear H
         | H : NoDup [] |- _ => clear H
         end.

(** One transition of the table. *)
Lemma filter_desc cur ev d evs :
  filter (desc_matches cur ev) (d :: evs) =
  if decide (ed_Name d = ev) then if decide (cur ∈ ed_Src d) then d :: filter (desc_matches cur ev) evs
                                  else filter (desc_matches cur ev) evs
  else filter (desc_matches cur ev) evs.
Proof.
  rewrite filter_cons. repeat case_decide; unfold desc_matches in *; try done; exfalso; naive_solver.
Qed.

Ltac unequal := first [assumption | apply not_eq_sym; assumption].
Ltac unlisted := rewrite !not_elem_of_cons; split_and!; [unequal..|apply not_elem_of_nil].
Ltac listed := repeat first [apply list_elem_of_here | apply list_elem_of_further].

Ltac run_table :=
  repeat (rewrite filter_desc; cbn [ed_Name ed_Src ed_Dst];
          first [ rewrite decide_False by unequal
                | rewrite decide_True by reflexivity;
                  first [rewrite decide_True by listed | rewrite decide_False by unlisted] ]);
  rewrite filter_nil.

Section machine.
Context `{GovernanceLib, FsmLib}.

Lemma fsm_accept evs cur ev n src dst :
  filter (desc_matches cur ev) evs = [MkEventDesc n src dst] → dst ≠ cur → fsm_Event evs cur ev = Some dst.
Proof. intros Hf Hd. by apply (fsm_Event_ok _ _ _ _ Hf). Qed.

(** The transition of an event, when the table has one. *)
Ltac accepted := eapply fsm_accept; [unfold role_events; run_table; reflexivity|unequal].

(** What each proposal about a role asks for: the event, the status while it is open, and the status once it is
approved. *)
Definition role_proposals : list (string * string * string) :=
  [ (EventRegister, GovernanceRegisting, GovernanceAvailable);
    (EventFreeze, GovernanceFreezing, GovernanceFrozen);
    (EventActivate, GovernanceActivating, GovernanceAvailable);
    (EventLogout, GovernanceLogouting, GovernanceForbidden);
    (EventBind, GovernanceBinding, GovernanceAvailable) ].

Lemma roleStateMap_cases ev s :
  s ∈ roleStateMap ev →
  (ev = EventRegister ∧ s = GovernanceUnavailable) ∨ (ev = EventFreeze ∧ s = GovernanceAvailable) ∨
  (ev = EventActivate ∧ s = GovernanceFrozen) ∨
  (ev = EventLogout ∧ s ∈ [GovernanceAvailable; GovernanceFreezing; GovernanceActivating; GovernanceFrozen; GovernanceBinding]) ∨
  (ev = EventBind ∧ s = GovernanceFrozen) ∨ ev = EventPause ∨ ev = EventUnpause.
Proof. unfold roleStateMap. repeat case_decide; rewrite ?list_elem_of_singleton; [tauto..|by intros ?%elem_of_nil]. Qed.

(** A proposal that is opened for a role in a status that allows it always moves the role to the pending
status; when the proposal is rejected, the role is back in the status it had, and when it is
approved, the role takes the status that was asked for. *)
Theorem role_proposal_cycle ev pending granted s :
  (ev, pending, granted) ∈ role_proposals → s ∈ roleStateMap ev →
  fsm_Event (role_events s) s ev = Some pending ∧
  fsm_Event (role_events s) pending EventReject = Some s ∧
  fsm_Event (role_events s) pending EventApprove = Some granted.
Proof.
  intros Hp Hs%roleStateMap_cases. distinct. unfold role_proposals in Hp.
  repeat (apply elem_of_cons in Hp as [[= -> -> ->]|Hp]; [destruct_or? Hs; try (destruct Hs as [? Hs]); try congruence|]).
  all: try by apply elem_of_nil in Hp.
  all: subst; try (rewrite !elem_of_cons, elem_of_nil in Hs; destruct_or? Hs; try done; subst).
  all: split_and!; accepted.
Qed.
End machine.

(** ** The role contract *)

Section role_contract.
Context `{GovernanceLib, GovJsonLib, ProposalJsonLib, StrategyJsonLib, EvalLib, FsmLib, ConstantLib, !GovAddrLib, GoRange, !RoleLib, !NodePkg, QueryLib}.
Context (ctx : Context).
Implicit Types (w : world).

Definition role_at w id : option Role := d ← w_state w (ctx_Callee ctx) (RoleKey id); unmarshal d.

Lemma exec_role_specific l w :
  Forall is_ascii l →
  exec (role_checkSpecific ctx l) w =
    (Some (if decide (ctx_CurrentCaller ctx ∈ l) then None else Some (Error "RoleNoPermissionCode" [ctx_CurrentCaller ctx])), w).
Proof.
  intros Ha. unfold role_checkSpecific. destruct (json_marshals l) as [d Hd]. rewrite Hd. cbn [role_checkPermission].
  rewrite decide_False, decide_False, decide_True by done. cbn [mbind option_bind]. rewrite (json_ok l d Ha Hd).
  by repeat case_decide.
Qed.

Lemma governance_ascii : is_ascii GovernanceContractAddr.
Proof. pose proof gov_addrs_ascii as Ha. rewrite Forall_forall in Ha. apply Ha. rewrite !elem_of_cons. tauto. Qed.

Section results.
Context (Manage : string → string → string → string → string → option string → Context → prog Response).

(** Only the governance contract can carry out the result of a proposal about a role. *)
Theorem role_Manage_protected ev next last objId extra w :
  ctx_CurrentCaller ctx ≠ GovernanceContractAddr →
  exec (role_Manage Manage ctx ev next last objId extra) w = (Some (Error "RoleNoPermissionCode" [ctx_CurrentCaller ctx]), w).
Proof.
  intros Hc. unfold role_Manage. rewrite exec_bind, exec_role_specific, decide_False; [done|by rewrite list_elem_of_singleton|].
  apply Forall_singleton, governance_ascii.
Qed.

(** When an administrator that is being bound to a node was asked to log out and this is rejected, the
result cannot be carried out: the proposal to bind that was paused is announced as the next event, which
the state machine does not accept in the status of a logout, although the documentation of the
logout promises that the binding is restored. *)
Theorem rejected_logout_of_binding_fails last objId extra w r :
  ctx_CurrentCaller ctx = GovernanceContractAddr → role_at w objId = Some r → rl_Status r = GovernanceLogouting →
  exec (role_Manage Manage ctx EventLogout EventBind last objId extra) w = (Some roleErr, w).
Proof.
  intros Hc Hr Hs. unfold role_Manage.
  rewrite exec_bind, exec_role_specific by apply Forall_singleton, governance_ascii.
  rewrite decide_True by (rewrite Hc; by left). distinct. rewrite decide_False by unequal. rewrite exec_bind. unfold role_changeStatus. rewrite exec_bind, exec_GetObject.
  fold (role_at w objId). rewrite Hr. unfold role_Event. rewrite Hs. rewrite (fsm_Event_err (role_events last)); [done|].
  unfold role_events. run_table. reflexivity.
Qed.
End results.

(** An administrator with the highest weight cannot be frozen, activated, logged out or bound: whoever asks,
the answer is an error and nothing is changed. *)
Theorem super_admin_protected roleId reason permissions ev extra w r :
  role_at w roleId = Some r → rl_RoleType r = GovernanceAdmin → rl_Weight r = SuperAdminWeight →
  Forall (λ p, p = PermissionAdmin ∨ p = PermissionSelf) permissions →
  ∃ code args, exec (basicGovernance ctx roleId reason permissions ev extra) w = (Some (Error code args), w).
Proof.
  intros Hr Ht Hw Hp. unfold basicGovernance.
  assert (∃ b, exec (role_checkPermission ctx permissions roleId (ctx_CurrentCaller ctx) None) w = (Some b, w)) as [b Hb].
  { induction Hp as [|p ps Hpp _ [b IH]]; [by eexists|]. cbn [role_checkPermission]. destruct Hpp as [-> | ->].
    - rewrite decide_False, decide_True by done. rewrite exec_bind. unfold isAvailableAdmin. rewrite exec_bind, exec_GetObject.
      cbn [exec mret prog_mret]. case_match; [by eexists|eauto].
    - rewrite decide_True by done. case_decide; [by eexists|eauto]. }
  rewrite exec_bind, Hb. destruct b; cbn [negb]; [|by eexists _, _]. rewrite exec_bind. unfold role_governancePre.
  rewrite exec_bind, exec_GetObject. fold (role_at w roleId). rewrite Hr. cbn [exec mret prog_mret].
  case_decide; [|by eexists _, _]. rewrite exec_bind. unfold governable. rewrite !Ht.
  rewrite decide_False, decide_False, decide_True by done. case_decide; [by eexists _, _|]. rewrite decide_True by done. by eexists _, _.
Qed.

(** Writing a list of keys. *)
Lemma exec_iter {A} (f : A → prog ()) (key : A → string) (val : A → option string) l w :
  (∀ x w, exec (f x) w = (Some tt, w_setState w (ctx_Callee ctx) (key x) (val x))) →
  ∃ w', exec (prog_iter f l) w = (Some tt, w') ∧
    (∀ k, k ∉ key <$> l → w_state w' (ctx_Callee ctx) k = w_state w (ctx_Callee ctx) k) ∧
    (∀ k, k ∈ key <$> l → (∀ x, x ∈ l → val x = None) → w_state w' (ctx_Callee ctx) k = None).
Proof.
  intros Hf. revert w. induction l as [|x l IH]; intros w.
  { exists w. split_and!; [done|done|]. by intros k ?%elem_of_nil. }
  cbn [prog_iter]. rewrite exec_bind, Hf. destruct (IH (w_setState w (ctx_Callee ctx) (key x) (val x))) as (w' & -> & Hout & Hin).
  exists w'. split; [done|]. split.
  - intros k Hk. rewrite fmap_cons, not_elem_of_cons in Hk. destruct Hk as [Hne Hk]. rewrite (Hout k Hk). cbn. apply upd2_ne. by right.
  - intros k Hk Hnone. destruct (decide (k ∈ key <$> l)) as [Hl|Hl].
    + apply Hin; [done|]. intros y Hy. apply Hnone. by right.
    + rewrite (Hout k Hl). rewrite fmap_cons, elem_of_cons in Hk. destruct Hk as [-> |]; [|done]. cbn. rewrite upd2_eq. apply Hnone. by left.
Qed.

Lemma rolesOf_missing ids a w : a ∈ ids → role_at w a = None → exec (rolesOf ctx ids) w = (Some None, w).
Proof.
  intros Ha Hr. assert (∀ ids, (exec (rolesOf ctx ids) w).2 = w ∧ is_Some (exec (rolesOf ctx ids) w).1) as Hsame.
  { clear. intros ids. induction ids as [|id ids IH]; [split; [done|by eexists]|]. cbn [rolesOf]. rewrite exec_bind, exec_GetObject.
    destruct (mbind _ _) as [r|]; [|split; [done|by eexists]]. rewrite exec_bind.
    destruct (exec (rolesOf ctx ids) w) as [[o|] w']; cbn in *; [|by destruct IH as [_ [? ?]]]. split; [by destruct IH|by eexists]. }
  induction ids as [|id ids IH]; [by apply elem_of_nil in Ha|]. cbn [rolesOf]. rewrite exec_bind, exec_GetObject. fold (role_at w id).
  destruct (role_at w id) as [r|] eqn:E; [|done]. apply elem_of_cons in Ha as [->|Ha]; [congruence|].
  rewrite exec_bind, IH by done. done.
Qed.

Lemma om_Set_keys m l i : i ∈ om_Keys (foldl om_Set m l) ↔ i ∈ om_Keys m ∨ i ∈ l.
Proof.
  revert m. induction l as [|x l IH]; intros m; [rewrite elem_of_nil; tauto|]. cbn [foldl]. rewrite IH, elem_of_cons.
  unfold om_Set. cbn [om_Keys]. case_decide; rewrite ?elem_of_app, ?list_elem_of_singleton; [|tauto]. naive_solver.
Qed.

(** When the administrators of an application chain are replaced, the old ones are erased but stay in the
list of the chain; after that the administrators of the chain can no longer be queried. *)
Theorem replaced_admins_unreadable chain old new a w d :
  w_state w (ctx_Callee ctx) (RoleAppchainAdminKey chain) = Some d → unmarshal d = Some (MkOrderedMap old) →
  Forall is_ascii old → Forall is_ascii new → a ∈ old → a ∉ new →
  ∃ w', exec (updateAppchainAdmin ctx chain new) w = (Some tt, w') ∧
    exec (GetAppchainAdmin ctx chain) w' = (Some (Error "RoleInternalErrCode" []), w').
Proof.
  intros Hd Hu Ho Hn Ha Hna. unfold updateAppchainAdmin. rewrite exec_bind, exec_GetObject, exec_bind, exec_GetObject, Hd.
  cbn [mbind option_bind]. rewrite Hu. cbn [default id om_Keys]. cbv zeta.
  destruct (exec_iter (λ addr, Delete ctx (RoleKey addr)) RoleKey (λ _, None) old w) as (w1 & E1 & Hout1 & Hin1); [done|].
  rewrite exec_bind, E1.
  assert (∀ v : Role, ∃ e, marshal v = Some e) as Hm by (intros v; destruct (json_marshals v); eauto).
  pose (val addr := marshal (MkRole addr AppchainAdmin 0 EmptyString chain GovernanceAvailable)).
  destruct (exec_iter (λ addr, SetObject ctx (RoleKey addr) (MkRole addr AppchainAdmin 0 EmptyString chain GovernanceAvailable))
    RoleKey val new w1) as (w2 & E2 & Hout2 & _).
  { intros x w3. unfold val. destruct (Hm (MkRole x AppchainAdmin 0 EmptyString chain GovernanceAvailable)) as [e He].
    by rewrite (exec_SetObject _ _ _ _ _ He), He. }
  rewrite exec_bind, E2. set (all := foldl om_Set (default _ _) new). set (the := foldl om_Set (MkOrderedMap old) new).
  destruct (json_marshals all) as [e1 He1], (json_marshals the) as [e2 He2].
  rewrite exec_bind, (exec_SetObject _ _ _ _ _ He1), (exec_SetObject _ _ _ _ _ He2). eexists. split; [done|].
  set (w3 := w_setState _ _ _ _). unfold GetAppchainAdmin. rewrite exec_bind, exec_GetObject.
  assert (w_state w3 (ctx_Callee ctx) (RoleAppchainAdminKey chain) = Some e2) as -> by apply upd2_eq. cbn [mbind option_bind].
  assert (∀ i, i ∈ om_Keys the ↔ i ∈ old ∨ i ∈ new) as Hthe by (intros; by apply om_Set_keys).
  rewrite (json_ok the e2); [| |done].
  2:{ rewrite Forall_forall in *. intros i [?|?]%Hthe; auto. }
  rewrite exec_bind, (rolesOf_missing _ a); [done|apply Hthe; by left|].
  unfold role_at, w3. cbn. rewrite !upd2_ne by (by right). rewrite Hout2, Hin1; [done|..].
  - by apply list_elem_of_fmap_2.
  - done.
  - intros (y & E & Hy)%list_elem_of_fmap. apply string_app_inj in E as ->. done.
Qed.
End role_contract.

(** ** The strategy contract *)

Section strategy_contract.
Context `{GovernanceLib, GovJsonLib, ProposalJsonLib, StrategyJsonLib, EvalLib, FsmLib, ConstantLib, !GovAddrLib, GoRange, !RoleLib, !NodePkg, QueryLib}.
Context (ctx : Context).
Implicit Types (w : world).

Definition strategy_at w module : option ProposalStrategy :=
  d ← w_state w (ctx_Callee ctx) (ProposalStrategyKey module); unmarshal d.

(** Some number of approvals passes with [n] electors; strategies that are being changed and those without a vote
are left alone. *)
Definition passable (n : Z) (s : ProposalStrategy) : Prop :=
  ps_Status s = GovernanceUpdating ∨ ps_Typ s = ZeroPermissionStrategy ∨
  ∃ a, (0 ≤ a ≤ n)%Z ∧ passes (ps_Extra s) a 0 n.

Section change.
Context (n : Z) (Hn : (0 ≤ n < 2 ^ 64 - 1)%Z).
(** The simple majority is a comparison, and everybody together is a majority. *)
Context (Hdefault : decides DefaultSimpleMajorityExpression n) (Hall : passes DefaultSimpleMajorityExpression n 0 n).

Lemma resetStrategy_effect module w :
  is_ascii module → (∀ m s, strategy_at w m = Some s → decides (ps_Extra s) n) →
  ∃ w', exec (resetStrategy ctx n module) w = (Some tt, w') ∧
    (∀ m, m ≠ module → strategy_at w' m = strategy_at w m) ∧
    (∀ m s, strategy_at w' m = Some s → decides (ps_Extra s) n) ∧
    (∀ s, strategy_at w' module = Some s → passable n s).
Proof.
  intros Hm Hd. unfold resetStrategy. rewrite exec_bind, exec_GetObject. fold (strategy_at w module).
  destruct (strategy_at w module) as [s|] eqn:Es; [|exists w; split_and!; try done; congruence].
  destruct (decide (ps_Status s = GovernanceUpdating ∨ ps_Typ s = ZeroPermissionStrategy)) as [Hskip|Hskip].
  { exists w. split_and!; try done. intros s'. rewrite Es. intros [= <-]. unfold passable. tauto. }
  destruct (threshold_loop_spec (ps_Extra s) 0 n n _ 0 (Hd _ _ Es) ltac:(lia) ltac:(lia) eq_refl) as (res & E & Hres).
  rewrite exec_bind. unfold getCurThresholdApproveNum. rewrite E. cbn [exec mret prog_mret]. destruct res as [a|].
  { exists w. split_and!; try done. intros s'. rewrite Es. intros [= <-]. right. right. exists a. naive_solver. }
  destruct (json_marshals (defaultStrategy module)) as [e He]. rewrite (exec_SetObject _ _ _ _ _ He). eexists.
  split; [done|]. set (w' := w_setState _ _ _ _).
  assert (strategy_at w' module = Some (defaultStrategy module)) as Hnew.
  { unfold strategy_at, w'. cbn. rewrite upd2_eq. cbn. apply (json_ok _ _ (default_ascii module Hm) He). }
  assert (∀ m, m ≠ module → strategy_at w' m = strategy_at w m) as Hother.
  { intros m Hne. unfold strategy_at, w'. cbn. rewrite upd2_ne; [done|]. right. intros E'%string_app_inj. done. }
  split_and!; [done| |].
  - intros m s'. destruct (decide (m = module)) as [->|Hne]; [rewrite Hnew; by intros [= <-]|]. rewrite Hother by done. apply Hd.
  - intros s'. rewrite Hnew. intros [= <-]. right. right. exists n. split; [lia|done].
Qed.

Lemma resetStrategies_effect l w :
  Forall is_ascii l → (∀ m s, strategy_at w m = Some s → decides (ps_Extra s) n) →
  ∃ w', exec (prog_iter (resetStrategy ctx n) l) w = (Some tt, w') ∧
    (∀ m, m ∉ l → strategy_at w' m = strategy_at w m) ∧
    (∀ m s, m ∈ l → strategy_at w' m = Some s → passable n s).
Proof.
  intros Ha. revert w. induction Ha as [|m l Hm _ IH]; intros w Hd.
  { exists w. split_and!; [done|done|]. by intros m s ?%elem_of_nil. }
  cbn [prog_iter]. rewrite exec_bind. destruct (resetStrategy_effect m w Hm Hd) as (w1 & -> & Ho & Hd1 & Hg).
  destruct (IH w1 Hd1) as (w' & -> & Hout & Hin). exists w'. split_and!; [done| |].
  - intros x [Hx Hl]%not_elem_of_cons. rewrite Hout by done. by apply Ho.
  - intros x s Hx Hs. destruct (decide (x ∈ l)) as [Hl|Hl]; [by apply (Hin x)|].
    apply elem_of_cons in Hx as [->|]; [|done]. apply Hg. by rewrite <-(Hout m Hl).
Qed.

(** When the number of available administrators has changed, the strategy of every module can pass a proposal
again: those that could not fall back to the simple majority; strategies that are being changed and
those without a vote stay. *)
Theorem strategies_passable w :
  ctx_CurrentCaller ctx = RoleContractAddr → (∀ m s, strategy_at w m = Some s → decides (ps_Extra s) n) →
  ∃ w', exec (UpdateProposalStrategyByRolesChange ctx n) w = (Some (Success None), w') ∧
    ∀ m s, m ∈ mgrs → strategy_at w' m = Some s → passable n s.
Proof.
  intros Hc Hd. unfold UpdateProposalStrategyByRolesChange. rewrite exec_bind.
  assert (exec (checkSpecific ctx "ProposalStrategyInternalErrCode" "ProposalStrategyNoPermissionCode" [RoleContractAddr]) w = (Some None, w)) as ->.
  { unfold checkSpecific. destruct (json_marshals [RoleContractAddr]) as [d Hm]. rewrite Hm. cbn [checkPermission].
    rewrite decide_False, decide_False, decide_True by done. cbn [mbind option_bind]. rewrite (json_ok [RoleContractAddr] d); [| |done].
    - by rewrite decide_True by (rewrite Hc; by left).
    - apply Forall_singleton. pose proof gov_addrs_ascii as Ha. rewrite Forall_forall in Ha. apply Ha. rewrite !elem_of_cons. tauto. }
  destruct (resetStrategies_effect mgrs w) as (w' & E & _ & Hin); [by repeat constructor; vm_compute|done|].
  exists w'. by rewrite exec_bind, E.
Qed.
End change.
End strategy_contract.
