(* ===== verification/RegistryTheorems.v ===== *)
(** * Which methods only other contracts may call

The contracts of governance and of the registries call each other: a proposal is submitted by the contract of its
object, its result is carried out by [Manage], and chains, services, rules, nodes and administrators pause, release and
clear each other. All these methods can be named by any transaction. The table below has those that look at their
caller first, with the contracts that may call them. *)
From Stdlib Require Import Ascii SpecFloat.
From S2P Require Import Prelude Storage Account StateLedger Contract TransactionManager Interchain Role Governance Strategy RoleManager.
From S2P Require Import Registry Nodes Dapp Appchain Service Rule AppchainManager RuleManager NodeManager.
From S2P Require Import GovernanceTheorems RoleTheorems.

Section restricted.
Context `{TxPbLib, PbLib}.
Context `{GovernanceLib, GovJsonLib, ProposalJsonLib, StrategyJsonLib, EvalLib, FsmLib, ConstantLib, !GovAddrLib, GoRange, !RoleLib, !NodePkg, QueryLib}.
Context `{!AppchainPkg, !RulePkg, !ServicePkg, HashLib, !BindLib, AppchainJsonLib, RuleJsonLib, !DappLib, GoSort}.
Context (Manage : string → string → string → string → string → option string → Context → prog Response).

(** The contracts whose results a proposal can have. *)
Inductive managed := ManagedRole | ManagedStrategy | ManagedNode | ManagedChain | ManagedRule | ManagedService | ManagedDapp.

Inductive internal_call :=
  | CallManage (c : managed) (eventTyp proposalResult lastStatus objId : string) (extra : option string)
  | CallSubmitProposal (from eventTyp typ objId objLastStatus reason : string) (extra : option string)
  | CallEndObjProposal (objId endReason : string) (extra : option string)
  | CallLock (objId eventTyp : string)
  | CallUnlock (objId eventTyp : string)
  | CallUpdateElectorate (id : string) (num : Z)
  | CallUpdateStrategies (availableNum : Z)
  | CallOccupyAccount (addrs roleType : string)
  | CallFreeAccount (addrs : string)
  | CallUpdateAppchainAdmin (appchainID adminAddrs : string)
  | CallPauseAuditAdmin (nodeId : string)
  | CallPauseAuditAdminBinding (nodeId : string)
  | CallRestoreAuditAdminBinding (nodeId : string)
  | CallBindNode (nodeAccount auditAdminAddr : string)
  | CallManageBindNode (nodeAccount auditAdminAddr resultEvent : string)
  | CallUnbindNode (nodeAccount : string)
  | CallPauseChainService (chainID : string)
  | CallUnPauseChainService (chainID : string)
  | CallClearChainService (chainID : string)
  | CallRecordInvoke (fullServiceID fromFullServiceID : string) (result : bool)
  | CallRegisterRuleFirst (chainID chainType ruleAddress ruleUrl : string)
  | CallClearRule (chainID : string)
  | CallPauseAppchain (id : string)
  | CallUnPauseAppchain (id lastStatus : string).

Definition run_managed (c : managed) (ctx : Context) (ev next last objId : string) (extra : option string) : prog Response :=
  match c with
  | ManagedRole => role_Manage Manage ctx ev next last objId extra
  | ManagedStrategy => strategy_Manage ctx ev next last objId extra
  | ManagedNode => node_Manage Manage ctx ev next last objId extra
  | ManagedChain => chain_Manage Manage ctx ev next last objId extra
  | ManagedRule => rule_Manage Manage ctx ev next last objId extra
  | ManagedService => service_Manage ctx ev next last objId extra
  | ManagedDapp => dapp_Manage ctx ev next last objId extra
  end.

Definition run_internal (c : internal_call) (ctx : Context) : prog Response :=
  match c with
  | CallManage c ev next last objId extra => run_managed c ctx ev next last objId extra
  | CallSubmitProposal from ev typ objId last reason extra => SubmitProposal ctx from ev typ objId last reason extra
  | CallEndObjProposal objId reason extra => EndObjProposal ctx objId reason extra
  | CallLock objId ev => LockLowPriorityProposal ctx objId ev
  | CallUnlock objId ev => UnLockLowPriorityProposal Manage ctx objId ev
  | CallUpdateElectorate id num => UpdateAvailableElectorateNum Manage ctx id num
  | CallUpdateStrategies num => UpdateProposalStrategyByRolesChange ctx num
  | CallOccupyAccount addrs t => OccupyAccount ctx addrs t
  | CallFreeAccount addrs => FreeAccount ctx addrs
  | CallUpdateAppchainAdmin id addrs => UpdateAppchainAdmin ctx id addrs
  | CallPauseAuditAdmin id => PauseAuditAdmin ctx id
  | CallPauseAuditAdminBinding id => PauseAuditAdminBinding ctx id
  | CallRestoreAuditAdminBinding id => RestoreAuditAdminBinding Manage ctx id
  | CallBindNode n a => BindNode ctx n a
  | CallManageBindNode n a ev => ManageBindNode ctx n a ev
  | CallUnbindNode n => UnbindNode ctx n
  | CallPauseChainService id => PauseChainService ctx id
  | CallUnPauseChainService id => UnPauseChainService Manage ctx id
  | CallClearChainService id => ClearChainService ctx id
  | CallRecordInvoke to from res => RecordInvokeService ctx to from res
  | CallRegisterRuleFirst chain typ addr url => RegisterRuleFirst ctx chain typ addr url
  | CallClearRule id => ClearRule ctx id
  | CallPauseAppchain id => PauseAppchain ctx id
  | CallUnPauseAppchain id last => UnPauseAppchain Manage ctx id last
  end.

Definition may_call (c : internal_call) : list string :=
  match c with
  | CallManage _ _ _ _ _ _ => [GovernanceContractAddr]
  | CallSubmitProposal _ _ _ _ _ _ _ =>
      [AppchainMgrContractAddr; RuleManagerContractAddr; NodeManagerContractAddr; RoleContractAddr; DappMgrContractAddr;
       ServiceMgrContractAddr; GovernanceContractAddr; ProposalStrategyMgrContractAddr; ServiceRegistryContractAddr]
  | CallEndObjProposal _ _ _ => [RuleManagerContractAddr; RoleContractAddr; ServiceMgrContractAddr]
  | CallLock _ _ | CallUnlock _ _ => [ServiceMgrContractAddr; RoleContractAddr; RuleManagerContractAddr]
  | CallUpdateElectorate _ _ | CallUpdateStrategies _ => [RoleContractAddr]
  | CallOccupyAccount _ _ | CallFreeAccount _ => [AppchainMgrContractAddr; NodeManagerContractAddr]
  | CallUpdateAppchainAdmin _ _ => [AppchainMgrContractAddr]
  | CallPauseAuditAdmin _ | CallPauseAuditAdminBinding _ | CallRestoreAuditAdminBinding _ => [NodeManagerContractAddr]
  | CallBindNode _ _ | CallManageBindNode _ _ _ | CallUnbindNode _ => [RoleContractAddr]
  | CallPauseChainService _ | CallUnPauseChainService _ | CallClearChainService _ => [AppchainMgrContractAddr]
  | CallRecordInvoke _ _ _ => [InterchainContractAddr]
  | CallRegisterRuleFirst _ _ _ _ | CallClearRule _ => [AppchainMgrContractAddr]
  | CallPauseAppchain _ | CallUnPauseAppchain _ _ => [RuleManagerContractAddr]
  end.

Definition refusal_code (c : internal_call) : string :=
  match c with
  | CallManage ManagedRole _ _ _ _ _ => "RoleNoPermissionCode"
  | CallManage ManagedStrategy _ _ _ _ _ => "ProposalStrategyNoPermissionCode"
  | CallManage ManagedNode _ _ _ _ _ => "NodeNoPermissionCode"
  | CallManage ManagedChain _ _ _ _ _ => "AppchainNoPermissionCode"
  | CallManage ManagedRule _ _ _ _ _ => "RuleNoPermissionCode"
  | CallManage ManagedService _ _ _ _ _ => "ServiceNoPermissionCode"
  | CallManage ManagedDapp _ _ _ _ _ => "DappNoPermissionCode"
  | CallSubmitProposal _ _ _ _ _ _ _ | CallEndObjProposal _ _ _ | CallLock _ _ | CallUnlock _ _
  | CallUpdateElectorate _ _ => "GovernanceNoPermissionCode"
  | CallUpdateStrategies _ => "ProposalStrategyNoPermissionCode"
  | CallOccupyAccount _ _ | CallFreeAccount _ | CallUpdateAppchainAdmin _ _ | CallPauseAuditAdmin _
  | CallPauseAuditAdminBinding _ | CallRestoreAuditAdminBinding _ => "RoleNoPermissionCode"
  | CallBindNode _ _ | CallManageBindNode _ _ _ | CallUnbindNode _ => "NodeNoPermissionCode"
  | CallPauseChainService _ | CallUnPauseChainService _ | CallClearChainService _ | CallRecordInvoke _ _ _ =>
      "ServiceNoPermissionCode"
  | CallRegisterRuleFirst _ _ _ _ | CallClearRule _ => "RuleNoPermissionCode"
  | CallPauseAppchain _ | CallUnPauseAppchain _ _ => "AppchainNoPermissionCode"
  end.

(** Ids of services have three parts; others make [RecordInvokeService] panic before it looks at the caller. *)
Definition ids_ok (c : internal_call) : Prop :=
  match c with
  | CallRecordInvoke to from _ => 3 ≤ length (str_split colon to) ∧ 3 ≤ length (str_split colon from)
  | _ => True
  end.

Section refused.
Context (ctx : Context) (w : world).

(** A method that starts with a check of its caller. *)
Definition refuses (denied : prog (option Response)) (code : string) (l : list string) : Prop :=
  ctx_CurrentCaller ctx ∉ l → exec denied w = (Some (Some (noPermission ctx code)), w).

Lemma denied_refuses (denied : prog (option Response)) code l (m : prog Response) :
  refuses denied code l → ctx_CurrentCaller ctx ∉ l →
  exec (d ← denied; match d with Some res => mret res | None => m end) w = (Some (noPermission ctx code), w).
Proof. intros Hr Hc. by rewrite exec_bind, Hr. Qed.

Lemma onlyFrom_refuses check c1 c2 id l :
  Forall is_ascii l →
  (∀ d, unmarshal d = Some l → ctx_CurrentCaller ctx ∉ l →
     exec (check [PermissionSpecific] id (ctx_CurrentCaller ctx) (Some d)) w = (Some false, w)) →
  refuses (onlyFrom ctx check c1 c2 id l) c2 l.
Proof.
  intros Ha Hcheck Hc. unfold onlyFrom. destruct (json_marshals l) as [d Hd]. rewrite Hd, exec_bind, Hcheck; [done| |done].
  by apply (json_ok l d Ha).
Qed.

Lemma not_specific l d : unmarshal d = Some l → ctx_CurrentCaller ctx ∉ l → isSpecific (ctx_CurrentCaller ctx) (Some d) = Some false.
Proof. intros Hd Hc. unfold isSpecific. cbn [mbind option_bind]. rewrite Hd. cbn. by rewrite bool_decide_false. Qed.

Lemma checkSpecific_refuses c1 c2 l : Forall is_ascii l → refuses (checkSpecific ctx c1 c2 l) c2 l.
Proof.
  intros Ha Hc. unfold checkSpecific. destruct (json_marshals l) as [d Hd]. rewrite Hd. cbn [checkPermission].
  rewrite decide_False, decide_False, decide_True by done. cbn [mbind option_bind]. rewrite (json_ok l d Ha Hd).
  by rewrite decide_False.
Qed.

Lemma role_refuses l : Forall is_ascii l → refuses (role_checkSpecific ctx l) "RoleNoPermissionCode" l.
Proof. intros Ha Hc. rewrite exec_role_specific by done. by rewrite decide_False. Qed.

Ltac solve_onlyFrom check :=
  intros Ha; apply onlyFrom_refuses; [done|]; intros d Hd Hc; cbn [check];
  rewrite decide_False, decide_False, decide_True by done; by rewrite (not_specific _ _ Hd Hc).

Lemma dapp_refuses id l :
  Forall is_ascii l →
  refuses (onlyFrom ctx (dapp_checkPermission ctx) "DappInternalErrCode" "DappNoPermissionCode" id l) "DappNoPermissionCode" l.
Proof. solve_onlyFrom (@dapp_checkPermission). Qed.
Lemma service_refuses id l : Forall is_ascii l → refuses (service_onlyFrom ctx id l) "ServiceNoPermissionCode" l.
Proof. solve_onlyFrom (@chain_checkPermission). Qed.
Lemma rule_refuses id l : Forall is_ascii l → refuses (rule_onlyFrom ctx id l) "RuleNoPermissionCode" l.
Proof. solve_onlyFrom (@chain_checkPermission). Qed.
Lemma chain_refuses id l : Forall is_ascii l → refuses (chain_onlyFrom ctx id l) "AppchainNoPermissionCode" l.
Proof. solve_onlyFrom (@appchain_checkPermission). Qed.
Lemma node_refuses id l : Forall is_ascii l → refuses (node_onlyFrom ctx id l) "NodeNoPermissionCode" l.
Proof. solve_onlyFrom (@node_checkPermission). Qed.
End refused.

Lemma addr_ascii a :
  a ∈ [AppchainMgrContractAddr; ServiceMgrContractAddr; GovernanceContractAddr; RoleContractAddr; RuleManagerContractAddr;
       NodeManagerContractAddr; DappMgrContractAddr; ProposalStrategyMgrContractAddr; ServiceRegistryContractAddr] →
  is_ascii a.
Proof. pose proof gov_addrs_ascii as Ha. rewrite Forall_forall in Ha. apply Ha. Qed.

Lemma may_call_ascii c : Forall is_ascii (may_call c).
Proof.
  destruct c; cbn [may_call]; apply Forall_forall; intros a; rewrite ?elem_of_cons, ?elem_of_nil; intros Ha;
    destruct_or?; try done; subst a; first [apply interchain_ascii|apply addr_ascii; rewrite !elem_of_cons; tauto].
Qed.

Lemma run_managed_refused c ctx ev next last objId extra w :
  ctx_CurrentCaller ctx ∉ [GovernanceContractAddr] →
  exec (run_managed c ctx ev next last objId extra) w =
    (Some (noPermission ctx (refusal_code (CallManage c ev next last objId extra))), w).
Proof.
  intros Hc. pose proof (may_call_ascii (CallManage c ev next last objId extra)) as Ha. cbn [may_call] in Ha.
  destruct c; cbn [run_managed refusal_code].
  - unfold role_Manage. eapply denied_refuses; [by apply role_refuses|done].
  - unfold strategy_Manage. eapply denied_refuses; [by apply checkSpecific_refuses|done].
  - unfold node_Manage. eapply denied_refuses; [by apply node_refuses|done].
  - unfold chain_Manage. eapply denied_refuses; [by apply chain_refuses|done].
  - unfold rule_Manage. eapply denied_refuses; [by apply rule_refuses|done].
  - unfold service_Manage. eapply denied_refuses; [by apply service_refuses|done].
  - unfold dapp_Manage. eapply denied_refuses; [by apply dapp_refuses|done].
Qed.

Lemma RecordInvoke_refused ctx to from res w :
  ids_ok (CallRecordInvoke to from res) → ctx_CurrentCaller ctx ∉ [InterchainContractAddr] →
  exec (RecordInvokeService ctx to from res) w = (Some (noPermission ctx "ServiceNoPermissionCode"), w).
Proof.
  intros [Hto Hfrom] Hc. unfold RecordInvokeService.
  destruct (str_split colon to) as [|? [|? [|? ?]]]; cbn in Hto; [lia..|].
  destruct (str_split colon from) as [|? [|? [|? ?]]]; cbn in Hfrom; [lia..|].
  cbv zeta. eapply denied_refuses; [|exact Hc]. apply service_refuses, (may_call_ascii (CallRecordInvoke to from res)).
Qed.

(** C12: The methods of the table [internal_call] of the governance, strategy, role, node, chain, rule, service and
application contracts - submitting, pausing and ending proposals, carrying out their results, taking and giving back
accounts, binding nodes, pausing, releasing and clearing chains, services and rules, recording calls - refuse a caller
that is not one of the contracts of their table with the error of missing permission, and change nothing
(RecordInvokeService for service ids of three parts, since it panics for shorter ones). These are the methods that
check their caller. ZeroPermission of the governance contract, which the managers call as well, and Manage of the name
registry check nothing and are not in the table ([ZeroPermission_unguarded], [anyone_takes_names]). *)
Theorem registry_calls_restricted c ctx w :
  ids_ok c → ctx_CurrentCaller ctx ∉ may_call c →
  exec (run_internal c ctx) w = (Some (noPermission ctx (refusal_code c)), w).
Proof.
  intros Hids Hc. pose proof (may_call_ascii c) as Ha.
  assert (∀ check m, refuses ctx w check (refusal_code c) (may_call c) →
            exec (d ← check; match d with Some res => mret res | None => m end) w = (Some (noPermission ctx (refusal_code c)), w)) as Hd
    by (intros check m Hr; by eapply denied_refuses).
  destruct c; cbn [run_internal refusal_code may_call] in *;
    first [ by apply run_managed_refused
          | by apply RecordInvoke_refused
          | apply Hd; first [by apply checkSpecific_refuses|by apply role_refuses|by apply node_refuses|by apply service_refuses
                            |by apply rule_refuses|by apply chain_refuses] ].
Qed.
End restricted.
