(* ===== verification/DappTheorems.v ===== *)
(** * Theorems about applications

The application contract keeps applications, the names and the contracts that are taken, an index of names and the
applications of each owner under prefixed keys. [dapp_registry] has these five as plain functions; [sees] relates it to
the state. The results of proposals are described as operations on the registry. *)
From Stdlib Require Import Ascii SpecFloat.
From S2P Require Import Prelude Storage Account StateLedger Contract TransactionManager Role Governance Strategy RoleManager.
From S2P Require Import Registry Dapp GovernanceTheorems RoleTheorems RegistryTheorems.

Record dapp_registry := MkDapps {
  dr_dapp : string → option Dapp;
  dr_name : string → option string;
  dr_contract : string → option string;
  dr_index : string → option string;
  dr_owner : string → option strset }.

Definition with_dapp (R : dapp_registry) id d :=
  MkDapps (upd (dr_dapp R) id (Some d)) (dr_name R) (dr_contract R) (dr_index R) (dr_owner R).
Definition free_name (R : dapp_registry) name :=
  MkDapps (dr_dapp R) (upd (dr_name R) name None) (dr_contract R) (dr_index R) (dr_owner R).
Definition set_contracts (R : dapp_registry) (addrs : strset) (v : option string) :=
  MkDapps (dr_dapp R) (dr_name R) (λ a, if decide (a ∈ dom addrs) then v else dr_contract R a) (dr_index R) (dr_owner R).
Definition with_index (R : dapp_registry) name id :=
  MkDapps (dr_dapp R) (dr_name R) (dr_contract R) (upd (dr_index R) name (Some id)) (dr_owner R).
Definition add_owned (R : dapp_registry) owner id :=
  MkDapps (dr_dapp R) (dr_name R) (dr_contract R) (dr_index R)
    (upd (dr_owner R) owner (Some (<[id := tt]> (default ∅ (dr_owner R owner))))).

(** Two registries that answer alike. *)
Definition reg_eq (R R' : dapp_registry) : Prop :=
  (∀ x, dr_dapp R x = dr_dapp R' x) ∧ (∀ x, dr_name R x = dr_name R' x) ∧ (∀ x, dr_contract R x = dr_contract R' x) ∧
  (∀ x, dr_index R x = dr_index R' x) ∧ (∀ x, dr_owner R x = dr_owner R' x).
Global Instance reg_equiv : Equiv dapp_registry := reg_eq.
Global Instance reg_eq_equivalence : Equivalence (≡@{dapp_registry}).
Proof.
  split.
  - by intros R.
  - intros R R' (?&?&?&?&?). by repeat split.
  - intros R R' R'' (H1&H2&H3&H4&H5) (?&?&?&?&?). repeat split; intros x; [rewrite H1|rewrite H2|rewrite H3|rewrite H4|rewrite H5]; auto.
Qed.

(** Objects that can be written as JSON and read back. *)
Record dapp_ok (id : string) (d : Dapp) := {
  dok_id : da_DappID d = id;
  dok_finite : Forall f64_finite (Dapp_numbers d);
  dok_ascii : Forall is_ascii (Dapp_text d) }.
Definition ids_ascii (s : strset) : Prop := Forall is_ascii (map_to_list s).*1.

Section contract.
Context `{GovernanceLib, GovJsonLib, ProposalJsonLib, StrategyJsonLib, EvalLib, FsmLib, ConstantLib, !GovAddrLib, GoRange, !RoleLib, HashLib}.
Context `{!DappLib, GoSort, QueryLib}.
Context (ctx : Context).
Implicit Types (w : world) (R : dapp_registry).

(** What is stored under a key of the contract. *)
Definition object_at {A} `{Encoding A} w key : option A := w_state w (ctx_Callee ctx) key ≫= unmarshal.

Definition dapps_of w : dapp_registry :=
  MkDapps (λ id, object_at w (DappKey id)) (λ n, object_at w (DappOccupyNameKey n)) (λ a, object_at w (DappOccupyContractKey a))
    (λ n, object_at w (DappNameKey n)) (λ o, object_at w (OwnerKey o)).

Definition sees w R : Prop := dapps_of w ≡ R.

(** A program answers [res] and leaves the registry [R']. *)
Definition does {A} (p : prog A) R (res : A) R' : Prop :=
  ∀ w, sees w R → ∃ w', exec p w = (Some res, w') ∧ sees w' R'.

Global Instance does_proper {A} (p : prog A) : Proper ((≡) ==> (=) ==> (≡) ==> iff) (does p).
Proof.
  intros R1 R2 HR r1 r2 -> R1' R2' HR'. split; intros Hd w Hw.
  - destruct (Hd w) as (w' & E & Hs); [unfold sees in *; by rewrite HR|]. exists w'. split; [done|]. unfold sees in *. by rewrite <-HR'.
  - destruct (Hd w) as (w' & E & Hs); [unfold sees in *; by rewrite <-HR|]. exists w'. split; [done|]. unfold sees in *. by rewrite HR'.
Qed.

Lemma does_ret {A} (a : A) R : does (mret a) R a R.
Proof. intros w Hw. by exists w. Qed.

Lemma does_bind {A B} (p : prog A) (f : A → prog B) R a R1 b R2 :
  does p R a R1 → does (f a) R1 b R2 → does (p ≫= f) R b R2.
Proof. intros Hp Hf w Hw. destruct (Hp w Hw) as (w1 & E1 & Hs1). destruct (Hf w1 Hs1) as (w2 & E2 & Hs2). exists w2. by rewrite exec_bind, E1. Qed.

(** *** Reading and writing *)

Lemma does_GetDapp id R : does (GetObject (A := Dapp) ctx (DappKey id)) R (dr_dapp R id) R.
Proof. intros w Hw. exists w. split; [|done]. rewrite exec_GetObject. f_equal. f_equal. apply Hw. Qed.
Lemma does_GetName n R : does (GetObject (A := string) ctx (DappOccupyNameKey n)) R (dr_name R n) R.
Proof. intros w Hw. exists w. split; [|done]. rewrite exec_GetObject. f_equal. f_equal. apply Hw. Qed.
Lemma does_GetContract a R : does (GetObject (A := string) ctx (DappOccupyContractKey a)) R (dr_contract R a) R.
Proof. intros w Hw. exists w. split; [|done]. rewrite exec_GetObject. f_equal. f_equal. apply Hw. Qed.
Lemma does_GetIndex n R : does (GetObject (A := string) ctx (DappNameKey n)) R (dr_index R n) R.
Proof. intros w Hw. exists w. split; [|done]. rewrite exec_GetObject. f_equal. f_equal. apply Hw. Qed.
Lemma does_GetOwner o R : does (GetObject (A := gmap string ()) ctx (OwnerKey o)) R (dr_owner R o) R.
Proof. intros w Hw. exists w. split; [|done]. rewrite exec_GetObject. f_equal. f_equal. apply Hw. Qed.

Lemma object_at_set {A} `{Encoding A} w key v key' :
  object_at (w_setState w (ctx_Callee ctx) key v) key' = if decide (key' = key) then v ≫= unmarshal else object_at w key'.
Proof. unfold object_at. cbn. unfold upd2, upd. rewrite decide_True by done. by destruct (decide (key' = key)). Qed.

(** Keys with different prefixes differ; with the same prefix they differ in what follows. *)
Lemma key_eq p x y : p +:+ "-" +:+ x = p +:+ "-" +:+ y ↔ x = y.
Proof. split; [|by intros ->]. intros E. by apply (inj (String.append p)), (inj (String.append "-")) in E. Qed.

Lemma decide_key {A} p x y (a b : A) :
  (if decide (p +:+ "-" +:+ x = p +:+ "-" +:+ y) then a else b) = if decide (x = y) then a else b.
Proof. destruct (decide (x = y)) as [->|Hne]; [by rewrite decide_True|]. rewrite decide_False; [done|]. by rewrite key_eq. Qed.

Ltac same_key := unfold DappKey, DappNameKey, DappOccupyNameKey, DappOccupyContractKey, OwnerKey; rewrite decide_key; unfold upd.
Ltac by_old := match goal with Hx : ∀ _, _ = _ |- _ => apply Hx end.
(** Writing under a key of one of the five kinds changes one of the five functions. *)
Ltac solve_sees :=
  intros (? & ? & ? & ? & ?); repeat split; intros x;
  cbn [dapps_of with_dapp dr_dapp dr_name dr_contract dr_index dr_owner]; rewrite object_at_set;
  first [ rewrite decide_False by (cbn; discriminate); by_old
        | same_key; case_decide; [done|by_old] ].

Lemma sees_dapp w R id s d :
  unmarshal s = Some d → sees w R → sees (w_setState w (ctx_Callee ctx) (DappKey id) (Some s)) (with_dapp R id d).
Proof. intros Hd. unfold sees. solve_sees. Qed.
Lemma sees_name w R n v :
  sees w R → sees (w_setState w (ctx_Callee ctx) (DappOccupyNameKey n) v)
               (MkDapps (dr_dapp R) (upd (dr_name R) n (v ≫= unmarshal)) (dr_contract R) (dr_index R) (dr_owner R)).
Proof. unfold sees. solve_sees. Qed.
Lemma sees_contract w R a v :
  sees w R → sees (w_setState w (ctx_Callee ctx) (DappOccupyContractKey a) v)
               (MkDapps (dr_dapp R) (dr_name R) (upd (dr_contract R) a (v ≫= unmarshal)) (dr_index R) (dr_owner R)).
Proof. unfold sees. solve_sees. Qed.
Lemma sees_index w R n v :
  sees w R → sees (w_setState w (ctx_Callee ctx) (DappNameKey n) v)
               (MkDapps (dr_dapp R) (dr_name R) (dr_contract R) (upd (dr_index R) n (v ≫= unmarshal)) (dr_owner R)).
Proof. unfold sees. solve_sees. Qed.
Lemma sees_owner w R o s m :
  unmarshal s = Some m →
  sees w R → sees (w_setState w (ctx_Callee ctx) (OwnerKey o) (Some s))
               (MkDapps (dr_dapp R) (dr_name R) (dr_contract R) (dr_index R) (upd (dr_owner R) o (Some m))).
Proof. intros Hm. unfold sees. solve_sees. Qed.

Lemma does_SetDapp id d R : dapp_ok id d → does (SetObject ctx (DappKey id) d) R tt (with_dapp R id d).
Proof.
  intros [_ Hf Ha] w Hw. destruct (proj1 (dapp_marshals d) Hf) as [s Hs].
  eexists. split; [by apply exec_SetObject|]. apply sees_dapp; [by apply (dapp_json d s)|done].
Qed.

Lemma string_marshal (x : string) : is_ascii x → ∃ s, marshal x = Some s ∧ unmarshal s = Some x.
Proof. intros Hx. destruct (json_marshals x) as [s Hs]. exists s. split; [done|]. apply (json_ok x s); [by apply Forall_singleton|done]. Qed.

Lemma does_SetIndex n id R : is_ascii id → does (SetObject ctx (DappNameKey n) id) R tt (with_index R n id).
Proof.
  intros Ha w Hw. destruct (string_marshal id Ha) as (s & Hs & Hu). eexists. split; [by apply exec_SetObject|].
  pose proof (sees_index w R n (Some s) Hw) as Hi. cbn [mbind option_bind] in Hi. by rewrite Hu in Hi.
Qed.

Lemma does_DeleteIndex n R :
  does (Delete ctx (DappNameKey n)) R tt (MkDapps (dr_dapp R) (dr_name R) (dr_contract R) (upd (dr_index R) n None) (dr_owner R)).
Proof. intros w Hw. eexists. split; [apply exec_Set|]. by apply (sees_index w R n None). Qed.

Lemma does_freeDappName n R : does (freeDappName ctx n) R tt (free_name R n).
Proof. intros w Hw. eexists. split; [apply exec_Set|]. by apply (sees_name w R n None). Qed.

Lemma does_addToOwner o id R :
  is_ascii id → ids_ascii (default ∅ (dr_owner R o)) → does (addToOwner ctx o id) R tt (add_owned R o id).
Proof.
  intros Ha Hs w Hw. unfold addToOwner. rewrite exec_bind.
  destruct (does_GetOwner o R w Hw) as (w' & -> & Hw'). set (m := <[id := tt]> (default ∅ (dr_owner R o))).
  destruct (json_marshals m) as [s Hm]. eexists. split; [by apply exec_SetObject|]. apply sees_owner; [|done].
  apply (json_ok m s); [|done]. unfold ids_ascii in Hs. apply Forall_forall. intros x Hx.
  apply list_elem_of_fmap in Hx as ([k []] & -> & Hk%elem_of_map_to_list). apply lookup_insert_Some in Hk as [[<- _]|[_ Hk]]; [done|].
  rewrite Forall_forall in Hs. apply Hs, list_elem_of_fmap. exists (k, tt). by rewrite elem_of_map_to_list.
Qed.

Lemma does_contracts v s l R :
  v = s ≫= unmarshal →
  does (prog_iter (λ a, Set_ ctx (DappOccupyContractKey a) s) l) R tt
    (MkDapps (dr_dapp R) (dr_name R) (λ a, if decide (a ∈ l) then v else dr_contract R a) (dr_index R) (dr_owner R)).
Proof.
  intros Hv. revert R. induction l as [|x l IH]; intros R; cbn [prog_iter].
  - intros w Hw. by exists w.
  - eapply does_bind; [intros w Hw; eexists; split; [apply exec_Set|by apply (sees_contract w R x s)]|].
    rewrite <-Hv. intros w Hw. destruct (IH _ w Hw) as (w' & E & Hs). exists w'. split; [exact E|].
    unfold sees in *. rewrite Hs. repeat split. intros a. cbn. unfold upd.
    destruct (decide (a = x)) as [->|Hne]; [by rewrite (decide_True (P := x ∈ x :: l)) by (left; done); case_decide|].
    destruct (decide (a ∈ l)) as [Hin|Hin]; [by rewrite decide_True by (right; done)|].
    rewrite decide_False; [done|]. by apply not_elem_of_cons.
Qed.

Lemma set_contracts_keys (addrs : strset) v R :
  MkDapps (dr_dapp R) (dr_name R) (λ a, if decide (a ∈ go_keys addrs) then v else dr_contract R a) (dr_index R) (dr_owner R)
    ≡ set_contracts R addrs v.
Proof.
  repeat split. intros a. cbn. destruct (decide (a ∈ dom addrs)) as [Hd|Hd].
  - rewrite decide_True; [done|]. by rewrite elem_of_go_keys, <-elem_of_dom.
  - rewrite decide_False; [done|]. by rewrite elem_of_go_keys, <-elem_of_dom.
Qed.

Lemma does_freeContractAddr addrs R : does (freeContractAddr ctx addrs) R tt (set_contracts R addrs None).
Proof. rewrite <-set_contracts_keys. by apply (does_contracts None None). Qed.

Lemma does_occupyContractAddr addrs id R :
  is_ascii id → does (occupyContractAddr ctx addrs id) R tt (set_contracts R addrs (Some id)).
Proof.
  intros Ha. rewrite <-set_contracts_keys. destruct (string_marshal id Ha) as (s & Hs & Hu).
  unfold occupyContractAddr. cut (∀ l R', does (prog_iter (λ a, Set_ ctx (DappOccupyContractKey a) (Some s)) l) R tt R' →
    does (prog_iter (λ a, SetObject ctx (DappOccupyContractKey a) id) l) R tt R').
  - intros Hc. apply Hc. by apply (does_contracts (Some id) (Some s)).
  - intros l R' Hd. replace (prog_iter (λ a, SetObject ctx (DappOccupyContractKey a) id) l)
      with (prog_iter (λ a, Set_ ctx (DappOccupyContractKey a) (Some s)) l); [done|].
    clear Hd. induction l as [|x l IH]; [done|]. cbn [prog_iter]. rewrite IH. unfold SetObject. by rewrite Hs.
Qed.

(** *** The state machine *)

(** The events and statuses of applications are distinct too. *)
Ltac dapp_distinct :=
  pose proof events_NoDup as Hev; pose proof transfer_states as Hst; pose proof EventTransfer_new as Htr;
  repeat match goal with
         | H : NoDup (_ :: _) |- _ => apply NoDup_cons in H as [? H]
         | H : _ ∉ _ :: _ |- _ => apply not_elem_of_cons in H as [? H]
         | H : _ ∉ [] |- _ => clear H
         | H : NoDup [] |- _ => clear H
         end.
Ltac dapp_accepted := eapply fsm_accept; [unfold dapp_events; run_table; reflexivity|unequal].

(** The proposals about applications: the event, the status while it is open, and the statuses once it is approved
and rejected, where [None] is the status the application had. *)
Definition dapp_proposals : list (string * string * string * option string) :=
  [ (EventRegister, GovernanceRegisting, GovernanceAvailable, None);
    (EventUpdate, GovernanceUpdating, GovernanceAvailable, Some GovernanceFrozen);
    (EventFreeze, GovernanceFreezing, GovernanceFrozen, None);
    (EventActivate, GovernanceActivating, GovernanceAvailable, None);
    (EventTransfer, GovernanceTransferring, GovernanceAvailable, None) ].

Lemma dapp_cycle ev pending granted back s :
  (ev, pending, granted, back) ∈ dapp_proposals → s ∈ dappStateMap ev →
  fsm_Event (dapp_events s) s ev = Some pending ∧
  fsm_Event (dapp_events s) pending EventApprove = Some granted ∧
  fsm_Event (dapp_events s) pending EventReject = Some (default s back).
Proof.
  intros Hp. unfold dappStateMap. dapp_distinct. unfold dapp_proposals in Hp.
  repeat (apply elem_of_cons in Hp as [[= -> -> -> ->]|Hp];
    [repeat first [rewrite decide_True by done|rewrite decide_False by unequal];
     rewrite ?elem_of_cons, elem_of_nil; intros Hs; destruct_or? Hs; try done; subst s; cbn [default]; split_and!; dapp_accepted|]).
  by apply elem_of_nil in Hp.
Qed.

(** A proposal about an application in a status that allows it moves the application to the pending status; approving it
gives the status that was asked for, and rejecting it gives back the status the application had, except that an
application whose update is rejected is frozen. *)
Theorem dapp_proposal_cycle ev pending granted back s :
  (ev, pending, granted, back) ∈ dapp_proposals → s ∈ dappStateMap ev →
  fsm_Event (dapp_events s) s ev = Some pending ∧
  fsm_Event (dapp_events s) pending EventApprove = Some granted ∧
  fsm_Event (dapp_events s) pending EventReject = Some (default s back).
Proof. apply dapp_cycle. Qed.

Lemma dapp_result ev pending granted back d s :
  (ev, pending, granted, back) ∈ dapp_proposals → s ∈ dappStateMap ev → da_Status d = pending →
  dapp_Event d s APPROVED = Some (with_da_Status d granted) ∧ dapp_Event d s REJECTED = Some (with_da_Status d (default s back)).
Proof.
  intros Hp Hs Hd. destruct (dapp_cycle _ _ _ _ _ Hp Hs) as (_ & Ha & Hr). unfold dapp_Event. rewrite Hd.
  unfold APPROVED, REJECTED. rewrite EventApprove_value in Ha. rewrite EventReject_value in Hr. by rewrite Ha, Hr.
Qed.

(** *** Results of proposals *)

Lemma with_dapp_twice R id d d' : with_dapp (with_dapp R id d) id d' ≡ with_dapp R id d'.
Proof. repeat split. intros x. cbn. unfold upd. by case_decide. Qed.

Lemma dr_dapp_with R id d : dr_dapp (with_dapp R id d) id = Some d.
Proof. cbn. unfold upd. by rewrite decide_True. Qed.

Lemma dapp_ok_status id d s : dapp_ok id d → is_ascii s → dapp_ok id (with_da_Status d s).
Proof.
  intros [Hid Hf Ha] Hs. split; [done|done|]. unfold Dapp_text in *. cbn [with_da_Status da_DappID da_Name da_Type da_Desc da_Url
    da_ContractAddr da_Permission da_OwnerAddr da_EvaluationRecords da_TransferRecords da_Status] in *.
  rewrite Forall_app in *. destruct Ha as [Ha Hr]. split; [|done]. rewrite !Forall_cons in *. naive_solver.
Qed.

Lemma dapp_ok_time id d t : dapp_ok id d → dapp_ok id (with_da_CreateTime d t).
Proof. by intros []. Qed.

Section results.
Context (Hcaller : ctx_CurrentCaller ctx = GovernanceContractAddr).

Lemma does_fromGovernance id R :
  does (onlyFrom ctx (dapp_checkPermission ctx) "DappInternalErrCode" "DappNoPermissionCode" id [GovernanceContractAddr]) R None R.
Proof.
  intros w Hw. exists w. split; [|done]. unfold onlyFrom. destruct (json_marshals [GovernanceContractAddr]) as [s Hs]. rewrite Hs.
  cbn [dapp_checkPermission]. rewrite decide_False, decide_False, decide_True by done. unfold isSpecific. cbn [mbind option_bind].
  rewrite (json_ok [GovernanceContractAddr] s); [|apply Forall_singleton, governance_ascii|done]. cbn.
  by rewrite Hcaller, bool_decide_true by by apply list_elem_of_singleton.
Qed.

Lemma does_changeStatus id trigger last R d d' :
  dr_dapp R id = Some d → dapp_Event d last trigger = Some d' → dapp_ok id d' →
  does (dapp_changeStatus ctx id trigger last) R true (with_dapp R id d').
Proof.
  intros Hd He Hok. unfold dapp_changeStatus. eapply does_bind; [apply does_GetDapp|]. rewrite Hd, He.
  eapply does_bind; [by apply does_SetDapp|]. apply does_ret.
Qed.

Lemma does_audited id res R d : dr_dapp R id = Some d → does (dapp_audited ctx id res) R res R.
Proof.
  intros Hd. unfold dapp_audited. destruct (ctx_EnableAudit ctx); [|apply does_ret].
  eapply (does_bind _ _ _ (Some tt)); [|apply does_ret]. intros w Hw. unfold postAuditDappEvent. rewrite exec_bind, exec_Get.
  destruct (w_state w (ctx_Callee ctx) (DappKey id)) as [s|] eqn:E.
  - destruct (json_marshals (MkAudit s [] [])) as [e He]. rewrite exec_bind. unfold postEvent. rewrite He. by eexists.
  - destruct Hw as [Hw _]. specialize (Hw id). cbn in Hw. unfold object_at in Hw. by rewrite E, Hd in Hw.
Qed.

(** The common part of [Manage]: the status, then what the event asks for. *)
Lemma does_Manage ev result last id extra R d d' R' :
  dr_dapp R id = Some d → dapp_Event d last result = Some d' → dapp_ok id d' →
  does (if decide (result = APPROVED) then dapp_approve ctx ev id extra else dapp_reject ctx ev id extra) (with_dapp R id d') None R' →
  is_Some (dr_dapp R' id) →
  does (dapp_Manage ctx ev result last id extra) R (Success None) R'.
Proof.
  intros Hd He Hok Hrest [d2 Hd2]. unfold dapp_Manage. eapply does_bind; [apply does_fromGovernance|]. cbv beta iota.
  eapply does_bind; [by eapply does_changeStatus|]. cbn [negb]. eapply does_bind; [exact Hrest|]. by eapply does_audited.
Qed.

(** The result of a registration: when it is approved, the application is available with the time of the result, found
by its name, and listed for its owner; when it is rejected, the application has its old status, and its name and all its
contracts can be taken again. Names, contracts, indices and owners of other applications are not touched. *)
Theorem dapp_registration_result last id extra R d :
  dr_dapp R id = Some d → dapp_ok id d → da_Status d = GovernanceRegisting → last = GovernanceUnavailable →
  ids_ascii (default ∅ (dr_owner R (da_OwnerAddr d))) →
  does (dapp_Manage ctx EventRegister APPROVED last id extra) R (Success None)
    (add_owned (with_index (with_dapp R id (with_da_CreateTime (with_da_Status d GovernanceAvailable) (ctx_TxTimeStamp ctx)))
       (da_Name d) id) (da_OwnerAddr d) id) ∧
  does (dapp_Manage ctx EventRegister REJECTED last id extra) R (Success None)
    (set_contracts (free_name (with_dapp R id (with_da_Status d last)) (da_Name d)) (da_ContractAddr d) None).
Proof.
  intros Hd Hok Hst -> Hown.
  assert (is_ascii GovernanceUnavailable) as Hu by (pose proof statuses_ascii as Ha; by apply Forall_cons in Ha as [? _]).
  destruct (dapp_result EventRegister GovernanceRegisting GovernanceAvailable None d GovernanceUnavailable) as [Ea Er].
  { left. } { unfold dappStateMap. rewrite decide_True by done. left. } { done. }
  pose proof (dapp_ok_status _ _ _ Hok available_ascii) as Hoka. pose proof (dapp_ok_status _ _ _ Hok Hu) as Hokr.
  assert (is_ascii id) as Hid by (destruct Hok as [<- _ Ha]; by apply Forall_cons in Ha as [? _]).
  split.
  - eapply does_Manage; [exact Hd|exact Ea|exact Hoka| |by eexists; apply dr_dapp_with].
    rewrite decide_True by done. unfold dapp_approve. rewrite decide_True by done.
    eapply does_bind; [apply does_GetDapp|]. rewrite dr_dapp_with. eapply does_bind; [|apply does_ret]. unfold dapp_register.
    rewrite (dok_id id _ (dapp_ok_time _ _ (ctx_TxTimeStamp ctx) Hoka)).
    eapply does_bind; [by apply does_SetDapp, dapp_ok_time|]. rewrite with_dapp_twice.
    eapply does_bind; [by apply does_SetIndex|]. by apply does_addToOwner.
  - eapply does_Manage; [exact Hd|exact Er|exact Hokr| |by eexists; apply dr_dapp_with].
    rewrite decide_False by done. unfold dapp_reject. rewrite decide_True by done.
    eapply does_bind; [apply does_GetDapp|]. rewrite dr_dapp_with.
    eapply does_bind; [apply does_freeDappName|]. eapply does_bind; [apply does_freeContractAddr|]. apply does_ret.
Qed.

(** What an approved and a rejected change do to names and contracts. *)
Definition change_names R name : dapp_registry := match name with Some n => free_name R n | None => R end.
Definition change_contracts R (c : option (strset * strset)) id : dapp_registry :=
  match c with Some (gone, kept) => set_contracts (set_contracts R gone None) kept (Some id) | None => R end.

Definition updated (d : Dapp) (u : UpdateDappInfo) : Dapp :=
  with_da_info d (ui_NewInfo (ud_DappName u)) (ui_NewInfo (ud_Desc u)) (ui_NewInfo (ud_Url u)) (um_NewInfo (ud_ContractAddr u))
    (um_NewInfo (ud_Permission u)).

Definition approved_change R (id : string) (d : Dapp) (u : UpdateDappInfo) : dapp_registry :=
  let R := change_names R (if ui_IsEdit (ud_DappName u) then Some (ui_OldInfo (ud_DappName u)) else None) in
  let R := change_contracts R (if um_IsEdit (ud_ContractAddr u)
             then Some (um_OldInfo (ud_ContractAddr u), um_NewInfo (ud_ContractAddr u)) else None) id in
  let R := with_dapp R id (updated (with_da_Status d GovernanceAvailable) u) in
  if decide (da_Name d = ui_NewInfo (ud_DappName u)) then R else with_index R (da_Name d) id.

Definition rejected_change R (id : string) (d : Dapp) (u : UpdateDappInfo) : dapp_registry :=
  let R := change_names R (if ui_IsEdit (ud_DappName u) then Some (ui_NewInfo (ud_DappName u)) else None) in
  let R := change_contracts R (if um_IsEdit (ud_ContractAddr u)
             then Some (um_NewInfo (ud_ContractAddr u), um_OldInfo (ud_ContractAddr u)) else None) id in
  with_dapp R id (with_da_Status d GovernanceFrozen).

Lemma dapp_ok_updated id d u : dapp_ok id d → Forall is_ascii (UpdateDapp_text u) → dapp_ok id (updated d u).
Proof.
  intros [Hid Hf Ha] Hu. split; [done|done|]. unfold Dapp_text, UpdateDapp_text, UpdateInfo_text in *.
  cbn [updated with_da_info da_DappID da_Name da_Type da_Desc da_Url da_ContractAddr da_Permission da_OwnerAddr
    da_EvaluationRecords da_TransferRecords da_Status] in *.
  rewrite !Forall_app, !Forall_cons in *. naive_solver.
Qed.

Global Instance with_index_proper : Proper ((≡) ==> (=) ==> (=) ==> (≡)) with_index.
Proof.
  intros R R' (?&?&?& Hi &?) n _ <- i _ <-. repeat split; [done..| |done]. intros x. cbn. unfold upd. case_decide; [done|apply Hi].
Qed.

(** Storing an application commutes with what is done to names and contracts. *)
Lemma with_dapp_change R id d id' d' name c :
  with_dapp (change_contracts (change_names (with_dapp R id d) name) c id) id' d' ≡
  with_dapp (with_dapp (change_contracts (change_names R name) c id) id d) id' d'.
Proof. destruct name, c as [[]|]; by repeat split. Qed.

Lemma does_change_names (b : bool) n R :
  does (if b then freeDappName ctx n else mret tt) R tt (change_names R (if b then Some n else None)).
Proof. destruct b; [apply does_freeDappName|apply does_ret]. Qed.

Lemma does_change_contracts (b : bool) gone kept id R :
  is_ascii id →
  does (if b then _ ← freeContractAddr ctx gone; occupyContractAddr ctx kept id else mret tt) R tt
    (change_contracts R (if b then Some (gone, kept) else None) id).
Proof.
  intros Hid. destruct b; [|apply does_ret]. eapply does_bind; [apply does_freeContractAddr|]. by apply does_occupyContractAddr.
Qed.

Lemma does_update id d u R :
  dr_dapp R id = Some d → dapp_ok id d → Forall is_ascii (UpdateDapp_text u) → 
  does (dapp_update ctx (MkDapp id (ui_NewInfo (ud_DappName u)) EmptyString (ui_NewInfo (ud_Desc u)) (ui_NewInfo (ud_Url u))
          (um_NewInfo (ud_ContractAddr u)) (um_NewInfo (ud_Permission u)) EmptyString 0 (S754_zero false) ∅ [] EmptyString)) R (Some tt)
    (if decide (da_Name d = ui_NewInfo (ud_DappName u)) then with_dapp R id (updated d u)
     else with_index (with_dapp R id (updated d u)) (da_Name d) id).
Proof.
  intros Hd Hok Hu. unfold dapp_update. cbn [da_DappID da_Name da_Desc da_Url da_ContractAddr da_Permission].
  pose proof (dapp_ok_updated id d u Hok Hu) as Hok'.
  assert (is_ascii id) as Hid by (destruct Hok as [<- _ Ha]; by apply Forall_cons in Ha as [? _]).
  eapply does_bind; [apply does_GetDapp|]. rewrite Hd. cbv zeta. fold (updated d u). rewrite (dok_id id _ Hok').
  eapply does_bind; [by apply does_SetDapp|]. change (da_Name (updated d u)) with (ui_NewInfo (ud_DappName u)).
  destruct (decide (da_Name d = ui_NewInfo (ud_DappName u))); [apply does_ret|].
  eapply does_bind; [apply does_DeleteIndex|]. eapply does_bind; [by apply does_SetIndex|].
  assert (∀ R0, with_index (MkDapps (dr_dapp R0) (dr_name R0) (dr_contract R0) (upd (dr_index R0) (da_Name d) None) (dr_owner R0)) (da_Name d) id
    ≡ with_index R0 (da_Name d) id) as Ht by (intros R0; repeat split; intros x; cbn; unfold upd; by case_decide).
  rewrite Ht. apply does_ret.
Qed.

(** The changes of a proposal with the change [u], while the application is being updated. *)
Definition being_updated R id d u extra : Prop :=
  dr_dapp R id = Some d ∧ dapp_ok id d ∧ da_Status d = GovernanceUpdating ∧
  extra ≫= unmarshal = Some u ∧ Forall is_ascii (UpdateDapp_text u).

Lemma update_effect last id extra R d u :
  being_updated R id d u extra → last ∈ dappStateMap EventUpdate →
  does (dapp_Manage ctx EventUpdate APPROVED last id extra) R (Success None) (approved_change R id d u) ∧
  does (dapp_Manage ctx EventUpdate REJECTED last id extra) R (Success None) (rejected_change R id d u).
Proof.
  intros (Hd & Hok & Hst & Hu & Hascii) Hlast.
  assert (is_ascii GovernanceFrozen) as Hfz
    by (pose proof statuses_ascii as Ha; rewrite Forall_forall in Ha; apply Ha; rewrite !elem_of_cons; tauto).
  destruct (dapp_result EventUpdate GovernanceUpdating GovernanceAvailable (Some GovernanceFrozen) d last) as [Ea Er];
    [right; left|done|done|].
  pose proof (dapp_ok_status _ _ _ Hok available_ascii) as Hoka. pose proof (dapp_ok_status _ _ _ Hok Hfz) as Hokr.
  assert (is_ascii id) as Hid by (destruct Hok as [<- _ Ha]; by apply Forall_cons in Ha as [? _]).
  assert (EventUpdate ≠ EventRegister) as Hne by (clear Hst; distinct; unequal).
  split.
  - eapply does_Manage; [exact Hd|exact Ea|exact Hoka| |].
    + rewrite decide_True by done. unfold dapp_approve. rewrite decide_False, decide_True, Hu by done.
      eapply does_bind; [apply does_change_names|]. eapply does_bind; [by apply does_change_contracts|].
      eapply (does_bind _ _ _ (Some tt)); [|apply does_ret].
      eapply does_proper; [reflexivity|reflexivity| |apply does_update; [|exact Hoka|exact Hascii]].
      * unfold approved_change. cbv zeta. cbn [da_Name with_da_Status].
        destruct (decide _); by rewrite with_dapp_change, with_dapp_twice.
      * destruct (ui_IsEdit _), (um_IsEdit _); apply dr_dapp_with.
    + unfold approved_change. cbv zeta. case_decide; eexists; apply dr_dapp_with.
  - eapply does_Manage; [exact Hd|exact Er|exact Hokr| |by eexists; apply dr_dapp_with].
    rewrite decide_False by done. unfold dapp_reject. rewrite decide_False, decide_True, Hu by done.
    eapply does_bind; [apply does_change_names|]. eapply does_bind; [by apply does_change_contracts|].
    unfold rejected_change. cbv zeta.
    destruct (ui_IsEdit _), (um_IsEdit _); apply does_ret.
Qed.

(** The result of a change of an application. Approved: the old name and the contracts that were given up can be taken
again, the new contracts belong to the application, it is available with the new data, and when its name changed, the index of
the old name - and no other - is written. Rejected: the new name and the new contracts can be taken again, the old contracts
belong to the application, and it is frozen with its old data. *)
Theorem dapp_update_result last id extra R d u :
  being_updated R id d u extra → last ∈ dappStateMap EventUpdate →
  does (dapp_Manage ctx EventUpdate APPROVED last id extra) R (Success None) (approved_change R id d u) ∧
  does (dapp_Manage ctx EventUpdate REJECTED last id extra) R (Success None) (rejected_change R id d u).
Proof. apply update_effect. Qed.

(** When the approval of a change gives an application a new name that the index did not have, the application is not found
by that name; a query by the old name, which others may take, finds it. *)
Theorem renamed_dapp_unindexed last id extra R d u s :
  being_updated R id d u extra → last ∈ dappStateMap EventUpdate →
  da_Name d ≠ ui_NewInfo (ud_DappName u) → dr_index R (ui_NewInfo (ud_DappName u)) = None →
  marshal (updated (with_da_Status d GovernanceAvailable) u) = Some s →
  ∃ R', does (dapp_Manage ctx EventUpdate APPROVED last id extra) R (Success None) R' ∧
    does (GetDappByName ctx (ui_NewInfo (ud_DappName u))) R' (nonexistentDapp (ui_NewInfo (ud_DappName u))) R' ∧
    does (GetDappByName ctx (da_Name d)) R' (Success (Some s)) R'.
Proof.
  intros Hb Hlast Hne Hi Hs. exists (approved_change R id d u). split; [by eapply update_effect|].
  assert (∀ n, dr_index (approved_change R id d u) n = if decide (n = da_Name d) then Some id else dr_index R n) as Hidx.
  { intros n. unfold approved_change. cbv zeta. rewrite decide_False by done. cbn. unfold upd.
    destruct (decide _); [done|]. by destruct (ui_IsEdit _), (um_IsEdit _). }
  assert (dr_dapp (approved_change R id d u) id = Some (updated (with_da_Status d GovernanceAvailable) u)) as Hdapp.
  { unfold approved_change. cbv zeta. rewrite decide_False by done. apply dr_dapp_with. }
  unfold GetDappByName. split.
  - eapply does_bind; [apply does_GetIndex|]. rewrite Hidx, decide_False, Hi by done. apply does_ret.
  - eapply does_bind; [apply does_GetIndex|]. rewrite Hidx, decide_True by done.
    eapply does_bind; [apply does_GetDapp|]. rewrite Hdapp. unfold answerDapp. rewrite Hs. apply does_ret.
Qed.
End results.

(** *** Opening proposals *)

Lemma hasCode_reads a w r w' :
  exec (hasCode a) w = (Some r, w') → w' = w ∧ (r = true ↔ ∃ h, w_codehash w a = Some h ∧ h ≠ Keccak256 EmptyString).
Proof.
  unfold hasCode. cbn. intros [= <- <-]. split; [done|]. destruct (w_codehash w a) as [h|]; [|split; [done|by intros (?&?&?)]].
  unfold bytes_Equal. rewrite negb_true_iff, bool_decide_eq_false. split; [|intros (h' & [= <-] & Hh) [= Hc]; done].
  intros Hne. exists h. split; [done|congruence].
Qed.

(** A name or a contract that an application may use: nobody has it, or, unless it is new, the application itself. *)
Definition usable (isRegister : bool) (id : string) (taken : option string) : Prop :=
  taken = None ∨ (isRegister = false ∧ taken = Some id).

(** What the checks of an application find out. *)
Record dapp_checked w (isRegister : bool) (d : Dapp) : Prop := {
  dc_name : usable isRegister (da_DappID d) (dr_name (dapps_of w) (da_Name d));
  dc_type : da_Type d ∈ [DappTool; DappApplication; DappGame; DappOthers];
  dc_contracts a : a ∈ dom (da_ContractAddr d) →
    usable isRegister (da_DappID d) (dr_contract (dapps_of w) a) ∧
    ∃ h, w_codehash w (NewAddressByStr a) = Some h ∧ h ≠ Keccak256 EmptyString }.

(** What a check of one contract finds out. *)
Definition contract_checked w (isRegister : bool) id a (r : option Response) : Prop :=
  match r with
  | Some res => resp_Ok res = false
  | None => usable isRegister id (dr_contract (dapps_of w) a) ∧
            ∃ h, w_codehash w (NewAddressByStr a) = Some h ∧ h ≠ Keccak256 EmptyString
  end.

Lemma exec_GetContract a w :
  exec (GetObject (A := string) ctx (DappOccupyContractKey a)) w = (Some (dr_contract (dapps_of w) a), w).
Proof. done. Qed.
Lemma exec_GetName n w :
  exec (GetObject (A := string) ctx (DappOccupyNameKey n)) w = (Some (dr_name (dapps_of w) n), w).
Proof. done. Qed.

Lemma checkContractAddr_spec d b a w r w' :
  exec (checkContractAddr ctx d b a) w = (Some r, w') → w' = w ∧ contract_checked w b (da_DappID d) a r.
Proof.
  unfold checkContractAddr. destruct (HexDecodeString a); cbn [negb]; [|by intros [= <- <-]].
  unfold isOccupiedContractAddr. rewrite exec_bind, exec_GetContract.
  assert (usable b (da_DappID d) (dr_contract (dapps_of w) a) →
    exec (code ← hasCode (NewAddressByStr a); mret (if (code : bool) then None else Some (Error "DappNonexistentContractCode" [a]))) w = (Some r, w') →
    w' = w ∧ contract_checked w b (da_DappID d) a r) as Hcode.
  { intros Hu E. step E as code w1 E1. apply hasCode_reads in E1 as [-> Hcode]. injection E as <- <-. split; [done|].
    destruct code; [|done]. split; [done|]. by apply Hcode. }
  destruct (dr_contract (dapps_of w) a) as [id|] eqn:Et; [|intros E; apply Hcode; [by left|exact E]].
  destruct b; [by intros [= <- <-]|]. destruct (decide (id ≠ da_DappID d)) as [|Heq%dec_stable]; [by intros [= <- <-]|].
  intros E. apply Hcode; [right; by subst id|exact E].
Qed.

(** A loop that stops at an error, of checks that only read. *)
Lemma prog_find_spec {A B} (f : A → prog (option B)) (P : A → option B → Prop) l w r w' :
  (∀ x r w', exec (f x) w = (Some r, w') → w' = w ∧ P x r) → exec (prog_find f l) w = (Some r, w') →
  w' = w ∧ match r with Some e => ∃ x, x ∈ l ∧ P x (Some e) | None => Forall (λ x, P x None) l end.
Proof.
  intros Hf. induction l as [|x l IH]; cbn [prog_find]; intros E; [injection E as <- <-; by split|].
  step E as r1 w1 E1. apply Hf in E1 as [-> Hx]. destruct r1 as [e|]; [injection E as <- <-; split; [done|]; exists x; by split; [left|]|].
  destruct (IH E) as [-> Hl]. split; [done|]. destruct r as [e|]; [|by constructor].
  destruct Hl as (y & Hy & HP). exists y. by split; [right|].
Qed.

Lemma checkDappInfo_spec d b w r w' :
  exec (checkDappInfo ctx d b) w = (Some r, w') → w' = w ∧ (resp_Ok r = true → dapp_checked w b d).
Proof.
  unfold checkDappInfo. case_decide; [by intros [= <- <-]|]. case_decide; [by intros [= <- <-]|].
  unfold dapp_isOccupiedName. rewrite exec_bind, exec_GetName.
  destruct (match dr_name (dapps_of w) (da_Name d) with Some _ => _ | None => _ end) as [res|] eqn:Em.
  { intros [= <- <-]. split; [done|]. destruct (dr_name _ _); [|done]. destruct (b || _); [|done]. by injection Em as <-. }
  assert (usable b (da_DappID d) (dr_name (dapps_of w) (da_Name d))) as Hn.
  { destruct (dr_name _ _) as [id|]; [|by left]. destruct b; [done|]. cbn [orb] in Em.
    destruct (bool_decide (id ≠ da_DappID d)) eqn:Eb; [done|]. apply bool_decide_eq_false, dec_stable in Eb as ->. by right. }
  destruct (decide (da_Type d ∉ _)) as [|Ht%dec_stable]; [by intros [= <- <-]|]. intros E. step E as bad w1 E1.
  apply (prog_find_spec _ (contract_checked w b (da_DappID d))) in E1 as [-> Hc]; [|intros x r0 w0; apply checkContractAddr_spec].
  destruct bad as [res|].
  { injection E as <- <-. destruct Hc as (x & _ & Hx). cbn in Hx. by rewrite Hx. }
  injection E as <- <-. split; [done|]. intros _. split; [done|done|]. intros a Ha. rewrite Forall_forall in Hc.
  apply Hc. by rewrite elem_of_go_keys, <-elem_of_dom.
Qed.

Lemma packageDappInfo_spec id name typ desc url conAddrs permits owner score time evals trs status w d w' :
  exec (packageDappInfo ctx id name typ desc url conAddrs permits owner score time evals trs status) w = (Some d, w') →
  w' = w ∧ da_Name d = name ∧ da_ContractAddr d = strset_split conAddrs ∧ (id ≠ EmptyString → da_DappID d = id).
Proof.
  unfold packageDappInfo. intros E. step E as i w1 E1. injection E as <- <-. cbn. destruct (decide (id = EmptyString)) as [->|Hne].
  - step E1 as m w2 E2. rewrite exec_GetObject in E2. injection E2 as <- <-. by injection E1 as <- <-.
  - by injection E1 as <- <-.
Qed.

Lemma governancePre_spec id ev w r w' : exec (dapp_governancePre ctx id ev) w = (Some r, w') → w' = w.
Proof. unfold dapp_governancePre. rewrite exec_bind, exec_GetObject. by intros [= _ <-]. Qed.

Lemma checkSelf_spec owner reg d w r w' : exec (dapp_checkPermission ctx [PermissionSelf] owner reg d) w = (Some r, w') → w' = w.
Proof. cbn [dapp_checkPermission]. rewrite decide_True by done. case_decide; by intros [= _ <-]. Qed.

(** An application is registered or changed only under a name and with contracts that nobody else has, and every address that
it claims has a contract: if [RegisterDapp] or [UpdateDapp] answers with a proposal, its name was free, or is the one the
application has already, and so are its contracts. *)
Theorem dapp_names_not_taken_over (Manage : string → string → string → string → string → option string → Context → prog Response)
    name typ desc url conAddrs permits reason id w w' data :
  (exec (RegisterDapp Manage ctx name typ desc url conAddrs permits reason) w = (Some (Success data), w') →
   dr_name (dapps_of w) name = None ∧
   ∀ a, a ∈ dom (strset_split conAddrs) → dr_contract (dapps_of w) a = None ∧
     ∃ h, w_codehash w (NewAddressByStr a) = Some h ∧ h ≠ Keccak256 EmptyString) ∧
  (id ≠ EmptyString → exec (UpdateDapp Manage ctx id name desc url conAddrs permits reason) w = (Some (Success data), w') →
   (dr_name (dapps_of w) name = None ∨ dr_name (dapps_of w) name = Some id) ∧
   ∀ a, a ∈ dom (strset_split conAddrs) → (dr_contract (dapps_of w) a = None ∨ dr_contract (dapps_of w) a = Some id) ∧
     ∃ h, w_codehash w (NewAddressByStr a) = Some h ∧ h ≠ Keccak256 EmptyString).
Proof.
  split.
  - intros E. unfold RegisterDapp in E. step E as d w1 E1. apply packageDappInfo_spec in E1 as (-> & <- & <- & _).
    step E as checked w1 E1. apply checkDappInfo_spec in E1 as [-> Hc].
    destruct checked as [c|c args]; cbn [resp_Ok negb] in E; [|discriminate E]. destruct (Hc eq_refl) as [Hn _ Ha].
    split; [by destruct Hn as [?|[? _]]|]. intros a Hin. destruct (Ha a Hin) as [[Hfree|[? _]] Hcode]; by split.
  - intros Hid E. unfold UpdateDapp in E. step E as pre w1 E1. apply governancePre_spec in E1 as ->.
    destruct pre as [[old|]|be]; [|done|done]. step E as ok w1 E1. apply checkSelf_spec in E1 as ->.
    destruct ok; cbn [negb] in E; [|done]. step E as d w1 E1. apply packageDappInfo_spec in E1 as (-> & <- & <- & Hd).
    rewrite <-(Hd Hid). step E as checked w1 E1. apply checkDappInfo_spec in E1 as [-> Hc].
    destruct checked as [c|c args]; cbn [resp_Ok negb] in E; [|discriminate E]. destruct (Hc eq_refl) as [Hn _ Ha].
    split; [destruct Hn as [?|[_ ?]]; [by left|by right]|]. intros a Hin. destruct (Ha a Hin) as [[?|[_ ?]] Hcode]; by split; [first [by left|by right]|].
Qed.
End contract.
