(* ===== verification/NodeTheorems.v ===== *)
(** * Theorems about nodes

Validating nodes take part in consensus: their numbers stay distinct, and too few of them cannot be left. The sets of
permissions that proposals compare are compared correctly. *)
From Stdlib Require Import Ascii.
From S2P Require Import Prelude Storage Account StateLedger Contract TransactionManager Interchain Transactions Role Governance Strategy.
From S2P Require Import Registry Nodes RoleManager Appchain NodeManager.

(** ** Comparing sets *)

(** The comparison of two sets of texts by their sizes and the members of one of them, which the contracts of nodes, services
and applications use to find out what a proposal changes, is the comparison of the sets, whatever the order of iteration. *)
Theorem strset_changed_differ `{GoRange} (a b : gmap string ()) : strset_changed a b = true ↔ a ≠ b.
Proof.
  unfold strset_changed. destruct (decide (size a ≠ size b)) as [Hne|Heq%dec_stable].
  - split; [intros _ ->; done|done].
  - rewrite existsb_exists. split.
    + intros (k & Hk%list_elem_of_In%elem_of_go_keys & Hb%bool_decide_eq_true) ->. rewrite Hb in Hk. by destruct Hk.
    + intros Hne. destruct (decide (dom a ⊆ dom b)) as [Hsub|Hsub].
      * destruct Hne. apply map_eq. intros k. assert (dom a = dom b) as Hdom.
        { apply leibniz_equiv, set_subseteq_size_equiv; [done|]. rewrite !size_dom. lia. }
        destruct (a !! k) as [[]|] eqn:Ea, (b !! k) as [[]|] eqn:Eb; try done.
        -- apply not_elem_of_dom in Eb. rewrite <-Hdom in Eb. by apply not_elem_of_dom in Eb; rewrite Ea in Eb.
        -- apply not_elem_of_dom in Ea. rewrite Hdom in Ea. by apply not_elem_of_dom in Ea; rewrite Eb in Ea.
      * destruct (decide (Exists (λ k, k ∉ dom b) (elements (dom a)))) as [(k & Hk & Hb)%Exists_exists|Hall].
        -- exists k. rewrite <-list_elem_of_In, elem_of_go_keys, bool_decide_eq_true. apply elem_of_elements, elem_of_dom in Hk.
           by apply not_elem_of_dom in Hb.
        -- destruct Hsub. intros k Hk. rewrite <-Forall_Exists_neg in Hall. rewrite Forall_forall in Hall.
           apply elem_of_elements, Hall in Hk. by apply dec_stable in Hk.
Qed.

Section nodes.
Context `{GovernanceLib, GovJsonLib, ProposalJsonLib, StrategyJsonLib, EvalLib, FsmLib, ConstantLib, !GovAddrLib, GoRange, !RoleLib, !NodePkg, QueryLib}.
Context `{!AppchainPkg}.
Context (ctx : Context).
Implicit Types (w : world).

(** The nodes that the package lists. *)
Definition nodes_in w : list Node := default [] (default None (exec (rg_All (O := Node) ctx None) w).1).

Definition validating (n : Node) : bool := nd_IsAvailable n && bool_decide (nd_NodeType n = VPNode).

(** *** Numbers of validating nodes *)

Definition greater_id (maxId : Z) (n : Node) : Z :=
  if validating n && bool_decide (i64 (nd_VPNodeId n) > maxId)%Z then i64 (nd_VPNodeId n) else maxId.

Lemma greatest_id l m :
  (m ≤ foldl greater_id m l)%Z ∧ (∀ n, n ∈ l → validating n = true → (i64 (nd_VPNodeId n) ≤ foldl greater_id m l)%Z) ∧
  (foldl greater_id m l = m ∨ ∃ n, n ∈ l ∧ foldl greater_id m l = i64 (nd_VPNodeId n)).
Proof.
  revert m. induction l as [|x l IH]; intros m; cbn [foldl].
  - split_and!; [lia|by intros ? ?%elem_of_nil|by left].
  - destruct (IH (greater_id m x)) as (L1 & L2 & L3).
    assert (m ≤ greater_id m x ∧ (validating x = true → i64 (nd_VPNodeId x) ≤ greater_id m x) ∧
            (greater_id m x = m ∨ greater_id m x = i64 (nd_VPNodeId x)))%Z as (G1 & G2 & G3).
    { unfold greater_id. destruct (validating x); cbn [andb]; [|by split_and!; [lia|done|left]].
      case_bool_decide; split_and!; first [lia|by right|by left|intros; lia]. }
    split_and!; [lia| |].
    + intros n [->|Hn]%elem_of_cons Hv; [specialize (G2 Hv); lia|by apply L2].
    + destruct L3 as [L3|(n & Hn & L3)]; [|right; exists n; by split; [right|]].
      destruct G3 as [G3|G3]; rewrite L3, G3; [by left|right; exists x; by split; [left|]].
Qed.

Lemma exec_getNextVpID w r w' :
  exec (getNextVpID ctx) w = (Some (Some r), w') → w' = w ∧ r = i64 (foldl greater_id 0%Z (nodes_in w) + 1)%Z.
Proof.
  unfold getNextVpID. intros E. step E as nodes w1 E1. pose proof (reads_only_run _ _ _ _ (rg_All_pure ctx None) E1) as ->.
  unfold nodes_in. rewrite E1. injection E as Hr <-. split; [done|]. destruct nodes as [l|]; [|done]. cbn in Hr |- *.
  injection Hr as <-. reflexivity.
Qed.

Lemma CheckOccupied_pure c a : reads_only (CheckOccupiedAccount c a).
Proof. unfold CheckOccupiedAccount, checkOccupiedAccount. solve_reads. Qed.

(** A validating node that is registered gets a number that is greater than the numbers of all validating nodes that are
available, as long as those are less than the greatest 64-bit integer: numbers are not used twice. *)
Theorem vp_ids_fresh node w data w' :
  exec (checkNodeInfo ctx node true) w = (Some (Success data), w') → nd_NodeType node = VPNode → is_u64 (nd_VPNodeId node) →
  (∀ n, n ∈ nodes_in w → 0 ≤ nd_VPNodeId n < MaxInt64)%Z →
  ∀ n, n ∈ nodes_in w → validating n = true → (nd_VPNodeId n < nd_VPNodeId node)%Z.
Proof.
  intros E Hvp Hnew Hids n Hn Hv. unfold checkNodeInfo in E. destruct (HexDecodeString _); cbn [negb] in E; [|done].
  step E as free w1 E1. apply reads_only_run in E1 as ->; [|apply CrossInvoke_pure, CheckOccupied_pure].
  destruct (resp_Ok free); cbn [negb] in E; [|done]. rewrite decide_True in E by done.
  step E as next w1 E1. destruct next as [next|]; [|done]. apply exec_getNextVpID in E1 as [-> ->].
  destruct (decide _) as [|Hge] in E; [done|].
  destruct (greatest_id (nodes_in w) 0%Z) as (G1 & G2 & G3). specialize (G2 n Hn Hv).
  assert (∀ x, x ∈ nodes_in w → i64 (nd_VPNodeId x) = nd_VPNodeId x) as Hi
    by (intros x Hx; apply i64_small; specialize (Hids x Hx); unfold is_i64, MaxInt64 in *; lia).
  rewrite Hi in G2 by done.
  assert (foldl greater_id 0%Z (nodes_in w) < MaxInt64)%Z as Hlt
    by (destruct G3 as [->|(x & Hx & ->)]; [unfold MaxInt64; lia|rewrite Hi by done; by apply Hids]).
  rewrite (i64_small (_ + 1)%Z) in Hge by (unfold is_i64, MaxInt64 in *; lia).
  assert (i64 (nd_VPNodeId node) ≤ nd_VPNodeId node)%Z; [|lia].
  unfold i64, is_u64, MaxUint64 in *. Z.to_euclidean_division_equations; lia.
Qed.

(** *** Logging a validating node out *)

Lemma IsAnyAvailableAdmin_pure c id t : reads_only (IsAnyAvailableAdmin c id t).
Proof. unfold IsAnyAvailableAdmin, isAvailableAdmin. solve_reads. Qed.

Lemma checkAdmin_pure n reg d : reads_only (node_checkPermission ctx [PermissionAdmin] n reg d).
Proof.
  cbn [node_checkPermission]. rewrite decide_False, decide_True by done.
  apply reads_only_bind; [apply CrossInvoke_pure, IsAnyAvailableAdmin_pure|]. solve_reads.
Qed.

(** A validating node that is being registered or logged out. *)
Definition governed (n : Node) : Prop :=
  nd_NodeType n ≠ NVPNode ∧ (nd_Status n = GovernanceRegisting ∨ nd_Status n = GovernanceLogouting).

Lemma exec_hasVpNodeGoverned w b w' :
  exec (hasVpNodeGoverned ctx) w = (Some b, w') → w' = w ∧ (b = false → ∀ n, n ∈ nodes_in w → ¬ governed n).
Proof.
  unfold hasVpNodeGoverned. intros E. step E as nodes w1 E1. apply reads_only_run in E1 as Hw; [|apply rg_All_pure]. subst w1.
  unfold nodes_in. rewrite E1. injection E as <- <-. split; [done|]. destruct nodes as [l|]; cbn; [|by intros _ n ?%elem_of_nil].
  intros Hb n Hn Hg. assert (existsb (λ node, bool_decide (governed node)) l = true) as Ht; [|unfold governed in Ht; by rewrite Ht in Hb].
  apply existsb_exists. exists n. by rewrite <-list_elem_of_In, bool_decide_true.
Qed.

(** A proposal to log a validating node out is opened only when no other validating node is being registered or logged out,
the node is not a primary one, and more than four validating nodes are available, so four are left. *)
Theorem vp_logout_guarded (Manage : string → string → string → string → string → option string → Context → prog Response)
    nodeAccount reason w data w' node w1 :
  exec (rg_GovernancePre (O := Node) ctx nodeAccount EventLogout None) w = (Some (inl (Some node)), w1) →
  nd_NodeType node = VPNode →
  exec (LogoutNode Manage ctx nodeAccount reason) w = (Some (Success data), w') →
  (∀ n, n ∈ nodes_in w → ¬ governed n) ∧ nd_Primary node = false ∧
  ∃ text num w2, exec (rg_CountAvailable (O := Node) ctx (Some VPNode)) w = (Some (true, text), w2) ∧
    Atoi (default EmptyString text) = Some num ∧ (MinimumVPNode < num)%Z.
Proof.
  intros Hpre Hvp E. unfold LogoutNode in E. step E as ok w2 E1. apply reads_only_run in E1 as ->; [|apply checkAdmin_pure].
  destruct ok; cbn [negb] in E; [|done]. step E as pre w2 E2.
  pose proof (eq_trans (eq_sym Hpre) E2) as Hp. injection Hp as <- <-. apply reads_only_run in E2 as ->; [|apply rg_GovernancePre_pure].
  destruct (decide (nd_NodeType node = VPNode)) as [_|]; [|done]. step E as bad w3 E3. unfold checkLogoutVP in E3.
  step E3 as g w4 E4. apply exec_hasVpNodeGoverned in E4 as [-> Hg].
  destruct g; [injection E3 as <- <-; discriminate E|]. destruct (nd_Primary node); [injection E3 as <- <-; discriminate E|].
  split; [by apply Hg|]. split; [done|]. step E3 as count w5 E5. destruct count as [c text].
  destruct c; cbn [negb] in E3; [|injection E3 as <- <-; discriminate E].
  destruct (Atoi (default EmptyString text)) as [num|] eqn:En; [|injection E3 as <- <-; discriminate E].
  destruct (decide (num ≤ MinimumVPNode)%Z); [injection E3 as <- <-; discriminate E|]. exists text, num, w5. split_and!; [done|done|lia].
Qed.
End nodes.
