(* ===== verification/Broker.v ===== *)
(** * Calls of the relay chain itself, plain storage and trust roots

[InterBroker] ([inter_broker.go]) lets contracts of the relay chain send and receive messages between chains: it numbers
the messages, keeps what to call back, and runs Ethereum contracts. [Store] ([store.go]) and [TrustChain]
([trust_chain.go]) keep values. The last section is the interface that the interchain contract asks of other contracts,
[PeerContracts], implemented by the registries of services and chains and by this broker. *)
From Stdlib Require Import Ascii SpecFloat.
From S2P Require Import Prelude Storage Account StateLedger Contract TransactionManager Interchain Role Governance Strategy Registry Nodes RoleManager.
From S2P Require Import Names Appchain Service.

(** ** Data *)

Record CallFunc := MkCallFunc { cf_CallF : string; cf_Args : list string }.
Record InterchainInvoke := MkInvoke { iv_CallFunc : CallFunc; iv_Callback : CallFunc; iv_Rollback : CallFunc }.

(** [map[string]uint64] of the counters *)
Record Counters := MkCounters { ct_map : gmap string Z }.

(** [pb.Content] and [pb.TrustMeta] *)
Record Content := MkContent { co_Func : string; co_Args : list string }.
Record TrustMeta := MkTrustMeta { tr_ChainId : string; tr_TrustContractAddr : string; tr_Method : string; tr_Data : string }.

Definition compositeKeys (key1 key2 : string) : string := key1 +:+ "-" +:+ key2.
Definition outMessageKey (id : string) : string := "out-" +:+ id.
Definition trustKey (key : string) : string := "trust-" +:+ key.

Definition InCounterKey : string := "InCounter".
Definition OutCounterKey : string := "OutCounter".
Definition CallbackCounterKey : string := "CallbackCounter".

Definition CallFunc_text (c : CallFunc) : list string := cf_CallF c :: cf_Args c.
Definition Invoke_text (i : InterchainInvoke) : list string :=
  CallFunc_text (iv_CallFunc i) ++ CallFunc_text (iv_Callback i) ++ CallFunc_text (iv_Rollback i).

Class BrokerLib := {
  counters_codec :: JsonCodec Counters (λ c, (map_to_list (ct_map c)).*1);
  counters_leftover :: Leftover Counters;
  callfunc_codec :: JsonCodec CallFunc CallFunc_text;
  invoke_codec :: JsonCodec InterchainInvoke Invoke_text;
  content_codec :: Codec Content;
  trustmeta_codec :: Codec TrustMeta
}.

(** ** The broker *)

Section broker.
Context `{ConstantLib, PbLib, BrokerLib}.
(** Running a contract of the Ethereum virtual machine at an address with an input. *)
Context (CrossInvokeEVM : Context → string → string → prog Response).
Context (ctx : Context).

Definition incCounter (id key : string) : prog Z :=
  counterMap ← GetInto ctx (MkCounters ∅) key;
  let n := default 0%Z (ct_map counterMap !! id) +u 1 in
  _ ← SetObject ctx key (MkCounters (<[id := n]> (ct_map counterMap)));
  mret n.

Definition getMeta (key : string) : prog Counters := GetInto ctx (MkCounters ∅) key.

Definition answerMeta (key : string) : prog Response :=
  meta ← getMeta key;
  mret match marshal meta with None => Error "BrokerInternalErrCode" [] | Some data => Success (Some data) end.

Definition GetInMeta : prog Response := answerMeta InCounterKey.
Definition GetOutMeta : prog Response := answerMeta OutCounterKey.
Definition GetCallbackMeta : prog Response := answerMeta CallbackCounterKey.

(** Go keeps the bytes of the arguments. *)
Definition argsToByteArray (args : list string) : list string := args.

(** The input of a call back: the first argument; a call without arguments panics. *)
Definition first_arg (c : CallFunc) : prog string :=
  match cf_Args c with [] => Panic | arg :: _ => mret arg end.

Definition InvokeReceipt (input : option string) : prog Response :=
  match unmarshal (A := IBTP) (default EmptyString input) with
  | None => mret (Error "BrokerInternalErrCode" [])
  | Some ibtp =>
      _ ← incCounter (compositeKeys (ib_From ibtp) (ib_To ibtp)) CallbackCounterKey;
      match str_split colon (ib_To ibtp) with
      | [_; _; service] =>
          interInvoke ← GetObject (A := InterchainInvoke) ctx (outMessageKey (ibtp_ID ibtp));
          match interInvoke with
          | None => mret (Error "BrokerNonexistentInterchainInvokeCode" [ibtp_ID ibtp])
          | Some i =>
              if bool_decide (Category ibtp = IBTP_RESPONSE) && bool_decide (cf_CallF (iv_CallFunc i) = EmptyString)
              then mret (Success None)
              else
              evmInput ← first_arg (iv_Callback i);
              evmInput ← (if decide (ib_Type ibtp = IBTP_RECEIPT_ROLLBACK) then first_arg (iv_Rollback i) else mret evmInput);
              _ ← CrossInvokeEVM ctx service evmInput;
              mret (Success None)
          end
      | _ => mret (Error "BrokerIllegalIBTPToCode" [ib_To ibtp])
      end
  end.

Definition InvokeInterchain (input : option string) : prog Response :=
  match unmarshal (A := IBTP) (default EmptyString input) with
  | None => mret (Error "BrokerInternalErrCode" [])
  | Some ibtp =>
      _ ← incCounter (compositeKeys (ib_From ibtp) (ib_To ibtp)) InCounterKey;
      match str_split colon (ib_To ibtp) with
      | [_; _; service] =>
          match unmarshal (A := Content) (ib_Payload ibtp) with
          | None => mret (Error "BrokerInternalErrCode" [])
          | Some content =>
              match co_Args content with
              | [] => Panic
              | arg :: _ =>
                  res ← CrossInvokeEVM ctx service arg;
                  let typ := if negb (resp_Ok res) && bool_decide (ib_Type ibtp = IBTP_INTERCHAIN)
                             then IBTP_RECEIPT_FAILURE else IBTP_RECEIPT_SUCCESS in
                  (** the result is stored in [content], which is not used any more *)
                  mret (Success (marshal (MkIBTP (ib_From ibtp) (ib_To ibtp) (ib_Index ibtp) typ (ib_TimeoutHeight ibtp)
                    (ib_Group ibtp) (ib_Extra ibtp) (ib_Payload ibtp) (ib_Proof ibtp))))
              end
          end
      | _ => mret (Error "BrokerIllegalIBTPToCode" [ib_To ibtp])
      end
  end.

Definition GetOutMessage (from to : string) (index : Z) : prog Response :=
  let key := getIBTPID from to index in
  interInvoke ← GetObject (A := InterchainInvoke) ctx (outMessageKey key);
  mret match interInvoke with
       | None => Error "BrokerNonexistentOutMsgCode" [key]
       | Some i => match marshal (iv_CallFunc i) with None => Error "BrokerInternalErrCode" [] | Some data => Success (Some data) end
       end.

(** The message is looked up with a method [GetIBTPById], which the interchain contract does not have (its method is
[GetIBTPByID]): the call is an error. *)
Definition GetInMessage (from to : string) (index : Z) : prog Response :=
  CrossInvoke ctx InterchainContractAddr (λ _, mret (Error EmptyString ["not such method"])).

(** [HandleIBTPData] is the method of the interchain contract. *)
Definition EmitInterchain (HandleIBTPData : string → Context → prog Response)
    (fromServiceId toServiceId funcs args argsCb argsRb : string) : prog Response :=
  index ← incCounter (compositeKeys toServiceId fromServiceId) OutCounterKey;
  match str_split comma funcs with
  | [f0; f1; f2] =>
      let interInvoke :=
        MkInvoke (MkCallFunc f0 (str_split comma args)) (MkCallFunc f1 (str_split comma argsCb))
          (MkCallFunc f2 (str_split comma argsRb)) in
      match marshal (MkContent f0 (argsToByteArray (str_split comma args))) with
      | None => mret (Error "BrokerInternalErrCode" [])
      | Some contData =>
          let ibtp := MkIBTP fromServiceId toServiceId index IBTP_INTERCHAIN 0 None EmptyString contData None in
          _ ← SetObject ctx (outMessageKey (ibtp_ID ibtp)) interInvoke;
          match marshal ibtp with
          | None => mret (Error "BrokerInternalErrCode" [])
          | Some data => CrossInvoke ctx InterchainContractAddr (HandleIBTPData data)
          end
      end
  | _ => mret (Error "BrokerIllegalFunctionCode" [funcs])
  end.
End broker.

(** ** Plain storage *)

Section store.
Context `{RoleLib}.
Context (ctx : Context).

Definition Store_Set (key value : string) : prog Response := _ ← SetObject ctx key value; mret (Success None).

Definition Store_Get (key : string) : prog Response :=
  v ← GetObject (A := string) ctx key;
  mret match v with None => Error "OtherInternalErrCode" [] | Some v => Success (Some v) end.
End store.

(** ** Trust roots *)

Section trust.
Context `{BrokerLib, RoleLib}.
(** The method with a name of the contract at an address, with bytes as its argument. *)
Context (method : string → string → string → Context → prog Response).
Context (ctx : Context).

Definition AddTrustMeta (data : string) : prog Response :=
  match unmarshal (A := TrustMeta) data with
  | None => mret (Error "TrustInternalErrCode" [])
  | Some t =>
      if decide (tr_TrustContractAddr t ≠ EmptyString)
      then let address := NewAddressByStr (tr_TrustContractAddr t) in
           CrossInvoke ctx address (method address (tr_Method t) (tr_Data t))
      else _ ← Set_ ctx (trustKey (tr_ChainId t)) (Some (tr_Data t)); mret (Success None)
  end.

Definition GetTrustMeta (key : string) : prog Response :=
  match unmarshal (A := TrustMeta) key with
  | None => mret (Error "TrustInternalErrCode" [])
  | Some t =>
      if decide (tr_TrustContractAddr t ≠ EmptyString)
      then let address := NewAddressByStr (tr_TrustContractAddr t) in
           CrossInvoke ctx address (method address (tr_Method t) (tr_Data t))
      else
      data ← Get ctx (trustKey (tr_ChainId t));
      mret match data with
           | None => Error "TrustNonexistentTrustDataCode" [tr_ChainId t]
           | Some data => Success (Some data)
           end
  end.
End trust.

(** ** The contracts that the interchain contract calls *)

Section peers.
Context `{TxPbLib, PbLib}.
Context `{GovernanceLib, GovJsonLib, ProposalJsonLib, StrategyJsonLib, EvalLib, ConstantLib, !GovAddrLib, GoRange, !RoleLib}.
Context `{!AppchainPkg, !ServicePkg, BrokerLib}.
Context (CrossInvokeEVM : Context → string → string → prog Response).

(** The ids of the services that have sent or received messages. *)
Definition GetAllServiceIDs `{QueryLib} (ctx : Context) : prog Response :=
  value ← stub_Query ctx INTERCHAINSERVICE_PREFIX;
  match value with
  | [] => mret (Success None)
  | _ =>
      mret match mapM (λ d, ic_ID <$> unmarshal (A := Interchain) (default EmptyString d)) value with
           | None => Error "InterchainInternalErrCode" []
           | Some ids => match marshal ids with None => Error "InterchainInternalErrCode" [] | Some data => Success (Some data) end
           end
  end.

Lemma GetServiceInfo_leaves addrs id : leaves_alone addrs (λ ctx, GetServiceInfo ctx id).
Proof. intros ctx Hc. unfold GetServiceInfo. solve_writes. eapply writes_only_weaken; [|apply rg_QueryById_reads]. done. Qed.

Lemma IsAvailableBitxhub_leaves addrs id : leaves_alone addrs (λ ctx, IsAvailableBitxhub ctx id).
Proof. intros ctx Hc. unfold IsAvailableBitxhub. solve_writes. eapply writes_only_weaken; [|apply rg_QueryById_reads]. done. Qed.

Lemma RecordInvokeService_leaves addrs to from r : leaves_alone addrs (λ ctx, RecordInvokeService ctx to from r).
Proof.
  intros ctx Hc. unfold RecordInvokeService, service_posted, postAuditServiceEvent, postServiceEvent. solve_writes.
  unfold service_onlyFrom, onlyFrom. solve_writes. cbn [chain_checkPermission].
  rewrite decide_False, decide_False, decide_True by done. by destruct (isSpecific _ _) as [[]|].
Qed.

(** The interface, implemented. *)
Definition real_peers : PeerContracts :=
  {| ServiceMgr_GetServiceInfo id ctx := GetServiceInfo ctx id;
     ServiceMgr_RecordInvokeService to from r ctx := RecordInvokeService ctx to from r;
     AppchainMgr_IsAvailableBitxhub id ctx := IsAvailableBitxhub ctx id;
     InterBroker_InvokeInterchain input ctx := InvokeInterchain CrossInvokeEVM ctx input;
     InterBroker_InvokeReceipt input ctx := InvokeReceipt CrossInvokeEVM ctx input;
     GetServiceInfo_alone id := GetServiceInfo_leaves _ id;
     RecordInvokeService_alone to from r := RecordInvokeService_leaves _ to from r;
     IsAvailableBitxhub_alone id := IsAvailableBitxhub_leaves _ id |}.
End peers.
