(* ===== verification/BrokerTheorems.v ===== *)
(** * Theorems about the broker, plain storage and trust roots *)
From Stdlib Require Import Ascii.
From S2P Require Import Prelude Storage Account StateLedger Contract TransactionManager Interchain InterchainProps Role Governance Strategy Registry Nodes RoleManager.
From S2P Require Import Names NamesTheorems Appchain Service Broker CrossChainSample.

Section broker.
Context `{TxPbLib, ConstantLib, FsmLib, GoRange, PbLib, ServiceLib, !PeerContracts, HashLib, BrokerLib}.
Context (CrossInvokeEVM : Context → string → string → prog Response).
Implicit Types (w : world).

(** *** Counters *)

Definition count_of w addr key id : Z := default 0%Z (ct_map (held (MkCounters ∅) (w_state w addr key)) !! id).

Definition counters_ascii w addr key : Prop := Forall is_ascii (map_to_list (ct_map (held (MkCounters ∅) (w_state w addr key)))).*1.

Lemma exec_incCounter ctx id key w :
  exec (incCounter ctx id key) w =
  (Some (count_of w (ctx_Callee ctx) key id +u 1),
   w_setState w (ctx_Callee ctx) key (Some (json_text
     (MkCounters (<[id := count_of w (ctx_Callee ctx) key id +u 1]> (ct_map (held (MkCounters ∅) (w_state w (ctx_Callee ctx) key)))))))).
Proof. unfold incCounter. by rewrite exec_bind, exec_GetInto, exec_bind, exec_SetObject_json. Qed.

(** One counter is raised by one, the others of the map stay. *)
Lemma incCounter_counts ctx id key w :
  is_ascii id → counters_ascii w (ctx_Callee ctx) key →
  let w' := (exec (incCounter ctx id key) w).2 in
  count_of w' (ctx_Callee ctx) key id = count_of w (ctx_Callee ctx) key id +u 1 ∧
  (∀ id', id' ≠ id → count_of w' (ctx_Callee ctx) key id' = count_of w (ctx_Callee ctx) key id') ∧
  counters_ascii w' (ctx_Callee ctx) key.
Proof.
  intros Hid Hasc w'. unfold w'. rewrite exec_incCounter. cbn [snd].
  set (n := count_of w (ctx_Callee ctx) key id +u 1). set (m := ct_map (held (MkCounters ∅) (w_state w (ctx_Callee ctx) key))).
  assert (∀ m', Forall is_ascii (map_to_list m').*1 → held (MkCounters ∅) (Some (json_text (MkCounters m'))) = MkCounters m') as Hheld.
  { intros m' Hm. by apply (held_json (text := λ c, (map_to_list (ct_map c)).*1)). }
  assert (∀ id', count_of (w_setState w (ctx_Callee ctx) key (Some (json_text (MkCounters (<[id := n]> m))))) (ctx_Callee ctx) key id' =
    default 0%Z (<[id := n]> m !! id')) as Hcount.
  { intros id'. unfold count_of. rewrite state_set, decide_True by done. by rewrite Hheld by (by apply text_insert). }
  split_and!.
  - by rewrite Hcount, lookup_insert_eq.
  - intros id' Hne. by rewrite Hcount, lookup_insert_ne.
  - unfold counters_ascii. rewrite state_set, decide_True by done. rewrite Hheld by (by apply text_insert). by apply text_insert.
Qed.

(** *** Messages of the relay chain *)

(** Calls of the interchain contract from other contracts run without a cache of services: a message whose source is a
service of this relay chain panics in the check of its source. *)
Lemma HandleIBTP_no_cache ctx ibtp b c s w :
  ctx_Callee ctx = InterchainContractAddr → Category ibtp = IBTP_REQUEST →
  str_split colon (ib_From ibtp) = [b; c; s] → w_state w InterchainContractAddr BitXHubID = Some b →
  ∀ r w', exec (HandleIBTP None ctx ibtp) w ≠ (Some (Success r), w').
Proof.
  intros Hc Hcat Hfrom Hid r w' E. unfold HandleIBTP, checkIBTP in E. step E as checked w1 E1. step E1 as src w2 E2.
  assert (src = Some (MkChainService b c s true) ∧ w2 = w) as [-> ->].
  { unfold parseChainService in E2. rewrite Hfrom, exec_bind in E2. unfold getBitXHubID in E2. rewrite exec_Get, Hc, Hid in E2. cbn in E2.
    rewrite bool_decide_true in E2 by done. by injection E2 as <- <-. }
  step E1 as dst w3 E3. destruct dst as [dst|]; [|injection E1 as <- <-; done].
  step E1 as ic w4 E4. destruct ic as [ic ok]. step E1 as n w5 E5. destruct n as [n|]; [|injection E1 as <- <-; done].
  rewrite bool_decide_true in E1 by done. cbn [andb] in E1. destruct n; cbn [negb] in E1.
  - rewrite orb_true_r in E1. unfold checkResponse in E1. cbn in E1. done.
  - unfold checkRequest in E1. cbn in E1. done.
Qed.

(** The method of the contract object that the broker reaches. *)
Definition handle_data (data : string) (ctx : Context) : prog Response := HandleIBTPData None ctx data.

(** A contract of the relay chain cannot send messages: [EmitInterchain] for a service of this relay chain never
succeeds, because the interchain contract that it calls has no cache of services. *)
Theorem emit_never_succeeds ctx from to funcs args argsCb argsRb b c s w :
  ctx_Callee ctx = InterBrokerContractAddr → str_split colon from = [b; c; s] →
  w_state w InterchainContractAddr BitXHubID = Some b →
  ∀ r w', exec (EmitInterchain ctx handle_data from to funcs args argsCb argsRb) w ≠ (Some (Success r), w').
Proof.
  intros Hc Hfrom Hid r w' E. assert (InterchainContractAddr ≠ InterBrokerContractAddr) as Hne.
  { pose proof constants_NoDup as Hn. rewrite !NoDup_cons, !not_elem_of_cons in Hn. naive_solver. }
  unfold EmitInterchain in E. rewrite exec_bind, exec_incCounter, Hc in E.
  destruct (str_split comma funcs) as [|f0 [|f1 [|f2 [|? ?]]]]; try done. cbv zeta in E.
  destruct (codec_ok (MkContent f0 (argsToByteArray (str_split comma args)))) as (cd & Hcd & _). rewrite Hcd in E.
  rewrite exec_bind, exec_SetObject_json, Hc in E.
  match type of E with exec (match marshal ?i with _ => _ end) ?w2 = _ => set (ibtp := i) in E; set (w2' := w2) in E end.
  destruct (codec_ok ibtp) as (d & Hd & Hu). rewrite Hd, exec_CrossInvoke in E. unfold handle_data, HandleIBTPData in E. rewrite Hu in E.
  assert (w_state w2' InterchainContractAddr BitXHubID = Some b) as Hid2.
  { unfold w2'. rewrite !state_set, !decide_False; [done|intros [? _]; done..]. }
  match type of E with context [exec ?p ?x] => destruct (exec p x) as [res w3] eqn:E3 end.
  destruct res as [[data|code l]|]; [|done|done].
  by eapply (HandleIBTP_no_cache (cross_context ctx InterchainContractAddr) ibtp b c s w2'); [|apply Category_request| | |].
Qed.

(** The receipt of a call of a contract of the relay chain carries the payload of the request, not the result of the
call. *)
Theorem result_not_returned ctx ibtp data w d w' :
  marshal ibtp = Some data → exec (InvokeInterchain CrossInvokeEVM ctx (Some data)) w = (Some (Success (Some d)), w') →
  ∃ receipt, unmarshal d = Some receipt ∧ ib_Payload receipt = ib_Payload ibtp ∧ ib_Index receipt = ib_Index ibtp ∧
    ib_Type receipt ∈ [IBTP_RECEIPT_SUCCESS; IBTP_RECEIPT_FAILURE].
Proof.
  intros Hd E. unfold InvokeInterchain in E. cbn [default from_option id] in E. rewrite (marshal_unmarshal _ _ Hd), exec_bind, exec_incCounter in E.
  destruct (str_split colon (ib_To ibtp)) as [|x0 [|x1 [|x2 [|? ?]]]]; try done.
  destruct (unmarshal (ib_Payload ibtp)) as [content|]; [|done]. destruct (co_Args content) as [|arg l]; [done|].
  step E as res w1 E1. cbv zeta in E. injection E as E _. eexists. split; [by apply marshal_unmarshal|]. cbn.
  split_and!; [done|done|]. case_match; set_solver.
Qed.

(** The broker cannot look up messages that came in. *)
Theorem in_message_unknown ctx from to index w :
  exec (GetInMessage ctx from to index) w = (Some (Error "OtherInternalErrCode" [EmptyString; "not such method"]), w).
Proof. done. Qed.
End broker.

(** *** Storage *)

(** What was stored is read back, and storing changes one key. *)
Theorem store_roundtrip `{RoleLib} ctx key value w :
  is_ascii value →
  ∃ w', exec (Store_Set ctx key value) w = (Some (Success None), w') ∧
    exec (Store_Get ctx key) w' = (Some (Success (Some value)), w') ∧
    (∀ a k, (a, k) ≠ (ctx_Callee ctx, key) → w_state w' a k = w_state w a k).
Proof.
  intros Hv. unfold Store_Set. rewrite exec_bind, exec_SetObject_json. eexists. split; [done|]. split.
  - unfold Store_Get. rewrite exec_bind, exec_read, stored_set, decide_True by done. cbn.
    by rewrite (json_text_ok (text := λ s : string, [s])) by (by apply Forall_singleton).
  - intros a k Hak. rewrite state_set, decide_False; [done|]. intros [-> ->]. done.
Qed.

(** A trust root that is kept by the contract itself is read back. *)
Theorem trust_roundtrip `{BrokerLib, RoleLib} method ctx t data w :
  marshal t = Some data → tr_TrustContractAddr t = EmptyString →
  ∃ w', exec (AddTrustMeta method ctx data) w = (Some (Success None), w') ∧
    exec (GetTrustMeta method ctx data) w' = (Some (Success (Some (tr_Data t))), w').
Proof.
  intros Hd Ht. unfold AddTrustMeta, GetTrustMeta. rewrite (marshal_unmarshal _ _ Hd). rewrite !decide_False by (by rewrite Ht; intros []).
  rewrite exec_bind, exec_Set. eexists. split; [done|]. rewrite exec_bind, exec_Get, state_set, decide_True by done. done.
Qed.

(** ** Messages without proof

The interchain contract takes messages as bytes from anybody: a user who calls [HandleIBTPData] with a message that
claims to come from another relay chain has it executed, without the proof that the executor asks for when a message
comes as a transaction of its own kind. *)
Module BrokerSample.
Import CrossChain.
Local Existing Instance tx_lib.
Local Existing Instance constants.
Local Existing Instance pb_lib.
Local Existing Instance services.
Local Existing Instance peers.
Local Existing Instance fsm_by_filter.
Local Existing Instance range_by_encoding.
Local Existing Instance hash_plain.

(** From a service of the relay chain 2 to a contract of this relay chain. *)
Definition forged : IBTP := MkIBTP "2:c:s" "1:1:x" 1 IBTP_INTERCHAIN 10 None EmptyString EmptyString None.
Definition call : prog Response :=
  match marshal forged with None => Panic | Some data => HandleIBTPData None ctx data end.

(** The message is accepted, counted and handed to the broker, which carries out calls. *)
Example forged_message :
  ctx_CurrentCaller ctx = ctx_Caller ctx ∧ (exec call w0).1 = Some (Success None) ∧
  out_counter (exec call w0).2 "2:c:s" "1:1:x" = 1%Z.
Proof. split_and!; vm_compute; reflexivity. Qed.
End BrokerSample.
