(* ===== verification/Genesis.v ===== *)
(** * The first block: [src/internal/ledger/genesis/genesis.go]

A node without blocks writes the administrators with their balances, the strategies, the first validating nodes, the
number of the relay chain and the nonces of the built-in contracts, commits block 1, and writes the data of the name
service. *)
From Stdlib Require Import Ascii.
From S2P Require Import Prelude Storage Account StateLedger Contract TransactionManager Interchain Executor Transactions Role ProofPool Blocks TxExecutor ChainLedger Pipeline.
From S2P Require Import Governance Strategy Registry Nodes RoleManager Names.

(** ** Configuration: [src/internal/repo] *)

Record Admin := MkAdmin { ad_Address : string; ad_Weight : Z }.
Record StrategyConfig := MkStrategyConfig { sc_Module : string; sc_Typ : string; sc_Extra : string }.
Record GenesisConfig := MkGenesis {
  ge_ChainID : Z; ge_Balance : string; ge_Admins : list Admin; ge_Strategy : list StrategyConfig }.
Record NetworkNodes := MkNetworkNode { nn_ID : Z; nn_Pid : string; nn_Account : string }.

Definition PriceLetterOne : Z := 1.
Definition PriceLetterTwo : Z := 2.
Definition PriceLetterThree : Z := 3.
Definition PriceLetterFour : Z := 4.
Definition PriceLetterFive : Z := 5.

(** JSON of a [map[string]struct{}], which the role contract reads as an ordered map, and the keys of [node-mgr]. *)
Class GenesisLib `{GovJsonLib} := {
  idmap_marshal : gmap string () → option string;
  idmap_marshals m : is_Some (idmap_marshal m);
  idmap_reads m s :
    Forall is_ascii (map_to_list m).*1 → idmap_marshal m = Some s →
    ∃ l, unmarshal s = Some (MkOrderedMap l) ∧ l ≡ₚ (map_to_list m).*1;
  VpNodeIdKey : string → string;
  VpNodePidKey : string → string;
  NodeTypeKey : string → string
}.

(** [&types.Hash{}] *)
Definition ZeroHash : string := String.string_of_list_ascii (replicate 32 Ascii.zero).

Section genesis.
Context `{StorageLib, LruLib, AddressLib, InnerAccountLib, AccessListLib, BlockFileLib, ChainLib, MerkleLib}.
Context `{BvmLib, TxPbLib, ConstantLib, PbLib, ServiceLib, !PeerContracts, !EventLib, GoRange, FsmLib, HashLib}.
Context `{GovernanceLib, GovJsonLib, ProposalJsonLib, !GovAddrLib, !RoleLib, !NodePkg, !NameLib, !GenesisLib, Encoding BlockJournal}.

(** [lg.SetState(addr, key, value, nil)] *)
Definition lg_SetState (addr key value : string) : prog () := OpSetState addr key (Some value) None (mret tt).

(** ** The state of the first block *)

Definition admin_role (ad : Admin) : Role :=
  MkRole (ad_Address ad) GovernanceAdmin (ad_Weight ad) EmptyString EmptyString GovernanceAvailable.

(** The administrators; [None] is an error. *)
Fixpoint init_admins (admins : list Admin) (idMap : gmap string ()) : prog (option (gmap string ())) :=
  match admins with
  | [] => mret (Some idMap)
  | ad :: admins =>
      match marshal (admin_role ad) with
      | None => mret None
      | Some adminData =>
          _ ← lg_SetState RoleContractAddr (RoleKey (ad_Address ad)) adminData;
          init_admins admins (<[ad_Address ad := tt]> idMap)
      end
  end.

(** A balance that is not a number is a nil pointer, on which hashing the account panics. *)
Definition init_balance (balance : option Z) (ad : Admin) : prog () :=
  match balance with
  | None => Panic
  | Some balance => OpSetBalance (NewAddressByStr (ad_Address ad)) balance (mret tt)
  end.

Definition strategy_of (v : StrategyConfig) : ProposalStrategy :=
  MkStrategy (sc_Module v) (sc_Typ v) (sc_Extra v) GovernanceAvailable.

Fixpoint init_strategies (l : list StrategyConfig) : prog (option ()) :=
  match l with
  | [] => mret (Some tt)
  | v :: l =>
      match marshal (strategy_of v) with
      | None => mret None
      | Some psData =>
          _ ← lg_SetState ProposalStrategyMgrContractAddr (ProposalStrategyKey (sc_Module v)) psData;
          init_strategies l
      end
  end.

Definition primary_node (n : NetworkNodes) : Nodes.Node :=
  Nodes.MkNode (nn_Account n) VPNode (nn_Pid n) (nn_ID n) true EmptyString ∅ EmptyString GovernanceAvailable.

(** The first [n] nodes from number [i] on; a missing node panics. *)
Fixpoint init_nodes (nodes : list NetworkNodes) (i n : nat) (nodeAccountMap : OrderedMap) : prog (option OrderedMap) :=
  match n with
  | 0 => mret (Some nodeAccountMap)
  | S n =>
      match nodes !! i with
      | None => Panic
      | Some c =>
          let node := primary_node c in
          match marshal node with
          | None => mret None
          | Some nodeData =>
              _ ← lg_SetState NodeManagerContractAddr (NodeKey (nd_Account node)) nodeData;
              _ ← lg_SetState NodeManagerContractAddr (VpNodeIdKey (fmt_d (i64 (nd_VPNodeId node)))) (nd_Account node);
              _ ← lg_SetState NodeManagerContractAddr (VpNodePidKey (nd_Pid node)) (nd_Account node);
              init_nodes nodes (S i) n (om_Set nodeAccountMap (nd_Account node))
          end
      end
  end.

Definition init_nonce (addr : string) : prog () := OpSetNonce (NewAddressByStr addr) 1 (mret tt).

(** What is written before the block is committed; [contracts] are the addresses of the built-in contracts. *)
Definition genesis_state {C} (genesis : GenesisConfig) (nodes : list NetworkNodes) (primaryN : Z) (contracts : gmap string C) :
    prog (option ()) :=
  idMap ← init_admins (ge_Admins genesis) ∅;
  match idMap with None => mret None | Some idMap =>
  match idmap_marshal idMap with None => mret None | Some idMapData =>
  _ ← lg_SetState RoleContractAddr (RoleTypeKey GovernanceAdmin) idMapData;
  _ ← prog_iter (init_balance (big_SetString (ge_Balance genesis))) (ge_Admins genesis);
  _ ← lg_SetState RoleContractAddr GenesisBalance (ge_Balance genesis);
  ok ← init_strategies (ge_Strategy genesis);
  match ok with None => mret None | Some _ =>
  accounts ← init_nodes nodes 0 (Z.to_nat (i64 primaryN)) om_New;
  match accounts with None => mret None | Some accounts =>
  match marshal accounts with None => mret None | Some accountsData =>
  _ ← lg_SetState NodeManagerContractAddr (NodeTypeKey VPNode) accountsData;
  _ ← lg_SetState InterchainContractAddr BitXHubID (fmt_d (ge_ChainID genesis));
  _ ← prog_iter init_nonce (go_keys contracts);
  mret (Some tt)
  end end end end end.

(** ** The data of the name service *)

Definition genesis_prices : PriceLevel :=
  MkPriceLevel PriceLetterOne PriceLetterTwo PriceLetterThree PriceLetterFour PriceLetterFive.
Definition genesis_resolvers : gmap string bool := {[ServiceResolverText := true]}.
Definition genesis_permissions : gmap string (gmap string bool) := {[ServiceRegistryText := {[ServiceResolverText := true]}]}.

(** [None] is an error. *)
Definition initBNSData : prog (option ()) :=
  match marshal genesis_prices with None => mret None | Some priceLevelBytes =>
  _ ← lg_SetState ServiceRegistryContractAddr PriceLenLevel priceLevelBytes;
  match marshal 1%Z with None => mret None | Some tokenPriceBytes =>
  _ ← lg_SetState ServiceRegistryContractAddr BitxhubTokenPrice tokenPriceBytes;
  match marshal genesis_resolvers with None => mret None | Some resolverMapBytes =>
  _ ← lg_SetState ServiceRegistryContractAddr ResolverMap resolverMapBytes;
  match marshal genesis_permissions with None => mret None | Some permissionControllerBytes =>
  _ ← lg_SetState ServiceRegistryContractAddr PermissionController permissionControllerBytes;
  match marshal (∅ : gmap string (option (list string))) with None => mret None | Some reverseNameBytes =>
  _ ← lg_SetState ServiceResolverContractAddr ReverseMap reverseNameBytes;
  mret (Some tt)
  end end end end end.

(** ** The first block *)

Definition genesis_block (stateRoot : string) (nowNano : Z) : Block :=
  let h := MkBlockHeader 1 nowNano ZeroHash stateRoot ZeroHash ZeroHash EmptyString in
  MkBlock h [] (header_Hash h) None None.

(** The boolean is [false] for an error; [None] is a panic. The data of the name service is written after the block was
committed. *)
Definition Initialize {C} (genesis : GenesisConfig) (nodes : list NetworkNodes) (primaryN : Z) (contracts : gmap string C)
    (nowNano : Z) (n : Pipeline.Node) : option (bool * Pipeline.Node) :=
  '(ok, state) ← (_ ← PrepareBlock None 1; run_ledger (genesis_state genesis nodes primaryN contracts)) (n_state n);
  let n := Pipeline.MkNode state (n_chain n) (currentHeight n) (currentBlockHash n) (n_out n) in
  match ok with
  | None => Some (false, n)
  | Some _ =>
      '(accounts, stateRoot, state) ← FlushDirtyData (n_state n);
      let n := Pipeline.MkNode state (n_chain n) (currentHeight n) (currentBlockHash n) (n_out n) in
      n ← PersistBlockData n (genesis_block stateRoot nowNano) [] accounts (MkInterchainMeta ∅ ∅ [] ∅);
      '(ok, state) ← run_ledger initBNSData (n_state n);
      Some (bool_decide (ok = Some tt), Pipeline.MkNode state (n_chain n) (currentHeight n) (currentBlockHash n) (n_out n))
  end.
End genesis.
