(* ===== verification/GenesisTheorems.v ===== *)
(** * Theorems about the first block

The state that [Initialize] writes is one from which the contracts start: the electorate is the configured
administrators, the governance contract is empty, and names can be registered. *)
From Stdlib Require Import Ascii.
From S2P Require Import Prelude Storage Account StateLedger Contract TransactionManager Interchain Executor Transactions Role ProofPool Blocks TxExecutor ChainLedger Pipeline.
From S2P Require Import Governance GovernanceProps GovernanceSteps GovernanceTheorems GovernanceClaims Strategy Registry Nodes RoleManager Names NamesTheorems Genesis.

(** A program that writes only the state. *)
Fixpoint state_only {A} (p : prog A) : Prop :=
  match p with
  | Ret _ | Panic => True
  | OpGetState _ _ k => ∀ v, state_only (k v)
  | OpSetState _ _ _ _ p | OpAddState _ _ _ p => state_only p
  | OpGetBalance _ k | OpGetNonce _ k => ∀ v, state_only (k v)
  | OpGetCodeHash _ k => ∀ v, state_only (k v)
  | OpSetBalance _ _ _ | OpSetNonce _ _ _ | OpAddEvent _ _ _ _ => False
  end.

Lemma state_only_bind {A B} (p : prog A) (f : A → prog B) : state_only p → (∀ a, state_only (f a)) → state_only (p ≫= f).
Proof. intros Hp Hf. induction p; simpl in *; try done; auto. Qed.

Lemma state_only_exec {A} (p : prog A) w :
  state_only p → w_balance (exec p w).2 = w_balance w ∧ w_nonce (exec p w).2 = w_nonce w.
Proof.
  revert w. induction p as [r| |a key f IH|a key v c p IH|a key v p IH|a f IH|a v p IH|a f IH|a v p IH|a f IH|h t d p IH];
    intros w Hp; simpl in *; try done; try (by apply IH); by destruct (IH (w_setState w a key v) Hp) as [-> ->].
Qed.

Section genesis.
Context `{StorageLib, LruLib, AddressLib, InnerAccountLib, AccessListLib, BlockFileLib, ChainLib, MerkleLib}.
Context `{BvmLib, TxPbLib, ConstantLib, PbLib, ServiceLib, GoRange, HashLib}.
Context `{GovernanceLib, GovJsonLib, ProposalJsonLib, !GovAddrLib, !RoleLib, !NodePkg, !NameLib, !GenesisLib}.
Implicit Types (w : world).

Lemma exec_lg_SetState addr key v w : exec (lg_SetState addr key v) w = (Some tt, w_setState w addr key (Some v)).
Proof. done. Qed.

(** *** Administrators *)

Definition admin_ascii (ad : Admin) : Prop := is_ascii (ad_Address ad).

Lemma admin_role_text ad : admin_ascii ad → Forall is_ascii (Role_text (admin_role ad)).
Proof.
  intros Ha. unfold Role_text, admin_role. cbn. repeat (apply Forall_cons; split; [done|]). apply Forall_singleton, available_ascii.
Qed.

Definition enter (m : gmap string ()) (admins : list Admin) : gmap string () := foldl (λ m ad, <[ad_Address ad := tt]> m) m admins.

Lemma enter_lookup m admins k : is_Some (enter m admins !! k) ↔ is_Some (m !! k) ∨ k ∈ ad_Address <$> admins.
Proof.
  revert m. induction admins as [|ad admins IH]; intros m; cbn [enter foldl fmap list_fmap]; [set_solver|].
  fold (enter (<[ad_Address ad := tt]> m) admins). rewrite IH, elem_of_cons. destruct (decide (k = ad_Address ad)) as [->|Hne].
  - rewrite lookup_insert_eq. split; [tauto|]. intros _. left. by eexists.
  - rewrite lookup_insert_ne by done. tauto.
Qed.

(** The keys of the map are the addresses. *)
Lemma enter_keys admins : NoDup (ad_Address <$> admins) → (map_to_list (enter ∅ admins)).*1 ≡ₚ ad_Address <$> admins.
Proof.
  intros Hnd. apply NoDup_Permutation; [apply NoDup_fst_map_to_list|done|]. intros k. rewrite list_elem_of_fmap. split.
  - intros ([k' []] & -> & Hk%elem_of_map_to_list). assert (is_Some (enter ∅ admins !! k')) as [Hs|Hs]%enter_lookup by (by eexists); [|done].
    by rewrite lookup_empty in Hs; destruct Hs.
  - intros Hk. destruct (proj2 (enter_lookup ∅ admins k)) as [[] Hx]; [by right|]. exists (k, tt). by rewrite elem_of_map_to_list.
Qed.

Lemma exec_init_admins admins m w :
  NoDup (ad_Address <$> admins) → Forall admin_ascii admins →
  ∃ w', exec (init_admins admins m) w = (Some (Some (enter m admins)), w') ∧
    (∀ ad, ad ∈ admins → stored w' RoleContractAddr (RoleKey (ad_Address ad)) = Some (admin_role ad)) ∧
    (∀ a k, a ≠ RoleContractAddr ∨ (∀ ad, ad ∈ admins → k ≠ RoleKey (ad_Address ad)) → w_state w' a k = w_state w a k).
Proof.
  revert m w. induction admins as [|ad admins IH]; intros m w Hnd Ha; [exists w; split_and!; [done|set_solver|done]|].
  cbn [fmap list_fmap] in Hnd. apply NoDup_cons in Hnd as [Hn Hnd]. apply Forall_cons in Ha as [Had Ha]. cbn [init_admins].
  destruct (json_marshals (admin_role ad)) as [s Hs]. rewrite Hs, exec_bind, exec_lg_SetState.
  destruct (IH (<[ad_Address ad := tt]> m) (w_setState w RoleContractAddr (RoleKey (ad_Address ad)) (Some s)) Hnd Ha) as (w' & E & Hst & Hfr).
  exists w'. split; [done|]. split.
  - intros ad' [->|Hin]%elem_of_cons; [|by apply Hst]. unfold stored. rewrite Hfr.
    + rewrite state_set, decide_True by done. cbn. apply (json_ok (admin_role ad) s); [by apply admin_role_text|done].
    + right. intros ad' Hin Heq. apply Hn. apply (inj (String.append "role-")) in Heq. rewrite Heq. by apply list_elem_of_fmap_2.
  - intros a k Hk. rewrite Hfr by set_solver. rewrite state_set, decide_False; [done|]. intros [-> ->].
    destruct Hk as [Hk|Hk]; [done|]. by apply (Hk ad); [set_solver|].
Qed.

Lemma init_admins_state admins m : state_only (init_admins admins m).
Proof.
  revert m. induction admins as [|ad admins IH]; intros m; [done|]. cbn [init_admins]. case_match; [|done].
  by apply state_only_bind.
Qed.

(** *** Balances and nonces *)

Lemma exec_init_balances admins b w :
  ∃ w', exec (prog_iter (init_balance (Some b)) admins) w = (Some tt, w') ∧ w_state w' = w_state w ∧ w_nonce w' = w_nonce w ∧
    (∀ a, w_balance w' a = if decide (a ∈ (λ ad, NewAddressByStr (ad_Address ad)) <$> admins) then b else w_balance w a).
Proof.
  revert w. induction admins as [|ad admins IH]; intros w; [by exists w|]. cbn [prog_iter]. rewrite exec_bind.
  change (exec (init_balance (Some b) ad) w) with (Some tt, w_setBalance w (NewAddressByStr (ad_Address ad)) b).
  destruct (IH (w_setBalance w (NewAddressByStr (ad_Address ad)) b)) as (w' & E & Hs & Hn & Hb). exists w'. split_and!; [done..|].
  intros a. rewrite Hb. cbn [fmap list_fmap]. cbn [w_balance w_setBalance]. unfold upd.
  repeat case_decide; try done; set_solver.
Qed.

Lemma exec_init_nonces l w :
  ∃ w', exec (prog_iter init_nonce l) w = (Some tt, w') ∧ w_state w' = w_state w ∧ w_balance w' = w_balance w ∧
    (∀ a, w_nonce w' a = if decide (a ∈ NewAddressByStr <$> l) then 1%Z else w_nonce w a).
Proof.
  revert w. induction l as [|x l IH]; intros w; [by exists w|]. cbn [prog_iter]. rewrite exec_bind.
  change (exec (init_nonce x) w) with (Some tt, w_setNonce w (NewAddressByStr x) 1).
  destruct (IH (w_setNonce w (NewAddressByStr x) 1)) as (w' & E & Hs & Hn & Hb). exists w'. split_and!; [done..|].
  intros a. rewrite Hb. cbn [fmap list_fmap]. cbn [w_nonce w_setNonce]. unfold upd.
  repeat case_decide; try done; set_solver.
Qed.

(** *** Strategies and nodes *)

Definition strategy_ascii (v : StrategyConfig) : Prop := is_ascii (sc_Module v) ∧ is_ascii (sc_Typ v) ∧ is_ascii (sc_Extra v).

Lemma exec_init_strategies l w :
  NoDup (sc_Module <$> l) → Forall strategy_ascii l →
  ∃ w', exec (init_strategies l) w = (Some (Some tt), w') ∧
    (∀ v, v ∈ l → stored w' ProposalStrategyMgrContractAddr (ProposalStrategyKey (sc_Module v)) = Some (strategy_of v)) ∧
    (∀ a k, a ≠ ProposalStrategyMgrContractAddr ∨ (∀ v, v ∈ l → k ≠ ProposalStrategyKey (sc_Module v)) →
       w_state w' a k = w_state w a k).
Proof.
  revert w. induction l as [|v l IH]; intros w Hnd Ha; [exists w; split_and!; [done|set_solver|done]|].
  cbn [fmap list_fmap] in Hnd. apply NoDup_cons in Hnd as [Hn Hnd]. apply Forall_cons in Ha as [Hv Ha]. cbn [init_strategies].
  destruct (json_marshals (strategy_of v)) as [s Hs]. rewrite Hs, exec_bind, exec_lg_SetState.
  destruct (IH (w_setState w ProposalStrategyMgrContractAddr (ProposalStrategyKey (sc_Module v)) (Some s)) Hnd Ha) as (w' & E & Hst & Hfr).
  exists w'. split; [done|]. split.
  - intros v' [->|Hin]%elem_of_cons; [|by apply Hst]. unfold stored. rewrite Hfr.
    + rewrite state_set, decide_True by done. cbn. apply (json_ok (strategy_of v) s); [|done].
      destruct Hv as (? & ? & ?). unfold Strategy_text, strategy_of. cbn. repeat (apply Forall_cons; split; [done|]). apply Forall_singleton, available_ascii.
    + right. intros v' Hin Heq. apply Hn. apply (inj (String.append "strategy-")) in Heq. rewrite Heq. by apply list_elem_of_fmap_2.
  - intros a k Hk. rewrite Hfr by set_solver. rewrite state_set, decide_False; [done|]. intros [-> ->].
    destruct Hk as [Hk|Hk]; [done|]. by apply (Hk v); [set_solver|].
Qed.

Lemma init_strategies_state l : state_only (init_strategies l).
Proof. induction l as [|v l IH]; [done|]. cbn [init_strategies]. case_match; [|done]. by apply state_only_bind. Qed.

Lemma exec_init_nodes nodes i n m w :
  i + n ≤ length nodes → Forall (λ c, is_Some (marshal (primary_node c))) nodes →
  ∃ m' w', exec (init_nodes nodes i n m) w = (Some (Some m'), w') ∧
    om_Keys m' = om_Keys (foldl om_Set m (nn_Account <$> take n (drop i nodes))) ∧
    (∀ a k, a ≠ NodeManagerContractAddr → w_state w' a k = w_state w a k).
Proof.
  revert i m w. induction n as [|n IH]; intros i m w Hi Hm; [by exists m, w|]. cbn [init_nodes].
  destruct (lookup_lt_is_Some_2 nodes i) as [c Hc]; [lia|]. rewrite Hc. cbv zeta.
  pose proof Hm as Hm2. rewrite Forall_forall in Hm2. destruct (Hm2 c) as [s Hs]; [by eapply list_elem_of_lookup_2|]. rewrite Hs.
  rewrite exec_bind, exec_lg_SetState, exec_bind, exec_lg_SetState, exec_bind, exec_lg_SetState.
  match goal with |- context [exec (init_nodes nodes (S i) n ?m1) ?w1] => destruct (IH (S i) m1 w1) as (m' & w' & E & Hk & Hfr) end; [lia|done|].
  exists m', w'. split; [done|]. split.
  - rewrite Hk. by rewrite (drop_S nodes c i Hc).
  - intros a k Ha. rewrite Hfr by done. rewrite !state_set, !decide_False; [done|intros [? _]; done..].
Qed.

Lemma init_nodes_state nodes i n m : state_only (init_nodes nodes i n m).
Proof.
  revert i m. induction n as [|n IH]; intros i m; [done|]. cbn [init_nodes]. case_match; [|done]. cbv zeta. case_match; [|done].
  apply state_only_bind; [done|]. intros _. apply state_only_bind; [done|]. intros _. apply state_only_bind; [done|]. intros _. apply IH.
Qed.

(** *** The first state *)

Lemma rolesOf_stored ctx admins l w :
  ctx_Callee ctx = RoleContractAddr → l ≡ₚ ad_Address <$> admins →
  (∀ ad, ad ∈ admins → stored w RoleContractAddr (RoleKey (ad_Address ad)) = Some (admin_role ad)) →
  ∃ roles, exec (rolesOf ctx l) w = (Some (Some roles), w) ∧ rl_ID <$> roles = l ∧ Forall (λ r, r ∈ admin_role <$> admins) roles.
Proof.
  intros Hc Hl Hst. assert (∀ x, x ∈ l → ∃ ad, ad ∈ admins ∧ ad_Address ad = x) as Hin.
  { intros x Hx. rewrite Hl, list_elem_of_fmap in Hx. naive_solver. }
  clear Hl. induction l as [|x l IH]; [by exists []|]. destruct (Hin x) as (ad & Had & <-); [set_solver|].
  destruct IH as (roles & E & Hr & Hf); [set_solver|]. exists (admin_role ad :: roles). cbn [rolesOf].
  rewrite exec_bind, exec_read, Hc, (Hst ad Had), exec_bind, E. split_and!; [done|cbn; by f_equal|].
  apply Forall_cons. split; [by apply list_elem_of_fmap_2|done].
Qed.

(** A configuration with which a node can start: administrators and strategies that differ, plain text, a balance, and
enough nodes. *)
Record genesis_ok (genesis : GenesisConfig) (nodes : list NetworkNodes) (primaryN balance : Z) : Prop := {
  go_admins : NoDup (ad_Address <$> ge_Admins genesis);
  go_ascii : Forall admin_ascii (ge_Admins genesis);
  go_modules : NoDup (sc_Module <$> ge_Strategy genesis);
  go_strategies : Forall strategy_ascii (ge_Strategy genesis);
  go_balance : big_SetString (ge_Balance genesis) = Some balance;
  go_nodes : Z.to_nat (i64 primaryN) ≤ length nodes;
  go_marshal : Forall (λ c, is_Some (marshal (primary_node c))) nodes }.

Lemma gov_others :
  RoleContractAddr ≠ NodeManagerContractAddr ∧ RoleContractAddr ≠ ProposalStrategyMgrContractAddr ∧
  NodeManagerContractAddr ≠ ProposalStrategyMgrContractAddr ∧ GovernanceContractAddr ≠ RoleContractAddr ∧
  GovernanceContractAddr ≠ NodeManagerContractAddr ∧ GovernanceContractAddr ≠ ProposalStrategyMgrContractAddr.
Proof.
  pose proof gov_addrs_NoDup as Hn. repeat (apply NoDup_cons in Hn as [? Hn]).
  repeat match goal with Hx : _ ∉ _ :: _ |- _ => rewrite !not_elem_of_cons in Hx end. naive_solver.
Qed.

Lemma exec_genesis_state {C} genesis nodes primaryN (contracts : gmap string C) balance w :
  genesis_ok genesis nodes primaryN balance →
  ∃ w' ids, exec (genesis_state genesis nodes primaryN contracts) w = (Some (Some tt), w') ∧
    (∀ ad, ad ∈ ge_Admins genesis → stored w' RoleContractAddr (RoleKey (ad_Address ad)) = Some (admin_role ad)) ∧
    stored w' RoleContractAddr (RoleTypeKey GovernanceAdmin) = Some (MkOrderedMap ids) ∧ ids ≡ₚ ad_Address <$> ge_Admins genesis ∧
    (∀ v, v ∈ ge_Strategy genesis →
       stored w' ProposalStrategyMgrContractAddr (ProposalStrategyKey (sc_Module v)) = Some (strategy_of v)) ∧
    w_state w' InterchainContractAddr BitXHubID = Some (fmt_d (ge_ChainID genesis)) ∧
    (∀ k, w_state w' GovernanceContractAddr k = w_state w GovernanceContractAddr k) ∧
    (∀ a, w_balance w' a = if decide (a ∈ (λ ad, NewAddressByStr (ad_Address ad)) <$> ge_Admins genesis) then balance else w_balance w a) ∧
    (∀ a, w_nonce w' a = if decide (a ∈ NewAddressByStr <$> go_keys contracts) then 1%Z else w_nonce w a).
Proof.
  intros [Hnd Hasc Hmod Hstr Hbal Hlen Hmar]. destruct gov_others as (N1 & N2 & N3 & N4 & N5 & N6). unfold genesis_state.
  rewrite exec_bind. pose proof (state_only_exec _ w (init_admins_state (ge_Admins genesis) ∅)) as [B1 C1].
  destruct (exec_init_admins (ge_Admins genesis) ∅ w Hnd Hasc) as (w1 & E1 & S1 & F1). rewrite E1 in B1, C1 |- *. cbn in B1, C1.
  set (m := enter ∅ (ge_Admins genesis)). destruct (idmap_marshals m) as [ms Hms]. rewrite Hms, exec_bind, exec_lg_SetState.
  assert (Forall is_ascii (map_to_list m).*1) as Hma.
  { unfold m. rewrite enter_keys by done. apply Forall_fmap. exact Hasc. }
  destruct (idmap_reads m ms Hma Hms) as (ids & Hids & Hperm).
  set (w2 := w_setState w1 RoleContractAddr (RoleTypeKey GovernanceAdmin) (Some ms)). rewrite exec_bind, Hbal.
  destruct (exec_init_balances (ge_Admins genesis) balance w2) as (w3 & E3 & S3 & C3 & B3). rewrite E3, exec_bind, exec_lg_SetState.
  set (w4 := w_setState w3 RoleContractAddr GenesisBalance (Some (ge_Balance genesis))). rewrite exec_bind.
  pose proof (state_only_exec _ w4 (init_strategies_state (ge_Strategy genesis))) as [B5 C5].
  destruct (exec_init_strategies (ge_Strategy genesis) w4 Hmod Hstr) as (w5 & E5 & S5 & F5). rewrite E5 in B5, C5 |- *. cbn in B5, C5.
  rewrite exec_bind. pose proof (state_only_exec _ w5 (init_nodes_state nodes 0 (Z.to_nat (i64 primaryN)) om_New)) as [B6 C6].
  destruct (exec_init_nodes nodes 0 (Z.to_nat (i64 primaryN)) om_New w5) as (m' & w6 & E6 & K6 & F6); [done|done|].
  rewrite E6 in B6, C6 |- *. cbn in B6, C6. destruct (json_marshals m') as [s' Hs']. rewrite Hs', exec_bind, exec_lg_SetState.
  rewrite exec_bind, exec_lg_SetState, exec_bind.
  match goal with |- context [exec (prog_iter init_nonce ?l) ?x] => destruct (exec_init_nonces l x) as (w9 & E9 & S9 & B9 & C9) end.
  rewrite E9. exists w9, ids. split; [done|].
  (** What is at a key of the role contract after the administrators were written. *)
  assert (∀ a k, k ≠ BitXHubID → a ≠ NodeManagerContractAddr → w_state w9 a k = w_state w5 a k) as F9.
  { intros a k Hk Ha. rewrite S9, !state_set, !decide_False by (intros [? ?]; done). by apply F6. }
  assert (∀ k, k ≠ BitXHubID → k ≠ GenesisBalance → w_state w9 RoleContractAddr k = w_state w2 RoleContractAddr k) as FR.
  { intros k Hk Hg. rewrite F9 by done. rewrite F5 by (by left). unfold w4. rewrite state_set, decide_False by (intros [_ ?]; done). by rewrite S3. }
  split_and!.
  - intros ad Had. unfold stored. rewrite FR by done. unfold w2. rewrite state_set, decide_False by (by intros [_ ?]). by apply S1.
  - unfold stored. rewrite FR by done. unfold w2. by rewrite state_set, decide_True.
  - by rewrite Hperm; apply enter_keys.
  - intros v Hv. unfold stored. rewrite F9 by done. by apply S5.
  - rewrite S9, state_set, decide_True by done. done.
  - intros k. rewrite S9, state_set, decide_False by (intros [Hx _]; by apply gov_addrs_interchain).
    rewrite state_set, decide_False by (intros [? ?]; done). rewrite F6 by done. rewrite F5 by (by left).
    unfold w4. rewrite state_set, decide_False by (intros [? ?]; done). rewrite S3. unfold w2. rewrite state_set, decide_False by (intros [? ?]; done).
    apply F1. by left.
  - intros a. rewrite B9. cbn [w_balance w_setState]. rewrite B6, B5. unfold w4. cbn [w_balance w_setState]. rewrite B3. unfold w2. cbn [w_balance w_setState]. by rewrite B1.
  - intros a. rewrite C9. cbn [w_nonce w_setState]. rewrite C6, C5. unfold w4. cbn [w_nonce w_setState]. rewrite C3. unfold w2. cbn [w_nonce w_setState]. by rewrite C1.
Qed.

Lemma same_roles admins roles :
  NoDup (ad_Address <$> admins) → rl_ID <$> roles ≡ₚ ad_Address <$> admins → Forall (λ r, r ∈ admin_role <$> admins) roles →
  roles ≡ₚ admin_role <$> admins.
Proof.
  intros Hnd Hp Hf. assert (NoDup (rl_ID <$> roles)) as Hnr by (by rewrite Hp).
  assert (rl_ID <$> (admin_role <$> admins) = ad_Address <$> admins) as Hids by (by rewrite <-list_fmap_compose).
  apply NoDup_Permutation; [by eapply NoDup_fmap_1|by apply (NoDup_fmap_1 rl_ID); rewrite Hids|]. intros r. rewrite Forall_forall in Hf.
  split; [apply Hf|]. intros Hr. assert (rl_ID r ∈ rl_ID <$> roles) as (r' & Er & Hr')%list_elem_of_fmap.
  { rewrite Hp, <-Hids. by apply list_elem_of_fmap_2. }
  assert (r' ∈ admin_role <$> admins) as Hr2 by (by apply Hf).
  apply list_elem_of_fmap in Hr as (ad & -> & Had), Hr2 as (ad' & -> & Had'). cbn in Er.
  replace ad with ad'; [done|]. apply (list_elem_of_lookup_1) in Had as [i Hi], Had' as [j Hj].
  assert (i = j) as <-; [|congruence]. eapply (NoDup_lookup _ i j); [exact Hnd|by rewrite list_lookup_fmap, Hi|]. by rewrite list_lookup_fmap, Hj, Er.
Qed.

(** C27: A node that starts with a well-formed configuration writes a first state in which the invariant of the governance
contract holds, the role contract answers that the governance administrators are exactly the configured ones, each of
them available with its weight and the configured balance, the configured strategies are in force, the contracts have
nonce 1, and the relay chain has its number. *)
Theorem first_state {C} genesis nodes primaryN (contracts : gmap string C) balance w :
  genesis_ok genesis nodes primaryN balance → (∀ k, w_state w GovernanceContractAddr k = None) →
  ∃ w', exec (genesis_state genesis nodes primaryN contracts) w = (Some (Some tt), w') ∧ gov_inv w' ∧
    (∀ ctx, ctx_Callee ctx = RoleContractAddr → ∃ roles,
       exec (getRolesByType ctx GovernanceAdmin) w' = (Some (inl roles), w') ∧ roles ≡ₚ admin_role <$> ge_Admins genesis) ∧
    (∀ ad, ad ∈ ge_Admins genesis →
       available_admin w' (ad_Address ad) = true ∧ w_balance w' (NewAddressByStr (ad_Address ad)) = balance) ∧
    (∀ v, v ∈ ge_Strategy genesis →
       stored w' ProposalStrategyMgrContractAddr (ProposalStrategyKey (sc_Module v)) = Some (strategy_of v)) ∧
    (∀ a, is_Some (contracts !! a) → w_nonce w' (NewAddressByStr a) = 1%Z) ∧
    w_state w' InterchainContractAddr BitXHubID = Some (fmt_d (ge_ChainID genesis)).
Proof.
  intros Hok Hempty. destruct (exec_genesis_state genesis nodes primaryN contracts balance w Hok) as (w' & ids & E & Hr & Ht & Hi & Hs & Hb & Hg & Hbal & Hno).
  exists w'. split_and!; [done|..].
  - apply genesis_inv. intros k. unfold gov_get. by rewrite Hg.
  - intros ctx Hc. destruct (rolesOf_stored ctx (ge_Admins genesis) ids w' Hc Hi Hr) as (roles & Er & Hid & Hf).
    exists roles. split; [|apply same_roles; [apply Hok|by rewrite Hid|done]].
    unfold getRolesByType. rewrite decide_False by set_solver. rewrite exec_bind, exec_read, Hc, Ht, exec_bind. cbn [om_Keys]. by rewrite Er.
  - intros ad Had. split.
    + unfold available_admin. specialize (Hr ad Had). unfold stored in Hr. destruct (w_state w' RoleContractAddr (RoleKey (ad_Address ad))) as [d|]; [|done].
      cbn in Hr |- *. rewrite Hr. cbn. apply bool_decide_true. by left.
    + rewrite Hbal, decide_True; [done|]. by apply (list_elem_of_fmap_2 (λ ad, NewAddressByStr (ad_Address ad))).
  - done.
  - intros a Ha. rewrite Hno, decide_True; [done|]. by apply list_elem_of_fmap_2, elem_of_go_keys.
  - done.
Qed.

(** The data of the name service: the prices, the only resolver, and that the resolver trusts the registry. *)
Lemma exec_initBNSData w :
  is_ascii ServiceResolverText → is_ascii ServiceRegistryText →
  ∃ w', exec initBNSData w = (Some (Some tt), w') ∧
    stored w' ServiceRegistryContractAddr PriceLenLevel = Some genesis_prices ∧
    stored w' ServiceRegistryContractAddr BitxhubTokenPrice = Some 1%Z ∧
    stored w' ServiceRegistryContractAddr ResolverMap = Some genesis_resolvers ∧
    approved w' ServiceRegistryText ServiceResolverText = true ∧
    (∀ a k, (a, k) ∉ [(ServiceRegistryContractAddr, PriceLenLevel); (ServiceRegistryContractAddr, BitxhubTokenPrice);
       (ServiceRegistryContractAddr, ResolverMap); (ServiceRegistryContractAddr, PermissionController);
       (ServiceResolverContractAddr, ReverseMap)] → w_state w' a k = w_state w a k).
Proof.
  intros Ha1 Ha2. pose proof resolver_ne as Hne. unfold initBNSData.
  destruct (json_marshals genesis_prices) as [s1 H1'], (json_marshals 1%Z) as [s2 H2'], (json_marshals genesis_resolvers) as [s3 H3'],
    (json_marshals genesis_permissions) as [s4 H4'], (json_marshals (∅ : gmap string (option (list string)))) as [s5 H5'].
  rewrite H1', H2', H3', H4', H5', !exec_bind, !exec_lg_SetState, exec_bind, exec_lg_SetState, exec_bind, exec_lg_SetState,
    exec_bind, exec_lg_SetState, exec_bind, exec_lg_SetState. eexists. split; [done|].
  unfold approved. rewrite !stored_set.
  repeat first [rewrite (decide_True (P := _ ∧ _)) by done | rewrite (decide_False (P := _ ∧ _)) by (intros [? ?]; done)].
  cbn [mbind option_bind]. split_and!.
  - by apply (json_ok genesis_prices s1).
  - by apply (json_ok 1%Z s2).
  - apply (json_ok genesis_resolvers s3); [|done]. unfold genesis_resolvers. rewrite map_to_list_singleton. by apply Forall_singleton.
  - rewrite (json_ok genesis_permissions s4); [|unfold genesis_permissions; rewrite map_to_list_singleton; cbn; rewrite map_to_list_singleton; by repeat (apply Forall_cons; split; [done|])|done].
    unfold genesis_permissions, flag. rewrite lookup_singleton_eq. cbn. by rewrite lookup_singleton_eq.
  - intros a k Hak. rewrite !not_elem_of_cons in Hak. destruct Hak as (A1 & A2 & A3 & A4 & A5 & _).
    rewrite !state_set, !decide_False; [done|intros [-> ->]; done..].
Qed.
End genesis.
