(* ===== verification/GovernanceInstances.v ===== *)
(** * Concrete instances of the classes of governance

Encodings, events, addresses and an evaluation of the simple majority. *)
From Stdlib Require Import Ascii.
From S2P Require Import Prelude Storage Account StateLedger Contract TransactionManager Role Governance Strategy Registry Nodes RoleManager.
From S2P Require Import CrossChainSample.

(** ** Encodings: a record is the list of the encodings of its fields *)

Global Instance OrderedMap_eq_dec : EqDecision OrderedMap.
Proof. solve_decision. Defined.
Global Program Instance OrderedMap_countable : Countable OrderedMap := inj_countable' om_Keys MkOrderedMap _.
Next Obligation. by intros []. Qed.

Global Instance Role_eq_dec : EqDecision Role.
Proof. solve_decision. Defined.
Definition role_fields (r : Role) : list positive :=
  [encode (rl_ID r); encode (rl_RoleType r); encode (rl_Weight r); encode (rl_NodeAccount r); encode (rl_AppchainID r);
   encode (rl_Status r)].
Definition role_of_fields (l : list positive) : option Role :=
  match l with
  | [a; b; c; d; e; f] =>
      a ← decode a; b ← decode b; c ← decode c; d ← decode d; e ← decode e; f ← decode f; Some (MkRole a b c d e f)
  | _ => None
  end.
Lemma role_of_fields_ok r : role_of_fields (role_fields r) = Some r.
Proof. destruct r. cbn. by rewrite !decode_encode. Qed.
Global Instance Role_countable : Countable Role := inj_countable role_fields role_of_fields role_of_fields_ok.

Global Instance Ballot_eq_dec : EqDecision Ballot.
Proof. solve_decision. Defined.
Definition ballot_fields (b : Ballot) : list positive :=
  [encode (bl_VoterAddr b); encode (bl_Approve b); encode (bl_Num b); encode (bl_Reason b); encode (bl_VoteTime b)].
Definition ballot_of_fields (l : list positive) : option Ballot :=
  match l with
  | [a; b; c; d; e] => a ← decode a; b ← decode b; c ← decode c; d ← decode d; e ← decode e; Some (MkBallot a b c d e)
  | _ => None
  end.
Lemma ballot_of_fields_ok b : ballot_of_fields (ballot_fields b) = Some b.
Proof. destruct b. cbn. by rewrite !decode_encode. Qed.
Global Instance Ballot_countable : Countable Ballot := inj_countable ballot_fields ballot_of_fields ballot_of_fields_ok.

Global Instance Proposal_eq_dec : EqDecision Proposal.
Proof. solve_decision. Defined.
Definition proposal_fields (p : Proposal) : list positive :=
  [encode (p_Id p); encode (p_Typ p); encode (p_Status p); encode (p_ObjId p); encode (p_ObjLastStatus p);
   encode (p_BallotMap p); encode (p_ApproveNum p); encode (p_AgainstNum p); encode (p_ElectorateList p);
   encode (p_InitialElectorateNum p); encode (p_AvailableElectorateNum p); encode (p_ThresholdApproveNum p);
   encode (p_EventType p); encode (p_EndReason p); encode (p_LockProposalId p); encode (p_IsSpecial p);
   encode (p_IsSuperAdminVoted p); encode (p_SubmitReason p); encode (p_WithdrawReason p); encode (p_StrategyType p);
   encode (p_StrategyExpression p); encode (p_CreateTime p); encode (p_Extra p)].
Definition proposal_of_fields (l : list positive) : option Proposal :=
  match l with
  | [a; b; c; d; e; f; g; h; i; j; k; m; n; o; p; q; r; s; t; u; v; x; y] =>
      a ← decode a; b ← decode b; c ← decode c; d ← decode d; e ← decode e; f ← decode f; g ← decode g; h ← decode h;
      i ← decode i; j ← decode j; k ← decode k; m ← decode m; n ← decode n; o ← decode o; p ← decode p; q ← decode q;
      r ← decode r; s ← decode s; t ← decode t; u ← decode u; v ← decode v; x ← decode x; y ← decode y;
      Some (MkProposal a b c d e f g h i j k m n o p q r s t u v x y)
  | _ => None
  end.
Lemma proposal_of_fields_ok p : proposal_of_fields (proposal_fields p) = Some p.
Proof. destruct p. cbn. by rewrite !decode_encode. Qed.
Global Instance Proposal_countable : Countable Proposal :=
  inj_countable proposal_fields proposal_of_fields proposal_of_fields_ok.

Global Instance Strategy_eq_dec : EqDecision ProposalStrategy.
Proof. solve_decision. Defined.
Global Program Instance Strategy_countable : Countable ProposalStrategy :=
  inj_countable' (λ s, (ps_Module s, ps_Typ s, ps_Extra s, ps_Status s)) (λ '(a, b, c, d), MkStrategy a b c d) _.
Next Obligation. by intros []. Qed.

Global Instance GovernanceResult_eq_dec : EqDecision GovernanceResult.
Proof. solve_decision. Defined.
Global Program Instance GovernanceResult_countable : Countable GovernanceResult :=
  inj_countable' (λ r, (gr_ProposalID r, gr_Extra r)) (λ '(a, b), MkGovernanceResult a b) _.
Next Obligation. by intros []. Qed.

Global Instance UpdateInfo_eq_dec : EqDecision UpdateInfo.
Proof. solve_decision. Defined.
Global Program Instance UpdateInfo_countable : Countable UpdateInfo :=
  inj_countable' (λ i, (ui_OldInfo i, ui_NewInfo i, ui_IsEdit i)) (λ '(a, b, c), MkUpdateInfo a b c) _.
Next Obligation. by intros []. Qed.
Global Instance UpdateStrategyInfo_eq_dec : EqDecision UpdateStrategyInfo.
Proof. solve_decision. Defined.
Global Program Instance UpdateStrategyInfo_countable : Countable UpdateStrategyInfo :=
  inj_countable' (λ i, (us_Typ i, us_Extra i)) (λ '(a, b), MkUpdateStrategyInfo a b) _.
Next Obligation. by intros []. Qed.

(** ** Libraries *)

Definition gov_lib : GovernanceLib.
Proof.
  refine {| EventRegister := "register"; EventUpdate := "update"; EventFreeze := "freeze"; EventActivate := "activate";
            EventBind := "bind"; EventUnbind := "unbind"; EventLogout := "logout"; EventPause := "pause";
            EventUnpause := "unpause"; EventCLear := "clear"; EventApprove := "approve"; EventReject := "reject";
            GovernanceUnavailable := "unavailable"; GovernanceRegisting := "registering";
            GovernanceAvailable := "available"; GovernanceUpdating := "updating"; GovernanceFreezing := "freezing";
            GovernanceActivating := "activating"; GovernanceFrozen := "frozen"; GovernanceLogouting := "logouting";
            GovernanceForbidden := "forbidden"; GovernanceBinding := "binding" |}.
  - apply (bool_decide_unpack _). vm_compute. exact I.
  - apply (bool_decide_unpack _). vm_compute. exact I.
  - apply (bool_decide_unpack _). vm_compute. exact I.
  - reflexivity.
  - reflexivity.
Defined.

Definition gov_json : GovJsonLib :=
  {| ids_codec := json_by_encode OrderedMap om_Keys;
     addrs_codec := json_by_encode (list string) (λ l, l);
     role_codec := json_by_encode Role Role_text;
     roles_codec := json_by_encode (list Role) (λ l, l ≫= Role_text) |}.

Definition proposal_json : ProposalJsonLib :=
  {| proposal_codec := json_by_encode Proposal Proposal_text;
     proposals_codec := json_by_encode (list Proposal) (λ l, l ≫= Proposal_text);
     strategy_codec := json_by_encode ProposalStrategy Strategy_text;
     ballot_encoding := encoding_by_encode Ballot;
     ballots_encoding := encoding_by_encode (gmap string Ballot);
     result_codec := json_by_encode GovernanceResult (λ r, [gr_ProposalID r]);
     gov_audit_codec := json_by_encode AuditRelatedObjInfo
       (λ a, au_RelatedChainIDList a ++ au_RelatedNodeIDList a ++ [au_AuditObj a]);
     Event_AUDIT_PROPOSAL := 2 |}.

Definition strategy_json : StrategyJsonLib :=
  {| strategies_codec := json_by_encode (list ProposalStrategy) (λ l, l ≫= Strategy_text);
     update_codec := json_by_encode (gmap string UpdateStrategyInfo)
       (λ m, map_to_list m ≫= λ '(k, i), k :: UpdateStrategyInfo_text i) |}.

(** The simple majority; other expressions are errors. *)
Definition majority_eval : EvalLib :=
  {| Evaluate e a r t := if decide (e = DefaultSimpleMajorityExpression) then Some (Some (bool_decide (t < 2 * a)%Z)) else None |}.

Definition gov_addrs : @GovAddrLib constants.
Proof.
  refine {| GovernanceContractAddr := "gov"; RoleContractAddr := "role"; RuleManagerContractAddr := "rule";
            NodeManagerContractAddr := "node"; DappMgrContractAddr := "dapp"; ProposalStrategyMgrContractAddr := "strategy";
            ServiceRegistryContractAddr := "names" |}.
  - apply (bool_decide_unpack _). vm_compute. exact I.
  - done.
  - vm_compute. exact I.
  - apply (bool_decide_unpack _). vm_compute. exact I.
Defined.

Definition role_lib : RoleLib :=
  {| HexDecodeString _ := true; NewAddressByStr s := s; text_codec := json_by_encode string (λ s, [s]); Event_AUDIT_ROLE := 3 |}.
