(* ===== verification/RegistryInstances.v ===== *)
(** * Concrete instances of the packages of the registries

Objects that are stored in the state of their contract and move through one state machine, encodings, and
the constants; the theorems about the registries are applied to them. *)
From Stdlib Require Import Ascii SpecFloat.
From S2P Require Import Prelude Storage Account StateLedger Contract TransactionManager Interchain Role Governance Strategy RoleManager.
From S2P Require Import Registry Nodes Dapp Appchain Service Rule AppchainManager RuleManager NodeManager.
From S2P Require Import CrossChainSample GovernanceInstances.

(** ** Encodings: a record is the list of the encodings of its fields *)

Definition f64_parts (x : spec_float) : bool + bool + () + (bool * positive * Z) :=
  match x with
  | S754_zero s => inl (inl (inl s))
  | S754_infinity s => inl (inl (inr s))
  | S754_nan => inl (inr tt)
  | S754_finite s m e => inr (s, m, e)
  end.
Definition f64_of_parts (p : bool + bool + () + (bool * positive * Z)) : spec_float :=
  match p with
  | inl (inl (inl s)) => S754_zero s
  | inl (inl (inr s)) => S754_infinity s
  | inl (inr _) => S754_nan
  | inr (s, m, e) => S754_finite s m e
  end.
Lemma f64_of_parts_ok x : f64_of_parts (f64_parts x) = x.
Proof. by destruct x. Qed.
Global Instance spec_float_countable : Countable spec_float := inj_countable' f64_parts f64_of_parts f64_of_parts_ok.

Global Instance UpdateMapInfo_eq_dec : EqDecision UpdateMapInfo.
Proof. solve_decision. Defined.
Definition UpdateMapInfo_fields (r : UpdateMapInfo) : list positive :=
  [encode (um_OldInfo r); encode (um_NewInfo r); encode (um_IsEdit r)].
Definition UpdateMapInfo_of_fields (l : list positive) : option UpdateMapInfo :=
  match l with
  | [x0; x1; x2] =>
      x0 ← decode x0; x1 ← decode x1; x2 ← decode x2; Some (MkUpdateMapInfo x0 x1 x2)
  | _ => None
  end.
Lemma UpdateMapInfo_of_fields_ok r : UpdateMapInfo_of_fields (UpdateMapInfo_fields r) = Some r.
Proof. destruct r. cbn. by rewrite !decode_encode. Qed.
Global Instance UpdateMapInfo_countable : Countable UpdateMapInfo := inj_countable UpdateMapInfo_fields UpdateMapInfo_of_fields UpdateMapInfo_of_fields_ok.

Global Instance Node_eq_dec : EqDecision Node.
Proof. solve_decision. Defined.
Definition Node_fields (r : Node) : list positive :=
  [encode (nd_Account r); encode (nd_NodeType r); encode (nd_Pid r); encode (nd_VPNodeId r); encode (nd_Primary
   r); encode (nd_Name r); encode (nd_Permissions r); encode (nd_AuditAdminAddr r); encode (nd_Status r)].
Definition Node_of_fields (l : list positive) : option Node :=
  match l with
  | [x0; x1; x2; x3; x4; x5; x6; x7; x8] =>
      x0 ← decode x0; x1 ← decode x1; x2 ← decode x2; x3 ← decode x3; x4 ← decode x4; x5 ← decode x5; x6 ←
       decode x6; x7 ← decode x7; x8 ← decode x8; Some (MkNode x0 x1 x2 x3 x4 x5 x6 x7 x8)
  | _ => None
  end.
Lemma Node_of_fields_ok r : Node_of_fields (Node_fields r) = Some r.
Proof. destruct r. cbn. by rewrite !decode_encode. Qed.
Global Instance Node_countable : Countable Node := inj_countable Node_fields Node_of_fields Node_of_fields_ok.

Global Instance UpdateNodeInfo_eq_dec : EqDecision UpdateNodeInfo.
Proof. solve_decision. Defined.
Definition UpdateNodeInfo_fields (r : UpdateNodeInfo) : list positive :=
  [encode (un_NodeName r); encode (un_Permission r)].
Definition UpdateNodeInfo_of_fields (l : list positive) : option UpdateNodeInfo :=
  match l with
  | [x0; x1] =>
      x0 ← decode x0; x1 ← decode x1; Some (MkUpdateNode x0 x1)
  | _ => None
  end.
Lemma UpdateNodeInfo_of_fields_ok r : UpdateNodeInfo_of_fields (UpdateNodeInfo_fields r) = Some r.
Proof. destruct r. cbn. by rewrite !decode_encode. Qed.
Global Instance UpdateNodeInfo_countable : Countable UpdateNodeInfo := inj_countable UpdateNodeInfo_fields UpdateNodeInfo_of_fields UpdateNodeInfo_of_fields_ok.

Global Instance NodeEvent_eq_dec : EqDecision NodeEvent.
Proof. solve_decision. Defined.
Definition NodeEvent_fields (r : NodeEvent) : list positive :=
  [encode (ne_NodeId r); encode (ne_NodeEventType r)].
Definition NodeEvent_of_fields (l : list positive) : option NodeEvent :=
  match l with
  | [x0; x1] =>
      x0 ← decode x0; x1 ← decode x1; Some (MkNodeEvent x0 x1)
  | _ => None
  end.
Lemma NodeEvent_of_fields_ok r : NodeEvent_of_fields (NodeEvent_fields r) = Some r.
Proof. destruct r. cbn. by rewrite !decode_encode. Qed.
Global Instance NodeEvent_countable : Countable NodeEvent := inj_countable NodeEvent_fields NodeEvent_of_fields NodeEvent_of_fields_ok.

Global Instance EvaluationRecord_eq_dec : EqDecision EvaluationRecord.
Proof. solve_decision. Defined.
Definition EvaluationRecord_fields (r : EvaluationRecord) : list positive :=
  [encode (ev_Addr r); encode (ev_Score r); encode (ev_Desc r); encode (ev_CreateTime r)].
Definition EvaluationRecord_of_fields (l : list positive) : option EvaluationRecord :=
  match l with
  | [x0; x1; x2; x3] =>
      x0 ← decode x0; x1 ← decode x1; x2 ← decode x2; x3 ← decode x3; Some (MkEvaluation x0 x1 x2 x3)
  | _ => None
  end.
Lemma EvaluationRecord_of_fields_ok r : EvaluationRecord_of_fields (EvaluationRecord_fields r) = Some r.
Proof. destruct r. cbn. by rewrite !decode_encode. Qed.
Global Instance EvaluationRecord_countable : Countable EvaluationRecord := inj_countable EvaluationRecord_fields EvaluationRecord_of_fields EvaluationRecord_of_fields_ok.

Global Instance TransferRecord_eq_dec : EqDecision TransferRecord.
Proof. solve_decision. Defined.
Definition TransferRecord_fields (r : TransferRecord) : list positive :=
  [encode (tr_From r); encode (tr_To r); encode (tr_Reason r); encode (tr_Confirm r); encode (tr_CreateTime r)].
Definition TransferRecord_of_fields (l : list positive) : option TransferRecord :=
  match l with
  | [x0; x1; x2; x3; x4] =>
      x0 ← decode x0; x1 ← decode x1; x2 ← decode x2; x3 ← decode x3; x4 ← decode x4; Some (MkTransfer x0 x1
       x2 x3 x4)
  | _ => None
  end.
Lemma TransferRecord_of_fields_ok r : TransferRecord_of_fields (TransferRecord_fields r) = Some r.
Proof. destruct r. cbn. by rewrite !decode_encode. Qed.
Global Instance TransferRecord_countable : Countable TransferRecord := inj_countable TransferRecord_fields TransferRecord_of_fields TransferRecord_of_fields_ok.

Global Instance Dapp_eq_dec : EqDecision Dapp.
Proof. solve_decision. Defined.
Definition Dapp_fields (r : Dapp) : list positive :=
  [encode (da_DappID r); encode (da_Name r); encode (da_Type r); encode (da_Desc r); encode (da_Url r); encode
   (da_ContractAddr r); encode (da_Permission r); encode (da_OwnerAddr r); encode (da_CreateTime r); encode
   (da_Score r); encode (da_EvaluationRecords r); encode (da_TransferRecords r); encode (da_Status r)].
Definition Dapp_of_fields (l : list positive) : option Dapp :=
  match l with
  | [x0; x1; x2; x3; x4; x5; x6; x7; x8; x9; x10; x11; x12] =>
      x0 ← decode x0; x1 ← decode x1; x2 ← decode x2; x3 ← decode x3; x4 ← decode x4; x5 ← decode x5; x6 ←
       decode x6; x7 ← decode x7; x8 ← decode x8; x9 ← decode x9; x10 ← decode x10; x11 ← decode x11; x12 ←
       decode x12; Some (MkDapp x0 x1 x2 x3 x4 x5 x6 x7 x8 x9 x10 x11 x12)
  | _ => None
  end.
Lemma Dapp_of_fields_ok r : Dapp_of_fields (Dapp_fields r) = Some r.
Proof. destruct r. cbn. by rewrite !decode_encode. Qed.
Global Instance Dapp_countable : Countable Dapp := inj_countable Dapp_fields Dapp_of_fields Dapp_of_fields_ok.

Global Instance UpdateDappInfo_eq_dec : EqDecision UpdateDappInfo.
Proof. solve_decision. Defined.
Definition UpdateDappInfo_fields (r : UpdateDappInfo) : list positive :=
  [encode (ud_DappName r); encode (ud_Desc r); encode (ud_Url r); encode (ud_ContractAddr r); encode
   (ud_Permission r)].
Definition UpdateDappInfo_of_fields (l : list positive) : option UpdateDappInfo :=
  match l with
  | [x0; x1; x2; x3; x4] =>
      x0 ← decode x0; x1 ← decode x1; x2 ← decode x2; x3 ← decode x3; x4 ← decode x4; Some (MkUpdateDapp x0 x1
       x2 x3 x4)
  | _ => None
  end.
Lemma UpdateDappInfo_of_fields_ok r : UpdateDappInfo_of_fields (UpdateDappInfo_fields r) = Some r.
Proof. destruct r. cbn. by rewrite !decode_encode. Qed.
Global Instance UpdateDappInfo_countable : Countable UpdateDappInfo := inj_countable UpdateDappInfo_fields UpdateDappInfo_of_fields UpdateDappInfo_of_fields_ok.

Global Instance Appchain_eq_dec : EqDecision Appchain.
Proof. solve_decision. Defined.
Definition Appchain_fields (r : Appchain) : list positive :=
  [encode (ac_ID r); encode (ac_ChainName r); encode (ac_ChainType r); encode (ac_TrustRoot r); encode (ac_Broker
   r); encode (ac_Desc r); encode (ac_Version r); encode (ac_Status r); encode (ac_DID r); encode (ac_PubKey r)].
Definition Appchain_of_fields (l : list positive) : option Appchain :=
  match l with
  | [x0; x1; x2; x3; x4; x5; x6; x7; x8; x9] =>
      x0 ← decode x0; x1 ← decode x1; x2 ← decode x2; x3 ← decode x3; x4 ← decode x4; x5 ← decode x5; x6 ←
       decode x6; x7 ← decode x7; x8 ← decode x8; x9 ← decode x9; Some (MkAppchain x0 x1 x2 x3 x4 x5 x6 x7 x8
       x9)
  | _ => None
  end.
Lemma Appchain_of_fields_ok r : Appchain_of_fields (Appchain_fields r) = Some r.
Proof. destruct r. cbn. by rewrite !decode_encode. Qed.
Global Instance Appchain_countable : Countable Appchain := inj_countable Appchain_fields Appchain_of_fields Appchain_of_fields_ok.

Global Instance Rule_eq_dec : EqDecision Rule.
Proof. solve_decision. Defined.
Definition Rule_fields (r : Rule) : list positive :=
  [encode (ru_Address r); encode (ru_RuleUrl r); encode (ru_ChainID r); encode (ru_Master r); encode (ru_BuiltIn
   r); encode (ru_CreateTime r); encode (ru_Status r)].
Definition Rule_of_fields (l : list positive) : option Rule :=
  match l with
  | [x0; x1; x2; x3; x4; x5; x6] =>
      x0 ← decode x0; x1 ← decode x1; x2 ← decode x2; x3 ← decode x3; x4 ← decode x4; x5 ← decode x5; x6 ←
       decode x6; Some (MkRule x0 x1 x2 x3 x4 x5 x6)
  | _ => None
  end.
Lemma Rule_of_fields_ok r : Rule_of_fields (Rule_fields r) = Some r.
Proof. destruct r. cbn. by rewrite !decode_encode. Qed.
Global Instance Rule_countable : Countable Rule := inj_countable Rule_fields Rule_of_fields Rule_of_fields_ok.

Global Instance FabricBroker_eq_dec : EqDecision FabricBroker.
Proof. solve_decision. Defined.
Definition FabricBroker_fields (r : FabricBroker) : list positive :=
  [encode (fb_ChannelID r); encode (fb_ChaincodeID r); encode (fb_BrokerVersion r)].
Definition FabricBroker_of_fields (l : list positive) : option FabricBroker :=
  match l with
  | [x0; x1; x2] =>
      x0 ← decode x0; x1 ← decode x1; x2 ← decode x2; Some (MkFabricBroker x0 x1 x2)
  | _ => None
  end.
Lemma FabricBroker_of_fields_ok r : FabricBroker_of_fields (FabricBroker_fields r) = Some r.
Proof. destruct r. cbn. by rewrite !decode_encode. Qed.
Global Instance FabricBroker_countable : Countable FabricBroker := inj_countable FabricBroker_fields FabricBroker_of_fields FabricBroker_of_fields_ok.

Global Instance InvokeRecord_eq_dec : EqDecision InvokeRecord.
Proof. solve_decision. Defined.
Definition InvokeRecord_fields (r : InvokeRecord) : list positive :=
  [encode (iv_Addr r); encode (iv_Succeed r); encode (iv_Failure r)].
Definition InvokeRecord_of_fields (l : list positive) : option InvokeRecord :=
  match l with
  | [x0; x1; x2] =>
      x0 ← decode x0; x1 ← decode x1; x2 ← decode x2; Some (MkInvoke x0 x1 x2)
  | _ => None
  end.
Lemma InvokeRecord_of_fields_ok r : InvokeRecord_of_fields (InvokeRecord_fields r) = Some r.
Proof. destruct r. cbn. by rewrite !decode_encode. Qed.
Global Instance InvokeRecord_countable : Countable InvokeRecord := inj_countable InvokeRecord_fields InvokeRecord_of_fields InvokeRecord_of_fields_ok.

Global Instance ServiceInfo_eq_dec : EqDecision ServiceInfo.
Proof. solve_decision. Defined.
Definition ServiceInfo_fields (r : ServiceInfo) : list positive :=
  [encode (si_ChainID r); encode (si_ServiceID r); encode (si_Name r); encode (si_Type r); encode (si_Intro r);
   encode (si_Ordered r); encode (si_Permission r); encode (si_Details r); encode (si_CreateTime r); encode
   (si_Score r); encode (si_EvaluationRecords r); encode (si_InvokeCount r); encode (si_InvokeSuccessRate r);
   encode (si_InvokeRecords r); encode (si_Status r)].
Definition ServiceInfo_of_fields (l : list positive) : option ServiceInfo :=
  match l with
  | [x0; x1; x2; x3; x4; x5; x6; x7; x8; x9; x10; x11; x12; x13; x14] =>
      x0 ← decode x0; x1 ← decode x1; x2 ← decode x2; x3 ← decode x3; x4 ← decode x4; x5 ← decode x5; x6 ←
       decode x6; x7 ← decode x7; x8 ← decode x8; x9 ← decode x9; x10 ← decode x10; x11 ← decode x11; x12 ←
       decode x12; x13 ← decode x13; x14 ← decode x14; Some (MkServiceInfo x0 x1 x2 x3 x4 x5 x6 x7 x8 x9 x10
       x11 x12 x13 x14)
  | _ => None
  end.
Lemma ServiceInfo_of_fields_ok r : ServiceInfo_of_fields (ServiceInfo_fields r) = Some r.
Proof. destruct r. cbn. by rewrite !decode_encode. Qed.
Global Instance ServiceInfo_countable : Countable ServiceInfo := inj_countable ServiceInfo_fields ServiceInfo_of_fields ServiceInfo_of_fields_ok.

Global Instance UpdateServiceInfo_eq_dec : EqDecision UpdateServiceInfo.
Proof. solve_decision. Defined.
Definition UpdateServiceInfo_fields (r : UpdateServiceInfo) : list positive :=
  [encode (us_ServiceName r); encode (us_Intro r); encode (us_Details r); encode (us_Permission r)].
Definition UpdateServiceInfo_of_fields (l : list positive) : option UpdateServiceInfo :=
  match l with
  | [x0; x1; x2; x3] =>
      x0 ← decode x0; x1 ← decode x1; x2 ← decode x2; x3 ← decode x3; Some (MkUpdateService x0 x1 x2 x3)
  | _ => None
  end.
Lemma UpdateServiceInfo_of_fields_ok r : UpdateServiceInfo_of_fields (UpdateServiceInfo_fields r) = Some r.
Proof. destruct r. cbn. by rewrite !decode_encode. Qed.
Global Instance UpdateServiceInfo_countable : Countable UpdateServiceInfo := inj_countable UpdateServiceInfo_fields UpdateServiceInfo_of_fields UpdateServiceInfo_of_fields_ok.

Global Instance RegisterAppchainInfo_eq_dec : EqDecision RegisterAppchainInfo.
Proof. solve_decision. Defined.
Definition RegisterAppchainInfo_fields (r : RegisterAppchainInfo) : list positive :=
  [encode (ra_ChainInfo r); encode (ra_MasterRule r); encode (ra_AdminAddrs r)].
Definition RegisterAppchainInfo_of_fields (l : list positive) : option RegisterAppchainInfo :=
  match l with
  | [x0; x1; x2] =>
      x0 ← decode x0; x1 ← decode x1; x2 ← decode x2; Some (MkRegisterAppchain x0 x1 x2)
  | _ => None
  end.
Lemma RegisterAppchainInfo_of_fields_ok r : RegisterAppchainInfo_of_fields (RegisterAppchainInfo_fields r) = Some r.
Proof. destruct r. cbn. by rewrite !decode_encode. Qed.
Global Instance RegisterAppchainInfo_countable : Countable RegisterAppchainInfo := inj_countable RegisterAppchainInfo_fields RegisterAppchainInfo_of_fields RegisterAppchainInfo_of_fields_ok.

Global Instance UpdateBytesInfo_eq_dec : EqDecision UpdateBytesInfo.
Proof. solve_decision. Defined.
Definition UpdateBytesInfo_fields (r : UpdateBytesInfo) : list positive :=
  [encode (ub_OldInfo r); encode (ub_NewInfo r); encode (ub_IsEdit r)].
Definition UpdateBytesInfo_of_fields (l : list positive) : option UpdateBytesInfo :=
  match l with
  | [x0; x1; x2] =>
      x0 ← decode x0; x1 ← decode x1; x2 ← decode x2; Some (MkUpdateBytes x0 x1 x2)
  | _ => None
  end.
Lemma UpdateBytesInfo_of_fields_ok r : UpdateBytesInfo_of_fields (UpdateBytesInfo_fields r) = Some r.
Proof. destruct r. cbn. by rewrite !decode_encode. Qed.
Global Instance UpdateBytesInfo_countable : Countable UpdateBytesInfo := inj_countable UpdateBytesInfo_fields UpdateBytesInfo_of_fields UpdateBytesInfo_of_fields_ok.

Global Instance UpdateAppchainInfo_eq_dec : EqDecision UpdateAppchainInfo.
Proof. solve_decision. Defined.
Definition UpdateAppchainInfo_fields (r : UpdateAppchainInfo) : list positive :=
  [encode (ua_Name r); encode (ua_Desc r); encode (ua_TrustRoot r); encode (ua_AdminAddrs r)].
Definition UpdateAppchainInfo_of_fields (l : list positive) : option UpdateAppchainInfo :=
  match l with
  | [x0; x1; x2; x3] =>
      x0 ← decode x0; x1 ← decode x1; x2 ← decode x2; x3 ← decode x3; Some (MkUpdateAppchain x0 x1 x2 x3)
  | _ => None
  end.
Lemma UpdateAppchainInfo_of_fields_ok r : UpdateAppchainInfo_of_fields (UpdateAppchainInfo_fields r) = Some r.
Proof. destruct r. cbn. by rewrite !decode_encode. Qed.
Global Instance UpdateAppchainInfo_countable : Countable UpdateAppchainInfo := inj_countable UpdateAppchainInfo_fields UpdateAppchainInfo_of_fields UpdateAppchainInfo_of_fields_ok.

Global Instance UpdateMasterRuleInfo_eq_dec : EqDecision UpdateMasterRuleInfo.
Proof. solve_decision. Defined.
Definition UpdateMasterRuleInfo_fields (r : UpdateMasterRuleInfo) : list positive :=
  [encode (um_OldRule r); encode (um_NewRule r); encode (um_AppchainInfo r)].
Definition UpdateMasterRuleInfo_of_fields (l : list positive) : option UpdateMasterRuleInfo :=
  match l with
  | [x0; x1; x2] =>
      x0 ← decode x0; x1 ← decode x1; x2 ← decode x2; Some (MkUpdateMaster x0 x1 x2)
  | _ => None
  end.
Lemma UpdateMasterRuleInfo_of_fields_ok r : UpdateMasterRuleInfo_of_fields (UpdateMasterRuleInfo_fields r) = Some r.
Proof. destruct r. cbn. by rewrite !decode_encode. Qed.
Global Instance UpdateMasterRuleInfo_countable : Countable UpdateMasterRuleInfo := inj_countable UpdateMasterRuleInfo_fields UpdateMasterRuleInfo_of_fields UpdateMasterRuleInfo_of_fields_ok.

(** ** Packages *)

Section packages.
Local Existing Instance constants.
Local Existing Instance gov_lib.
Local Existing Instance gov_addrs.
Local Existing Instance gov_json.
Local Existing Instance role_lib.

(** One state machine for all of them: an event opens a proposal and its result ends it. *)
Definition next_status (status trigger last : string) : option string :=
  if decide (trigger = EventRegister) then Some GovernanceRegisting
  else if decide (trigger = EventUpdate) then Some GovernanceUpdating
  else if decide (trigger = EventFreeze) then Some GovernanceFreezing
  else if decide (trigger = EventActivate) then Some GovernanceActivating
  else if decide (trigger = EventLogout) then Some GovernanceLogouting
  else if decide (trigger = EventBind) then Some GovernanceBinding
  else if decide (trigger = EventUnbind) then Some GovernanceAvailable
  else if decide (trigger = EventPause) then Some GovernanceFrozen
  else if decide (trigger = EventUnpause) then Some last
  else if decide (trigger = EventCLear) then Some GovernanceForbidden
  else if decide (trigger = EventReject) then Some last
  else if decide (trigger = EventApprove)
  then Some (if decide (status = GovernanceFreezing) then GovernanceFrozen
             else if decide (status = GovernanceLogouting) then GovernanceForbidden else GovernanceAvailable)
  else None.

Definition query_lib : QueryLib.
Proof. refine {| stub_Query _ _ := mret [] |}. by intros. Defined.

(** Objects under a key of their id, and a list of all of them. *)
Definition stored_registry {O} `{Encoding O, Encoding (list O)} (key : string → string) (status : O → string) (with_status : O → string → O) :
    RegistryPkg O.
Proof.
  refine {| rg_GovernancePre ctx id ev _ :=
              o ← GetObject (A := O) ctx (key id);
              mret match o with
                   | Some o => inl (Some o)
                   | None => if decide (ev = EventRegister) then inl None else inr (MkBxhError "Nonexistent" [id])
                   end;
            rg_ChangeStatus ctx id trigger last _ :=
              o ← GetObject (A := O) ctx (key id);
              match o with
              | None => mret false
              | Some o => match next_status (status o) trigger last with
                          | None => mret false
                          | Some s => _ ← SetObject ctx (key id) (with_status o s); mret true
                          end
              end;
            rg_QueryById ctx id _ := GetObject (A := O) ctx (key id);
            rg_All ctx _ := l ← GetObject (A := list O) ctx "all"; mret (Some (default [] l));
            rg_CountAvailable ctx _ :=
              l ← GetObject (A := list O) ctx "all";
              mret (true, Some (fmt_d (Z.of_nat (length (filter (λ o, status o = GovernanceAvailable) (default [] l))))));
            rg_CountAll ctx _ :=
              l ← GetObject (A := list O) ctx "all"; mret (true, Some (fmt_d (Z.of_nat (length (default [] l))))) |}; intros; first [by solve_reads|by solve_writes].
Defined.

Definition with_ac_Status (c : Appchain) v :=
  MkAppchain (ac_ID c) (ac_ChainName c) (ac_ChainType c) (ac_TrustRoot c) (ac_Broker c) (ac_Desc c) (ac_Version c) v
    (ac_DID c) (ac_PubKey c).
Definition with_ru_Status (r : Rule) v :=
  MkRule (ru_Address r) (ru_RuleUrl r) (ru_ChainID r) (ru_Master r) (ru_BuiltIn r) (ru_CreateTime r) v.
Definition with_si_Status (s : ServiceInfo) v :=
  MkServiceInfo (si_ChainID s) (si_ServiceID s) (si_Name s) (si_Type s) (si_Intro s) (si_Ordered s) (si_Permission s)
    (si_Details s) (si_CreateTime s) (si_Score s) (si_EvaluationRecords s) (si_InvokeCount s) (si_InvokeSuccessRate s)
    (si_InvokeRecords s) v.
Definition with_nd_admin (n : Node) v :=
  MkNode (nd_Account n) (nd_NodeType n) (nd_Pid n) (nd_VPNodeId n) (nd_Primary n) (nd_Name n) (nd_Permissions n) v (nd_Status n).

Local Instance node_enc : Encoding Node := encoding_by_encode Node.
Local Instance service_enc : Encoding ServiceInfo := encoding_by_encode ServiceInfo.
Local Instance nodes_enc : Encoding (list Node) := encoding_by_encode (list Node).
Local Instance chains_enc : Encoding (list Appchain) := encoding_by_encode (list Appchain).
Local Instance rules_enc : Encoding (list Rule) := encoding_by_encode (list Rule).
Local Instance services_enc : Encoding (list ServiceInfo) := encoding_by_encode (list ServiceInfo).
Local Instance appchain_json : JsonCodec Appchain Appchain_text := json_by_encode Appchain Appchain_text.
Local Instance rule_json : JsonCodec Rule Rule_text := json_by_encode Rule Rule_text.

(** A name, a node id or a number of a validator is stored with the id that has it. *)
Definition node_lib : NodePkg.
Proof.
  refine {| node_pkg := stored_registry (λ id, "node-" +:+ id) nd_Status with_nd_Status;
            nm_Register ctx n :=
              _ ← SetObject ctx ("node-" +:+ nd_Account n) n;
              _ ← Set_ ctx ("node-name-" +:+ nd_Name n) (Some (nd_Account n));
              _ ← Set_ ctx ("node-pid-" +:+ nd_Pid n) (Some (nd_Account n));
              Set_ ctx ("node-vpid-" +:+ fmt_d (nd_VPNodeId n)) (Some (nd_Account n));
            nm_RegisterPre ctx n := SetObject ctx ("node-" +:+ nd_Account n) n;
            nm_Update ctx n := _ ← SetObject ctx ("node-" +:+ nd_Account n) n; mret true;
            nm_Bind ctx id admin :=
              o ← GetObject (A := Node) ctx ("node-" +:+ id);
              match o with
              | None => mret false
              | Some n => _ ← SetObject ctx ("node-" +:+ id) (with_nd_admin n admin); mret true
              end;
            nm_GetAccountByName ctx n := Get ctx ("node-name-" +:+ n);
            nm_GetAccountByPid ctx n := Get ctx ("node-pid-" +:+ n);
            nm_GetAccountByVpId ctx n := Get ctx ("node-vpid-" +:+ n);
            nd_IsAvailable n := bool_decide (nd_Status n = GovernanceAvailable);
            NodeKey id := "node-" +:+ id;
            NodeOccupyNameKey n := "occupy-node-name-" +:+ n;
            NodeOccupyPidKey n := "occupy-node-pid-" +:+ n;
            VPNode := "vpNode"; NVPNode := "nvpNode";
            node_encoding := encoding_by_encode Node;
            nodes_encoding := encoding_by_encode (list Node);
            node_event_encoding := encoding_by_encode NodeEvent;
            update_node_codec := json_by_encode UpdateNodeInfo UpdateNode_text;
            Event_AUDIT_NODE := 4; Event_NODEMGR := 5 |};
    first [done|intros; solve_writes].
Defined.

Definition appchain_lib : AppchainPkg.
Proof.
  refine {| appchain_pkg := stored_registry (λ id, "appchain-" +:+ id) ac_Status with_ac_Status;
            am_Register ctx c :=
              _ ← SetObject ctx ("appchain-" +:+ ac_ID c) c; Set_ ctx ("chain-name-" +:+ ac_ChainName c) (Some (ac_ID c));
            am_Update ctx c := _ ← SetObject ctx ("appchain-" +:+ ac_ID c) c; mret true;
            am_GetChainIdByName ctx n := Get ctx ("chain-name-" +:+ n);
            am_IsAvailable c := bool_decide (ac_Status c = GovernanceAvailable);
            am_IsBitXHub c := bool_decide (ac_ChainType c = "BitXHub");
            AppchainKey id := "appchain-" +:+ id;
            AppchainOccupyNameKey n := "occupy-appchain-name-" +:+ n;
            ChainOccupyIdPrefix := "occupy-chain-id"; RelaychainType := "BitXHub";
            AppAdminsChainKey id := "app-admins-chain-" +:+ id; AppchainAdminKey id := "appchain-admin-" +:+ id;
            FabricType := "Fabric";
            appchain_codec := appchain_json;
            appchains_encoding := encoding_by_encode (list Appchain);
            fabric_encoding := encoding_by_encode FabricBroker;
            Event_AUDIT_APPCHAIN := 6 |};
    intros; solve_writes.
Defined.

Definition rule_lib : RulePkg.
Proof.
  refine {| rule_pkg := stored_registry (λ id, "rule-" +:+ id) ru_Status with_ru_Status;
            rm_Register ctx chain addr url time def :=
              SetObject ctx ("rule-" +:+ addr) (MkRule addr url chain def false time GovernanceAvailable);
            rm_GetMaster ctx chain := GetObject (A := Rule) ctx ("master-" +:+ chain);
            rm_HasMaster ctx chain := d ← Get ctx ("master-" +:+ chain); mret (bool_decide (is_Some d));
            rm_IsAvailable ctx chain addr := d ← Get ctx ("rule-" +:+ addr); mret (bool_decide (is_Some d));
            rm_AllRules _ := mret (Some []);
            ru_GetChainRuleID r := ru_ChainID r +:+ ":" +:+ ru_Address r;
            IsDefault addr _ := bool_decide (addr = "happy");
            RuleKey id := "rule-" +:+ id; HappyRuleAddr := "happy"; FabricRuleAddr := "fabric"; SimFabricRuleAddr := "simfabric";
            ChainTypeFabric1_4_3 := "Fabric V1.4.3"; ChainTypeFabric1_4_4 := "Fabric V1.4.4";
            rule_codec := rule_json;
            rules_encoding := encoding_by_encode (list Rule);
            Event_AUDIT_RULE := 7 |};
    intros; solve_writes.
Defined.

Definition service_lib : ServicePkg.
Proof.
  refine {| service_pkg := stored_registry (λ id, "service-" +:+ id) si_Status with_si_Status;
            sm_Register ctx s := SetObject ctx ("service-" +:+ si_ChainID s +:+ ":" +:+ si_ServiceID s) s;
            sm_RegisterPre ctx s := SetObject ctx ("service-" +:+ si_ChainID s +:+ ":" +:+ si_ServiceID s) s;
            sm_Update ctx s := _ ← SetObject ctx ("service-" +:+ si_ChainID s +:+ ":" +:+ si_ServiceID s) s; mret true;
            sm_PackageServiceInfo chain id name typ intro ordered permits details time status :=
              Some (MkServiceInfo chain id name typ intro ordered (strset_split permits) details time (S754_zero false) ∅ 0
                      (S754_zero false) ∅ status);
            sm_GetIDListByChainID _ _ := mret (Some []); sm_GetIDListByType _ _ := mret (Some []);
            sm_GetServiceIDByName ctx n := Get ctx ("service-name-" +:+ n);
            si_IsAvailable s := bool_decide (si_Status s = GovernanceAvailable);
            ServiceKey id := "service-" +:+ id; ServiceOccupyNameKey n := "occupy-service-name-" +:+ n;
            ServiceCallContract := "CallContract"; ServiceDepositCertificate := "DepositCertificate";
            ServiceDataMigration := "DataMigration";
            service_json := encoding_by_encode ServiceInfo;
            services_json := encoding_by_encode (list ServiceInfo);
            update_service_codec := json_by_encode UpdateServiceInfo UpdateService_text;
            Event_AUDIT_SERVICE := 8; Event_SERVICE := 9 |};
    intros; solve_writes.
Defined.

Definition bind_lib : BindLib := {| GovernanceBindable := "bindable" |}.
End packages.

(** ** Sorting *)

Definition not_after {A} (less : A → A → bool) (x y : A) : Prop := less y x = false.
Local Instance not_after_dec {A} (less : A → A → bool) : RelDecision (not_after less).
Proof. intros x y. unfold not_after. apply _. Defined.

Definition sort_by_merge : GoSort.
Proof.
  refine {| go_sort A less l := merge_sort (not_after less) l |}.
  - intros A less l. apply merge_sort_Permutation.
  - intros A less l Hasym Htrans.
    assert (Total (not_after less)).
    { intros x y. unfold not_after. destruct (less x y) eqn:E; [left; by apply Hasym|by right]. }
    assert (Transitive (not_after less)) by (intros x y z; apply Htrans).
    apply StronglySorted_merge_sort; done.
Defined.

(** ** Applications *)

Definition dapp_marshal (d : Dapp) : option string :=
  if decide (Forall f64_finite (Dapp_numbers d)) then Some (pos_to_string (encode d)) else None.
Definition dapp_enc : Encoding Dapp :=
  {| marshal := dapp_marshal; unmarshal := @unmarshal Dapp (encoding_by_encode Dapp) |}.

Definition dapp_lib : @DappLib gov_lib.
Proof.
  refine {| EventTransfer := "transfer"; GovernanceTransferring := "transferring"; GovernanceTransferred := "transferred";
            dapp_encoding := dapp_enc;
            dapps_encoding := encoding_by_encode (list Dapp);
            dappset_codec := json_by_encode (gmap string ()) (λ m, (map_to_list m).*1);
            update_dapp_codec := json_by_encode UpdateDappInfo UpdateDapp_text;
            transfer_codec := codec_by_encode TransferRecord;
            Event_AUDIT_DAPP := 10 |}.
  - apply (bool_decide_unpack _). vm_compute. exact I.
  - apply (bool_decide_unpack _). vm_compute. exact I.
  - intros d. cbn. unfold dapp_marshal. destruct (decide _) as [Hf|Hf]; [by split|]. by split; [|intros [? [=]]].
  - intros d s _. cbn. unfold dapp_marshal. destruct (decide _); [|done]. intros Hs.
    by apply (@marshal_unmarshal Dapp (codec_by_encode Dapp)).
Defined.

(** ** Changes of chains *)

Definition chain_update_json : AppchainJsonLib.
Proof.
  refine {| register_chain_codec := json_by_encode RegisterAppchainInfo
              (λ r, Appchain_text (ra_ChainInfo r) ++ Rule_text (ra_MasterRule r) ++ [ra_AdminAddrs r]);
            update_chain_encoding :=
              {| marshal u := @marshal UpdateAppchainInfo (encoding_by_encode UpdateAppchainInfo)
                   (MkUpdateAppchain (ua_Name u) (ua_Desc u) (json_bytes (ua_TrustRoot u)) (ua_AdminAddrs u));
                 unmarshal := @unmarshal UpdateAppchainInfo (encoding_by_encode UpdateAppchainInfo) |} |}.
  - intros u. by eexists.
  - intros u s _ Hs. by apply (@marshal_unmarshal UpdateAppchainInfo (codec_by_encode UpdateAppchainInfo)).
Defined.

Definition rule_update_json : RuleJsonLib :=
  {| update_master_codec := json_by_encode UpdateMasterRuleInfo
       (λ u, Rule_text (um_OldRule u) ++ Rule_text (um_NewRule u) ++ Appchain_text (um_AppchainInfo u)) |}.
