(* ===== verification/NamesSample.v ===== *)
(** * Names of services: concrete instances and runs

Encodings and addresses for the name service and the first block, and the theorems about them at concrete inputs. *)
From Stdlib Require Import Ascii.
From S2P Require Import Prelude Storage Account StateLedger Contract TransactionManager Interchain Role Governance Strategy Registry Nodes RoleManager.
From S2P Require Import Names NamesTheorems Genesis GenesisTheorems GovernanceProps.
From S2P Require Import CrossChainSample GovernanceInstances RegistryInstances.

(** ** Encodings *)

Global Instance PriceLevel_eq_dec : EqDecision PriceLevel.
Proof. solve_decision. Defined.
Global Program Instance PriceLevel_countable : Countable PriceLevel :=
  inj_countable' (λ p, (Price1Letter p, Price2Letter p, Price3Letter p, Price4Letter p, Price5Letter p))
    (λ '(a, b, c, d, e), MkPriceLevel a b c d e) _.
Next Obligation. by intros []. Qed.

Global Instance ServDomainRec_eq_dec : EqDecision ServDomainRec.
Proof. solve_decision. Defined.
Global Program Instance ServDomainRec_countable : Countable ServDomainRec :=
  inj_countable' (λ r, (sd_Owner r, sd_Resolver r, sd_SubDomain r, sd_SubDomainInReview r, sd_Parent r))
    (λ '(a, b, c, d, e), MkDomainRec a b c d e) _.
Next Obligation. by intros []. Qed.

Global Instance SubDomainProposalData_eq_dec : EqDecision SubDomainProposalData.
Proof. solve_decision. Defined.
Global Program Instance SubDomainProposalData_countable : Countable SubDomainProposalData :=
  inj_countable' (λ d, (sp_ParentName d, sp_ParentOwner d, sp_SonName d, sp_Onwer d, sp_Resolver d, sp_ServiceName d))
    (λ '(a, b, c, d, e, f), MkSubDomainData a b c d e f) _.
Next Obligation. by intros []. Qed.

Global Instance ServDomain_eq_dec : EqDecision ServDomain.
Proof. solve_decision. Defined.
Global Program Instance ServDomain_countable : Countable ServDomain :=
  inj_countable' (λ d, (dm_Name d, dm_Level d, dm_Status d, dm_ParentName d)) (λ '(a, b, c, d), MkServDomain a b c d) _.
Next Obligation. by intros []. Qed.

Global Instance ServDomainData_eq_dec : EqDecision ServDomainData.
Proof. solve_decision. Defined.
Global Program Instance ServDomainData_countable : Countable ServDomainData :=
  inj_countable' (λ d, (dd_Addr d, dd_ServiceName d, dd_Des d, dd_Dids d)) (λ '(a, b, c, d), MkDomainData a b c d) _.
Next Obligation. by intros []. Qed.

Module NamesSample.
Local Existing Instance constants.
Local Existing Instance tx_lib.
Local Existing Instance gov_lib.
Local Existing Instance gov_json.
Local Existing Instance proposal_json.
Local Existing Instance strategy_json.
Local Existing Instance majority_eval.
Local Existing Instance gov_addrs.
Local Existing Instance role_lib.
Local Existing Instance node_lib.
Local Existing Instance fsm_by_filter.
Local Existing Instance range_by_encoding.
Local Existing Instance sort_by_merge.

Definition name_lib : NameLib.
Proof.
  refine {| ServiceResolverContractAddr := "resolver"; ServiceRegistryText := "names"; ServiceResolverText := "resolver";
            rec_codec := json_by_encode ServDomainRec Rec_text; rec_leftover := {| leftover _ := no_rec |};
            price_codec := json_by_encode PriceLevel (λ _, []);
            number_codec := json_by_encode Z (λ _, []);
            expiry_codec := json_by_encode (gmap string Z) (λ m, (map_to_list m).*1);
            expiry_leftover := {| leftover _ := ∅ |};
            flags_codec := json_by_encode (gmap string bool) (λ m, (map_to_list m).*1);
            flags_leftover := {| leftover _ := ∅ |};
            permissions_codec := json_by_encode (gmap string (gmap string bool)) _;
            subdomain_codec := json_by_encode SubDomainProposalData ProposalData_text;
            domains_codec := json_by_encode (list ServDomain) _;
            names_codec := json_by_encode (option (list string)) (λ l, default [] l);
            data_codec := json_by_encode ServDomainData Data_text;
            reverse_codec := json_by_encode (gmap string (option (list string))) _;
            reverse_leftover := {| leftover _ := ∅ |} |}.
  apply (bool_decide_unpack _). vm_compute. exact I.
Defined.
Local Existing Instance name_lib.

Definition genesis_lib : GenesisLib.
Proof.
  refine {| idmap_marshal m := marshal (MkOrderedMap (map_to_list m).*1);
            VpNodeIdKey s := "vpid-" +:+ s; VpNodePidKey s := "pid-" +:+ s; NodeTypeKey s := "type-" +:+ s |}.
  - intros m. apply json_marshals.
  - intros m s Ha Hs. exists (map_to_list m).*1. split; [|done]. by apply (json_ok (MkOrderedMap (map_to_list m).*1)).
Defined.
Local Existing Instance genesis_lib.

(** ** Names *)

Definition alice : string := "0x00000000000000000000000000000000000000aa".
Definition bob : string := "0x00000000000000000000000000000000000000bb".

Definition no_world : world := MkWorld (λ _ _, None) (λ _, 10 ^ 18)%Z (λ _, 0%Z) (λ _, None) (λ _, []).
(** After the first block. *)
Definition w0 : world := (exec initBNSData no_world).2.
(** A call of the registry at a time in seconds. *)
Definition at_time (caller : string) (t : Z) : Context :=
  MkContext caller "names" caller 0 "hash" 10 false None (t * SecondTime).

Definition w1 : world := (exec (bns_Register (at_time alice 1700000000) "shop" 100 "resolver") w0).2.

(** Alice can register a name for 100 seconds. *)
Lemma alice_may : may_register (at_time alice 1700000000) w0 "shop" 100 "resolver" 40000000000.
Proof.
  split.
  - done.
  - reflexivity.
  - exists genesis_resolvers. split; vm_compute; reflexivity.
  - done.
  - done.
  - apply (bool_decide_unpack _). vm_compute. exact I.
  - apply (bool_decide_unpack _). vm_compute. exact I.
  - exists (MkPrice 40000000000 0). split; vm_compute; reflexivity.
  - apply (bool_decide_unpack _). vm_compute. exact I.
Qed.

Lemma name_registration_witness :
  may_register (at_time alice 1700000000) w0 "shop" 100 "resolver" 40000000000 ∧
  ∃ w', exec (bns_Register (at_time alice 1700000000) "shop" 100 "resolver") w0 = (Some (Success None), w') ∧
    w_balance w' alice = (10 ^ 18 - 40000000000)%Z.
Proof.
  split; [exact alice_may|].
  assert (∃ w', exec (bns_Register (at_time alice 1700000000) "shop" 100 "resolver") w0 = (Some (Success None), w') ∧
       rec_of w' "shop.hub" = Some (rec_after w0 "shop.hub" alice "resolver") ∧
       rec_of w' RootDomain = Some (hub_after w0 "shop.hub") ∧
       expiries w' = <["shop.hub" := 1700000100%Z]> (expiries w0) ∧
       stored w' "resolver" "shop.hub" = Some (data_after alice) ∧
       w_balance w' alice = (w_balance w0 alice - 40000000000)%Z ∧
       (∀ a, a ≠ alice → w_balance w' a = w_balance w0 a) ∧
       (∀ a k, (a, k) ∉ [("names", "shop.hub"); ("names", RootDomain); ("names", Level1Domain); ("resolver", "shop.hub")] →
          w_state w' a k = w_state w0 a k)) as (w' & E & _ & _ & _ & _ & Hb & _).
  { refine (proj2 (name_registration (at_time alice 1700000000) "shop" 100 "resolver" w0 _ _ _ _ _ _) 40000000000%Z alice_may);
      apply (bool_decide_unpack _); vm_compute; exact I. }
  exists w'. split; [exact E|]. exact Hb.
Defined.

Example registered_owner : owner_of w1 "shop.hub" = Some alice ∧ expiry w1 "shop.hub" = 1700000100%Z.
Proof. by vm_compute. Qed.

(** A world with one name of Alice, which has two names below it. *)
Definition shop : ServDomainRec :=
  MkDomainRec alice "resolver" (Some {["a.shop.hub" := true; "b.shop.hub" := true]}) None "hub".
Definition ws : world :=
  w_setState (w_setState no_world "names" "shop.hub" (marshal shop)) "names" Level1Domain
    (marshal ({["shop.hub" := 1700000100%Z]} : gmap string Z)).

Lemma ws_records x r : rec_of ws x = Some r → x = "shop.hub" ∧ r = shop.
Proof.
  unfold rec_of, ws. rewrite stored_set. case_decide as Hd; [vm_compute; discriminate|].
  rewrite stored_set. case_decide as Hd2; [|done]. destruct Hd2 as [_ ->]. intros Hr. split; [done|].
  assert (Some shop = Some r) as [= <-]; [|done]. rewrite <-Hr. vm_compute. reflexivity.
Qed.

(** Bob cannot take the name during the grace period. *)
Lemma name_owner_kept_witness :
  owner_of ws "shop.hub" = Some alice ∧
  owner_of (exec (run_names (at_time bob 1700001000) (CRegister "shop" 100 "resolver")) ws).2 "shop.hub" = Some alice.
Proof.
  assert (owner_of ws "shop.hub" = Some alice) as Ho by (vm_compute; reflexivity). split; [exact Ho|].
  assert (∀ x r, rec_of ws x = Some r → rec_ascii r) as Hasc.
  { intros x r Hr. destruct (ws_records x r Hr) as [_ ->]. apply (bool_decide_unpack _). vm_compute. exact I. }
  assert (ctx_Callee (at_time bob 1700001000) = ServiceRegistryContractAddr) as Hc by reflexivity.
  destruct (name_owner_kept (at_time bob 1700001000) (CRegister "shop" 100 "resolver") ws "shop.hub" alice
    Hc eq_refl Hasc I Ho) as [Hk|[(name & d & r & [= <- <- <-] & _ & Hexp)|[[=] _]]]; [exact Hk|].
  exfalso. revert Hexp. apply (bool_decide_unpack _). vm_compute. exact I.
Defined.

(** Names below a name have no time of their own: Alice, who does not own the name of Bob below hers, registers it as if
it were a free name of the first level. *)
Definition w_below : world :=
  w_setState w1 "names" "a.shop.hub" (marshal (MkDomainRec bob "resolver" None None "shop.hub")).

Example second_level_taken :
  owner_of w_below "a.shop.hub" = Some bob ∧ expiry w_below "a.shop.hub" = 0%Z ∧
  owner_of (exec (bns_Register (at_time alice 1700000001) "a.shop" 100 "resolver") w_below).2 "a.shop.hub" = Some alice.
Proof. split_and!; vm_compute; reflexivity. Qed.

(** The balance is taken modulo 2^64: who has exactly 2^64 cannot pay the price of a name. *)
Example rich_caller_refused :
  (exec (bns_Register (at_time alice 1700000000) "shop" 100 "resolver") (w_setBalance w0 alice (2 ^ 64))).1 = Some bnsErr ∧
  (exec (bns_Register (at_time alice 1700000000) "shop" 100 "resolver") (w_setBalance w0 alice 40000000000)).1 = Some (Success None).
Proof. split; vm_compute; reflexivity. Qed.

(** [2^56] seconds are free. *)
Lemma long_names_free_witness :
  exec (getPrice (at_time alice 1700000000) "shop" 0 (2 ^ 56)) w0 = (Some (Some (MkPrice 0 0)), w0).
Proof.
  refine (long_names_free (at_time alice 1700000000) "shop" 0 1 w0 genesis_prices 1 _ _ _ _).
  - reflexivity.
  - vm_compute. reflexivity.
  - vm_compute. reflexivity.
  - discriminate.
Defined.

(** The opposite order of iteration, and another sorting algorithm. *)
Definition range_backwards : GoRange.
Proof.
  refine {| go_range K V _ _ m := reverse (map_to_list m) |}. intros K V ? ? m. apply reverse_Permutation.
Defined.
Definition sort_backwards : GoSort.
Proof.
  refine {| go_sort A less l := @go_sort sort_by_merge A less (reverse l) |}.
  - intros A less l. rewrite go_sort_perm. apply reverse_Permutation.
  - intros A less l. apply go_sort_sorted.
Defined.

Lemma all_domains_same_witness :
  exec (@GetAllDomains _ _ range_by_encoding sort_by_merge _ (at_time bob 1)) ws =
  exec (@GetAllDomains _ _ range_backwards sort_backwards _ (at_time bob 1)) ws.
Proof.
  refine (all_domains_same range_by_encoding range_backwards sort_by_merge sort_backwards (at_time bob 1) eq_refl ws
    {["shop.hub" := 1700000100%Z]} _ eq_refl eq_refl _).
  - vm_compute. reflexivity.
  - intros k r s Hk Hr [_ Hs]. destruct (ws_records k r Hr) as [_ ->]. revert Hs. cbn. discriminate.
Defined.

(** ** The first block *)

Definition config : GenesisConfig :=
  MkGenesis 1356 "1000" [MkAdmin alice 2; MkAdmin bob 1] [MkStrategyConfig AppchainMgr "SimpleMajority" "a > 0.5 * t"].
Definition network : list NetworkNodes := [MkNetworkNode 1 "p1" alice; MkNetworkNode 2 "p2" bob].

Lemma config_ok : genesis_ok config network 2 1000.
Proof. split; try (apply (bool_decide_unpack _); vm_compute; exact I). Qed.

Definition built_in : gmap string () := {["names" := tt; "role" := tt]}.

Lemma first_state_witness :
  ∃ w', exec (genesis_state config network 2 built_in) no_world = (Some (Some tt), w') ∧ gov_inv w'.
Proof.
  assert (∀ k, w_state no_world GovernanceContractAddr k = None) as Hempty by reflexivity.
  destruct (first_state config network 2 built_in 1000 no_world config_ok Hempty) as (w' & E & Hinv & _).
  exists w'. split; [exact E|exact Hinv].
Defined.
End NamesSample.
