(* ===== verification/GovernanceSample.v ===== *)
(** * The theorems about governance on concrete inputs

The theorems are applied to a relay chain with three administrators, and a few runs show where the code
departs from what it is meant to do. *)
From Stdlib Require Import Ascii.
From S2P Require Import Prelude Storage Account StateLedger Contract TransactionManager Role Governance Strategy Registry Nodes RoleManager.
From S2P Require Import GovernanceProps GovernanceSteps GovernanceTheorems GovernanceClaims RoleSteps RoleTheorems.
From S2P Require Import CrossChainSample GovernanceInstances RegistryInstances.

Module Sample.
Local Existing Instance constants.
Local Existing Instance gov_lib.
Local Existing Instance gov_json.
Local Existing Instance proposal_json.
Local Existing Instance strategy_json.
Local Existing Instance majority_eval.
Local Existing Instance gov_addrs.
Local Existing Instance role_lib.
Local Existing Instance node_lib.
Local Existing Instance query_lib.
Local Existing Instance fsm_by_filter.
Local Existing Instance range_by_encoding.

(** The contracts that are not modelled answer and do nothing. *)
Definition silent_manage : ManageLib.
Proof. refine {| Manage _ _ _ _ _ _ := silent |}. by intros. Defined.

Definition manage : ManageLib := manage_to silent_manage 8.
Local Existing Instance manage.

Definition admin (id : string) (weight : Z) : Role := MkRole id GovernanceAdmin weight EmptyString EmptyString GovernanceAvailable.

(** Three administrators, the first of them with the highest weight. *)
Definition stored_roles (k : string) : option string :=
  if decide (k = RoleKey "s") then marshal (admin "s" 2)
  else if decide (k = RoleKey "a") then marshal (admin "a" 1)
  else if decide (k = RoleKey "b") then marshal (admin "b" 1)
  else if decide (k = RoleTypeKey GovernanceAdmin) then marshal (MkOrderedMap ["s"; "a"; "b"])
  else if decide (k = GenesisBalance) then Some "100"
  else None.

Definition w0 : world :=
  MkWorld (λ a k, if decide (a = RoleContractAddr) then stored_roles k else None) (λ _, 0%Z) (λ _, 0%Z) (λ _, None) (λ _, []).

(** A call of the contract at [callee] by [caller], directly or through [via]. *)
Definition call_of (caller via callee : string) : Context := MkContext caller callee via 0 "hash" 10 false None 7.
Definition vote_ctx (caller : string) : Context := call_of caller caller "gov".

(** A proposal of a to change an application chain. *)
Definition w1 : world :=
  (exec (SubmitProposal (call_of "a" "am" "gov") "a" "update" AppchainMgr "chain" "available" "why" None) w0).2.
Definition w2 : world := (exec (Vote Manage (vote_ctx "a") "a-0" BallotApprove "yes") w1).2.
Definition w3 : world := (exec (Vote Manage (vote_ctx "b") "a-0" BallotApprove "yes") w2).2.

(** Every stored value of the role contract. *)
Lemma stored_cases (P : string → string → Prop) :
  P (RoleKey "s") (pos_to_string (encode (admin "s" 2))) → P (RoleKey "a") (pos_to_string (encode (admin "a" 1))) →
  P (RoleKey "b") (pos_to_string (encode (admin "b" 1))) →
  P (RoleTypeKey GovernanceAdmin) (pos_to_string (encode (MkOrderedMap ["s"; "a"; "b"]))) → P GenesisBalance "100" →
  ∀ k d, stored_roles k = Some d → P k d.
Proof.
  intros H1 H2 H3 H4 H5 k d. unfold stored_roles. repeat (destruct (decide _) as [->|_]; [by intros [= <-]|]). done.
Qed.

Lemma peers0 : peers_ok w0.
Proof.
  split.
  - intros k d r Hd. revert r. change (stored_roles k = Some d) in Hd. revert k d Hd.
    apply (stored_cases (λ _ d, ∀ r : Role, unmarshal d = Some r → Forall is_ascii (Role_text r))); intros r Hr; vm_compute in Hr;
      try discriminate Hr; injection Hr as <-; repeat constructor; vm_compute; exact I.
  - intros d m Hd Hm. vm_compute in Hd. injection Hd as <-. vm_compute in Hm. injection Hm as <-. vm_compute. reflexivity.
  - done.
Qed.

(** ** Strategies *)

Lemma majority_decides t : decides DefaultSimpleMajorityExpression t.
Proof. intros a r. eexists. cbn. reflexivity. Qed.

Lemma majority_passes a r t : passes DefaultSimpleMajorityExpression a r t ↔ (t < 2 * a)%Z.
Proof.
  unfold passes. cbn. split; [intros [= Ha]; by apply bool_decide_eq_true in Ha|intros Ha; by rewrite bool_decide_true].
Qed.

Lemma majority_monotone t : monotone DefaultSimpleMajorityExpression t.
Proof. intros a a' r r' Ha Hr. rewrite !majority_passes. lia. Qed.

Lemma threshold_least_witness :
  ∃ res, exec (getCurThresholdApproveNum DefaultSimpleMajorityExpression 0 1 4 4) w0 = (Some res, w0) ∧ res = Some 3%Z.
Proof.
  destruct (threshold_least DefaultSimpleMajorityExpression 0 1 4 4 w0 (majority_decides 4) ltac:(lia) ltac:(lia)) as (res & E & _).
  exists res. split; [exact E|]. vm_compute in E. injection E as <-. reflexivity.
Defined.

Lemma decision_sound_witness :
  exec (MakeStrategyDecision DefaultSimpleMajorityExpression 1 2 4 4) w0 = (Some (Some (true, false)), w0) ∧
  ¬ passes DefaultSimpleMajorityExpression 2 2 4.
Proof.
  destruct (decision_sound DefaultSimpleMajorityExpression 1 2 4 4 w0 (majority_decides 4) (majority_monotone 4)
    ltac:(lia) ltac:(lia)) as (over & approved & E & _ & Hrej & _).
  vm_compute in E. injection E as <- <-. split; [reflexivity|]. apply Hrej; [reflexivity|reflexivity|lia|lia].
Defined.

(** Two of five electors are left, three have rejected. *)
Lemma wrapped_electorate_witness :
  exec (MakeStrategyDecision DefaultSimpleMajorityExpression 0 3 5 2) w0 = (Some (Some (false, false)), w0).
Proof.
  apply (wrapped_electorate_open DefaultSimpleMajorityExpression 0 3 5 2 w0 (majority_decides 5) (majority_monotone 5)).
  - rewrite majority_passes. lia.
  - lia.
  - lia.
  - rewrite majority_passes. lia.
Defined.

(** ** The contract *)

Lemma reachable1 : gov_reachable w1.
Proof.
  apply (gr_call w0 (call_of "a" "am" "gov") (CallSubmit "a" "update" AppchainMgr "chain" "available" "why" None)).
  - apply gr_genesis. reflexivity.
  - reflexivity.
  - split; [|exact peers0]. split; (reflexivity || (vm_compute; exact I)).
Qed.

Lemma reachable2 : gov_reachable w2.
Proof.
  apply (gr_call w1 (vote_ctx "a") (CallVote "a-0" BallotApprove "yes")); [exact reachable1|reflexivity|vm_compute; exact I].
Qed.

Lemma governance_invariant_witness : gov_ids w2 (ProposalStatusKey PROPOSED) = ["a-0"] ∧
  ("a-0" ∈ gov_ids w2 (ProposalFromKey "a") ↔ is_Some (gov_prop w2 "a-0") ∧ sponsor_of "a-0" = "a").
Proof.
  split; [vm_compute; reflexivity|]. destruct (governance_invariant w2 reachable2) as (_ & _ & _ & Hf & _). apply Hf.
Defined.

(** What is stored under the id. *)
Definition prop_at (w : world) (id : string) : Proposal :=
  default (MkProposal "" "" "" "" "" ∅ 0 0 [] 0 0 0 "" "" "" false false "" "" "" "" 0 None) (gov_prop w id).

Lemma votes_bounded_witness : (p_ApproveNum (prop_at w2 "a-0") + p_AgainstNum (prop_at w2 "a-0") = 1)%Z.
Proof.
  destruct (votes_bounded w2 "a-0" (prop_at w2 "a-0") reachable2) as (_ & _ & Hn & _); [vm_compute; reflexivity|].
  refine (eq_trans Hn _). vm_compute. reflexivity.
Defined.

Lemma Vote_refused_witness :
  exec (Vote Manage (vote_ctx "a") "a-0" BallotReject "again") w2 = (Some (Error "GovernanceAdminRepeatVoteCode" ["a"]), w2).
Proof.
  apply (Vote_refused (vote_ctx "a") w2 "a-0" BallotReject "again"); [reflexivity|].
  apply (vr_repeated w2 "a-0" "a" BallotReject (prop_at w2 "a-0")).
  - vm_compute. reflexivity.
  - vm_compute. reflexivity.
  - vm_compute. reflexivity.
  - apply (bool_decide_unpack _). vm_compute. exact I.
  - apply (bool_decide_unpack _). vm_compute. exact I.
Defined.

Lemma ready_a : vote_ready w1 "a-0" (prop_at w1 "a-0") (admin "a" 1) BallotApprove "yes".
Proof.
  split.
  - vm_compute. reflexivity.
  - vm_compute. reflexivity.
  - vm_compute. reflexivity.
  - exists 1. vm_compute. reflexivity.
  - vm_compute. reflexivity.
  - by left.
  - vm_compute. exact I.
  - apply majority_decides.
Qed.

(** The first vote leaves the result open, the second one makes it certain. *)
Lemma ready_b : vote_ready w2 "a-0" (prop_at w2 "a-0") (admin "b" 1) BallotApprove "yes".
Proof.
  split.
  - vm_compute. reflexivity.
  - vm_compute. reflexivity.
  - vm_compute. reflexivity.
  - exists 2. vm_compute. reflexivity.
  - vm_compute. reflexivity.
  - by left.
  - vm_compute. exact I.
  - apply majority_decides.
Qed.

Lemma Vote_effect_witness :
  (∃ th w', exec (Vote Manage (vote_ctx "a") "a-0" BallotApprove "yes") w1 = (Some (Success None), w') ∧
    gov_prop w' "a-0" = Some (with_p_nums (voted (prop_at w1 "a-0") (admin "a" 1) BallotApprove "yes" 7) 3 th)) ∧
  ∃ w', p_Status <$> gov_prop w' "a-0" = Some APPROVED.
Proof.
  split.
  - destruct (Vote_effect (vote_ctx "a") w1 "a-0" (prop_at w1 "a-0") (admin "a" 1) BallotApprove "yes") as (_ & Hopen & _);
      [reflexivity|reflexivity|exact reachable1|exact ready_a|].
    destruct Hopen as (th & w' & E & Hp & _).
    + exists 2%Z. split; [vm_compute; split; discriminate|vm_compute; reflexivity].
    + right. split; [vm_compute; discriminate|vm_compute; reflexivity].
    + exists th, w'. split; [exact E|]. refine (eq_trans Hp _). reflexivity.
  - destruct (Vote_effect (vote_ctx "b") w2 "a-0" (prop_at w2 "a-0") (admin "b" 1) BallotApprove "yes") as (_ & _ & Hclose);
      [reflexivity|reflexivity|exact reachable2|exact ready_b|].
    destruct Hclose as (th & w' & Hp & _ & E).
    + exists 2%Z. split; [vm_compute; split; discriminate|vm_compute; reflexivity].
    + intros [[Hs _]|[Hn _]]; [vm_compute in Hs; discriminate Hs|]. apply Hn. vm_compute. reflexivity.
    + exists w'. rewrite Hp. cbn [fmap option_fmap option_map p_Status with_p_Status].
      rewrite decide_True; [reflexivity|]. vm_compute. reflexivity.
Defined.

(** ** Roles and strategies *)

Lemma role_proposal_cycle_witness :
  fsm_Event (role_events GovernanceFreezing) GovernanceFreezing EventLogout = Some GovernanceLogouting ∧
  fsm_Event (role_events GovernanceFreezing) GovernanceLogouting EventReject = Some GovernanceFreezing.
Proof.
  destruct (role_proposal_cycle EventLogout GovernanceLogouting GovernanceForbidden GovernanceFreezing) as (H1 & H2 & _).
  - apply (bool_decide_unpack _). vm_compute. exact I.
  - apply (bool_decide_unpack _). vm_compute. exact I.
  - split; [exact H1|exact H2].
Defined.

Lemma role_Manage_protected_witness :
  exec (role_Manage Manage (call_of "a" "a" "role") "freeze" "approve" "available" "b" None) w0 =
    (Some (Error "RoleNoPermissionCode" ["a"]), w0).
Proof. apply (role_Manage_protected (call_of "a" "a" "role") Manage). discriminate. Defined.

(** An administrator for audit that is to be logged out while it is being bound. *)
Definition auditor : Role := MkRole "c" AuditAdmin 1 "n" EmptyString GovernanceLogouting.
Definition w_audit : world := w_setState w0 "role" (RoleKey "c") (marshal auditor).

Lemma rejected_logout_witness :
  exec (role_Manage Manage (call_of "a" "gov" "role") EventLogout EventBind GovernanceBinding "c" None) w_audit = (Some roleErr, w_audit).
Proof.
  apply (rejected_logout_of_binding_fails (call_of "a" "gov" "role") Manage GovernanceBinding "c" None w_audit auditor).
  - reflexivity.
  - vm_compute. reflexivity.
  - reflexivity.
Defined.

Lemma super_admin_protected_witness :
  ∃ code args, exec (basicGovernance (call_of "a" "a" "role") "s" "why" [PermissionAdmin] EventFreeze None) w0 =
    (Some (Error code args), w0).
Proof.
  apply (super_admin_protected (call_of "a" "a" "role") "s" "why" [PermissionAdmin] EventFreeze None w0 (admin "s" 2)).
  - vm_compute. reflexivity.
  - reflexivity.
  - reflexivity.
  - apply Forall_singleton. left. reflexivity.
Defined.

(** The administrator x of a chain is replaced by y. *)
Definition w_chain : world := (exec (updateAppchainAdmin (call_of "a" "am" "role") "chain" ["x"]) w0).2.

Lemma replaced_admins_witness :
  exec (GetAppchainAdmin (call_of "a" "am" "role") "chain")
    (exec (updateAppchainAdmin (call_of "a" "am" "role") "chain" ["y"]) w_chain).2 =
  (Some (Error "RoleInternalErrCode" []), (exec (updateAppchainAdmin (call_of "a" "am" "role") "chain" ["y"]) w_chain).2).
Proof.
  destruct (replaced_admins_unreadable (call_of "a" "am" "role") "chain" ["x"] ["y"] "x" w_chain
    (pos_to_string (encode (MkOrderedMap ["x"])))) as (w' & E & Hq).
  - vm_compute. reflexivity.
  - vm_compute. reflexivity.
  - apply Forall_singleton. vm_compute. exact I.
  - apply Forall_singleton. vm_compute. exact I.
  - by left.
  - by intros ?%list_elem_of_singleton.
  - rewrite E. exact Hq.
Defined.

Lemma strategies_passable_witness :
  ∃ w', exec (UpdateProposalStrategyByRolesChange (call_of "a" "role" "strategy") 3) w0 = (Some (Success None), w').
Proof.
  destruct (strategies_passable (call_of "a" "role" "strategy") 3 ltac:(lia) (majority_decides 3)
    (proj2 (majority_passes 3 0 3) ltac:(lia)) w0) as (w' & E & _).
  - reflexivity.
  - intros m st Hm. vm_compute in Hm. discriminate Hm.
  - exists w'. exact E.
Defined.

(** ** Runs *)

(** A proposal that its sponsor has withdrawn is opened again: while it is paused by a proposal with a
higher priority, it can be withdrawn and is rejected, but when the other proposal ends without being
approved, it is set to proposed without a look at its status. *)
Theorem withdrawn_proposal_reopened :
  let u1 := (exec (SubmitProposal (call_of "b" "am" "gov") "b" "logout" AppchainMgr "chain" "available" "why" None) w1).2 in
  let u2 := exec (WithdrawProposal Manage (vote_ctx "a") "a-0" "mistake") u1 in
  let u3 := exec (WithdrawProposal Manage (vote_ctx "b") "b-0" "mistake") u2.2 in
  p_Status <$> gov_prop u1 "a-0" = Some PAUSED ∧
  u2.1 = Some (Success None) ∧ p_Status <$> gov_prop u2.2 "a-0" = Some REJECTED ∧
  u3.1 = Some (Success None) ∧ p_Status <$> gov_prop u3.2 "a-0" = Some PROPOSED.
Proof. intros u1 u2 u3. split_and!; vm_compute; reflexivity. Qed.

(** The electorate of the open proposals grows when the logout of an administrator is rejected: the logout is
to take the administrator away from them, but it looks at the status after it has become logouting and does
nothing, while the rejection adds the administrator again. *)
Theorem rejected_logout_grows_electorate :
  let u1 := exec (LogoutRole Manage (call_of "a" "a" "role") "b" "why") w1 in
  let u2 := (exec (Vote Manage (vote_ctx "s") "a-1" BallotReject "no") u1.2).2 in
  let u3 := exec (Vote Manage (vote_ctx "a") "a-1" BallotReject "no") u2 in
  resp_Ok <$> u1.1 = Some true ∧ p_AvailableElectorateNum <$> gov_prop u1.2 "a-0" = Some 3%Z ∧
  u3.1 = Some (Success None) ∧ p_Status <$> gov_prop u3.2 "a-1" = Some REJECTED ∧
  p_AvailableElectorateNum <$> gov_prop u3.2 "a-0" = Some 4%Z.
Proof. intros u1 u2 u3. split_and!; vm_compute; reflexivity. Qed.
End Sample.
