(* ===== verification/RegistrySample.v ===== *)
(** * The theorems about the registries on concrete inputs

Proposals about applications, nodes and chains of a relay chain with three administrators; a few runs show where the code
departs from what it is meant to do. *)
From Stdlib Require Import Ascii SpecFloat.
From S2P Require Import Prelude Storage Account StateLedger LedgerTheorems Contract TransactionManager Interchain Role Governance Strategy RoleManager.
From S2P Require Import Transactions Registry Nodes Names NamesTheorems Dapp Appchain Service Rule AppchainManager RuleManager NodeManager.
From S2P Require Import GovernanceProps GovernanceSteps GovernanceTheorems GovernanceClaims RegistrySteps RegistryTheorems DappTheorems NodeTheorems.
From S2P Require Import Genesis CrossChainSample GovernanceInstances RegistryInstances NamesSample GovernanceSample.

Module RegistrySample.
Local Existing Instance tx_lib.
Local Existing Instance pb_lib.
Local Existing Instance constants.
Local Existing Instance gov_lib.
Local Existing Instance gov_json.
Local Existing Instance proposal_json.
Local Existing Instance strategy_json.
Local Existing Instance majority_eval.
Local Existing Instance gov_addrs.
Local Existing Instance role_lib.
Local Existing Instance node_lib.
Local Existing Instance query_lib.
Local Existing Instance appchain_lib.
Local Existing Instance rule_lib.
Local Existing Instance service_lib.
Local Existing Instance bind_lib.
Local Existing Instance chain_update_json.
Local Existing Instance rule_update_json.
Local Existing Instance dapp_lib.
Local Existing Instance NamesSample.name_lib.
Local Existing Instance sort_by_merge.
Local Existing Instance hash_plain.
Local Existing Instance fsm_by_filter.
Local Existing Instance range_by_encoding.

Definition manage : ManageLib := manage_all Sample.silent_manage 8.

(** There are contracts at all addresses that start with c. *)
Definition w0 : world :=
  MkWorld (w_state Sample.w0) (λ _, 0%Z) (λ _, 0%Z) (λ a, if String.prefix "c" a then Some "code" else None) (λ _, []).

(** ** Applications *)

Definition owner_ctx : Context := Sample.call_of "o" "o" "dapp".
Definition gov_ctx (callee : string) : Context := Sample.call_of "s" "gov" callee.

(** The owner registers an application with two contracts. *)
Definition registered : option Response * world :=
  exec (RegisterDapp (@Manage _ _ _ _ _ manage) owner_ctx "shop" DappTool "d" "u" "c1,c2" "" "why") w0.

Example register_runs :
  registered.1 = Some (getGovernanceRet "o-0" (Some "o-0")) ∧
  dr_name (dapps_of owner_ctx registered.2) "shop" = Some "o-0" ∧
  dr_contract (dapps_of owner_ctx registered.2) "c2" = Some "o-0" ∧
  gov_ids registered.2 (ProposalStatusKey PROPOSED) = ["o-0"].
Proof. vm_compute. done. Qed.

Definition registered_data : option string := match registered.1 with Some (Success data) => data | _ => None end.

Definition shop : Dapp :=
  MkDapp "o-0" "shop" DappTool "d" "u" (strset_split "c1,c2") ∅ "o" 7 (S754_zero false) ∅ [] GovernanceRegisting.

Lemma gov_calls : ctx_CurrentCaller (gov_ctx "dapp") = GovernanceContractAddr.
Proof. reflexivity. Qed.

(** What the contract of applications shows after the registration. *)
Definition R1 : dapp_registry := dapps_of owner_ctx registered.2.

Lemma shop_ok s : is_ascii s → dapp_ok "o-0" (with_da_Status shop s).
Proof. intros Hs. apply dapp_ok_status; [|done]. split; [done|repeat constructor|].
  apply (bool_decide_unpack _). vm_compute. exact I.
Qed.

Lemma dapp_proposal_cycle_witness :
  fsm_Event (dapp_events GovernanceFrozen) GovernanceUpdating EventReject = Some GovernanceFrozen ∧
  fsm_Event (dapp_events GovernanceFrozen) GovernanceFrozen EventUpdate = Some GovernanceUpdating.
Proof.
  destruct (dapp_proposal_cycle EventUpdate GovernanceUpdating GovernanceAvailable (Some GovernanceFrozen) GovernanceFrozen) as (H1 & _ & H2).
  - right. left.
  - apply (bool_decide_unpack _). vm_compute. exact I.
  - by split.
Defined.

Lemma dapp_registration_result_witness :
  dr_dapp R1 "o-0" = Some shop ∧
  does (gov_ctx "dapp") (dapp_Manage (gov_ctx "dapp") EventRegister REJECTED GovernanceUnavailable "o-0" None) R1 (Success None)
    (set_contracts (free_name (with_dapp R1 "o-0" (with_da_Status shop GovernanceUnavailable)) "shop") (strset_split "c1,c2") None).
Proof.
  split; [vm_compute; reflexivity|].
  refine (proj2 (dapp_registration_result (gov_ctx "dapp") gov_calls GovernanceUnavailable "o-0" None R1 shop _ _ _ _ _)).
  - vm_compute. reflexivity.
  - apply (shop_ok GovernanceRegisting). vm_compute. exact I.
  - reflexivity.
  - reflexivity.
  - vm_compute. constructor.
Defined.

(** The application is renamed and gives one contract up. *)
Definition rename : UpdateDappInfo :=
  MkUpdateDapp (MkUpdateInfo "shop" "mall" true) (MkUpdateInfo "d" "d" false) (MkUpdateInfo "u" "u" false)
    (MkUpdateMapInfo (strset_split "c1,c2") (strset_split "c1") true) (MkUpdateMapInfo ∅ ∅ false).
Definition rename_data : option string := marshal rename.
Definition R2 : dapp_registry :=
  with_index (with_dapp R1 "o-0" (with_da_Status shop GovernanceUpdating)) "shop" "o-0".

Lemma being_renamed : being_updated R2 "o-0" (with_da_Status shop GovernanceUpdating) rename rename_data.
Proof.
  repeat apply conj; [reflexivity|apply shop_ok; vm_compute; exact I|reflexivity|vm_compute; reflexivity|].
  apply (bool_decide_unpack _). vm_compute. exact I.
Qed.

Lemma dapp_update_result_witness :
  does (gov_ctx "dapp") (dapp_Manage (gov_ctx "dapp") EventUpdate APPROVED GovernanceAvailable "o-0" rename_data) R2 (Success None)
    (approved_change R2 "o-0" (with_da_Status shop GovernanceUpdating) rename) ∧
  dr_contract (approved_change R2 "o-0" (with_da_Status shop GovernanceUpdating) rename) "c2" = None.
Proof.
  split; [|vm_compute; reflexivity].
  refine (proj1 (dapp_update_result (gov_ctx "dapp") gov_calls GovernanceAvailable "o-0" rename_data R2 _ rename being_renamed _)).
  apply (bool_decide_unpack _). vm_compute. exact I.
Defined.

Lemma renamed_dapp_unindexed_witness :
  ∃ R' s, does (gov_ctx "dapp") (dapp_Manage (gov_ctx "dapp") EventUpdate APPROVED GovernanceAvailable "o-0" rename_data) R2 (Success None) R' ∧
    does (gov_ctx "dapp") (GetDappByName (gov_ctx "dapp") "mall") R' (nonexistentDapp "mall") R' ∧
    does (gov_ctx "dapp") (GetDappByName (gov_ctx "dapp") "shop") R' (Success (Some s)) R'.
Proof.
  destruct (renamed_dapp_unindexed (gov_ctx "dapp") gov_calls GovernanceAvailable "o-0" rename_data R2 _ rename
    (default EmptyString (marshal (updated (with_da_Status (with_da_Status shop GovernanceUpdating) GovernanceAvailable) rename))) being_renamed)
    as (R' & H1 & H2 & H3).
  - apply (bool_decide_unpack _). vm_compute. exact I.
  - apply (bool_decide_unpack _). vm_compute. exact I.
  - vm_compute. reflexivity.
  - vm_compute. reflexivity.
  - exists R'. eexists. split_and!; [exact H1|exact H2|exact H3].
Defined.

Lemma dapp_names_not_taken_over_witness :
  dr_name (dapps_of owner_ctx w0) "shop" = None ∧
  exec (RegisterDapp (@Manage _ _ _ _ _ manage) (Sample.call_of "p" "p" "dapp") "shop" DappTool "d" "u" "" "" "why") registered.2 =
    (Some (Error "DappDuplicateNameCode" ["shop"; "o-0"]), registered.2).
Proof.
  split; [|vm_compute; reflexivity].
  refine (proj1 (proj1 (dapp_names_not_taken_over owner_ctx (@Manage _ _ _ _ _ manage) "shop" DappTool "d" "u" "c1,c2" "" "why" "x" w0
    registered.2 registered_data) _)).
  vm_compute. reflexivity.
Defined.

(** ** All registries *)

Lemma registry_calls_restricted_witness :
  exec (run_internal (@Manage _ _ _ _ _ manage) (CallManage ManagedDapp EventRegister APPROVED GovernanceUnavailable "o-0" None)
          (Sample.call_of "o" "o" "dapp")) registered.2 = (Some (Error "DappNoPermissionCode" ["o"]), registered.2).
Proof.
  apply (registry_calls_restricted (@Manage _ _ _ _ _ manage) (CallManage ManagedDapp EventRegister APPROVED GovernanceUnavailable "o-0" None)
    (Sample.call_of "o" "o" "dapp") registered.2).
  - exact I.
  - apply (bool_decide_unpack _). vm_compute. exact I.
Defined.

Lemma registries_keep_proposals_witness :
  rtc gov_step w0 (exec (Manage_all Sample.silent_manage 8 "dapp" EventRegister APPROVED GovernanceUnavailable "o-0" None (gov_ctx "dapp")) w0).2.
Proof.
  apply (registries_keep_proposals Sample.silent_manage 8 "dapp" EventRegister APPROVED GovernanceUnavailable "o-0" None (gov_ctx "dapp") w0).
  - reflexivity.
  - discriminate.
  - apply genesis_inv. reflexivity.
Defined.

(** ** Nodes *)

Definition vp (account : string) (n : Z) : Node := MkNode account VPNode ("pid" +:+ account) n false EmptyString ∅ EmptyString GovernanceAvailable.
Definition vps : list Node := [vp "v1" 1; vp "v2" 2; vp "v3" 3; vp "v4" 4; vp "v5" 5].

(** Five validating nodes. *)
Definition wn : world :=
  w_setState (w_setState w0 "node" "all" (marshal vps)) "node" (NodeKey "v5") (marshal (vp "v5" 5)).
Definition node_ctx : Context := Sample.call_of "a" "a" "node".

Lemma vp_ids_fresh_witness : (5 < 6)%Z ∧ validating (vp "v5" 5) = true ∧ vp "v5" 5 ∈ nodes_in node_ctx wn.
Proof.
  assert (vp "v5" 5 ∈ nodes_in node_ctx wn) as Hin by (apply (bool_decide_unpack _); vm_compute; exact I).
  split; [|split; [reflexivity|exact Hin]].
  refine (vp_ids_fresh node_ctx (vp "v6" 6) wn None wn _ _ _ _ (vp "v5" 5) Hin _).
  - vm_compute. reflexivity.
  - reflexivity.
  - vm_compute. split; [intros [=]|reflexivity].
  - assert (Forall (λ n, 0 ≤ nd_VPNodeId n < MaxInt64)%Z (nodes_in node_ctx wn)) as Ha by (apply (bool_decide_unpack _); vm_compute; exact I).
    intros n Hn. rewrite Forall_forall in Ha. apply Ha, Hn.
  - reflexivity.
Defined.

Definition logged_out : option Response * world := exec (LogoutNode (@Manage _ _ _ _ _ manage) node_ctx "v5" "old") wn.
Definition logged_out_data : option string := match logged_out.1 with Some (Success data) => data | _ => None end.

Lemma vp_logout_guarded_witness : nd_Primary (vp "v5" 5) = false ∧
  ∃ text num w2, exec (rg_CountAvailable (O := Node) node_ctx (Some VPNode)) wn = (Some (true, text), w2) ∧
    Atoi (default EmptyString text) = Some num ∧ (MinimumVPNode < num)%Z.
Proof.
  refine (proj2 (vp_logout_guarded node_ctx (@Manage _ _ _ _ _ manage) "v5" "old" wn logged_out_data logged_out.2 (vp "v5" 5) wn _ _ _)).
  - vm_compute. reflexivity.
  - reflexivity.
  - vm_compute. reflexivity.
Defined.

(** ** Services *)

Definition svc : ServiceInfo :=
  MkServiceInfo "x" "s" "swap" ServiceCallContract "i" true ∅ "d" 7 (S754_zero false) ∅ 0 (S754_zero false) ∅ GovernanceAvailable.
Definition ws : world := w_setState w0 "sm" (ServiceKey "x:s") (marshal svc).
Definition recorded : option Response * world := exec (RecordInvokeService (Sample.call_of "o" "ic" "sm") "1:x:s" "1:y:t" true) ws.

(** The share of successful calls that a service shows is not that share: after a single call, which succeeded, it
is one half. *)
Theorem first_success_counts_half :
  recorded.1 = Some (Success None) ∧
  ∃ s, object_at (Sample.call_of "o" "ic" "sm") recorded.2 (ServiceKey "x:s") = Some s ∧
    si_InvokeCount s = 1%Z ∧ si_InvokeSuccessRate s = f64_div (f64_of_Z 1) (f64_of_Z 2).
Proof. split; [vm_compute; reflexivity|]. eexists. split; [vm_compute; reflexivity|]. split; vm_compute; reflexivity. Qed.

(** ** Chains *)

Definition chain : Appchain := MkAppchain "x" "chain" "ETH" (Some "root") None "d" 0 GovernanceUpdating "did" None.
Definition new_chain : UpdateAppchainInfo :=
  MkUpdateAppchain (MkUpdateInfo "chain" "chain" false) (MkUpdateInfo "d" "d" false)
    (MkUpdateBytes (Some "root") (Some "new") true) (MkUpdateInfo "o,p" "o,q" true).

(** The accounts of the old and of the new administrators are taken while the proposal is open. *)
Definition wc : world :=
  let take w a := w_setState w "role" (OccupyAccountKey a) (marshal AppchainAdmin) in
  take (take (take (w_setState w0 "am" (AppchainKey "x") (marshal chain)) "o") "p") "q".
Definition changed : option Response * world :=
  exec (chain_Manage (@Manage _ _ _ _ _ manage) (gov_ctx "am") EventUpdate APPROVED GovernanceAvailable "x" (marshal new_chain)) wc.

(** When a change of a chain is approved, the text of the new trust root in base 64 is stored instead of the trust root;
and an administrator who stays keeps his role, but his account is given back, so that it can be taken for another role. *)
Theorem approved_chain_update :
  changed.1 = Some (Success None) ∧
  (ac_TrustRoot <$> object_at (gov_ctx "am") changed.2 (AppchainKey "x")) = Some (Some (base64 "new")) ∧
  base64 "new" ≠ "new" ∧
  (exec (GetRoleInfoById (gov_ctx "role") "o") changed.2).1 =
    Some (Success (marshal (MkRole "o" AppchainAdmin 0 EmptyString "x" GovernanceAvailable))) ∧
  (exec (CheckOccupiedAccount (gov_ctx "role") "o") changed.2).1 = Some (Success None).
Proof. split_and!; try (vm_compute; reflexivity). discriminate. Qed.


(** ** Names *)

(** Alice registers a name and gives a name below it to Bob; two administrators approve. *)
Definition b0 : world :=
  (exec Genesis.initBNSData (MkWorld (w_state w0) (λ _, 10 ^ 18)%Z (w_nonce w0) (w_codehash w0) (w_events w0))).2.
Definition at_names : Context := NamesSample.at_time NamesSample.alice 1700000000.
Definition b1 : world := (exec (bns_Register at_names "shop" 100 "resolver") b0).2.
Definition asked : option Response * world :=
  exec (AllocateSubDomain at_names "shop.hub" "till" NamesSample.bob "resolver" "1:a:s") b1.
Definition till_id : string := NamesSample.alice +:+ "-0".
Definition b2 : world := (exec (Vote (@Manage _ _ _ _ _ manage) (Sample.vote_ctx "a") till_id BallotApprove "yes") asked.2).2.
Definition b3 : world := (exec (Vote (@Manage _ _ _ _ _ manage) (Sample.vote_ctx "b") till_id BallotApprove "yes") b2).2.

Example name_by_proposal :
  owner_of b2 "till.shop.hub" = None ∧ owner_of b3 "till.shop.hub" = Some NamesSample.bob ∧
  p_Status (Sample.prop_at b3 till_id) = APPROVED.
Proof. split_and!; vm_compute; reflexivity. Qed.
End RegistrySample.
