(* ===== verification/PipelineSample.v ===== *)
(** * Concrete instances for the execution of blocks

A node executes a block with a transfer and a message between chains, and a node writes the first block. *)
From Stdlib Require Import Ascii.
From S2P Require Import Prelude Btree Storage Account StateLedger LedgerTheorems BlockTheorems Contract.
From S2P Require Import StateLedgerProps LedgerRefinement Governance Strategy Registry Nodes RoleManager Names Genesis RegistryInstances NamesSample.
From S2P Require Import TransactionManager Interchain CrossChainSample Role GovernanceInstances Executor Transactions ExecutorSample.
From S2P Require Import ProofPool Blocks TxExecutor ChainLedger ChainLedgerProps ChainSample Pipeline PipelineProps.

(** Relay chains are not verified here; the chains of this relay chain have no rules. *)
Definition proof_lib : ProofLib :=
  {| ProofChain := unit; pc_TrustRoot _ := None; proofchain_encoding := {| marshal _ := None; unmarshal _ := None |};
     ProofRule := unit; pr_Address _ := EmptyString; pr_Status _ := EmptyString;
     proofrules_encoding := {| marshal _ := None; unmarshal _ := None |};
     AppchainKey id := "appchain-" +:+ id; RuleKey id := "rule-" +:+ id;
     validators_encoding := {| marshal _ := None; unmarshal _ := None |};
     bxhproof_encoding := {| marshal _ := None; unmarshal _ := None |};
     payload_Hash := Some; type_number _ := 0%Z; Sum256 s := s; Keccak256 s := s; Ecrecover _ _ := None;
     PublicKey := unit; UnmarshalPublicKey _ := None; pk_Address _ := None;
     ve_Validate _ _ _ _ _ := mret (true, 0%Z, None) |}.

(** A text that determines a string and what follows it. *)
Definition counted (s : string) : string := fmt_d (Z.of_nat (String.length s)) +:+ String colon s.

Lemma string_app_length_inj (s1 s2 t1 t2 : string) :
  String.length s1 = String.length s2 → s1 +:+ t1 = s2 +:+ t2 → s1 = s2 ∧ t1 = t2.
Proof.
  revert s2. induction s1 as [|c s1 IH]; intros [|c2 s2] Hl E; cbn in Hl; [done|lia|lia|].
  rewrite !string_app_cons in E. injection E as -> E. destruct (IH s2) as [-> ->]; [lia|done|done].
Qed.

Lemma until_sep_inj sep (a b r1 r2 : string) :
  str_contains sep a = false → str_contains sep b = false → a +:+ String sep r1 = b +:+ String sep r2 → a = b ∧ r1 = r2.
Proof.
  revert b. induction a as [|c a IH]; intros [|c2 b] Ha Hb E; rewrite ?string_app_cons in E.
  - by injection E.
  - injection E as <- _. cbn in Hb. rewrite bool_decide_true in Hb by done. discriminate Hb.
  - injection E as -> _. cbn in Ha. rewrite bool_decide_true in Ha by done. discriminate Ha.
  - injection E as -> E. cbn in Ha, Hb. apply orb_false_iff in Ha as [_ Ha], Hb as [_ Hb].
    by destruct (IH b Ha Hb E) as [-> ->].
Qed.

Lemma counted_inj s1 s2 t1 t2 : counted s1 +:+ t1 = counted s2 +:+ t2 → s1 = s2 ∧ t1 = t2.
Proof.
  unfold counted. rewrite !string_app_assoc, !string_app_cons. intros E.
  apply until_sep_inj in E as [E1 E2]; [|apply fmt_d_no_sep; [by right; right|lia]..].
  apply fmt_d_inj in E1. apply string_app_length_inj in E2; [done|lia].
Qed.

(** Hashes that determine what is hashed. *)
Definition header_text (h : BlockHeader) : string :=
  counted (fmt_d (bh_Number h)) +:+ counted (fmt_d (bh_Timestamp h)) +:+ counted (bh_ParentHash h) +:+ counted (bh_StateRoot h) +:+
  counted (bh_TxRoot h) +:+ counted (bh_ReceiptRoot h) +:+ counted (bh_TimeoutRoot h) +:+ EmptyString.

Definition merkle_lib : MerkleLib :=
  {| MerkleRoot l := Some (String.concat "," l); header_Hash := header_text; receipt_Hash r := rc_TxHash r |}.

Lemma merkle_header_inj h1 h2 : @header_Hash merkle_lib h1 = @header_Hash merkle_lib h2 → h1 = h2.
Proof.
  cbn. unfold header_text. destruct h1, h2; cbn.
  intros ([= ->%fmt_d_inj] & ([= ->%fmt_d_inj] & (-> & (-> & (-> & (-> & (-> & _)%counted_inj)%counted_inj)%counted_inj)%counted_inj)%counted_inj)%counted_inj)%counted_inj.
  done.
Qed.

Module PipelineSample.
Import LedgerSample CrossChain ExecutorSample ChainSample.
Local Existing Instance storage_by_map.
Local Existing Instance lru_by_list.
Local Existing Instance address_plain.
Local Existing Instance hash_plain.
Local Existing Instance inner_by_encode.
Local Existing Instance range_by_encoding.
Local Existing Instance access_by_sets.
Local Existing Instance file_by_list.
Local Existing Instance chain_lib.
Local Existing Instance merkle_lib.
Local Existing Instance tx_lib.
Local Existing Instance constants.
Local Existing Instance pb_lib.
Local Existing Instance services.
Local Existing Instance peers.
Local Existing Instance fsm_by_filter.
Local Existing Instance bvm_lib.
Local Existing Instance event_lib.
Local Existing Instance gov_lib.
Local Existing Instance gov_addrs.
Local Existing Instance proof_lib.
Definition journal_encoding : Encoding BlockJournal := encoding_by_encode BlockJournal.
Local Existing Instance journal_encoding.

Definition n0 : Node := MkNode l0 empty 0 (Some zeroHash) out0.

Lemma n0_ok : node_ok zeroHash [] n0.
Proof. split; [apply empty_represents|done|done|done|constructor|by intros i e Hi]. Qed.

Definition process (n : Node) (block : Block) : option Node :=
  processExecuteEvent contracts (λ _, false) (λ _ _ _, Panic) (λ _, no_evm) "reverted" (λ a _, a) "0" (λ a b, bool_decide (a = b))
    (be false) "serial" [0] n (MkBlockWrapper block ∅).

Definition next_block (number : Z) (txs : list Transaction) : Block :=
  MkBlock (MkBlockHeader number 7 "" "" "" "" "") txs "" None None.

Definition txs1 : list Transaction := [BxhTx (transfer_tx "5"); BxhTx (ibtp_tx (request 1))].

(** What is seen of a node. *)
Definition heights (n : option Node) : option (Z * Z * Z) :=
  option_map (λ n, (currentHeight n, cm_Height (chainMeta (n_chain n)), maxJnlHeight (n_state n))) n.

Definition node_after (n : option Node) : Node := match n with Some n => n | None => n0 end.
Definition n1 : Node := node_after (process n0 (next_block 1 txs1)).

(** The first block is put on the empty chain. *)
Lemma processExecuteEvent_ok_witness :
  heights (Some n1) = Some (1, 1, 1)%Z ∧ ∃ e, en_txs e = txs1 ∧ node_ok zeroHash [e] n1.
Proof.
  assert (heights (process n0 (next_block 1 txs1)) = Some (1, 1, 1)%Z) as Hh by (vm_compute; reflexivity).
  destruct (process n0 (next_block 1 txs1)) as [n|] eqn:E; [|discriminate Hh].
  assert (n1 = n) as -> by (unfold n1; rewrite E; reflexivity). split; [exact Hh|].
  destruct (processExecuteEvent_ok contracts (λ _, false) (λ _ _ _, Panic) (λ _, no_evm) "reverted" (λ a _, a) "0"
    (λ a b, bool_decide (a = b)) (be false) "serial" merkle_header_inj zeroHash [] [0] n0 (MkBlockWrapper (next_block 1 txs1) ∅) n n0_ok)
    as [->|(k & e & _ & Hk & Ht & Hok)].
  - split; [discriminate|reflexivity].
  - apply (bool_decide_unpack _). vm_compute. exact I.
  - intros x _ Hx. by apply elem_of_nil in Hx.
  - reflexivity.
  - exact E.
  - discriminate Hh.
  - exists e. destruct k as [|k]; [|cbn in Hk; lia]. split; [exact Ht|exact Hok].
Defined.

End PipelineSample.

(** ** The first block of a node

The data of the name service is written after the block was committed. *)
Module GenesisSample.
Import LedgerSample CrossChain ExecutorSample ChainSample PipelineSample NamesSample.
Local Existing Instance storage_by_map.
Local Existing Instance lru_by_list.
Local Existing Instance address_plain.
Local Existing Instance hash_plain.
Local Existing Instance inner_by_encode.
Local Existing Instance range_by_encoding.
Local Existing Instance access_by_sets.
Local Existing Instance file_by_list.
Local Existing Instance chain_lib.
Local Existing Instance merkle_lib.
Local Existing Instance tx_lib.
Local Existing Instance constants.
Local Existing Instance pb_lib.
Local Existing Instance services.
Local Existing Instance peers.
Local Existing Instance fsm_by_filter.
Local Existing Instance bvm_lib.
Local Existing Instance event_lib.
Local Existing Instance gov_lib.
Local Existing Instance gov_json.
Local Existing Instance proposal_json.
Local Existing Instance gov_addrs.
Local Existing Instance role_lib.
Local Existing Instance node_lib.
Local Existing Instance name_lib.
Local Existing Instance genesis_lib.
Local Existing Instance journal_encoding.

(** A node with empty stores. *)
Definition fresh : Pipeline.Node :=
  Pipeline.MkNode (MkSimpleLedger _ _ _ (MkShared _ _ (∅ : gmap string string) NewAccountCache {[0 := newChanger]})
    0 0 ∅ ∅ ∅ zeroHash 0 [] 0 0 1 NewAccessList ∅ 0 NewEvmLogs) empty 0 (Some zeroHash) out0.

Definition started : option (bool * Pipeline.Node) := Initialize config network 2 built_in 7 fresh.
Definition node1 : Pipeline.Node := match started with Some (_, n) => n | None => fresh end.

(** The same node when it opens its stores again. *)
Definition reopened : Pipeline.Node :=
  match Pipeline.New (blockchainStore (n_chain node1)) (sh_ldb (l_shared (n_state node1))) (bf (n_chain node1)) None out0 with
  | Some (Some n) => n
  | _ => fresh
  end.

Definition reads (n : Pipeline.Node) (addr key : string) : option string := state_view (n_state n) addr key.

(** The number of the relay chain is still there, the prices are not. *)
Example names_lost :
  option_map fst started = Some true ∧ heights (Some node1) = Some (0, 1, 1)%Z ∧ heights (Some reopened) = Some (1, 1, 1)%Z ∧
  reads node1 "ic" BitXHubID = Some "1356" ∧ reads reopened "ic" BitXHubID = Some "1356" ∧
  reads node1 "names" PriceLenLevel = marshal genesis_prices ∧ reads reopened "names" PriceLenLevel = None.
Proof. split_and!; vm_compute; reflexivity. Qed.
End GenesisSample.
