(* ===== verification/Syncer.v ===== *)
(** * Fetching blocks from other nodes: [src/pkg/order/syncer/state_syncer.go]

A node that is behind asks the others for ranges of blocks. Without Byzantine nodes it takes the blocks of any node that
answers ([SyncCFTBlocks]); otherwise it takes the headers that a quorum of nodes agrees on, and blocks that have their
hashes ([SyncBFTBlocks]). The answers of the others are parameters, [None] is an error; nodes that follow the protocol
serve the blocks of their ledger ([handleGetBlocksPack] of [src/pkg/peermgr/handle.go]). What is sent on the channel is
a list, in which [None] is the nil that ends it. *)
From Stdlib Require Import Ascii.
From S2P Require Import Prelude Storage Account StateLedger Contract TransactionManager Interchain Executor Transactions Blocks ChainLedger ChainLedgerProps ProofPool TxExecutor Role Pipeline PipelineProps.
From S2P Require Import CrossChainSample ExecutorSample ChainSample PipelineSample.

Record rangeHeight := MkRange { r_begin : Z; r_end : Z }.

Record StateSyncer := MkSyncer {
  blockFetch : Z;
  sy_quorum : Z;
  sy_peerIds : list Z;
  badPeers : gset Z }.

Definition defaultBlockFetch : Z := 5.

(** [None] is the error. *)
Definition NewStateSyncer (blockFetch quorum : Z) (peerIds : list Z) : option StateSyncer :=
  let blockFetch := if decide (blockFetch = 0)%Z then defaultBlockFetch else blockFetch in
  if decide (quorum ≤ 0)%Z then None else Some (MkSyncer blockFetch quorum peerIds ∅).

(** ** Ranges *)

(** The loop of [calcRangeHeight]; [None]: it is not over after [fuel] rounds. *)
Fixpoint calcRanges (blockFetch : Z) (fuel : nat) (startNo begin end_ : Z) : option (list rangeHeight) :=
  if decide (begin ≤ end_)%Z
  then
    match fuel with
    | 0 => None
    | S fuel =>
        let rangeEnd := u64 ((startNo +u 1) * blockFetch) in
        let rangeEnd := if decide (end_ < rangeEnd)%Z then end_ else rangeEnd in
        rest ← calcRanges blockFetch fuel (startNo +u 1) (rangeEnd +u 1) end_;
        Some (MkRange begin rangeEnd :: rest)
    end
  else Some [].

(** The inner [None] is the error. *)
Definition calcRangeHeight (blockFetch : Z) (fuel : nat) (begin end_ : Z) : option (option (list rangeHeight)) :=
  if decide (end_ < begin)%Z then Some None
  else Some <$> calcRanges blockFetch fuel (begin / blockFetch)%Z begin end_.

(** Enough rounds when nothing wraps around. *)
Definition range_fuel (begin end_ : Z) : nat := S (Z.to_nat (end_ - begin)).

Section syncer.
Context `{ChainLib, MerkleLib, GoRange}.
Context (Send_headers : Z → Z → Z → option (list BlockHeader)) (Send_blocks : Z → Z → Z → option (list Block)).

Definition fetchBlockHeaders (id begin end_ : Z) : option (list BlockHeader) :=
  if decide (end_ < begin)%Z then None else Send_headers id begin end_.

Definition fetchBlocks (id begin end_ : Z) : option (list Block) :=
  if decide (end_ < begin)%Z then None else Send_blocks id begin end_.

(** ** Checks *)

(** Every header points to the one before it, the first one to [parentHash]. *)
Fixpoint headers_linked (parentHash : string) (headers : list BlockHeader) : bool :=
  match headers with
  | [] => true
  | header :: headers => bool_decide (parentHash = bh_ParentHash header) && headers_linked (header_Hash header) headers
  end.

Definition verifyBlockHeaders (parentHash : option string) (headers : list BlockHeader) : bool :=
  match parentHash, headers with
  | Some parentHash, _ :: _ => headers_linked parentHash headers
  | _, _ => false
  end.

Definition verifyBlock (header : BlockHeader) (block : Block) : bool := bool_decide (header_Hash header = b_BlockHash block).

(** [None] is the panic of an index out of range. *)
Fixpoint verifyBlocks (headers : list BlockHeader) (blocks : list Block) : option bool :=
  match blocks, headers with
  | [], _ => Some true
  | _ :: _, [] => None
  | block :: blocks, header :: headers => if verifyBlock header block then verifyBlocks headers blocks else Some false
  end.

(** ** Headers of a quorum *)

(** How many nodes have sent headers that end with a hash, and the headers. *)
Record Tally := MkTally { latestBlockHeaderCounter : gmap string Z; blockHeadersM : gmap string (list BlockHeader) }.

Definition no_tally : Tally := MkTally ∅ ∅.

Definition fetchAndVerifyBlockHeaders (r : rangeHeight) (parentBlockHash : option string) (id : Z) (t : Tally) (bad : gset Z) :
    Tally * gset Z :=
  match fetchBlockHeaders id (r_begin r) (r_end r) with
  | None => (t, bad)
  | Some headers =>
      match verifyBlockHeaders parentBlockHash headers, last headers with
      | true, Some latest =>
          let blockHash := hash_String (header_Hash latest) in
          (MkTally (<[blockHash := default 0%Z (latestBlockHeaderCounter t !! blockHash) +u 1]> (latestBlockHeaderCounter t))
                   (<[blockHash := headers]> (blockHeadersM t)), bad)
      | _, _ => (t, {[id]} ∪ bad)
      end
  end.

(** The loop over the nodes. *)
Fixpoint quorumHeaders (quorum : Z) (r : rangeHeight) (parentBlockHash : option string) (ids : list Z) (t : Tally) (bad : gset Z) :
    option (list BlockHeader) * gset Z :=
  match ids with
  | [] => (None, bad)
  | id :: ids =>
      let '(t, bad) := fetchAndVerifyBlockHeaders r parentBlockHash id t bad in
      match List.find (λ e : string * Z, bool_decide (quorum ≤ e.2)%Z) (go_range (latestBlockHeaderCounter t)) with
      | Some (hash, _) => (blockHeadersM t !! hash, bad)
      | None => quorumHeaders quorum r parentBlockHash ids t bad
      end
  end.

(** [None] is nil: there is no quorum. *)
Definition syncQuorumRangeBlockHeaders (s : StateSyncer) (r : rangeHeight) (parentBlockHash : option string) (bad : gset Z) :
    option (list BlockHeader) * gset Z :=
  quorumHeaders (sy_quorum s) r parentBlockHash (sy_peerIds s) no_tally bad.

(** ** Blocks of the headers *)

(** The empty list is nil. *)
Fixpoint rangeBlocks (headers : list BlockHeader) (begin end_ : Z) (ids : list Z) (bad : gset Z) :
    option (list Block * gset Z) :=
  match ids with
  | [] => Some ([], bad)
  | id :: ids =>
      match fetchBlocks id begin end_ with
      | None => rangeBlocks headers begin end_ ids ({[id]} ∪ bad)
      | Some blocks =>
          ok ← verifyBlocks headers blocks;
          if (ok : bool)
          then match blocks with [] => rangeBlocks headers begin end_ ids bad | _ => Some (blocks, bad) end
          else rangeBlocks headers begin end_ ids ({[id]} ∪ bad)
      end
  end.

(** [None] is a panic. *)
Definition syncRangeBlocks (s : StateSyncer) (headers : list BlockHeader) (bad : gset Z) : option (list Block * gset Z) :=
  first ← head headers;
  latest ← last headers;
  rangeBlocks headers (bh_Number first) (bh_Number latest) (sy_peerIds s) bad.

Fixpoint syncBFTRanges (s : StateSyncer) (rs : list rangeHeight) (parentBlockHash : option string) (bad : gset Z) :
    option (bool * list (option Block) * gset Z) :=
  match rs with
  | [] => Some (true, [None], bad)
  | r :: rs =>
      match syncQuorumRangeBlockHeaders s r parentBlockHash bad with
      | (None, bad) => Some (false, [], bad)
      | (Some headers, bad) =>
          '(blocks, bad) ← syncRangeBlocks s headers bad;
          match last blocks with
          | None => Some (false, [], bad)
          | Some latest =>
              '(ok, sent, bad) ← syncBFTRanges s rs (Some (header_Hash (b_Header latest))) bad;
              Some (ok, (Some <$> blocks) ++ sent, bad)
          end
      end
  end.

(** Whether there was no error, what was sent, and the state; [None] is a panic, or a loop that is not over. *)
Definition SyncBFTBlocks (s : StateSyncer) (fuel : nat) (begin end_ : Z) (metaHash : option string) :
    option (bool * list (option Block) * StateSyncer) :=
  rangeHeights ← calcRangeHeight (blockFetch s) fuel begin end_;
  match rangeHeights with
  | None => Some (false, [], s)
  | Some rs =>
      '(ok, sent, bad) ← syncBFTRanges s rs metaHash (badPeers s);
      Some (ok, sent, MkSyncer (blockFetch s) (sy_quorum s) (sy_peerIds s) bad)
  end.

(** ** Blocks of any node *)

(** The node with a random index among those that are not bad; [None] is the error. *)
Definition randPeers (s : StateSyncer) (bad : gset Z) (rand : nat) : option Z :=
  let ids := filter (λ id, id ∉ bad) (sy_peerIds s) in
  ids !! (rand `mod` length ids).

(** The attempts for one range, with the random numbers from [k] on; they go on until one succeeds. [None]: not yet after
[fuel] attempts. *)
Fixpoint retryRange (s : StateSyncer) (rand : nat → nat) (fuel k : nat) (r : rangeHeight) (bad : gset Z) :
    option (list Block * gset Z * nat) :=
  match fuel with
  | 0 => None
  | S fuel =>
      match randPeers s bad (rand k) with
      | None => retryRange s rand fuel (S k) r bad
      | Some id =>
          match fetchBlocks id (r_begin r) (r_end r) with
          | None => retryRange s rand fuel (S k) r ({[id]} ∪ bad)
          | Some blocks => Some (blocks, bad, S k)
          end
      end
  end.

Fixpoint syncCFTRanges (s : StateSyncer) (rand : nat → nat) (fuel k : nat) (rs : list rangeHeight) (bad : gset Z) :
    option (list (option Block) * gset Z) :=
  match rs with
  | [] => Some ([None], bad)
  | r :: rs =>
      '(blocks, bad, k) ← retryRange s rand fuel k r bad;
      '(sent, bad) ← syncCFTRanges s rand fuel k rs bad;
      Some ((Some <$> blocks) ++ sent, bad)
  end.

Definition SyncCFTBlocks (s : StateSyncer) (rand : nat → nat) (attempts fuel : nat) (begin end_ : Z) :
    option (bool * list (option Block) * StateSyncer) :=
  rangeHeights ← calcRangeHeight (blockFetch s) fuel begin end_;
  match rangeHeights with
  | None => Some (false, [], s)
  | Some rs =>
      '(sent, bad) ← syncCFTRanges s rand attempts 0 rs (badPeers s);
      Some (true, sent, MkSyncer (blockFetch s) (sy_quorum s) (sy_peerIds s) bad)
  end.
End syncer.

(** ** Nodes that answer: [handle.go] *)

(** The heights from [start] to [end_]. *)
Definition heights_of (start end_ : Z) : list Z := seqZ start (end_ - start + 1).

Definition handleGetBlockHeadersPack `{StorageLib, BlockFileLib, ChainLib} (l : ChainLedgerImpl) (start end_ : Z) :
    option (list BlockHeader) :=
  mapM (λ i, b_Header <$> GetBlock l i false) (heights_of start end_).

Definition handleGetBlocksPack `{StorageLib, BlockFileLib, ChainLib} (l : ChainLedgerImpl) (start end_ : Z) :
    option (list Block) :=
  mapM (λ i, GetBlock l i true) (heights_of start end_).

(** ** Execution: [recoverFromSnapshot] of [etcdraft/util.go] *)

(** The events for the executor, and the height after them; the blocks that are not next are dropped. *)
Fixpoint executeSynced (lastExec : Z) (sent : list (option Block)) : list CommitEvent * Z :=
  match sent with
  | [] | None :: _ => ([], lastExec)
  | Some block :: sent =>
      if decide (bh_Number (b_Header block) = lastExec +u 1)
      then
        let '(evs, last) := executeSynced (bh_Number (b_Header block)) sent in
        (MkCommitEvent block (replicate (length (b_Transactions block)) false) :: evs, last)
      else executeSynced lastExec sent
  end.

(** ** Ranges cover the heights *)

Lemma heights_cons b e : (b ≤ e)%Z → heights_of b e = b :: heights_of (b + 1) e.
Proof. intros Hbe. unfold heights_of. rewrite seqZ_cons by lia. f_equal. f_equal; lia. Qed.

Lemma heights_nil b e : (e < b)%Z → heights_of b e = [].
Proof. intros Hbe. unfold heights_of. by rewrite seqZ_nil by lia. Qed.

Lemma heights_app b m e : (b ≤ m + 1 ≤ e + 1)%Z → heights_of b m ++ heights_of (m + 1) e = heights_of b e.
Proof.
  intros Hm. unfold heights_of. replace (e - b + 1)%Z with ((m - b + 1) + (e - (m + 1) + 1))%Z by lia.
  rewrite (seqZ_app b (m - b + 1)) by lia. do 2 f_equal; lia.
Qed.

Definition range_heights (r : rangeHeight) : list Z := heights_of (r_begin r) (r_end r).

Lemma calcRanges_cover bf fuel startNo begin end_ :
  (0 < bf)%Z → (0 ≤ begin)%Z → (end_ + bf < 2 ^ 64)%Z → (begin ≤ end_ + 1)%Z → (0 ≤ startNo)%Z →
  (startNo * bf ≤ begin ≤ (startNo + 1) * bf)%Z → Z.to_nat (end_ + 1 - begin) ≤ fuel →
  ∃ rs, calcRanges bf fuel startNo begin end_ = Some rs ∧ rs ≫= range_heights = heights_of begin end_ ∧
    Forall (λ r, r_begin r ≤ r_end r ≤ end_ ∧ r_end r - r_begin r ≤ bf)%Z rs.
Proof.
  intros Hbf. revert startNo begin. induction fuel as [|fuel IH]; intros startNo begin Hb He Hbe Hs Hinv Hfuel; cbn [calcRanges].
  - rewrite decide_False by lia. exists []. by rewrite heights_nil by lia.
  - case_decide as Hle; [|exists []; by rewrite heights_nil by lia].
    assert (0 ≤ (startNo + 1) * bf < 2 ^ 64)%Z as Hmul by nia. assert (startNo + 1 < 2 ^ 64)%Z by nia.
    rewrite (u64_small (startNo + 1)) by (unfold is_u64; lia). rewrite (u64_small (_ * _)) by (unfold is_u64; lia).
    set (re := if decide (end_ < (startNo + 1) * bf)%Z then end_ else ((startNo + 1) * bf)%Z).
    assert (begin ≤ re ≤ end_ ∧ re ≤ (startNo + 1) * bf)%Z as Hre by (unfold re; case_decide; lia).
    rewrite (u64_small (re + 1)) by (unfold is_u64; lia).
    assert (∃ rs, calcRanges bf fuel (startNo + 1) (re + 1) end_ = Some rs ∧ rs ≫= range_heights = heights_of (re + 1) end_ ∧
      Forall (λ r, r_begin r ≤ r_end r ≤ end_ ∧ r_end r - r_begin r ≤ bf)%Z rs) as (rs & -> & Hrs & Hf).
    { destruct (Z.lt_ge_cases end_ ((startNo + 1) * bf)) as [Hlt|Hge].
      - exists []. assert (re = end_) as -> by (unfold re; by rewrite decide_True). rewrite heights_nil by lia.
        destruct fuel; cbn [calcRanges]; by rewrite decide_False by lia.
      - assert (re = (startNo + 1) * bf)%Z as Ere by (unfold re; by rewrite decide_False by lia). apply IH; try lia; nia. }
    exists (MkRange begin re :: rs). split; [done|]. split.
    + cbn. rewrite Hrs. unfold range_heights. cbn. apply heights_app. lia.
    + apply Forall_cons. cbn. split; [nia|done].
Qed.

Lemma calcRangeHeight_ranges bf begin end_ :
  (0 < bf)%Z → (0 ≤ begin ≤ end_)%Z → (end_ + bf < 2 ^ 64)%Z →
  ∃ rs, calcRangeHeight bf (range_fuel begin end_) begin end_ = Some (Some rs) ∧ rs ≫= range_heights = heights_of begin end_ ∧
    Forall (λ r, r_begin r ≤ r_end r ≤ end_ ∧ r_end r - r_begin r ≤ bf)%Z rs.
Proof.
  intros Hbf Hb He. unfold calcRangeHeight, range_fuel. rewrite decide_False by lia.
  destruct (calcRanges_cover bf (S (Z.to_nat (end_ - begin))) (begin / bf) begin end_) as (rs & -> & Hrs & Hf); try lia.
  - apply Z.div_pos; lia.
  - pose proof (Z.mul_div_le begin bf). pose proof (Z.mul_succ_div_gt begin bf). nia.
  - by exists rs.
Qed.

(** C32: When the number of blocks per request is positive, begin is not after end and end plus that number is below
2^64, the heights to fetch are cut into ranges, in order, without gaps or overlaps, of at most one more than the
configured number of blocks, and the loop ends. With an end of 2^64 - 1 it does not end ([calcRanges_never_ends]). *)
Theorem calcRangeHeight_cover bf begin end_ :
  (0 < bf)%Z → (0 ≤ begin ≤ end_)%Z → (end_ + bf < 2 ^ 64)%Z →
  ∃ rs, calcRangeHeight bf (range_fuel begin end_) begin end_ = Some (Some rs) ∧
    rs ≫= range_heights = heights_of begin end_ ∧
    Forall (λ r, r_begin r ≤ r_end r ∧ Z.of_nat (length (range_heights r)) ≤ bf + 1)%Z rs.
Proof.
  intros Hbf Hb He. destruct (calcRangeHeight_ranges bf begin end_ Hbf Hb He) as (rs & E & Hrs & Hf). exists rs. split_and!; [done|done|].
  eapply Forall_impl; [exact Hf|]. cbn. intros r Hr. split; [lia|]. unfold range_heights, heights_of. rewrite length_seqZ. lia.
Qed.

(** The loop does not end when the last height is the greatest number: the next begin is always in range. *)
Theorem calcRanges_never_ends bf fuel startNo begin : is_u64 begin → calcRanges bf fuel startNo begin MaxUint64 = None.
Proof.
  revert startNo begin. induction fuel as [|fuel IH]; intros startNo begin Hb; cbn [calcRanges];
    (rewrite decide_True by (unfold is_u64, MaxUint64 in *; lia)); [done|]. by rewrite IH by apply u64_range.
Qed.

(** ** Nodes with the same chain *)

Section agreement.
Context `{StorageLib, LruLib, AddressLib, InnerAccountLib, AccessListLib, BlockFileLib, ChainLib, MerkleLib, GoRange, ServiceLib, !EventLib}.
Implicit Types (chain : list entry) (l : ChainLedgerImpl).

Definition header_of (e : entry) : BlockHeader := b_Header (en_block e).

(** A chain of blocks as nodes keep it: the hash of a block is that of its header, and blocks point to the ones before. *)
Record chain_ok (genesis : string) chain : Prop := {
  ck_hash : Forall (λ e, en_hash e = header_Hash (header_of e)) chain;
  ck_linked : linked genesis chain;
  ck_number i e : chain !! i = Some e → en_number e = (Z.of_nat i + 1)%Z }.

(** Every node that has executed blocks has such a chain. *)
Lemma node_chain_ok genesis chain n : node_ok genesis chain n → chain_ok genesis chain ∧ represents chain (n_chain n).
Proof.
  intros [Hrep _ _ _ Hsealed Hlinked]. split; [|done]. split; [|done|apply Hrep].
  eapply Forall_impl; [exact Hsealed|]. intros e He. apply (se_hash _ He).
Qed.

(** The blocks from height [b] to height [e]. *)
Definition segment chain (b e : Z) : list entry := take (Z.to_nat (e - b + 1)) (drop (Z.to_nat (b - 1)) chain).

Lemma serve_loop {A} (f : Z → option A) (g : entry → A) chain i n :
  (∀ j e, chain !! j = Some e → f (Z.of_nat j + 1)%Z = Some (g e)) → i + n ≤ length chain →
  mapM f (seqZ (Z.of_nat i + 1) (Z.of_nat n)) = Some (g <$> take n (drop i chain)).
Proof.
  intros Hf. revert i. induction n as [|n IH]; intros i Hn; [done|]. rewrite seqZ_cons by lia.
  destruct (lookup_lt_is_Some_2 chain i) as [e He]; [lia|]. rewrite (drop_S _ _ _ He). cbn. rewrite (Hf _ _ He). cbn.
  replace (Z.succ (Z.of_nat i + 1)) with (Z.of_nat (S i) + 1)%Z by lia. replace (Z.pred (Z.of_nat (S n))) with (Z.of_nat n) by lia.
  by rewrite IH by lia.
Qed.

Lemma serve_range {A} (f : Z → option A) (g : entry → A) chain b e :
  (∀ j e, chain !! j = Some e → f (Z.of_nat j + 1)%Z = Some (g e)) → (1 ≤ b ≤ e)%Z → (e ≤ Z.of_nat (length chain))%Z →
  mapM f (heights_of b e) = Some (g <$> segment chain b e).
Proof.
  intros Hf Hb He. unfold heights_of, segment. pose proof (serve_loop f g chain (Z.to_nat (b - 1)) (Z.to_nat (e - b + 1)) Hf) as Hs.
  rewrite !Z2Nat.id in Hs by lia. replace (b - 1 + 1)%Z with b in Hs by lia. apply Hs. lia.
Qed.

Lemma serve_headers chain l b e :
  represents chain l → (1 ≤ b ≤ e)%Z → (e ≤ Z.of_nat (length chain))%Z →
  handleGetBlockHeadersPack l b e = Some (header_of <$> segment chain b e).
Proof.
  intros R Hb He. apply serve_range; [|done..]. intros j en Hj. by rewrite (represents_GetBlock_hashes _ _ _ _ R Hj).
Qed.

Lemma serve_blocks chain l b e :
  represents chain l → (1 ≤ b ≤ e)%Z → (e ≤ Z.of_nat (length chain))%Z →
  handleGetBlocksPack l b e = Some (en_block <$> segment chain b e).
Proof. intros R Hb He. apply serve_range; [|done..]. intros j en Hj. by apply (represents_GetBlock _ _ _ _ R). Qed.

(** The hash before height [b]. *)
Definition before genesis chain (b : Z) : string := tip genesis (take (Z.to_nat (b - 1)) chain).

Lemma chain_headers_linked genesis chain i n :
  chain_ok genesis chain → headers_linked (tip genesis (take i chain)) (header_of <$> take n (drop i chain)) = true.
Proof.
  intros Hc. revert i. induction n as [|n IH]; intros i; [done|].
  destruct (chain !! i) as [e|] eqn:He; [|by rewrite drop_ge by (by apply lookup_ge_None)].
  rewrite (drop_S _ _ _ He). cbn. rewrite bool_decide_true by (symmetry; by apply (ck_linked _ _ Hc)). cbn.
  rewrite <-(IH (S i)), (tip_take _ _ _ _ He). f_equal. symmetry. by apply (proj1 (Forall_lookup _ _) (ck_hash _ _ Hc) i).
Qed.

Lemma segment_cons chain b e : (1 ≤ b ≤ e)%Z → (e ≤ Z.of_nat (length chain))%Z →
  ∃ en, chain !! Z.to_nat (b - 1) = Some en ∧ segment chain b e = en :: segment chain (b + 1) e.
Proof.
  intros Hb He. destruct (lookup_lt_is_Some_2 chain (Z.to_nat (b - 1))) as [en Hen]; [lia|]. exists en. split; [done|].
  unfold segment. rewrite (drop_S _ _ _ Hen). replace (Z.to_nat (e - b + 1)) with (S (Z.to_nat (e - b))) by lia. cbn. do 3 f_equal; lia.
Qed.

Lemma segment_last chain b e : (1 ≤ b ≤ e)%Z → (e ≤ Z.of_nat (length chain))%Z →
  ∃ en, chain !! Z.to_nat (e - 1) = Some en ∧ last (segment chain b e) = Some en.
Proof.
  intros Hb He. destruct (lookup_lt_is_Some_2 chain (Z.to_nat (e - 1))) as [en Hen]; [lia|]. exists en. split; [done|].
  unfold segment. rewrite last_lookup, length_take, length_drop, lookup_take_lt, lookup_drop by lia. rewrite <-Hen. f_equal. lia.
Qed.

(** ** Agreement *)

Section peers.
Context (Send_headers : Z → Z → Z → option (list BlockHeader)) (Send_blocks : Z → Z → Z → option (list Block)).

Notation fetchHeaders := (fetchBlockHeaders Send_headers).

(** Whether a node has sent headers that are linked and end with the hash [k]. *)
Definition votes_for (r : rangeHeight) (parent : option string) (k : string) (id : Z) : bool :=
  match fetchHeaders id (r_begin r) (r_end r) with
  | None => false
  | Some hs => verifyBlockHeaders parent hs && bool_decide ((λ h, hash_String (header_Hash h)) <$> last hs = Some k)
  end.

Definition vote_count r parent k (ids : list Z) : nat := length (filter (λ id, votes_for r parent k id) ids).

(** What the tally says after the nodes [ids]. *)
Definition tally_ok r parent (ids : list Z) (t : Tally) : Prop :=
  ∀ k, match latestBlockHeaderCounter t !! k with
       | None => vote_count r parent k ids = 0
       | Some c => c = Z.of_nat (vote_count r parent k ids) ∧
           ∃ hs latest, blockHeadersM t !! k = Some hs ∧ verifyBlockHeaders parent hs = true ∧ last hs = Some latest ∧
             hash_String (header_Hash latest) = k
       end.

Lemma vote_count_snoc r parent k ids id :
  vote_count r parent k (ids ++ [id]) = vote_count r parent k ids + (if votes_for r parent k id then 1 else 0).
Proof.
  unfold vote_count. rewrite filter_app, length_app. f_equal. rewrite filter_cons, filter_nil. by destruct (votes_for r parent k id).
Qed.

Lemma vote_count_le r parent k ids : vote_count r parent k ids ≤ length ids.
Proof. apply length_filter. Qed.

Lemma verified_last parent hs : verifyBlockHeaders parent hs = true → is_Some (last hs).
Proof. unfold verifyBlockHeaders. destruct parent, hs as [|h hs]; try done. intros _. rewrite last_is_Some. done. Qed.

Lemma fetchAndVerify_ok r parent ids id t bad t' bad' :
  tally_ok r parent ids t → (Z.of_nat (length ids) + 1 < 2 ^ 64)%Z →
  fetchAndVerifyBlockHeaders Send_headers r parent id t bad = (t', bad') → tally_ok r parent (ids ++ [id]) t'.
Proof.
  intros Ht Hlen. unfold fetchAndVerifyBlockHeaders.
  assert ((∀ k, votes_for r parent k id = false) → tally_ok r parent (ids ++ [id]) t) as Hsame.
  { intros Hv k. specialize (Ht k). rewrite vote_count_snoc, Hv, Nat.add_0_r. exact Ht. }
  unfold votes_for in Hsame. destruct (fetchHeaders id (r_begin r) (r_end r)) as [hs|] eqn:Ef; [|intros [= <- <-]; by apply Hsame].
  destruct (verifyBlockHeaders parent hs) eqn:Ev; [|intros [= <- <-]; by apply Hsame].
  destruct (verified_last _ _ Ev) as [latest Hl]. rewrite Hl. intros [= <- <-] k.
  rewrite vote_count_snoc. unfold votes_for. rewrite Ef, Ev, Hl. cbn. specialize (Ht k). pose proof (vote_count_le r parent k ids).
  destruct (decide (hash_String (header_Hash latest) = k)) as [Hk|Hk].
  - subst k. rewrite !lookup_insert_eq, bool_decide_true by done. split; [|by exists hs, latest].
    destruct (latestBlockHeaderCounter t !! _) as [c|]; cbn; [destruct Ht as [-> _]|rewrite Ht];
      rewrite u64_small; unfold is_u64; lia.
  - rewrite !lookup_insert_ne, bool_decide_false, Nat.add_0_r by congruence. exact Ht.
Qed.

Lemma quorumHeaders_votes quorum r parent prev ids t bad hs bad' :
  tally_ok r parent prev t → (Z.of_nat (length (prev ++ ids)) < 2 ^ 64)%Z →
  quorumHeaders Send_headers quorum r parent ids t bad = (Some hs, bad') →
  ∃ latest, last hs = Some latest ∧ verifyBlockHeaders parent hs = true ∧
    (quorum ≤ Z.of_nat (vote_count r parent (hash_String (header_Hash latest)) (prev ++ ids)))%Z.
Proof.
  revert prev t bad. induction ids as [|id ids IH]; intros prev t bad Ht Hlen; [done|]. cbn [quorumHeaders].
  destruct (fetchAndVerifyBlockHeaders Send_headers r parent id t bad) as [t1 bad1] eqn:Ef.
  rewrite length_app in Hlen. cbn [length] in Hlen.
  apply (fetchAndVerify_ok r parent prev) in Ef; [|done|lia].
  replace (prev ++ id :: ids) with ((prev ++ [id]) ++ ids) by (by rewrite <-(assoc_L (++))).
  destruct (List.find _ _) as [[k c]|] eqn:Efind.
  - apply List.find_some in Efind as [Hin Hc%bool_decide_eq_true]. apply list_elem_of_In, elem_of_go_range in Hin. cbn in Hc.
    specialize (Ef k). rewrite Hin in Ef.
    destruct Ef as [-> (hs' & latest & Hm & Hv & Hl & Hk)]. intros [= Hhs _]. rewrite Hm in Hhs. injection Hhs as ->.
    exists latest. split_and!; [done|done|]. rewrite Hk. unfold vote_count in *. rewrite filter_app, length_app. lia.
  - apply IH; [done|]. rewrite !length_app. cbn. lia.
Qed.

(** A node that follows the protocol and has the chain. *)
Definition serves chain (id : Z) : Prop :=
  ∃ l, represents chain l ∧ (∀ b e, Send_headers id b e = handleGetBlockHeadersPack l b e) ∧
    (∀ b e, Send_blocks id b e = handleGetBlocksPack l b e).

(** The hash at the end of a list of headers that starts after [p]. *)
Definition end_of (p : string) (hs : list BlockHeader) : string := default p (header_Hash <$> last hs).

Lemma end_of_snoc p hs h : end_of p (hs ++ [h]) = header_Hash h.
Proof. unfold end_of. by rewrite last_snoc. Qed.

Lemma headers_linked_app p hs gs : headers_linked p (hs ++ gs) = headers_linked p hs && headers_linked (end_of p hs) gs.
Proof.
  revert p. induction hs as [|h hs IH]; intros p; [done|]. cbn [headers_linked app]. rewrite IH, andb_assoc. do 2 f_equal.
  unfold end_of. rewrite last_cons. by destruct (last hs).
Qed.

(** Two lists of headers that end with the same hash are the same from the end, as far as both go. *)
Lemma chains_meet (Hinj : ∀ h1 h2, header_Hash h1 = header_Hash h2 → h1 = h2) p hs q gs :
  headers_linked p hs = true → headers_linked q gs = true → end_of p hs = end_of q gs →
  ∃ pre, hs = pre ++ gs ∧ end_of p pre = q ∨ gs = pre ++ hs ∧ end_of q pre = p.
Proof.
  revert gs. induction hs as [|h hs IH] using rev_ind; intros gs Hh Hg He.
  - exists gs. right. by rewrite app_nil_r.
  - destruct gs as [|g gs _] using rev_ind; [exists (hs ++ [h]); left; by rewrite app_nil_r|].
    rewrite headers_linked_app, andb_true_iff in Hh, Hg. destruct Hh as [Hh Hh'], Hg as [Hg Hg']. cbn in Hh', Hg'.
    rewrite andb_true_r in Hh', Hg'. apply bool_decide_eq_true in Hh', Hg'. rewrite !end_of_snoc in He. apply Hinj in He as ->.
    destruct (IH gs Hh Hg) as (pre & [[-> E]|[-> E]]); [congruence|exists pre; left|exists pre; right]; by rewrite (assoc_L (++)).
Qed.

Section agree.
Context (genesis : string) (chain : list entry) (Hc : chain_ok genesis chain).
Context (Hinj : ∀ h1 h2, header_Hash h1 = header_Hash h2 → h1 = h2) (Hgen : ∀ h, header_Hash h ≠ genesis).

Lemma end_of_take k : end_of genesis (header_of <$> take k chain) = tip genesis (take k chain).
Proof.
  unfold end_of, tip. rewrite fmap_last. destruct (last (take k chain)) as [e|] eqn:E; [|done]. cbn. symmetry.
  apply (proj1 (Forall_forall _ _) (ck_hash _ _ Hc)). apply last_Some_elem_of, elem_of_take in E as (i & Hi & _).
  by eapply list_elem_of_lookup_2.
Qed.

(** Different heights have different hashes before them. *)
Lemma tip_take_inj i j :
  i ≤ length chain → j ≤ length chain → tip genesis (take i chain) = tip genesis (take j chain) → i = j.
Proof.
  intros Hi Hj. assert (∀ k, k < length chain → ∃ e, chain !! k = Some e ∧ tip genesis (take (S k) chain) = header_Hash (header_of e)) as Htip.
  { intros k Hk. destruct (lookup_lt_is_Some_2 chain k Hk) as [e He]. exists e. split; [done|]. rewrite (tip_take _ _ _ _ He).
    by apply (proj1 (Forall_lookup _ _) (ck_hash _ _ Hc) k). }
  destruct i as [|i], j as [|j]; [done|..].
  - destruct (Htip j) as (e & _ & ->); [lia|]. intros E. by destruct (Hgen (header_of e)).
  - destruct (Htip i) as (e & _ & ->); [lia|]. intros E. by destruct (Hgen (header_of e)).
  - destruct (Htip i) as (e & He & ->); [lia|]. destruct (Htip j) as (e' & He' & ->); [lia|]. intros Hh%Hinj.
    pose proof (ck_number _ _ Hc i e He) as Hn. pose proof (ck_number _ _ Hc j e' He') as Hn'. unfold en_number in *.
    unfold header_of in Hh. rewrite Hh in Hn. lia.
Qed.

(** Linked headers that start after height [b - 1] and end with the hash of the block at height [e] are those of the chain. *)
Lemma linked_to_chain b e hs :
  (1 ≤ b ≤ e)%Z → (e ≤ Z.of_nat (length chain))%Z → headers_linked (before genesis chain b) hs = true → hs ≠ [] →
  end_of (before genesis chain b) hs = tip genesis (take (Z.to_nat e) chain) → hs = header_of <$> segment chain b e.
Proof.
  intros Hb He Hl Hne Hend. set (gs := header_of <$> take (Z.to_nat e) chain).
  assert (headers_linked genesis gs = true) as Hg by apply (chain_headers_linked genesis chain 0 (Z.to_nat e) Hc).
  assert (header_of <$> segment chain b e = drop (Z.to_nat (b - 1)) gs) as ->.
  { unfold gs, segment. rewrite take_drop_commute, fmap_drop. do 3 f_equal. lia. }
  rewrite <-end_of_take in Hend.
  destruct (chains_meet Hinj _ _ _ _ Hl Hg Hend) as (pre & [[-> Epre]|[Egs Epre]]).
  - destruct pre as [|h pre _] using rev_ind; [|rewrite end_of_snoc in Epre; by destruct (Hgen h)].
    assert (0 = Z.to_nat (b - 1)) as <-; [|done]. apply tip_take_inj; [lia|lia|]. symmetry. exact Epre.
  - assert (length pre = Z.to_nat (b - 1)) as <-; [|by rewrite Egs, drop_app_length].
    assert (length pre ≤ Z.to_nat e) as Hlen.
    { assert (length gs ≤ Z.to_nat e) by (unfold gs; rewrite length_fmap, length_take; lia). rewrite Egs, length_app in *. lia. }
    apply tip_take_inj; [lia|lia|]. rewrite <-end_of_take. fold (before genesis chain b). rewrite <-Epre. f_equal.
    transitivity (take (length pre) gs); [|by rewrite Egs, take_app_length].
    unfold gs. by rewrite <-fmap_take, take_take, Nat.min_l.
Qed.
End agree.

(** Among more voters than there are others there is one that follows the protocol. *)
Lemma honest_voter (votes honest : Z → bool) ids :
  length (filter (λ id, honest id = false) ids) < length (filter (λ id, votes id) ids) →
  ∃ id, id ∈ ids ∧ votes id = true ∧ honest id = true.
Proof.
  induction ids as [|id ids IH]; [cbn; lia|]. rewrite !filter_cons. intros Hlt.
  destruct (decide (votes id = true ∧ honest id = true)) as [[Hv Hh]|Hn]; [exists id; split_and!; [by left|done|done]|].
  destruct IH as (x & Hx & ? & ?); [|exists x; split_and!; [by right|done|done]].
  repeat case_decide; cbn in Hlt; try lia. exfalso. apply Hn. split; [by apply Is_true_true|by destruct (honest id)].
Qed.

(** C28: The headers that a node takes are those of the chain of the nodes that follow the protocol, when fewer than a quorum
of the nodes it asks do not, whatever these answer and in whatever order they are asked; hashes of headers are taken to
be free of collisions. *)
Theorem quorum_headers_agree genesis chain s r bad hs bad' (honest : Z → bool) :
  (∀ h1 h2, header_Hash h1 = header_Hash h2 → h1 = h2) → (∀ h, header_Hash h ≠ genesis) → chain_ok genesis chain →
  (1 ≤ r_begin r ≤ r_end r)%Z → (r_end r ≤ Z.of_nat (length chain))%Z →
  (∀ id, id ∈ sy_peerIds s → honest id = true → serves chain id) →
  (Z.of_nat (length (filter (λ id, honest id = false) (sy_peerIds s))) < sy_quorum s)%Z →
  (Z.of_nat (length (sy_peerIds s)) < 2 ^ 64)%Z →
  syncQuorumRangeBlockHeaders Send_headers s r (Some (before genesis chain (r_begin r))) bad = (Some hs, bad') →
  hs = header_of <$> segment chain (r_begin r) (r_end r).
Proof.
  intros Hinj Hgen Hc Hb He Hhon Hbyz Hlen E. set (parent := Some (before genesis chain (r_begin r))) in *.
  destruct (quorumHeaders_votes (sy_quorum s) r parent [] (sy_peerIds s) no_tally bad hs bad') as (latest & Hl & Hv & Hq);
    [by intros k|done|done|].
  destruct (honest_voter (votes_for r parent (hash_String (header_Hash latest))) honest (sy_peerIds s)) as (id & Hin & Hvote & Hh).
  { unfold vote_count in Hq. cbn [app] in Hq. lia. }
  destruct (Hhon id Hin Hh) as (l & R & Hsh & _). unfold votes_for, fetchBlockHeaders in Hvote.
  rewrite decide_False, Hsh, (serve_headers chain) in Hvote by (done || lia).
  apply andb_true_iff in Hvote as [_ Hlast%bool_decide_eq_true].
  destruct (segment_last chain (r_begin r) (r_end r) Hb He) as (en & Hen & Hsl). rewrite fmap_last, Hsl in Hlast. cbn in Hlast.
  injection Hlast as Hlast%hash_String_inj.
  apply (linked_to_chain genesis); try done.
  - unfold verifyBlockHeaders, parent in Hv. by destruct hs.
  - by destruct hs.
  - unfold end_of. rewrite Hl. cbn. rewrite <-Hlast. replace (Z.to_nat (r_end r)) with (S (Z.to_nat (r_end r - 1))) by lia.
    rewrite (tip_take _ _ _ _ Hen). symmetry. by apply (proj1 (Forall_lookup _ _) (ck_hash _ _ Hc) (Z.to_nat (r_end r - 1))).
Qed.

(** ** Progress *)

(** A node that does not answer. *)
Definition silent_peer (id : Z) : Prop := (∀ b e, Send_headers id b e = None) ∧ (∀ b e, Send_blocks id b e = None).

Section progress.
Context (genesis : string) (chain : list entry) (Hc : chain_ok genesis chain).
Context (honest : Z → bool).

(** The nodes follow the protocol or do not answer. *)
Definition peers_ok (ids : list Z) : Prop :=
  Forall (λ id, if honest id then serves chain id else silent_peer id) ids.

Notation honest_count ids := (length (filter (λ id, honest id = true) ids)).

(** The tally when [c] nodes have sent the headers [hs]. *)
Definition tally_of (hs : list BlockHeader) (k : string) (c : nat) : Tally :=
  match c with 0 => no_tally | _ => MkTally {[k := Z.of_nat c]} {[k := hs]} end.

Lemma go_range_singleton (k : string) (c : Z) : go_range ({[k := c]} : gmap string Z) = [(k, c)].
Proof. apply Permutation_singleton_r. rewrite go_range_perm. by rewrite map_to_list_singleton. Qed.

Lemma segment_verified b e : (1 ≤ b ≤ e)%Z → (e ≤ Z.of_nat (length chain))%Z →
  verifyBlockHeaders (Some (before genesis chain b)) (header_of <$> segment chain b e) = true.
Proof.
  intros Hb He. destruct (segment_cons chain b e Hb He) as (en & _ & Hs). pose proof (chain_headers_linked genesis chain (Z.to_nat (b - 1)) (Z.to_nat (e - b + 1)) Hc) as Hl.
  fold (segment chain b e) in Hl. unfold verifyBlockHeaders. rewrite Hs in *. exact Hl.
Qed.

Lemma quorumHeaders_found quorum b e ids c bad :
  (1 ≤ b ≤ e)%Z → (e ≤ Z.of_nat (length chain))%Z → peers_ok ids →
  (Z.of_nat c < quorum)%Z → (quorum ≤ Z.of_nat (c + honest_count ids))%Z → (Z.of_nat (c + length ids) < 2 ^ 64)%Z →
  ∃ k, (header_Hash <$> (header_of <$> last (segment chain b e))) = Some k ∧
  quorumHeaders Send_headers quorum (MkRange b e) (Some (before genesis chain b)) ids
    (tally_of (header_of <$> segment chain b e) (hash_String k) c) bad = (Some (header_of <$> segment chain b e), bad).
Proof.
  intros Hb He. destruct (segment_last chain b e Hb He) as (en & _ & Hlast). set (k := header_Hash (header_of en)).
  intros Hp Hcq Hq Hlen. exists k. split; [by rewrite Hlast|]. revert c Hcq Hq Hlen.
  induction Hp as [|id ids Hid Hp IH]; intros c Hcq Hq Hlen; [cbn in Hq; lia|]. cbn [quorumHeaders].
  unfold fetchAndVerifyBlockHeaders, fetchBlockHeaders. cbn [r_begin r_end]. rewrite decide_False by lia.
  cbn [length] in Hlen. rewrite filter_cons in Hq. destruct (honest id) eqn:Eh.
  - destruct Hid as (l & R & -> & _). rewrite (serve_headers chain), segment_verified by done. rewrite fmap_last, Hlast. cbn [fmap option_fmap option_map].
    rewrite decide_True in Hq by done. cbn [length] in Hq. fold k.
    assert (MkTally (<[hash_String k := default 0%Z (latestBlockHeaderCounter (tally_of (header_of <$> segment chain b e) (hash_String k) c) !! hash_String k) +u 1]>
        (latestBlockHeaderCounter (tally_of (header_of <$> segment chain b e) (hash_String k) c)))
      (<[hash_String k := header_of <$> segment chain b e]> (blockHeadersM (tally_of (header_of <$> segment chain b e) (hash_String k) c))) =
      tally_of (header_of <$> segment chain b e) (hash_String k) (S c)) as ->.
    { destruct c as [|c]; cbn -[u64 Z.of_nat]; [done|]. rewrite lookup_singleton_eq, !insert_singleton_eq. cbn -[u64 Z.of_nat].
      do 2 f_equal. rewrite u64_small by (unfold is_u64; lia). lia. }
    cbn [tally_of latestBlockHeaderCounter blockHeadersM]. rewrite go_range_singleton. cbn [List.find snd].
    case_bool_decide; [by rewrite lookup_singleton_eq|]. apply (IH (S c)); lia.
  - destruct Hid as [-> _]. rewrite decide_False in Hq by done.
    assert (List.find (λ e0 : string * Z, bool_decide (quorum ≤ e0.2)%Z)
      (go_range (latestBlockHeaderCounter (tally_of (header_of <$> segment chain b e) (hash_String k) c))) = None) as ->.
    { destruct c as [|c]; cbn [tally_of latestBlockHeaderCounter no_tally].
      - assert (go_range (∅ : gmap string Z) = []) as ->; [|done]. apply Permutation_nil_r. by rewrite go_range_perm, map_to_list_empty.
      - rewrite go_range_singleton. cbn [List.find snd]. by rewrite bool_decide_false by lia. }
    apply IH; lia.
Qed.
Lemma segment_blocks_verified n i :
  verifyBlocks (header_of <$> take n (drop i chain)) (en_block <$> take n (drop i chain)) = Some true.
Proof.
  assert (Forall (λ e, en_hash e = header_Hash (header_of e)) (take n (drop i chain))) as Hf by apply Forall_take, Forall_drop, (ck_hash _ _ Hc).
  induction Hf as [|e l He Hf IH]; [done|]. cbn. unfold verifyBlock. by rewrite bool_decide_true.
Qed.

Lemma rangeBlocks_found b e ids bad :
  (1 ≤ b ≤ e)%Z → (e ≤ Z.of_nat (length chain))%Z → peers_ok ids → 0 < honest_count ids →
  ∃ bad', rangeBlocks Send_blocks (header_of <$> segment chain b e) b e ids bad = Some (en_block <$> segment chain b e, bad').
Proof.
  intros Hb He Hp. revert bad. induction Hp as [|id ids Hid Hp IH]; intros bad Hn; [cbn in Hn; lia|]. cbn [rangeBlocks].
  unfold fetchBlocks. rewrite decide_False by lia. rewrite filter_cons in Hn. destruct (honest id) eqn:Eh.
  - destruct Hid as (l & R & _ & ->). rewrite (serve_blocks chain) by done.
    pose proof (segment_blocks_verified (Z.to_nat (e - b + 1)) (Z.to_nat (b - 1))) as Hv. fold (segment chain b e) in Hv. rewrite Hv. cbn [mbind option_bind].
    destruct (segment_cons chain b e Hb He) as (en & _ & ->). cbn. by eexists.
  - destruct Hid as [_ ->]. apply IH. by rewrite decide_False in Hn.
Qed.

Lemma heights_split b' m rest b e :
  (b' ≤ m)%Z → heights_of b' m ++ rest = heights_of b e → b' = b ∧ (m ≤ e)%Z ∧ rest = heights_of (m + 1) e.
Proof.
  intros Hm E. assert (b ≤ e)%Z as Hbe.
  { destruct (Z.le_gt_cases b e); [done|]. by rewrite (heights_nil b e), (heights_cons b' m) in E by lia. }
  pose proof E as E'. rewrite (heights_cons b' m), (heights_cons b e) in E' by lia. injection E' as -> _.
  assert (m ≤ e)%Z as Hme.
  { assert (length (heights_of b m ++ rest) = length (heights_of b e)) as Hl by (by rewrite E). rewrite length_app in Hl.
    unfold heights_of in Hl. rewrite !length_seqZ in Hl. lia. }
  split_and!; [done|done|]. rewrite <-(heights_app b m e) in E by lia. by apply app_inv_head in E.
Qed.

Lemma segment_app b m e : (1 ≤ b ≤ m + 1)%Z → (m ≤ e)%Z → segment chain b m ++ segment chain (m + 1) e = segment chain b e.
Proof.
  intros Hb He. unfold segment. replace (Z.to_nat (m + 1 - 1)) with (Z.to_nat (b - 1) + Z.to_nat (m - b + 1)) by lia.
  rewrite <-drop_drop. replace (Z.to_nat (e - b + 1)) with (Z.to_nat (m - b + 1) + Z.to_nat (e - (m + 1) + 1)) by lia.
  by rewrite take_take_drop.
Qed.

Context (s : StateSyncer) (Hp : peers_ok (sy_peerIds s)).

Lemma syncRangeBlocks_found b e bad :
  (1 ≤ b ≤ e)%Z → (e ≤ Z.of_nat (length chain))%Z → 0 < honest_count (sy_peerIds s) →
  ∃ bad', syncRangeBlocks Send_blocks s (header_of <$> segment chain b e) bad = Some (en_block <$> segment chain b e, bad').
Proof.
  intros Hb He Hn. unfold syncRangeBlocks. destruct (segment_cons chain b e Hb He) as (en & Hen & Hs).
  destruct (segment_last chain b e Hb He) as (en' & Hen' & Hl). 
  assert (head (header_of <$> segment chain b e) = Some (header_of en)) as -> by (by rewrite Hs).
  assert (last (header_of <$> segment chain b e) = Some (header_of en')) as -> by (by rewrite fmap_last, Hl). cbn [mbind option_bind].
  assert (bh_Number (header_of en) = b ∧ bh_Number (header_of en') = e) as [-> ->].
  { pose proof (ck_number _ _ Hc _ _ Hen) as H1'. pose proof (ck_number _ _ Hc _ _ Hen') as H2'. unfold en_number, header_of in *. lia. }
  by apply rangeBlocks_found.
Qed.

Lemma before_next b m en : (1 ≤ b ≤ m)%Z → (m ≤ Z.of_nat (length chain))%Z → chain !! Z.to_nat (m - 1) = Some en →
  header_Hash (b_Header (en_block en)) = before genesis chain (m + 1).
Proof.
  intros Hb Hm Hen. unfold before. replace (Z.to_nat (m + 1 - 1)) with (S (Z.to_nat (m - 1))) by lia. rewrite (tip_take _ _ _ _ Hen).
  symmetry. by apply (proj1 (Forall_lookup _ _) (ck_hash _ _ Hc) (Z.to_nat (m - 1))).
Qed.

(** What is sent: the blocks from height [b] to height [e], and the end. *)
Definition sent_blocks (b e : Z) : list (option Block) := (Some <$> (en_block <$> segment chain b e)) ++ [None].

Lemma sent_blocks_app b m e : (1 ≤ b ≤ m + 1)%Z → (m ≤ e)%Z →
  (Some <$> (en_block <$> segment chain b m)) ++ sent_blocks (m + 1) e = sent_blocks b e.
Proof. intros Hb He. unfold sent_blocks. by rewrite <-(segment_app b m e), !fmap_app, (assoc_L (++)). Qed.

Lemma sent_blocks_nil b e : (e < b)%Z → sent_blocks b e = [None].
Proof. intros Hbe. unfold sent_blocks, segment. replace (Z.to_nat (e - b + 1)) with 0 by lia. done. Qed.

Lemma syncBFTRanges_found rs b e bad :
  rs ≫= range_heights = heights_of b e → Forall (λ r, r_begin r ≤ r_end r)%Z rs → (1 ≤ b ≤ e + 1)%Z → (e ≤ Z.of_nat (length chain))%Z →
  (0 < sy_quorum s ≤ Z.of_nat (honest_count (sy_peerIds s)))%Z → (Z.of_nat (length (sy_peerIds s)) < 2 ^ 64)%Z →
  ∃ bad', syncBFTRanges Send_headers Send_blocks s rs (Some (before genesis chain b)) bad = Some (true, sent_blocks b e, bad').
Proof.
  revert b bad. induction rs as [|r rs IH]; intros b bad Hrs Hf Hb He Hq Hlen; cbn [syncBFTRanges].
  - assert (e < b)%Z by (destruct (Z.lt_ge_cases e b); [done|]; cbn in Hrs; by rewrite heights_cons in Hrs by lia).
    rewrite sent_blocks_nil by done. by eexists.
  - apply Forall_cons in Hf as [Hr Hf]. cbn in Hrs. destruct (heights_split _ _ _ _ _ Hr Hrs) as (Hbr & Hm & Hrest).
    destruct r as [b0 m]. cbn in Hbr, Hm, Hr, Hrest. subst b0. unfold syncQuorumRangeBlockHeaders.
    destruct (quorumHeaders_found (sy_quorum s) b m (sy_peerIds s) 0 bad) as (k & _ & Hquorum); [lia|lia|done|lia|lia|done|].
    cbn [tally_of] in Hquorum. rewrite Hquorum.
    destruct (syncRangeBlocks_found b m bad) as (bad1 & ->); [lia|lia|lia|]. cbn [mbind option_bind].
    destruct (segment_last chain b m) as (en & Hen & Hl); [lia|lia|]. rewrite fmap_last, Hl. cbn [fmap option_fmap option_map].
    rewrite (before_next b m en) by (done || lia).
    destruct (IH (m + 1)%Z bad1 Hrest Hf) as (bad2 & ->); [lia..|]. cbn. exists bad2. by rewrite sent_blocks_app by lia.
Qed.

(** C29: A node that is behind gets the blocks it has asked for, in their order and each once, from nodes that have the same
chain: when at least a quorum of them follows the protocol and the others do not answer, no header or block is
missing and there is no error. *)
Theorem SyncBFTBlocks_complete begin end_ :
  (0 < blockFetch s)%Z → (1 ≤ begin ≤ end_)%Z → (end_ ≤ Z.of_nat (length chain))%Z → (end_ + blockFetch s < 2 ^ 64)%Z →
  (0 < sy_quorum s ≤ Z.of_nat (honest_count (sy_peerIds s)))%Z → (Z.of_nat (length (sy_peerIds s)) < 2 ^ 64)%Z →
  ∃ s', SyncBFTBlocks Send_headers Send_blocks s (range_fuel begin end_) begin end_ (Some (before genesis chain begin)) =
        Some (true, sent_blocks begin end_, s').
Proof.
  intros Hbf Hb He Hov Hq Hlen. unfold SyncBFTBlocks.
  destruct (calcRangeHeight_ranges (blockFetch s) begin end_) as (rs & -> & Hrs & Hf); [lia..|]. cbn [mbind option_bind].
  destruct (syncBFTRanges_found rs begin end_ (badPeers s) Hrs) as (bad' & ->); [|lia|done|done|done|by eexists].
  eapply Forall_impl; [exact Hf|]. cbn. lia.
Qed.

(** *** Without Byzantine nodes *)

Definition usable (bad : gset Z) : list Z := filter (λ id, id ∉ bad) (sy_peerIds s).

Lemma usable_add id bad : id ∈ usable bad → length (usable ({[id]} ∪ bad)) < length (usable bad).
Proof.
  unfold usable. generalize (sy_peerIds s). intros ids. induction ids as [|x ids IH]; [by intros ?%elem_of_nil|].
  assert (∀ l : list Z, length (filter (λ id', id' ∉ {[id]} ∪ bad) l) ≤ length (filter (λ id', id' ∉ bad) l)) as Hle.
  { intros l. induction l as [|y l IHl]; [done|]. rewrite !filter_cons. repeat case_decide; cbn; try lia. set_solver. }
  rewrite !filter_cons. destruct (decide (x ∉ bad)) as [Hx|Hx]; intros Hin.
  - destruct (decide (x = id)) as [->|Hne]; [rewrite decide_False by set_solver; cbn; specialize (Hle ids); lia|].
    rewrite decide_True by set_solver. cbn. assert (id ∈ filter (λ id', id' ∉ bad) ids) as Hin' by set_solver. specialize (IH Hin'). lia.
  - rewrite decide_False by set_solver. by apply IH.
Qed.

Lemma randPeers_found bad k : usable bad ≠ [] → ∃ id, randPeers s bad k = Some id ∧ id ∈ usable bad.
Proof.
  intros Hne. unfold randPeers. fold (usable bad). destruct (lookup_lt_is_Some_2 (usable bad) (k `mod` length (usable bad))) as [id Hid].
  - apply Nat.mod_upper_bound. by destruct (usable bad).
  - exists id. split; [done|]. by eapply list_elem_of_lookup_2.
Qed.

Lemma retryRange_found rand attempts k b e bad :
  (1 ≤ b ≤ e)%Z → (e ≤ Z.of_nat (length chain))%Z → (∀ id, id ∈ bad → honest id = false) → 0 < honest_count (sy_peerIds s) →
  length (usable bad) ≤ attempts →
  ∃ bad' k', retryRange Send_blocks s rand attempts k (MkRange b e) bad = Some (en_block <$> segment chain b e, bad', k') ∧
    (∀ id, id ∈ bad' → honest id = false).
Proof.
  intros Hb He. revert k bad. induction attempts as [|attempts IH]; intros k bad Hbad Hn Hlen.
  all: assert (usable bad ≠ []) as Hne.
  1, 3: destruct (filter (λ id, honest id = true) (sy_peerIds s)) as [|x l] eqn:Ex; [cbn in Hn; lia|];
    assert (x ∈ filter (λ id, honest id = true) (sy_peerIds s)) as [Hx Hin]%list_elem_of_filter by (rewrite Ex; by left);
    assert (x ∈ usable bad) as Hxu by (apply list_elem_of_filter; split; [intros Hxb%Hbad; congruence|done]);
    intros E; rewrite E in Hxu; by apply elem_of_nil in Hxu.
  - destruct (usable bad); [done|cbn in Hlen; lia].
  - cbn [retryRange]. destruct (randPeers_found bad (rand k) Hne) as (id & -> & Hid).
    pose proof (usable_add id bad Hid) as Hlt. apply list_elem_of_filter in Hid as [_ Hin].
    pose proof (proj1 (Forall_forall _ _) Hp id Hin) as Hok. cbn in Hok. unfold fetchBlocks. cbn [r_begin r_end]. rewrite decide_False by lia.
    destruct (honest id) eqn:Eh.
    + destruct Hok as (l & R & _ & ->). rewrite (serve_blocks chain) by done. by eexists _, _.
    + destruct Hok as [_ ->]. apply IH; [set_solver|done|lia].
Qed.

Lemma syncCFTRanges_found rand attempts k rs b e bad :
  rs ≫= range_heights = heights_of b e → Forall (λ r, r_begin r ≤ r_end r)%Z rs → (1 ≤ b ≤ e + 1)%Z → (e ≤ Z.of_nat (length chain))%Z →
  (∀ id, id ∈ bad → honest id = false) → 0 < honest_count (sy_peerIds s) → length (sy_peerIds s) ≤ attempts →
  ∃ bad', syncCFTRanges Send_blocks s rand attempts k rs bad = Some (sent_blocks b e, bad').
Proof.
  revert b bad k. induction rs as [|r rs IH]; intros b bad k Hrs Hf Hb He Hbad Hn Hlen; cbn [syncCFTRanges].
  - assert (e < b)%Z by (destruct (Z.lt_ge_cases e b); [done|]; cbn in Hrs; by rewrite heights_cons in Hrs by lia).
    rewrite sent_blocks_nil by done. by eexists.
  - apply Forall_cons in Hf as [Hr Hf]. cbn in Hrs. destruct (heights_split _ _ _ _ _ Hr Hrs) as (Hbr & Hm & Hrest).
    destruct r as [b0 m]. cbn in Hbr, Hm, Hr, Hrest. subst b0.
    assert (length (usable bad) ≤ attempts) by (etrans; [apply length_filter|done]).
    destruct (retryRange_found rand attempts k b m bad) as (bad1 & k1 & -> & Hbad1); [lia|lia|done..|]. cbn [mbind option_bind].
    destruct (IH (m + 1)%Z bad1 k1 Hrest Hf) as (bad2 & ->); [lia|lia|done..|]. cbn. exists bad2. by rewrite sent_blocks_app by lia.
Qed.

(** The same without Byzantine nodes, with one node that answers and at most one attempt per node and range. *)
Theorem SyncCFTBlocks_complete rand begin end_ :
  (0 < blockFetch s)%Z → (1 ≤ begin ≤ end_)%Z → (end_ ≤ Z.of_nat (length chain))%Z → (end_ + blockFetch s < 2 ^ 64)%Z →
  0 < honest_count (sy_peerIds s) → badPeers s = ∅ →
  ∃ s', SyncCFTBlocks Send_blocks s rand (length (sy_peerIds s)) (range_fuel begin end_) begin end_ =
        Some (true, sent_blocks begin end_, s').
Proof.
  intros Hbf Hb He Hov Hn Hbad. unfold SyncCFTBlocks.
  destruct (calcRangeHeight_ranges (blockFetch s) begin end_) as (rs & -> & Hrs & Hf); [lia..|]. cbn [mbind option_bind].
  destruct (syncCFTRanges_found rand (length (sy_peerIds s)) 0 rs begin end_ (badPeers s) Hrs) as (bad' & ->);
    [|lia|done|rewrite Hbad; set_solver|done|done|by eexists].
  eapply Forall_impl; [exact Hf|]. cbn. lia.
Qed.

(** The executor gets all of them. *)
Lemma executeSynced_all b e :
  (1 ≤ b ≤ e + 1)%Z → (e ≤ Z.of_nat (length chain))%Z → (e < 2 ^ 64)%Z →
  executeSynced (b - 1) (sent_blocks b e) =
  ((λ en, MkCommitEvent (en_block en) (replicate (length (en_txs en)) false)) <$> segment chain b e, e).
Proof.
  intros Hb He Hov. remember (Z.to_nat (e + 1 - b)) as n eqn:Hn. revert b Hb Hn. induction n as [|n IH]; intros b Hb Hn.
  - rewrite sent_blocks_nil by lia. unfold segment. replace (Z.to_nat (e - b + 1)) with 0 by lia. cbn. f_equal. lia.
  - destruct (segment_cons chain b e) as (en & Hen & Hs); [lia|lia|].
    assert (sent_blocks b e = Some (en_block en) :: sent_blocks (b + 1) e) as -> by (unfold sent_blocks; by rewrite Hs).
    rewrite Hs. cbn [executeSynced fmap list_fmap]. pose proof (ck_number _ _ Hc _ _ Hen) as Hnum. unfold en_number in Hnum.
    rewrite u64_small by (unfold is_u64; lia). rewrite decide_True by lia.
    replace (bh_Number (b_Header (en_block en))) with (b + 1 - 1)%Z by lia. by rewrite IH by lia.
Qed.

(** When all nodes are bad the attempts go on for ever. *)
Theorem retry_never_ends rand attempts k r bad :
  (∀ id, id ∈ sy_peerIds s → id ∈ bad) → retryRange Send_blocks s rand attempts k r bad = None.
Proof.
  intros Hbad. revert k. induction attempts as [|attempts IH]; intros k; [done|]. cbn [retryRange]. unfold randPeers.
  assert (filter (λ id, id ∉ bad) (sy_peerIds s) = []) as ->; [|apply IH].
  apply elem_of_nil_inv. intros x [Hx Hin]%list_elem_of_filter. by apply Hx, Hbad.
Qed.
End progress.
End peers.
End agreement.

(** ** Concrete runs *)

Module SyncSample.
Import ChainSample.
Local Existing Instance storage_by_map.
Local Existing Instance file_by_list.
Local Existing Instance chain_lib.
Local Existing Instance merkle_lib.
Local Existing Instance range_by_encoding.

Definition hd1 : BlockHeader := MkBlockHeader 1 7 "" "s1" "" "" "".
Definition hd2 : BlockHeader := MkBlockHeader 2 8 (header_text hd1) "s2" "" "" "".
Definition blk1 : Block := MkBlock hd1 [UnknownTx "alice" 0 "t1"] (header_text hd1) (Some "sig") None.
Definition blk2 : Block := MkBlock hd2 [UnknownTx "bob" 0 "t2"] (header_text hd2) (Some "sig") None.
Definition no_meta : InterchainMeta := MkInterchainMeta ∅ ∅ [] ∅.
Definition en1 : entry := MkEntry blk1 [MkReceipt "t1" true None 0 false [] [] None] no_meta.
Definition en2 : entry := MkEntry blk2 [MkReceipt "t2" true None 0 false [] [] None] no_meta.
Definition chain : list entry := [en1; en2].

Definition append (l : ChainLedgerImpl) (e : entry) : ChainLedgerImpl :=
  after (PersistExecutionResult l (en_block e) (en_receipts e) (en_meta e)).
Definition full : ChainLedgerImpl := append (append empty en1) en2.

Lemma full_represents : represents chain full.
Proof.
  assert (represents [en1] (append empty en1)) as H1.
  { destruct (persist_represents [] empty (en_block en1) en1 empty_represents eq_refl) as (l' & E & R).
    - split; [reflexivity|set_solver|apply (bool_decide_unpack _); vm_compute; exact I|set_solver|reflexivity].
    - unfold append. by rewrite E. }
  destruct (persist_represents [en1] (append empty en1) (en_block en2) en2 H1 eq_refl) as (l' & E & R).
  - split; [reflexivity|apply (bool_decide_unpack _); vm_compute; exact I|apply (bool_decide_unpack _); vm_compute; exact I| |reflexivity].
    intros x Hx. apply list_elem_of_singleton in Hx as ->. apply (bool_decide_unpack _). vm_compute. exact I.
  - unfold full, append at 1. by rewrite E.
Qed.

Lemma header_text_ne h : header_text h ≠ "".
Proof. unfold header_text, counted. destruct (fmt_d (Z.of_nat (String.length (fmt_d (bh_Number h))))); discriminate. Qed.

Lemma sample_chain_ok : chain_ok "" chain.
Proof.
  split.
  - repeat constructor.
  - intros [|[|i]] e; [by intros [= <-]|by intros [= <-]|done].
  - intros [|[|i]] e; [by intros [= <-]|by intros [= <-]|done].
Qed.

(** Nodes 1 and 2 have the chain, node 3 has made up another one, node 4 does not answer. *)
Definition fake : BlockHeader := MkBlockHeader 1 7 "" "other" "" "" "".
Definition headers_from (id b e : Z) : option (list BlockHeader) :=
  if decide (id = 3)%Z then Some [fake] else if decide (id = 4)%Z then None else handleGetBlockHeadersPack full b e.
Definition blocks_from (id b e : Z) : option (list Block) :=
  if decide (id = 3 ∨ id = 4)%Z then None else handleGetBlocksPack full b e.
Definition syncer (ids : list Z) : StateSyncer := MkSyncer 1 2 ids ∅.

Lemma sample_serves id : id ≠ 3%Z → id ≠ 4%Z → serves headers_from blocks_from chain id.
Proof.
  intros H3 H4. exists full. split; [exact full_represents|].
  split; intros b e; unfold headers_from, blocks_from; rewrite !decide_False by tauto; reflexivity.
Qed.

Lemma calcRangeHeight_cover_witness :
  ∃ rs, calcRangeHeight 5 (range_fuel 3 17) 3 17 = Some (Some rs) ∧ rs ≫= range_heights = heights_of 3 17.
Proof.
  destruct (calcRangeHeight_cover 5 3 17) as (rs & E & Hrs & _); [lia..|]. exists rs. split; [exact E|exact Hrs].
Defined.

Lemma quorum_headers_agree_witness :
  match (syncQuorumRangeBlockHeaders headers_from (syncer [3; 1; 2]%Z) (MkRange 1 2) (Some (before "" chain 1)) ∅).1 with
  | Some hs => hs = [hd1; hd2]
  | None => False
  end.
Proof.
  destruct (syncQuorumRangeBlockHeaders headers_from (syncer [3; 1; 2]%Z) (MkRange 1 2) (Some (before "" chain 1)) ∅)
    as [[hs|] bad'] eqn:E; cbn; [|vm_compute in E; discriminate E].
  refine (quorum_headers_agree headers_from blocks_from "" chain (syncer [3; 1; 2]%Z) (MkRange 1 2) ∅ hs bad'
    (λ id, bool_decide (id ≠ 3)%Z) merkle_header_inj header_text_ne sample_chain_ok _ _ _ _ _ E).
  - cbn. lia.
  - cbn. lia.
  - intros id Hin Hh%bool_decide_eq_true. assert (id ≠ 4)%Z by (intros ->; revert Hin; apply (bool_decide_unpack _); vm_compute; exact I).
    by apply sample_serves.
  - vm_compute. reflexivity.
  - vm_compute. reflexivity.
Defined.

Lemma SyncBFTBlocks_complete_witness :
  ∃ s', SyncBFTBlocks headers_from blocks_from (syncer [4; 1; 2]%Z) (range_fuel 1 2) 1 2 (Some (before "" chain 1)) =
        Some (true, [Some blk1; Some blk2; None], s').
Proof.
  refine (SyncBFTBlocks_complete headers_from blocks_from "" chain sample_chain_ok (λ id, bool_decide (id ≠ 4)%Z)
    (syncer [4; 1; 2]%Z) _ 1 2 _ _ _ _ _ _).
  - repeat constructor; try (apply sample_serves; discriminate).
  - cbn. lia.
  - lia.
  - cbn. lia.
  - cbn. lia.
  - vm_compute. split; congruence.
  - vm_compute. reflexivity.
Defined.

(** Blocks are compared with the agreed headers by the hash that they carry; neither this hash nor the root of the
transactions is computed, and the number of blocks is not checked. Node 3 answers first: its transactions are taken;
with fewer blocks than headers the last ones are missing; with more the node panics. *)
Definition forged : Block := MkBlock hd1 [UnknownTx "mallory" 0 "t9"] (header_text hd1) (Some "sig") None.
Definition answers (bs : list Block) (id b e : Z) : option (list Block) :=
  if decide (id = 3)%Z then Some bs else handleGetBlocksPack full b e.
Definition run_with (bs : list Block) : option (bool * list (option Block)) :=
  (λ r, (r.1.1, r.1.2)) <$>
    SyncBFTBlocks (λ _ b e, handleGetBlockHeadersPack full b e) (answers bs) (MkSyncer 5 2 [3; 1; 2]%Z ∅) 9 1 2 (Some "").

Example forged_blocks_taken :
  run_with [forged; blk2] = Some (true, [Some forged; Some blk2; None]) ∧ run_with [blk1] = Some (true, [Some blk1; None]) ∧
  run_with [blk1; blk2; blk2] = None.
Proof. split_and!; vm_compute; reflexivity. Qed.
End SyncSample.
