(* ===== verification/Router.v ===== *)
(** * Messages for the gateways of chains: [src/internal/router/interchain.go]

Every chain has a gateway ("pier") that listens to the messages for its chain. The router sorts the messages of a block by
their receivers and sends each gateway its part; a gateway that was away asks for the blocks that it has missed.

A feed of the event package sends a value to all channels that have subscribed: it is the list of their numbers. A
channel is the list of what has been put in and not been taken out. Sending to a full channel waits. *)
From Stdlib Require Import Ascii.
From S2P Require Import Prelude Storage Account StateLedger Contract TransactionManager Interchain Executor Transactions Blocks ChainLedger ChainLedgerProps ProofPool TxExecutor Role Pipeline PipelineProps Syncer ChainSample.

(** [pb.VerifiedTx]; the transaction is nil when it is not one of the relay chain. *)
Record VerifiedTx := MkVerifiedTx { vt_Tx : option BxhTransaction; vt_Valid : bool; vt_IsBatch : bool }.

(** [pb.InterchainTxWrapper]; the executor does not set [L2Roots]. *)
Record InterchainTxWrapper := MkWrapper {
  wr_Height : Z; wr_Transactions : list VerifiedTx; wr_TimeoutL2Roots : list string; wr_TimeoutIbtps : list string;
  wr_MultiTxIbtps : list string }.

Definition with_wr_MultiTxIbtps (w : InterchainTxWrapper) v :=
  MkWrapper (wr_Height w) (wr_Transactions w) (wr_TimeoutL2Roots w) (wr_TimeoutIbtps w) v.
Definition with_wr_Transactions (w : InterchainTxWrapper) v :=
  MkWrapper (wr_Height w) v (wr_TimeoutL2Roots w) (wr_TimeoutIbtps w) (wr_MultiTxIbtps w).

Definition blockChanNumber : nat := 1024.

(** ** Sorting the messages of a block *)

(** [None] is the panic of an index out of range. *)
Definition verifiedTx (block : Block) (vi : VerifiedIndex) : option VerifiedTx :=
  tx ← b_Transactions block !! Z.to_nat (vi_Index vi);
  Some (MkVerifiedTx (match tx with BxhTx tx => Some tx | _ => None end) (vi_Valid vi) (vi_IsBatch vi)).

Section classify.
Context `{GoRange}.

Definition txsByReceiver (block : Block) (meta : InterchainMeta) : option (gmap string (list VerifiedTx)) :=
  foldl (λ txsM kv, txsM ← txsM; txs ← mapM (verifiedTx block) kv.2; Some (<[kv.1 := txs]> txsM)) (Some ∅)
    (go_range (im_Counter meta)).

Definition addTimeouts (block : Block) (meta : InterchainMeta) (target : gmap string InterchainTxWrapper) (kv : string * list string) :
    gmap string InterchainTxWrapper :=
  <[kv.1 := MkWrapper (bh_Number (b_Header block)) [] (im_TimeoutL2Roots meta) kv.2 []]> target.

Definition addMultiTxs (block : Block) (target : gmap string InterchainTxWrapper) (kv : string * list string) :
    gmap string InterchainTxWrapper :=
  match target !! kv.1 with
  | Some wrapper => <[kv.1 := with_wr_MultiTxIbtps wrapper kv.2]> target
  | None => <[kv.1 := MkWrapper (bh_Number (b_Header block)) [] [] [] kv.2]> target
  end.

Definition addTransactions (block : Block) (target : gmap string InterchainTxWrapper) (kv : string * list VerifiedTx) :
    gmap string InterchainTxWrapper :=
  match target !! kv.1 with
  | Some wrapper => <[kv.1 := with_wr_Transactions wrapper kv.2]> target
  | None => <[kv.1 := MkWrapper (bh_Number (b_Header block)) kv.2 [] [] []]> target
  end.

Definition classify (block : Block) (meta : InterchainMeta) : option (gmap string InterchainTxWrapper) :=
  txsM ← txsByReceiver block meta;
  let target := foldl (addTimeouts block meta) ∅ (go_range (im_TimeoutCounter meta)) in
  let target := foldl (addMultiTxs block) target (go_range (im_MultiTxCounter meta)) in
  Some (foldl (addTransactions block) target (go_range txsM)).

(** What the gateway [id] gets. *)
Definition wrapper_of (block : Block) (target : gmap string InterchainTxWrapper) (id : string) : list InterchainTxWrapper :=
  match target !! id with
  | Some wrapper => [wrapper]
  | None => [MkWrapper (bh_Number (b_Header block)) [] [] [] []]
  end.

(** ** Gateways *)

Record Router := MkRouter {
  piers : gmap string (list nat);
  subscriptions : gmap string nat;
  rt_count : Z;
  channels : gmap nat (list (list InterchainTxWrapper));
  next_channel : nat }.

Definition NewRouter : Router := MkRouter ∅ ∅ 0 ∅ 0.

Definition AddPier (r : Router) (pierID : string) : nat * Router :=
  let c := next_channel r in
  (c, MkRouter (<[pierID := default [] (piers r !! pierID) ++ [c]]> (piers r)) (<[pierID := c]> (subscriptions r))
        (rt_count r + 1) (<[c := []]> (channels r)) (S c)).

Definition RemovePier (r : Router) (pierID : string) : Router :=
  match subscriptions r !! pierID with
  | None => r
  | Some sub =>
      MkRouter (alter (filter (λ c, c ≠ sub)) pierID (piers r)) (delete pierID (subscriptions r)) (rt_count r - 1)
        (channels r) (next_channel r)
  end.

(** [None]: the channel is full. *)
Definition send (w : list InterchainTxWrapper) (chans : gmap nat (list (list InterchainTxWrapper))) (c : nat) :
    option (gmap nat (list (list InterchainTxWrapper))) :=
  let q := default [] (chans !! c) in
  if decide (length q = blockChanNumber) then None else Some (<[c := q ++ [w]]> chans).

Definition feed_Send (w : list InterchainTxWrapper) (feed : list nat) (chans : gmap nat (list (list InterchainTxWrapper))) :
    option (gmap nat (list (list InterchainTxWrapper))) :=
  foldl (λ chans c, chans ≫= λ chans, send w chans c) (Some chans) feed.

(** The outer [None] is a panic; the inner one: the router waits for a full channel. *)
Definition PutBlockAndMeta (r : Router) (block : Block) (meta : InterchainMeta) : option (option Router) :=
  if decide (rt_count r = 0)%Z then Some (Some r)
  else
    ret ← classify block meta;
    Some (chans ← foldl (λ chans kv, chans ≫= feed_Send (wrapper_of block ret kv.1) kv.2) (Some (channels r)) (go_range (piers r));
          Some (MkRouter (piers r) (subscriptions r) (rt_count r) chans (next_channel r))).

(** ** Blocks that a gateway has missed *)

Context `{StorageLib, BlockFileLib, ChainLib}.

(** Whether there was no error, and what was sent. *)
Fixpoint blockHeaders (l : ChainLedgerImpl) (heights : list Z) : bool * list BlockHeader :=
  match heights with
  | [] => (true, [])
  | i :: heights =>
      match GetBlock l i false with
      | None => (false, [])
      | Some block => let '(ok, sent) := blockHeaders l heights in (ok, b_Header block :: sent)
      end
  end.

Definition GetBlockHeader (l : ChainLedgerImpl) (begin end_ : Z) : bool * list BlockHeader := blockHeaders l (heights_of begin end_).

(** [None] is a panic. *)
Fixpoint interchainTxWrappers (l : ChainLedgerImpl) (appchainID : string) (heights : list Z) :
    option (bool * list (list InterchainTxWrapper)) :=
  match heights with
  | [] => Some (true, [])
  | i :: heights =>
      match GetBlock l i true, GetInterchainMeta l i with
      | Some block, Some meta =>
          ret ← classify block meta;
          '(ok, sent) ← interchainTxWrappers l appchainID heights;
          Some (ok, wrapper_of block ret appchainID :: sent)
      | _, _ => Some (false, [])
      end
  end.

Definition GetInterchainTxWrappers (l : ChainLedgerImpl) (appchainID : string) (begin end_ : Z) :
    option (bool * list (list InterchainTxWrapper)) :=
  interchainTxWrappers l appchainID (heights_of begin end_).
End classify.

(** ** What a receiver gets *)

(** A loop over a map that sets, for every key, the value at this key. *)
Lemma foldl_keyed `{GoRange} {V W} (g : option W → V → W) (m : gmap string V) (t : gmap string W) k :
  foldl (λ t (kv : string * V), <[kv.1 := g (t !! kv.1) kv.2]> t) t (go_range m) !! k =
  match m !! k with Some v => Some (g (t !! k) v) | None => t !! k end.
Proof.
  assert (∀ l : list (string * V), NoDup l.*1 → ∀ t : gmap string W,
    foldl (λ t (kv : string * V), <[kv.1 := g (t !! kv.1) kv.2]> t) t l !! k =
    match (list_to_map l : gmap string V) !! k with Some v => Some (g (t !! k) v) | None => t !! k end) as Hl.
  { intros l. induction l as [|[k' v] l IH]; intros Hnd t'; [done|]. apply NoDup_cons in Hnd as [Hk Hnd]. cbn. rewrite IH by done.
    destruct (decide (k' = k)) as [->|Hne].
    - rewrite (not_elem_of_list_to_map_1 l k) by done. by rewrite !lookup_insert_eq.
    - by rewrite !lookup_insert_ne by done. }
  rewrite Hl by (rewrite go_range_perm; apply NoDup_fst_map_to_list).
  by rewrite (list_to_map_proper _ (map_to_list m)), list_to_map_to_list by (apply go_range_perm || (rewrite go_range_perm; apply NoDup_fst_map_to_list)).
Qed.

(** The indices of the messages are those of transactions of the block. *)
Definition indices_fit (block : Block) (meta : InterchainMeta) : Prop :=
  ∀ k vs, im_Counter meta !! k = Some vs → Forall (λ vi, Z.to_nat (vi_Index vi) < length (b_Transactions block)) vs.

Definition receiver_txs (block : Block) (vs : list VerifiedIndex) : list VerifiedTx := default [] (mapM (verifiedTx block) vs).

(** The messages of the block for the receiver [id], if there are any. *)
Definition messages_for (block : Block) (meta : InterchainMeta) (id : string) : option InterchainTxWrapper :=
  match im_TimeoutCounter meta !! id, im_MultiTxCounter meta !! id, im_Counter meta !! id with
  | None, None, None => None
  | timeouts, multiTxs, counter =>
      Some (MkWrapper (bh_Number (b_Header block)) (receiver_txs block (default [] counter))
        (match timeouts with Some _ => im_TimeoutL2Roots meta | None => [] end) (default [] timeouts) (default [] multiTxs))
  end.

(** What is sent to the gateway [id]. *)
Definition message (block : Block) (meta : InterchainMeta) (id : string) : list InterchainTxWrapper :=
  [default (MkWrapper (bh_Number (b_Header block)) [] [] [] []) (messages_for block meta id)].

Section classified.
Context `{GoRange}.

Lemma txsByReceiver_spec block meta :
  indices_fit block meta →
  ∃ txsM, txsByReceiver block meta = Some txsM ∧ ∀ k, txsM !! k = receiver_txs block <$> im_Counter meta !! k.
Proof.
  intros Hfit. unfold txsByReceiver.
  assert (∀ kv, kv ∈ go_range (im_Counter meta) → is_Some (mapM (verifiedTx block) kv.2)) as Hs.
  { intros [k vs] Hin%elem_of_go_range. apply mapM_is_Some_2. eapply Forall_impl; [by apply (Hfit k)|]. cbn. intros vi Hvi.
    unfold verifiedTx. destruct (lookup_lt_is_Some_2 _ _ Hvi) as [tx ->]. by eexists. }
  set (step := λ (t : gmap string (list VerifiedTx)) (kv : string * list VerifiedIndex), <[kv.1 := receiver_txs block kv.2]> t).
  exists (foldl step ∅ (go_range (im_Counter meta))). split.
  - revert Hs. generalize (∅ : gmap string (list VerifiedTx)). induction (go_range (im_Counter meta)) as [|kv l IH]; intros t Hs; [done|].
    destruct (Hs kv) as [txs Htxs]; [by left|]. cbn -[mapM]. rewrite Htxs. cbn -[mapM].
    assert (step t kv = <[kv.1 := txs]> t) as -> by (unfold step, receiver_txs; by rewrite Htxs).
    apply IH. intros kv' Hin. apply Hs. by right.
  - intros k. unfold step. rewrite (foldl_keyed (λ _ vs, receiver_txs block vs)), lookup_empty. by destruct (im_Counter meta !! k).
Qed.

Lemma foldl_ext_eq {A B} (f g : A → B → A) a l : (∀ a b, f a b = g a b) → foldl f a l = foldl g a l.
Proof. intros Hfg. revert a. induction l as [|b l IH]; intros a; [done|]. cbn. by rewrite Hfg, IH. Qed.

(** A wrapper, or a new one, with its lists of messages set. *)
Definition set_multi (block : Block) (w : option InterchainTxWrapper) v : InterchainTxWrapper :=
  default (MkWrapper (bh_Number (b_Header block)) [] [] [] v) ((λ w, with_wr_MultiTxIbtps w v) <$> w).
Definition set_txs (block : Block) (w : option InterchainTxWrapper) v : InterchainTxWrapper :=
  default (MkWrapper (bh_Number (b_Header block)) v [] [] []) ((λ w, with_wr_Transactions w v) <$> w).

Lemma addMultiTxs_lookup block t (m : gmap string (list string)) k :
  foldl (addMultiTxs block) t (go_range m) !! k = match m !! k with Some v => Some (set_multi block (t !! k) v) | None => t !! k end.
Proof.
  rewrite (foldl_ext_eq _ (λ t kv, <[kv.1 := set_multi block (t !! kv.1) kv.2]> t)); [apply foldl_keyed|].
  intros t' kv. unfold addMultiTxs. by destruct (t' !! kv.1).
Qed.

Lemma addTransactions_lookup block t (m : gmap string (list VerifiedTx)) k :
  foldl (addTransactions block) t (go_range m) !! k = match m !! k with Some v => Some (set_txs block (t !! k) v) | None => t !! k end.
Proof.
  rewrite (foldl_ext_eq _ (λ t kv, <[kv.1 := set_txs block (t !! kv.1) kv.2]> t)); [apply foldl_keyed|].
  intros t' kv. unfold addTransactions. by destruct (t' !! kv.1).
Qed.

Lemma classify_lookup block meta :
  indices_fit block meta → ∃ target, classify block meta = Some target ∧ ∀ id, target !! id = messages_for block meta id.
Proof.
  intros Hfit. destruct (txsByReceiver_spec block meta Hfit) as (txsM & E & Htxs). unfold classify. rewrite E. cbn [mbind option_bind].
  eexists. split; [done|]. intros id. rewrite addTransactions_lookup, Htxs, addMultiTxs_lookup.
  unfold addTimeouts. rewrite (foldl_keyed (λ _ v, MkWrapper (bh_Number (b_Header block)) [] (im_TimeoutL2Roots meta) v [])), lookup_empty.
  unfold messages_for. by destruct (im_TimeoutCounter meta !! id), (im_MultiTxCounter meta !! id), (im_Counter meta !! id).
Qed.

Lemma wrapper_of_message block meta target id :
  (∀ id, target !! id = messages_for block meta id) → wrapper_of block target id = message block meta id.
Proof. intros Ht. unfold wrapper_of, message. rewrite Ht. by destruct (messages_for block meta id). Qed.
End classified.

(** ** Subscriptions *)

(** The channels that get messages. *)
Definition live_in (m : gmap string (list nat)) : list nat := map_to_list m ≫= snd.
Definition live (r : Router) : list nat := live_in (piers r).
Definition queue (r : Router) (c : nat) : list (list InterchainTxWrapper) := default [] (channels r !! c).

Record router_ok (r : Router) : Prop := {
  ro_distinct : NoDup (live r);
  ro_fresh c : c ∈ live r → c < next_channel r;
  ro_subs id c : subscriptions r !! id = Some c → ∃ feed, piers r !! id = Some feed ∧ c ∈ feed;
  ro_count : rt_count r = Z.of_nat (length (live r)) }.

Lemma live_delete (m : gmap string (list nat)) id : live_in m ≡ₚ default [] (m !! id) ++ live_in (delete id m).
Proof.
  unfold live_in. destruct (m !! id) as [feed|] eqn:E; cbn.
  - by rewrite <-(map_to_list_delete m id feed E).
  - by rewrite delete_id.
Qed.

Lemma live_insert (m : gmap string (list nat)) id feed : live_in (<[id := feed]> m) ≡ₚ feed ++ live_in (delete id m).
Proof. rewrite (live_delete _ id), lookup_insert_eq, delete_insert_eq. done. Qed.

Lemma elem_of_live (m : gmap string (list nat)) c : c ∈ live_in m ↔ ∃ id feed, m !! id = Some feed ∧ c ∈ feed.
Proof.
  unfold live_in. rewrite list_elem_of_bind. split.
  - intros ([id feed] & Hc & Hin%elem_of_map_to_list). by exists id, feed.
  - intros (id & feed & Hm & Hc). exists (id, feed). by rewrite elem_of_map_to_list.
Qed.

Lemma NewRouter_ok : router_ok NewRouter.
Proof. split; [apply NoDup_nil_2|by intros c Hc%elem_of_nil|by intros id c Hs|done]. Qed.

Lemma AddPier_ok r id : router_ok r → router_ok (AddPier r id).2.
Proof.
  intros [Hnd Hfresh Hsubs Hcount]. set (c := next_channel r).
  assert (live (AddPier r id).2 ≡ₚ c :: live r) as Hlive.
  { unfold live. cbn [AddPier snd piers]. rewrite live_insert, (live_delete (piers r) id), <-(assoc_L (++)). fold c.
    by rewrite (comm (++) [c]), (assoc (++)), (comm (++) _ [c]). }
  split.
  - rewrite Hlive. constructor; [|done]. intros Hc%Hfresh. unfold c in Hc. lia.
  - intros c'. rewrite Hlive, elem_of_cons. cbn. fold c. intros [->|Hc%Hfresh]; [lia|unfold c; lia].
  - cbn [AddPier snd subscriptions piers]. intros id' c'. rewrite lookup_insert_Some. intros [[<- <-]|[Hne Hs]].
    + rewrite lookup_insert_eq. eexists. split; [done|]. apply elem_of_app. right. by left.
    + rewrite lookup_insert_ne by done. by apply Hsubs.
  - rewrite Hlive. cbn [AddPier snd rt_count length]. rewrite Hcount. lia.
Qed.

Lemma RemovePier_ok r id : router_ok r → router_ok (RemovePier r id).
Proof.
  intros Hok. pose proof Hok as [Hnd Hfresh Hsubs Hcount]. unfold RemovePier.
  destruct (subscriptions r !! id) as [sub|] eqn:Es; [|done]. destruct (Hsubs id sub Es) as (feed & Hf & Hin).
  assert (alter (filter (λ c, c ≠ sub)) id (piers r) = <[id := filter (λ c, c ≠ sub) feed]> (piers r)) as Ha.
  { apply map_eq. intros j. destruct (decide (j = id)) as [->|Hne]; [by rewrite lookup_alter_eq, Hf, lookup_insert_eq|].
    by rewrite lookup_alter_ne, lookup_insert_ne. }
  assert (live r ≡ₚ sub :: live_in (alter (filter (λ c, c ≠ sub)) id (piers r))) as Hlive.
  { rewrite Ha, live_insert. unfold live. rewrite (live_delete (piers r) id), Hf. change (default [] (Some feed)) with feed.
    assert (NoDup feed) as Hndf by (unfold live in Hnd; rewrite (live_delete (piers r) id), Hf in Hnd; by apply NoDup_app in Hnd as [? _]).
    rewrite app_comm_cons. apply Permutation_app_tail. clear -Hin Hndf. induction Hndf as [|x l Hx Hndf IH]; [by apply elem_of_nil in Hin|].
    rewrite filter_cons. destruct (decide (x = sub)) as [->|Hne].
    - rewrite decide_False by tauto. constructor. symmetry. apply reflexive_eq. clear IH Hndf Hin. induction l as [|y l IHl]; [done|]. rewrite not_elem_of_cons in Hx. rewrite filter_cons, decide_True by naive_solver. f_equal. apply IHl. tauto.
    - rewrite decide_True by done. apply elem_of_cons in Hin as [->|Hin]; [done|]. rewrite perm_swap. constructor. by apply IH. }
  rewrite Hlive in Hnd. apply NoDup_cons in Hnd as [Hsub Hnd]. split; unfold live; cbn [piers subscriptions next_channel rt_count].
  - exact Hnd.
  - intros c Hc. apply Hfresh. rewrite Hlive. by right.
  - intros id' c. rewrite lookup_delete_Some. intros [Hne Hs]. rewrite lookup_alter_ne by done. by apply Hsubs.
  - rewrite Hcount, Hlive. cbn [length]. lia.
Qed.

(** ** Delivery *)

Section delivery.
Context `{GoRange}.

Definition room (r : Router) : Prop := ∀ c, c ∈ live r → length (queue r c) ≠ blockChanNumber.

Lemma feed_Send_spec w feed chans :
  NoDup feed → (∀ c, c ∈ feed → length (default [] (chans !! c)) ≠ blockChanNumber) →
  ∃ chans', feed_Send w feed chans = Some chans' ∧
    ∀ c, default [] (chans' !! c) = if decide (c ∈ feed) then default [] (chans !! c) ++ [w] else default [] (chans !! c).
Proof.
  unfold feed_Send. revert chans. induction feed as [|c0 feed IH]; intros chans Hnd Hroom; [by exists chans|].
  apply NoDup_cons in Hnd as [Hc0 Hnd]. cbn -[blockChanNumber]. unfold send at 2. rewrite decide_False by (apply Hroom; by left).
  destruct (IH (<[c0 := default [] (chans !! c0) ++ [w]]> chans) Hnd) as (chans' & E & Hq).
  { intros c Hc. rewrite lookup_insert_ne by (by intros ->). apply Hroom. by right. }
  exists chans'. split; [exact E|]. intros c. rewrite Hq. destruct (decide (c = c0)) as [->|Hne].
  - rewrite decide_False, lookup_insert_eq, decide_True by (done || by left). done.
  - rewrite lookup_insert_ne by done. destruct (decide (c ∈ feed)) as [Hin|Hin].
    + by rewrite decide_True by (by right).
    + rewrite decide_False; [done|]. by intros [?|?]%elem_of_cons.
Qed.

(** The loop over the gateways: the message for a channel is that of the gateway which has it. *)
Lemma feeds_Send_spec (msg : string → list InterchainTxWrapper) (l : list (string * list nat)) chans :
  NoDup (l ≫= snd) → (∀ c, c ∈ l ≫= snd → length (default [] (chans !! c)) ≠ blockChanNumber) →
  ∃ chans', foldl (λ chans kv, chans ≫= feed_Send (msg kv.1) kv.2) (Some chans) l = Some chans' ∧
    (∀ id feed c, (id, feed) ∈ l → c ∈ feed → default [] (chans' !! c) = default [] (chans !! c) ++ [msg id]) ∧
    (∀ c, c ∉ l ≫= snd → default [] (chans' !! c) = default [] (chans !! c)).
Proof.
  revert chans. induction l as [|[id feed] l IH]; intros chans Hnd Hroom.
  { exists chans. split_and!; [done|by intros id feed c Hin%elem_of_nil|done]. }
  cbn in Hnd. apply NoDup_app in Hnd as (Hnd1 & Hdisj & Hnd2).
  destruct (feed_Send_spec (msg id) feed chans Hnd1) as (chans1 & E1 & Hq1).
  { intros c Hc. apply Hroom. cbn. apply elem_of_app. by left. }
  assert (∀ c, c ∈ l ≫= snd → default [] (chans1 !! c) = default [] (chans !! c)) as Hsame.
  { intros c Hc. rewrite Hq1, decide_False; [done|]. intros Hf. by apply (Hdisj c Hf). }
  destruct (IH chans1 Hnd2) as (chans' & E & Hlive & Hother).
  { intros c Hc. rewrite Hsame by done. apply Hroom. cbn. apply elem_of_app. by right. }
  exists chans'. split_and!.
  - cbn -[feed_Send]. rewrite E1. exact E.
  - intros id' feed' c [[= <- <-]|Hin]%elem_of_cons Hc.
    + rewrite Hother by (by apply Hdisj). by rewrite Hq1, decide_True.
    + rewrite (Hlive id' feed' c Hin Hc), Hsame; [done|]. apply list_elem_of_bind. by exists (id', feed').
  - intros c Hc. cbn in Hc. rewrite not_elem_of_app in Hc. destruct Hc as [Hc1 Hc2]. by rewrite Hother, Hq1, decide_False.
Qed.

Lemma PutBlockAndMeta_spec r block meta :
  router_ok r → room r → indices_fit block meta →
  ∃ r', PutBlockAndMeta r block meta = Some (Some r') ∧ piers r' = piers r ∧ router_ok r' ∧
    (∀ id feed c, piers r !! id = Some feed → c ∈ feed → queue r' c = queue r c ++ [message block meta id]) ∧
    (∀ c, c ∉ live r → queue r' c = queue r c).
Proof.
  intros Hok Hroom Hfit. unfold PutBlockAndMeta. pose proof (ro_count _ Hok) as Hcount. case_decide as Hz.
  { exists r. assert (live r = []) as Hl by (destruct (live r); [done|cbn in Hcount; lia]). split_and!; try done.
    intros id feed c Hf Hc. exfalso. assert (c ∈ live r) as Hin by (apply elem_of_live; by exists id, feed). rewrite Hl in Hin. by apply elem_of_nil in Hin. }
  destruct (classify_lookup block meta Hfit) as (target & -> & Ht). cbn [mbind option_bind].
  assert (go_range (piers r) ≫= snd ≡ₚ live r) as Hperm by (unfold live, live_in; by rewrite go_range_perm).
  destruct (feeds_Send_spec (wrapper_of block target) (go_range (piers r)) (channels r)) as (chans' & -> & Hlive & Hother).
  { rewrite Hperm. apply Hok. }
  { intros c. rewrite Hperm. apply Hroom. }
  eexists. split; [done|]. split_and!; [done|by destruct Hok|..].
  - intros id feed c Hf Hc. unfold queue. cbn [channels]. rewrite (Hlive id feed c) by (by apply elem_of_go_range || done).
    by rewrite (wrapper_of_message block meta target id Ht).
  - intros c Hc. unfold queue. cbn [channels]. apply Hother. by rewrite Hperm.
Qed.
End delivery.

(** ** Gateways that were away *)

Section catch_up.
Context `{GoRange, StorageLib, BlockFileLib, ChainLib}.

(** The blocks that are put, one after the other; [None] is a panic or a wait. *)
Fixpoint put_all (r : Router) (es : list entry) : option Router :=
  match es with
  | [] => Some r
  | e :: es => r' ← PutBlockAndMeta r (en_block e) (en_meta e); r' ← r'; put_all r' es
  end.

Definition entry_message (id : string) (e : entry) : list InterchainTxWrapper := message (en_block e) (en_meta e) id.
Definition entry_fits (e : entry) : Prop := indices_fit (en_block e) (en_meta e).

(** *** Blocks at the same time

[listenEvent] of [feedhub.go] starts a routine for every block. A routine sorts the messages of its block and then goes
through the gateways, in some order; sending to the feed of a gateway is one step, for a feed is locked while it sends. *)

Local Notation queues := (gmap nat (list (list InterchainTxWrapper))).

Record routine := MkRoutine {
  ru_entry : entry; ru_sorted : gmap string InterchainTxWrapper; ru_feeds : list (string * list nat) }.

Definition started (r : Router) (e : entry) (ru : routine) : Prop :=
  ru_entry ru = e ∧ classify (en_block e) (en_meta e) = Some (ru_sorted ru) ∧ ru_feeds ru ≡ₚ map_to_list (piers r).

Inductive send_step : queues * list routine → queues * list routine → Prop :=
| send_one q q' l1 e ret id feed rest l2 :
    feed_Send (wrapper_of (en_block e) ret id) feed q = Some q' →
    send_step (q, l1 ++ MkRoutine e ret ((id, feed) :: rest) :: l2) (q', l1 ++ MkRoutine e ret rest :: l2).

(** A routine that runs alone does what [PutBlockAndMeta] says. *)
Lemma routine_alone r e r' :
  rt_count r ≠ 0%Z → PutBlockAndMeta r (en_block e) (en_meta e) = Some (Some r') →
  ∃ ru, started r e ru ∧ rtc send_step (channels r, [ru]) (channels r', [MkRoutine e (ru_sorted ru) []]).
Proof.
  intros Hz. unfold PutBlockAndMeta. rewrite decide_False by done. destruct (classify (en_block e) (en_meta e)) as [ret|] eqn:Ec; [|done]. cbn [mbind option_bind].
  intros [= E]. exists (MkRoutine e ret (go_range (piers r))). split; [split_and!; [done|done|apply go_range_perm]|]. cbn [ru_sorted].
  revert E. generalize (channels r) as q. induction (go_range (piers r)) as [|[id feed] l IH]; intros q; [by intros [= <-]|].
  cbn -[feed_Send]. destruct (feed_Send _ feed q) as [q1|] eqn:E1.
  - intros E. eapply rtc_l; [apply (send_one q q1 [] e ret id feed l []); exact E1|]. by apply IH.
  - intros E. exfalso. revert E. cbn. clear. induction l as [|kv l IH]; [done|exact IH].
Qed.

(** The blocks whose messages for a gateway are still to be sent. *)
Definition pending (id : string) (feed : list nat) (l : list routine) : list entry :=
  l ≫= λ ru, if decide ((id, feed) ∈ ru_feeds ru) then [ru_entry ru] else [].

(** While routines run: each channel has the messages of some blocks, in some order; the others are still to be sent. *)
Record sending (r : Router) (es : list entry) (s : queues * list routine) : Prop := {
  sd_routines : Forall (λ ru, entry_fits (ru_entry ru) ∧ classify (en_block (ru_entry ru)) (en_meta (ru_entry ru)) = Some (ru_sorted ru) ∧
    NoDup (ru_feeds ru).*1 ∧ ∀ id feed, (id, feed) ∈ ru_feeds ru → piers r !! id = Some feed) s.2;
  sd_queue id feed c : piers r !! id = Some feed → c ∈ feed →
    ∃ sent, default [] (s.1 !! c) = queue r c ++ (entry_message id <$> sent) ∧ sent ++ pending id feed s.2 ≡ₚ es }.

Lemma pending_app id feed l1 l2 : pending id feed (l1 ++ l2) = pending id feed l1 ++ pending id feed l2.
Proof. apply bind_app. Qed.

Lemma wrapper_entry e ret id : entry_fits e → classify (en_block e) (en_meta e) = Some ret → wrapper_of (en_block e) ret id = entry_message id e.
Proof.
  intros Hf Hc. destruct (classify_lookup (en_block e) (en_meta e) Hf) as (target & Hc' & Ht). rewrite Hc in Hc'. injection Hc' as <-.
  by rewrite (wrapper_of_message (en_block e) (en_meta e) ret id Ht).
Qed.

Lemma sending_start r es rus :
  Forall entry_fits es → Forall2 (started r) es rus → sending r es (channels r, rus).
Proof.
  intros Hf Hs. assert (∀ id feed, piers r !! id = Some feed → pending id feed rus = es) as Hp.
  { intros id feed Hid. clear Hf. induction Hs as [|e ru es rus (He & _ & Hp) _ IH]; [done|]. unfold pending in *. cbn.
    rewrite decide_True by (rewrite Hp; by apply elem_of_map_to_list). cbn. by rewrite He, IH. }
  split; cbn [fst snd].
  - apply Forall_forall. intros ru Hru. apply list_elem_of_lookup in Hru as [i Hi].
    destruct (Forall2_lookup_r _ _ _ _ _ Hs Hi) as (e & He & Hre & Hc & Hperm). subst e. split_and!; [|done|rewrite Hperm; apply NoDup_fst_map_to_list|].
    + by eapply Forall_lookup_1.
    + intros id feed. rewrite Hperm. by rewrite elem_of_map_to_list.
  - intros id feed c Hid Hc. exists []. unfold queue. rewrite app_nil_r. split; [done|]. cbn. by rewrite Hp.
Qed.

(** Feeds of different gateways have no channel in common. *)
Lemma feeds_disjoint r id1 feed1 id2 feed2 c :
  router_ok r → piers r !! id1 = Some feed1 → piers r !! id2 = Some feed2 → c ∈ feed1 → c ∈ feed2 → id1 = id2.
Proof.
  intros Hok Hp1 Hp2 Hc1 Hc2. destruct (decide (id1 = id2)) as [|Hne]; [done|exfalso].
  pose proof (ro_distinct _ Hok) as Hnd. unfold live in Hnd. rewrite (live_delete _ id1), Hp1 in Hnd. cbn in Hnd.
  apply NoDup_app in Hnd as (_ & Hd & _). apply (Hd c Hc1). apply elem_of_live. exists id2, feed2. by rewrite lookup_delete_ne.
Qed.

Lemma feed_NoDup r id feed : router_ok r → piers r !! id = Some feed → NoDup feed.
Proof.
  intros Hok Hp. pose proof (ro_distinct _ Hok) as Hnd. unfold live in Hnd. rewrite (live_delete _ id), Hp in Hnd.
  by apply NoDup_app in Hnd as (? & _).
Qed.

(** What was sent had room. *)
Lemma feed_Send_room w feed (q q' : queues) c :
  NoDup feed → feed_Send w feed q = Some q' → c ∈ feed → length (default [] (q !! c)) ≠ blockChanNumber.
Proof.
  unfold feed_Send. revert q. induction feed as [|c0 feed IH]; intros q Hnd E Hc; [by apply elem_of_nil in Hc|].
  apply NoDup_cons in Hnd as [Hc0 Hnd]. change (foldl (λ chans c, chans ≫= λ chans, send w chans c) (send w q c0) feed = Some q') in E. unfold send at 2 in E. cbv zeta in E. case_decide as Hl.
  - exfalso. revert E. clear. induction feed as [|c1 feed IH]; [done|exact IH].
  - apply elem_of_cons in Hc as [->|Hc]; [done|]. specialize (IH _ Hnd E Hc). by rewrite lookup_insert_ne in IH by (by intros ->).
Qed.

Lemma sending_step r es s s' : router_ok r → sending r es s → send_step s s' → sending r es s'.
Proof.
  intros Hok [Hru Hq] Hs. destruct Hs as [q q' l1 e ret id feed rest l2 E]. cbn [fst snd] in *.
  apply Forall_app in Hru as [Hr1 [(Hf & Hc & Hnd & Hin) Hr2]%Forall_cons]. cbn [ru_entry ru_sorted ru_feeds] in *.
  pose proof (Hin id feed ltac:(by left)) as Hid. apply NoDup_cons in Hnd as [Hni Hnd].
  rewrite (wrapper_entry e ret id Hf Hc) in E. split; cbn [fst snd].
  - apply Forall_app. split; [done|]. apply Forall_cons. split; [|done]. split_and!; try done. intros. apply Hin. by right.
  - intros id' feed' c Hid' Hc'. destruct (Hq id' feed' c Hid' Hc') as (sent & Hqc & Hperm).
    assert (NoDup feed) as Hndf by (by apply (feed_NoDup r id)).
    assert (∀ c, c ∈ feed → length (default [] (q !! c)) ≠ blockChanNumber) as Hroom by (intros c'; by apply (feed_Send_room (entry_message id e) feed q q')).
    destruct (feed_Send_spec (entry_message id e) feed q Hndf Hroom) as (q1 & E1 & Hq1). rewrite E in E1. injection E1 as <-. rewrite Hq1.
    rewrite pending_app in Hperm |- *. unfold pending at 2 in Hperm. unfold pending at 2. cbn in Hperm |- *. fold (pending id' feed' l2) in Hperm |- *.
    destruct (decide (c ∈ feed)) as [Hcf|Hcf].
    + assert (id' = id) as -> by (by eapply feeds_disjoint). assert (feed' = feed) as -> by congruence.
      rewrite decide_True in Hperm by (by left). rewrite decide_False by (intros Hx; apply Hni; by apply (list_elem_of_fmap_2' _ _ (id, feed))).
      exists (sent ++ [e]). rewrite fmap_app, (assoc_L (++)), <-Hqc. split; [done|]. rewrite <-Hperm. cbn. solve_Permutation.
    + exists sent. split; [done|]. rewrite <-Hperm. do 2 f_equiv. assert (id' ≠ id) as Hne by congruence.
      destruct (decide ((id', feed') ∈ (id, feed) :: rest)) as [Hx|Hx]; destruct (decide ((id', feed') ∈ rest)) as [Hy|Hy]; try done.
      * apply elem_of_cons in Hx as [[= -> ->]|Hx]; done.
      * exfalso. apply Hx. by right.
Qed.
(** With room for all messages, no routine waits for ever. *)
Lemma sending_progress r es q rus :
  router_ok r → (∀ c, c ∈ live r → length (queue r c) + length es ≤ blockChanNumber) → sending r es (q, rus) →
  Exists (λ ru, ru_feeds ru ≠ []) rus → ∃ s, send_step (q, rus) s.
Proof.
  intros Hok Hroom [Hru Hq] (ru & Hin & Hne)%Exists_exists. cbn [fst snd] in *.
  apply list_elem_of_split in Hin as (l1 & l2 & ->). destruct ru as [e ret [|[id feed] rest]]; [done|].
  apply Forall_app in Hru as [_ [(Hf & Hc & _ & Hfd) _]%Forall_cons]. cbn [ru_entry ru_sorted ru_feeds] in *.
  pose proof (Hfd id feed ltac:(by left)) as Hid.
  destruct (feed_Send_spec (wrapper_of (en_block e) ret id) feed q (feed_NoDup _ _ _ Hok Hid)) as (q' & E & _).
  - intros c Hcf. destruct (Hq id feed c Hid Hcf) as (sent & -> & Hperm). rewrite length_app, length_fmap.
    apply Permutation_length in Hperm. rewrite length_app, pending_app, length_app in Hperm. unfold pending at 2 in Hperm. cbn in Hperm.
    rewrite decide_True in Hperm by (by left). cbn in Hperm.
    specialize (Hroom c ltac:(apply elem_of_live; eauto)). lia.
  - eexists. by eapply send_one.
Qed.

Lemma interchainTxWrappers_spec chain l id i n :
  represents chain l → Forall entry_fits chain → i + n ≤ length chain →
  interchainTxWrappers l id (seqZ (Z.of_nat i + 1) (Z.of_nat n)) = Some (true, entry_message id <$> take n (drop i chain)).
Proof.
  intros R Hf. revert i. induction n as [|n IH]; intros i Hn; [done|]. rewrite seqZ_cons by lia.
  destruct (lookup_lt_is_Some_2 chain i) as [e He]; [lia|]. rewrite (drop_S _ _ _ He). cbn [interchainTxWrappers].
  rewrite (represents_GetBlock _ _ _ _ R He). unfold GetInterchainMeta. pose proof (holds_get _ _ (sf_meta _ _ _ (rp_file _ _ R i e He))) as Hm.
  rewrite Hm. destruct (classify_lookup (en_block e) (en_meta e)) as (target & -> & Ht); [by apply (proj1 (Forall_lookup _ _) Hf i)|].
  cbn [mbind option_bind]. replace (Z.succ (Z.of_nat i + 1)) with (Z.of_nat (S i) + 1)%Z by lia.
  replace (Z.pred (Z.of_nat (S n))) with (Z.of_nat n) by lia. rewrite IH by lia. cbn.
  by rewrite (wrapper_of_message (en_block e) (en_meta e) target id Ht).
Qed.

(** C30: A gateway that asks for blocks it has missed gets what the router has sent for these blocks to the gateways
of its chain that were listening: one message for each block, in the order of the blocks, while the channels of those
that listened have the same messages in some order, since a routine for each block sends them, under every
interleaving of these routines and every order of going through the gateways; and as long as something is to be sent,
a routine can go on. The set of listening gateways does not change meanwhile, every channel has room for all the
messages (otherwise [left_channel_blocks]), and the indices of the messages are those of transactions of their block.
*)
Theorem router_catch_up r chain l b e rus :
  router_ok r → represents chain l → Forall entry_fits chain → (1 ≤ b ≤ e)%Z → (e ≤ Z.of_nat (length chain))%Z →
  (∀ c, c ∈ live r → length (queue r c) + length (segment chain b e) ≤ blockChanNumber) →
  Forall2 (started r) (segment chain b e) rus →
  ∀ q rus', rtc send_step (channels r, rus) (q, rus') →
    (Exists (λ ru, ru_feeds ru ≠ []) rus' → ∃ s, send_step (q, rus') s) ∧
    (Forall (λ ru, ru_feeds ru = []) rus' →
     ∀ id feed c, piers r !! id = Some feed → c ∈ feed →
       ∃ sent missed, default [] (q !! c) = queue r c ++ sent ∧ GetInterchainTxWrappers l id b e = Some (true, missed) ∧
         missed = entry_message id <$> segment chain b e ∧ sent ≡ₚ missed).
Proof.
  intros Hok R Hf Hb He Hroom Hst q rus' Hrun.
  assert (sending r (segment chain b e) (q, rus')) as Hs.
  { apply (rtc_ind_r (λ s, sending r (segment chain b e) s) (channels r, rus)) in Hrun; [done| |].
    - apply sending_start; [by apply Forall_take, Forall_drop|done].
    - intros s1 s2 _ Hstep Hs. by eapply sending_step. }
  split; [by apply (sending_progress r (segment chain b e))|].
  intros Hdone id feed c Hp Hc. destruct (sd_queue _ _ _ Hs id feed c Hp Hc) as (sent & Hq & Hperm).
  assert (pending id feed rus' = []) as Hnil.
  { clear -Hdone. induction Hdone as [|ru rus Hru _ IH]; [done|]. unfold pending in *. cbn. rewrite Hru, IH. by rewrite decide_False by (apply not_elem_of_nil). }
  cbn [snd] in Hperm. rewrite Hnil, app_nil_r in Hperm.
  exists (entry_message id <$> sent), (entry_message id <$> segment chain b e). split_and!; [exact Hq| |done|by rewrite Hperm].
  unfold GetInterchainTxWrappers, heights_of, segment.
  pose proof (interchainTxWrappers_spec chain l id (Z.to_nat (b - 1)) (Z.to_nat (e - b + 1)) R Hf) as Hw.
  rewrite !Z2Nat.id in Hw by lia. replace (b - 1 + 1)%Z with b in Hw by lia. apply Hw. lia.
Qed.
End catch_up.

(** ** A concrete run *)

Module RouterSample.
Import ChainSample.
Local Existing Instance storage_by_map.
Local Existing Instance file_by_list.
Local Existing Instance chain_lib.
Local Existing Instance range_by_encoding.

(** The gateways of the chains a and b listen; the first block has a message for b. *)
Definition r1 : Router := (AddPier (AddPier NewRouter "a").2 "b").2.

(** After the routine of the first block. *)
Definition sent1 : Router := default r1 (put_all r1 [entry1]).

Lemma router_catch_up_witness :
  ∃ sent missed, queue sent1 1 = sent ∧ GetInterchainTxWrappers l1 "b" 1 1 = Some (true, missed) ∧ sent ≡ₚ missed ∧
    missed = [[MkWrapper 1 [MkVerifiedTx None true false] [] [] []]].
Proof.
  assert (router_ok r1) as Hok by (apply AddPier_ok, AddPier_ok, NewRouter_ok).
  assert (PutBlockAndMeta r1 (en_block entry1) (en_meta entry1) = Some (Some sent1)) as Hput by (vm_compute; reflexivity).
  destruct (routine_alone r1 entry1 sent1 ltac:(discriminate) Hput) as (ru & Hst1 & Hrun).
  assert (Forall2 (started r1) (segment [entry1] 1 1) [ru]) as Hst by (apply Forall2_cons; split; [exact Hst1|apply Forall2_nil_2]).
  assert (Forall entry_fits [entry1]) as Hf.
  { apply Forall_singleton. intros k vs. unfold entry1, meta1. cbn. rewrite lookup_singleton_Some. intros [_ <-].
    apply Forall_singleton. cbn. lia. }
  assert (∀ c, c ∈ live r1 → length (queue r1 c) + length (segment [entry1] 1 1) ≤ blockChanNumber) as Hroom.
  { intros c Hc. assert (c ∈ [0; 1]) as Hc' by (revert Hc; vm_compute; done). apply (bool_decide_unpack _).
    apply elem_of_cons in Hc' as [->|Hc']; [vm_compute; exact I|]. apply list_elem_of_singleton in Hc' as ->. vm_compute. exact I. }
  destruct (router_catch_up r1 [entry1] l1 1 1 [ru] Hok l1_represents Hf ltac:(lia) ltac:(cbn; lia) Hroom Hst _ _ Hrun) as [_ Hdone].
  destruct (Hdone ltac:(by apply Forall_singleton) "b" [1] 1 eq_refl ltac:(by left)) as (sent & missed & E1 & E2 & E3 & Hperm).
  exists sent, missed. split; [exact E1|]. split; [exact E2|]. split; [exact Hperm|]. rewrite E3. vm_compute. reflexivity.
Defined.

(** A gateway that subscribes twice and leaves once keeps a channel that nobody reads: after 1024 blocks the router waits
for it for ever, and no gateway gets messages. *)
Definition twice : Router := RemovePier (AddPier (AddPier NewRouter "a").2 "a").2 "a".
Definition no_blocks (n : nat) : list entry := replicate n entry1.

Example left_channel_blocks :
  subscriptions twice !! "a" = None ∧ live twice = [0] ∧ is_Some (put_all twice (no_blocks 1024)) ∧ put_all twice (no_blocks 1025) = None.
Proof. split_and!; [reflexivity|vm_compute; reflexivity| |vm_compute; reflexivity]. apply (bool_decide_unpack _). vm_compute. exact I. Qed.
End RouterSample.
