(* ===== verification/Consensus.v ===== *)
(** * Consensus: [src/pkg/order/solo/node.go], [src/pkg/order/etcdraft/node.go], [util.go], [timer_mgr.go] and
[src/pkg/order/mempool/tx_cache.go]

The loops that feed the mempool, take blocks from it and hand blocks to the executor. A loop is a function from a state
and an event to the next state; [None] is a panic, a fatal error or a loop that is stuck. What is sent on a channel is
appended to a list of the state. The core of raft is a parameter: it gives the entries of a log, and the theorems say
what follows when it gives all nodes the same ones. The mempool sees transactions through their account, nonce, hash and
time ([Tx]); [tx_object] is the transaction that it sees. *)
From Stdlib Require Import Ascii.
From S2P Require Import Prelude Btree TxStore Mempool.
From S2P Require Import Storage Account StateLedger Contract TransactionManager Interchain Executor Transactions Blocks ChainLedger ProofPool Syncer.

(** ** [TxCache] *)

(** [tc_RecvTxC] is the content of the channel; [tc_posted] are the sets that were sent. *)
Record TxCache := MkTxCache {
  tc_RecvTxC : list (option Tx); tc_txSet : list Tx; tc_txSetSize : Z; tc_posted : list (list Tx) }.

Definition NewTxCache (txSetSize : Z) : TxCache :=
  MkTxCache [] [] (if decide (txSetSize = 0)%Z then DefaultTxSetSize else txSetSize) [].

Definition postTxSet (tc : TxCache) : TxCache :=
  MkTxCache (tc_RecvTxC tc) [] (tc_txSetSize tc) (tc_posted tc ++ [tc_txSet tc]).

Definition appendTx (tc : TxCache) (tx : option Tx) : TxCache :=
  match tx with
  | None => tc
  | Some tx =>
      let tc := MkTxCache (tc_RecvTxC tc) (tc_txSet tc ++ [tx]) (tc_txSetSize tc) (tc_posted tc) in
      if decide (tc_txSetSize tc ≤ Z.of_nat (length (tc_txSet tc)))%Z then postTxSet tc else tc
  end.

Definition IsFull (tc : TxCache) : bool := bool_decide (Z.of_nat (length (tc_RecvTxC tc)) = DefaultTxCacheSize).

(** A transaction that arrives; a channel that is full blocks ([None]). *)
Definition recvTx (tc : TxCache) (tx : option Tx) : option TxCache :=
  if IsFull tc then None
  else Some (MkTxCache (tc_RecvTxC tc ++ [tx]) (tc_txSet tc) (tc_txSetSize tc) (tc_posted tc)).

(** The cases of [ListenEvent]. A timer that has run out is not held up by [stopTxSetTimer]: it may be received at any
time, also when the set is empty. *)
Inductive CacheEvent := CacheRecv | CacheTimer.

Definition ListenEvent (tc : TxCache) (ev : CacheEvent) : TxCache :=
  match ev with
  | CacheRecv =>
      match tc_RecvTxC tc with
      | [] => tc
      | tx :: rest => appendTx (MkTxCache rest (tc_txSet tc) (tc_txSetSize tc) (tc_posted tc)) tx
      end
  | CacheTimer => postTxSet tc
  end.

(** ** [BatchTimer] *)

(** The keys are the times at which timers were started. *)
Record BatchTimer := MkTimer { isActive : gset Z }.

Definition NewTimer : BatchTimer := MkTimer ∅.
Definition IsBatchTimerActive (t : BatchTimer) : bool := negb (bool_decide (isActive t = ∅)).
Definition StopBatchTimer (t : BatchTimer) : BatchTimer := if decide (isActive t = ∅) then t else MkTimer ∅.
Definition StartBatchTimer (t : BatchTimer) (now : Z) : BatchTimer :=
  MkTimer ({[now]} ∪ isActive (StopBatchTimer t)).

(** What the function given to [AfterFunc] does: whether the timer of this key reports. *)
Definition timer_fires (t : BatchTimer) (key : Z) : bool := bool_decide (key ∈ isActive t).

(** ** Blocks that are handed to the executor *)

Section blocks.
Context (tx_object : option Tx → Transaction).

Definition event_of (local : bool) (batch : RequestBatch) : CommitEvent :=
  let txs := tx_object <$> rb_TxList batch in
  MkCommitEvent (MkBlock (MkBlockHeader (rb_Height batch) (rb_Timestamp batch) "" "" "" "" "") txs "" None None)
    (replicate (length (rb_TxList batch)) local).
End blocks.

(** ** The solo node *)

Section solo.
Context `{BTreeLib, GoRange} (g : string → Z) (tx_object : option Tx → Transaction).

(** [so_posting] is the batch that the main loop is sending on [proposeC], which has no buffer, and [so_proposal] the one
that the other routine has received; the inner [None] is nil. The other routine ends ([so_listening]) when a proposal is
not the next block. *)
Record SoloNode := MkSolo {
  so_isTimed : bool;
  so_mempool : mempoolImpl;
  so_batchMgr : BatchTimer;
  so_lastExec : Z;
  so_commitC : list CommitEvent;
  so_posting : option (option RequestBatch);
  so_proposal : option (option RequestBatch);
  so_listening : bool }.

Definition with_so_pool (n : SoloNode) mpi t post :=
  MkSolo (so_isTimed n) mpi t (so_lastExec n) (so_commitC n) post (so_proposal n) (so_listening n).

Definition NewSoloNode (config : Config) : SoloNode :=
  MkSolo (cfg_IsTimed config) (newMempoolImpl config) NewTimer (cfg_ChainHeight config) [] None None true.

(** The events of the main loop; the numbers are readings of the clock. [SoloNonce] is the call of
[GetPendingNonceByAccount] by the API. *)
Inductive SoloEvent :=
| SoloTxSet (txs : list Tx) (now now1 now2 : Z)
| SoloState (height : Z) (hashes : list string)
| SoloBatchTimeout (now now1 : Z)
| SoloBlockTick (now : Z)
| SoloNonce (account : string).

(** The cases of the main loop of [listenReadyBlock]. *)
Definition soloTxSet (n : SoloNode) (txs : list Tx) (now now1 now2 : Z) : option SoloNode :=
  if so_isTimed n
  then '(mpi, _, _) ← ProcessTransactions g (so_mempool n) txs true true now1 now2;
       Some (with_so_pool n mpi (so_batchMgr n) None)
  else
    let t := if IsBatchTimerActive (so_batchMgr n) then so_batchMgr n else StartBatchTimer (so_batchMgr n) now in
    '(mpi, batch, _) ← ProcessTransactions g (so_mempool n) txs true true now1 now2;
    match batch with
    | Some batch => Some (with_so_pool n mpi (StopBatchTimer t) (Some (Some batch)))
    | None => Some (with_so_pool n mpi t None)
    end.

Definition soloState (n : SoloNode) (height : Z) (hashes : list string) : option SoloNode :=
  if decide (height `mod` 10 = 0)%Z
  then mpi ← CommitTransactions g (so_mempool n) hashes; Some (with_so_pool n mpi (so_batchMgr n) None)
  else Some n.

Definition soloBatchTimeout (n : SoloNode) (now now1 : Z) : option SoloNode :=
  let t := StopBatchTimer (so_batchMgr n) in
  if HasPendingRequest (so_mempool n)
  then
    '(mpi, batch) ← GenerateBlock g (so_mempool n) now1;
    match batch with
    | Some batch => Some (with_so_pool n mpi (StartBatchTimer t now) (Some (Some batch)))
    | None => Some (with_so_pool n mpi t None)
    end
  else Some (with_so_pool n (so_mempool n) t None).

Definition soloBlockTick (n : SoloNode) (now : Z) : option SoloNode :=
  '(mpi, batch) ← GenerateBlock g (so_mempool n) now;
  Some (with_so_pool n mpi (so_batchMgr n) (Some batch)).

Definition solo_main (n : SoloNode) (ev : SoloEvent) : option SoloNode :=
  match ev with
  | SoloTxSet txs now now1 now2 => soloTxSet n txs now now1 now2
  | SoloState height hashes => soloState n height hashes
  | SoloBatchTimeout now now1 => soloBatchTimeout n now now1
  | SoloBlockTick now => soloBlockTick n now
  | SoloNonce account =>
      Some (with_so_pool n (GetPendingNonceByAccount g (so_mempool n) account).2 (so_batchMgr n) (so_posting n))
  end.

(** The other routine, with the proposal that it has received. *)
Definition solo_execute (n : SoloNode) (proposal : option RequestBatch) : option SoloNode :=
  proposal ← proposal;
  if decide (rb_Height proposal ≠ so_lastExec n +u 1)
  then Some (MkSolo (so_isTimed n) (so_mempool n) (so_batchMgr n) (so_lastExec n) (so_commitC n) (so_posting n) None false)
  else
    Some (MkSolo (so_isTimed n) (so_mempool n) (so_batchMgr n) (so_lastExec n +u 1)
            (so_commitC n ++ [event_of tx_object true proposal]) (so_posting n) None (so_listening n)).

(** The other case of that routine: the answer to a query by hash. *)
Definition soloGetTx (n : SoloNode) (hash : string) : SoloNode * option Tx := (n, Mempool.GetTransaction (so_mempool n) hash).

(** Every interleaving of the two routines and of the API. The main loop waits while it is posting; the clock of blocks
ticks only in the timed mode. Each call of the mempool is one step: the source has no lock around its maps, which both
routines and the API use, so that it relies on no two calls being at the same time. *)
Inductive solo_step : SoloNode → SoloNode → Prop :=
| solo_step_main n ev n' :
    so_posting n = None →
    match ev with SoloBlockTick _ => so_isTimed n = true | SoloTxSet txs _ _ _ => ∀ tx, tx ∈ txs → (tx_nonce tx < MaxUint64)%Z | _ => True end →
    solo_main n ev = Some n' → solo_step n n'
| solo_step_nonce n a n' : solo_main n (SoloNonce a) = Some n' → solo_step n n'
| solo_step_receive n b :
    so_posting n = Some b → so_proposal n = None → so_listening n = true →
    solo_step n (MkSolo (so_isTimed n) (so_mempool n) (so_batchMgr n) (so_lastExec n) (so_commitC n) None (Some b) true)
| solo_step_execute n b n' :
    so_proposal n = Some b → solo_execute n b = Some n' → solo_step n n'
| solo_step_getTx n hash :
    so_proposal n = None → so_listening n = true → solo_step n (soloGetTx n hash).1.
End solo.

(** ** The index of the last applied entry, in the database: [util.go] *)

Definition PutUint64 (v : Z) : list Z := (λ i : nat, Z.land (Z.shiftr v (8 * Z.of_nat i)) 255) <$> seq 0 8.

(** [None] is the panic of data that is too short. *)
Definition Uint64 (b : list Z) : option Z :=
  if decide (length b < 8) then None
  else Some (foldr Z.lor 0 (imap (λ i x, Z.shiftl x (8 * Z.of_nat i)) (take 8 b)))%Z.

(** ** The raft node *)

(** [raftpb.Entry]. *)
Inductive EntryType := EntryNormal | EntryConfChange.
Record Entry := MkEntry { e_Type : EntryType; e_Index : Z; e_Data : string }.

(** [raftproto.RaftMessage] of the kinds that are known, and others. *)
Inductive RaftMessage_Type := RaftMessage_CONSENSUS | RaftMessage_BROADCAST_TX | RaftMessage_other.
Record RaftMessage := MkRaftMessage { rm_Type : RaftMessage_Type; rm_FromId : Z; rm_Data : string }.

(** [rn_proposeC] are the batches posted to the core of raft ([None] is nil), [rn_broadcast] the sets of transactions
sent to the other nodes, [rn_commitC] the events for the executor ([None] is the nil at the end of a replay);
[rn_storage] is what the database has under the key [applied], [rn_snapshots] the snapshots taken: index and height. *)
Record RaftNode `{BTreeLib} := MkRaft {
  rn_id : Z;
  rn_leader : Z;
  rn_isTimed : bool;
  rn_peers : nat;
  rn_syncer : StateSyncer;
  rn_storage : option (list Z);
  rn_mempool : mempoolImpl;
  rn_txCache : TxCache;
  rn_batchTimerMgr : BatchTimer;
  rn_proposeC : list (option RequestBatch);
  rn_broadcast : list (list (option Tx));
  rn_commitC : list (option CommitEvent);
  rn_confState : string;
  rn_blockAppliedIndex : gmap Z Z;
  rn_appliedIndex : Z;
  rn_snapCount : Z;
  rn_snapshotIndex : Z;
  rn_snapshots : list (Z * Z);
  rn_lastIndex : Z;
  rn_lastExec : Z;
  rn_justElected : bool }.

Section raft.
Context `{BTreeLib, GoRange} (g : string → Z) (tx_object : option Tx → Transaction).
(** Decoding of log entries, of messages and of sets of transactions; the change of the configuration by an entry; the
answer of the core of raft to a message ([None] is no error); the blocks that other nodes send. *)
Context (Unmarshal_batch : string → option RequestBatch) (Unmarshal_msg : string → option RaftMessage)
  (Unmarshal_txs : string → option (list Tx)) (ApplyConfChange : string → option string)
  (Step_raft : string → option string) (Send_blocks : Z → Z → Z → option (list Block)).
Implicit Types (n : RaftNode).

(** *** Updates of the fields *)

Definition with_leader n leader elected : RaftNode :=
  MkRaft _ (rn_id n) leader (rn_isTimed n) (rn_peers n) (rn_syncer n) (rn_storage n) (rn_mempool n) (rn_txCache n)
    (rn_batchTimerMgr n) (rn_proposeC n) (rn_broadcast n) (rn_commitC n) (rn_confState n) (rn_blockAppliedIndex n)
    (rn_appliedIndex n) (rn_snapCount n) (rn_snapshotIndex n) (rn_snapshots n) (rn_lastIndex n) (rn_lastExec n) elected.

(** The mempool, the timer, and what is posted. *)
Definition with_pool n mpi timer (posted : list (option RequestBatch)) : RaftNode :=
  MkRaft _ (rn_id n) (rn_leader n) (rn_isTimed n) (rn_peers n) (rn_syncer n) (rn_storage n) mpi (rn_txCache n)
    timer (rn_proposeC n ++ posted) (rn_broadcast n) (rn_commitC n) (rn_confState n) (rn_blockAppliedIndex n)
    (rn_appliedIndex n) (rn_snapCount n) (rn_snapshotIndex n) (rn_snapshots n) (rn_lastIndex n) (rn_lastExec n) (rn_justElected n).

Definition with_mempool n mpi : RaftNode := with_pool n mpi (rn_batchTimerMgr n) [].

(** The sets sent to others. *)
Definition with_broadcast n (txSets : list (list (option Tx))) : RaftNode :=
  MkRaft _ (rn_id n) (rn_leader n) (rn_isTimed n) (rn_peers n) (rn_syncer n) (rn_storage n) (rn_mempool n) (rn_txCache n)
    (rn_batchTimerMgr n) (rn_proposeC n) (rn_broadcast n ++ txSets) (rn_commitC n) (rn_confState n) (rn_blockAppliedIndex n)
    (rn_appliedIndex n) (rn_snapCount n) (rn_snapshotIndex n) (rn_snapshots n) (rn_lastIndex n) (rn_lastExec n) (rn_justElected n).

Definition with_txCache n tc : RaftNode :=
  MkRaft _ (rn_id n) (rn_leader n) (rn_isTimed n) (rn_peers n) (rn_syncer n) (rn_storage n) (rn_mempool n) tc
    (rn_batchTimerMgr n) (rn_proposeC n) (rn_broadcast n) (rn_commitC n) (rn_confState n) (rn_blockAppliedIndex n)
    (rn_appliedIndex n) (rn_snapCount n) (rn_snapshotIndex n) (rn_snapshots n) (rn_lastIndex n) (rn_lastExec n) (rn_justElected n).

Definition with_applied n i : RaftNode :=
  MkRaft _ (rn_id n) (rn_leader n) (rn_isTimed n) (rn_peers n) (rn_syncer n) (rn_storage n) (rn_mempool n) (rn_txCache n)
    (rn_batchTimerMgr n) (rn_proposeC n) (rn_broadcast n) (rn_commitC n) (rn_confState n) (rn_blockAppliedIndex n)
    i (rn_snapCount n) (rn_snapshotIndex n) (rn_snapshots n) (rn_lastIndex n) (rn_lastExec n) (rn_justElected n).

Definition with_confState n cs : RaftNode :=
  MkRaft _ (rn_id n) (rn_leader n) (rn_isTimed n) (rn_peers n) (rn_syncer n) (rn_storage n) (rn_mempool n) (rn_txCache n)
    (rn_batchTimerMgr n) (rn_proposeC n) (rn_broadcast n) (rn_commitC n) cs (rn_blockAppliedIndex n)
    (rn_appliedIndex n) (rn_snapCount n) (rn_snapshotIndex n) (rn_snapshots n) (rn_lastIndex n) (rn_lastExec n) (rn_justElected n).

(** The index of the snapshot, and the snapshots taken. *)
Definition with_snapshot n i snaps : RaftNode :=
  MkRaft _ (rn_id n) (rn_leader n) (rn_isTimed n) (rn_peers n) (rn_syncer n) (rn_storage n) (rn_mempool n) (rn_txCache n)
    (rn_batchTimerMgr n) (rn_proposeC n) (rn_broadcast n) (rn_commitC n) (rn_confState n) (rn_blockAppliedIndex n)
    (rn_appliedIndex n) (rn_snapCount n) i (rn_snapshots n ++ snaps) (rn_lastIndex n) (rn_lastExec n) (rn_justElected n).

(** The events sent, the indices of blocks, and the height. *)
Definition with_blocks n evs bai h : RaftNode :=
  MkRaft _ (rn_id n) (rn_leader n) (rn_isTimed n) (rn_peers n) (rn_syncer n) (rn_storage n) (rn_mempool n) (rn_txCache n)
    (rn_batchTimerMgr n) (rn_proposeC n) (rn_broadcast n) (rn_commitC n ++ evs) (rn_confState n) bai
    (rn_appliedIndex n) (rn_snapCount n) (rn_snapshotIndex n) (rn_snapshots n) (rn_lastIndex n) h (rn_justElected n).

(** The database and the indices of blocks. *)
Definition with_storage n data bai : RaftNode :=
  MkRaft _ (rn_id n) (rn_leader n) (rn_isTimed n) (rn_peers n) (rn_syncer n) data (rn_mempool n) (rn_txCache n)
    (rn_batchTimerMgr n) (rn_proposeC n) (rn_broadcast n) (rn_commitC n) (rn_confState n) bai
    (rn_appliedIndex n) (rn_snapCount n) (rn_snapshotIndex n) (rn_snapshots n) (rn_lastIndex n) (rn_lastExec n) (rn_justElected n).

Definition with_syncer n sy : RaftNode :=
  MkRaft _ (rn_id n) (rn_leader n) (rn_isTimed n) (rn_peers n) sy (rn_storage n) (rn_mempool n) (rn_txCache n)
    (rn_batchTimerMgr n) (rn_proposeC n) (rn_broadcast n) (rn_commitC n) (rn_confState n) (rn_blockAppliedIndex n)
    (rn_appliedIndex n) (rn_snapCount n) (rn_snapshotIndex n) (rn_snapshots n) (rn_lastIndex n) (rn_lastExec n) (rn_justElected n).

(** *** Start *)

Definition DefaultSnapshotCount : Z := 1000.

(** [None]: the state syncer cannot be made. [storage] is what the database has, [peers] the number of nodes. *)
Definition NewRaftNode (config : Config) (storage : option (list Z)) (snapCount syncBlocks : Z) (peers : nat) (otherPeers : list Z) :
    option RaftNode :=
  let snapCount := if decide (snapCount = 0)%Z then DefaultSnapshotCount else snapCount in
  syncer ← NewStateSyncer syncBlocks (Z.of_nat (peers / 2 + 1)) otherPeers;
  Some (MkRaft _ (cfg_ID config) 0 (cfg_IsTimed config) peers syncer storage (newMempoolImpl config)
          (NewTxCache (cfg_TxSliceSize config)) NewTimer [] [] [] "" ∅ 0 snapCount 0 [] 0 (cfg_ChainHeight config) false).

Definition RaftQuorum n : Z := Z.of_nat (rn_peers n / 2 + 1).

Definition loadAppliedIndex n : option Z :=
  match rn_storage n with
  | None => Some 0%Z
  | Some dat => Uint64 dat
  end.

(** [Start] and [run]; [snap] is the index of the snapshot in memory, with the configuration in it. *)
Definition StartRaft n (snap : Z) (confState : string) : option RaftNode :=
  i ← loadAppliedIndex n;
  let n := with_storage n (rn_storage n) (<[rn_lastExec n := i]> (rn_blockAppliedIndex n)) in
  Some (with_applied (with_snapshot (with_confState n confState) snap []) snap).

Definition isLeader n : bool := bool_decide (rn_leader n = rn_id n).

(** The error. *)
Definition ReadyErr n : option string :=
  if decide (rn_leader n = 0)%Z then Some "in leader election status" else None.

(** *** Transactions *)

Definition processTransactions n (txList : list Tx) (isLocal : bool) (now now1 now2 : Z) : option RaftNode :=
  if rn_isTimed n
  then '(mpi, _, _) ← ProcessTransactions g (rn_mempool n) txList true isLocal now1 now2; Some (with_mempool n mpi)
  else if isLeader n
  then
    let t := if IsBatchTimerActive (rn_batchTimerMgr n) then rn_batchTimerMgr n else StartBatchTimer (rn_batchTimerMgr n) now in
    '(mpi, batch, _) ← ProcessTransactions g (rn_mempool n) txList true isLocal now1 now2;
    match batch with
    | Some batch => Some (with_pool n mpi (StopBatchTimer t) [Some batch])
    | None => Some (with_pool n mpi t [])
    end
  else
    '(mpi, _, _) ← ProcessTransactions g (rn_mempool n) txList false isLocal now1 now2; Some (with_mempool n mpi).

(** A transaction from the API; with the error. *)
Definition PrepareRaft n (tx : Tx) (now now1 now2 : Z) : option (RaftNode * option string) :=
  match ReadyErr n with
  | Some err => Some (n, Some ("node get ready failed: " +:+ err))
  | None =>
      if IsFull (rn_txCache n) && IsPoolFull (rn_mempool n)
      then Some (n, Some "transaction cache are full, we will drop this transaction")
      else
        n ← processTransactions n [tx] true now now1 now2;
        tc ← recvTx (rn_txCache n) (Some tx);
        Some (with_txCache n tc, None)
  end.

Definition broadcastTx n (txSet : list Tx) : RaftNode := with_broadcast n [Some <$> txSet].

Definition reBroadcastTx n (checkInterval now : Z) : option RaftNode :=
  '(mpi, sets) ← GetTimeoutTransactions (rn_mempool n) checkInterval now;
  Some (with_broadcast (with_mempool n mpi) sets).

Definition handleRemoveTx n (checkAlive now : Z) : RaftNode :=
  with_mempool n (RemoveAliveTimeoutTxs (rn_mempool n) checkAlive now).1.

Definition processBatchTimeout n (now now1 : Z) : option RaftNode :=
  let t := StopBatchTimer (rn_batchTimerMgr n) in
  if isLeader n
  then
    if HasPendingRequest (rn_mempool n)
    then
      '(mpi, batch) ← GenerateBlock g (rn_mempool n) now1;
      match batch with
      | Some batch => Some (with_pool n mpi (StartBatchTimer t now) [Some batch])
      | None => Some (with_pool n mpi t [])
      end
    else Some (with_pool n (rn_mempool n) t [])
  else Some (with_pool n (rn_mempool n) t []).

Definition processGenerateBlockTimeout n (now : Z) : option RaftNode :=
  if isLeader n
  then '(mpi, batch) ← GenerateBlock g (rn_mempool n) now; Some (with_pool n mpi (rn_batchTimerMgr n) [batch])
  else Some n.

(** With the error. *)
Definition processRaftCoreMsg n (msg : string) (now now1 now2 : Z) : option (RaftNode * option string) :=
  match Unmarshal_msg msg with
  | None => Some (n, Some "unmarshal raft message error")
  | Some rm =>
      match rm_Type rm with
      | RaftMessage_CONSENSUS => Some (n, Step_raft (rm_Data rm))
      | RaftMessage_BROADCAST_TX =>
          match Unmarshal_txs (rm_Data rm) with
          | None => Some (n, Some "unmarshal transactions error")
          | Some txs => n ← processTransactions n txs false now now1 now2; Some (n, None)
          end
      | RaftMessage_other => Some (n, Some "unexpected raft message received")
      end
  end.

(** *** Entries of the log *)

Definition getBlockAppliedIndex n : Z :=
  let height := foldl (λ (height : Z) k, if decide (height < k)%Z then k else height) 0%Z (go_keys (rn_blockAppliedIndex n)) in
  default 0%Z (rn_blockAppliedIndex n !! height).

(** [None] is fatal. *)
Definition entriesToApply n (allEntries : list Entry) : option (list Entry) :=
  match allEntries with
  | [] => Some []
  | first :: _ =>
      let firstIdx := e_Index first in
      if decide (rn_appliedIndex n +u 1 < firstIdx)%Z then None
      else
        let k := u64 (rn_appliedIndex n - firstIdx + 1) in
        if decide (k < Z.of_nat (length allEntries))%Z then Some (drop (Z.to_nat k) allEntries) else Some []
  end.

Definition mint n (requestBatch : RequestBatch) : RaftNode :=
  with_blocks n [Some (event_of tx_object false requestBatch)] (rn_blockAppliedIndex n) (rn_lastExec n).

(** The end of a round of [publishEntries]. *)
Definition afterCommit n (e : Entry) : RaftNode :=
  let n := with_applied n (e_Index e) in
  if decide (e_Index e = rn_lastIndex n) then with_blocks n [None] (rn_blockAppliedIndex n) (rn_lastExec n) else n.

(** A round; [haltC] is never made, so that nothing is received from it. *)
Definition publishEntry n (e : Entry) : RaftNode :=
  match e_Type e with
  | EntryNormal =>
      if decide (e_Data e = "") then afterCommit n e
      else if decide (e_Index e ≤ getBlockAppliedIndex n)%Z then with_applied n (e_Index e)
      else
        match Unmarshal_batch (e_Data e) with
        | None => n
        | Some requestBatch =>
            if decide (rb_Height requestBatch ≠ rn_lastExec n +u 1) then with_applied n (e_Index e)
            else
              let n := mint n requestBatch in
              let n := with_blocks n [] (<[rb_Height requestBatch := e_Index e]> (rn_blockAppliedIndex n)) (rb_Height requestBatch) in
              let n := if isLeader n then n else with_mempool n (SetBatchSeqNo (rn_mempool n) (rb_Height requestBatch)) in
              afterCommit n e
        end
  | EntryConfChange =>
      match ApplyConfChange (e_Data e) with
      | None => n
      | Some confState => afterCommit (with_confState n confState) e
      end
  end.

Definition publishEntries n (ents : list Entry) : RaftNode := fold_left publishEntry ents n.

(** *** Snapshots *)

(** [ok]: whether [TakeSnapshot] has no error; the data of the snapshot is the height. *)
Definition maybeTriggerSnapshot n (ok : bool) : RaftNode :=
  if decide (u64 (rn_appliedIndex n - rn_snapshotIndex n) < rn_snapCount n)%Z then n
  else if ok then with_snapshot n (rn_appliedIndex n) [(rn_appliedIndex n, rn_lastExec n)] else n.

(** The rounds of [recoverFromSnapshot]: [chainHeights] are the heights of the ledger at the rounds. [None]: the target is
not reached, or a round waits for ever, because the syncer has sent nothing. *)
Fixpoint syncRounds (rand : nat → nat) (attempts fuel : nat) (target : Z) (chainHeights : list Z) (sy : StateSyncer) (lastExec : Z) :
    option (list CommitEvent * Z * StateSyncer) :=
  match chainHeights with
  | [] => None
  | chainHeight :: chainHeights =>
      '(ok, sent, sy) ← SyncCFTBlocks Send_blocks sy rand attempts fuel (chainHeight +u 1) target;
      if (ok : bool)
      then
        let '(evs, lastExec) := executeSynced lastExec sent in
        if decide (lastExec = target) then Some (evs, lastExec, sy)
        else '(evs', lastExec, sy) ← syncRounds rand attempts fuel target chainHeights sy lastExec; Some (evs ++ evs', lastExec, sy)
      else None
  end.

(** [snapshot]: the height in it and its index; [None] is an error of loading it. *)
Definition recoverFromSnapshot n (snapshot : option (Z * Z)) (rand : nat → nat) (attempts fuel : nat) (chainHeights : list Z) : option RaftNode :=
  match snapshot with
  | None => Some n
  | Some (target, index) =>
      '(evs, lastExec, sy) ← syncRounds rand attempts fuel target chainHeights (rn_syncer n) (rn_lastExec n);
      let n := with_syncer (with_blocks n (Some <$> evs) (rn_blockAppliedIndex n) lastExec) sy in
      Some (with_snapshot (with_applied n index) index [])
  end.

(** *** Reports of executed blocks *)

Definition writeAppliedIndex n (index : Z) : RaftNode := with_storage n (Some (PutUint64 index)) (rn_blockAppliedIndex n).

Definition reportState n (height : Z) (hashes : list string) : option RaftNode :=
  match rn_blockAppliedIndex n !! height with
  | None => Some n
  | Some appliedIndex =>
      let n := writeAppliedIndex n appliedIndex in
      let n := with_storage n (rn_storage n) (delete (u64 (height - 1)) (rn_blockAppliedIndex n)) in
      mpi ← CommitTransactions g (rn_mempool n) hashes; Some (with_mempool n mpi)
  end.

(** *** The loop *)

Definition becomeFollower n : RaftNode := with_pool n (rn_mempool n) (StopBatchTimer (rn_batchTimerMgr n)) [].

(** What the core of raft hands over, with the other things that the case reads: [rd_recover] is there when the snapshot
is not empty; [rd_ram] is the last index in memory, [rd_ok] whether a snapshot can be taken. *)
Record Recovery := MkRecovery {
  rc_snapshot : option (Z * Z); rc_rand : nat → nat; rc_attempts : nat; rc_fuel : nat; rc_chainHeights : list Z }.
Record Ready := MkReady {
  rd_recover : option Recovery; rd_Lead : option Z; rd_CommittedEntries : list Entry; rd_ram : Z; rd_ok : bool }.

Definition changeLeader n (lead : option Z) : RaftNode :=
  match lead with
  | None => n
  | Some newLeader =>
      if decide (newLeader = rn_leader n) then n
      else
        let n := if decide (newLeader = rn_id n) then with_leader n (rn_leader n) true else n in
        let n := if isLeader n then becomeFollower n else n in
        with_leader n newLeader (rn_justElected n)
  end.

Definition afterElection n (ram : Z) : RaftNode :=
  if rn_justElected n
  then
    let n := with_mempool n (SetBatchSeqNo (rn_mempool n) (rn_lastExec n)) in
    if decide (rn_appliedIndex n +u 1 < ram)%Z then n else with_leader n (rn_leader n) false
  else n.

Definition handleReady n (rd : Ready) : option RaftNode :=
  n ← match rd_recover rd with
      | None => Some n
      | Some r => recoverFromSnapshot n (rc_snapshot r) (rc_rand r) (rc_attempts r) (rc_fuel r) (rc_chainHeights r)
      end;
  let n := changeLeader n (rd_Lead rd) in
  n ← match rd_CommittedEntries rd with
      | [] => Some n
      | _ => ents ← entriesToApply n (rd_CommittedEntries rd); Some (publishEntries n ents)
      end;
  Some (maybeTriggerSnapshot (afterElection n (rd_ram rd)) (rd_ok rd)).

(** The cases of [listenRaftMsg], the calls of the API, and the loop of the cache. *)
Inductive RaftEvent :=
| RaftMsg (msg : string) (now now1 now2 : Z)
| RaftTxSet (txSet : list Tx)
| RaftPrepare (tx : Tx) (now now1 now2 : Z)
| RaftState (height : Z) (hashes : list string)
| RaftRebroadcast (checkInterval now : Z)
| RaftRemove (checkAlive now : Z)
| RaftBatchTimeout (now now1 : Z)
| RaftBlockTick (now : Z)
| RaftReady (rd : Ready)
| RaftNonce (account : string)
| RaftCache (ev : CacheEvent).

Definition listenRaftMsg n (ev : RaftEvent) : option RaftNode :=
  match ev with
  | RaftMsg msg now now1 now2 => fst <$> processRaftCoreMsg n msg now now1 now2
  | RaftTxSet txSet => Some (broadcastTx n txSet)
  | RaftPrepare tx now now1 now2 => fst <$> PrepareRaft n tx now now1 now2
  | RaftState height hashes => reportState n height hashes
  | RaftRebroadcast checkInterval now => reBroadcastTx n checkInterval now
  | RaftRemove checkAlive now => Some (handleRemoveTx n checkAlive now)
  | RaftBatchTimeout now now1 => processBatchTimeout n now now1
  | RaftBlockTick now => processGenerateBlockTimeout n now
  | RaftReady rd => handleReady n rd
  | RaftNonce account => Some (with_mempool n (GetPendingNonceByAccount g (rn_mempool n) account).2)
  | RaftCache ev => Some (with_txCache n (ListenEvent (rn_txCache n) ev))
  end.
End raft.
