(* ===== verification/ConsensusTheorems.v ===== *)
(** * Theorems about consensus

No transaction is lost in the cache; a node sends a transaction to consensus at most once; a solo node commits
consecutive blocks under every interleaving of its routines; the blocks of a raft node are determined by the log, also
across restarts, and where this fails. *)
From Stdlib Require Import Ascii.
From S2P Require Import Prelude Btree TxStore TxStoreProps Mempool BatchProps MempoolProps MempoolTheorems.
From S2P Require Import Storage Account StateLedger Contract TransactionManager Interchain Executor Transactions Blocks ChainLedger ProofPool Syncer Consensus.

(** ** The index in the database *)

Lemma testbit_byte v i j :
  (0 ≤ i)%Z → (0 ≤ j)%Z →
  Z.testbit (Z.shiftl (Z.land (Z.shiftr v i) 255) i) j = Z.testbit v j && ((i <=? j)%Z && (j <? i + 8)%Z).
Proof.
  intros Hi Hj. rewrite Z.shiftl_spec by done. change 255%Z with (Z.ones 8).
  destruct (Z.leb_spec i j) as [Hij|Hij].
  - rewrite Z.land_spec, Z.shiftr_spec, Z.testbit_ones_nonneg by lia. replace (j - i + i)%Z with j by lia.
    destruct (Z.testbit v j); lia.
  - rewrite Z.testbit_neg_r by lia. by destruct (Z.testbit v j).
Qed.

(** The index that is written is the one that is loaded. *)
Lemma Uint64_PutUint64 v : is_u64 v → Uint64 (PutUint64 v) = Some v.
Proof.
  intros Hv. unfold Uint64. rewrite decide_False by (cbn; lia). f_equal. unfold PutUint64. cbn -[Z.shiftl Z.land Z.shiftr Z.lor].
  apply Z.bits_inj'. intros j Hj. rewrite !Z.lor_spec, !testbit_byte, Z.bits_0 by lia.
  destruct (Z.testbit v j) eqn:Ev; [|done]. assert (j < 64)%Z; [|rewrite !andb_true_l, !orb_true_iff, !andb_true_iff, !Z.leb_le, !Z.ltb_lt; lia].
  destruct (decide (j < 64)%Z); [done|]. rewrite (Z.bits_above_log2 v j) in Ev; [done|unfold is_u64 in Hv; lia|].
  destruct (decide (v = 0)%Z) as [->|]; [cbn; lia|]. apply Z.log2_lt_pow2; [unfold is_u64 in Hv; lia|].
  apply Z.lt_le_trans with (2 ^ 64)%Z; [apply Hv|]. apply Z.pow_le_mono_r; lia.
Qed.

(** ** The cache *)

(** A transaction that arrives, or an event of the loop. *)
Inductive cache_step : list (option Tx) * TxCache → list (option Tx) * TxCache → Prop :=
| cache_step_recv received tc tx tc' :
    recvTx tc tx = Some tc' → cache_step (received, tc) (received ++ [tx], tc')
| cache_step_event received tc ev :
    cache_step (received, tc) (received, ListenEvent tc ev).

Record cache_inv (received : list (option Tx)) (tc : TxCache) : Prop := {
  ci_all : omap id received = concat (tc_posted tc) ++ tc_txSet tc ++ omap id (tc_RecvTxC tc);
  ci_set : (Z.of_nat (length (tc_txSet tc)) < tc_txSetSize tc)%Z;
  ci_posted : Forall (λ s, Z.of_nat (length s) ≤ tc_txSetSize tc)%Z (tc_posted tc) }.

Lemma postTxSet_inv received tc :
  omap id received = concat (tc_posted tc) ++ tc_txSet tc ++ omap id (tc_RecvTxC tc) → (0 < tc_txSetSize tc)%Z →
  (Z.of_nat (length (tc_txSet tc)) ≤ tc_txSetSize tc)%Z → Forall (λ s, Z.of_nat (length s) ≤ tc_txSetSize tc)%Z (tc_posted tc) →
  cache_inv received (postTxSet tc).
Proof.
  intros Hall Hpos Hset Hp. split; cbn; [|done|].
  - rewrite Hall, concat_app. cbn. by rewrite app_nil_r, <-(assoc_L (++)).
  - apply Forall_app. split; [done|]. by apply Forall_singleton.
Qed.

Lemma cache_step_inv x y : cache_step x y → cache_inv x.1 x.2 → cache_inv y.1 y.2.
Proof.
  destruct 1 as [received tc tx tc' Hr|received tc ev]; cbn; intros [Hall Hset Hp].
  - unfold recvTx in Hr. destruct (IsFull tc); [done|]. injection Hr as <-. split; cbn; [|done|done].
    by rewrite !omap_app, Hall, <-!(assoc_L (++)).
  - destruct ev; cbn; [|apply postTxSet_inv; try done; lia]. destruct (tc_RecvTxC tc) as [|[tx|] rest] eqn:E; cbn in Hall |- *.
    + split; [by rewrite E|done|done].
    + case_decide as Hfull.
      * apply postTxSet_inv; cbn; try done; [by rewrite Hall, <-!(assoc_L (++))|lia|rewrite length_app; cbn; lia].
      * split; cbn; [by rewrite Hall, <-!(assoc_L (++))|lia|done].
    + by split.
Qed.

(** The cache loses no transaction and keeps their order: those received are those of the sets that were sent, those
of the set that is being made and those still in the channel. No set is larger than the configured size. *)
Theorem cache_keeps size received tc :
  is_u64 size → rtc cache_step ([], NewTxCache size) (received, tc) →
  omap id received = concat (tc_posted tc) ++ tc_txSet tc ++ omap id (tc_RecvTxC tc) ∧
  Forall (λ s, Z.of_nat (length s) ≤ tc_txSetSize tc)%Z (tc_posted tc).
Proof.
  intros Hs Hr. change (received, tc) with ((received, tc).1, (received, tc).2) in Hr.
  assert (cache_inv received tc) as [? _ ?]; [|done].
  apply (rtc_ind_r (λ y, cache_inv y.1 y.2) ([], NewTxCache size)) in Hr; [done|..].
  - split; cbn; [done| |done]. case_decide; [done|]. unfold is_u64 in Hs. lia.
  - intros x y _ Hxy Hx. by eapply cache_step_inv.
Qed.

(** ** What a pool has sent *)

Section sent.
Context `{BTreeLib, GoRange} (g : string → Z).
Implicit Types (mpi : mempoolImpl) (sent : list orderedIndexKey).

(** The accounts and nonces of the transactions of a batch. *)
Definition batch_keys (batch : RequestBatch) : list orderedIndexKey :=
  omap (fmap (λ tx, OrderedIndexKey (tx_from tx) (tx_nonce tx))) (rb_TxList batch).

Definition keys_of (batch : option RequestBatch) : list orderedIndexKey := from_option batch_keys [] batch.

(** What was sent is marked as sent or has left the pool, and the next transactions of its account come after it. *)
Record sent_inv sent mpi : Prop := {
  se_pool : pool_inv g (txStore mpi);
  se_NoDup : NoDup sent;
  se_key k : k ∈ sent → ∃ p, pendingNonces (ts_nonceCache (txStore mpi)) !! oik_account k = Some p ∧ (oik_nonce k < p)%Z ∧
    (k ∈ batchedTxs (txStore mpi) ∨ getTxByOrderKey (txStore mpi) (oik_account k) (oik_nonce k) = None) }.

(** What a call that may make a block does to the rest of the state. *)
Definition numbered mpi (batch : option RequestBatch) mpi' : Prop :=
  isTimed mpi' = isTimed mpi ∧
  match batch with
  | None => batchSeqNo mpi' = batchSeqNo mpi
  | Some batch => batchSeqNo mpi' = batchSeqNo mpi +u 1 ∧ rb_Height batch = batchSeqNo mpi' ∧ Forall is_Some (rb_TxList batch)
  end.

Lemma good_block_keys mpi keys batch : good_block g mpi keys batch → batch_keys batch = keys ∧ Forall is_Some (rb_TxList batch).
Proof.
  intros [_ _ Htxs _ _]. unfold batch_keys. induction Htxs as [|k otx keys txs (tx & -> & _ & Ha & Hn) _ [IH1 IH2]]; [done|].
  cbn. rewrite IH1, Ha, Hn. split; [by destruct k|]. by constructor.
Qed.

Lemma generateBlock_static mpi now mpi' batch : generateBlock g mpi now = Some (mpi', batch) → isTimed mpi' = isTimed mpi.
Proof.
  unfold generateBlock. destruct (collectBatch g mpi); [|done]. cbn. destruct (_ && _ && _); by intros [= <- <-].
Qed.

Lemma generateBlock_sent sent mpi now mpi' batch :
  sent_inv sent mpi → generateBlock g mpi now = Some (mpi', batch) → sent_inv (sent ++ keys_of batch) mpi' ∧ numbered mpi batch mpi'.
Proof.
  intros [Hinv Hnd Hkey] Hgen. pose proof (generateBlock_static _ _ _ _ Hgen) as Ht.
  destruct (generateBlock_block g mpi now Hinv) as (mpi1 & keys & ob & Hgen' & Hb & Hob). rewrite Hgen in Hgen'. injection Hgen' as <- <-.
  destruct (generateBlock_same g _ _ _ _ (store_inv_ready_ok _ _ _ _ Hinv) Hgen) as [Hsame Hp].
  assert (keys_of batch = keys ∧ numbered mpi batch mpi') as [-> Hnum].
  { destruct batch as [batch|]; cbn; [|destruct Hob as (-> & ? & _); by split].
    destruct Hob as [Hgood Hseq]. destruct (good_block_keys _ _ _ Hgood) as [? ?]. destruct Hgood as [_ _ _ _ Hh].
    split; [done|]. split; [done|]. by rewrite <-Hh. }
  assert (∀ k, k ∈ keys → k ∉ batchedTxs (txStore mpi) ∧ ∃ k', k = otk_key k' ∧ k' ∈ bt_Ascend (priorityIndex (txStore mpi))) as Hnew.
  { intros k Hk. destruct batch as [batch|]; [|destruct Hob as [-> _]; by apply elem_of_nil in Hk].
    destruct Hob as [[Ho Hr _ _ _] _]. split; [by eapply sent_in_order_fresh|]. by apply list_elem_of_fmap, Hr. }
  split; [|done]. split.
  - by eapply generateBlock_inv.
  - apply NoDup_app. split_and!; [done|..].
    + intros k (p & _ & _ & [Hin|Hno])%Hkey Hk%Hnew; [tauto|]. destruct Hk as (_ & k' & -> & Hk').
      destruct (si_priority _ _ _ _ Hinv k' Hk') as (tx & _ & Htx & _). cbn in Hno. congruence.
    + destruct batch as [batch|]; [|destruct Hob as [-> _]; constructor]. destruct Hob as [[Ho _ _ _ _] _].
      by eapply sent_in_order_NoDup.
  - intros k [Hk|Hk]%elem_of_app; rewrite Hp, (same_pool_pool _ _ _ _ _ Hsame); setoid_rewrite Hb.
    + destruct (Hkey k Hk) as (p & ? & ? & ?). exists p. tauto.
    + destruct (Hnew k Hk) as (_ & k' & -> & Hk'). destruct (si_priority _ _ _ _ Hinv k' Hk') as (tx & p & _ & _ & ? & ?).
      exists p. cbn. tauto.
Qed.

Lemma GenerateBlock_sent sent mpi now mpi' batch :
  sent_inv sent mpi → GenerateBlock g mpi now = Some (mpi', batch) → sent_inv (sent ++ keys_of batch) mpi' ∧ numbered mpi batch mpi'.
Proof.
  intros Hinv. unfold GenerateBlock. destruct (_ && _); [|by apply generateBlock_sent]. intros [= <- <-]. cbn. by rewrite app_nil_r.
Qed.

Lemma accepted_sent sent mpi txs s1 :
  sent_inv sent mpi → accepted g (txStore mpi) txs s1 → sent_inv sent (with_txStore mpi s1).
Proof.
  intros [Hinv Hnd Hkey] [Hinv1 _ Hold _ Hb Hle]. split; [done|done|]. intros k Hk. cbn.
  destruct (Hkey k Hk) as (p & Hp & Hlt & Hs). destruct (Hle _ _ Hp) as (p' & Hp' & ?). exists p'. split; [done|]. split; [lia|].
  rewrite Hb, Hold; [done|]. intros tx [_ [Hadm _]]%admitted_elem [= E1 E2]. rewrite E1, E2 in Hadm. unfold pendingNonce in Hadm.
  rewrite Hp in Hadm. cbn in Hadm. lia.
Qed.

Lemma ProcessTransactions_sent sent mpi txs isLeader isLocal now1 now2 mpi' batch posted :
  sent_inv sent mpi → (∀ tx, tx ∈ txs → tx_nonce tx < MaxUint64)%Z →
  ProcessTransactions g mpi txs isLeader isLocal now1 now2 = Some (mpi', batch, posted) →
  sent_inv (sent ++ keys_of batch) mpi' ∧ numbered mpi batch mpi'.
Proof.
  intros Hs Hb. destruct (accept_spec g (txStore mpi) txs isLocal now1 (se_pool _ _ Hs) Hb) as (s1 & Hs1 & Hacc).
  unfold ProcessTransactions. destruct (insertTxs _ _ _ _) as [s0 dirty]. cbn in Hs1. rewrite Hs1. cbn [mbind option_bind].
  pose proof (accepted_sent _ _ _ _ Hs Hacc) as Hs'. destruct (isLeader && _ && _).
  - destruct (generateBlock g (with_txStore mpi s1) now2) as [[mpi1 batch1]|] eqn:Hgen; [|done]. cbn. intros [= <- <- <-].
    by apply (generateBlock_sent sent (with_txStore mpi s1) now2).
  - intros [= <- <- <-]. cbn. by rewrite app_nil_r.
Qed.

Lemma CommitTransactions_sent sent mpi hashes mpi' :
  sent_inv sent mpi → CommitTransactions g mpi hashes = Some mpi' →
  sent_inv sent mpi' ∧ batchSeqNo mpi' = batchSeqNo mpi ∧ isTimed mpi' = isTimed mpi.
Proof.
  intros [Hinv Hnd Hkey] Hc. assert (batchSeqNo mpi' = batchSeqNo mpi ∧ isTimed mpi' = isTimed mpi) as Hst.
  { unfold CommitTransactions, processCommitTransactions in Hc. destruct (foldl _ _ _); [|done]. cbn in Hc. by injection Hc as <-. }
  split; [|done]. destruct (processCommit_ok g mpi hashes Hinv) as (mpi1 & Hc' & [Hi _ _ Hpool Hrm Hpe _ Hb]).
  unfold CommitTransactions in Hc. rewrite Hc in Hc'. injection Hc' as <-. split; [done|done|]. intros k Hk.
  destruct (Hkey k Hk) as (p & Hp & Hlt & Hs). exists p. rewrite Hpe, Hb. split; [done|]. split; [done|].
  destruct (Hpool (oik_account k) (oik_nonce k)) as [E|[E _]]; [|by right]. rewrite E. destruct Hs as [Hin|?]; [|by right].
  destruct (decide (Exists (λ h, txHashMap (txStore mpi) !! h = Some k) hashes)) as [Ht|Hnt].
  - right. apply Exists_exists in Ht. assert (touched (txStore mpi) hashes k) as Htk by (destruct Ht as (h & ? & ?); by exists h).
    rewrite <-E. apply Hrm; [done|]. destruct (processCommit_ok g mpi hashes Hinv) as (mpi1 & Hc' & [_ Hab _ _ _ _ _ _]).
    rewrite Hc in Hc'. injection Hc' as <-. by apply Hab.
  - left. split; [done|]. intros (h & ? & ?). apply Hnt, Exists_exists. by exists h.
Qed.

Lemma GetPendingNonce_sent sent mpi a :
  sent_inv sent mpi →
  let mpi' := (GetPendingNonceByAccount g mpi a).2 in
  sent_inv sent mpi' ∧ batchSeqNo mpi' = batchSeqNo mpi ∧ isTimed mpi' = isTimed mpi.
Proof.
  intros [Hinv Hnd Hkey]. cbn. pose proof (mempool_step_inv g _ _ (step_GetPendingNonce g mpi a) Hinv) as Hinv'.
  revert Hinv'. unfold GetPendingNonceByAccount. destruct (getPendingNonce_spec g (ts_nonceCache (txStore mpi)) a) as [_ [_ Hp]].
  destruct (getPendingNonce g (ts_nonceCache (txStore mpi)) a) as [n nc]. cbn in Hp |- *. intros Hinv'. split; [|done].
  split; [done|done|]. cbn. rewrite Hp. done.
Qed.
End sent.

(** ** The solo node *)

Section solo.
Context `{BTreeLib, GoRange} (g : string → Z) (tx_object : option Tx → Transaction) (config : Config).
Context (ledger_ok : ∀ a, (0 ≤ g a)%Z) (height_ok : is_u64 (cfg_ChainHeight config)).
Implicit Types (n : SoloNode).

(** The height after [k] more blocks. *)
Definition height_at (k : nat) : Z := u64 (cfg_ChainHeight config + Z.of_nat k).

Lemma height_at_S k : height_at (S k) = height_at k +u 1.
Proof. unfold height_at, u64. rewrite Nat2Z.inj_succ, Z.add_mod_idemp_l by lia. f_equal. lia. Qed.

Definition in_hand (b : option (option RequestBatch)) : list RequestBatch :=
  match b with Some (Some b) => [b] | _ => [] end.

(** [executed] are the batches that were handed to the executor. *)
Record solo_inv n (executed : list RequestBatch) : Prop := {
  so_timed : isTimed (so_mempool n) = so_isTimed n;
  so_alive : so_listening n = true;
  so_not_nil : so_posting n ≠ Some None ∧ so_proposal n ≠ Some None;
  so_events : so_commitC n = event_of tx_object true <$> executed;
  so_height : so_lastExec n = height_at (length executed);
  so_numbers i b : (executed ++ in_hand (so_proposal n) ++ in_hand (so_posting n)) !! i = Some b →
    rb_Height b = height_at (S i) ∧ Forall is_Some (rb_TxList b);
  so_seqNo : batchSeqNo (so_mempool n) = height_at (length (executed ++ in_hand (so_proposal n) ++ in_hand (so_posting n)));
  so_sent : sent_inv g ((executed ++ in_hand (so_proposal n) ++ in_hand (so_posting n)) ≫= batch_keys) (so_mempool n) }.

(** A call of the mempool while nothing is being posted. *)
Lemma solo_inv_post n executed mpi t batch :
  solo_inv n executed → so_posting n = None →
  (∀ sent, sent_inv g sent (so_mempool n) → sent_inv g (sent ++ keys_of batch) mpi ∧ numbered (so_mempool n) batch mpi) →
  solo_inv (with_so_pool n mpi t (Some <$> batch)) executed.
Proof.
  intros [Ht Ha [_ Hnn] He Hh Hnum Hseq Hs] Hp Hcall. rewrite Hp in *. cbn [in_hand] in *. rewrite app_nil_r in *.
  destruct (Hcall _ Hs) as [Hs' [Ht' Hb]]. split; cbn; try done.
  - by rewrite Ht'.
  - split; [by destruct batch|done].
  - destruct batch as [b|]; cbn; [|by rewrite app_nil_r]. rewrite (assoc_L (++)). intros i b' [[_ Hi]|[-> ->]]%lookup_snoc_Some; [by apply Hnum|].
    destruct Hb as (Hb1 & Hb2 & Hb3). split; [|done]. by rewrite Hb2, Hb1, Hseq, height_at_S.
  - destruct batch as [b|]; cbn; [|by rewrite app_nil_r, Hb]. destruct Hb as (Hb1 & _).
    by rewrite (assoc_L (++)), length_app, Nat.add_1_r, height_at_S, Hb1, Hseq.
  - destruct batch as [b|]; cbn in Hs' |- *; [|by rewrite !app_nil_r in *]. rewrite (assoc_L (++)), bind_app. cbn. by rewrite app_nil_r.
Qed.

(** Calls that make no block, whatever the main loop is doing. *)
Lemma solo_inv_quiet n executed mpi t :
  solo_inv n executed →
  (∀ sent, sent_inv g sent (so_mempool n) →
     sent_inv g sent mpi ∧ batchSeqNo mpi = batchSeqNo (so_mempool n) ∧ isTimed mpi = isTimed (so_mempool n)) →
  solo_inv (with_so_pool n mpi t (so_posting n)) executed.
Proof.
  intros [Ht Ha Hnn He Hh Hnum Hseq Hs] Hcall. destruct (Hcall _ Hs) as (Hs' & Hq & Ht'). split; cbn; try done.
  - by rewrite Ht'.
  - by rewrite Hq.
Qed.

(** What the main loop may receive. *)
Definition allowed n (ev : SoloEvent) : Prop :=
  match ev with
  | SoloBlockTick _ => so_isTimed n = true
  | SoloTxSet txs _ _ _ => ∀ tx, tx ∈ txs → (tx_nonce tx < MaxUint64)%Z
  | _ => True
  end.

Lemma GenerateBlock_total mpi now : pool_inv g (txStore mpi) → is_Some (GenerateBlock g mpi now).
Proof. intros Hinv. unfold GenerateBlock. destruct (_ && _); [by eauto|]. by apply generateBlock_total. Qed.

Lemma generateBlock_timed mpi now mpi' : isTimed mpi = true → GenerateBlock g mpi now ≠ Some (mpi', None).
Proof.
  intros Ht. unfold GenerateBlock, generateBlock. rewrite Ht. cbn. destruct (collectBatch g mpi); cbn; congruence.
Qed.

Lemma process_none n executed txs isLeader isLocal now1 now2 mpi batch posted :
  solo_inv n executed → so_isTimed n = true → (∀ tx, tx ∈ txs → tx_nonce tx < MaxUint64)%Z →
  ProcessTransactions g (so_mempool n) txs isLeader isLocal now1 now2 = Some (mpi, batch, posted) → batch = None.
Proof.
  intros Hi Ht Hb Hp. destruct (ProcessTransactions_ok g (so_mempool n) txs isLeader isLocal now1 now2 (se_pool _ _ _ (so_sent _ _ Hi)) Hb)
    as (? & ? & ? & ? & Hp' & _ & _ & _ & _ & Hnone). rewrite Hp in Hp'. injection Hp' as <- <- <-. apply Hnone. right. by rewrite (so_timed _ _ Hi).
Qed.

Lemma solo_main_inv n executed ev :
  solo_inv n executed → so_posting n = None → allowed n ev → ∃ n', solo_main g n ev = Some n' ∧ solo_inv n' executed.
Proof.
  intros Hi Hp Hev. pose proof (se_pool _ _ _ (so_sent _ _ Hi)) as Hpool. destruct ev as [txs now now1 now2|height hashes|now now1|now|a]; cbn in Hev |- *.
  - destruct (ProcessTransactions_ok g (so_mempool n) txs true true now1 now2 Hpool Hev) as (mpi & batch & posted & _ & Hpt & _).
    assert (∀ t, solo_inv (with_so_pool n mpi t (Some <$> batch)) executed) as Hpost.
    { intros t. apply solo_inv_post; [done|done|]. intros sent Hs. by eapply ProcessTransactions_sent. }
    unfold soloTxSet. rewrite Hpt. cbn. destruct (so_isTimed n) eqn:Et.
    + pose proof (process_none _ _ _ _ _ _ _ _ _ _ Hi Et Hev Hpt) as ->. eexists. split; [done|]. apply Hpost.
    + destruct batch as [b|]; (eexists; split; [done|]; apply Hpost).
  - unfold soloState. case_decide; [|by exists n]. destruct (processCommit_ok g (so_mempool n) hashes Hpool) as (mpi & Hc & _).
    unfold CommitTransactions. rewrite Hc. cbn. eexists. split; [done|]. rewrite <-Hp. apply solo_inv_quiet; [done|].
    intros sent Hs. by eapply CommitTransactions_sent.
  - unfold soloBatchTimeout. destruct (GenerateBlock_total (so_mempool n) now1 Hpool) as [[mpi batch] Hg].
    assert (∀ t, solo_inv (with_so_pool n mpi t (Some <$> batch)) executed) as Hpost.
    { intros t. apply solo_inv_post; [done|done|]. intros sent Hs. by eapply GenerateBlock_sent. }
    destruct (HasPendingRequest _).
    + rewrite Hg. cbn. destruct batch as [b|]; (eexists; split; [done|]; apply Hpost).
    + eexists. split; [done|]. rewrite <-Hp. by apply solo_inv_quiet.
  - unfold soloBlockTick. destruct (GenerateBlock_total (so_mempool n) now Hpool) as [[mpi batch] Hg]. rewrite Hg. cbn.
    destruct batch as [b|]; [|exfalso; eapply generateBlock_timed; [|done]; by rewrite (so_timed _ _ Hi)].
    eexists. split; [done|]. apply (solo_inv_post _ _ _ _ (Some b)); [done|done|]. intros sent Hs. by eapply GenerateBlock_sent.
  - eexists. split; [done|]. apply solo_inv_quiet; [done|]. intros sent Hs. by apply GetPendingNonce_sent.
Qed.

Lemma solo_execute_inv n executed b :
  solo_inv n executed → so_proposal n = Some b → ∃ n' executed', solo_execute tx_object n b = Some n' ∧ solo_inv n' executed'.
Proof.
  intros [Ht Ha [Hpn Hnn] He Hh Hnum Hseq Hs] Hp. destruct b as [b|]; [|done]. rewrite Hp in *. cbn [in_hand] in *.
  destruct (Hnum (length executed) b) as [Hhb _]; [by apply list_lookup_middle|]. unfold solo_execute. cbn.
  rewrite decide_False by (rewrite Hhb, Hh, height_at_S; tauto). eexists _, (executed ++ [b]). split; [done|].
  assert ((executed ++ [b]) ++ in_hand None ++ in_hand (so_posting n) = executed ++ [b] ++ in_hand (so_posting n)) as E
    by (cbn; by rewrite <-(assoc_L (++))).
  split; cbn -[in_hand]; try done; rewrite ?E; try done.
  - by rewrite fmap_app, He.
  - rewrite length_app, Nat.add_1_r, height_at_S. by rewrite Hh.
Qed.

Lemma solo_start_inv : solo_inv (NewSoloNode config) [].
Proof.
  assert (height_at 0 = cfg_ChainHeight config) as E by (unfold height_at; rewrite Z.add_0_r; by apply u64_small).
  split; cbn; try done; [by apply lookup_nil_Some..|]. split; [by apply newMempoolImpl_inv|constructor|]. by intros k ?%elem_of_nil.
Qed.

Lemma solo_step_inv n n' executed : solo_step g tx_object n n' → solo_inv n executed → ∃ executed', solo_inv n' executed'.
Proof.
  destruct 1 as [n ev n' Hp Hev Hm|n a n' Hm|n b Hp Hq Hl|n b n' Hq Hx|n hash Hq Hl]; intros Hi.
  - destruct (solo_main_inv n executed ev Hi Hp Hev) as (n1 & Hm1 & ?). rewrite Hm in Hm1. injection Hm1 as <-. by exists executed.
  - cbn in Hm. injection Hm as <-. exists executed. apply solo_inv_quiet; [done|]. intros sent Hs. by apply GetPendingNonce_sent.
  - exists executed. destruct Hi as [Ht Ha [Hpn Hnn] He Hh Hnum Hseq Hs]. rewrite Hp, Hq in *. cbn [in_hand] in *.
    split; cbn -[in_hand]; try done; cbn [in_hand]; by rewrite app_nil_r.
  - destruct (solo_execute_inv n executed b Hi Hq) as (n1 & executed' & Hx1 & ?). rewrite Hx in Hx1. injection Hx1 as <-. by exists executed'.
  - by exists executed.
Qed.

(** A query by hash is answered with a transaction of the pool. *)
Lemma GetTransaction_pooled mpi hash tx :
  pool_inv g (txStore mpi) → Mempool.GetTransaction mpi hash = Some tx →
  getTxByOrderKey (txStore mpi) (tx_from tx) (tx_nonce tx) = Some tx.
Proof.
  intros Hinv. unfold Mempool.GetTransaction. destruct (txHashMap (txStore mpi) !! hash) as [k|]; [|done]. cbn.
  destruct (allTxs (txStore mpi) !! oik_account k) as [m|] eqn:Hm; [|done]. cbn.
  destruct (items m !! oik_nonce k) as [it|] eqn:Hit; [|done]. cbn. intros [= <-].
  destruct (smo_item _ _ (si_sorted _ _ _ _ Hinv _ _ Hm) _ _ Hit) as (_ & Ha & Hn & _).
  unfold getTxByOrderKey. rewrite Ha, Hn, Hm. cbn. by rewrite Hit.
Qed.

Lemma solo_reachable_inv n : rtc (solo_step g tx_object) (NewSoloNode config) n → ∃ executed, solo_inv n executed.
Proof.
  intros Hr. apply (rtc_ind_r (λ n, ∃ executed, solo_inv n executed) (NewSoloNode config)) in Hr; [done|..].
  - exists []. apply solo_start_inv.
  - intros n1 n2 _ Hs [executed Hi]. by eapply solo_step_inv.
Qed.

(** C10: A solo node hands consecutive blocks to the executor, from the height of the ledger on, under every
interleaving of the main loop, the routine that executes proposals and answers queries for transactions, and the API's
queries for nonces: no proposal is dropped, so that the routine goes on, nothing panics, no transaction of an account
and nonce is in two blocks or twice in one, and a query by hash is answered with a pooled transaction. Each call of
the mempool is one step (the source takes no lock around the maps that these routines share); transactions have nonces
below the largest uint64, and the mempool reads the nonces of the ledger as they were at the start. *)
Theorem solo_chain n :
  rtc (solo_step g tx_object) (NewSoloNode config) n →
  so_listening n = true ∧
  (∀ i ev, so_commitC n !! i = Some ev → bh_Number (b_Header (ce_Block ev)) = u64 (cfg_ChainHeight config + Z.of_nat i + 1)) ∧
  (∃ batches, so_commitC n = event_of tx_object true <$> batches ∧ NoDup (batches ≫= batch_keys)) ∧
  (∀ b, so_proposal n = Some b → ∃ n', solo_execute tx_object n b = Some n' ∧ length (so_commitC n') = S (length (so_commitC n))) ∧
  (∀ ev, so_posting n = None → allowed n ev → is_Some (solo_main g n ev)) ∧
  (∀ hash tx, (soloGetTx n hash).2 = Some tx → getTxByOrderKey (txStore (so_mempool n)) (tx_from tx) (tx_nonce tx) = Some tx).
Proof.
  intros (executed & Hi)%solo_reachable_inv. pose proof Hi as [Ht Ha Hnn He Hh Hnum Hseq Hs]. split; [done|]. split_and!.
  - intros i ev Hev. rewrite He, list_lookup_fmap in Hev. destruct (executed !! i) as [b|] eqn:Eb; [|done]. injection Hev as <-.
    destruct (Hnum i b) as [Hb _]; [by apply lookup_app_l_Some|]. cbn. rewrite Hb. unfold height_at. f_equal. lia.
  - exists executed. split; [done|]. pose proof (se_NoDup _ _ _ Hs) as Hnd. rewrite bind_app in Hnd. by apply NoDup_app in Hnd as [? _].
  - intros b Hb. destruct b as [b|]; [|by destruct Hnn]. destruct (Hnum (length executed) b) as [Hhb _].
    { rewrite Hb. by apply list_lookup_middle. }
    unfold solo_execute. cbn. rewrite decide_False by (rewrite Hhb, Hh, height_at_S; tauto). eexists. split; [done|]. cbn. rewrite length_app. cbn. lia.
  - intros ev Hp Hev. destruct (solo_main_inv n executed ev Hi Hp Hev) as (n' & -> & _). by eauto.
  - intros hash tx. by apply GetTransaction_pooled, Hs.
Qed.
End solo.

(** ** The raft node *)

(** *** The blocks of a log *)

Section log.
Context (Unmarshal_batch : string → option RequestBatch).
Implicit Types (h c : Z) (log : list Entry).

Definition batch_of (e : Entry) : option RequestBatch :=
  match e_Type e with
  | EntryNormal => if decide (e_Data e = "") then None else Unmarshal_batch (e_Data e)
  | EntryConfChange => None
  end.

(** The specification: of the batches of a log, those whose height is the next one, from [h] on. *)
Fixpoint chain_of h log : list RequestBatch :=
  match log with
  | [] => []
  | e :: log =>
      match batch_of e with
      | Some b => if decide (rb_Height b = h + 1)%Z then b :: chain_of (h + 1) log else chain_of h log
      | None => chain_of h log
      end
  end.

Definition chain_height h log : Z := (h + Z.of_nat (length (chain_of h log)))%Z.

Lemma chain_of_app h l1 l2 : chain_of h (l1 ++ l2) = chain_of h l1 ++ chain_of (chain_height h l1) l2.
Proof.
  unfold chain_height. revert h. induction l1 as [|e l1 IH]; intros h; cbn; [by rewrite Z.add_0_r|].
  destruct (batch_of e) as [b|]; [|apply IH]. case_decide; [|apply IH]. cbn. rewrite IH. do 3 f_equal. lia.
Qed.

Lemma chain_height_app h l1 l2 : chain_height h (l1 ++ l2) = chain_height (chain_height h l1) l2.
Proof. unfold chain_height at 1. rewrite chain_of_app, length_app. unfold chain_height. lia. Qed.

Lemma length_chain_of h log : length (chain_of h log) ≤ length log.
Proof.
  revert h. induction log as [|e log IH]; intros h; cbn; [done|]. destruct (batch_of e); [|specialize (IH h); lia].
  case_decide; cbn; [specialize (IH (h + 1)%Z)|specialize (IH h)]; lia.
Qed.

Lemma chain_of_number h log i b : chain_of h log !! i = Some b → rb_Height b = (h + Z.of_nat i + 1)%Z.
Proof.
  revert h i. induction log as [|e log IH]; intros h i; cbn; [done|]. destruct (batch_of e) as [b'|]; [|apply IH].
  case_decide as Hb; [|apply IH]. destruct i as [|i]; cbn; [intros [= <-]; lia|]. intros Hi%IH. lia.
Qed.

(** No batch is ahead of the next height when its entry comes. *)
Definition in_order h log : Prop :=
  ∀ l1 e l2 b, log = l1 ++ e :: l2 → batch_of e = Some b → (rb_Height b ≤ chain_height h l1 + 1)%Z.

(** Entries below the height of the ledger are ignored when they are read again. *)
Lemma chain_of_again c h log :
  in_order c log → (c ≤ h)%Z → chain_of h log = drop (Z.to_nat (h - c)) (chain_of c log).
Proof.
  revert c h. induction log as [|e log IH]; intros c h Ho Hch; cbn; [by rewrite drop_nil|].
  assert (∀ c', (∀ l1, chain_height c (e :: l1) = chain_height c' l1) → in_order c' log) as Hnext.
  { intros c' Hc' l1 e' l2 b El Hb. rewrite <-Hc'. apply (Ho (e :: l1) e' l2 b); [by rewrite El|done]. }
  unfold chain_height in Hnext. cbn in Hnext. destruct (batch_of e) as [b|] eqn:Eb; [|apply IH; by auto].
  pose proof (Ho [] e log b eq_refl Eb) as Hle. unfold chain_height in Hle. cbn in Hle.
  destruct (decide (rb_Height b = c + 1)%Z) as [Ec|Ec].
  - destruct (decide (c = h)) as [->|]; [rewrite decide_True by done; by rewrite Z.sub_diag|]. rewrite decide_False by lia.
    rewrite (IH (c + 1)%Z); [|apply Hnext; cbn; intros; lia|lia]. replace (Z.to_nat (h - c)) with (S (Z.to_nat (h - (c + 1)))) by lia. done.
  - rewrite decide_False by lia. apply IH; [apply Hnext; cbn; intros; lia|done].
Qed.

(** When a node with a ledger of height [h] may go on after the first [m] entries: its ledger has their blocks; it may be
ahead of them when the log is in order. *)
Inductive resumes (base : Z) log (m : nat) h : Prop :=
| resumes_exact : h = chain_height base (take m log) → resumes base log m h
| resumes_ahead : in_order base log → (chain_height base (take m log) ≤ h ≤ base + Z.of_nat (length log))%Z → resumes base log m h.

Lemma in_order_drop base log m : in_order base log → in_order (chain_height base (take m log)) (drop m log).
Proof.
  intros Ho l1 e l2 b Hl Hb. rewrite <-chain_height_app. apply (Ho _ e l2 b); [|done]. rewrite <-(assoc_L (++)), <-Hl. by rewrite take_drop.
Qed.

Lemma in_order_take base log a : in_order base log → in_order base (take a log).
Proof.
  intros Ho l1 e l2 b Hl Hb. apply (Ho l1 e (l2 ++ drop a log) b); [|done].
  change (e :: l2 ++ drop a log) with ((e :: l2) ++ drop a log). by rewrite (assoc_L (++)), <-Hl, take_drop.
Qed.

Lemma resumes_le base log m h : resumes base log m h → (chain_height base (take m log) ≤ h ≤ base + Z.of_nat (length log))%Z.
Proof.
  intros [->|_ ?]; [|done]. unfold chain_height. pose proof (length_chain_of base (take m log)). rewrite length_take in *. lia.
Qed.

(** What such a node makes of the entries up to [a] is what is still missing. *)
Lemma resumes_chain base log m h a :
  resumes base log m h → chain_of h (drop m (take a log)) = drop (Z.to_nat (h - base)) (chain_of base (take a log)).
Proof.
  intros Hr. pose proof (resumes_le _ _ _ _ Hr) as Hle. unfold chain_height in Hle. destruct (decide (m ≤ a)) as [Hma|Hma].
  - assert (take a log = take m log ++ drop m (take a log)) as E.
    { rewrite <-(take_drop m (take a log)) at 1. by rewrite take_take, Nat.min_l by done. }
    rewrite E at 2. rewrite chain_of_app, drop_app_ge by lia.
    replace (Z.to_nat (h - base) - length (chain_of base (take m log)))
      with (Z.to_nat (h - chain_height base (take m log))) by (unfold chain_height; lia).
    destruct Hr as [->|Ho _]; [by rewrite Z.sub_diag|]. apply chain_of_again; [|unfold chain_height; lia].
    replace (take m log) with (take m (take a log)) by (by rewrite take_take, Nat.min_l by done). by apply in_order_drop, in_order_take.
  - rewrite drop_ge by (rewrite length_take; lia). cbn. symmetry. apply drop_ge.
    replace (take m log) with (take a log ++ drop a (take m log)) in Hle.
    2: { rewrite <-(take_drop a (take m log)) at 2. by rewrite take_take, Nat.min_l by lia. }
    rewrite chain_of_app, length_app in Hle. lia.
Qed.
End log.

Section raft.
Context `{BTreeLib, GoRange} (g : string → Z) (tx_object : option Tx → Transaction).
Context (Unmarshal_batch : string → option RequestBatch) (Unmarshal_msg : string → option RaftMessage)
  (Unmarshal_txs : string → option (list Tx)) (ApplyConfChange : string → option string)
  (Step_raft : string → option string) (Send_blocks : Z → Z → Z → option (list Block)).
Context (log : list Entry) (base : Z).
Implicit Types (n : RaftNode).

Notation event := (λ b, Some (event_of tx_object false b)).
Notation chain_of := (chain_of Unmarshal_batch).

(** A log as the core of raft has it: the indices are the positions, from 1 on; what was proposed can be decoded. *)
Record log_ok : Prop := {
  lo_index i e : log !! i = Some e → e_Index e = Z.of_nat (S i);
  lo_decodes e : e ∈ log →
    match e_Type e with
    | EntryNormal => e_Data e = "" ∨ is_Some (Unmarshal_batch (e_Data e))
    | EntryConfChange => is_Some (ApplyConfChange (e_Data e))
    end;
  lo_bounds : (0 ≤ base)%Z ∧ (base + 2 * Z.of_nat (length log) + 2 < 2 ^ 64)%Z }.

(** *** The part of the state that the log determines *)

Definition log_view n := (rn_commitC n, rn_appliedIndex n, rn_lastIndex n, rn_lastExec n, rn_blockAppliedIndex n).

(** [a] entries are applied; [h0] was the height at the start, [i0] the index that the database had, [m] the number of
entries that are skipped. *)
Record log_inv (h0 i0 : Z) (m a : nat) n : Prop := {
  li_events : rn_commitC n = event <$> chain_of h0 (drop m (take a log));
  li_applied : rn_appliedIndex n = Z.of_nat a;
  li_le : a ≤ length log;
  li_skip : a < m → (Z.of_nat a < i0)%Z;
  li_last : rn_lastIndex n = 0%Z;
  li_height : rn_lastExec n = chain_height Unmarshal_batch h0 (drop m (take a log));
  li_key k : is_Some (rn_blockAppliedIndex n !! k) → (0 ≤ k ≤ rn_lastExec n)%Z;
  li_index : ∃ v, rn_blockAppliedIndex n !! rn_lastExec n = Some v ∧ ((Z.of_nat a < i0)%Z → v = i0) ∧ ((i0 ≤ Z.of_nat a)%Z → (v ≤ Z.of_nat a)%Z) }.

Lemma log_inv_view h0 i0 m a n n' : log_view n' = log_view n → log_inv h0 i0 m a n → log_inv h0 i0 m a n'.
Proof.
  intros [= E1 E2 E3 E4 E5] [H1 H2 H3 H4 H5 H6 H7 H8]. split; rewrite ?E1, ?E2, ?E3, ?E4, ?E5; try done.
Qed.

Lemma max_key (keys : list Z) (x d : Z) :
  (∀ k, k ∈ keys → k ≤ x)%Z → (d ≤ x)%Z → x ∈ keys ∨ d = x →
  foldl (λ (height : Z) k, if decide (height < k)%Z then k else height) d keys = x.
Proof.
  revert d. induction keys as [|k keys IH]; intros d Hall Hd Hx; cbn.
  - by destruct Hx as [?%elem_of_nil|].
  - assert (k ≤ x)%Z by (apply Hall; by left). apply IH.
    + intros k' ?. apply Hall. by right.
    + case_decide; lia.
    + destruct Hx as [[<-|?]%elem_of_cons| ->]; [|by left|]; right; case_decide; lia.
Qed.

Lemma getBlockAppliedIndex_last n v :
  (∀ k, is_Some (rn_blockAppliedIndex n !! k) → (0 ≤ k ≤ rn_lastExec n)%Z) → rn_blockAppliedIndex n !! rn_lastExec n = Some v →
  getBlockAppliedIndex n = v.
Proof.
  intros Hk Hv. unfold getBlockAppliedIndex. destruct (Hk (rn_lastExec n)) as [Hpos _]; [by eauto|].
  rewrite (max_key _ (rn_lastExec n)); [by rewrite Hv| |done|].
  - intros k ?%elem_of_go_keys. by apply Hk.
  - left. apply elem_of_go_keys. by eauto.
Qed.

(** *** Entries *)

Lemma drop_take_S {A} (l : list A) m a e :
  l !! a = Some e → drop m (take (S a) l) = if decide (m ≤ a) then drop m (take a l) ++ [e] else [].
Proof.
  intros Ha. pose proof (lookup_lt_Some _ _ _ Ha). case_decide as Hm.
  - rewrite (take_S_r _ _ _ Ha), drop_app_le by (rewrite length_take; lia). done.
  - apply drop_ge. rewrite length_take. lia.
Qed.

Lemma afterCommit_view n e :
  rn_lastIndex n = 0%Z → e_Index e ≠ 0%Z →
  log_view (afterCommit n e) = (rn_commitC n, e_Index e, 0%Z, rn_lastExec n, rn_blockAppliedIndex n).
Proof. intros E He. unfold afterCommit. cbn. rewrite E. rewrite decide_False by done. unfold log_view. cbn. by rewrite E. Qed.

(** An entry that is left out. *)
Lemma log_inv_skip h0 i0 m a n n' e :
  log_inv h0 i0 m a n → log !! a = Some e → m ≤ a ∨ (Z.of_nat m = i0)%Z →
  (m ≤ a → batch_of Unmarshal_batch e = None ∨
     ∃ b, batch_of Unmarshal_batch e = Some b ∧ rb_Height b ≠ (rn_lastExec n + 1)%Z) →
  log_view n' = (rn_commitC n, Z.of_nat (S a), 0%Z, rn_lastExec n, rn_blockAppliedIndex n) → log_inv h0 i0 m (S a) n'.
Proof.
  intros [H1 H2 H3 H4 H5 H6 H7 (v & H8 & H9 & H10)] He Hm Hno [= E1 E2 E3 E4 E5].
  assert (chain_of h0 (drop m (take (S a) log)) = chain_of h0 (drop m (take a log))) as Ech.
  { rewrite (drop_take_S _ _ _ _ He). case_decide as Hma; [|by rewrite (drop_ge (take a log)) by (rewrite length_take; lia)].
    rewrite chain_of_app, <-H6. cbn. destruct (Hno Hma) as [-> |(b & -> & Hb)]; [by rewrite app_nil_r|].
    rewrite decide_False by done. by rewrite app_nil_r. }
  pose proof (lookup_lt_Some _ _ _ He). split; rewrite ?E1, ?E2, ?E3, ?E4, ?E5; try done; unfold chain_height; rewrite ?Ech; try done.
  - intros Hlt. destruct Hm; lia.
  - exists v. split; [done|]. split; intros; [apply H9; lia|]. destruct (decide (Z.of_nat a < i0)%Z); [rewrite H9; lia|]. lia.
Qed.

(** An entry whose block is handed to the executor. *)
Lemma log_inv_mint h0 i0 m a n n' e b :
  log_inv h0 i0 m a n → log !! a = Some e → m ≤ a → (i0 ≤ Z.of_nat m)%Z → (0 ≤ rn_lastExec n)%Z →
  batch_of Unmarshal_batch e = Some b → rb_Height b = (rn_lastExec n + 1)%Z →
  log_view n' = (rn_commitC n ++ [event b], Z.of_nat (S a), 0%Z, (rn_lastExec n + 1)%Z,
                 <[(rn_lastExec n + 1)%Z := Z.of_nat (S a)]> (rn_blockAppliedIndex n)) →
  log_inv h0 i0 m (S a) n'.
Proof.
  intros [H1 H2 H3 H4 H5 H6 H7 _] He Hma Him Hpos Hbo Hh [= W1 W2 W3 W4 W5]. pose proof (lookup_lt_Some _ _ _ He).
  assert (chain_of h0 (drop m (take (S a) log)) = chain_of h0 (drop m (take a log)) ++ [b]) as Ech.
  { rewrite (drop_take_S _ _ _ _ He), decide_True, chain_of_app, <-H6 by done. cbn. by rewrite Hbo, decide_True. }
  split; rewrite ?W1, ?W2, ?W3, ?W4, ?W5; try done; try lia.
  - by rewrite Ech, fmap_app, H1.
  - unfold chain_height. rewrite Ech, length_app. rewrite H6. unfold chain_height. cbn. lia.
  - intros k. rewrite lookup_insert_is_Some'. intros [<-|?%H7]; lia.
  - exists (Z.of_nat (S a)). rewrite lookup_insert_eq. split; [done|]. split; intros; lia.
Qed.

Lemma publishEntry_inv h0 i0 m a n e :
  log_ok → (0 ≤ h0 ≤ base + Z.of_nat (length log))%Z → log_inv h0 i0 m a n → log !! a = Some e → m ≤ a ∨ (Z.of_nat m = i0)%Z → (i0 ≤ Z.of_nat m)%Z →
  log_inv h0 i0 m (S a) (publishEntry tx_object Unmarshal_batch ApplyConfChange n e).
Proof.
  intros [Hidx Hdec Hbd] Hh0 Hi He Hm Him. pose proof Hi as [H1 H2 H3 H4 H5 H6 H7 (v & H8 & H9 & H10)].
  pose proof (lookup_lt_Some _ _ _ He) as Hlt. pose proof (Hidx _ _ He) as Hie. specialize (Hdec e (list_elem_of_lookup_2 _ _ _ He)).
  assert (e_Index e ≠ 0)%Z by lia.
  assert (0 ≤ rn_lastExec n ≤ base + 2 * Z.of_nat (length log))%Z as Hle.
  { rewrite H6. unfold chain_height. pose proof (length_chain_of Unmarshal_batch h0 (drop m (take a log))) as Hl.
    rewrite length_drop, length_take in Hl. lia. }
  assert (rn_lastExec n +u 1 = rn_lastExec n + 1)%Z as Hu by (apply u64_small; unfold is_u64; lia).
  unfold publishEntry. unfold batch_of in *. destruct (e_Type e) eqn:Et.
  - case_decide as Hd.
    { eapply (log_inv_skip _ _ _ _ n); [done..| |rewrite <-Hie; by apply afterCommit_view]. intros _. left. unfold batch_of. by rewrite Et, Hd. }
    rewrite (getBlockAppliedIndex_last n v H7 H8), Hie. destruct Hdec as [?|[b Hb]]; [done|].
    assert (batch_of Unmarshal_batch e = Some b) as Hbo by (unfold batch_of; by rewrite Et, decide_False).
    case_decide as Hskip.
    { eapply (log_inv_skip _ _ _ _ n); [done..| |unfold log_view; cbn; by rewrite H5]. intros Hma.
      exfalso. destruct (decide (Z.of_nat a < i0)%Z); [lia|]. lia. }
    assert (m ≤ a) as Hma. { destruct Hm; [done|]. destruct (decide (Z.of_nat a < i0)%Z); [rewrite H9 in Hskip; lia|lia]. }
    rewrite Hb, Hu. case_decide as Hh.
    { eapply (log_inv_skip _ _ _ _ n); [done..| |unfold log_view; cbn; by rewrite H5]. intros _. right. by exists b. }
    set (n1 := if isLeader _ then _ else _). apply (log_inv_mint _ _ _ _ n _ e b); try done; [lia|].
    rewrite <-Hie. rewrite (afterCommit_view n1) by (try done; unfold n1; by destruct (isLeader _)).
    unfold n1. rewrite Hh. destruct (isLeader _); cbn; by rewrite app_nil_r, ?Hie.
  - destruct Hdec as [cs Hcs]. rewrite Hcs. eapply (log_inv_skip _ _ _ _ n); [done..| |].
    + intros _. left. unfold batch_of. by rewrite Et.
    + rewrite <-Hie. by rewrite (afterCommit_view (with_confState n cs)) by done.
Qed.

Lemma publishEntries_inv h0 i0 m a k n :
  log_ok → (0 ≤ h0 ≤ base + Z.of_nat (length log))%Z → log_inv h0 i0 m a n → (Z.of_nat m = i0 ∨ m ≤ a) → (i0 ≤ Z.of_nat m)%Z →
  ∃ a', a ≤ a' ∧ log_inv h0 i0 m a' (publishEntries tx_object Unmarshal_batch ApplyConfChange n (take k (drop a log))).
Proof.
  intros Hlog Hh0. revert a n. induction k as [|k IH]; intros a n Hi Hm Him; [by exists a|].
  destruct (log !! a) as [e|] eqn:He.
  - rewrite (drop_S _ _ _ He). cbn. destruct (IH (S a) (publishEntry tx_object Unmarshal_batch ApplyConfChange n e)) as (a' & ? & ?).
    + eapply publishEntry_inv; try done. tauto.
    + lia.
    + done.
    + exists a'. split; [lia|done].
  - exists a. rewrite drop_ge by (by apply lookup_ge_None). done.
Qed.

(** *** Events *)

(** The core of raft hands over entries that follow those applied, or some of these again; no snapshot is received. *)
Definition log_event n (ev : RaftEvent) : Prop :=
  match ev with
  | RaftReady rd =>
      rd_recover rd = None ∧
      ∃ i k, (Z.of_nat i ≤ rn_appliedIndex n)%Z ∧ rd_CommittedEntries rd = take k (drop i log)
  | _ => True
  end.

Notation listen := (listenRaftMsg g tx_object Unmarshal_batch Unmarshal_msg Unmarshal_txs ApplyConfChange Step_raft Send_blocks).
Notation ready := (handleReady tx_object Unmarshal_batch ApplyConfChange Send_blocks).

Definition raft_step n n' : Prop := ∃ ev, log_event n ev ∧ listen n ev = Some n'.

Lemma processTransactions_view n txs isLocal now now1 now2 n' :
  processTransactions g n txs isLocal now now1 now2 = Some n' → log_view n' = log_view n.
Proof.
  unfold processTransactions. destruct (rn_isTimed n), (isLeader n); (destruct (ProcessTransactions _ _ _ _ _ _ _) as [[[mpi batch] posted]|]; [|done]);
    cbn; try destruct batch; by intros [= <-].
Qed.

Lemma other_view n ev n' :
  match ev with RaftReady _ | RaftState _ _ => False | _ => True end → listen n ev = Some n' → log_view n' = log_view n.
Proof.
  destruct ev as [msg now now1 now2|txSet|tx now now1 now2|height hashes|dur now|dur now|now now1|now|rd|a|ev]; intros Hev; try done; cbn.
  - unfold processRaftCoreMsg. destruct (Unmarshal_msg msg) as [rm|]; cbn; [|by intros [= <-]].
    destruct (rm_Type rm); cbn; [by intros [= <-]| |by intros [= <-]]. destruct (Unmarshal_txs _); cbn; [|by intros [= <-]].
    destruct (processTransactions g n _ _ _ _ _) as [n1|] eqn:E; cbn; [|done]. intros [= <-]. by eapply processTransactions_view.
  - by intros [= <-].
  - unfold PrepareRaft. destruct (ReadyErr n); cbn; [by intros [= <-]|]. destruct (_ && _); cbn; [by intros [= <-]|].
    destruct (processTransactions g n _ _ _ _ _) as [n1|] eqn:E; cbn; [|done]. apply processTransactions_view in E.
    destruct (recvTx _ _); cbn; [|done]. by intros [= <-].
  - unfold reBroadcastTx. destruct (GetTimeoutTransactions _ _ _) as [[mpi sets]|]; cbn; [|done]. by intros [= <-].
  - by intros [= <-].
  - unfold processBatchTimeout. destruct (isLeader n); [|by intros [= <-]]. destruct (HasPendingRequest _); [|by intros [= <-]].
    destruct (GenerateBlock _ _ _) as [[mpi [b|]]|]; cbn; [by intros [= <-]..|done].
  - unfold processGenerateBlockTimeout. destruct (isLeader n); [|by intros [= <-]].
    destruct (GenerateBlock _ _ _) as [[mpi b]|]; cbn; [by intros [= <-]|done].
  - by intros [= <-].
  - by intros [= <-].
Qed.

Lemma reportState_inv h0 i0 m a n height hashes n' :
  log_ok → (0 ≤ h0 ≤ base + Z.of_nat (length log))%Z → log_inv h0 i0 m a n → reportState g n height hashes = Some n' → log_inv h0 i0 m a n'.
Proof.
  intros [_ _ Hbd] Hh0 Hi. pose proof Hi as [H1 H2 H3 H4 H5 H6 H7 (v & H8 & H9)]. unfold reportState.
  destruct (rn_blockAppliedIndex n !! height) as [i|] eqn:Eh; [|by intros [= <-]].
  destruct (CommitTransactions _ _ _) as [mpi|]; cbn; [|done]. intros [= <-].
  destruct (H7 height) as [Hpos Hle]; [by eauto|].
  assert (rn_lastExec n < 2 ^ 64 - 1)%Z as Hl.
  { rewrite H6. unfold chain_height. pose proof (length_chain_of Unmarshal_batch h0 (drop m (take a log))) as Hc. rewrite length_drop, length_take in Hc. lia. }
  assert (u64 (height - 1) ≠ rn_lastExec n) as Hne.
  { destruct (decide (height = 0)%Z) as [->|]; [change (u64 (0 - 1)) with (2 ^ 64 - 1)%Z; lia|]. rewrite u64_small by (unfold is_u64; lia). lia. }
  split; cbn; try done.
  - intros k. rewrite lookup_delete_is_Some. intros [_ ?]. by apply H7.
  - exists v. by rewrite lookup_delete_ne.
Qed.

Lemma changeLeader_view n lead : log_view (changeLeader n lead) = log_view n.
Proof. unfold changeLeader. destruct lead; [|done]. case_decide; [done|]. case_decide; destruct (isLeader _); done. Qed.

Lemma afterElection_view n ram : log_view (afterElection n ram) = log_view n.
Proof. unfold afterElection. destruct (rn_justElected n); [|done]. by case_decide. Qed.

Lemma maybeTriggerSnapshot_view n ok : log_view (maybeTriggerSnapshot n ok) = log_view n.
Proof. unfold maybeTriggerSnapshot. case_decide; [done|]. by destruct ok. Qed.

Lemma entriesToApply_log n a i k :
  log_ok → rn_appliedIndex n = Z.of_nat a → i ≤ a → a ≤ length log → ∃ k', entriesToApply n (take k (drop i log)) = Some (take k' (drop a log)).
Proof.
  intros [Hidx _ Hbd] Ha Hia Hal. destruct (take k (drop i log)) as [|e es] eqn:E; [by exists 0|]. cbn [entriesToApply]. rewrite <-E.
  assert (log !! i = Some e) as He.
  { destruct k; [done|]. destruct (log !! i) as [e'|] eqn:Ei; [|by rewrite drop_ge in E by (by apply lookup_ge_None)].
    rewrite (drop_S _ _ _ Ei) in E. cbn in E. congruence. }
  rewrite (Hidx _ _ He), Ha. rewrite (u64_small (_ + 1)) by (unfold is_u64; lia). rewrite decide_False by lia.
  rewrite u64_small by (unfold is_u64; lia). case_decide; [|by exists 0]. exists (k - (a - i)). f_equal.
  replace (Z.to_nat (Z.of_nat a - Z.of_nat (S i) + 1)) with (a - i) by lia. rewrite skipn_firstn_comm, drop_drop. by replace (i + (a - i)) with a by lia.
Qed.

Lemma handleReady_inv h0 i0 m a n rd :
  log_ok → (0 ≤ h0 ≤ base + Z.of_nat (length log))%Z → log_inv h0 i0 m a n → (Z.of_nat m = i0 ∨ m ≤ a) → (i0 ≤ Z.of_nat m)%Z →
  log_event n (RaftReady rd) → ∃ n' a', ready n rd = Some n' ∧ a ≤ a' ∧ log_inv h0 i0 m a' n'.
Proof.
  intros Hlog Hh0 Hi Hm Him [Hrec (i & k & Hik & Hents)]. unfold handleReady. rewrite Hrec. cbn [mbind option_bind].
  set (n1 := changeLeader n _). assert (log_inv h0 i0 m a n1) as Hi1 by (eapply log_inv_view; [apply changeLeader_view|done]).
  pose proof (li_applied _ _ _ _ _ Hi) as Ha. pose proof (li_le _ _ _ _ _ Hi) as Hal.
  destruct (entriesToApply_log n1 a i k Hlog (li_applied _ _ _ _ _ Hi1) ltac:(lia) Hal) as (k' & Hk').
  destruct (publishEntries_inv h0 i0 m a k' n1 Hlog Hh0 Hi1 Hm Him) as (a' & Haa & Hi').
  assert (∃ n2 a2, match rd_CommittedEntries rd with
      | [] => Some n1
      | _ => ents ← entriesToApply n1 (rd_CommittedEntries rd); Some (publishEntries tx_object Unmarshal_batch ApplyConfChange n1 ents)
      end = Some n2 ∧ a ≤ a2 ∧ log_inv h0 i0 m a2 n2) as (n2 & a2 & E & Ha2 & Hi2).
  { rewrite Hents. destruct (take k (drop i log)) as [|e es] eqn:E; [by exists n1, a|]. rewrite Hk'. by eexists _, a'. }
  rewrite E. eexists _, a2. split; [done|]. split; [done|].
  eapply log_inv_view; [etrans; [apply maybeTriggerSnapshot_view|apply afterElection_view]|done].
Qed.

Lemma raft_step_inv h0 i0 m a n n' :
  log_ok → (0 ≤ h0 ≤ base + Z.of_nat (length log))%Z → (Z.of_nat m = i0 ∨ m ≤ a) → (i0 ≤ Z.of_nat m)%Z →
  log_inv h0 i0 m a n → raft_step n n' → ∃ a', a ≤ a' ∧ log_inv h0 i0 m a' n'.
Proof.
  intros Hlog Hh0 Hm Him Hi (ev & Hev & Hl). destruct ev as [msg now now1 now2|txSet|tx now now1 now2|height hashes|dur now|dur now|now now1|now|rd|x|ev].
  9: { destruct (handleReady_inv h0 i0 m a n rd Hlog Hh0 Hi Hm Him Hev) as (n1 & a' & Hr & Haa & Hi'). cbn in Hl.
       rewrite Hr in Hl. injection Hl as <-. by exists a'. }
  4: { exists a. split; [done|]. by eapply reportState_inv. }
  all: exists a; split; [done|]; eapply log_inv_view; [|done]; eapply other_view; [|exact Hl]; done.
Qed.

(** *** From the start on *)

(** A node that is started on its database, for the first time or again: [snap] is the index of its last snapshot, [i0] the
index in the database. The ledger has the blocks of the entries that are skipped. *)
Definition raft_started n0 : Prop :=
  ∃ config storage snapCount syncBlocks peers otherPeers n snap confState i0,
    NewRaftNode config storage snapCount syncBlocks peers otherPeers = Some n ∧ loadAppliedIndex n = Some i0 ∧
    StartRaft n snap confState = Some n0 ∧ (0 ≤ snap ≤ Z.of_nat (length log))%Z ∧ (0 ≤ i0 ≤ Z.of_nat (length log))%Z ∧
    resumes Unmarshal_batch base log (Z.to_nat (Z.max snap i0)) (cfg_ChainHeight config).

Lemma raft_started_inv n0 :
  log_ok → raft_started n0 →
  ∃ i0 m a, resumes Unmarshal_batch base log m (rn_lastExec n0) ∧ (0 ≤ rn_lastExec n0 ≤ base + Z.of_nat (length log))%Z ∧
    (Z.of_nat m = i0 ∨ m ≤ a) ∧ (i0 ≤ Z.of_nat m)%Z ∧ log_inv (rn_lastExec n0) i0 m a n0.
Proof.
  intros [_ _ Hbd] (config & storage & sc & sb & peers & others & n & snap & cs & i0 & Hn & Hl & Hs & Hsnap & Hi0 & Hr).
  unfold NewRaftNode in Hn. destruct (NewStateSyncer _ _ _) as [sy|]; cbn in Hn; [|done]. injection Hn as <-.
  unfold StartRaft in Hs. rewrite Hl in Hs. cbn in Hs. injection Hs as <-.
  pose proof (resumes_le _ _ _ _ _ Hr) as Hle. unfold chain_height in Hle.
  exists i0, (Z.to_nat (Z.max snap i0)), (Z.to_nat snap). split; [done|]. split; [cbn; lia|]. split; [lia|]. split; [lia|].
  assert (drop (Z.to_nat (Z.max snap i0)) (take (Z.to_nat snap) log) = []) as E by (apply drop_ge; rewrite length_take; lia).
  split; rewrite ?E; unfold chain_height; cbn; try done; try lia.
  - intros k. rewrite lookup_insert_is_Some', lookup_empty. intros [<-|[? ?]]; [lia|done].
  - exists i0. rewrite lookup_insert_eq. split; [done|]. split; [done|]. intros. lia.
Qed.

(** The theorem about the log, for the two claims that follow. *)
Lemma raft_run_inv n0 n :
  log_ok → raft_started n0 → rtc raft_step n0 n →
  ∃ i0 m a, resumes Unmarshal_batch base log m (rn_lastExec n0) ∧ (0 ≤ rn_lastExec n0 ≤ base + Z.of_nat (length log))%Z ∧
    (Z.of_nat m = i0 ∨ m ≤ a) ∧ (i0 ≤ Z.of_nat m)%Z ∧ log_inv (rn_lastExec n0) i0 m a n.
Proof.
  intros Hlog Hst Hr. destruct (raft_started_inv n0 Hlog Hst) as (i0 & m & a0 & Hres & Hh0 & Hm0 & Him & Hi0).
  apply (rtc_ind_r (λ n, ∃ a, a0 ≤ a ∧ log_inv (rn_lastExec n0) i0 m a n) n0) in Hr.
  - destruct Hr as (a & ? & ?). exists i0, m, a. split_and!; try done; [lia..|]. destruct Hm0; [by left|right; lia].
  - by exists a0.
  - intros n1 n2 _ Hstep (a & Ha & Hi). destruct (raft_step_inv (rn_lastExec n0) i0 m a n1 n2) as (a' & ? & ?); try done.
    + destruct Hm0; [by left|right; lia].
    + exists a'. split; [lia|done].
Qed.

(** C8: For a log whose entries can be decoded, with heights and indices below 2^64 ([log_ok]), and a node that
receives no snapshot and gets its entries from this log, always following those applied or some of these again
([log_event]): the node hands to the executor the batches of the log that have the next height, in order and once
each, from the height of its ledger up to the applied index, and no next entries stop it, whatever the leader,
transactions, timers and reports do. The node was started on a ledger that has exactly the blocks of the entries it
skips, or more of them when no batch of the log is ahead of its time ([raft_started], [resumes]); for other starts
this is false ([replay_differs], [snapshot_before_execution]). *)
Theorem raft_refines_log n0 n :
  log_ok → raft_started n0 → rtc raft_step n0 n →
  rn_commitC n = event <$> drop (Z.to_nat (rn_lastExec n0 - base)) (chain_of base (take (Z.to_nat (rn_appliedIndex n)) log)) ∧
  rn_lastExec n = (rn_lastExec n0 + Z.of_nat (length (rn_commitC n)))%Z ∧
  ∀ rd, log_event n (RaftReady rd) → is_Some (ready n rd).
Proof.
  intros Hlog Hst Hr. destruct (raft_run_inv n0 n Hlog Hst Hr) as (i0 & m & a & Hres & Hh0 & Hm & Him & Hi).
  pose proof Hi as [H1 H2 _ _ _ H6 _ _]. split_and!.
  - rewrite H1, H2, Nat2Z.id. by rewrite (resumes_chain _ _ _ _ _ a Hres).
  - rewrite H6, H1, length_fmap. done.
  - intros rd Hrd. destruct (handleReady_inv _ _ _ _ n rd Hlog Hh0 Hi Hm Him Hrd) as (n' & _ & -> & _). by eauto.
Qed.

(** An event of a node is one of the log's. *)
Lemma raft_event_of_log n0 n ev :
  log_ok → raft_started n0 → rtc raft_step n0 n → Some ev ∈ rn_commitC n →
  ∃ i b, chain_of base log !! i = Some b ∧ ev = event_of tx_object false b ∧ rb_Height b = (base + Z.of_nat i + 1)%Z.
Proof.
  intros Hlog Hst Hr Hev. destruct (raft_run_inv n0 n Hlog Hst Hr) as (i0 & m & a & Hres & _ & _ & _ & [H1 _ _ _ _ _ _ _]).
  rewrite H1, (resumes_chain _ _ _ _ _ a Hres) in Hev. apply list_elem_of_fmap in Hev as (b & [= ->] & [i Hi]%list_elem_of_lookup).
  rewrite lookup_drop in Hi. exists (Z.to_nat (rn_lastExec n0 - base) + i), b. split; [|split; [done|by eapply chain_of_number]].
  rewrite <-(take_drop a log), chain_of_app. by apply lookup_app_l_Some.
Qed.
End raft.

(** C9: Two raft nodes with the same log ([log_ok]: it can be decoded) never hand different blocks of one height to
their executors, whoever leads and however the entries are cut into pieces, when neither receives a snapshot and both
were started on a ledger that has exactly the blocks of the entries they skip, or more of them when no batch of the
log is ahead of its time ([raft_started], [resumes]). After a start on a ledger that is ahead of the stored index,
with a log that is not in order, they can differ ([replay_differs]). *)
Theorem raft_replicas_agree `{BTreeLib, GoRange} (g1 g2 : string → Z) tx_object Unmarshal_batch Unmarshal_msg Unmarshal_txs ApplyConfChange
    Step_raft1 Step_raft2 Send_blocks1 Send_blocks2 log base n01 n1 n02 n2 ev1 ev2 :
  log_ok Unmarshal_batch ApplyConfChange log base →
  raft_started Unmarshal_batch log base n01 → raft_started Unmarshal_batch log base n02 →
  rtc (raft_step g1 tx_object Unmarshal_batch Unmarshal_msg Unmarshal_txs ApplyConfChange Step_raft1 Send_blocks1 log) n01 n1 →
  rtc (raft_step g2 tx_object Unmarshal_batch Unmarshal_msg Unmarshal_txs ApplyConfChange Step_raft2 Send_blocks2 log) n02 n2 →
  Some ev1 ∈ rn_commitC n1 → Some ev2 ∈ rn_commitC n2 →
  bh_Number (b_Header (ce_Block ev1)) = bh_Number (b_Header (ce_Block ev2)) → ev1 = ev2.
Proof.
  intros Hlog Hs1 Hs2 Hr1 Hr2 He1 He2.
  destruct (raft_event_of_log g1 tx_object _ _ _ _ _ _ log base n01 n1 ev1 Hlog Hs1 Hr1 He1) as (i1 & b1 & Hi1 & -> & Hb1).
  destruct (raft_event_of_log g2 tx_object _ _ _ _ _ _ log base n02 n2 ev2 Hlog Hs2 Hr2 He2) as (i2 & b2 & Hi2 & -> & Hb2).
  cbn. intros E. assert (i1 = i2) as -> by lia. congruence.
Qed.

(** A node that receives a snapshot of a height that its ledger has already reached waits for ever: the syncer refuses the
range and sends nothing, not even the nil that ends the blocks. *)
Lemma snapshot_reached_waits `{BTreeLib} (Send_blocks : Z → Z → Z → option (list Block)) (n : RaftNode) rand attempts fuel target index chainHeight heights :
  (0 ≤ target ≤ chainHeight)%Z → (chainHeight < MaxUint64)%Z →
  recoverFromSnapshot Send_blocks n (Some (target, index)) rand attempts fuel (chainHeight :: heights) = None.
Proof.
  intros Ht Hc. cbn. unfold SyncCFTBlocks, calcRangeHeight. rewrite (u64_small (chainHeight + 1)) by (unfold is_u64, MaxUint64 in *; lia).
  by rewrite decide_True by lia.
Qed.

(** ** Runs on samples *)

Module ConsensusSample.
Import Sample.

Definition object (tx : option Tx) : Transaction :=
  match tx with
  | Some tx => BxhTx (MkBxhTransaction (tx_from tx) "to" (tx_nonce tx) (tx_hash tx) (tx_timestamp tx) None None None)
  | None => UnknownTx "" 0 ""
  end.

(** *** The cache *)

Definition half_set : TxCache := MkTxCache [] [alice1] 2 [[bob3; alice0]].

Lemma cache_keeps_witness :
  omap id [Some bob3; None; Some alice0; Some alice1] = concat (tc_posted half_set) ++ tc_txSet half_set ++ omap id (tc_RecvTxC half_set).
Proof.
  refine (proj1 (cache_keeps 2 [Some bob3; None; Some alice0; Some alice1] half_set _ _)); [by split|].
  eapply rtc_l; [by apply (cache_step_recv _ _ (Some bob3))|]. eapply rtc_l; [by apply (cache_step_recv _ _ None)|].
  eapply rtc_l; [by apply (cache_step_recv _ _ (Some alice0))|]. eapply rtc_l; [by apply (cache_step_recv _ _ (Some alice1))|].
  do 4 (eapply rtc_l; [apply (cache_step_event _ _ CacheRecv)|]). vm_compute. apply rtc_refl.
Defined.

(** *** The solo node *)

Definition solo0 : SoloNode := NewSoloNode config.
Definition solo1 : SoloNode := default solo0 (solo_main ledger solo0 (SoloTxSet request 90 100 100)).
Definition solo2 : SoloNode := default solo0 (solo_main ledger solo1 (SoloBatchTimeout 200 201)).
Definition block8 : RequestBatch := MkRequestBatch [Some alice0; Some alice1] 8 201.
Definition solo3 : SoloNode :=
  MkSolo (so_isTimed solo2) (so_mempool solo2) (so_batchMgr solo2) (so_lastExec solo2) (so_commitC solo2) None (Some (Some block8)) true.
Definition solo4 : SoloNode := default solo0 (solo_execute object solo3 (Some block8)).

Lemma solo4_reachable : rtc (solo_step ledger object) solo0 solo4.
Proof.
  apply (rtc_l _ _ solo1). { apply (solo_step_main ledger object solo0 (SoloTxSet request 90 100 100)); [done|apply request_ok|]. unfold solo1. apply run_default. vm_compute. reflexivity. }
  apply (rtc_l _ _ solo2). { apply (solo_step_main ledger object solo1 (SoloBatchTimeout 200 201)); [vm_compute; reflexivity|done|]. unfold solo2. apply run_default. vm_compute. reflexivity. }
  apply (rtc_l _ _ solo3). { apply (solo_step_receive ledger object solo2 (Some block8)); vm_compute; reflexivity. }
  apply rtc_once. apply (solo_step_execute ledger object solo3 (Some block8)); [done|]. unfold solo4. apply run_default. vm_compute. reflexivity.
Qed.

Lemma solo_chain_witness :
  so_commitC solo4 = [event_of object true block8] ∧ so_listening solo4 = true ∧
  ∃ batches, so_commitC solo4 = event_of object true <$> batches ∧ NoDup (batches ≫= batch_keys).
Proof.
  split; [vm_compute; reflexivity|].
  assert (is_u64 (cfg_ChainHeight config)) as Hu by (unfold is_u64; cbn; lia).
  destruct (solo_chain ledger object config ledger_ok Hu solo4 solo4_reachable) as (Hl & _ & Hb & _). split; [exact Hl|exact Hb].
Defined.

(** A solo node tells its mempool only of every tenth block: the transactions of block 8 stay in the pool. *)
Example solo_keeps_transactions :
  solo_main ledger solo4 (SoloState 8 ["h0"; "h1"]) = Some solo4 ∧
  Mempool.GetTransaction (so_mempool solo4) "h0" = Some alice0 ∧
  bool_decide (OrderedIndexKey "alice" 0 ∈ batchedTxs (txStore (so_mempool solo4))) = true.
Proof. split_and!; vm_compute; reflexivity. Qed.

(** *** The raft node *)

Definition bob0 : Tx := MkTx "bob" 0 "b0" 50.
Definition batch8 : RequestBatch := MkRequestBatch [Some alice0] 8 300.
Definition batch9 : RequestBatch := MkRequestBatch [Some alice1] 9 400.
Definition batch9' : RequestBatch := MkRequestBatch [Some bob0] 9 350.

Definition decode (s : string) : option RequestBatch :=
  if decide (s = "8") then Some batch8 else if decide (s = "9") then Some batch9 else if decide (s = "9'") then Some batch9' else None.
Definition decode_msg (s : string) : option RaftMessage := Some (MkRaftMessage RaftMessage_BROADCAST_TX 2 s).
Definition decode_txs (s : string) : option (list Tx) := if decide (s = "alice0") then Some [alice0] else None.
Definition conf_change (s : string) : option string := if decide (s = "add") then Some "5 nodes" else None.
Definition no_answer (s : string) : option string := None.
Definition no_blocks (id begin end_ : Z) : option (list Block) := None.

Definition run_raft (n : RaftNode) (evs : list RaftEvent) : option RaftNode :=
  foldl (λ n ev, n ← n; listenRaftMsg ledger object decode decode_msg decode_txs conf_change no_answer no_blocks n ev) (Some n) evs.

(** A node with a ledger of height [h], the index [storage] in its database, and a snapshot at [snap]. *)
Definition start (h : Z) (storage : option (list Z)) (snap snapCount : Z) : option RaftNode :=
  n ← NewRaftNode (MkConfig 1 5 100 false 2 h) storage snapCount 0 4 [2; 3; 4]%Z;
  StartRaft n snap "4 nodes".

Definition the_log : list Entry :=
  [MkEntry EntryNormal 1 ""; MkEntry EntryNormal 2 "8"; MkEntry EntryConfChange 3 "add"; MkEntry EntryNormal 4 "9"].

Definition ready_all (ents : list Entry) : RaftEvent := RaftReady (MkReady None None ents 4 true).

Definition blank : RaftNode :=
  MkRaft _ 0 0 false 0 (MkSyncer 0 0 [] ∅) None (newMempoolImpl config) (NewTxCache 0) NewTimer [] [] [] "" ∅ 0 0 0 [] 0 0 false.
Definition fresh : RaftNode := default blank (start 7 None 0 0).
Definition again : RaftNode := default fresh (start 8 (Some (PutUint64 2)) 0 0).
Definition fresh_done : RaftNode := default fresh (run_raft fresh [ready_all the_log]).
Definition again_done : RaftNode := default again (run_raft again [ready_all the_log]).

Lemma the_log_ok : log_ok decode conf_change the_log 7.
Proof.
  split.
  - intros i e Hi. do 4 (destruct i as [|i]; [by injection Hi as <-|]). done.
  - intros e He. unfold the_log in He. rewrite !elem_of_cons, elem_of_nil in He.
    destruct He as [->|[->|[->|[->|[]]]]]; cbn; [by left|by right|done|by right].
  - by split.
Qed.

Lemma fresh_started : raft_started decode the_log 7 fresh.
Proof.
  exists (MkConfig 1 5 100 false 2 7), None, 0%Z, 0%Z, 4, [2; 3; 4]%Z. eexists _, 0%Z, "4 nodes", 0%Z.
  split; [reflexivity|]. split; [reflexivity|]. split; [vm_compute; reflexivity|]. split; [by split|]. split; [by split|]. by left.
Qed.

Lemma again_started : raft_started decode the_log 7 again.
Proof.
  exists (MkConfig 1 5 100 false 2 8), (Some (PutUint64 2)), 0%Z, 0%Z, 4, [2; 3; 4]%Z. eexists _, 0%Z, "4 nodes", 2%Z.
  split; [reflexivity|]. split; [vm_compute; reflexivity|]. split; [vm_compute; reflexivity|]. split; [by split|]. split; [by split|]. by left.
Qed.

Notation step := (raft_step ledger object decode decode_msg decode_txs conf_change no_answer no_blocks the_log).

Lemma fresh_run : rtc step fresh fresh_done.
Proof.
  apply rtc_once. exists (ready_all the_log). split; [split; [done|]; by exists 0, 4|].
  unfold fresh_done, run_raft. cbn [foldl mbind option_bind]. apply run_default. vm_compute. reflexivity.
Qed.

Lemma again_run : rtc step again again_done.
Proof.
  apply rtc_once. exists (ready_all the_log). split; [split; [done|]; by exists 0, 4|].
  unfold again_done, run_raft. cbn [foldl mbind option_bind]. apply run_default. vm_compute. reflexivity.
Qed.

Lemma raft_refines_log_witness :
  rn_commitC again_done = [Some (event_of object false batch9)] ∧
  rn_commitC again_done =
    (λ b, Some (event_of object false b)) <$> drop 1 (chain_of decode 7 (take (Z.to_nat (rn_appliedIndex again_done)) the_log)).
Proof.
  split; [vm_compute; reflexivity|].
  apply (proj1 (raft_refines_log ledger object decode decode_msg decode_txs conf_change no_answer no_blocks the_log 7 again again_done
    the_log_ok again_started again_run)).
Defined.

Lemma raft_replicas_agree_witness :
  Some (event_of object false batch9) ∈ rn_commitC fresh_done ∧ Some (event_of object false batch9) ∈ rn_commitC again_done ∧
  event_of object false batch9 = event_of object false batch9.
Proof.
  assert (Some (event_of object false batch9) ∈ rn_commitC fresh_done) as H1.
  { assert (rn_commitC fresh_done = [Some (event_of object false batch8); Some (event_of object false batch9)]) as -> by (vm_compute; reflexivity). right. by left. }
  assert (Some (event_of object false batch9) ∈ rn_commitC again_done) as H2.
  { assert (rn_commitC again_done = [Some (event_of object false batch9)]) as -> by (vm_compute; reflexivity). by left. }
  split; [done|]. split; [done|].
  apply (raft_replicas_agree ledger ledger object decode decode_msg decode_txs conf_change no_answer no_answer no_blocks no_blocks the_log 7
    fresh fresh_done again again_done _ _ the_log_ok fresh_started again_started fresh_run again_run H1 H2 eq_refl).
Defined.

(** *** Where the raft node does not do what it means to *)

Definition result (n : option RaftNode) := (λ n, (rn_commitC n, rn_appliedIndex n, rn_lastExec n, rn_snapshots n)) <$> n.
Definition block_event (b : RequestBatch) : option CommitEvent := Some (event_of object false b).

(** A snapshot says that the height is 8 as soon as block 8 is handed to the executor. A node that stops before the executor
has written the block starts again with a ledger of height 7 after entry 2; block 8 never comes back, and all
later blocks are ignored. *)
Example snapshot_before_execution :
  result (n ← start 7 None 0 2; run_raft n [ready_all (take 2 the_log)]) = Some ([block_event batch8], 2, 8, [(2, 8)])%Z ∧
  result (n ← start 7 None 2 2; run_raft n [ready_all (drop 2 the_log)]) = Some ([], 4, 7, [(4, 7)])%Z.
Proof. split; vm_compute; reflexivity. Qed.

(** A log with a batch that is ahead: the proposal of block 8 of the same leader was lost. *)
Definition ahead_log : list Entry :=
  [MkEntry EntryNormal 1 ""; MkEntry EntryNormal 2 "9'"; MkEntry EntryNormal 3 "8"; MkEntry EntryNormal 4 "9"].

(** The comment on the check of the index says that a node may stop after it has written a block and before it has written
the index. When it starts again it applies a batch that it ignored before, and has another block 9 than the others. *)
Example replay_differs :
  result (n ← start 7 None 0 0; run_raft n [ready_all ahead_log]) = Some ([block_event batch8; block_event batch9], 4, 9, [])%Z ∧
  result (n ← start 8 None 0 0; run_raft n [ready_all ahead_log]) = Some ([block_event batch9'], 4, 9, [])%Z.
Proof. split; vm_compute; reflexivity. Qed.

(** A node with the transaction of [alice] applies block 8, which has it, and becomes the leader before the executor has
reported the block. It is to make no batches while there are blocks in flight (entry 4), but nothing keeps it from
doing so, and its next batch has the transaction a second time. *)
Example new_leader_sends_again :
  rn_proposeC <$> (n ← start 7 None 0 0;
    run_raft n [RaftMsg "alice0" 10 10 10; ready_all (take 2 the_log); RaftReady (MkReady None (Some 1%Z) [] 4 true);
                RaftPrepare bob0 20 20 20; RaftBatchTimeout 30 30]) =
    Some [Some (MkRequestBatch [Some alice0; Some bob0] 9 30)].
Proof. vm_compute. reflexivity. Qed.

(** A leader whose proposal of block 8 is lost goes on with block 9; this and all later blocks of it are ignored. *)
Example lost_proposal_stalls :
  (λ n, (rb_Height <$> omap id (rn_proposeC n), rn_commitC n, rn_lastExec n)) <$>
    (n ← start 7 None 0 0;
     run_raft n [RaftReady (MkReady None (Some 1%Z) [MkEntry EntryNormal 1 ""] 1 true); RaftPrepare alice0 10 10 10; RaftBatchTimeout 20 20;
                 RaftPrepare alice1 30 30 30; RaftBatchTimeout 40 40; RaftReady (MkReady None None [MkEntry EntryNormal 2 "9"] 2 true)]) =
    Some ([8; 9], [], 7)%Z.
Proof. vm_compute. reflexivity. Qed.
End ConsensusSample.
