(* ===== verification/Filters.v ===== *)
(** * Logs of Ethereum contracts: [src/api/jsonrpc/namespaces/eth/filters]

Clients ask for logs by block, contract and topics ([Logs] of [filter.go]), or install a filter and poll what has come since
([filter_system.go], [api.go]). A bloom filter in the header of a block ([CreateBloom] of
[src/internal/ledger/evmstate_accessor.go], set by the executor) tells which blocks need not be read. The API reads
the chain ledger through [src/internal/coreapi/broker.go].

The records of logs and headers have neither the number of the block nor the bloom filter: these are arguments. An outer
[None] is a panic or a loop that is not over, an inner one an error. *)
From Stdlib Require Import Ascii.
From S2P Require Import Prelude Storage Account StateLedger Contract TransactionManager Interchain Executor Transactions Blocks TxExecutor ChainLedger ChainLedgerProps ProofPool Syncer ChainSample.

(** [types.Bloom] of bitxhub-kit: what was added is found; others may be found too. *)
Class BloomLib := {
  Bloom : Type;
  bloom_empty : Bloom;
  bloom_Add : string → Bloom → Bloom;
  bloom_Or : Bloom → Bloom → Bloom;
  bloom_Test : string → Bloom → bool;
  addr_Bytes : string → string;
  hash_Bytes : string → string;
  bloom_add_same x b : bloom_Test x (bloom_Add x b) = true;
  bloom_add_mono x y b : bloom_Test x b = true → bloom_Test x (bloom_Add y b) = true;
  bloom_or_mono x b1 b2 : bloom_Test x b1 = true → bloom_Test x (bloom_Or b1 b2) = true }.

(** ** Criteria *)

Notation Topics := (list (list string)).

(** The labelled loop of [FilterLogs] over the topics: whether all match. *)
Fixpoint topicsMatch (topics : Topics) (logTopics : list string) : bool :=
  match topics, logTopics with
  | [], _ => true
  | sub :: topics, t :: logTopics => (bool_decide (sub = []) || bool_decide (t ∈ sub)) && topicsMatch topics logTopics
  | _ :: _, [] => false
  end.

Section filters.
Context `{BloomLib} (log_BlockNumber : EvmLog → Z) (receipt_Bloom : Receipt → option Bloom) (header_Bloom : BlockHeader → Bloom).

Definition includes (addresses : list string) (a : string) : bool := bool_decide (a ∈ addresses).

(** Whether a log is kept; a block number below 0 is one of the names of blocks. *)
Definition keepLog (fromBlock toBlock : option Z) (addresses : list string) (topics : Topics) (log : EvmLog) : bool :=
  if match fromBlock with Some from => bool_decide (0 ≤ from)%Z && bool_decide (log_BlockNumber log < from)%Z | None => false end then false
  else if match toBlock with Some to => bool_decide (0 ≤ to)%Z && bool_decide (to < log_BlockNumber log)%Z | None => false end then false
  else if negb (bool_decide (addresses = [])) && negb (includes addresses (el_address log)) then false
  else if decide (length (el_topics log) < length topics) then false
  else topicsMatch topics (el_topics log).

Definition FilterLogs (logs : list EvmLog) (fromBlock toBlock : option Z) (addresses : list string) (topics : Topics) : list EvmLog :=
  filter (λ log, keepLog fromBlock toBlock addresses topics log = true) logs.

Definition bloomFilter (bloom : Bloom) (addresses : list string) (topics : Topics) : bool :=
  (bool_decide (addresses = []) || existsb (λ a, bloom_Test (addr_Bytes a) bloom) addresses) &&
  forallb (λ sub, bool_decide (sub = []) || existsb (λ t, bloom_Test (hash_Bytes t) bloom) sub) topics.

Definition CreateBloom (receipts : list Receipt) : Bloom :=
  foldl (λ bin receipt,
    let bin := foldl (λ bin log, foldl (λ bin t, bloom_Add (hash_Bytes t) bin) (bloom_Add (addr_Bytes (el_address log)) bin) (el_topics log))
                 bin (rc_EvmLogs receipt) in
    match receipt_Bloom receipt with Some b => bloom_Or bin b | None => bin end) bloom_empty receipts.

(** ** [BrokerAPI] *)

Context `{StorageLib, BlockFileLib, ChainLib, GoRange}.
Implicit Types (l : ChainLedgerImpl).

(** Heights fit an [int], so that they are read back from their text. *)
Inductive BlockMode := HEIGHT (height : Z) | HASH (hash : string) | LATEST.

Definition broker_GetBlock l (mode : BlockMode) (fullTx : bool) : option Block :=
  match mode with
  | HEIGHT height => GetBlock l height fullTx
  | HASH hash => GetBlockByHash l hash fullTx
  | LATEST => GetBlock l (cm_Height (GetChainMeta l)) fullTx
  end.

Definition broker_heights l (start end_ : Z) : list Z :=
  let end_ := if decide (cm_Height (GetChainMeta l) < end_)%Z then cm_Height (GetChainMeta l) else end_ in
  if decide (0 < start)%Z then heights_of start end_ else [].

Definition GetBlocks l (start end_ : Z) (fullTx : bool) : list Block :=
  omap (λ i, broker_GetBlock l (HEIGHT i) fullTx) (broker_heights l start end_).

Definition GetBlockHeaders l (start end_ : Z) : list BlockHeader :=
  omap (λ i, b_Header <$> broker_GetBlock l (HEIGHT i) false) (broker_heights l start end_).

(** ** Queries *)

Record Filter := MkFilter { f_addresses : list string; f_topics : Topics; f_block : option string; f_begin : Z; f_end : Z }.

Definition NewRangeFilter (begin end_ : Z) (addresses : list string) (topics : Topics) : Filter :=
  MkFilter addresses topics None begin end_.
Definition NewBlockFilter (block : string) (addresses : list string) (topics : Topics) : Filter :=
  MkFilter addresses topics (Some block) 0 0.

Fixpoint receiptsOf l (txs : list Transaction) : option (option (list Receipt)) :=
  match txs with
  | [] => Some (Some [])
  | tx :: txs =>
      receipt ← GetReceipt l (GetHash tx);
      match receipt with
      | None => Some None
      | Some receipt => rest ← receiptsOf l txs; Some (fmap (M:=option) (cons receipt) rest)
      end
  end.

Definition getBlockReceipts l (blockNum : Z) : option (option (list Receipt)) :=
  match broker_GetBlock l (HEIGHT blockNum) false with
  | None => Some None
  | Some block => receiptsOf l (b_Transactions block)
  end.

Definition checkMatches l (f : Filter) (blockNum : Z) : option (option (list EvmLog)) :=
  receipts ← getBlockReceipts l blockNum;
  Some (fmap (M:=option) (λ rs, FilterLogs (rs ≫= rc_EvmLogs) None None (f_addresses f) (f_topics f)) receipts).

Definition blockLogs l (f : Filter) (header : BlockHeader) : option (option (list EvmLog)) :=
  if bloomFilter (header_Bloom header) (f_addresses f) (f_topics f) then checkMatches l f (bh_Number header) else Some (Some []).

Fixpoint unindexedLogs l (f : Filter) (fuel : nat) (begin end_ : Z) : option (option (list EvmLog)) :=
  if decide (begin ≤ i64 end_)%Z
  then
    match fuel with
    | 0 => None
    | S fuel =>
        match GetBlockHeaders l (u64 begin) (u64 begin) with
        | [] => Some (Some [])
        | header :: _ =>
            found ← blockLogs l f header;
            match found with
            | None => Some None
            | Some found => rest ← unindexedLogs l f fuel (i64 (begin + 1)) end_; Some (fmap (M:=option) (app found) rest)
            end
        end
    end
  else Some (Some []).

(** [rpc.LatestBlockNumber] and [rpc.PendingBlockNumber] *)
Definition LatestBlockNumber : Z := -1.
Definition PendingBlockNumber : Z := -2.

Definition Logs l (f : Filter) (fuel : nat) : option (option (list EvmLog)) :=
  match f_block f with
  | Some hash =>
      match broker_GetBlock l (HASH hash) false with
      | None => Some None
      | Some block => blockLogs l f (b_Header block)
      end
  | None =>
      let head := cm_Height (GetChainMeta l) in
      let begin := if decide (f_begin f = -1)%Z then i64 head else f_begin f in
      let end_ := if decide (f_end f = -1)%Z then head else u64 (f_end f) in
      unindexedLogs l f fuel begin end_
  end.

(** ** Subscriptions *)

(** [FilterQuery] *)
Record FilterQuery := MkQuery {
  q_BlockHash : option string; q_FromBlock : option Z; q_ToBlock : option Z; q_Addresses : list string; q_Topics : Topics }.

(** [Type]: a byte. *)
Definition UnknownSubscription : nat := 0.
Definition LogsSubscription : nat := 1.
Definition PendingLogsSubscription : nat := 2.
Definition MinedAndPendingLogsSubscription : nat := 3.
Definition PendingTransactionsSubscription : nat := 4.
Definition BlocksSubscription : nat := 5.

(** The subscriptions by type and identity, with their criteria. *)
Notation filterIndex := (gmap nat (gmap string FilterQuery)).

Definition index_put (index : filterIndex) (typ : nat) (id : string) (crit : FilterQuery) : filterIndex :=
  <[typ := <[id := crit]> (default ∅ (index !! typ))]> index.
Definition index_del (index : filterIndex) (typ : nat) (id : string) : filterIndex :=
  <[typ := delete id (default ∅ (index !! typ))]> index.

(** The cases [install] and [uninstall] of [eventLoop]. *)
Definition install (index : filterIndex) (typ : nat) (id : string) (crit : FilterQuery) : filterIndex :=
  if decide (typ = MinedAndPendingLogsSubscription)
  then index_put (index_put index LogsSubscription id crit) PendingLogsSubscription id crit
  else index_put index typ id crit.
Definition uninstall (index : filterIndex) (typ : nat) (id : string) : filterIndex :=
  if decide (typ = MinedAndPendingLogsSubscription)
  then index_del (index_del index LogsSubscription id) PendingLogsSubscription id
  else index_del index typ id.

(** The type of a subscription to logs; [None] is the error. *)
Definition SubscribeLogs (crit : FilterQuery) : option nat :=
  let from := default LatestBlockNumber (q_FromBlock crit) in
  let to := default LatestBlockNumber (q_ToBlock crit) in
  if decide (from = PendingBlockNumber ∧ to = PendingBlockNumber) then Some PendingLogsSubscription
  else if decide (from = LatestBlockNumber ∧ to = LatestBlockNumber) then Some LogsSubscription
  else if decide (0 ≤ from ∧ 0 ≤ to ∧ from ≤ to)%Z then Some LogsSubscription
  else if decide (LatestBlockNumber ≤ from ∧ to = PendingBlockNumber)%Z then Some MinedAndPendingLogsSubscription
  else if decide (0 ≤ from ∧ to = LatestBlockNumber)%Z then Some LogsSubscription
  else None.

(** [filter] and [PublicFilterAPI] with its event system. *)
Record filter_state := MkFilterState {
  fs_typ : nat; fs_hashes : list string; fs_crit : FilterQuery; fs_logs : list EvmLog; fs_subscription : nat }.
Record FilterAPI := MkFilterAPI { fa_index : filterIndex; fa_filters : gmap string filter_state }.

Definition no_crit : FilterQuery := MkQuery None None None [] [].

Definition NewFilter (api : FilterAPI) (id : string) (crit : FilterQuery) : option FilterAPI :=
  typ ← SubscribeLogs crit;
  Some (MkFilterAPI (install (fa_index api) typ id crit) (<[id := MkFilterState LogsSubscription [] crit [] typ]> (fa_filters api))).

Definition NewPendingTransactionFilter (api : FilterAPI) (id : string) : FilterAPI :=
  MkFilterAPI (install (fa_index api) PendingTransactionsSubscription id no_crit)
    (<[id := MkFilterState PendingTransactionsSubscription [] no_crit [] PendingTransactionsSubscription]> (fa_filters api)).

Definition NewHeadFilter (api : FilterAPI) (id : string) : FilterAPI :=
  MkFilterAPI (install (fa_index api) BlocksSubscription id no_crit)
    (<[id := MkFilterState BlocksSubscription [] no_crit [] BlocksSubscription]> (fa_filters api)).

(** The routines that take what a subscription delivers. *)
Definition add_logs (logs : list EvmLog) (f : filter_state) : filter_state :=
  MkFilterState (fs_typ f) (fs_hashes f) (fs_crit f) (fs_logs f ++ logs) (fs_subscription f).
Definition add_hashes (hashes : list string) (f : filter_state) : filter_state :=
  MkFilterState (fs_typ f) (fs_hashes f ++ hashes) (fs_crit f) (fs_logs f) (fs_subscription f).

Definition handleLogs (api : FilterAPI) (ev : list EvmLog) : FilterAPI :=
  if decide (ev = []) then api
  else
    MkFilterAPI (fa_index api)
      (foldl (λ filters sub,
         let crit := (sub : string * FilterQuery).2 in
         let matchedLogs := FilterLogs ev (q_FromBlock crit) (q_ToBlock crit) (q_Addresses crit) (q_Topics crit) in
         if decide (matchedLogs = []) then filters else alter (add_logs matchedLogs) sub.1 filters)
       (fa_filters api) (go_range (default ∅ (fa_index api !! LogsSubscription)))).

Definition deliver_hashes (api : FilterAPI) (typ : nat) (hashes : list string) : FilterAPI :=
  MkFilterAPI (fa_index api)
    (foldl (λ filters sub, alter (add_hashes hashes) (sub : string * FilterQuery).1 filters) (fa_filters api)
       (go_range (default ∅ (fa_index api !! typ)))).

Definition handleTxsEvent (api : FilterAPI) (txs : list Transaction) : FilterAPI :=
  deliver_hashes api PendingTransactionsSubscription (GetHash <$> txs).

Definition handleChainEvent (api : FilterAPI) (headerHash : string) : FilterAPI :=
  deliver_hashes api BlocksSubscription [headerHash].

Definition UninstallFilter (api : FilterAPI) (id : string) : bool * FilterAPI :=
  match fa_filters api !! id with
  | None => (false, api)
  | Some f => (true, MkFilterAPI (uninstall (fa_index api) (fs_subscription f) id) (delete id (fa_filters api)))
  end.

(** What has come since the last call; [None] is the error. *)
Definition GetFilterChanges (api : FilterAPI) (id : string) : option (list string + list EvmLog) * FilterAPI :=
  match fa_filters api !! id with
  | None => (None, api)
  | Some f =>
      let cleared hashes logs := MkFilterAPI (fa_index api) (<[id := MkFilterState (fs_typ f) hashes (fs_crit f) logs (fs_subscription f)]> (fa_filters api)) in
      if decide (fs_typ f = PendingTransactionsSubscription ∨ fs_typ f = BlocksSubscription) then (Some (inl (fs_hashes f)), cleared [] (fs_logs f))
      else if decide (fs_typ f = LogsSubscription ∨ fs_typ f = MinedAndPendingLogsSubscription) then (Some (inr (fs_logs f)), cleared (fs_hashes f) [])
      else (None, api)
  end.

(** [GetLogs] and [GetFilterLogs]: a query with the criteria. *)
Definition filter_of (crit : FilterQuery) : Filter :=
  match q_BlockHash crit with
  | Some hash => NewBlockFilter hash (q_Addresses crit) (q_Topics crit)
  | None => NewRangeFilter (default LatestBlockNumber (q_FromBlock crit)) (default LatestBlockNumber (q_ToBlock crit)) (q_Addresses crit) (q_Topics crit)
  end.

Definition GetLogs l (crit : FilterQuery) (fuel : nat) : option (option (list EvmLog)) := Logs l (filter_of crit) fuel.

Definition GetFilterLogs l (api : FilterAPI) (id : string) (fuel : nat) : option (option (list EvmLog)) :=
  match fa_filters api !! id with
  | None => Some None
  | Some f => if decide (fs_typ f ≠ LogsSubscription) then Some None else Logs l (filter_of (fs_crit f)) fuel
  end.
End filters.

(** ** The bloom filter loses no log *)

(** The specification: a log matches when its contract is one of those asked for, and each topic is one of the alternatives
of its place; no contracts and no alternatives match all. *)
Definition log_matches (addresses : list string) (topics : Topics) (log : EvmLog) : Prop :=
  (addresses = [] ∨ el_address log ∈ addresses) ∧ length topics ≤ length (el_topics log) ∧
  Forall (λ p, p.1 = [] ∨ p.2 ∈ p.1) (zip topics (el_topics log)).

Global Instance log_matches_dec addresses topics log : Decision (log_matches addresses topics log).
Proof. unfold log_matches. apply _. Defined.

Lemma topicsMatch_spec topics ts :
  topicsMatch topics ts = true ↔ length topics ≤ length ts ∧ Forall (λ p, p.1 = [] ∨ p.2 ∈ p.1) (zip topics ts).
Proof.
  revert ts. induction topics as [|sub topics IH]; intros [|t ts]; cbn.
  - split; [by split|done].
  - split; [intros _; split; [lia|constructor]|done].
  - split; [done|]. intros [? _]. lia.
  - rewrite andb_true_iff, orb_true_iff, !bool_decide_eq_true, IH, Forall_cons. cbn. split; [intros [? [? ?]]; split; [lia|done]|].
    intros [? [? ?]]. split; [done|]. split; [lia|done].
Qed.

Section exact.
Context `{BloomLib} (log_BlockNumber : EvmLog → Z) (receipt_Bloom : Receipt → option Bloom) (header_Bloom : BlockHeader → Bloom).
Implicit Types (log : EvmLog) (bin : Bloom).

Lemma keepLog_spec addresses topics log :
  keepLog log_BlockNumber None None addresses topics log = true ↔ log_matches addresses topics log.
Proof.
  unfold keepLog, log_matches, includes. case_bool_decide as Ha; cbn; [|case_bool_decide as Hin; cbn].
  - case_decide as Hl; [split; [done|intros (_ & ? & _); lia]|]. rewrite topicsMatch_spec. tauto.
  - case_decide as Hl; [split; [done|intros (_ & ? & _); lia]|]. rewrite topicsMatch_spec. tauto.
  - split; [done|]. intros ([?|?] & _ & _); done.
Qed.

Lemma FilterLogs_spec logs addresses topics :
  FilterLogs log_BlockNumber logs None None addresses topics = filter (log_matches addresses topics) logs.
Proof. unfold FilterLogs. apply list_filter_iff. intros log. apply keepLog_spec. Qed.

(** What is in a bloom filter stays in it. *)
Lemma foldl_kept {A} (f : Bloom → A → Bloom) x xs bin :
  (∀ bin a, bloom_Test x bin = true → bloom_Test x (f bin a) = true) → bloom_Test x bin = true → bloom_Test x (foldl f bin xs) = true.
Proof. intros Hf. revert bin. induction xs as [|a xs IH]; intros bin Hb; cbn; [done|]. by apply IH, Hf. Qed.

Lemma foldl_found {A} (f : Bloom → A → Bloom) x xs bin a :
  (∀ bin a, bloom_Test x bin = true → bloom_Test x (f bin a) = true) → a ∈ xs → (∀ bin, bloom_Test x (f bin a) = true) →
  bloom_Test x (foldl f bin xs) = true.
Proof.
  intros Hf Ha Hx. revert bin. induction xs as [|b xs IH]; intros bin; [by apply elem_of_nil in Ha|]. cbn.
  apply elem_of_cons in Ha as [<-|Ha]; [|by apply IH]. by apply foldl_kept.
Qed.

Definition log_item log (x : string) : Prop := x = addr_Bytes (el_address log) ∨ ∃ t, t ∈ el_topics log ∧ x = hash_Bytes t.

Lemma CreateBloom_finds receipts receipt log x :
  receipt ∈ receipts → log ∈ rc_EvmLogs receipt → log_item log x → bloom_Test x (CreateBloom receipt_Bloom receipts) = true.
Proof.
  intros Hr Hl Hx. unfold CreateBloom.
  assert (∀ bin t, bloom_Test x bin = true → bloom_Test x (bloom_Add (hash_Bytes t) bin) = true) as Ht by (intros; by apply bloom_add_mono).
  assert (∀ bin lg, bloom_Test x bin = true →
    bloom_Test x (foldl (λ bin t, bloom_Add (hash_Bytes t) bin) (bloom_Add (addr_Bytes (el_address lg)) bin) (el_topics lg)) = true) as Hlog.
  { intros bin lg Hb. apply foldl_kept; [done|]. by apply bloom_add_mono. }
  assert (∀ bin (o : option Bloom), bloom_Test x bin = true → bloom_Test x (match o with Some b => bloom_Or bin b | None => bin end) = true) as Ho.
  { intros bin [b|] Hb; [by apply bloom_or_mono|done]. }
  apply (foldl_found _ _ _ _ receipt); [|done|].
  - intros bin rc Hb. apply Ho. by apply foldl_kept.
  - intros bin. apply Ho. apply (foldl_found _ _ _ _ log); [done|done|]. intros bin'. destruct Hx as [->|(t & Hin & ->)].
    + apply foldl_kept; [done|]. apply bloom_add_same.
    + apply (foldl_found _ _ _ _ t); [done|done|]. intros bin''. apply bloom_add_same.
Qed.

Lemma bloomFilter_finds receipts receipt log addresses topics :
  receipt ∈ receipts → log ∈ rc_EvmLogs receipt → log_matches addresses topics log →
  bloomFilter (CreateBloom receipt_Bloom receipts) addresses topics = true.
Proof.
  intros Hr Hl (Ha & Hlen & Ht). unfold bloomFilter. apply andb_true_iff. split.
  - apply orb_true_iff. destruct Ha as [->|Ha]; [by left|right]. apply existsb_exists. exists (el_address log).
    split; [by apply list_elem_of_In|]. eapply CreateBloom_finds; [done..|]. by left.
  - apply forallb_forall. intros sub Hsub%list_elem_of_In. apply list_elem_of_lookup in Hsub as [i Hi].
    destruct (lookup_lt_is_Some_2 (el_topics log) i) as [t Hti]; [apply lookup_lt_Some in Hi; lia|].
    rewrite Forall_lookup in Ht. destruct (Ht i (sub, t)) as [Hs|Hs]; [by apply lookup_zip_Some|cbn in Hs; by rewrite Hs|]. cbn in Hs.
    apply orb_true_iff. right. apply existsb_exists. exists t. split; [by apply list_elem_of_In|].
    eapply CreateBloom_finds; [done..|]. right. exists t. split; [by eapply list_elem_of_lookup_2|done].
Qed.

(** ** Queries find exactly the logs that match *)

Context `{StorageLib, BlockFileLib, ChainLib, GoRange}.
Implicit Types (l : ChainLedgerImpl) (chain : list entry).

(** Blocks as the executor makes them: a receipt for each transaction, and the bloom filter of the receipts. *)
Definition entry_ok (e : entry) : Prop :=
  length (en_receipts e) = length (en_txs e) ∧ header_Bloom (b_Header (en_block e)) = CreateBloom receipt_Bloom (en_receipts e).

Definition entry_logs (e : entry) : list EvmLog := en_receipts e ≫= rc_EvmLogs.

Lemma represents_GetReceipt chain l i e j hash rc :
  represents chain l → chain !! i = Some e → en_hashes e !! j = Some hash → en_receipts e !! j = Some rc → GetReceipt l hash = Some (Some rc).
Proof.
  intros R He Hj Hr. unfold GetReceipt. rewrite (represents_meta _ _ _ _ _ _ R He Hj). cbn [tm_BlockHeight].
  rewrite (holds_get _ _ (sf_receipts _ _ _ (rp_file _ _ R i e He))). cbn [at_index tm_Index]. by rewrite Nat2Z.id, Hr.
Qed.

Lemma receiptsOf_all l hashes rcs :
  Forall2 (λ h rc, GetReceipt l h = Some (Some rc)) hashes rcs → receiptsOf l (hash_only <$> hashes) = Some (Some rcs).
Proof.
  induction 1 as [|h rc hashes rcs Hh _ IH]; [done|]. cbn [fmap list_fmap receiptsOf]. change (GetHash (hash_only h)) with h. rewrite Hh. cbn. by rewrite IH.
Qed.

Lemma blockLogs_exact chain l i e f :
  represents chain l → chain !! i = Some e → entry_ok e →
  blockLogs log_BlockNumber header_Bloom l f (b_Header (en_block e)) = Some (Some (filter (log_matches (f_addresses f) (f_topics f)) (entry_logs e))).
Proof.
  intros R He [Hlen Hbl]. unfold blockLogs. rewrite Hbl. destruct (bloomFilter _ _ _) eqn:Eb.
  - unfold checkMatches, getBlockReceipts, broker_GetBlock. change (bh_Number (b_Header (en_block e))) with (en_number e).
    rewrite (rp_number _ _ R i e He), (represents_GetBlock_hashes _ _ _ _ R He). cbn [b_Transactions with_b_Transactions].
    rewrite (receiptsOf_all l (en_hashes e) (en_receipts e)); [cbn; by rewrite FilterLogs_spec|].
    apply Forall2_same_length_lookup_2; [unfold en_hashes; by rewrite length_fmap|]. intros j hash rc Hj Hr. by eapply represents_GetReceipt.
  - do 2 f_equal. symmetry. apply elem_of_nil_inv. intros log [Hm Hin]%list_elem_of_filter.
    apply list_elem_of_bind in Hin as (rc & Hl & Hr). by rewrite (bloomFilter_finds _ _ _ _ _ Hr Hl Hm) in Eb.
Qed.

Notation query := (Logs log_BlockNumber header_Bloom).
Notation scan := (unindexedLogs log_BlockNumber header_Bloom).

Lemma GetBlockHeaders_one chain l b :
  represents chain l → (1 ≤ b)%Z →
  GetBlockHeaders l b b = match chain !! Z.to_nat (b - 1) with Some e => [b_Header (en_block e)] | None => [] end.
Proof.
  intros R Hb. unfold GetBlockHeaders, broker_heights, GetChainMeta. destruct (rp_meta _ _ R) as [-> _]. rewrite (decide_True (P := 0 < b)%Z) by lia.
  destruct (chain !! Z.to_nat (b - 1)) as [e|] eqn:He.
  - pose proof (lookup_lt_Some _ _ _ He). rewrite decide_False by lia. rewrite heights_cons, heights_nil by lia. cbn [omap list_omap broker_GetBlock].
    replace b with (Z.of_nat (Z.to_nat (b - 1)) + 1)%Z at 1 by lia. rewrite (represents_GetBlock_hashes _ _ _ _ R He). done.
  - apply lookup_ge_None in He. case_decide; [by rewrite heights_nil by lia|]. exfalso. lia.
Qed.

(** Enough rounds: one for each block and one more. *)
Definition log_fuel chain (b : Z) : nat := S (Z.to_nat (Z.of_nat (length chain) + 1 - b)).

Lemma unindexedLogs_exact chain l f fuel b e :
  represents chain l → Forall entry_ok chain → (1 ≤ b)%Z → (0 ≤ e < 2 ^ 63 - 1)%Z → log_fuel chain b ≤ fuel →
  scan l f fuel b e =
    Some (Some (filter (log_matches (f_addresses f) (f_topics f)) (segment chain b (Z.min e (Z.of_nat (length chain))) ≫= entry_logs))).
Proof.
  intros R Hok Hb He. unfold log_fuel. revert b Hb. induction fuel as [|fuel IH]; intros b Hb Hf; [lia|].
  assert (∀ e', e' < b → segment chain b e' = [])%Z as Hnil by (intros; unfold segment; by replace (Z.to_nat (e' - b + 1)) with 0 by lia).
  cbn [unindexedLogs]. rewrite i64_small by (unfold is_i64; lia). case_decide as Hbe; [|by rewrite Hnil by lia].
  rewrite u64_small by (unfold is_u64; lia). rewrite (GetBlockHeaders_one _ _ _ R Hb). pose proof (rp_small _ _ R) as Hsm.
  destruct (chain !! Z.to_nat (b - 1)) as [en|] eqn:Hen; [|apply lookup_ge_None in Hen; by rewrite Hnil by lia].
  pose proof (lookup_lt_Some _ _ _ Hen) as Hlt. rewrite (blockLogs_exact _ _ _ _ _ R Hen) by (by eapply Forall_lookup_1).
  rewrite i64_small by (unfold is_i64; lia). cbn [mbind option_bind]. rewrite IH by lia. cbn [mbind option_bind fmap option_fmap option_map].
  destruct (segment_cons chain b (Z.min e (Z.of_nat (length chain)))) as (en' & Hen' & ->); [lia..|]. rewrite Hen in Hen'. injection Hen' as <-.
  cbn [mbind list_bind]. by rewrite filter_app.
Qed.

(** The block that a number stands for. *)
Definition block_number chain (b : Z) : Z := if decide (b = LatestBlockNumber) then Z.of_nat (length chain) else b.

(** C31: On a chain ledger whose blocks have a receipt for each transaction and the bloom filter of their receipts in
the header, a query for the logs of a stored block by its hash, or of a range that begins with block 1 or later (or
with the latest one) and ends below 2^63 - 1, finds exactly the logs that match, in their order: no block is left out
because of its bloom filter, there is no error, and the loop ends. A range that begins with block 0, as "earliest" is
read, finds nothing ([earliest_finds_nothing]). *)
Theorem Logs_exact chain l f :
  represents chain l → Forall entry_ok chain →
  match f_block f with
  | Some hash => ∀ i e fuel, chain !! i = Some e → hash = en_hash e →
      query l f fuel = Some (Some (filter (log_matches (f_addresses f) (f_topics f)) (entry_logs e)))
  | None =>
      let b := block_number chain (f_begin f) in let e := block_number chain (f_end f) in
      (1 ≤ b)%Z → (0 ≤ e < 2 ^ 63 - 1)%Z →
      query l f (log_fuel chain b) =
        Some (Some (filter (log_matches (f_addresses f) (f_topics f)) (segment chain b (Z.min e (Z.of_nat (length chain))) ≫= entry_logs)))
  end.
Proof.
  intros R Hok. pose proof (rp_small _ _ R) as Hsm. unfold Logs. destruct (f_block f) as [hash|].
  - intros i e fuel He ->. unfold broker_GetBlock, GetBlockByHash. pose proof (lookup_lt_Some _ _ _ He).
    change (compositeKey blockHashKey (hash_String (en_hash e))) with (hash_key (en_hash e)).
    rewrite (si_hash _ _ _ (rp_index _ _ R i e He)). cbn [mbind option_bind]. rewrite Atoi_fmt_d by (unfold is_i64; lia). cbn [mbind option_bind].
    rewrite u64_small by (unfold is_u64; lia). rewrite (represents_GetBlock_hashes _ _ _ _ R He). cbn [b_Header with_b_Transactions].
    apply (blockLogs_exact _ _ _ _ _ R He). by eapply Forall_lookup_1.
  - cbn zeta. unfold GetChainMeta. destruct (rp_meta _ _ R) as [-> _]. unfold block_number, LatestBlockNumber. intros Hb He.
    destruct (decide (f_begin f = -1)%Z), (decide (f_end f = -1)%Z);
      rewrite ?i64_small, ?u64_small by (unfold is_i64, is_u64; lia); by apply unindexedLogs_exact.
Qed.

(** A range that begins with block 0, as the name [earliest] is read, finds nothing at all. *)
Theorem earliest_finds_nothing l f fuel :
  f_block f = None → f_begin f = 0%Z → query l f (S fuel) = Some (Some []).
Proof.
  intros Hf Hb. unfold Logs. rewrite Hf, Hb. rewrite (decide_False (P := 0%Z = (-1)%Z)) by done. cbn [unindexedLogs].
  case_decide; [|done]. unfold GetBlockHeaders, broker_heights. by rewrite (decide_False (P := (0 < u64 0)%Z)) by done.
Qed.

(** ** Polling *)

(** What clients and the event loop do. *)
Inductive ApiOp :=
| OpLogs (ev : list EvmLog) | OpTxs (txs : list Transaction) | OpBlock (headerHash : string)
| OpNewFilter (id : string) (crit : FilterQuery) | OpNewTxFilter (id : string) | OpNewBlockFilter (id : string)
| OpUninstall (id : string) | OpPoll (id : string).

Definition api_step (api : FilterAPI) (op : ApiOp) : FilterAPI :=
  match op with
  | OpLogs ev => handleLogs log_BlockNumber api ev
  | OpTxs txs => handleTxsEvent api txs
  | OpBlock h => handleChainEvent api h
  | OpNewFilter id crit => default api (NewFilter api id crit)
  | OpNewTxFilter id => NewPendingTransactionFilter api id
  | OpNewBlockFilter id => NewHeadFilter api id
  | OpUninstall id => (UninstallFilter api id).2
  | OpPoll id => (GetFilterChanges api id).2
  end.

(** The logs that an operation hands to the client of a filter, and those that have come for it. *)
Definition polled (id : string) (api : FilterAPI) (op : ApiOp) : list EvmLog :=
  match op with
  | OpPoll id' => if decide (id' = id) then match (GetFilterChanges api id).1 with Some (inr logs) => logs | _ => [] end else []
  | _ => []
  end.

Definition arrived (crit : FilterQuery) (op : ApiOp) : list EvmLog :=
  match op with
  | OpLogs ev => FilterLogs log_BlockNumber ev (q_FromBlock crit) (q_ToBlock crit) (q_Addresses crit) (q_Topics crit)
  | _ => []
  end.

(** An operation that is not about the installation of the filter: identities are used once. *)
Definition leaves (id : string) (op : ApiOp) : Prop :=
  match op with
  | OpNewFilter id' _ | OpNewTxFilter id' | OpNewBlockFilter id' | OpUninstall id' => id' ≠ id
  | _ => True
  end.

Fixpoint run_api (id : string) (api : FilterAPI) (ops : list ApiOp) : list EvmLog * FilterAPI :=
  match ops with
  | [] => ([], api)
  | op :: ops => let '(logs, api') := run_api id (api_step api op) ops in (polled id api op ++ logs, api')
  end.

(** A filter for logs of mined blocks is installed, and its logs are waiting. *)
Definition watching (id : string) (crit : FilterQuery) (waiting : list EvmLog) (api : FilterAPI) : Prop :=
  default ∅ (fa_index api !! LogsSubscription) !! id = Some crit ∧
  ∃ f, fa_filters api !! id = Some f ∧ fs_typ f = LogsSubscription ∧ fs_logs f = waiting.

Lemma index_put_other index typ id crit id' typ' :
  id' ≠ id → default ∅ (index_put index typ id crit !! typ') !! id' = default ∅ (index !! typ') !! id'.
Proof.
  intros Hne. unfold index_put. destruct (decide (typ' = typ)) as [->|]; [|by rewrite lookup_insert_ne].
  rewrite lookup_insert_eq. cbn. by rewrite lookup_insert_ne.
Qed.

Lemma index_del_other index typ id id' typ' :
  id' ≠ id → default ∅ (index_del index typ id !! typ') !! id' = default ∅ (index !! typ') !! id'.
Proof.
  intros Hne. unfold index_del. destruct (decide (typ' = typ)) as [->|]; [|by rewrite lookup_insert_ne].
  rewrite lookup_insert_eq. cbn. by rewrite lookup_delete_ne.
Qed.

Lemma install_other index typ id crit id' typ' :
  id' ≠ id → default ∅ (install index typ id crit !! typ') !! id' = default ∅ (index !! typ') !! id'.
Proof. intros Hne. unfold install. case_decide; by rewrite ?index_put_other. Qed.

Lemma uninstall_other index typ id id' typ' :
  id' ≠ id → default ∅ (uninstall index typ id !! typ') !! id' = default ∅ (index !! typ') !! id'.
Proof. intros Hne. unfold uninstall. case_decide; by rewrite ?index_del_other. Qed.

(** Hashes that are delivered change no logs. *)
Lemma deliver_hashes_watching id crit waiting api typ hashes :
  watching id crit waiting api → watching id crit waiting (deliver_hashes api typ hashes).
Proof.
  intros [Hi Hf]. split; [done|]. cbn. revert Hf. generalize (fa_filters api) as fs.
  induction (go_range (default ∅ (fa_index api !! typ))) as [|[id' c] subs IH]; intros fs Hf; cbn; [done|]. apply IH.
  destruct Hf as (f & Hf & Ht & Hl). destruct (decide (id' = id)) as [->|]; [|exists f; by rewrite lookup_alter_ne].
  exists (add_hashes hashes f). by rewrite lookup_alter_eq, Hf.
Qed.

(** The matching logs of an event reach the filter once. *)
Lemma handleLogs_fold id (subs : list (string * FilterQuery)) (m : FilterQuery → list EvmLog) (fs : gmap string filter_state) f :
  NoDup subs.*1 → fs !! id = Some f →
  let fs' := foldl (λ fs sub, if decide (m sub.2 = []) then fs else alter (add_logs (m sub.2)) sub.1 fs) fs subs in
  fs' !! id = Some (match list_find (λ sub, sub.1 = id) subs with Some (_, sub) => add_logs (m sub.2) f | None => f end).
Proof.
  revert fs f. induction subs as [|[id' c] subs IH]; intros fs f Hnd Hf; cbn; [done|]. apply NoDup_cons in Hnd as [Hn Hnd].
  destruct (decide (id' = id)) as [->|Hne].
  - set (fs1 := if decide (m c = []) then fs else _). assert (fs1 !! id = Some (add_logs (m c) f)) as Hf1.
    { unfold fs1. case_decide as Hm; [|by rewrite lookup_alter_eq, Hf]. rewrite Hf, Hm. unfold add_logs. rewrite app_nil_r. by destruct f. }
    rewrite (IH fs1 _ Hnd Hf1). assert (list_find (λ sub : string * FilterQuery, sub.1 = id) subs = None) as ->; [|done].
    apply list_find_None, Forall_forall. intros sub Hs E. apply Hn, list_elem_of_fmap. exists sub. by rewrite E.
  - rewrite (IH _ f Hnd); [by destruct (list_find _ subs) as [[? ?]|]|]. case_decide; [done|]. by rewrite lookup_alter_ne.
Qed.

Lemma handleLogs_watching id crit waiting api ev :
  watching id crit waiting api → watching id crit (waiting ++ arrived crit (OpLogs ev)) (handleLogs log_BlockNumber api ev).
Proof.
  intros [Hi (f & Hf & Ht & Hl)]. unfold handleLogs. cbn [arrived]. case_decide as Hev.
  { subst ev. cbn. rewrite app_nil_r. split; [done|]. by exists f. }
  split; [done|]. cbn [fa_filters]. set (m := λ c : FilterQuery, FilterLogs log_BlockNumber ev (q_FromBlock c) (q_ToBlock c) (q_Addresses c) (q_Topics c)).
  set (subs := go_range _).
  pose proof (handleLogs_fold id subs m (fa_filters api) f (NoDup_go_keys _) Hf) as Hfold. cbn zeta in Hfold.
  assert ((id, crit) ∈ subs) as Hin by (by apply elem_of_go_range).
  destruct (list_find (λ sub : string * FilterQuery, sub.1 = id) subs) as [[i [id' c]]|] eqn:Ef.
  - apply list_find_Some in Ef as (Hs & Hid & _). cbn in Hid. subst id'. apply list_elem_of_lookup_2, elem_of_go_range in Hs.
    rewrite Hi in Hs. injection Hs as <-. exists (add_logs (m crit) f). split; [exact Hfold|]. cbn. by rewrite Ht, Hl.
  - apply list_find_None in Ef. rewrite Forall_forall in Ef. by destruct (Ef _ Hin).
Qed.

(** Operations on other filters. *)
Lemma watching_other id crit waiting (api : FilterAPI) index filters :
  watching id crit waiting api →
  default ∅ (index !! LogsSubscription) !! id = default ∅ (fa_index api !! LogsSubscription) !! id → filters !! id = fa_filters api !! id →
  watching id crit waiting (MkFilterAPI index filters).
Proof. intros [Hi Hf] E1 E2. split; cbn; by rewrite ?E1, ?E2. Qed.

Lemma api_step_watching id crit waiting api op :
  watching id crit waiting api → leaves id op →
  ∃ waiting', watching id crit waiting' (api_step api op) ∧ polled id api op ++ waiting' = waiting ++ arrived crit op.
Proof.
  intros Hw Hop. destruct op as [ev|txs|h|id' crit'|id'|id'|id'|id']; cbn [polled arrived app] in *; rewrite ?app_nil_r.
  - eexists. split; [by apply handleLogs_watching|done].
  - exists waiting. split; [by apply deliver_hashes_watching|done].
  - exists waiting. split; [by apply deliver_hashes_watching|done].
  - exists waiting. split; [|done]. cbn [api_step]. unfold NewFilter. destruct (SubscribeLogs crit') as [typ|]; [|done]. cbn.
    apply (watching_other _ _ _ api); [done|by apply install_other|by apply lookup_insert_ne].
  - exists waiting. split; [|done]. apply (watching_other _ _ _ api); [done|by apply install_other|by apply lookup_insert_ne].
  - exists waiting. split; [|done]. apply (watching_other _ _ _ api); [done|by apply install_other|by apply lookup_insert_ne].
  - exists waiting. split; [|done]. cbn [api_step]. unfold UninstallFilter. destruct (fa_filters api !! id') as [f'|]; [|done].
    apply (watching_other _ _ _ api); [done|by apply uninstall_other|by apply lookup_delete_ne].
  - cbn [api_step]. destruct (decide (id' = id)) as [->|Hne].
    + destruct Hw as [Hi (f & Hf & Ht & Hl)]. unfold GetFilterChanges. rewrite Hf, Ht, Hl.
      rewrite decide_False, decide_True by (first [by left | by intros [|]]). exists []. rewrite app_nil_r. split; [|done].
      split; [done|]. cbn. eexists. rewrite lookup_insert_eq. done.
    + exists waiting. split; [|done]. unfold GetFilterChanges. destruct (fa_filters api !! id') as [f'|]; [|done].
      repeat case_decide; try done; (apply (watching_other _ _ _ api); [done|done|by apply lookup_insert_ne]).
Qed.

Lemma run_api_watching id crit waiting api ops :
  watching id crit waiting api → Forall (leaves id) ops →
  ∃ waiting', watching id crit waiting' (run_api id api ops).2 ∧ (run_api id api ops).1 ++ waiting' = waiting ++ (ops ≫= arrived crit).
Proof.
  revert waiting api. induction ops as [|op ops IH]; intros waiting api Hw Hops; cbn.
  - exists waiting. by rewrite app_nil_r.
  - apply Forall_cons in Hops as [Hop Hops]. destruct (api_step_watching id crit waiting api op Hw Hop) as (w1 & Hw1 & E1).
    destruct (IH w1 (api_step api op) Hw1 Hops) as (w2 & Hw2 & E2). destruct (run_api id (api_step api op) ops) as [logs api'] eqn:Er.
    exists w2. cbn in *. split; [done|]. by rewrite <-(assoc_L (++)), E2, !(assoc_L (++)), E1.
Qed.

(** A client that installs a filter for logs and polls it gets every log that matches its criteria exactly once and in
order, whatever other filters there are: what it has got and what is still waiting is what has matched since. *)
Theorem polls_exactly_once api id crit api0 ops :
  NewFilter api id crit = Some api0 → SubscribeLogs crit ≠ Some PendingLogsSubscription → Forall (leaves id) ops →
  ∃ waiting f, fa_filters (run_api id api0 ops).2 !! id = Some f ∧ fs_logs f = waiting ∧
    (run_api id api0 ops).1 ++ waiting = ops ≫= arrived crit.
Proof.
  intros Hn Hp Hops. assert (watching id crit [] api0) as Hw.
  { unfold NewFilter in Hn. destruct (SubscribeLogs crit) as [typ|] eqn:Es; [|done]. cbn in Hn. injection Hn as <-.
    split; [|eexists; cbn; by rewrite lookup_insert_eq]. cbn. unfold install.
    case_decide; [unfold index_put; rewrite lookup_insert_ne, lookup_insert_eq by done; cbn; apply lookup_insert_eq|].
    assert (typ = LogsSubscription) as ->; [|unfold index_put; rewrite lookup_insert_eq; apply lookup_insert_eq].
    unfold SubscribeLogs in Es. repeat case_decide; congruence. }
  destruct (run_api_watching id crit [] api0 ops Hw Hops) as (w & [_ (f & Hf & _ & Hl)] & E). by exists w, f.
Qed.
End exact.

(** ** Runs on samples *)

(** Bloom filters that keep what was added. *)
Definition bloom_by_list : BloomLib.
Proof.
  refine {| Bloom := list string; bloom_empty := []; bloom_Add := cons; bloom_Or := app; bloom_Test x b := bool_decide (x ∈ b);
            addr_Bytes a := "a" +:+ a; hash_Bytes h := "h" +:+ h |}.
  - intros x b. by apply bool_decide_eq_true, list_elem_of_here.
  - intros x y b Hx%bool_decide_eq_true. by apply bool_decide_eq_true, list_elem_of_further.
  - intros x b1 b2 Hx%bool_decide_eq_true. apply bool_decide_eq_true, elem_of_app. by left.
Defined.

Module FilterSample.
Import ChainSample.
Local Existing Instance storage_by_map.
Local Existing Instance file_by_list.
Local Existing Instance chain_lib.
Local Existing Instance range_by_encoding.
Local Existing Instance bloom_by_list.

Definition token_log : EvmLog := MkEvmLog "token" ["Transfer"; "alice"] "5" None 0 None 0.
Definition other_log : EvmLog := MkEvmLog "other" ["Transfer"; "bob"] "7" None 1 None 1.
Definition log_receipts : list Receipt :=
  [MkReceipt "t1" true None 0 false [token_log] [] None; MkReceipt "t2" true None 0 false [other_log] [] None].
Definition log_entry : entry := MkEntry (en_block entry1) log_receipts meta1.
Definition log_ledger : ChainLedgerImpl := after (PersistExecutionResult empty block1 log_receipts meta1).

Lemma log_ledger_represents : represents [log_entry] log_ledger.
Proof.
  destruct (persist_represents [] empty block1 log_entry empty_represents eq_refl) as (l' & E & R).
  { split; [reflexivity|set_solver|apply (bool_decide_unpack _); vm_compute; exact I|set_solver|reflexivity]. }
  unfold log_ledger. change log_receipts with (en_receipts log_entry). change meta1 with (en_meta log_entry). by rewrite E.
Qed.

Definition block_one (log : EvmLog) : Z := 1.
Definition no_bloom (r : Receipt) : option Bloom := None.
Definition the_bloom (h : BlockHeader) : Bloom := CreateBloom no_bloom log_receipts.
Definition transfers : Filter := NewRangeFilter 1 LatestBlockNumber ["token"; "coin"] [["Transfer"]; []].

Lemma log_entry_ok : Forall (entry_ok no_bloom the_bloom) [log_entry].
Proof. by apply Forall_singleton. Qed.

Lemma Logs_exact_witness :
  Logs block_one the_bloom log_ledger transfers (log_fuel [log_entry] 1) = Some (Some [token_log]).
Proof.
  pose proof (Logs_exact block_one no_bloom the_bloom [log_entry] log_ledger transfers log_ledger_represents log_entry_ok) as H.
  change (f_block transfers) with (@None string) in H. cbv beta iota zeta in H.
  change (block_number [log_entry] (f_begin transfers)) with 1%Z in H. change (block_number [log_entry] (f_end transfers)) with 1%Z in H.
  rewrite H by lia. vm_compute. reflexivity.
Defined.

Definition watch_token : FilterQuery := MkQuery None None None ["token"] [].
Definition no_filters : FilterAPI := MkFilterAPI ∅ ∅.
Definition installed : FilterAPI := default no_filters (NewFilter no_filters "1" watch_token).
Definition some_ops : list ApiOp :=
  [OpLogs [token_log; other_log]; OpNewTxFilter "2"; OpPoll "1"; OpPoll "2"; OpLogs [token_log]; OpUninstall "2"; OpLogs [other_log]; OpPoll "1"].

Lemma polls_exactly_once_witness :
  (run_api block_one "1" installed some_ops).1 = [token_log; token_log] ∧
  ∃ waiting f, fa_filters (run_api block_one "1" installed some_ops).2 !! "1" = Some f ∧ fs_logs f = waiting ∧
    (run_api block_one "1" installed some_ops).1 ++ waiting = some_ops ≫= arrived block_one watch_token.
Proof.
  split; [vm_compute; reflexivity|].
  apply (polls_exactly_once block_one no_filters "1" watch_token installed some_ops); [vm_compute; reflexivity|vm_compute; discriminate|].
  repeat constructor; discriminate.
Defined.

(** A filter for pending logs is accepted and never gets anything: nothing is delivered to subscriptions of its type. *)
Example pending_logs_never_come :
  (λ api, (run_api block_one "1" api [OpLogs [token_log]; OpTxs [UnknownTx "alice" 1 "t3"]; OpPoll "1"]).1) <$>
    NewFilter no_filters "1" (MkQuery None (Some PendingBlockNumber) (Some PendingBlockNumber) ["token"] []) = Some [].
Proof. vm_compute. reflexivity. Qed.
End FilterSample.
